(* ===== verification/_CoqProject ===== *)
-Q . S2P
Prelude.v
Bytes.v
Text.v
Codec.v
Crates.v
TransferProtocol.v
RemoteProtocol.v
RemoteCodec.v
RemoteSession.v
Jobs.v
Policy.v
Ledger.v
LedgerTheory.v
LedgerProperties.v
Async.v
IpcCrates.v
IpcFrame.v
IpcAuth.v
V6.v
V6Theory.v
V6Adapter.v
V6AdapterTheory.v
V6AdapterLive.v
Grant.v
DaemonGrants.v
DaemonGrantsTheory.v
DaemonRelay.v
DaemonRelayTheory.v
DaemonRuns.v
Registry.v
RegistryTheory.v
DaemonTransfers.v
DaemonTransfersTheory.v
DaemonTunnels.v
DaemonTunnelsTheory.v
DaemonTunnelsProperties.v
Posix.v
Program.v
Xfer.v
XferServe.v
PosixTheory.v
XferTheory.v
XferCalls.v
XferPush.v
XferUpload.v
XferProperties.v
XferPull.v
Host.v
JobStore.v
JobStoreTheory.v
RemoteHelper.v
RemoteHelperSteps.v
RemoteHelperTheory.v
RemoteHelperProperties.v
RemoteHelperQuery.v
Recovery.v
RecoveryTheory.v
RecoveryProperties.v
