(* ===== verification/Prelude.v ===== *)
(** * A verification of serctl

    serctl runs commands and transfers files on remote machines on behalf of
    local clients, under a compiled policy, with an authenticated record of
    what was asked and what came of it.  A command line talks to a daemon; the
    daemon holds an unlocked vault and SSH connections; over a connection it
    starts two helpers, one for file transfers ([serctl-xfer]) and one for jobs
    ([serctl-remote]).  This library models the components that decide what is
    accepted, and proves what makes each of them correct.

    ** Components and files

    - [Prelude] (this file): results and the question mark, machine integers,
      list lemmas, tactics.  [Bytes], [Text], [Codec]: bytes and big-endian
      integers, strings and UTF-8, readers of byte streams.
    - [Crates], [IpcCrates]: the third-party crates the program calls (sha2,
      hmac, hex, serde_json; base64, hkdf, chacha20poly1305, ed25519-dalek) as
      classes of operations, each with a class of documented laws, and
      executable stand-ins that satisfy the laws.  [Async]: asynchronous
      transports and the effects of the IPC code.
    - [TransferProtocol] (crates/serctl_transfer_protocol/src/lib.rs): the
      frames of native transfers.  One definition per function: [control_validate]
      is [Control::validate], [read_frame] the stream reader, [validate_next] the
      data sequence validator.
    - [RemoteProtocol], [RemoteCodec] (crates/serctl_remote_protocol/src/lib.rs,
      frames): [encode], [decode_exact], [read_frame_from], [write_frame_to] and
      the Start input digest; the second file holds the theorems.
    - [RemoteSession] (same source, sessions): modules [Controller] and
      [Helper], the two session validators with their phases.
    - [Jobs] (crates/serctl_jobs/src/lib.rs): job records and their transitions,
      authenticated receipts, reconciliation, the journal encoding.
    - [Policy] (crates/serctl_policy/src/lib.rs): policy documents, their
      compilation to a representation with a digest, and the evaluation of typed
      intents against it.
    - [Ledger], [LedgerTheory], [LedgerProperties]
      (crates/serctl_core/src/audit.rs): the hash-chained, authenticated audit
      ledger of a profile generation.  Its state is the pair of files; the
      operations run in a state-and-error monad that records every durable
      state, which are the states a crash can leave behind.
    - [Recovery], [RecoveryTheory], [RecoveryProperties]
      (crates/serctl_core/src/recovery.rs): 2-of-2 recovery of profile key
      packages: shares, media, envelopes, [generate_recovery], [seal_package]
      and [open_package].  Random bytes are arguments, X25519 is a parameter.
    - [IpcFrame], [IpcAuth] (crates/serctl_protocol/src/lib.rs): the frames
      between client and daemon with their validation and request digest; the
      framed reader and writer and both sides of the v5 handshake.
    - [V6], [V6Theory] (crates/serctl_protocol/src/v6.rs): preludes, handshake,
      key derivation, sealed frames and sessions of protocol v6.  [V6Adapter],
      [V6AdapterTheory], [V6AdapterLive]: its poll-based byte-stream adapter.
    - [Grant] (crates/serctl_protocol/src/grant.rs): operation grants and the
      agent's proofs of possession.
    - [DaemonGrants], [DaemonGrantsTheory], [DaemonRelay], [DaemonRelayTheory],
      [DaemonRuns] (crates/serctl_daemon/src/daemon.rs): the profile pool, the
      grant registry, issuance, and the relay of one request under a grant as
      interleaved atomic segments of concurrent handlers, against an audit sink
      that the ledger implements.
    - [Registry], [RegistryTheory] with [DaemonTransfers],
      [DaemonTransfersTheory], [DaemonTunnels], [DaemonTunnelsTheory],
      [DaemonTunnelsProperties] (same source): the registries of transfers and
      managed tunnels; tunnel workers, cancellation and shutdown as machines that
      step among arbitrary other callers.
    - [Posix], [PosixTheory]: files, directories, descriptors, failing calls and
      power loss.  [Program]: programs that call the system, their runs, and the
      weakest preconditions the proofs about them use.
    - [Xfer], [XferServe] (crates/serctl_xfer/src/main.rs): the transfer helper:
      lock, private files, sidecars, the no-replace commit; the handshake,
      downloads and uploads.  [XferTheory], [XferCalls], [XferPush],
      [XferUpload]: the proofs about uploads, along the parts of [serve_push];
      [XferProperties] and [XferPull] hold the theorems.
    - [Host]: what the job helper runs on: files ([Posix]), clocks, the channel
      of requests, the output relay with its thread, one child process.
      [JobStore] (crates/serctl_jobs/src/lib.rs): the directory of journals and
      receipts; [JobStoreTheory]: a persisted receipt is durable.
    - [RemoteHelper] (crates/serctl_remote/src/main.rs): the job helper,
      [serve_stdio] and [receipt_stdio] with all they call.  [RemoteHelperSteps]:
      its parts one by one, and the loop's account of the child's output.
      [RemoteHelperTheory]: the frames of a job's session, as an inductive
      grammar ([conversation]), and that every run keeps to it;
      [RemoteHelperProperties] and [RemoteHelperQuery] hold the theorems.

    The components meet where the program composes them.  A Start frame carries
    the policy digest [Policy] computes and the input digest [RemoteProtocol]
    computes; a session validator of [RemoteSession] accepts an Exit only with
    an authenticated receipt, which [Jobs] issues and verifies; the relay of
    [DaemonRelay] claims from the grants of [Grant] for the requests of [V6] and
    records them in an audit sink, which [DaemonRuns] shows the [Ledger] to be;
    the transfer helper speaks [TransferProtocol] on the files of [Posix]; the
    job helper reads and writes the frames of [RemoteProtocol], asks [Policy],
    keeps the records of [Jobs] in a [JobStore], and is accepted by the
    validators of [RemoteSession].

    ** How code becomes definitions

    Structs are records, enums inductive types, integers are [Z] with their
    width written out ([checked_add], [saturating_add], [is_u64]), strings and
    byte vectors are lists of bytes, hash and tree sets and maps are [gset] and
    [gmap].  A function that can fail returns [result]; a method on a mutable
    value takes and returns it, also when it fails.  Values shared through [Arc]
    are cells of a store.  Readers of a stream take the remaining bytes and
    return the rest.  A handler or worker that runs among others is a step
    relation or a list of atomic segments; a process on files is a [prog] whose
    calls are answered by [Posix] as a [choice] says.  Error values are the
    texts of the [ensure!] calls or the enum of the crate; in serctl_xfer and
    serctl_remote, where error chains are looked at, they are the chain with its
    types.

    Fuel: reading a whole stream ([read_frames]) takes one more than the number
    of frames; a loop of the transfer helper takes two more than the bytes it
    can advance ([size_fuel], [U64_FUEL]).  The theorems state the result for
    this fuel, and running out of it is excluded ([upload_terminates],
    [download_terminates]).  The loop of the job helper goes on for as long as
    the child does: its theorems hold at every moment of a run, for any fuel,
    and a run that is out of fuel is one that was looked at earlier.

    ** What the theorems show

    - Wire formats: decoding is the exact inverse of encoding, streams are read
      back as written, a frame cut short is rejected, whatever is accepted is
      within the limits ([frame_stream_roundtrip], [accepted_frame_is_valid],
      [remote_decode_iff_encode], [receipt_decode_iff_encode],
      [ipc_stream_roundtrip]).
    - Sessions: what the validators accept is a conversation of the protocol, in
      order, within its output budget, and no Exit without an authenticated
      receipt ([exit_requires_authenticated_receipt],
      [controller_accepts_conversations]).
    - Jobs: no record becomes terminal except by a verified receipt; an issued
      receipt is accepted; reachable records keep their invariant and survive
      the journal.
    - Policy: compilation only narrows the base template, an allowed intent is
      safe whatever the document says, deny rules only deny, order is
      irrelevant, the digest identifies the policy.
    - Ledger: in every state a crash can leave, reconciliation succeeds without
      losing an event; an anchor pins the history up to a SHA-256 collision
      among the records; append adds exactly one event or nothing; intents and
      outcomes are paired; resolution closes every open intent; initialization
      can be repeated.
    - Client and daemon: both handshakes end in agreement on the request, nonces
      never repeat, sealed frames arrive in order or not at all, the adapter is a
      FIFO of bytes and makes progress.
    - Grants: a budget is never overspent, every claimed unit belongs to an
      authorized request whose intent is on record, no terminal response
      precedes its recorded outcome.
    - Registries: capacities, isolation of profiles, discovery exactly once,
      life cycles; waiting and shutdown end, and miss no tunnel.
    - Transfers: an upload, cut off anywhere and across power losses, leaves its
      target absent or complete; it never replaces one; success means durable
      and verified, plain failure means unchanged; what a download calls
      complete has the digest it announced.  Uploads and downloads end.
    - Recovery: generation, sealing and opening compose to the identity; the
      media determine the local share and the other way round, and alone say
      nothing of the key; a sealed package opens in its own context only.
    - Remote jobs: a controller with the protocol's validator accepts all a
      helper writes, whatever files, clocks, child and requests do, and its
      receipt exactly if it is timely; the receipt
      is for exactly the output sent, is sent only when all of the child's
      output was read, and is on disk for good before it is sent; only what the
      policy allows and the request's digest covers is ever run; a query runs
      nothing and hands out only a receipt authenticated under its token.

    Theorems about digests never assume that SHA-256 is injective: they conclude
    that the inputs agree or name two different inputs with the same digest.
    Every theorem with hypotheses is applied to a concrete run in a module whose
    name ends in [Runs].

    ** What is assumed of the file system

    [Posix] says what its calls do.  Beyond that: a call that fails may have done
    part of its work; inode numbers are not reused; descriptors stay open while a
    process runs; an asynchronous file behaves as its blocking counterpart, so a
    write error is reported by the write; an [AtomicWriteFile] is synced before
    it replaces a name, but nothing is assumed of the durability of that name.
    While an upload runs, others respect its lock: they leave its partial,
    sidecar and lock alone and do not touch an existing target ([rely]); a target
    may not be named like the lock of its own transfer.  While a job runs, others
    leave the name of its receipt and the files behind it alone
    ([leaves_alone]); nothing else is assumed of them, nor of the clocks but that
    [Instant] does not go back.  The answers of /proc/self/status, /etc/passwd,
    [canonicalize] and the creation of directories are the environment's, and a
    power loss takes back what was done in a directory, but no directory.

    ** What is not modelled

    The durable states of the ledger take the atomicity of
    [write_protected_atomic] and the exclusion of file locks from their
    documentation.  Left out are, of the daemon, the bodies of SSH, SFTP and
    forwarding operations, unlocking, and the startup and shutdown of the
    process; of serctl_xfer and serctl_remote the argument parsing and the
    variants for other systems than Linux.  Not modelled are the vault around
    its recovery, runtime files, the SSH client and SOCKS5 forwarding of
    serctl_core, and the command line: they drive libraries, processes and
    terminals, or manage secrets around primitives that are parameters here.  Timing side channels ([ct_eq]) and zeroization of
    memory are outside the model, except that zeroization of values is a
    definition where the code defines it. *)

From Stdlib Require Export ZArith Lia.
From Stdlib Require Export Strings.String.
From stdpp Require Export base decidable option numbers list_numbers sets strings list.

#[global] Open Scope Z_scope.

(** ** Results: Rust's [Result<A, E>] *)

Inductive result (E A : Type) : Type :=
| Ok (a : A)
| Err (e : E).
Arguments Ok {E A} a.
Arguments Err {E A} e.

#[global] Instance result_eq_dec {E A} `{EqDecision E, EqDecision A} :
  EqDecision (result E A).
Proof. solve_decision. Defined.

Declare Scope result_scope.
Delimit Scope result_scope with result.
#[global] Open Scope result_scope.

(** [e?] followed by the rest of the function. *)
Definition rbind {E A B} (r : result E A) (k : A -> result E B) : result E B :=
  match r with
  | Ok a => k a
  | Err e => Err e
  end.

(** [ensure!(b, e)]. *)
Definition ensure {E} (b : bool) (e : E) : result E unit :=
  if b then Ok tt else Err e.

(** [Option::context] / [ok_or]. *)
Definition ok_or {E A} (o : option A) (e : E) : result E A :=
  match o with
  | Some a => Ok a
  | None => Err e
  end.

(** [Result::map_err]. *)
Definition map_err {E F A} (f : E -> F) (r : result E A) : result F A :=
  match r with
  | Ok a => Ok a
  | Err e => Err (f e)
  end.

Definition is_ok {E A} (r : result E A) : bool :=
  match r with
  | Ok _ => true
  | Err _ => false
  end.

Notation "'let*' x ':=' e 'in' k" := (rbind e (fun x => k))
  (at level 10, x pattern, e at level 200, k at level 200) : result_scope.
Notation "'ensure!' b 'or' e ;; k" := (rbind (ensure b e) (fun _ => k))
  (at level 10, b at level 99, e at level 99, k at level 200) : result_scope.
Notation "'try!' e ;; k" := (rbind e (fun _ => k))
  (at level 10, e at level 99, k at level 200) : result_scope.

(** [iter().map(f).collect::<Result<Vec<_>, _>>()]: the first error wins. *)
Fixpoint collect {E A B} (f : A -> result E B) (l : list A) : result E (list B) :=
  match l with
  | [] => Ok []
  | a :: l' =>
      let* b := f a in
      let* bs := collect f l' in
      Ok (b :: bs)
  end.

(** A [for] loop whose body may return an error and updates an accumulator. *)
Fixpoint for_each {E A S} (body : S -> A -> result E S) (s : S) (l : list A)
  : result E S :=
  match l with
  | [] => Ok s
  | a :: l' => let* s' := body s a in for_each body s' l'
  end.

Lemma rbind_ok {E A B} (r : result E A) (k : A -> result E B) b :
  rbind r k = Ok b <-> exists a, r = Ok a /\ k a = Ok b.
Proof. destruct r; naive_solver. Qed.

Lemma rbind_err {E A B} (r : result E A) (k : A -> result E B) e :
  rbind r k = Err e <-> r = Err e \/ exists a, r = Ok a /\ k a = Err e.
Proof. destruct r; naive_solver. Qed.

Lemma ensure_ok {E} b (e : E) u : ensure b e = Ok u <-> b = true.
Proof. destruct b, u; naive_solver. Qed.

Lemma ensure_err {E} b (e e' : E) : ensure b e = Err e' <-> b = false /\ e = e'.
Proof. destruct b; naive_solver. Qed.

(** A check followed by the rest, as conditions on each. *)
Lemma seq_ok {E A} (r : result E unit) (k : result E A) b :
  rbind r (fun _ => k) = Ok b <-> r = Ok tt /\ k = Ok b.
Proof. destruct r as [[]|]; naive_solver. Qed.

Lemma let_ok {E A B} (P : Prop) (c : A) (r : result E A) (k : A -> result E B) b :
  (forall a, r = Ok a <-> P /\ a = c) ->
  (rbind r k = Ok b <-> P /\ k c = Ok b).
Proof. intros Hr. rewrite rbind_ok. setoid_rewrite Hr. naive_solver. Qed.

Lemma if_err_ok {E A} (b : bool) (e : E) (k : result E A) a :
  (if b then Err e else k) = Ok a <-> b = false /\ k = Ok a.
Proof. destruct b; naive_solver. Qed.

Lemma ok_tt_iff {E} (u : unit) : @Ok E unit tt = Ok u <-> True.
Proof. by destruct u. Qed.

Lemma ok_or_ok {E A} (o : option A) (e : E) a : ok_or o e = Ok a <-> o = Some a.
Proof. destruct o; naive_solver. Qed.

Lemma map_err_ok {E F A} (f : E -> F) (r : result E A) a :
  map_err f r = Ok a <-> r = Ok a.
Proof. destruct r; naive_solver. Qed.

Lemma is_ok_ok {E A} (r : result E A) : is_ok r = true <-> exists a, r = Ok a.
Proof. destruct r; naive_solver. Qed.

Lemma collect_ok {E A B} (f : A -> result E B) l bs :
  collect f l = Ok bs <-> Forall2 (fun a b => f a = Ok b) l bs.
Proof.
  revert bs; induction l as [|a l IH]; intros bs; simpl.
  - split; [intros [= <-]; constructor | intros H; by inversion H].
  - rewrite rbind_ok. setoid_rewrite rbind_ok. setoid_rewrite IH. split.
    + intros (b & Hb & bs' & Hbs & [= <-]). by constructor.
    + intros H; inversion H; subst; eauto 10.
Qed.

Lemma for_each_app {E A S} (body : S -> A -> result E S) s l1 l2 :
  for_each body s (l1 ++ l2) =
  rbind (for_each body s l1) (fun s' => for_each body s' l2).
Proof.
  revert s; induction l1 as [|a l1 IH]; intros s; simpl; [done|].
  destruct (body s a); simpl; auto.
Qed.

Lemma for_each_ext {E A S} (f g : S -> A -> result E S) s l :
  (forall s a, f s a = g s a) -> for_each f s l = for_each g s l.
Proof.
  intros H. revert s; induction l as [|a l IH]; intros s; simpl; [done|].
  rewrite H. destruct (g s a); simpl; auto.
Qed.

(** A loop that checks every element and folds the accumulator along. *)
Lemma for_each_check {E A S} (chk : A -> result E unit) (upd : S -> A -> S) s l s' :
  for_each (fun s a => rbind (chk a) (fun _ => Ok (upd s a))) s l = Ok s' <->
  Forall (fun a => chk a = Ok tt) l /\ s' = fold_left upd l s.
Proof.
  revert s; induction l as [|a l IH]; intros s; simpl.
  - split; [intros [= <-]; done | by intros [_ ->]].
  - destruct (chk a) as [[]|e] eqn:Hc; simpl.
    + rewrite IH, Forall_cons. tauto.
    + rewrite Forall_cons. split; [done|]. intros [[Hx _] _]. congruence.
Qed.

(** ** Machine integers *)

Definition U8_MAX : Z := 2 ^ 8 - 1.
Definition U16_MAX : Z := 2 ^ 16 - 1.
Definition U32_MAX : Z := 2 ^ 32 - 1.
Definition U64_MAX : Z := 2 ^ 64 - 1.
(** [usize] on the 64-bit targets the release builds for. *)
Definition USIZE_MAX : Z := U64_MAX.

Definition is_u16 (v : Z) : Prop := 0 <= v <= U16_MAX.
Definition is_u32 (v : Z) : Prop := 0 <= v <= U32_MAX.
Definition is_u64 (v : Z) : Prop := 0 <= v <= U64_MAX.
Definition is_i32 (v : Z) : Prop := - 2 ^ 31 <= v < 2 ^ 31.

(** [checked_add], [checked_sub], [saturating_add], [saturating_sub] at the
    width whose largest value is [max]. *)
Definition checked_add (max a b : Z) : option Z :=
  if a + b <=? max then Some (a + b) else None.
Definition checked_sub (a b : Z) : option Z :=
  if b <=? a then Some (a - b) else None.
Definition saturating_add (max a b : Z) : Z := Z.min max (a + b).
Definition saturating_sub (a b : Z) : Z := Z.max 0 (a - b).

(** [uN::try_from]. *)
Definition try_from_max (max v : Z) : option Z :=
  if v <=? max then Some v else None.

(** [(lo..=hi).contains(&v)]. *)
Definition in_range (lo hi v : Z) : bool := (lo <=? v) && (v <=? hi).

Lemma in_range_true lo hi v : in_range lo hi v = true <-> lo <= v <= hi.
Proof. unfold in_range. rewrite andb_true_iff. lia. Qed.

Lemma in_range_false lo hi v : in_range lo hi v = false <-> v < lo \/ hi < v.
Proof. unfold in_range. rewrite andb_false_iff. lia. Qed.

Lemma checked_add_some max a b c :
  checked_add max a b = Some c <-> c = a + b /\ a + b <= max.
Proof. unfold checked_add. destruct (Z.leb_spec (a + b) max); naive_solver lia. Qed.

Lemma checked_add_none max a b : checked_add max a b = None <-> max < a + b.
Proof. unfold checked_add. destruct (Z.leb_spec (a + b) max); naive_solver lia. Qed.

Lemma checked_sub_some a b c : checked_sub a b = Some c <-> c = a - b /\ b <= a.
Proof. unfold checked_sub. destruct (Z.leb_spec b a); naive_solver lia. Qed.

Lemma try_from_max_some max v w : try_from_max max v = Some w <-> w = v /\ v <= max.
Proof. unfold try_from_max. destruct (Z.leb_spec v max); naive_solver lia. Qed.

(** Summing with saturation is exact below the ceiling. *)
Lemma fold_saturating_add {A} (max : Z) (w : A -> Z) l acc :
  0 <= acc <= max -> (forall a, 0 <= w a) ->
  fold_left (fun acc a => saturating_add max acc (w a)) l acc =
  Z.min max (acc + fold_right (fun a s => w a + s) 0 l).
Proof.
  intros Hacc Hw. revert acc Hacc; induction l as [|a l IH]; intros acc Hacc; simpl; [lia|].
  assert (0 <= fold_right (fun a s => w a + s) 0 l) as Hs.
  { clear IH. induction l as [|b l IH]; simpl; [lia|]. pose proof (Hw b). lia. }
  pose proof (Hw a). unfold saturating_add at 2. rewrite IH by lia. lia.
Qed.

(** ** Lists with integer lengths *)

(** [Vec::len] / [str::len] as a machine integer. *)
Definition zlen {A} (l : list A) : Z := Z.of_nat (length l).

Lemma zlen_nonneg {A} (l : list A) : 0 <= zlen l.
Proof. unfold zlen; lia. Qed.

Lemma zlen_nil {A} : zlen (@nil A) = 0.
Proof. done. Qed.

Lemma zlen_cons {A} (a : A) l : zlen (a :: l) = 1 + zlen l.
Proof. unfold zlen; simpl; lia. Qed.

Lemma zlen_app {A} (l1 l2 : list A) : zlen (l1 ++ l2) = zlen l1 + zlen l2.
Proof. unfold zlen; rewrite length_app; lia. Qed.

Lemma zlen_length {A} (l : list A) n : length l = n <-> zlen l = Z.of_nat n.
Proof. unfold zlen; lia. Qed.

Lemma zlen_zero {A} (l : list A) : zlen l = 0 <-> l = [].
Proof. unfold zlen; destruct l; simpl; split; intros; (done || lia). Qed.

(** [slice.is_empty()]. *)
Definition is_empty {A} (l : list A) : bool :=
  match l with [] => true | _ :: _ => false end.

Lemma is_empty_true {A} (l : list A) : is_empty l = true <-> l = [].
Proof. by destruct l. Qed.

Lemma is_empty_false {A} (l : list A) : is_empty l = false <-> l <> [].
Proof. by destruct l. Qed.

(** Splitting two appends whose first halves have the same length. *)
Lemma app_inv_length {A} (a b c d : list A) :
  a ++ b = c ++ d -> length a = length c -> a = c /\ b = d.
Proof.
  intros H Hl. split.
  - apply (f_equal (take (length a))) in H.
    rewrite take_app_length in H. rewrite Hl, take_app_length in H. done.
  - apply (f_equal (drop (length a))) in H.
    rewrite drop_app_length in H. rewrite Hl, drop_app_length in H. done.
Qed.

Lemma forallb_Forall' {A} (f : A -> bool) l :
  forallb f l = true <-> Forall (fun x => f x = true) l.
Proof.
  induction l as [|x l IH]; simpl; [by split|].
  rewrite andb_true_iff, Forall_cons. naive_solver.
Qed.

Lemma existsb_false {A} (f : A -> bool) l :
  existsb f l = false <-> Forall (fun x => f x = false) l.
Proof.
  induction l as [|x l IH]; simpl; [by split|].
  rewrite orb_false_iff, Forall_cons. naive_solver.
Qed.

(** ** Automation *)

Create HintDb serctl discriminated.
#[export] Hint Resolve zlen_nonneg : serctl.

Create HintDb zlen.
#[export] Hint Rewrite @zlen_nil @zlen_cons @zlen_app : zlen.

(** Boolean tests to propositions, in hypotheses. *)
Ltac bool_to_prop_in H :=
  repeat first
    [ rewrite andb_true_iff in H | rewrite orb_true_iff in H
    | rewrite andb_false_iff in H | rewrite orb_false_iff in H
    | rewrite negb_true_iff in H | rewrite negb_false_iff in H
    | rewrite bool_decide_eq_true in H | rewrite bool_decide_eq_false in H
    | rewrite in_range_true in H
    | rewrite Z.leb_le in H | rewrite Z.leb_gt in H
    | rewrite Z.ltb_lt in H | rewrite Z.ltb_ge in H
    | rewrite Z.eqb_eq in H | rewrite Z.eqb_neq in H
    | rewrite is_empty_true in H | rewrite is_empty_false in H ].

(** Take apart a successful monadic computation: every bind becomes an
    equation for its first half, every [ensure!] its condition. *)
Ltac inv_ok :=
  repeat match goal with
  | H : rbind _ _ = Ok _ |- _ =>
      let a := fresh "v" in let Ha := fresh "Hr" in
      apply rbind_ok in H as (a & Ha & H)
  | H : ensure _ _ = Ok _ |- _ => apply ensure_ok in H
  | H : ok_or _ _ = Ok _ |- _ => apply ok_or_ok in H
  | H : map_err _ _ = Ok _ |- _ => apply map_err_ok in H
  | H : Ok _ = Ok _ |- _ => injection H as H; try subst
  | H : Err _ = Ok _ |- _ => discriminate H
  | H : Ok _ = Err _ |- _ => discriminate H
  | u : unit |- _ => destruct u
  end.

(** [inv_ok], and the conditions of the checks that passed as propositions. *)
Ltac checks :=
  inv_ok;
  repeat match goal with
  | H : bool_decide _ = true |- _ => apply bool_decide_eq_true in H
  | H : bool_decide _ = false |- _ => apply bool_decide_eq_false in H
  | H : (_ =? _) = true |- _ => apply Z.eqb_eq in H
  | H : (_ =? _) = false |- _ => apply Z.eqb_neq in H
  | H : (_ <=? _) = true |- _ => apply Z.leb_le in H
  | H : (_ <=? _) = false |- _ => apply Z.leb_gt in H
  | H : (_ <? _) = true |- _ => apply Z.ltb_lt in H
  | H : (_ <? _) = false |- _ => apply Z.ltb_ge in H
  | H : in_range _ _ _ = true |- _ => apply in_range_true in H
  | H : negb _ = true |- _ => apply negb_true_iff in H
  | H : negb _ = false |- _ => apply negb_false_iff in H
  | H : is_empty _ = true |- _ => apply is_empty_true in H
  | H : is_empty _ = false |- _ => apply is_empty_false in H
  | H : _ && _ = true |- _ =>
      let H1 := fresh H in let H2 := fresh H in
      apply andb_true_iff in H as [H1 H2]
  | H : _ || _ = false |- _ =>
      let H1 := fresh H in let H2 := fresh H in
      apply orb_false_iff in H as [H1 H2]
  end.

(** Resolve an [ensure!] of the goal whose condition is known. *)
Lemma ensure_pass {E A} b (e : E) (k : unit -> result E A) :
  b = true -> rbind (ensure b e) k = k tt.
Proof. by intros ->. Qed.

Lemma ensure_fail {E A} b (e : E) (k : unit -> result E A) :
  b = false -> rbind (ensure b e) k = Err e.
Proof. by intros ->. Qed.

Lemma rbind_pass {E A B} (r : result E A) (k : A -> result E B) a :
  r = Ok a -> rbind r k = k a.
Proof. by intros ->. Qed.
