(* ===== verification/Bytes.v ===== *)
(** * Bytes and big-endian integers

    [u8] values, byte strings, [to_be_bytes]/[from_be_bytes] at every width
    the wire formats use, and lower-case hexadecimal. *)

From Stdlib Require Export Strings.Byte.
From stdpp Require Export countable list.
From S2P Require Import Prelude.

Notation byte := Init.Byte.byte.
Notation bytes := (list byte).

#[global] Instance byte_eq_dec' : EqDecision byte := Byte.byte_eq_dec.
#[global] Instance byte_countable : Countable byte :=
  inj_countable Byte.to_N Byte.of_N Byte.of_to_N.

(** The value of a byte. *)
Definition b8 (b : byte) : Z := Z.of_N (Byte.to_N b).

(** [v as u8]. *)
Definition byte_of_Z (v : Z) : byte :=
  default x00 (Byte.of_N (Z.to_N (v mod 256))).

Lemma b8_range b : 0 <= b8 b < 256.
Proof. unfold b8. pose proof (Byte.to_N_bounded b). lia. Qed.

Lemma b8_of_Z v : b8 (byte_of_Z v) = v mod 256.
Proof.
  unfold b8, byte_of_Z. pose proof (Z.mod_pos_bound v 256 ltac:(lia)).
  destruct (Byte.of_N (Z.to_N (v mod 256))) as [b|] eqn:Hb; simpl.
  - apply Byte.to_of_N in Hb. rewrite Hb. lia.
  - apply Byte.of_N_None_iff in Hb. lia.
Qed.

Lemma b8_inj a b : b8 a = b8 b -> a = b.
Proof.
  unfold b8. intros H%N2Z.inj.
  pose proof (Byte.of_to_N a) as Ha. rewrite H, Byte.of_to_N in Ha. congruence.
Qed.

Lemma of_Z_b8 b : byte_of_Z (b8 b) = b.
Proof. apply b8_inj. rewrite b8_of_Z. apply Z.mod_small, b8_range. Qed.

Lemma b8_of_Z_small v : 0 <= v < 256 -> b8 (byte_of_Z v) = v.
Proof. intros. rewrite b8_of_Z. by apply Z.mod_small. Qed.

(** ** Big-endian integers *)

(** [v.to_be_bytes()] for an unsigned integer of [n] bytes. *)
Fixpoint be_bytes (n : nat) (v : Z) : bytes :=
  match n with
  | O => []
  | S m => byte_of_Z (Z.shiftr v (8 * Z.of_nat m)) :: be_bytes m v
  end.

(** [uN::from_be_bytes]. *)
Fixpoint of_be (l : bytes) : Z :=
  match l with
  | [] => 0
  | b :: l' => Z.shiftl (b8 b) (8 * zlen l') + of_be l'
  end.

Definition be16 (v : Z) : bytes := be_bytes 2 v.
Definition be32 (v : Z) : bytes := be_bytes 4 v.
Definition be64 (v : Z) : bytes := be_bytes 8 v.

(** [i32::to_be_bytes] and [i32::from_be_bytes]: two's complement. *)
Definition be_i32 (v : Z) : bytes := be_bytes 4 (v mod 2 ^ 32).
Definition of_be_i32 (l : bytes) : Z :=
  let u := of_be l in if u <? 2 ^ 31 then u else u - 2 ^ 32.

Lemma length_be_bytes n v : length (be_bytes n v) = n.
Proof. induction n; simpl; congruence. Qed.

Lemma zlen_be_bytes n v : zlen (be_bytes n v) = Z.of_nat n.
Proof. unfold zlen. by rewrite length_be_bytes. Qed.

Lemma of_be_range l : 0 <= of_be l < 2 ^ (8 * zlen l).
Proof.
  induction l as [|b l IH]; cbn [of_be]; [split; [lia|reflexivity]|].
  rewrite zlen_cons, Z.shiftl_mul_pow2 by (pose proof (zlen_nonneg l); lia).
  replace (8 * (1 + zlen l)) with (8 + 8 * zlen l) by lia.
  rewrite Z.pow_add_r by (pose proof (zlen_nonneg l); lia).
  pose proof (b8_range b). change (2 ^ 8) with 256. nia.
Qed.

Lemma of_be_be_bytes n v : of_be (be_bytes n v) = v mod 2 ^ (8 * Z.of_nat n).
Proof.
  induction n as [|n IH]; cbn [be_bytes of_be].
  { change (2 ^ (8 * Z.of_nat 0)) with 1. by rewrite Z.mod_1_r. }
  rewrite IH, zlen_be_bytes, b8_of_Z.
  rewrite Z.shiftl_mul_pow2, Z.shiftr_div_pow2 by lia.
  replace (8 * Z.of_nat (S n)) with (8 * Z.of_nat n + 8) by lia.
  rewrite Z.pow_add_r by lia. change (2 ^ 8) with 256.
  rewrite Z.rem_mul_r by lia. lia.
Qed.

Lemma of_be_be_bytes_small n v :
  0 <= v < 2 ^ (8 * Z.of_nat n) -> of_be (be_bytes n v) = v.
Proof. intros. rewrite of_be_be_bytes. by apply Z.mod_small. Qed.

(** The bytes of [v] only depend on [v] modulo the width. *)
Lemma be_bytes_add n k v :
  be_bytes n (k * 2 ^ (8 * Z.of_nat n) + v) = be_bytes n v.
Proof.
  revert k; induction n as [|n IH]; intros k; [done|]. cbn [be_bytes].
  replace (8 * Z.of_nat (S n)) with (8 + 8 * Z.of_nat n) by lia.
  rewrite Z.pow_add_r by lia. change (2 ^ 8) with 256. f_equal.
  - apply b8_inj. rewrite !b8_of_Z, !Z.shiftr_div_pow2 by lia.
    replace (k * (256 * 2 ^ (8 * Z.of_nat n)) + v)
      with (v + (k * 256) * 2 ^ (8 * Z.of_nat n)) by lia.
    rewrite Z.div_add by lia. by rewrite Z.mod_add by lia.
  - replace (k * (256 * 2 ^ (8 * Z.of_nat n)) + v)
      with ((k * 256) * 2 ^ (8 * Z.of_nat n) + v) by lia.
    apply IH.
Qed.

Lemma be_bytes_of_be l : be_bytes (length l) (of_be l) = l.
Proof.
  induction l as [|b l IH]; [done|]. cbn [length be_bytes of_be].
  rewrite Z.shiftl_mul_pow2 by (pose proof (zlen_nonneg l); lia).
  change (zlen l) with (Z.of_nat (length l)). f_equal.
  - apply b8_inj. rewrite b8_of_Z, Z.shiftr_div_pow2 by lia.
    pose proof (of_be_range l). change (zlen l) with (Z.of_nat (length l)) in *.
    rewrite Z.div_add_l by lia. rewrite Z.div_small by lia.
    rewrite Z.add_0_r. apply Z.mod_small, b8_range.
  - rewrite be_bytes_add. apply IH.
Qed.

Lemma be_bytes_of_be_n n l : length l = n -> be_bytes n (of_be l) = l.
Proof. intros <-. apply be_bytes_of_be. Qed.

Lemma is_u16_range v : is_u16 v <-> 0 <= v < 2 ^ (8 * Z.of_nat 2).
Proof. unfold is_u16, U16_MAX. change (2 ^ (8 * Z.of_nat 2)) with (2 ^ 16). lia. Qed.

Lemma is_u32_range v : is_u32 v <-> 0 <= v < 2 ^ (8 * Z.of_nat 4).
Proof. unfold is_u32, U32_MAX. change (2 ^ (8 * Z.of_nat 4)) with (2 ^ 32). lia. Qed.

Lemma is_u64_range v : is_u64 v <-> 0 <= v < 2 ^ (8 * Z.of_nat 8).
Proof. unfold is_u64, U64_MAX. change (2 ^ (8 * Z.of_nat 8)) with (2 ^ 64). lia. Qed.

Lemma of_be_i32_range l : length l = 4%nat -> is_i32 (of_be_i32 l).
Proof.
  intros Hl. unfold is_i32, of_be_i32. pose proof (of_be_range l) as Hr.
  unfold zlen in Hr. rewrite Hl in Hr. change (2 ^ (8 * Z.of_nat 4)) with (2 ^ 32) in Hr.
  destruct (Z.ltb_spec (of_be l) (2 ^ 31)); lia.
Qed.

Lemma of_be_i32_be v : is_i32 v -> of_be_i32 (be_i32 v) = v.
Proof.
  unfold is_i32, of_be_i32, be_i32. intros Hv.
  pose proof (Z.mod_pos_bound v (2 ^ 32) ltac:(lia)).
  rewrite of_be_be_bytes_small by (change (2 ^ (8 * Z.of_nat 4)) with (2 ^ 32); lia).
  change (2 ^ 31) with 2147483648 in *. change (2 ^ 32) with 4294967296 in *.
  destruct (Z.ltb_spec (v mod 4294967296) 2147483648);
    Z.to_euclidean_division_equations; lia.
Qed.

Lemma be_i32_of_be l : length l = 4%nat -> be_i32 (of_be_i32 l) = l.
Proof.
  intros Hl. unfold be_i32, of_be_i32. pose proof (of_be_range l) as Hr.
  unfold zlen in Hr. rewrite Hl in Hr. change (2 ^ (8 * Z.of_nat 4)) with (2 ^ 32) in Hr.
  replace ((if of_be l <? 2 ^ 31 then of_be l else of_be l - 2 ^ 32) mod 2 ^ 32)
    with (of_be l).
  2: { change (2 ^ 31) with 2147483648 in *. change (2 ^ 32) with 4294967296 in *.
       destruct (Z.ltb_spec (of_be l) 2147483648);
         Z.to_euclidean_division_equations; lia. }
  by apply be_bytes_of_be_n.
Qed.

#[export] Hint Rewrite zlen_be_bytes : zlen.

(** ** Lower-case hexadecimal *)

(** [HEX[(n) as usize] as char]. *)
Definition hex_digit (n : Z) : byte :=
  byte_of_Z (if n <? 10 then 48 + n else 87 + n).

Definition hex_value (b : byte) : option Z :=
  if (48 <=? b8 b) && (b8 b <=? 57) then Some (b8 b - 48)
  else if (97 <=? b8 b) && (b8 b <=? 102) then Some (b8 b - 87)
  else None.

(** [byte.is_ascii_digit() || matches!(byte, b'a'..=b'f')]. *)
Definition is_lower_hex_byte (b : byte) : bool :=
  in_range 48 57 (b8 b) || in_range 97 102 (b8 b).

Lemma hex_digit_lower n : 0 <= n < 16 -> is_lower_hex_byte (hex_digit n) = true.
Proof.
  intros Hn. unfold is_lower_hex_byte, hex_digit.
  destruct (Z.ltb_spec n 10); rewrite b8_of_Z_small by lia;
    unfold in_range; rewrite orb_true_iff, !andb_true_iff; lia.
Qed.

Lemma hex_value_digit n : 0 <= n < 16 -> hex_value (hex_digit n) = Some n.
Proof.
  intros Hn. unfold hex_value, hex_digit.
  destruct (Z.ltb_spec n 10); rewrite b8_of_Z_small by lia.
  - rewrite (proj2 (Z.leb_le 48 _)), (proj2 (Z.leb_le _ 57)) by lia. simpl. f_equal; lia.
  - rewrite (proj2 (Z.leb_gt _ 57)) by lia. rewrite andb_false_r.
    rewrite (proj2 (Z.leb_le 97 _)), (proj2 (Z.leb_le _ 102)) by lia. simpl. f_equal; lia.
Qed.
