(* ===== verification/Text.v ===== *)
(** * Rust text

    A [str] is its UTF-8 bytes.  This file models what the sources use of
    Rust's [str], [char] and [u8]: UTF-8 decoding ([from_utf8], [chars]),
    character classes, prefixes, suffixes, splitting and joining. *)

From S2P Require Import Prelude.
From S2P Require Import Bytes.
#[local] Open Scope Z_scope.

(** Rust [str]/[String]: a byte string; [from_utf8] below is the check that
    makes a byte string one. *)
Notation str := (list byte).

(** A string literal. *)
Definition rs (s : string) : str := String.list_byte_of_string s.

(** ** UTF-8 *)

Definition is_cont (b : byte) : bool := in_range 128 191 (b8 b).

(** The second byte of a three-byte sequence: no overlong forms, no
    surrogates. *)
Definition second3 (b0 b1 : byte) : bool :=
  if b8 b0 =? 224 then in_range 160 191 (b8 b1)
  else if b8 b0 =? 237 then in_range 128 159 (b8 b1)
  else is_cont b1.

(** The second byte of a four-byte sequence: no overlong forms, nothing
    above U+10FFFF. *)
Definition second4 (b0 b1 : byte) : bool :=
  if b8 b0 =? 240 then in_range 144 191 (b8 b1)
  else if b8 b0 =? 244 then in_range 128 143 (b8 b1)
  else is_cont b1.

(** The scalar values a byte string encodes, when it is valid UTF-8. *)
Fixpoint utf8_decode (l : bytes) : option (list Z) :=
  match l with
  | [] => Some []
  | b0 :: l1 =>
      if b8 b0 <? 128 then cons (b8 b0) <$> utf8_decode l1
      else match l1 with
      | [] => None
      | b1 :: l2 =>
          if in_range 194 223 (b8 b0) then
            if is_cont b1 then
              cons ((b8 b0 - 192) * 64 + (b8 b1 - 128)) <$> utf8_decode l2
            else None
          else match l2 with
          | [] => None
          | b2 :: l3 =>
              if in_range 224 239 (b8 b0) then
                if second3 b0 b1 && is_cont b2 then
                  cons ((b8 b0 - 224) * 4096 + (b8 b1 - 128) * 64 + (b8 b2 - 128))
                    <$> utf8_decode l3
                else None
              else match l3 with
              | [] => None
              | b3 :: l4 =>
                  if in_range 240 244 (b8 b0) && second4 b0 b1
                     && is_cont b2 && is_cont b3 then
                    cons ((b8 b0 - 240) * 262144 + (b8 b1 - 128) * 4096
                          + (b8 b2 - 128) * 64 + (b8 b3 - 128))
                      <$> utf8_decode l4
                  else None
              end
          end
      end
  end.

(** [std::str::from_utf8(bytes).is_ok()]. *)
Definition utf8_valid (l : bytes) : bool :=
  match utf8_decode l with Some _ => true | None => false end.

(** [s.chars()]. *)
Definition chars (s : str) : list Z := default [] (utf8_decode s).

(** [char::is_control]: the general category Cc. *)
Definition is_control (c : Z) : bool := in_range 0 31 c || in_range 127 159 c.

(** [s.chars().any(char::is_control)]. *)
Definition has_control (s : str) : bool := existsb is_control (chars s).

(** ** Byte classes *)

Definition is_ascii_digit (b : byte) : bool := in_range 48 57 (b8 b).
Definition is_ascii_lowercase (b : byte) : bool := in_range 97 122 (b8 b).
Definition is_ascii_uppercase (b : byte) : bool := in_range 65 90 (b8 b).
Definition is_ascii_alphabetic (b : byte) : bool :=
  is_ascii_lowercase b || is_ascii_uppercase b.
Definition is_ascii_alphanumeric (b : byte) : bool :=
  is_ascii_alphabetic b || is_ascii_digit b.
Definition is_ascii_control (b : byte) : bool := in_range 0 31 (b8 b) || (b8 b =? 127).
Definition is_ascii (s : str) : bool := forallb (fun b => b8 b <? 128) s.

Definition to_lower (b : byte) : byte :=
  if is_ascii_uppercase b then byte_of_Z (b8 b + 32) else b.
Definition to_upper (b : byte) : byte :=
  if is_ascii_lowercase b then byte_of_Z (b8 b - 32) else b.
Definition to_ascii_lowercase (s : str) : str := map to_lower s.
Definition to_ascii_uppercase (s : str) : str := map to_upper s.
Definition eq_ignore_ascii_case (a b : str) : bool :=
  bool_decide (to_ascii_lowercase a = to_ascii_lowercase b).

(** [matches!(s, "a" | "b" | ...)]. *)
Definition matches_str (s : str) (l : list string) : bool :=
  existsb (fun x => bool_decide (s = rs x)) l.

(** [matches!(b, b'x' | b'y' | ...)] / [b"xy".contains(&b)]. *)
Definition matches_byte (b : byte) (l : str) : bool :=
  existsb (fun c => bool_decide (b = c)) l.

(** [s.contains(c)] for an ASCII character. *)
Definition contains_byte (c : byte) (s : str) : bool :=
  existsb (fun b => bool_decide (b = c)) s.

(** [s.contains(c)] for any character. *)
Definition contains_char (c : Z) (s : str) : bool :=
  existsb (fun x => x =? c) (chars s).

(** ** Prefixes, suffixes, pieces *)

Fixpoint strip_prefix (p s : str) : option str :=
  match p, s with
  | [], _ => Some s
  | c :: p', b :: s' => if bool_decide (c = b) then strip_prefix p' s' else None
  | _ :: _, [] => None
  end.

Definition starts_with (p s : str) : bool :=
  match strip_prefix p s with Some _ => true | None => false end.

Definition strip_suffix (p s : str) : option str :=
  reverse <$> strip_prefix (reverse p) (reverse s).

Definition ends_with (p s : str) : bool :=
  match strip_suffix p s with Some _ => true | None => false end.

(** [s.split_once(pat)]: around the first occurrence. *)
Fixpoint split_once (pat s : str) : option (str * str) :=
  match strip_prefix pat s with
  | Some rest => Some ([], rest)
  | None =>
      match s with
      | [] => None
      | b :: s' =>
          match split_once pat s' with
          | Some (l, r) => Some (b :: l, r)
          | None => None
          end
      end
  end.

(** [s.split(c)] for an ASCII character: always at least one piece. *)
Fixpoint split_on (c : byte) (s : str) : list str :=
  match s with
  | [] => [[]]
  | b :: s' =>
      if bool_decide (b = c) then [] :: split_on c s'
      else match split_on c s' with
           | p :: ps => (b :: p) :: ps
           | [] => [[b]]
           end
  end.

(** [pieces.join(sep)] for a one-byte separator. *)
Fixpoint join_with (c : byte) (ps : list str) : str :=
  match ps with
  | [] => []
  | [p] => p
  | p :: ps' => p ++ c :: join_with c ps'
  end.

(** [s.replace(a, b)] for ASCII characters. *)
Definition replace_byte (a b : byte) (s : str) : str :=
  map (fun x => if bool_decide (x = a) then b else x) s.

(** [s.parse::<u32>().ok()]: an optional plus sign and at least one decimal
    digit, without overflow. *)
Fixpoint parse_digits (acc : Z) (s : str) : option Z :=
  match s with
  | [] => Some acc
  | b :: s' =>
      if is_ascii_digit b then
        let acc' := acc * 10 + (b8 b - 48) in
        if acc' <=? U32_MAX then parse_digits acc' s' else None
      else None
  end.

Definition parse_u32 (s : str) : option Z :=
  let digits := match s with
                | b :: s' => if bool_decide (b = "+"%byte) then s' else s
                | [] => []
                end in
  match digits with
  | [] => None
  | _ => parse_digits 0 digits
  end.

(** ** Lemmas *)

Lemma strip_prefix_some p s r : strip_prefix p s = Some r <-> s = p ++ r.
Proof.
  revert s; induction p as [|c p IH]; intros s; simpl; [naive_solver|].
  destruct s as [|b s]; [naive_solver|].
  case_bool_decide; subst; [rewrite IH|]; naive_solver.
Qed.

Lemma starts_with_true p s : starts_with p s = true <-> exists r, s = p ++ r.
Proof.
  unfold starts_with. destruct (strip_prefix p s) as [r|] eqn:E.
  - apply strip_prefix_some in E. naive_solver.
  - split; [done|]. intros [r Hr%strip_prefix_some]. congruence.
Qed.

Lemma strip_suffix_some p s r : strip_suffix p s = Some r <-> s = r ++ p.
Proof.
  unfold strip_suffix. rewrite fmap_Some. setoid_rewrite strip_prefix_some. split.
  - intros (x & Hs & ->).
    by rewrite <-(reverse_involutive s), Hs, reverse_app, reverse_involutive.
  - intros ->. exists (reverse r). by rewrite reverse_app, reverse_involutive.
Qed.

Lemma ends_with_true p s : ends_with p s = true <-> exists r, s = r ++ p.
Proof.
  unfold ends_with. destruct (strip_suffix p s) as [r|] eqn:E.
  - apply strip_suffix_some in E. naive_solver.
  - split; [done|]. intros [r Hr%strip_suffix_some]. congruence.
Qed.

Lemma split_once_some pat s l r : split_once pat s = Some (l, r) -> s = l ++ pat ++ r.
Proof.
  revert l r; induction s as [|b s IH]; intros l r; simpl;
    destruct (strip_prefix pat _) as [rest|] eqn:E; try naive_solver.
  - intros [= <- <-]. by apply strip_prefix_some in E.
  - intros [= <- <-]. by apply strip_prefix_some in E.
  - destruct (split_once pat s) as [[l' r']|]; [|done].
    intros [= <- <-]. simpl. f_equal. by apply IH.
Qed.

Lemma contains_byte_false c s : contains_byte c s = false <-> c ∉ s.
Proof.
  unfold contains_byte. rewrite existsb_false, Forall_forall.
  setoid_rewrite bool_decide_eq_false.
  split; [intros H Hc; by apply (H c) | intros H x Hx ->; done].
Qed.

Lemma contains_byte_true c s : contains_byte c s = true <-> c ∈ s.
Proof.
  destruct (contains_byte c s) eqn:E; [|apply contains_byte_false in E]; [|naive_solver].
  split; [intros _|done]. apply dec_stable. intros ?%contains_byte_false. congruence.
Qed.

Lemma matches_str_true s l : matches_str s l = true <-> exists x, x ∈ l /\ s = rs x.
Proof.
  unfold matches_str. rewrite existsb_exists. setoid_rewrite bool_decide_eq_true.
  setoid_rewrite list_elem_of_In. done.
Qed.

Lemma split_on_nonempty c s : split_on c s <> [].
Proof. destruct s; simpl; [done|]. case_bool_decide; [done|]. by destruct (split_on c s). Qed.

Lemma split_on_no_sep c s : Forall (fun p => c ∉ p) (split_on c s).
Proof.
  induction s as [|b s IH]; simpl; [constructor; [apply not_elem_of_nil|done]|].
  case_bool_decide; [constructor; [apply not_elem_of_nil|done]|].
  destruct (split_on c s) as [|p ps]; [repeat constructor; set_solver|].
  inversion IH; subst. constructor; [set_solver|done].
Qed.

Lemma join_split c s : join_with c (split_on c s) = s.
Proof.
  induction s as [|b s IH]; simpl; [done|].
  pose proof (split_on_nonempty c s) as Hne.
  case_bool_decide as Hb; subst; destruct (split_on c s) as [|p ps]; try done.
  - simpl in *. by rewrite IH.
  - simpl in *. destruct ps; simpl in *; by rewrite <-IH.
Qed.

Lemma split_on_piece c p : c ∉ p -> split_on c p = [p].
Proof.
  induction p as [|b p IH]; intros Hp; simpl; [done|].
  rewrite bool_decide_false by set_solver. rewrite IH by set_solver. done.
Qed.

Lemma split_on_app c p s : c ∉ p -> split_on c (p ++ c :: s) = p :: split_on c s.
Proof.
  induction p as [|b p IH]; intros Hp; simpl; [by rewrite bool_decide_true|].
  rewrite bool_decide_false by set_solver. rewrite IH by set_solver. done.
Qed.

Lemma split_join c ps :
  ps <> [] -> Forall (fun p => c ∉ p) ps -> split_on c (join_with c ps) = ps.
Proof.
  induction ps as [|p ps IH]; intros Hne Hps; [done|].
  inversion Hps; subst. destruct ps as [|q ps]; simpl; [by apply split_on_piece|].
  rewrite split_on_app by done. f_equal. by apply IH.
Qed.

(** Two texts cut at the first separator. *)
Lemma app_sep_inj c (a b x y : str) :
  c ∉ a -> c ∉ b -> a ++ c :: x = b ++ c :: y -> a = b /\ x = y.
Proof.
  revert b; induction a as [|u a IH]; intros [|v b] Ha Hb E; simpl in E; simplify_eq.
  - done.
  - set_solver.
  - set_solver.
  - destruct (IH b) as [-> ->]; [set_solver..|done|done].
Qed.

(** An ASCII byte is never part of a longer sequence, so UTF-8 decoding
    splits around it. *)
Lemma is_cont_ascii b : b8 b < 128 -> is_cont b = false.
Proof. intros. unfold is_cont. apply in_range_false. lia. Qed.

Lemma second3_ascii b0 b : b8 b < 128 -> second3 b0 b = false.
Proof.
  intros. unfold second3, is_cont. repeat case_match; apply in_range_false; lia.
Qed.

Lemma second4_ascii b0 b : b8 b < 128 -> second4 b0 b = false.
Proof.
  intros. unfold second4, is_cont. repeat case_match; apply in_range_false; lia.
Qed.

Definition decode_concat (x y : option (list Z)) : option (list Z) :=
  match x, y with Some a, Some b => Some (a ++ b) | _, _ => None end.

Lemma utf8_decode_ascii_app a c b :
  b8 c < 128 ->
  utf8_decode (a ++ c :: b) =
  decode_concat (utf8_decode a) (cons (b8 c) <$> utf8_decode b).
Proof.
  intros Hc. remember (length a) as n eqn:Hn.
  revert a Hn; induction n as [n IH] using lt_wf_ind; intros a ->.
  assert (Hlt : (b8 c <? 128) = true) by lia.
  assert (E : forall t, (length t < length a)%nat ->
     utf8_decode (t ++ c :: b) =
     decode_concat (utf8_decode t) (cons (b8 c) <$> utf8_decode b))
    by (intros t Ht; by apply (IH (length t))).
  clear IH.
  destruct a as [|b0 l1]; cbn [app utf8_decode].
  { rewrite Hlt. by destruct (utf8_decode b). }
  destruct (b8 b0 <? 128) eqn:H0.
  { rewrite E by (simpl; lia). by destruct (utf8_decode l1), (utf8_decode b). }
  destruct l1 as [|b1 l2]; cbn [app].
  { rewrite (is_cont_ascii c), (second3_ascii b0 c), (second4_ascii b0 c) by done.
    simpl. repeat case_match; simplify_eq/=; try done.
    all: by rewrite ?andb_false_r in *. }
  destruct (in_range 194 223 (b8 b0)) eqn:H1.
  { destruct (is_cont b1); [|by destruct (utf8_decode b)].
    rewrite E by (simpl; lia). by destruct (utf8_decode l2), (utf8_decode b). }
  destruct l2 as [|b2 l3]; cbn [app].
  { rewrite (is_cont_ascii c) by done. rewrite !andb_false_r. simpl.
    repeat case_match; done. }
  destruct (in_range 224 239 (b8 b0)) eqn:H2.
  { destruct (second3 b0 b1 && is_cont b2); [|by destruct (utf8_decode b)].
    rewrite E by (simpl; lia). by destruct (utf8_decode l3), (utf8_decode b). }
  destruct l3 as [|b3 l4]; cbn [app].
  { rewrite (is_cont_ascii c) by done. rewrite !andb_false_r. simpl. done. }
  destruct (in_range 240 244 (b8 b0) && _ && _ && _); [|by destruct (utf8_decode b)].
  rewrite E by (simpl; lia). by destruct (utf8_decode l4), (utf8_decode b).
Qed.

(** Plain ASCII text decodes to its own bytes. *)
Lemma utf8_decode_ascii s :
  Forall (fun b => b8 b < 128) s -> utf8_decode s = Some (map b8 s).
Proof.
  induction 1 as [|b s Hb Hs IH]; simpl; [done|].
  rewrite (proj2 (Z.ltb_lt _ _) Hb), IH. done.
Qed.

Lemma chars_ascii s : Forall (fun b => b8 b < 128) s -> chars s = map b8 s.
Proof. intros H. unfold chars. by rewrite utf8_decode_ascii. Qed.

Lemma utf8_valid_ascii s : Forall (fun b => b8 b < 128) s -> utf8_valid s = true.
Proof. intros H. unfold utf8_valid. by rewrite utf8_decode_ascii. Qed.

(** [to_ascii_lowercase] is idempotent and keeps lengths. *)
Lemma to_lower_idem b : to_lower (to_lower b) = to_lower b.
Proof.
  unfold to_lower at 2 3. destruct (is_ascii_uppercase b) eqn:E.
  - apply in_range_true in E. unfold to_lower, is_ascii_uppercase.
    rewrite b8_of_Z_small by lia. rewrite (proj2 (in_range_false _ _ _)) by lia. done.
  - unfold to_lower. by rewrite E.
Qed.

Lemma to_ascii_lowercase_idem s :
  to_ascii_lowercase (to_ascii_lowercase s) = to_ascii_lowercase s.
Proof.
  unfold to_ascii_lowercase. rewrite map_map. apply map_ext, to_lower_idem.
Qed.

Lemma split_once_first c p l r :
  c ∉ l -> split_once (c :: p) (l ++ (c :: p) ++ r) = Some (l, r).
Proof.
  induction l as [|b l IH]; intros Hc.
  - cbn [app]. destruct r; cbn [split_once strip_prefix app];
      (rewrite bool_decide_true by done);
      by rewrite (proj2 (strip_prefix_some p _ _) eq_refl).
  - cbn [app split_once strip_prefix]. rewrite bool_decide_false by set_solver.
    cbn [app] in IH. rewrite IH by set_solver. done.
Qed.

Lemma matches_byte_true b l : matches_byte b l = true <-> b ∈ l.
Proof.
  unfold matches_byte. rewrite existsb_exists. setoid_rewrite bool_decide_eq_true.
  setoid_rewrite <-list_elem_of_In. naive_solver.
Qed.
