(* ===== verification/Codec.v ===== *)
(** * Readers

    The wire decoders of the sources consume a byte source and fail at the
    first malformed field.  This file holds the state-and-error monad they
    are written in, the interface a byte source gives ([Source]: what is
    still unread), and the two judgements the codec proofs compose:
    [consumes] (an encoding is decoded to its value) and [parses] (whatever
    is accepted is the encoding of the value returned). *)

From S2P Require Import Prelude.
From S2P Require Import Bytes.
From S2P Require Import Text.
#[local] Open Scope Z_scope.

(** ** The monad *)

Definition reader (S E A : Type) : Type := S -> result E (A * S).

Definition ret {S E A} (a : A) : reader S E A := fun s => Ok (a, s).

Definition bind {S E A B} (p : reader S E A) (k : A -> reader S E B) : reader S E B :=
  fun s => match p s with
           | Ok (a, s') => k a s'
           | Err e => Err e
           end.

(** A check or computation that does not read. *)
Definition lift {S E A} (r : result E A) : reader S E A :=
  fun s => match r with Ok a => Ok (a, s) | Err e => Err e end.

Declare Scope reader_scope.
Delimit Scope reader_scope with reader.
#[global] Open Scope reader_scope.

Notation "'do' x <- p ';;' k" := (bind p (fun x => k))
  (at level 10, x pattern, p at level 99, k at level 200) : reader_scope.
Notation "'check' r ';;' k" := (bind (lift r) (fun _ => k))
  (at level 10, r at level 99, k at level 200) : reader_scope.

(** [for _ in 0..n { ... push(...) }] with an accumulator threaded through. *)
Fixpoint repeat_reader {S E A} (n : nat) (p : reader S E A) : reader S E (list A) :=
  match n with
  | O => ret []
  | Datatypes.S m => do a <- p ;; do l <- repeat_reader m p ;; ret (a :: l)
  end.

Lemma bind_ok {S E A B} (p : reader S E A) (k : A -> reader S E B) s b s' :
  bind p k s = Ok (b, s') <-> exists a s1, p s = Ok (a, s1) /\ k a s1 = Ok (b, s').
Proof.
  unfold bind. destruct (p s) as [[a s1]|e] eqn:Hp; split.
  - intros H. eauto.
  - intros (a' & s1' & [= <- <-] & H). done.
  - done.
  - intros (a' & s1' & ? & H). done.
Qed.

Lemma lift_ok {S E A} (r : result E A) (s : S) a s' :
  lift r s = Ok (a, s') <-> r = Ok a /\ s' = s.
Proof. unfold lift. destruct r; naive_solver. Qed.

Lemma ret_ok {S E A} (a b : A) (s s' : S) :
  @ret S E A a s = Ok (b, s') <-> b = a /\ s' = s.
Proof. unfold ret. naive_solver. Qed.

(** Take apart a successful read. *)
Ltac inv_read :=
  repeat match goal with
  | H : bind _ _ _ = Ok (_, _) |- _ =>
      let a := fresh "x" in let s := fresh "st" in let Ha := fresh "Hp" in
      apply bind_ok in H as (a & s & Ha & H)
  | H : lift _ _ = Ok (_, _) |- _ =>
      let E := fresh "Hl" in apply lift_ok in H as (E & ->)
  | H : ret _ _ = Ok (_, _) |- _ =>
      let E := fresh "Hv" in apply ret_ok in H as (E & ->); try subst
  | u : unit |- _ => destruct u
  end.

(** ** What is left to read *)

(** The unread bytes of a source.  [view s rest] also carries the source's
    own invariant (a cursor inside its buffer, for instance). *)
Class Source (S : Type) := view : S -> bytes -> Prop.

(** A primitive read of exactly [n] bytes. *)
Class ExactRead {S E} `{Source S} (take_exact : Z -> reader S E bytes) : Prop := {
  take_exact_complete s x rest :
    zlen x <= USIZE_MAX -> view s (x ++ rest) ->
    exists s', take_exact (zlen x) s = Ok (x, s') /\ view s' rest;
  take_exact_sound n s rem x s' :
    0 <= n -> view s rem -> take_exact n s = Ok (x, s') ->
    exists rest, rem = x ++ rest /\ zlen x = n /\ view s' rest;
}.

Section judgements.
Context {S E : Type} `{Source S}.

Definition consumes {A} (p : reader S E A) (bs : bytes) (a : A) : Prop :=
  forall s rest, view s (bs ++ rest) ->
  exists s', p s = Ok (a, s') /\ view s' rest.

Definition parses {A} (p : reader S E A) (enc : A -> bytes) (ok : A -> Prop) : Prop :=
  forall s rem a s', view s rem -> p s = Ok (a, s') ->
  ok a /\ exists rest, rem = enc a ++ rest /\ view s' rest.

Lemma consumes_ret {A} (a : A) : consumes (ret a) [] a.
Proof. intros s rest Hv. by exists s. Qed.

Lemma consumes_bind {A B} (p : reader S E A) (k : A -> reader S E B) b1 b2 a b :
  consumes p b1 a -> consumes (k a) b2 b -> consumes (bind p k) (b1 ++ b2) b.
Proof.
  intros Hp Hk s rest Hv. rewrite <-app_assoc in Hv.
  destruct (Hp _ _ Hv) as (s1 & E1 & Hv1).
  destruct (Hk _ _ Hv1) as (s2 & E2 & Hv2).
  exists s2. unfold bind. by rewrite E1.
Qed.

(** The last field of a message. *)
Lemma consumes_last {A B} (p : reader S E A) (k : A -> reader S E B) bs a b :
  consumes p bs a -> consumes (k a) [] b -> consumes (bind p k) bs b.
Proof. intros Hp Hk. rewrite <-(app_nil_r bs). by eapply consumes_bind. Qed.

Lemma consumes_lift {A B} (r : result E A) (k : A -> reader S E B) bs a b :
  r = Ok a -> consumes (k a) bs b -> consumes (bind (lift r) k) bs b.
Proof.
  intros Hr Hk s rest Hv. destruct (Hk _ _ Hv) as (s' & E1 & Hv').
  exists s'. unfold bind, lift. by rewrite Hr.
Qed.

Lemma consumes_check {B} (r : result E unit) (k : reader S E B) bs b :
  r = Ok tt -> consumes k bs b -> consumes (bind (lift r) (fun _ => k)) bs b.
Proof. intros Hr Hk. by eapply consumes_lift. Qed.

Lemma consumes_repeat {A} (p : reader S E A) (enc : A -> bytes) l :
  Forall (fun a => consumes p (enc a) a) l ->
  consumes (repeat_reader (length l) p) (concat (map enc l)) l.
Proof.
  induction 1 as [|a l Ha Hl IH]; simpl; [apply consumes_ret|].
  eapply consumes_bind; [done|]. eapply consumes_last; [done|]. apply consumes_ret.
Qed.

Lemma parses_repeat {A} (p : reader S E A) (enc : A -> bytes) ok n :
  parses p enc ok ->
  parses (repeat_reader n p) (fun l => concat (map enc l))
         (fun l => length l = n /\ Forall ok l).
Proof.
  intros Hp. induction n as [|n IH]; simpl; intros s rem l s' Hv Hr; inv_read.
  - repeat split; [constructor|]. by exists rem.
  - destruct (Hp _ _ _ _ Hv Hp0) as (Ha & r1 & -> & Hv1).
    destruct (IH _ _ _ _ Hv1 Hp1) as ((Hl & Hall) & r2 & -> & Hv2).
    simpl. repeat split; [by f_equal | by constructor |].
    exists r2. by rewrite app_assoc.
Qed.
End judgements.

(** The last read of a message: it may take all that is left. *)
Definition drains {S E A} `{Source S} (p : reader S E A) (bs : bytes) (a : A) : Prop :=
  forall s, view s bs -> exists s', p s = Ok (a, s') /\ view s' [].

Lemma consumes_drains {S E A} `{Source S} (p : reader S E A) bs a :
  consumes p bs a -> drains p bs a.
Proof. intros Hc s Hv. apply Hc. by rewrite app_nil_r. Qed.

Lemma drains_bind {S E A B} `{Source S} (p : reader S E A) (k : A -> reader S E B) b1 b2 a b :
  consumes p b1 a -> drains (k a) b2 b -> drains (bind p k) (b1 ++ b2) b.
Proof.
  intros Hp Hk s Hv. destruct (Hp _ _ Hv) as (s1 & E1 & Hv1).
  destruct (Hk _ Hv1) as (s2 & E2 & Hv2). exists s2. unfold bind. by rewrite E1.
Qed.

Lemma drains_map {S E A B} `{Source S} (p : reader S E A) (f : A -> B) bs a :
  drains p bs a -> drains (bind p (fun x => ret (f x))) bs (f a).
Proof.
  intros Hp s Hv. destruct (Hp _ Hv) as (s1 & E1 & Hv1). exists s1.
  unfold bind. by rewrite E1.
Qed.

(** [parses] as a class, so that decoding steps find their lemma. *)
Class Parses {S E A} `{Source S} (p : reader S E A) (enc : A -> bytes) (ok : A -> Prop)
  : Prop := parses_it : parses p enc ok.

(** Advance over one successful read: the unread bytes start with the
    encoding of what it returned. *)
Ltac parse_next :=
  match goal with
  | Hv : view ?s ?rem, Hp : ?p ?s = Ok (?x, ?s') |- _ =>
      let Hok := fresh "Hok" in let rest := fresh "rest" in let Hv' := fresh "Hview" in
      destruct (parses_it (p:=p) s rem x s' Hv Hp) as (Hok & rest & -> & Hv');
      clear Hv Hp
  end.

Section fixed_width.
Context {S E : Type} `{Source S} (take_exact : Z -> reader S E bytes)
        `{!ExactRead take_exact}.

Lemma consumes_take n x :
  zlen x = n -> n <= USIZE_MAX -> consumes (take_exact n) x x.
Proof. intros <- Hn s rest Hv. by apply take_exact_complete. Qed.

Lemma parses_take n :
  0 <= n -> parses (take_exact n) (fun x => x) (fun x => zlen x = n).
Proof.
  intros Hn s rem x s' Hv Hr.
  destruct (take_exact_sound n s rem x s' Hn Hv Hr) as (rest & -> & Hl & Hv').
  eauto.
Qed.

(** [uN::from_be_bytes(array)] on top of an exact read. *)
Definition read_be (n : nat) : reader S E Z :=
  do x <- take_exact (Z.of_nat n) ;; ret (of_be x).

Lemma consumes_read_be n v :
  Z.of_nat n <= USIZE_MAX -> 0 <= v < 2 ^ (8 * Z.of_nat n) ->
  consumes (read_be n) (be_bytes n v) v.
Proof.
  intros Hn Hv. unfold read_be. eapply consumes_last.
  - apply consumes_take; [apply zlen_be_bytes | done].
  - rewrite of_be_be_bytes_small by done. apply consumes_ret.
Qed.

Lemma parses_read_be n :
  parses (read_be n) (be_bytes n) (fun v => 0 <= v < 2 ^ (8 * Z.of_nat n)).
Proof.
  intros s rem v s' Hv Hr. unfold read_be in Hr. inv_read.
  destruct (parses_take (Z.of_nat n) ltac:(lia) _ _ _ _ Hv Hp) as (Hl & rest & -> & Hv').
  rewrite <-Hl. split; [apply of_be_range|]. exists rest.
  rewrite be_bytes_of_be_n by (unfold zlen in Hl; lia). done.
Qed.
End fixed_width.

#[export] Instance Parses_take {S E} `{Source S} (take_exact : Z -> reader S E bytes)
  `{!ExactRead take_exact} n `{!TCEq (0 <=? n) true} :
  Parses (take_exact n) (fun x => x) (fun x => zlen x = n).
Proof. apply parses_take; [done|]. apply Z.leb_le, TCEq_eq. done. Qed.

#[export] Instance Parses_read_be {S E} `{Source S} (take_exact : Z -> reader S E bytes)
  `{!ExactRead take_exact} n :
  Parses (read_be take_exact n) (be_bytes n) (fun v => 0 <= v < 2 ^ (8 * Z.of_nat n)).
Proof. by apply parses_read_be. Qed.

(** ** Slices as sources

    [&[u8]] implements [Read]/[AsyncRead]: [read_exact] takes from the front
    and fails when the slice is too short. *)

#[export] Instance slice_source : Source bytes := fun s rest => s = rest.

Definition slice_read_exact {E} (eof : E) (n : Z) : reader bytes E bytes :=
  fun s => if n <=? zlen s
           then Ok (take (Z.to_nat n) s, drop (Z.to_nat n) s)
           else Err eof.

#[export] Instance slice_exact_read {E} (eof : E) : ExactRead (slice_read_exact eof).
Proof.
  split.
  - intros s x rest Hx ->. unfold slice_read_exact. rewrite zlen_app.
    rewrite (proj2 (Z.leb_le _ _)) by (pose proof (zlen_nonneg rest); lia).
    exists rest. unfold zlen. rewrite Nat2Z.id, take_app_length, drop_app_length. done.
  - intros n s rem x s' Hn Hv. unfold view, slice_source in *. subst rem.
    unfold slice_read_exact.
    destruct (Z.leb_spec n (zlen s)) as [Hle|]; [|done].
    intros [= <- <-]. exists (drop (Z.to_nat n) s). rewrite take_drop.
    repeat split. unfold zlen in *. rewrite length_take. lia.
Qed.

(** A read from a slice does not depend on what follows it. *)
Definition monotone {E A} (p : reader bytes E A) : Prop :=
  forall s a s' q, p s = Ok (a, s') -> p (s ++ q) = Ok (a, s' ++ q).

Lemma monotone_ret {E A} (a : A) : monotone (E:=E) (ret a).
Proof. intros s b s' q H. inv_read. done. Qed.

Lemma monotone_lift {E A} (r : result E A) : monotone (lift r).
Proof. intros s a s' q H. inv_read. unfold lift. by rewrite Hl. Qed.

Lemma monotone_bind {E A B} (p : reader bytes E A) (k : A -> reader bytes E B) :
  monotone p -> (forall a, monotone (k a)) -> monotone (bind p k).
Proof.
  intros Hp Hk s b s' q H. apply bind_ok in H as (a & s1 & H1 & H2).
  apply bind_ok. exists a, (s1 ++ q). split; [by apply Hp | by apply Hk].
Qed.

Lemma monotone_read_exact {E} (eof : E) n : monotone (slice_read_exact eof n).
Proof.
  intros s a s' q. unfold slice_read_exact.
  destruct (Z.leb_spec n (zlen s)) as [Hn|]; [|done]. intros [= <- <-].
  rewrite (proj2 (Z.leb_le _ _)) by (rewrite zlen_app; pose proof (zlen_nonneg q); lia).
  unfold zlen in Hn.
  rewrite take_app_le, drop_app_le by lia. done.
Qed.

Lemma monotone_read_be {E} (eof : E) n : monotone (read_be (slice_read_exact eof) n).
Proof.
  apply monotone_bind; [apply monotone_read_exact | intros; apply monotone_ret].
Qed.

Create HintDb monotone discriminated.
#[export] Hint Resolve monotone_ret monotone_lift monotone_bind
  monotone_read_exact monotone_read_be : monotone.

(** A torn message: what a monotone reader accepts, followed by nothing, it
    does not accept when the end is missing. *)
Lemma monotone_torn {E A} (p : reader bytes E A) pre suf a :
  monotone p -> suf <> [] -> p (pre ++ suf) = Ok (a, []) ->
  exists e, p pre = Err e.
Proof.
  intros Hm Hs Hp. destruct (p pre) as [[b s']|e] eqn:E1; [|eauto].
  apply (Hm _ _ _ suf) in E1. rewrite E1 in Hp. injection Hp as _ Hn.
  apply app_eq_nil in Hn as [_ ->]. done.
Qed.
