(* ===== verification/Crates.v ===== *)
(** * The third-party crates serctl calls

    [sha2], [hmac], [hex] and [serde_json] are not part of the repository.
    Each is a class of operations the models take as a parameter, with a
    second class for the documented behaviour a theorem may rely on.  The
    last section gives executable stand-ins that satisfy the laws; they are
    used to evaluate the models on concrete inputs, never in a statement
    about the program. *)

From S2P Require Import Prelude.
From S2P Require Import Bytes.
From S2P Require Import Text.
#[local] Open Scope Z_scope.

(** ** sha2: [Sha256::digest] *)
Class Sha2 := sha256 : bytes -> bytes.
Class Sha2Laws `{Sha2} : Prop := {
  sha256_length m : length (sha256 m) = 32%nat;
}.

(** ** hmac: [Hmac<Sha256>]; a key of any length is accepted *)
Class HmacSha2 := hmac_sha256 : bytes -> bytes -> bytes.
Class HmacSha2Laws `{HmacSha2} : Prop := {
  hmac_length k m : length (hmac_sha256 k m) = 32%nat;
}.

(** ** hex: [hex::encode] (lower case) and [hex::decode] (either case) *)
Class Hex := {
  hex_encode : bytes -> str;
  hex_decode : str -> option bytes;
}.
Class HexLaws `{Hex} : Prop := {
  hex_decode_encode b : hex_decode (hex_encode b) = Some b;
  hex_encode_length b : length (hex_encode b) = (2 * length b)%nat;
  hex_encode_lower b : forallb is_lower_hex_byte (hex_encode b) = true;
  hex_decode_length s b : hex_decode s = Some b -> length s = (2 * length b)%nat;
  hex_decode_total s n : length s = (2 * n)%nat ->
    forallb is_lower_hex_byte s = true ->
    exists b, hex_decode s = Some b /\ hex_encode b = s;
}.

Lemma hex_encode_inj `{HexLaws} a b : hex_encode a = hex_encode b -> a = b.
Proof.
  intros E. apply (f_equal hex_decode) in E. rewrite !hex_decode_encode in E.
  congruence.
Qed.

(** ** serde_json: [to_vec] and [from_slice] at one type

    A model type may contain byte strings that are no Rust [String]; there
    [to_vec] is [None], as for a value the serializer rejects. *)
Class Json (A : Type) := {
  to_vec : A -> option bytes;
  from_slice : bytes -> option A;
}.
Class JsonLaws (A : Type) `{Json A} : Prop := {
  from_slice_to_vec a bs : to_vec a = Some bs -> from_slice bs = Some a;
}.
(** [to_vec] writes compact JSON: at least one byte, and no raw newline. *)
Class JsonLineLaws (A : Type) `{Json A} : Prop := {
  to_vec_nonempty a bs : to_vec a = Some bs -> bs <> [];
  to_vec_no_newline a bs : to_vec a = Some bs -> ("010"%byte : byte) ∉ bs;
}.

Lemma to_vec_inj `{JsonLaws A} (a b : A) bs :
  to_vec a = Some bs -> to_vec b = Some bs -> a = b.
Proof. intros Ha%from_slice_to_vec Hb%from_slice_to_vec. congruence. Qed.

(** A type that is only serialized.  The JSON of a struct determines it. *)
Class JsonSer (A : Type) := json_bytes : A -> option bytes.
Class JsonSerLaws (A : Type) `{JsonSer A} : Prop := {
  json_bytes_inj (a b : A) bs : json_bytes a = Some bs -> json_bytes b = Some bs -> a = b;
}.

(** ** Executable stand-ins *)
Module StandIn.

(** A polynomial hash of 32 bytes in place of SHA-256 and HMAC. *)
Definition poly (seed : Z) (m : bytes) : bytes :=
  be_bytes 32 (fold_left (fun h b => Z.land (h * 1000003 + b8 b + 1) (Z.ones 128)) m seed).

#[export] Instance poly_sha2 : Sha2 := poly 7.
#[export] Instance poly_sha2_laws : Sha2Laws.
Proof. split. intros. apply length_be_bytes. Qed.

#[export] Instance poly_hmac : HmacSha2 := fun k m => poly 11 (k ++ m).
#[export] Instance poly_hmac_laws : HmacSha2Laws.
Proof. split. intros. apply length_be_bytes. Qed.

(** Hexadecimal. *)
Definition encode_byte (b : byte) : str :=
  [hex_digit (Z.shiftr (b8 b) 4); hex_digit (Z.land (b8 b) 15)].

Definition nibble (b : byte) : option Z := hex_value (to_lower b).

Fixpoint decode_pairs (s : str) : option bytes :=
  match s with
  | [] => Some []
  | [_] => None
  | h :: l :: s' =>
      match nibble h, nibble l, decode_pairs s' with
      | Some a, Some b, Some r => Some (byte_of_Z (a * 16 + b) :: r)
      | _, _, _ => None
      end
  end.

#[export] Instance plain_hex : Hex :=
  {| hex_encode b := concat (map encode_byte b); hex_decode := decode_pairs |}.

Lemma to_lower_hex b : is_lower_hex_byte b = true -> to_lower b = b.
Proof.
  unfold is_lower_hex_byte, to_lower, is_ascii_uppercase. intros H.
  rewrite orb_true_iff, !in_range_true in H.
  rewrite (proj2 (in_range_false _ _ _)) by lia. done.
Qed.

Lemma nibbles b :
  0 <= Z.shiftr (b8 b) 4 < 16 /\ 0 <= Z.land (b8 b) 15 < 16 /\
  Z.shiftr (b8 b) 4 * 16 + Z.land (b8 b) 15 = b8 b.
Proof.
  pose proof (b8_range b). rewrite Z.shiftr_div_pow2 by lia.
  change 15 with (Z.ones 4). rewrite Z.land_ones by lia. change (2 ^ 4) with 16.
  Z.to_euclidean_division_equations; lia.
Qed.

Lemma nibble_digit n : 0 <= n < 16 -> nibble (hex_digit n) = Some n.
Proof.
  intros. unfold nibble. rewrite to_lower_hex by by apply hex_digit_lower.
  by apply hex_value_digit.
Qed.

Lemma digit_nibble b : is_lower_hex_byte b = true ->
  exists n, 0 <= n < 16 /\ nibble b = Some n /\ hex_digit n = b.
Proof.
  intros Hb. unfold nibble. rewrite to_lower_hex by done.
  unfold is_lower_hex_byte in Hb. rewrite orb_true_iff, !in_range_true in Hb.
  unfold hex_value, hex_digit. destruct Hb.
  - exists (b8 b - 48). rewrite (proj2 (Z.leb_le 48 _)), (proj2 (Z.leb_le _ 57)) by lia.
    rewrite (proj2 (Z.ltb_lt _ _)) by lia. repeat split; try lia.
    replace (48 + (b8 b - 48)) with (b8 b) by lia. apply of_Z_b8.
  - exists (b8 b - 87). rewrite (proj2 (Z.leb_gt _ 57)) by lia. rewrite andb_false_r.
    rewrite (proj2 (Z.leb_le 97 _)), (proj2 (Z.leb_le _ 102)) by lia.
    rewrite (proj2 (Z.ltb_ge _ _)) by lia. repeat split; try lia.
    replace (87 + (b8 b - 87)) with (b8 b) by lia. apply of_Z_b8.
Qed.

Lemma decode_pairs_length s b : decode_pairs s = Some b -> length s = (2 * length b)%nat.
Proof.
  revert b; induction s as [s IH] using (induction_ltof1 _ (@length _)).
  destruct s as [|h [|l s]]; intros b; simpl; [intros [= <-]; done|done|].
  destruct (nibble h), (nibble l), (decode_pairs s) eqn:E; try done.
  intros [= <-]. apply IH in E; [simpl; lia|]. unfold ltof; simpl; lia.
Qed.

#[export] Instance plain_hex_laws : HexLaws.
Proof.
  split.
  - induction b as [|b l IH]; [done|]. cbn -[nibble].
    destruct (nibbles b) as (Hh & Hl & Hs). rewrite !nibble_digit by done.
    cbn in IH. rewrite IH, Hs, of_Z_b8. done.
  - induction b as [|b l IH]; [done|]. cbn in *. lia.
  - induction b as [|b l IH]; [done|]. cbn -[is_lower_hex_byte] in *.
    destruct (nibbles b) as (Hh & Hl & _). rewrite !hex_digit_lower, IH by done. done.
  - apply decode_pairs_length.
  - intros s n. revert s; induction n as [|n IH]; intros s Hl Hs.
    { exists []. by destruct s. }
    destruct s as [|h [|l s]]; simpl in Hl; try lia.
    cbn -[is_lower_hex_byte] in Hs. rewrite !andb_true_iff in Hs.
    destruct Hs as (Hh & Hlo & Hs).
    destruct (IH s ltac:(lia) Hs) as (r & Hr & Er).
    destruct (digit_nibble h Hh) as (a & Ha & Na & <-).
    destruct (digit_nibble l Hlo) as (b & Hb & Nb & <-).
    exists (byte_of_Z (a * 16 + b) :: r). cbn in Hr. split.
    { cbn. by rewrite Na, Nb, Hr. }
    subst s. cbn. rewrite b8_of_Z_small by lia. f_equal; [|f_equal].
    + f_equal. rewrite Z.shiftr_div_pow2 by lia. change (2 ^ 4) with 16.
      Z.to_euclidean_division_equations; lia.
    + f_equal. change 15 with (Z.ones 4). rewrite Z.land_ones by lia.
      change (2 ^ 4) with 16. Z.to_euclidean_division_equations; lia.
Qed.

(** A serializer given by a finite table of values and their encodings. *)
Section table.
Context {A : Type} `{EqDecision A} (tbl : list (A * bytes)).

Definition table_to_vec (a : A) : option bytes :=
  snd <$> find (fun p => bool_decide (p.1 = a)) tbl.
Definition table_from_slice (bs : bytes) : option A :=
  fst <$> find (fun p => bool_decide (p.2 = bs)) tbl.
Definition table_json : Json A :=
  {| to_vec := table_to_vec; from_slice := table_from_slice |}.

Lemma table_json_laws : NoDup (map snd tbl) -> @JsonLaws A table_json.
Proof.
  intros Hnd. split. intros a bs. cbn. unfold table_to_vec, table_from_slice.
  intros ([a' bs'] & Hf & E)%fmap_Some. simpl in E; subst bs'.
  apply find_some in Hf as (Hin & Ha). simpl in Ha. apply bool_decide_eq_true in Ha.
  subst a'. apply fmap_Some. exists (a, bs). split; [|done].
  induction tbl as [|[x y] t IH]; [done|]. simpl in *. inversion Hnd; subst.
  destruct Hin as [[= -> ->]|Hin]; [by rewrite bool_decide_true|].
  rewrite bool_decide_false; [by apply IH|].
  intros ->. apply H1. apply list_elem_of_In, in_map_iff. by exists (a, bs).
Qed.

Lemma table_json_line_laws :
  Forall (fun p => p.2 <> [] /\ ("010"%byte : byte) ∉ p.2) tbl ->
  @JsonLineLaws A table_json.
Proof.
  intros Ht. assert (forall a bs, table_to_vec a = Some bs ->
    bs <> [] /\ ("010"%byte : byte) ∉ bs) as Hb.
  { intros a bs ([a' bs'] & Hf & E)%fmap_Some. simpl in E; subst bs'.
    apply find_some in Hf as (Hin & _). apply list_elem_of_In in Hin.
    by apply (proj1 (Forall_forall _ _) Ht (a', bs)). }
  split; intros a bs Hv; by apply Hb in Hv as [].
Qed.
End table.

Definition table_json_ser {A} `{EqDecision A} (tbl : list (A * bytes)) : JsonSer A :=
  table_to_vec tbl.
Lemma table_json_ser_laws {A} `{EqDecision A} (tbl : list (A * bytes)) :
  NoDup (map snd tbl) -> @JsonSerLaws A (table_json_ser tbl).
Proof.
  intros Hnd. pose proof (table_json_laws tbl Hnd) as Hl. split. intros a b bs Ha Hb.
  apply (@from_slice_to_vec A (table_json tbl)) in Ha, Hb; [congruence|done..].
Qed.

(** A serializer that writes the fields of a struct in hexadecimal, separated
    by semicolons. *)
Section fields.
Context {A : Type} (to_fields : A -> list bytes) (of_fields : list bytes -> option A)
        (serializable : A -> bool).

Definition fields_to_vec (a : A) : option bytes :=
  if serializable a then Some (join_with ";"%byte (map hex_encode (to_fields a))) else None.
Definition fields_from_slice (s : bytes) : option A :=
  fs ← mapM hex_decode (split_on ";"%byte s); of_fields fs.
Definition fields_json : Json A :=
  {| to_vec := fields_to_vec; from_slice := fields_from_slice |}.

Hypothesis of_to_fields : forall a, serializable a = true -> of_fields (to_fields a) = Some a.
Hypothesis several_fields : forall a, (2 <= length (to_fields a))%nat.

Lemma hex_free (c : byte) b : is_lower_hex_byte c = false -> c ∉ hex_encode b.
Proof.
  intros Hc Hin. pose proof (hex_encode_lower b) as Hl. rewrite forallb_Forall' in Hl.
  apply (proj1 (Forall_forall _ _) Hl) in Hin. congruence.
Qed.

Lemma mapM_hex_decode l : mapM hex_decode (map hex_encode l) = Some l.
Proof.
  induction l as [|b l IH]; [done|]. cbn [map mapM]. by rewrite hex_decode_encode, IH.
Qed.

Lemma fields_json_laws : @JsonLaws A fields_json.
Proof.
  split. intros a bs. cbn. unfold fields_to_vec, fields_from_slice.
  destruct (serializable a) eqn:Hs; [|done]. intros [= <-]. rewrite split_join.
  - rewrite mapM_hex_decode. by apply of_to_fields.
  - pose proof (several_fields a). by destruct (to_fields a); simpl in *; [lia|].
  - apply Forall_forall. intros p. change (map hex_encode) with (fmap (M := list) hex_encode).
    intros (b & -> & _)%list_elem_of_fmap. by apply hex_free.
Qed.

Lemma join_free (c : byte) ps :
  c <> ";"%byte -> Forall (fun p => c ∉ p) ps -> c ∉ join_with ";"%byte ps.
Proof.
  intros Hc. induction ps as [|p ps IH]; intros Hps; [set_solver|].
  inversion Hps; subst. destruct ps; simpl; [done|]. set_solver.
Qed.

Lemma fields_json_line_laws : @JsonLineLaws A fields_json.
Proof.
  split; intros a bs; cbn; unfold fields_to_vec;
    (destruct (serializable a); [|done]); intros [= <-].
  - pose proof (several_fields a). destruct (to_fields a) as [|x [|y l]]; simpl in *; [lia..|].
    intros E; symmetry in E; by apply app_cons_not_nil in E.
  - apply join_free; [done|]. apply Forall_forall. intros p.
    change (map hex_encode) with (fmap (M := list) hex_encode).
    intros (b & -> & _)%list_elem_of_fmap. by apply hex_free.
Qed.

Lemma zlen_fields l :
  zlen (join_with ";"%byte (map hex_encode l)) <=
  fold_right (fun b s => 2 * zlen b + 1 + s) 0 l.
Proof.
  induction l as [|b l IH]; [done|]. cbn [map fold_right].
  assert (zlen (hex_encode b) = 2 * zlen b) as Hb by (unfold zlen; rewrite hex_encode_length; lia).
  destruct l as [|b' l]; [cbn in *; lia|]. change (join_with _ _) with
    (hex_encode b ++ ";"%byte :: join_with ";"%byte (map hex_encode (b' :: l))).
  rewrite zlen_app, zlen_cons. lia.
Qed.
End fields.

End StandIn.
