(* ===== verification/TransferProtocol.v ===== *)
(** * serctl-transfer-protocol: the native transfer wire format

    crates/serctl_transfer_protocol/src/lib.rs: the context-free checks of
    control messages, the helper's runtime identity, data frames with their
    chunk digests, the contiguous-offset validator, and the framing that
    writes and reads them.  A writer is a byte vector (what was written), a
    reader the slice still unread.  [anyhow] errors are their messages. *)

From S2P Require Import Prelude.
From S2P Require Import Bytes.
From S2P Require Import Text.
From S2P Require Import Codec.
From S2P Require Import Crates.
#[local] Open Scope string_scope.
#[local] Open Scope list_scope.
#[local] Open Scope Z_scope.

(** ** Limits *)

Definition MAGIC : bytes := rs "SRXF".
Definition VERSION : Z := 1.
Definition MAX_CONTROL_BYTES : Z := 64 * 1024.
Definition MAX_CHUNK_BYTES : Z := 1024 * 1024.
Definition MAX_FRAME_BYTES : Z := MAX_CHUNK_BYTES + 64.
Definition MAX_WINDOW_BYTES : Z := 8 * 1024 * 1024.
Definition MAX_PATH_BYTES : Z := 4 * 1024.
Definition MAX_ERROR_CODE_BYTES : Z := 64.
Definition MAX_HELPER_VERSION_BYTES : Z := 256.
Definition MAX_HELPER_BINARY_BYTES : Z := 512 * 1024 * 1024.
Definition HELPER_BINARY_NAME : str := rs "serctl-xfer".

(** ** Field checks *)

Definition is_lower_hex (value : str) (n : Z) : bool :=
  (zlen value =? n * 2) && forallb is_lower_hex_byte value.

Definition validate_transfer_id (value : str) : result string unit :=
  ensure (is_lower_hex value 16)
    "native transfer id must contain 32 lowercase hex characters".

Definition validate_sha256 (value : str) (label : string) : result string unit :=
  ensure (is_lower_hex value 32)
    (label ++ " must contain 64 lowercase hex characters")%string.

Definition validate_path (value : str) (label : string) : result string unit :=
  ensure (negb (is_empty value) && (zlen value <=? MAX_PATH_BYTES)
          && negb (contains_byte x00 value))
    ("invalid native transfer " ++ label)%string.

(** ** The helper's runtime identity *)

Record HelperRuntimeIdentity := {
  name : str;
  binary_size : Z;
  identity_sha256 : str;
  version : str;
}.

#[export] Instance HelperRuntimeIdentity_eq_dec : EqDecision HelperRuntimeIdentity.
Proof. solve_decision. Defined.

(** [format!("; transfer protocol v{VERSION})")]. *)
Definition version_prefix : str := HELPER_BINARY_NAME ++ rs " ".
Definition version_suffix : str := rs "; transfer protocol v1)".

Definition is_release_byte (b : byte) : bool :=
  is_ascii_alphanumeric b || matches_byte b (rs ".-").

Definition identity_validate (self : HelperRuntimeIdentity) : result string unit :=
  ensure! bool_decide (name self = HELPER_BINARY_NAME)
    or "native helper name mismatch" ;;
  ensure! in_range 1 MAX_HELPER_BINARY_BYTES (binary_size self)
    or "native helper binary size is invalid" ;;
  try! validate_sha256 (identity_sha256 self) "native helper binary SHA-256" ;;
  ensure! negb (is_empty (version self))
          && (zlen (version self) <=? MAX_HELPER_VERSION_BYTES)
          && is_ascii (version self)
          && negb (existsb is_ascii_control (version self))
    or "native helper version identity is invalid" ;;
  let* body := ok_or
    (value ← strip_prefix version_prefix (version self);
     strip_suffix version_suffix value)
    "native helper version identity grammar mismatch" in
  let* (release_version, commit) := ok_or (split_once (rs " (git ") body)
    "native helper version identity grammar mismatch" in
  ensure! negb (is_empty release_version) && (zlen release_version <=? 64)
          && forallb is_release_byte release_version
    or "native helper release version is invalid" ;;
  let commit_hex := default commit (strip_suffix (rs "-dirty") commit) in
  ensure! (zlen commit_hex =? 12) && forallb is_lower_hex_byte commit_hex
    or "native helper commit identity is invalid" ;;
  Ok tt.

Definition identity_zeroize (self : HelperRuntimeIdentity) : HelperRuntimeIdentity :=
  {| name := []; binary_size := 0; identity_sha256 := []; version := [] |}.

Definition verify_expected_helper_identity
    (observed expected : HelperRuntimeIdentity) : result string unit :=
  try! identity_validate observed ;;
  try! identity_validate expected ;;
  ensure! bool_decide (observed = expected)
    or "native helper runtime identity does not match exact release provenance" ;;
  Ok tt.

(** ** Control messages *)

Inductive HandshakePeer := Client | Helper.

Inductive FrameKind := KControl | KData.
(** [kind as u8]. *)
Definition frame_kind_u8 (k : FrameKind) : Z :=
  match k with KControl => 1 | KData => 2 end.

Inductive Control :=
| HelperHello (version max_chunk max_window : Z) (resume sha256 fsync no_replace : bool)
    (identity : HelperRuntimeIdentity)
| Hello (version max_chunk max_window : Z) (resume sha256 fsync no_replace : bool)
| BeginPush (transfer_id target : str) (size : Z) (sha256 resume_token : str)
    (resume : bool)
| BeginPull (transfer_id source : str) (offset : Z)
| Ready (chunk window durable_offset : Z)
| PullReady (chunk window size : Z) (sha256 : str) (start_offset : Z)
| Ack (confirmed_offset durable_offset receiver_window : Z)
| Commit
| Completed (size : Z) (sha256 : str)
| Cancel
| Error (code message : str) (outcome_unknown : bool).

#[export] Instance Control_eq_dec : EqDecision Control.
Proof. solve_decision. Defined.

(** [impl fmt::Debug for Control]: the name and fields handed to the
    formatter. *)
Inductive DebugValue :=
| DInt (v : Z)
| DBool (v : bool)
| DStr (v : str)
| DIdentity (v : HelperRuntimeIdentity).

Definition control_debug (self : Control) : string * list (string * DebugValue) :=
  match self with
  | HelperHello v mc mw r sh fs nr identity =>
      ("HelperHello",
       [("version", DInt v); ("max_chunk", DInt mc); ("max_window", DInt mw);
        ("resume", DBool r); ("sha256", DBool sh); ("fsync", DBool fs);
        ("no_replace", DBool nr); ("identity", DIdentity identity)])
  | Hello v mc mw r sh fs nr =>
      ("Hello",
       [("version", DInt v); ("max_chunk", DInt mc); ("max_window", DInt mw);
        ("resume", DBool r); ("sha256", DBool sh); ("fsync", DBool fs);
        ("no_replace", DBool nr)])
  | BeginPush transfer_id target size sha256 _ can_resume =>
      ("BeginPush",
       [("transfer_id", DStr transfer_id); ("target", DStr target);
        ("size", DInt size); ("sha256", DStr sha256);
        ("resume_token", DStr (rs "[REDACTED]")); ("resume", DBool can_resume)])
  | BeginPull transfer_id source offset =>
      ("BeginPull",
       [("transfer_id", DStr transfer_id); ("source", DStr source);
        ("offset", DInt offset)])
  | Ready chunk window durable_offset =>
      ("Ready",
       [("chunk", DInt chunk); ("window", DInt window);
        ("durable_offset", DInt durable_offset)])
  | PullReady chunk window size sha256 start_offset =>
      ("PullReady",
       [("chunk", DInt chunk); ("window", DInt window); ("size", DInt size);
        ("sha256", DStr sha256); ("start_offset", DInt start_offset)])
  | Ack confirmed_offset durable_offset receiver_window =>
      ("Ack",
       [("confirmed_offset", DInt confirmed_offset);
        ("durable_offset", DInt durable_offset);
        ("receiver_window", DInt receiver_window)])
  | Commit => ("Commit", [])
  | Completed size sha256 =>
      ("Completed", [("size", DInt size); ("sha256", DStr sha256)])
  | Cancel => ("Cancel", [])
  | Error code message outcome_unknown =>
      ("Error",
       [("code", DStr code); ("message", DStr message);
        ("outcome_unknown", DBool outcome_unknown)])
  end.

(** [impl Zeroize for Control]. *)
Definition control_zeroize (self : Control) : Control :=
  match self with
  | HelperHello _ _ _ _ _ _ _ identity =>
      HelperHello 0 0 0 false false false false (identity_zeroize identity)
  | Hello _ _ _ _ _ _ _ => Hello 0 0 0 false false false false
  | BeginPush _ _ _ _ _ _ => BeginPush [] [] 0 [] [] false
  | BeginPull _ _ _ => BeginPull [] [] 0
  | Ready _ _ _ => Ready 0 0 0
  | PullReady _ _ _ _ _ => PullReady 0 0 0 [] 0
  | Ack _ _ _ => Ack 0 0 0
  | Commit => Commit
  | Completed _ _ => Completed 0 []
  | Cancel => Cancel
  | Error _ _ _ => Error [] [] false
  end.

Definition validate_hello_limits (version max_chunk max_window : Z) : result string unit :=
  ensure! version =? VERSION
    or "native transfer hello version mismatch" ;;
  ensure! in_range 1 MAX_CHUNK_BYTES max_chunk
    or "native transfer hello chunk limit is invalid" ;;
  ensure! (max_chunk <=? max_window) && (max_window <=? MAX_WINDOW_BYTES)
    or "native transfer hello window limit is invalid" ;;
  Ok tt.

Definition validate_limits (chunk window : Z) : result string unit :=
  ensure! in_range 1 MAX_CHUNK_BYTES chunk
    or "native transfer chunk limit is invalid" ;;
  ensure! (chunk <=? window) && (window <=? MAX_WINDOW_BYTES)
    or "native transfer window limit is invalid" ;;
  Ok tt.

Definition is_error_code_byte (b : byte) : bool :=
  is_ascii_lowercase b || is_ascii_digit b || matches_byte b (rs "_-.").

Definition control_validate (self : Control) : result string unit :=
  match self with
  | HelperHello version max_chunk max_window _ _ _ _ identity =>
      try! validate_hello_limits version max_chunk max_window ;;
      try! identity_validate identity ;;
      Ok tt
  | Hello version max_chunk max_window _ _ _ _ =>
      try! validate_hello_limits version max_chunk max_window ;;
      Ok tt
  | BeginPush transfer_id target _ sha256 resume_token _ =>
      try! validate_transfer_id transfer_id ;;
      try! validate_path target "target path" ;;
      try! validate_sha256 sha256 "native transfer SHA-256" ;;
      try! validate_sha256 resume_token "native transfer resume token" ;;
      Ok tt
  | BeginPull transfer_id source _ =>
      try! validate_transfer_id transfer_id ;;
      try! validate_path source "source path" ;;
      Ok tt
  | Ready chunk window _ =>
      try! validate_limits chunk window ;;
      Ok tt
  | PullReady chunk window size sha256 start_offset =>
      try! validate_limits chunk window ;;
      ensure! start_offset <=? size
        or "native pull start offset exceeds source size" ;;
      try! validate_sha256 sha256 "native pull SHA-256" ;;
      Ok tt
  | Ack confirmed_offset durable_offset receiver_window =>
      ensure! durable_offset <=? confirmed_offset
        or "native transfer durable offset exceeds confirmation" ;;
      ensure! in_range 1 MAX_WINDOW_BYTES receiver_window
        or "native transfer receiver window is invalid" ;;
      Ok tt
  | Completed _ sha256 =>
      try! validate_sha256 sha256 "native completion SHA-256" ;;
      Ok tt
  | Error code message _ =>
      ensure! negb (is_empty code) && (zlen code <=? MAX_ERROR_CODE_BYTES)
              && forallb is_error_code_byte code
        or "native transfer error code is invalid" ;;
      ensure! negb (contains_byte x00 message)
        or "native transfer error message contains NUL" ;;
      Ok tt
  | Commit | Cancel => Ok tt
  end.

Definition validate_handshake_sender (self : Control) (sender : HandshakePeer)
  : result string unit :=
  match sender, self with
  | Helper, HelperHello _ _ _ _ _ _ _ _ | Client, Hello _ _ _ _ _ _ _ =>
      control_validate self
  | Helper, Hello _ _ _ _ _ _ _ =>
      Err "client hello is not valid from native helper"
  | Client, HelperHello _ _ _ _ _ _ _ _ =>
      Err "helper identity hello is server-only"
  | _, _ => Err "non-hello control is invalid during native handshake"
  end.

(** ** Data frames *)

Record DataFrame := {
  transfer_id : bytes;   (** [u8; 16] *)
  offset : Z;            (** u64 *)
  chunk_sha256 : bytes;  (** [u8; 32] *)
  payload : bytes;
}.

#[export] Instance DataFrame_eq_dec : EqDecision DataFrame.
Proof. solve_decision. Defined.

Section frames.
Context `{Sha2} `{Hex} `{Json Control}.

Definition data_new (transfer_id : bytes) (offset : Z) (payload : bytes)
  : result string DataFrame :=
  ensure! negb (is_empty payload) or "native transfer chunk is empty" ;;
  ensure! zlen payload <=? MAX_CHUNK_BYTES or "native transfer chunk is too large" ;;
  Ok {| transfer_id := transfer_id; offset := offset;
        chunk_sha256 := sha256 payload; payload := payload |}.

Definition end_offset (self : DataFrame) : result string Z :=
  ok_or (checked_add U64_MAX (offset self) (zlen (payload self)))
    "native transfer chunk offset overflow".

Definition data_validate (self : DataFrame) : result string unit :=
  ensure! negb (is_empty (payload self)) or "native transfer chunk is empty" ;;
  ensure! zlen (payload self) <=? MAX_CHUNK_BYTES
    or "native transfer chunk is too large" ;;
  ensure! bool_decide (sha256 (payload self) = chunk_sha256 self)
    or "native transfer chunk SHA-256 mismatch" ;;
  try! end_offset self ;;
  Ok tt.

(** ** The contiguous-prefix validator *)

Record DataSequenceValidator := {
  seq_transfer_id : bytes;
  next_offset : Z;
}.

Definition seq_new (transfer_id : bytes) (next : Z) : DataSequenceValidator :=
  {| seq_transfer_id := transfer_id; next_offset := next |}.

(** [&mut self]: the state after the call, and its result. *)
Definition validate_next (self : DataSequenceValidator) (data : DataFrame)
  : DataSequenceValidator * result string unit :=
  let checked :=
    try! data_validate data ;;
    ensure! bool_decide (transfer_id data = seq_transfer_id self)
      or "native transfer data frame belongs to another transfer" ;;
    ensure! offset data =? next_offset self
      or "native transfer data offset gap or replay" ;;
    end_offset data in
  match checked with
  | Ok next =>
      ({| seq_transfer_id := seq_transfer_id self; next_offset := next |}, Ok tt)
  | Err e => (self, Err e)
  end.

(** ** Framing *)

Inductive Frame :=
| FControl (c : Control)
| FData (d : DataFrame).

Definition write_header (kind : FrameKind) (body_len : Z) : result string bytes :=
  ensure! body_len <=? MAX_FRAME_BYTES or "native transfer frame is too large" ;;
  let* len32 := ok_or (try_from_max U32_MAX body_len)
    "native transfer frame length overflow" in
  Ok (MAGIC ++ be16 VERSION ++ [byte_of_Z (frame_kind_u8 kind)] ++ [x00] ++ be32 len32).

Definition write_control (control : Control) : result string bytes :=
  try! control_validate control ;;
  let* body := ok_or (to_vec control) "serialize native transfer control" in
  ensure! zlen body <=? MAX_CONTROL_BYTES or "native transfer control is too large" ;;
  let* header := write_header KControl (zlen body) in
  Ok (header ++ body).

Definition write_handshake_control (control : Control) (sender : HandshakePeer)
  : result string bytes :=
  try! validate_handshake_sender control sender ;;
  write_control control.

Definition write_data (data : DataFrame) : result string bytes :=
  try! data_validate data ;;
  let body_len := 16 + 8 + 32 + zlen (payload data) in
  let* header := write_header KData body_len in
  Ok (header ++ transfer_id data ++ be64 (offset data) ++ chunk_sha256 data
      ++ payload data).

(** [AsyncReadExt::read_exact] and the fixed-width reads on a slice. *)
Definition read_exact : Z -> reader bytes string bytes := slice_read_exact "early eof".
Definition read_u8 : reader bytes string Z := read_be read_exact 1.
Definition read_u16 : reader bytes string Z := read_be read_exact 2.
Definition read_u32 : reader bytes string Z := read_be read_exact 4.
Definition read_u64 : reader bytes string Z := read_be read_exact 8.

(** The fixed header, once a first byte was available: kind and body
    length. *)
Definition read_header : reader bytes string (Z * Z) :=
  do magic <- read_exact 4 ;;
  check ensure (bool_decide (magic = MAGIC)) "native transfer frame magic mismatch" ;;
  do version <- read_u16 ;;
  check ensure (version =? VERSION) "unsupported native transfer protocol version" ;;
  do kind <- read_u8 ;;
  do flags <- read_u8 ;;
  check ensure (flags =? 0) "unknown native transfer frame flags" ;;
  do body_len <- read_u32 ;;
  check ensure (body_len <=? MAX_FRAME_BYTES) "native transfer frame is too large" ;;
  ret (kind, body_len).

Definition read_control_body (body_len : Z) : reader bytes string (option Frame) :=
  check ensure (body_len <=? MAX_CONTROL_BYTES) "native transfer control is too large" ;;
  do body <- read_exact body_len ;;
  do control <- lift (ok_or (from_slice body) "parse native transfer control") ;;
  check control_validate control ;;
  ret (Some (FControl control)).

Definition read_data_body (body_len : Z) : reader bytes string (option Frame) :=
  check ensure (56 <=? body_len) "native transfer data frame is truncated" ;;
  let payload_len := body_len - 56 in
  check ensure (payload_len <=? MAX_CHUNK_BYTES) "native transfer chunk is too large" ;;
  do id <- read_exact 16 ;;
  do off <- read_u64 ;;
  do digest <- read_exact 32 ;;
  do body <- read_exact payload_len ;;
  let data := {| transfer_id := id; offset := off;
                 chunk_sha256 := digest; payload := body |} in
  check data_validate data ;;
  ret (Some (FData data)).

Definition read_frame_body : reader bytes string (option Frame) :=
  do (kind, body_len) <- read_header ;;
  if kind =? frame_kind_u8 KControl then read_control_body body_len
  else if kind =? frame_kind_u8 KData then read_data_body body_len
  else lift (Err "unknown native transfer frame kind").

(** [Ok(None)] at a clean end of stream: no byte of a next frame. *)
Definition read_frame : reader bytes string (option Frame) :=
  fun s => match s with
           | [] => Ok (None, [])
           | _ :: _ => read_frame_body s
           end.

Definition parse_transfer_id (value : str) : result string bytes :=
  try! validate_transfer_id value ;;
  let* bytes := ok_or (hex_decode value) "native transfer id must be hex" in
  ensure! zlen bytes =? 16 or "native transfer id must decode to 16 bytes" ;;
  Ok bytes.

End frames.

(** ** Theory *)

(** The ranges the Rust field types guarantee. *)
Definition wf_data (d : DataFrame) : Prop :=
  length (transfer_id d) = 16%nat /\ length (chunk_sha256 d) = 32%nat /\
  is_u64 (offset d).

Section theory.
Context `{Sha2} `{Hex} `{Json Control}.

#[local] Instance read_exact_ok : ExactRead read_exact := slice_exact_read _.

Lemma write_header_ok kind len h :
  write_header kind len = Ok h ->
  len <= MAX_FRAME_BYTES /\
  h = MAGIC ++ be16 VERSION ++ be_bytes 1 (frame_kind_u8 kind) ++ be_bytes 1 0 ++ be32 len.
Proof.
  unfold write_header. intros Hw. inv_ok. apply try_from_max_some in Hr0 as [-> _].
  split; [lia|]. by destruct kind.
Qed.

Lemma consumes_header kind len h :
  0 <= len -> write_header kind len = Ok h ->
  consumes read_header h (frame_kind_u8 kind, len).
Proof.
  intros Hlen (Hmax & ->)%write_header_ok. unfold read_header.
  unfold MAX_FRAME_BYTES, MAX_CHUNK_BYTES in Hmax.
  eapply consumes_bind; [by apply (consumes_take read_exact)|].
  apply consumes_check; [done|].
  eapply consumes_bind; [by apply (consumes_read_be read_exact)|].
  apply consumes_check; [done|].
  eapply consumes_bind; [apply (consumes_read_be read_exact); [done|by destruct kind]|].
  eapply consumes_bind; [by apply (consumes_read_be read_exact)|].
  apply consumes_check; [done|].
  eapply consumes_last; [apply (consumes_read_be read_exact); [done|cbn; lia]|].
  apply consumes_check; [|apply consumes_ret].
  apply ensure_ok, Z.leb_le. done.
Qed.

Lemma monotone_read_frame_body : monotone read_frame_body.
Proof.
  unfold read_frame_body, read_header, read_control_body, read_data_body.
  repeat first [ apply monotone_bind | apply monotone_read_be
               | apply monotone_read_exact | apply monotone_lift
               | apply monotone_ret | progress intros | case_match ].
Qed.

Lemma read_frame_nonempty s : s <> [] -> read_frame s = read_frame_body s.
Proof. by destruct s. Qed.

Lemma consumes_frame kind len h bs f :
  0 <= len -> write_header kind len = Ok h ->
  consumes (match kind with
            | KControl => read_control_body len
            | KData => read_data_body len
            end) bs (Some f) ->
  consumes read_frame_body (h ++ bs) (Some f).
Proof.
  intros Hlen Hh Hb. unfold read_frame_body.
  eapply consumes_bind; [by apply consumes_header|]. by destruct kind.
Qed.

(** A frame whose fields have the ranges of their Rust types. *)
Definition wf_frame (f : Frame) : Prop :=
  match f with FControl _ => True | FData d => wf_data d end.

(** The writer for either kind of frame. *)
Definition write_frame (f : Frame) : result string bytes :=
  match f with FControl c => write_control c | FData d => write_data d end.

(** The contract of a frame that may be on the wire. *)
Definition frame_validate (f : Frame) : result string unit :=
  match f with FControl c => control_validate c | FData d => data_validate d end.

Lemma data_validate_ok d u :
  data_validate d = Ok u <->
  payload d <> [] /\ zlen (payload d) <= MAX_CHUNK_BYTES /\
  sha256 (payload d) = chunk_sha256 d /\ offset d + zlen (payload d) <= U64_MAX.
Proof.
  unfold data_validate, end_offset. split.
  - intros Hv. checks. apply checked_add_some in Hr2 as [_ ?]. done.
  - intros (Hne & Hle & Hs & Ho). destruct u.
    rewrite !ensure_pass.
    + by rewrite (proj2 (checked_add_some _ _ _ _) (conj eq_refl Ho)).
    + by apply bool_decide_eq_true.
    + by apply Z.leb_le.
    + by apply negb_true_iff, is_empty_false.
Qed.

Lemma consumes_data_body d :
  wf_data d -> data_validate d = Ok tt ->
  consumes (read_data_body (16 + 8 + 32 + zlen (payload d)))
    (transfer_id d ++ be64 (offset d) ++ chunk_sha256 d ++ payload d) (Some (FData d)).
Proof.
  intros (Hid & Hdig & Hoff) Hval.
  pose proof (proj1 (data_validate_ok d tt) Hval) as (_ & Hmax & _).
  pose proof (zlen_nonneg (payload d)). unfold read_data_body.
  replace (16 + 8 + 32 + zlen (payload d) - 56) with (zlen (payload d)) by lia.
  apply consumes_check; [apply ensure_ok, Z.leb_le; lia|].
  apply consumes_check; [by apply ensure_ok, Z.leb_le|].
  eapply consumes_bind.
  { apply (consumes_take read_exact); [by apply zlen_length in Hid | done]. }
  eapply consumes_bind.
  { by apply (consumes_read_be read_exact), is_u64_range. }
  eapply consumes_bind.
  { apply (consumes_take read_exact); [by apply zlen_length in Hdig | done]. }
  eapply consumes_last.
  { apply (consumes_take read_exact); [done|].
    unfold MAX_CHUNK_BYTES, USIZE_MAX, U64_MAX in *. lia. }
  destruct d as [id off dig pay]. apply consumes_check; [done|]. apply consumes_ret.
Qed.

Lemma consumes_control_body `{!JsonLaws Control} c body :
  to_vec c = Some body -> zlen body <= MAX_CONTROL_BYTES -> control_validate c = Ok tt ->
  consumes (read_control_body (zlen body)) body (Some (FControl c)).
Proof.
  intros Hv Hl Hc. unfold read_control_body.
  apply consumes_check; [by apply ensure_ok, Z.leb_le|].
  eapply consumes_last.
  { apply (consumes_take read_exact); [done|].
    unfold MAX_CONTROL_BYTES, USIZE_MAX, U64_MAX in *. lia. }
  eapply consumes_lift; [by rewrite (from_slice_to_vec _ _ Hv)|].
  apply consumes_check; [done|]. apply consumes_ret.
Qed.

(** Whatever a writer emits, the reader takes back, whole. *)
Lemma consumes_write_frame `{!JsonLaws Control} f bs :
  wf_frame f -> write_frame f = Ok bs -> consumes read_frame_body bs (Some f).
Proof.
  intros Hwf Hw. destruct f as [c|d]; simpl in *.
  - unfold write_control in Hw. inv_ok. apply Z.leb_le in Hr1.
    apply (consumes_frame KControl (zlen v0)); [apply zlen_nonneg | done |].
    by apply consumes_control_body.
  - unfold write_data in Hw. inv_ok.
    apply (consumes_frame KData (16 + 8 + 32 + zlen (payload d)));
      [pose proof (zlen_nonneg (payload d)); lia | done |].
    by apply consumes_data_body.
Qed.

Lemma write_frame_nonempty f bs : write_frame f = Ok bs -> bs <> [].
Proof.
  destruct f; simpl; unfold write_control, write_data; intros Hw; inv_ok;
    match goal with H : write_header _ _ = Ok _ |- _ =>
      apply write_header_ok in H as (_ & ->) end; done.
Qed.

Lemma read_frame_write `{!JsonLaws Control} f bs rest :
  wf_frame f -> write_frame f = Ok bs -> read_frame (bs ++ rest) = Ok (Some f, rest).
Proof.
  intros Hwf Hw. rewrite read_frame_nonempty.
  - destruct (consumes_write_frame f bs Hwf Hw (bs ++ rest) rest eq_refl)
      as (s' & -> & <-). done.
  - pose proof (write_frame_nonempty f bs Hw). by destruct bs.
Qed.

(** Reading [n] frames from a stream and what remains. *)
Fixpoint read_frames (n : nat) : reader bytes string (list (option Frame)) :=
  match n with
  | O => ret []
  | S m => do f <- read_frame ;; do fs <- read_frames m ;; ret (f :: fs)
  end.

End theory.

(** A stream of frames written one after the other is read back as exactly
    those frames, in order, and then as a clean end of stream: framing never
    merges, splits, drops or alters a control or data frame. *)
Theorem frame_stream_roundtrip `{Sha2} `{Json Control} `{!JsonLaws Control}
    (fs : list Frame) (bss : list bytes) :
  Forall wf_frame fs ->
  Forall2 (fun f bs => write_frame f = Ok bs) fs bss ->
  read_frames (length fs) (concat bss) = Ok (map Some fs, []) /\
  read_frame [] = Ok (None, []).
Proof.
  intros Hwf Hw. split; [|done].
  revert Hwf; induction Hw as [|f bs fs bss Hf Hfs IH]; intros Hwf; [done|].
  inversion Hwf; subst. cbn [length read_frames concat map].
  unfold bind. rewrite (read_frame_write f bs) by done. by rewrite IH.
Qed.

(** A frame cut off anywhere before its last byte is an error: the reader
    never takes a torn frame for a frame, nor for a clean end of stream. *)
Theorem torn_frame_rejected `{Sha2} `{Json Control} `{!JsonLaws Control}
    (f : Frame) (pre suf : bytes) :
  wf_frame f -> pre <> [] -> suf <> [] -> write_frame f = Ok (pre ++ suf) ->
  exists e, read_frame pre = Err e.
Proof.
  intros Hwf Hp Hs Hw. rewrite read_frame_nonempty by done.
  apply (monotone_torn _ pre suf (Some f)); [apply monotone_read_frame_body | done |].
  pose proof (read_frame_write f (pre ++ suf) [] Hwf Hw) as Hr.
  rewrite app_nil_r, read_frame_nonempty in Hr; [done|]. by destruct pre.
Qed.

Section sound.
Context `{Sha2} `{Json Control}.

#[local] Instance read_exact_ok' : ExactRead read_exact := slice_exact_read _.

Lemma read_exact_inv n s x s' :
  0 <= n -> read_exact n s = Ok (x, s') -> s = x ++ s' /\ zlen x = n.
Proof.
  intros Hn Hr.
  destruct (parses_take read_exact n Hn s s x s' eq_refl Hr) as (Hl & rest & -> & <-).
  done.
Qed.

Lemma read_be_inv n s v s' :
  read_be read_exact n s = Ok (v, s') ->
  s = be_bytes n v ++ s' /\ 0 <= v < 2 ^ (8 * Z.of_nat n).
Proof.
  intros Hr.
  destruct (parses_read_be read_exact n s s v s' eq_refl Hr) as (Hv & rest & -> & <-).
  done.
Qed.

Lemma read_header_inv s kind len s' :
  read_header s = Ok ((kind, len), s') ->
  0 <= len <= MAX_FRAME_BYTES /\ 0 <= kind < 256 /\
  s = MAGIC ++ be16 VERSION ++ be_bytes 1 kind ++ be_bytes 1 0 ++ be32 len ++ s'.
Proof.
  unfold read_header, read_u8, read_u16, read_u32. intros Hh. inv_read.
  injection Hv as <- <-. checks.
  apply read_exact_inv in Hp as [-> _]; [|lia].
  apply read_be_inv in Hp1 as [-> _].
  apply read_be_inv in Hp3 as [-> Hk].
  apply read_be_inv in Hp4 as [-> _].
  apply read_be_inv in Hp6 as [-> Hlen]. subst.
  repeat split; (done || lia).
Qed.

Lemma write_header_total kind len :
  len <= MAX_FRAME_BYTES ->
  write_header kind len =
  Ok (MAGIC ++ be16 VERSION ++ be_bytes 1 (frame_kind_u8 kind) ++ be_bytes 1 0 ++ be32 len).
Proof.
  intros Hl. unfold write_header. rewrite ensure_pass by by apply Z.leb_le.
  unfold try_from_max. rewrite (proj2 (Z.leb_le _ _)).
  - by destruct kind.
  - unfold MAX_FRAME_BYTES, MAX_CHUNK_BYTES, U32_MAX in *. lia.
Qed.

Lemma read_data_body_inv len s f s' :
  read_data_body len s = Ok (f, s') ->
  exists d, f = Some (FData d) /\ wf_data d /\ data_validate d = Ok tt /\
    len = 16 + 8 + 32 + zlen (payload d) /\
    s = transfer_id d ++ be64 (offset d) ++ chunk_sha256 d ++ payload d ++ s'.
Proof.
  unfold read_data_body, read_u64. intros Hb. inv_read. checks.
  apply read_exact_inv in Hp1 as [-> Hid]; [|lia].
  apply read_be_inv in Hp2 as [-> Hoff%is_u64_range].
  apply read_exact_inv in Hp3 as [-> Hdig]; [|lia].
  apply read_exact_inv in Hp4 as [-> Hpay]; [|lia].
  eexists. split; [done|]. unfold wf_data. cbn.
  rewrite !zlen_length. repeat split; (done || apply Hoff || lia).
Qed.

Lemma read_control_body_inv len s f s' :
  0 <= len -> read_control_body len s = Ok (f, s') ->
  exists c body, f = Some (FControl c) /\ control_validate c = Ok tt /\
    from_slice body = Some c /\ zlen body = len /\ len <= MAX_CONTROL_BYTES /\
    s = body ++ s'.
Proof.
  unfold read_control_body. intros Hlen Hb. inv_read. checks.
  apply read_exact_inv in Hp0 as [-> Hbody]; [|lia]. eauto 10.
Qed.
End sound.

(** Whatever frame the reader accepts is valid and within its limits, and
    the bytes it consumed are determined by it: a data frame is accepted only
    from exactly the bytes [write_data] emits for it; a control frame from a
    header and at most [MAX_CONTROL_BYTES] of JSON that parse to it. *)
Theorem accepted_frame_is_valid `{Sha2} `{Json Control} (s rest : bytes) (f : Frame) :
  read_frame s = Ok (Some f, rest) ->
  frame_validate f = Ok tt /\ wf_frame f /\
  match f with
  | FData d => exists bs, write_data d = Ok bs /\ s = bs ++ rest
  | FControl c => exists h body, write_header KControl (zlen body) = Ok h /\
      zlen body <= MAX_CONTROL_BYTES /\ from_slice body = Some c /\
      s = h ++ body ++ rest
  end.
Proof.
  destruct s as [|b s]; [done|]. cbn [read_frame]. unfold read_frame_body. intros Hr.
  apply bind_ok in Hr as ([kind len] & st & Hh & Hr).
  apply read_header_inv in Hh as (Hlen & Hkind & ->).
  destruct (Z.eqb_spec kind (frame_kind_u8 KControl)) as [->|].
  - apply read_control_body_inv in Hr as (c & body & [= ->] & Hc & Hj & <- & Hmax & ->);
      [|lia].
    cbn [frame_validate wf_frame]. repeat split; [done|].
    eexists _, body. rewrite write_header_total by lia.
    split; [done|]. repeat split; done.
  - destruct (Z.eqb_spec kind (frame_kind_u8 KData)) as [->|].
    2: { unfold lift in Hr. done. }
    apply read_data_body_inv in Hr as (d & [= ->] & Hwf & Hd & -> & ->).
    cbn [frame_validate wf_frame]. repeat split; [done|apply Hwf..|].
    eexists. unfold write_data. rewrite Hd. cbn [rbind].
    rewrite write_header_total by lia. cbn [rbind]. split; [done|].
    by rewrite <-!app_assoc.
Qed.

(** ** The sequence validator *)

Section sequence.
Context `{Sha2}.

(** Feeding frames until one is rejected: the final state and the result. *)
Fixpoint run_validator (v : DataSequenceValidator) (ds : list DataFrame)
  : DataSequenceValidator * result string unit :=
  match ds with
  | [] => (v, Ok tt)
  | d :: ds' =>
      match validate_next v d with
      | (v', Ok _) => run_validator v' ds'
      | (v', Err e) => (v', Err e)
      end
  end.

(** A transfer's frames lie end to end from [off]. *)
Fixpoint contiguous (id : bytes) (off : Z) (ds : list DataFrame) : Prop :=
  match ds with
  | [] => True
  | d :: ds' =>
      data_validate d = Ok tt /\ transfer_id d = id /\ offset d = off /\
      contiguous id (off + zlen (payload d)) ds'
  end.

Lemma validate_next_ok v d v' u :
  validate_next v d = (v', Ok u) <->
  data_validate d = Ok tt /\ transfer_id d = seq_transfer_id v /\
  offset d = next_offset v /\
  v' = {| seq_transfer_id := seq_transfer_id v;
          next_offset := next_offset v + zlen (payload d) |}.
Proof.
  unfold validate_next. split.
  - destruct (rbind _ _) as [next|e] eqn:E; [|done]. intros [= <- _]. checks.
    unfold end_offset in E. checks. apply checked_add_some in E as [-> _].
    repeat split; try done. congruence.
  - intros (Hd & Hid & Ho & ->). destruct u. rewrite Hd. cbn [rbind].
    rewrite ensure_pass by by apply bool_decide_eq_true.
    rewrite ensure_pass by by apply Z.eqb_eq.
    apply data_validate_ok in Hd as (_ & _ & _ & Hmax).
    unfold end_offset.
    rewrite (proj2 (checked_add_some _ _ _ _) (conj eq_refl Hmax)). cbn [ok_or].
    by rewrite Ho.
Qed.

Lemma validate_next_err v d v' e : validate_next v d = (v', Err e) -> v' = v.
Proof. unfold validate_next. destruct (rbind _ _); naive_solver. Qed.
End sequence.

(** The sequence validator accepts a list of frames exactly when they are
    valid, belong to its transfer, and lie end to end from the expected
    offset; it then expects the offset just past the last accepted byte, which
    is still a [u64].  A rejected frame never moves the expected offset. *)
Theorem sequence_validator_contiguous `{Sha2} (v : DataSequenceValidator)
    (ds : list DataFrame) :
  (is_ok (snd (run_validator v ds)) = true <->
   contiguous (seq_transfer_id v) (next_offset v) ds) /\
  (contiguous (seq_transfer_id v) (next_offset v) ds ->
   fst (run_validator v ds) =
     {| seq_transfer_id := seq_transfer_id v;
        next_offset := next_offset v + zlen (concat (map payload ds)) |} /\
   (ds <> [] -> next_offset v + zlen (concat (map payload ds)) <= U64_MAX)) /\
  (forall d v' e, validate_next v d = (v', Err e) -> v' = v).
Proof.
  split; [|split; [|by intros; eapply validate_next_err]].
  - revert v; induction ds as [|d ds IH]; intros v; cbn [run_validator contiguous]; [done|].
    destruct (validate_next v d) as [v' [u|e]] eqn:E.
    + apply validate_next_ok in E as (Hd & Hid & Ho & ->). rewrite IH. cbn. naive_solver.
    + split; [done|]. intros (Hd & Hid & Ho & _). exfalso.
      pose proof (proj2 (validate_next_ok v d _ tt) (conj Hd (conj Hid (conj Ho eq_refl)))).
      congruence.
  - revert v; induction ds as [|d ds IH]; intros v Hc; cbn [run_validator contiguous map concat].
    { split; [|done]. destruct v as [i n]. cbn. f_equal. unfold zlen; cbn; lia. }
    destruct Hc as (Hd & Hid & Ho & Hc).
    pose proof (proj2 (validate_next_ok v d _ tt) (conj Hd (conj Hid (conj Ho eq_refl)))) as ->.
    destruct (IH (seq_new (seq_transfer_id v) (next_offset v + zlen (payload d))) Hc)
      as [E Hmax].
    change {| seq_transfer_id := _; next_offset := next_offset v + zlen (payload d) |}
      with (seq_new (seq_transfer_id v) (next_offset v + zlen (payload d))).
    rewrite E. cbn in *. rewrite zlen_app. split; [f_equal; lia|].
    intros _. destruct ds as [|d' ds'].
    + apply data_validate_ok in Hd as (_ & _ & _ & ?). cbn. rewrite zlen_nil. lia.
    + specialize (Hmax ltac:(done)). lia.
Qed.

(** ** Handshake and redaction *)

(** During the handshake each side may send only its own hello: the helper
    a valid [HelperHello], the client a valid [Hello]; everything else is an
    error, and what is written for a peer passes the check for that peer. *)
Theorem handshake_sender_exact (c : Control) (sender : HandshakePeer) :
  validate_handshake_sender c sender = Ok tt <->
  control_validate c = Ok tt /\
  match sender with
  | Helper => exists v mc mw r sh fs nr i, c = HelperHello v mc mw r sh fs nr i
  | Client => exists v mc mw r sh fs nr, c = Hello v mc mw r sh fs nr
  end.
Proof.
  split.
  - destruct sender, c; cbn [validate_handshake_sender]; try done;
      intros Hv; (split; [exact Hv|]); by repeat eexists.
  - intros [Hv Hc]. destruct sender.
    + destruct Hc as (?&?&?&?&?&?&?&->). exact Hv.
    + destruct Hc as (?&?&?&?&?&?&?&?&->). exact Hv.
Qed.

(** A control message without its resume token. *)
Definition forget_token (c : Control) : Control :=
  match c with
  | BeginPush id target size sha _ r => BeginPush id target size sha [] r
  | _ => c
  end.

(** The [Debug] rendering of a control message determines everything but
    the resume token and nothing of the token: two messages print the same
    exactly when they agree up to it. *)
Theorem debug_redacts_resume_token (c1 c2 : Control) :
  control_debug c1 = control_debug c2 <-> forget_token c1 = forget_token c2.
Proof.
  split.
  - destruct c1, c2; cbn; try done; congruence.
  - destruct c1, c2; cbn; try done; congruence.
Qed.

(** ** The helper's version line *)

(** [serctl-xfer <release> (git <commit>[-dirty]; transfer protocol v1)]. *)
Definition version_line (release commit : str) (dirty : bool) : str :=
  version_prefix ++ (release ++ rs " (git " ++ commit ++
    (if dirty then rs "-dirty" else [])) ++ version_suffix.

Definition release_ok (release : str) : Prop :=
  release <> [] /\ zlen release <= 64 /\ Forall (fun b => is_release_byte b = true) release.
Definition commit_ok (commit : str) : Prop :=
  zlen commit = 12 /\ Forall (fun b => is_lower_hex_byte b = true) commit.

Lemma release_byte_plain b :
  is_release_byte b = true -> b8 b < 128 /\ is_ascii_control b = false /\ b <> " "%byte.
Proof. destruct b; cbn; intros Hb; try discriminate Hb; split_and!; (done || lia). Qed.

Lemma hex_byte_plain b :
  is_lower_hex_byte b = true -> b8 b < 128 /\ is_ascii_control b = false /\ b <> "-"%byte.
Proof. destruct b; cbn; intros Hb; try discriminate Hb; split_and!; (done || lia). Qed.

Lemma version_line_plain release commit dirty :
  release_ok release -> commit_ok commit ->
  Forall (fun b => b8 b < 128 /\ is_ascii_control b = false)
    (version_line release commit dirty).
Proof.
  intros (_ & _ & Hr) (_ & Hc). unfold version_line. rewrite !Forall_app. split_and!.
  - by repeat constructor.
  - eapply Forall_impl; [exact Hr|]. intros b Hb%release_byte_plain. naive_solver.
  - by repeat constructor.
  - eapply Forall_impl; [exact Hc|]. intros b Hb%hex_byte_plain. naive_solver.
  - destruct dirty; by repeat constructor.
  - by repeat constructor.
Qed.

Lemma commit_not_dirty commit : commit_ok commit -> strip_suffix (rs "-dirty") commit = None.
Proof.
  intros (_ & Hc). destruct (strip_suffix _ commit) as [r|] eqn:E; [|done].
  apply strip_suffix_some in E as ->. apply Forall_app in Hc as [_ Hc].
  inversion Hc as [|? ? Hd]; subst. done.
Qed.

Lemma release_no_space release : release_ok release -> " "%byte ∉ release.
Proof.
  intros (_ & _ & Hr) Hin. rewrite Forall_forall in Hr.
  by apply Hr, release_byte_plain in Hin as (_ & _ & ?).
Qed.

Lemma version_line_checks release commit dirty :
  release_ok release -> commit_ok commit ->
  negb (is_empty (version_line release commit dirty))
  && (zlen (version_line release commit dirty) <=? MAX_HELPER_VERSION_BYTES)
  && is_ascii (version_line release commit dirty)
  && negb (existsb is_ascii_control (version_line release commit dirty)) = true.
Proof.
  intros Hrel Hcom. pose proof (version_line_plain release commit dirty Hrel Hcom) as Hp.
  pose proof Hrel as (_ & Hl & _). pose proof Hcom as (Hc & _).
  rewrite !andb_true_iff, !negb_true_iff, Z.leb_le. split_and!.
  - done.
  - unfold version_line, MAX_HELPER_VERSION_BYTES. rewrite !zlen_app.
    change (zlen version_prefix) with 12. change (zlen (rs " (git ")) with 6.
    change (zlen version_suffix) with 23.
    destruct dirty; [change (zlen (rs "-dirty")) with 6 | rewrite zlen_nil]; lia.
  - apply forallb_Forall'. eapply Forall_impl; [exact Hp|]. intros b [Hb _].
    by apply Z.ltb_lt.
  - apply existsb_false. eapply Forall_impl; [exact Hp|]. naive_solver.
Qed.

(** The helper identity check accepts exactly the identities named
    [serctl-xfer], with a binary size in range, a lower-case SHA-256, and a
    version line of the release grammar: a bounded release version and a
    12-digit commit, optionally marked dirty.  The separate length and ASCII
    checks reject nothing the grammar accepts. *)
Theorem helper_identity_grammar (i : HelperRuntimeIdentity) :
  identity_validate i = Ok tt <->
  name i = HELPER_BINARY_NAME /\ 1 <= binary_size i <= MAX_HELPER_BINARY_BYTES /\
  is_lower_hex (identity_sha256 i) 32 = true /\
  exists release commit dirty, release_ok release /\ commit_ok commit /\
    version i = version_line release commit dirty.
Proof.
  unfold identity_validate, validate_sha256. split.
  - intros Hv. checks. destruct v4 as [release commit].
    apply bind_Some in Hr3 as (value & Hp%strip_prefix_some & Hs%strip_suffix_some).
    apply split_once_some in Hr4. cbv beta iota in Hv. checks.
    subst value v3. do 3 (split; [done|]). unfold release_ok, commit_ok.
    setoid_rewrite <-forallb_Forall'.
    destruct (strip_suffix (rs "-dirty") commit) as [hex|] eqn:Hd; cbn [default from_option] in *.
    + apply strip_suffix_some in Hd as ->.
      exists release, hex, true. by split_and!.
    + exists release, commit, false. split_and!; try done.
      rewrite Hp. unfold version_line. by rewrite app_nil_r.
  - intros (Hn & Hsz & Hsha & release & commit & dirty & Hrel & Hcom & Hver).
    rewrite Hver. pose proof (version_line_plain release commit dirty Hrel Hcom) as Hplain.
    pose proof Hrel as (Hne & Hl & Hrb). pose proof Hcom as (Hc12 & Hcb).
    rewrite ensure_pass by by apply bool_decide_eq_true.
    rewrite ensure_pass by by apply in_range_true.
    rewrite Hsha. cbn [ensure rbind].
    rewrite ensure_pass by by apply version_line_checks.
    unfold version_line at 1.
    rewrite (proj2 (strip_prefix_some _ _ _) eq_refl). cbn [mbind option_bind].
    rewrite (proj2 (strip_suffix_some _ _ _) eq_refl). cbn [ok_or rbind].
    change (rs " (git ") with (" "%byte :: rs "(git ").
    rewrite split_once_first by by apply release_no_space. cbn [ok_or rbind].
    rewrite ensure_pass; cycle 1.
    { rewrite !andb_true_iff, negb_true_iff, is_empty_false, Z.leb_le, forallb_Forall'. done. }
    replace (default _ _) with commit; cycle 1.
    { destruct dirty; [|by rewrite app_nil_r, commit_not_dirty].
      by rewrite (proj2 (strip_suffix_some _ _ _) eq_refl). }
    rewrite ensure_pass; [done|].
    by rewrite andb_true_iff, Z.eqb_eq, forallb_Forall'.
Qed.

(** ** Concrete runs *)
Module TransferRuns.
Import StandIn.

Definition chunk : DataFrame :=
  {| transfer_id := replicate 16 x01; offset := 5;
     chunk_sha256 := sha256 (rs "hello"); payload := rs "hello" |}.

Definition control_table : list (Control * bytes) :=
  [(Cancel, rs "{cancel}"); (Ack 5 5 1024, rs "{ack}")].
#[export] Instance control_json : Json Control := table_json control_table.
#[export] Instance control_json_laws : JsonLaws Control.
Proof. apply table_json_laws. vm_compute. repeat constructor; set_solver. Qed.

Definition frames : list Frame := [FControl (Ack 5 5 1024); FData chunk; FControl Cancel].
Definition written (f : Frame) : bytes :=
  match write_frame f with Ok bs => bs | Err _ => [] end.

Lemma frame_stream_roundtrip_witness :
  read_frames 3 (concat (map written frames)) = Ok (map Some frames, []).
Proof.
  apply (frame_stream_roundtrip frames (map written frames)).
  - repeat constructor; vm_compute; congruence.
  - repeat constructor; vm_compute; reflexivity.
Defined.

Lemma torn_frame_rejected_witness :
  exists e, read_frame (take 60 (written (FData chunk))) = Err e.
Proof.
  apply (torn_frame_rejected (FData chunk) _ (drop 60 (written (FData chunk)))).
  - repeat constructor; vm_compute; congruence.
  - vm_compute. congruence.
  - vm_compute. congruence.
  - vm_compute. reflexivity.
Defined.

Lemma accepted_frame_is_valid_witness :
  exists bs, write_data chunk = Ok bs /\ written (FData chunk) ++ rs "tail" = bs ++ rs "tail".
Proof.
  destruct (accepted_frame_is_valid (written (FData chunk) ++ rs "tail") (rs "tail")
              (FData chunk)) as (_ & _ & H); [vm_compute; reflexivity | exact H].
Defined.

Lemma sequence_validator_contiguous_witness :
  fst (run_validator (seq_new (replicate 16 x01) 5) [chunk]) =
  seq_new (replicate 16 x01) 10.
Proof.
  destruct (sequence_validator_contiguous (seq_new (replicate 16 x01) 5) [chunk])
    as (_ & H & _).
  apply H. vm_compute. repeat split.
Defined.

Example identity_example :
  identity_validate
    {| name := rs "serctl-xfer"; binary_size := 1024;
       identity_sha256 := replicate 64 "a"%byte;
       version := version_line (rs "1.0.0-beta.3") (rs "0123456789ab") true |} = Ok tt.
Proof. vm_compute. reflexivity. Qed.

End TransferRuns.
