(* ===== verification/RemoteProtocol.v ===== *)
(** * serctl-remote-protocol: the framed remote-helper protocol

    crates/serctl_remote_protocol/src/lib.rs: the ten frame kinds, their
    binary encoding and strict decoding, framing over a byte stream, and the
    domain-separated digest of a Start frame.  The two directional session
    validators are in RemoteSession. *)

From S2P Require Import Prelude.
From S2P Require Import Bytes.
From S2P Require Import Text.
From S2P Require Import Codec.
From S2P Require Import Crates.
#[local] Open Scope string_scope.
#[local] Open Scope list_scope.
#[local] Open Scope Z_scope.

(** ** Limits *)

Definition MAGIC : bytes := rs "SRRP".
Definition PROTOCOL_VERSION : Z := 1.
Definition HEADER_BYTES : Z := 20.
Definition MAX_FRAME_PAYLOAD : Z := 128 * 1024.
Definition MAX_OUTPUT_CHUNK : Z := 32 * 1024.
Definition MAX_POLICY_BYTES : Z := 64 * 1024.
Definition MAX_PROGRAM_BYTES : Z := 128.
Definition MAX_ARG_COUNT : Z := 64.
Definition MAX_ARG_BYTES : Z := 4 * 1024.
Definition MAX_ARG_TOTAL_BYTES : Z := 16 * 1024.
Definition MAX_ENV_COUNT : Z := 16.
Definition MAX_ENV_NAME_BYTES : Z := 64.
Definition MAX_ENV_VALUE_BYTES : Z := 1024.
Definition MAX_ENV_TOTAL_BYTES : Z := 8 * 1024.
Definition MAX_PATH_BYTES : Z := 4 * 1024.
Definition MAX_RECEIPT_BYTES : Z := 4 * 1024.
Definition MAX_ERROR_CODE_BYTES : Z := 64.
Definition MAX_ERROR_MESSAGE_BYTES : Z := 2 * 1024.
Definition MAX_CANCEL_REASON_BYTES : Z := 256.
Definition MAX_OUTPUT_BYTES : Z := 64 * 1024 * 1024.
Definition FEATURE_CANCEL : Z := Z.shiftl 1 0.
Definition FEATURE_RECEIPT_QUERY : Z := Z.shiftl 1 1.
Definition SUPPORTED_FEATURE_BITS : Z := Z.lor FEATURE_CANCEL FEATURE_RECEIPT_QUERY.

(** ** Frames

    [JobId], [ProfileId] are 16 bytes, [Digest32], [Secret32] 32 bytes. *)

Inductive FrameKind :=
| KHello | KStart | KStdout | KStderr | KHeartbeat | KCancel | KExit | KReceipt
| KError | KQueryReceipt.

#[export] Instance FrameKind_eq_dec : EqDecision FrameKind.
Proof. solve_decision. Defined.

Inductive ProtocolError :=
| Io
| BadMagic
| UnsupportedVersion (v : Z)
| UnknownFrameKind (v : Z)
| ReservedFlags (v : Z)
| FrameTooLarge (size : Z)
| KindPayloadTooLarge (kind : FrameKind) (size : Z)
| Truncated
| TrailingBytes
| InvalidUtf8
| InvalidValue (field : string)
| Sequence (expected actual : Z)
| InvalidState (message : string).

#[export] Instance ProtocolError_eq_dec : EqDecision ProtocolError.
Proof. solve_decision. Defined.

(** [kind as u8]. *)
Definition kind_u8 (k : FrameKind) : Z :=
  match k with
  | KHello => 1 | KStart => 2 | KStdout => 3 | KStderr => 4 | KHeartbeat => 5
  | KCancel => 6 | KExit => 7 | KReceipt => 8 | KError => 9 | KQueryReceipt => 10
  end.

(** [impl TryFrom<u8> for FrameKind]. *)
Definition kind_try_from (value : Z) : result ProtocolError FrameKind :=
  match value with
  | 1 => Ok KHello
  | 2 => Ok KStart
  | 3 => Ok KStdout
  | 4 => Ok KStderr
  | 5 => Ok KHeartbeat
  | 6 => Ok KCancel
  | 7 => Ok KExit
  | 8 => Ok KReceipt
  | 9 => Ok KError
  | 10 => Ok KQueryReceipt
  | _ => Err (UnknownFrameKind value)
  end.

Record HelloFrame := {
  max_frame_payload : Z;
  feature_bits : Z;
  effective_uid : Z;
}.

Record EnvEntry := { env_name : str; env_value : str }.

Record StartFrame := {
  start_job_id : bytes;
  start_profile_id : bytes;
  start_profile_generation : Z;
  start_policy_digest : bytes;
  start_input_digest : bytes;
  remote_deadline_unix_ms : Z;
  relay_deadline_unix_ms : Z;
  result_retention_unix_ms : Z;
  run_as_uid : Z;
  max_output_bytes : Z;
  program : str;
  argv : list str;
  env : list EnvEntry;
  cwd : option str;
  policy_json : bytes;
  start_receipt_token : bytes;
}.

Record OutputFrame := { output_job_id : bytes; output_offset : Z; output_data : bytes }.

Record HeartbeatFrame := {
  heartbeat_job_id : bytes;
  ordinal : Z;
  elapsed_ms : Z;
  stdout_bytes : Z;
  stderr_bytes : Z;
}.

Record CancelFrame := { cancel_job_id : bytes; reason : str }.

Inductive ExitOutcome :=
| Exited (code : Z)
| Cancelled
| DeadlineExceeded.

Record ExitFrame := {
  exit_job_id : bytes;
  outcome : ExitOutcome;
  completed_unix_ms : Z;
}.

Record ReceiptFrame := { receipt_job_id : bytes; receipt_bytes : bytes }.

Record ErrorFrame := {
  error_job_id : option bytes;
  error_code : str;
  error_message : str;
  retryable : bool;
}.

Record QueryReceiptFrame := {
  query_job_id : bytes;
  query_profile_id : bytes;
  query_profile_generation : Z;
  query_policy_digest : bytes;
  query_input_digest : bytes;
  query_receipt_token : bytes;
}.

Inductive Frame :=
| Hello (f : HelloFrame)
| Start (f : StartFrame)
| Stdout (f : OutputFrame)
| Stderr (f : OutputFrame)
| Heartbeat (f : HeartbeatFrame)
| Cancel (f : CancelFrame)
| Exit (f : ExitFrame)
| Receipt (f : ReceiptFrame)
| Error (f : ErrorFrame)
| QueryReceipt (f : QueryReceiptFrame).

#[export] Instance HelloFrame_eq_dec : EqDecision HelloFrame.
Proof. solve_decision. Defined.
#[export] Instance EnvEntry_eq_dec : EqDecision EnvEntry.
Proof. solve_decision. Defined.
#[export] Instance StartFrame_eq_dec : EqDecision StartFrame.
Proof. solve_decision. Defined.
#[export] Instance OutputFrame_eq_dec : EqDecision OutputFrame.
Proof. solve_decision. Defined.
#[export] Instance HeartbeatFrame_eq_dec : EqDecision HeartbeatFrame.
Proof. solve_decision. Defined.
#[export] Instance CancelFrame_eq_dec : EqDecision CancelFrame.
Proof. solve_decision. Defined.
#[export] Instance ExitOutcome_eq_dec : EqDecision ExitOutcome.
Proof. solve_decision. Defined.
#[export] Instance ExitFrame_eq_dec : EqDecision ExitFrame.
Proof. solve_decision. Defined.
#[export] Instance ReceiptFrame_eq_dec : EqDecision ReceiptFrame.
Proof. solve_decision. Defined.
#[export] Instance ErrorFrame_eq_dec : EqDecision ErrorFrame.
Proof. solve_decision. Defined.
#[export] Instance QueryReceiptFrame_eq_dec : EqDecision QueryReceiptFrame.
Proof. solve_decision. Defined.
#[export] Instance Frame_eq_dec : EqDecision Frame.
Proof. solve_decision. Defined.

(** [Frame::kind]. *)
Definition kind (f : Frame) : FrameKind :=
  match f with
  | Hello _ => KHello
  | Start _ => KStart
  | Stdout _ => KStdout
  | Stderr _ => KStderr
  | Heartbeat _ => KHeartbeat
  | Cancel _ => KCancel
  | Exit _ => KExit
  | Receipt _ => KReceipt
  | Error _ => KError
  | QueryReceipt _ => KQueryReceipt
  end.

Record Envelope := { sequence : Z; frame : Frame }.

#[export] Instance Envelope_eq_dec : EqDecision Envelope.
Proof. solve_decision. Defined.

(** ** Checks *)

Definition validate_range (field : string) (length minimum maximum : Z)
  : result ProtocolError unit :=
  if negb (in_range minimum maximum length) then Err (InvalidValue field) else Ok tt.

Definition validate_text (field : string) (value : str) (minimum maximum : Z)
  : result ProtocolError unit :=
  try! validate_range field (zlen value) minimum maximum ;;
  if contains_byte x00 value || has_control value then Err (InvalidValue field)
  else Ok tt.

Definition validate_nonzero (field : string) (b : bytes) : result ProtocolError unit :=
  if forallb (fun x => b8 x =? 0) b then Err (InvalidValue field) else Ok tt.

Definition validate_payload_size (k : FrameKind) (size : Z) : result ProtocolError unit :=
  if MAX_FRAME_PAYLOAD <? size then Err (FrameTooLarge size)
  else
    let kind_limit :=
      match k with
      | KHello => 16
      | KStart => MAX_FRAME_PAYLOAD
      | KStdout | KStderr => 24 + MAX_OUTPUT_CHUNK
      | KHeartbeat => 48
      | KCancel => 18 + MAX_CANCEL_REASON_BYTES
      | KExit => 29
      | KReceipt => 20 + MAX_RECEIPT_BYTES
      | KError => 24 + MAX_ERROR_CODE_BYTES + MAX_ERROR_MESSAGE_BYTES
      | KQueryReceipt => 136
      end in
    if kind_limit <? size then Err (KindPayloadTooLarge k size) else Ok tt.

Definition validate_start (value : StartFrame) : result ProtocolError unit :=
  try! validate_nonzero "job_id" (start_job_id value) ;;
  try! validate_nonzero "profile_id" (start_profile_id value) ;;
  try! validate_nonzero "policy_digest" (start_policy_digest value) ;;
  try! validate_nonzero "input_digest" (start_input_digest value) ;;
  try! validate_nonzero "receipt_token" (start_receipt_token value) ;;
  if start_profile_generation value =? 0 then Err (InvalidValue "profile_generation")
  else if run_as_uid value =? 0 then Err (InvalidValue "run_as_uid")
  else if (remote_deadline_unix_ms value =? 0)
       || (relay_deadline_unix_ms value <? remote_deadline_unix_ms value)
       || (result_retention_unix_ms value <? relay_deadline_unix_ms value)
  then Err (InvalidValue "deadlines")
  else if (max_output_bytes value =? 0) || (MAX_OUTPUT_BYTES <? max_output_bytes value)
  then Err (InvalidValue "max_output_bytes")
  else
    try! validate_text "program" (program value) 1 MAX_PROGRAM_BYTES ;;
    if MAX_ARG_COUNT <? zlen (argv value) then Err (InvalidValue "argv count")
    else
      let* argv_bytes := for_each (fun acc argument =>
          try! validate_text "argument" argument 0 MAX_ARG_BYTES ;;
          Ok (saturating_add USIZE_MAX acc (zlen argument))) 0 (argv value) in
      if MAX_ARG_TOTAL_BYTES <? argv_bytes then Err (InvalidValue "argv bytes")
      else if MAX_ENV_COUNT <? zlen (env value) then Err (InvalidValue "environment count")
      else
        let* env_bytes := for_each (fun acc variable =>
            try! validate_text "environment name" (env_name variable) 1 MAX_ENV_NAME_BYTES ;;
            try! validate_text "environment value" (env_value variable) 0 MAX_ENV_VALUE_BYTES ;;
            if contains_byte "="%byte (env_name variable)
            then Err (InvalidValue "environment name")
            else Ok (saturating_add USIZE_MAX
                       (saturating_add USIZE_MAX acc (zlen (env_name variable)))
                       (zlen (env_value variable)))) 0 (env value) in
        if MAX_ENV_TOTAL_BYTES <? env_bytes then Err (InvalidValue "environment bytes")
        else
          try! match cwd value with
               | Some cwd => validate_text "cwd" cwd 1 MAX_PATH_BYTES
               | None => Ok tt
               end ;;
          try! validate_range "policy_json" (zlen (policy_json value)) 1 MAX_POLICY_BYTES ;;
          Ok tt.

Definition validate_query_receipt (value : QueryReceiptFrame) : result ProtocolError unit :=
  try! validate_nonzero "job_id" (query_job_id value) ;;
  try! validate_nonzero "profile_id" (query_profile_id value) ;;
  try! validate_nonzero "policy_digest" (query_policy_digest value) ;;
  try! validate_nonzero "input_digest" (query_input_digest value) ;;
  try! validate_nonzero "receipt_token" (query_receipt_token value) ;;
  if query_profile_generation value =? 0 then Err (InvalidValue "profile_generation")
  else Ok tt.

(** ** Encoding: every writer appends to [out] *)

Definition put_job_id (out job_id : bytes) : bytes := out ++ job_id.
Definition put_u16 (out : bytes) (value : Z) : bytes := out ++ be16 value.
Definition put_u32 (out : bytes) (value : Z) : bytes := out ++ be32 value.
Definition put_u64 (out : bytes) (value : Z) : bytes := out ++ be64 value.

Definition put_bytes_u32 (out b : bytes) : result ProtocolError bytes :=
  let* length := ok_or (try_from_max U32_MAX (zlen b)) (FrameTooLarge (zlen b)) in
  Ok (put_u32 out length ++ b).

Definition put_string_u16 (out : bytes) (field : string) (value : str)
    (minimum maximum : Z) : result ProtocolError bytes :=
  try! validate_text field value minimum maximum ;;
  let* length := ok_or (try_from_max U16_MAX (zlen value)) (InvalidValue field) in
  Ok (put_u16 out length ++ value).

Definition encode_start (value : StartFrame) (out : bytes) : result ProtocolError bytes :=
  try! validate_start value ;;
  let out := put_job_id out (start_job_id value) in
  let out := out ++ start_profile_id value in
  let out := put_u64 out (start_profile_generation value) in
  let out := out ++ start_policy_digest value in
  let out := out ++ start_input_digest value in
  let out := put_u64 out (remote_deadline_unix_ms value) in
  let out := put_u64 out (relay_deadline_unix_ms value) in
  let out := put_u64 out (result_retention_unix_ms value) in
  let out := put_u32 out (run_as_uid value) in
  let out := put_u64 out (max_output_bytes value) in
  let* out := put_string_u16 out "program" (program value) 1 MAX_PROGRAM_BYTES in
  let out := put_u16 out (zlen (argv value)) in
  let* out := for_each (fun out argument =>
      put_string_u16 out "argument" argument 0 MAX_ARG_BYTES) out (argv value) in
  let out := put_u16 out (zlen (env value)) in
  let* out := for_each (fun out variable =>
      let* out := put_string_u16 out "environment name" (env_name variable)
                    1 MAX_ENV_NAME_BYTES in
      put_string_u16 out "environment value" (env_value variable)
        0 MAX_ENV_VALUE_BYTES) out (env value) in
  let* out :=
    match cwd value with
    | Some cwd => put_string_u16 (out ++ [x01]) "cwd" cwd 1 MAX_PATH_BYTES
    | None => Ok (out ++ [x00])
    end in
  let* out := put_bytes_u32 out (policy_json value) in
  Ok (out ++ start_receipt_token value).

Definition encode_payload (f : Frame) (out : bytes) : result ProtocolError bytes :=
  match f with
  | Hello value =>
      if (max_frame_payload value =? 0) || (MAX_FRAME_PAYLOAD <? max_frame_payload value)
      then Err (InvalidValue "hello max_frame_payload")
      else if negb (Z.land (feature_bits value) (U64_MAX - SUPPORTED_FEATURE_BITS) =? 0)
      then Err (InvalidValue "hello feature_bits")
      else
        let out := put_u32 out (max_frame_payload value) in
        let out := put_u64 out (feature_bits value) in
        Ok (put_u32 out (effective_uid value))
  | Start value => encode_start value out
  | Stdout value | Stderr value =>
      try! validate_range "output data" (zlen (output_data value)) 0 MAX_OUTPUT_CHUNK ;;
      let out := put_job_id out (output_job_id value) in
      let out := put_u64 out (output_offset value) in
      Ok (out ++ output_data value)
  | Heartbeat value =>
      let out := put_job_id out (heartbeat_job_id value) in
      let out := put_u64 out (ordinal value) in
      let out := put_u64 out (elapsed_ms value) in
      let out := put_u64 out (stdout_bytes value) in
      Ok (put_u64 out (stderr_bytes value))
  | Cancel value =>
      let out := put_job_id out (cancel_job_id value) in
      put_string_u16 out "cancel reason" (reason value) 1 MAX_CANCEL_REASON_BYTES
  | Exit value =>
      let out := put_job_id out (exit_job_id value) in
      let out :=
        match outcome value with
        | Exited code => out ++ [x00] ++ be_i32 code
        | Cancelled => out ++ [x01] ++ be_i32 0
        | DeadlineExceeded => out ++ [x02] ++ be_i32 0
        end in
      Ok (put_u64 out (completed_unix_ms value))
  | Receipt value =>
      try! validate_range "receipt" (zlen (receipt_bytes value)) 1 MAX_RECEIPT_BYTES ;;
      put_bytes_u32 (put_job_id out (receipt_job_id value)) (receipt_bytes value)
  | Error value =>
      let out :=
        match error_job_id value with
        | Some job_id => put_job_id (out ++ [x01]) job_id
        | None => out ++ [x00]
        end in
      let* out := put_string_u16 out "error code" (error_code value) 1 MAX_ERROR_CODE_BYTES in
      let* out := put_string_u16 out "error message" (error_message value)
                    1 MAX_ERROR_MESSAGE_BYTES in
      Ok (out ++ [if retryable value then x01 else x00])
  | QueryReceipt value =>
      try! validate_query_receipt value ;;
      let out := put_job_id out (query_job_id value) in
      let out := out ++ query_profile_id value in
      let out := put_u64 out (query_profile_generation value) in
      let out := out ++ query_policy_digest value in
      let out := out ++ query_input_digest value in
      Ok (out ++ query_receipt_token value)
  end.

Definition encode (e : Envelope) : result ProtocolError bytes :=
  let* payload := encode_payload (frame e) [] in
  try! validate_payload_size (kind (frame e)) (zlen payload) ;;
  let* payload_len := ok_or (try_from_max U32_MAX (zlen payload))
    (FrameTooLarge (zlen payload)) in
  Ok (MAGIC ++ be16 PROTOCOL_VERSION ++ [byte_of_Z (kind_u8 (kind (frame e)))] ++ [x00]
      ++ be64 (sequence e) ++ be32 payload_len ++ payload).

(** ** Decoding *)

Record PayloadReader := { pr_bytes : bytes; pr_cursor : Z }.

Definition reader_new (b : bytes) : PayloadReader := {| pr_bytes := b; pr_cursor := 0 |}.

Notation payload_reader := (reader PayloadReader ProtocolError).

(** [PayloadReader::take]. *)
Definition pr_take (length : Z) : payload_reader bytes := fun r =>
  match checked_add USIZE_MAX (pr_cursor r) length with
  | None => Err Truncated
  | Some end_ =>
      if (pr_cursor r <=? end_) && (end_ <=? zlen (pr_bytes r))
      then Ok (take (Z.to_nat (end_ - pr_cursor r)) (drop (Z.to_nat (pr_cursor r)) (pr_bytes r)),
               {| pr_bytes := pr_bytes r; pr_cursor := end_ |})
      else Err Truncated
  end.

Definition pr_array (n : Z) : payload_reader bytes := pr_take n.
Definition pr_u8 : payload_reader Z := read_be pr_take 1.
Definition pr_u16 : payload_reader Z := read_be pr_take 2.
Definition pr_u32 : payload_reader Z := read_be pr_take 4.
Definition pr_u64 : payload_reader Z := read_be pr_take 8.
Definition pr_i32 : payload_reader Z := do x <- pr_array 4 ;; ret (of_be_i32 x).
Definition pr_job_id : payload_reader bytes := pr_array 16.

Definition pr_bytes_u32 (field : string) (minimum maximum : Z) : payload_reader bytes :=
  do length <- pr_u32 ;;
  check validate_range field length minimum maximum ;;
  pr_take length.

Definition pr_string_u16 (field : string) (minimum maximum : Z) : payload_reader str :=
  do length <- pr_u16 ;;
  check validate_range field length minimum maximum ;;
  do value <- pr_take length ;;
  check ensure (utf8_valid value) InvalidUtf8 ;;
  check validate_text field value minimum maximum ;;
  ret value.

Definition pr_remaining_bounded (maximum : Z) : payload_reader bytes := fun r =>
  let remaining := saturating_sub (zlen (pr_bytes r)) (pr_cursor r) in
  match validate_range "remaining payload" remaining 0 maximum with
  | Ok _ => pr_take remaining r
  | Err e => Err e
  end.

Definition pr_finish : payload_reader unit := fun r =>
  if pr_cursor r =? zlen (pr_bytes r) then Ok (tt, r) else Err TrailingBytes.

Definition decode_env_entry : payload_reader EnvEntry :=
  do name <- pr_string_u16 "environment name" 1 MAX_ENV_NAME_BYTES ;;
  check (if contains_byte "="%byte name
         then Err (InvalidValue "environment name") else Ok tt) ;;
  do value <- pr_string_u16 "environment value" 0 MAX_ENV_VALUE_BYTES ;;
  ret {| env_name := name; env_value := value |}.

(** The counters the decoding loops keep. *)
Definition total_argv_bytes (l : list str) : Z :=
  fold_left (fun acc a => saturating_add USIZE_MAX acc (zlen a)) l 0.
Definition total_env_bytes (l : list EnvEntry) : Z :=
  fold_left (fun acc v => saturating_add USIZE_MAX
               (saturating_add USIZE_MAX acc (zlen (env_name v))) (zlen (env_value v))) l 0.

Definition decode_start : payload_reader StartFrame :=
  do job_id <- pr_job_id ;;
  do profile_id <- pr_array 16 ;;
  do profile_generation <- pr_u64 ;;
  do policy_digest <- pr_array 32 ;;
  do input_digest <- pr_array 32 ;;
  do remote_deadline <- pr_u64 ;;
  do relay_deadline <- pr_u64 ;;
  do result_retention <- pr_u64 ;;
  do uid <- pr_u32 ;;
  do max_output <- pr_u64 ;;
  do prog <- pr_string_u16 "program" 1 MAX_PROGRAM_BYTES ;;
  do argument_count <- pr_u16 ;;
  check (if MAX_ARG_COUNT <? argument_count then Err (InvalidValue "argv count") else Ok tt) ;;
  do args <- repeat_reader (Z.to_nat argument_count)
               (pr_string_u16 "argument" 0 MAX_ARG_BYTES) ;;
  check (if MAX_ARG_TOTAL_BYTES <? total_argv_bytes args
         then Err (InvalidValue "argv bytes") else Ok tt) ;;
  do environment_count <- pr_u16 ;;
  check (if MAX_ENV_COUNT <? environment_count
         then Err (InvalidValue "environment count") else Ok tt) ;;
  do vars <- repeat_reader (Z.to_nat environment_count) decode_env_entry ;;
  check (if MAX_ENV_TOTAL_BYTES <? total_env_bytes vars
         then Err (InvalidValue "environment bytes") else Ok tt) ;;
  do cwd_present <- pr_u8 ;;
  do dir <- match cwd_present with
            | 0 => ret None
            | 1 => do d <- pr_string_u16 "cwd" 1 MAX_PATH_BYTES ;; ret (Some d)
            | _ => lift (Err (InvalidValue "cwd presence"))
            end ;;
  do policy <- pr_bytes_u32 "policy_json" 1 MAX_POLICY_BYTES ;;
  do token <- pr_array 32 ;;
  let start := {|
    start_job_id := job_id;
    start_profile_id := profile_id;
    start_profile_generation := profile_generation;
    start_policy_digest := policy_digest;
    start_input_digest := input_digest;
    remote_deadline_unix_ms := remote_deadline;
    relay_deadline_unix_ms := relay_deadline;
    result_retention_unix_ms := result_retention;
    run_as_uid := uid;
    max_output_bytes := max_output;
    program := prog;
    argv := args;
    env := vars;
    cwd := dir;
    policy_json := policy;
    start_receipt_token := token |} in
  check validate_start start ;;
  ret start.

Definition decode_hello : payload_reader Frame :=
  do max_payload <- pr_u32 ;;
  do features <- pr_u64 ;;
  check (if (max_payload =? 0) || (MAX_FRAME_PAYLOAD <? max_payload)
         then Err (InvalidValue "hello max_frame_payload") else Ok tt) ;;
  check (if negb (Z.land features (U64_MAX - SUPPORTED_FEATURE_BITS) =? 0)
         then Err (InvalidValue "hello feature_bits") else Ok tt) ;;
  do uid <- pr_u32 ;;
  ret (Hello {| max_frame_payload := max_payload; feature_bits := features;
                effective_uid := uid |}).

Definition decode_output : payload_reader OutputFrame :=
  do job_id <- pr_job_id ;;
  do off <- pr_u64 ;;
  do data <- pr_remaining_bounded MAX_OUTPUT_CHUNK ;;
  ret {| output_job_id := job_id; output_offset := off; output_data := data |}.

Definition decode_heartbeat : payload_reader HeartbeatFrame :=
  do job_id <- pr_job_id ;;
  do ord <- pr_u64 ;;
  do elapsed <- pr_u64 ;;
  do out_bytes <- pr_u64 ;;
  do err_bytes <- pr_u64 ;;
  ret {| heartbeat_job_id := job_id; ordinal := ord; elapsed_ms := elapsed;
         stdout_bytes := out_bytes; stderr_bytes := err_bytes |}.

Definition decode_exit : payload_reader ExitFrame :=
  do job_id <- pr_job_id ;;
  do k <- pr_u8 ;;
  do code <- pr_i32 ;;
  do out <- lift (match k, code with
                  | 0, code => Ok (Exited code)
                  | 1, 0 => Ok Cancelled
                  | 2, 0 => Ok DeadlineExceeded
                  | _, _ => Err (InvalidValue "exit outcome")
                  end) ;;
  do completed <- pr_u64 ;;
  ret {| exit_job_id := job_id; outcome := out; completed_unix_ms := completed |}.

Definition decode_error : payload_reader ErrorFrame :=
  do present <- pr_u8 ;;
  do job_id <- match present with
               | 0 => ret None
               | 1 => do j <- pr_job_id ;; ret (Some j)
               | _ => lift (Err (InvalidValue "error job presence"))
               end ;;
  do code <- pr_string_u16 "error code" 1 MAX_ERROR_CODE_BYTES ;;
  do message <- pr_string_u16 "error message" 1 MAX_ERROR_MESSAGE_BYTES ;;
  do flag <- pr_u8 ;;
  do retry <- lift (match flag with
                    | 0 => Ok false
                    | 1 => Ok true
                    | _ => Err (InvalidValue "error retryable")
                    end) ;;
  ret {| error_job_id := job_id; error_code := code; error_message := message;
         retryable := retry |}.

Definition decode_query_receipt : payload_reader QueryReceiptFrame :=
  do job_id <- pr_job_id ;;
  do profile_id <- pr_array 16 ;;
  do profile_generation <- pr_u64 ;;
  check (if profile_generation =? 0 then Err (InvalidValue "profile_generation")
         else Ok tt) ;;
  do policy_digest <- pr_array 32 ;;
  do input_digest <- pr_array 32 ;;
  do token <- pr_array 32 ;;
  let query := {|
    query_job_id := job_id;
    query_profile_id := profile_id;
    query_profile_generation := profile_generation;
    query_policy_digest := policy_digest;
    query_input_digest := input_digest;
    query_receipt_token := token |} in
  check validate_query_receipt query ;;
  ret query.

Definition decode_frame (k : FrameKind) : payload_reader Frame :=
  match k with
  | KHello => decode_hello
  | KStart => do s <- decode_start ;; ret (Start s)
  | KStdout => do o <- decode_output ;; ret (Stdout o)
  | KStderr => do o <- decode_output ;; ret (Stderr o)
  | KHeartbeat => do h <- decode_heartbeat ;; ret (Heartbeat h)
  | KCancel =>
      do job_id <- pr_job_id ;;
      do r <- pr_string_u16 "cancel reason" 1 MAX_CANCEL_REASON_BYTES ;;
      ret (Cancel {| cancel_job_id := job_id; reason := r |})
  | KExit => do e <- decode_exit ;; ret (Exit e)
  | KReceipt =>
      do job_id <- pr_job_id ;;
      do b <- pr_bytes_u32 "receipt" 1 MAX_RECEIPT_BYTES ;;
      ret (Receipt {| receipt_job_id := job_id; receipt_bytes := b |})
  | KError => do e <- decode_error ;; ret (Error e)
  | KQueryReceipt => do q <- decode_query_receipt ;; ret (QueryReceipt q)
  end.

Definition decode_payload (k : FrameKind) (payload : bytes) : result ProtocolError Frame :=
  match (do f <- decode_frame k ;; do _ <- pr_finish ;; ret f) (reader_new payload) with
  | Ok (f, _) => Ok f
  | Err e => Err e
  end.

(** [bytes[i..j]] for a range known to be inside. *)
Definition slice (b : bytes) (i j : Z) : bytes :=
  take (Z.to_nat (j - i)) (drop (Z.to_nat i) b).

Definition decode_exact (b : bytes) : result ProtocolError Envelope :=
  if zlen b <? HEADER_BYTES then Err Truncated
  else if negb (bool_decide (slice b 0 4 = MAGIC)) then Err BadMagic
  else
    let version := of_be (slice b 4 6) in
    if negb (version =? PROTOCOL_VERSION) then Err (UnsupportedVersion version)
    else
      let* k := kind_try_from (of_be (slice b 6 7)) in
      let flags := of_be (slice b 7 8) in
      if negb (flags =? 0) then Err (ReservedFlags flags)
      else
        let seq := of_be (slice b 8 16) in
        let payload_len := of_be (slice b 16 20) in
        try! validate_payload_size k payload_len ;;
        let* expected := ok_or (checked_add USIZE_MAX HEADER_BYTES payload_len)
          (FrameTooLarge payload_len) in
        if zlen b <? expected then Err Truncated
        else if negb (zlen b =? expected) then Err TrailingBytes
        else
          let* f := decode_payload k (drop (Z.to_nat HEADER_BYTES) b) in
          Ok {| sequence := seq; frame := f |}.

(** [read_frame_from] on a slice: [Ok(None)] at a clean end of stream. *)
Definition read_exact : Z -> reader bytes ProtocolError bytes := slice_read_exact Io.

Definition read_frame_body : reader bytes ProtocolError (option Envelope) :=
  do header <- read_exact HEADER_BYTES ;;
  check (if negb (bool_decide (slice header 0 4 = MAGIC)) then Err BadMagic else Ok tt) ;;
  let version := of_be (slice header 4 6) in
  check (if negb (version =? PROTOCOL_VERSION) then Err (UnsupportedVersion version)
         else Ok tt) ;;
  do k <- lift (kind_try_from (of_be (slice header 6 7))) ;;
  let flags := of_be (slice header 7 8) in
  check (if negb (flags =? 0) then Err (ReservedFlags flags) else Ok tt) ;;
  let payload_len := of_be (slice header 16 20) in
  check validate_payload_size k payload_len ;;
  do body <- read_exact payload_len ;;
  do e <- lift (decode_exact (header ++ body)) ;;
  ret (Some e).

Definition read_frame_from : reader bytes ProtocolError (option Envelope) :=
  fun s => match s with
           | [] => Ok (None, [])
           | _ :: _ => read_frame_body s
           end.

(** [write_frame_to] on a byte vector. *)
Definition write_frame_to (writer : bytes) (e : Envelope) : result ProtocolError bytes :=
  let* b := encode e in Ok (writer ++ b).

(** ** Digest of a Start frame's typed input *)

Definition START_DOMAIN : bytes := rs "serctl-remote-start-v1" ++ [x00].

Definition hash_length_prefixed (hasher b : bytes) : bytes :=
  hasher ++ be64 (zlen b) ++ b.

(** The bytes fed to the hasher. *)
Definition start_input_message (start : StartFrame) : bytes :=
  let h := START_DOMAIN in
  let h := h ++ start_job_id start in
  let h := h ++ start_profile_id start in
  let h := h ++ be64 (start_profile_generation start) in
  let h := h ++ start_policy_digest start in
  let h := h ++ be64 (remote_deadline_unix_ms start) in
  let h := h ++ be64 (relay_deadline_unix_ms start) in
  let h := h ++ be64 (result_retention_unix_ms start) in
  let h := h ++ be32 (run_as_uid start) in
  let h := h ++ be64 (max_output_bytes start) in
  let h := hash_length_prefixed h (program start) in
  let h := h ++ be64 (zlen (argv start)) in
  let h := fold_left hash_length_prefixed (argv start) h in
  let h := h ++ be64 (zlen (env start)) in
  let h := fold_left (fun h v => hash_length_prefixed
                        (hash_length_prefixed h (env_name v)) (env_value v)) (env start) h in
  match cwd start with
  | Some cwd => hash_length_prefixed (h ++ [x01]) cwd
  | None => h ++ [x00]
  end.

Definition compute_start_input_digest `{Sha2} (start : StartFrame) : bytes :=
  sha256 (start_input_message start).

(** ** Hexadecimal identifiers *)

Definition hex_lower (b : bytes) : str :=
  concat (map (fun x => [hex_digit (Z.shiftr (b8 x) 4); hex_digit (Z.land (b8 x) 15)]) b).
