(* ===== verification/RemoteCodec.v ===== *)
(** * The remote-helper codec: encoding and decoding are inverse

    Theory of RemoteProtocol: which frames encode, what their bytes are, and
    that strict decoding accepts exactly those bytes. *)

From S2P Require Import Prelude.
From S2P Require Import Bytes.
From S2P Require Import Text.
From S2P Require Import Codec.
From S2P Require Import Crates.
From S2P Require Import RemoteProtocol.
#[local] Open Scope string_scope.
#[local] Open Scope list_scope.
#[local] Open Scope Z_scope.

(** ** What the checks say *)

Definition text_ok (lo hi : Z) (v : str) : Prop :=
  lo <= zlen v <= hi /\ contains_byte x00 v = false /\ has_control v = false.

Definition nonzero (b : bytes) : Prop := forallb (fun x => b8 x =? 0) b = false.

Lemma validate_range_ok field n lo hi u :
  validate_range field n lo hi = Ok u <-> lo <= n <= hi.
Proof.
  unfold validate_range. destruct u. destruct (in_range lo hi n) eqn:E; simpl.
  - apply in_range_true in E. naive_solver.
  - apply in_range_false in E. split; [done|lia].
Qed.

Lemma validate_text_ok field v lo hi u :
  validate_text field v lo hi = Ok u <-> text_ok lo hi v.
Proof.
  unfold validate_text, text_ok. rewrite rbind_ok. setoid_rewrite validate_range_ok.
  destruct u, (contains_byte x00 v), (has_control v); simpl; naive_solver.
Qed.

Lemma validate_nonzero_ok field b u : validate_nonzero field b = Ok u <-> nonzero b.
Proof.
  unfold validate_nonzero, nonzero. destruct u, (forallb _ b); naive_solver.
Qed.

Definition env_ok (v : EnvEntry) : Prop :=
  text_ok 1 MAX_ENV_NAME_BYTES (env_name v) /\ text_ok 0 MAX_ENV_VALUE_BYTES (env_value v) /\
  contains_byte "="%byte (env_name v) = false.

Record start_ok (s : StartFrame) : Prop := {
  ok_job_id : nonzero (start_job_id s);
  ok_profile_id : nonzero (start_profile_id s);
  ok_policy_digest : nonzero (start_policy_digest s);
  ok_input_digest : nonzero (start_input_digest s);
  ok_receipt_token : nonzero (start_receipt_token s);
  ok_generation : start_profile_generation s <> 0;
  ok_uid : run_as_uid s <> 0;
  ok_deadlines : remote_deadline_unix_ms s <> 0 /\
    remote_deadline_unix_ms s <= relay_deadline_unix_ms s /\
    relay_deadline_unix_ms s <= result_retention_unix_ms s;
  ok_output : max_output_bytes s <> 0 /\ max_output_bytes s <= MAX_OUTPUT_BYTES;
  ok_program : text_ok 1 MAX_PROGRAM_BYTES (program s);
  ok_argv_count : zlen (argv s) <= MAX_ARG_COUNT;
  ok_argv : Forall (text_ok 0 MAX_ARG_BYTES) (argv s);
  ok_argv_bytes : total_argv_bytes (argv s) <= MAX_ARG_TOTAL_BYTES;
  ok_env_count : zlen (env s) <= MAX_ENV_COUNT;
  ok_env : Forall env_ok (env s);
  ok_env_bytes : total_env_bytes (env s) <= MAX_ENV_TOTAL_BYTES;
  ok_cwd : match cwd s with Some d => text_ok 1 MAX_PATH_BYTES d | None => True end;
  ok_policy : 1 <= zlen (policy_json s) <= MAX_POLICY_BYTES;
}.

(** One environment variable of [validate_start]'s loop. *)
Definition env_check (v : EnvEntry) : result ProtocolError unit :=
  try! validate_text "environment name" (env_name v) 1 MAX_ENV_NAME_BYTES ;;
  try! validate_text "environment value" (env_value v) 0 MAX_ENV_VALUE_BYTES ;;
  if contains_byte "="%byte (env_name v) then Err (InvalidValue "environment name") else Ok tt.

Lemma env_check_ok v u : env_check v = Ok u <-> env_ok v.
Proof.
  unfold env_check, env_ok. rewrite !seq_ok, !validate_text_ok, if_err_ok, ok_tt_iff. tauto.
Qed.

Lemma argv_loop l n :
  for_each (fun acc argument =>
      try! validate_text "argument" argument 0 MAX_ARG_BYTES ;;
      Ok (saturating_add USIZE_MAX acc (zlen argument))) 0 l = Ok n <->
  Forall (text_ok 0 MAX_ARG_BYTES) l /\ n = total_argv_bytes l.
Proof.
  rewrite (for_each_check (fun a => validate_text "argument" a 0 MAX_ARG_BYTES)).
  by setoid_rewrite validate_text_ok.
Qed.

Lemma env_loop_eq l :
  for_each (fun acc variable =>
      try! validate_text "environment name" (env_name variable) 1 MAX_ENV_NAME_BYTES ;;
      try! validate_text "environment value" (env_value variable) 0 MAX_ENV_VALUE_BYTES ;;
      if contains_byte "="%byte (env_name variable)
      then Err (InvalidValue "environment name")
      else Ok (saturating_add USIZE_MAX
                 (saturating_add USIZE_MAX acc (zlen (env_name variable)))
                 (zlen (env_value variable)))) 0 l =
  for_each (fun acc v => try! env_check v ;;
      Ok (saturating_add USIZE_MAX (saturating_add USIZE_MAX acc (zlen (env_name v)))
            (zlen (env_value v)))) 0 l.
Proof.
  apply for_each_ext. intros acc v. unfold env_check.
  destruct (validate_text _ (env_name v) _ _); [|done]. cbn [rbind].
  destruct (validate_text _ (env_value v) _ _); [|done]. cbn [rbind].
  by destruct (contains_byte _ _).
Qed.

Lemma env_loop l n :
  for_each (fun acc variable =>
      try! validate_text "environment name" (env_name variable) 1 MAX_ENV_NAME_BYTES ;;
      try! validate_text "environment value" (env_value variable) 0 MAX_ENV_VALUE_BYTES ;;
      if contains_byte "="%byte (env_name variable)
      then Err (InvalidValue "environment name")
      else Ok (saturating_add USIZE_MAX
                 (saturating_add USIZE_MAX acc (zlen (env_name variable)))
                 (zlen (env_value variable)))) 0 l = Ok n <->
  Forall env_ok l /\ n = total_env_bytes l.
Proof.
  rewrite env_loop_eq, (for_each_check env_check). by setoid_rewrite env_check_ok.
Qed.

Lemma validate_start_ok s u : validate_start s = Ok u <-> start_ok s.
Proof.
  unfold validate_start.
  rewrite !seq_ok, !validate_nonzero_ok, !if_err_ok, seq_ok, if_err_ok, validate_text_ok.
  rewrite (let_ok _ _ _ _ _ (argv_loop (argv s))), !if_err_ok.
  rewrite (let_ok _ _ _ _ _ (env_loop (env s))), if_err_ok, !seq_ok.
  rewrite validate_range_ok, ok_tt_iff.
  rewrite !orb_false_iff, !Z.eqb_neq, !Z.ltb_ge.
  split.
  - intros H. destruct_and! H. destruct (cwd s) eqn:E; rewrite ?validate_text_ok in *.
    + constructor; try rewrite E; done.
    + constructor; try rewrite E; done.
  - intros []. destruct (cwd s); rewrite ?validate_text_ok; tauto.
Qed.

Record query_ok (q : QueryReceiptFrame) : Prop := {
  ok_query_job_id : nonzero (query_job_id q);
  ok_query_profile_id : nonzero (query_profile_id q);
  ok_query_policy_digest : nonzero (query_policy_digest q);
  ok_query_input_digest : nonzero (query_input_digest q);
  ok_query_token : nonzero (query_receipt_token q);
  ok_query_generation : query_profile_generation q <> 0;
}.

Lemma validate_query_receipt_ok q u : validate_query_receipt q = Ok u <-> query_ok q.
Proof.
  unfold validate_query_receipt.
  rewrite !seq_ok, !validate_nonzero_ok, if_err_ok, ok_tt_iff, Z.eqb_neq. split.
  - intros H. destruct_and! H. by constructor.
  - intros []. tauto.
Qed.

(** ** Frames as the Rust types have them *)

Definition wf_str (s : str) : Prop := utf8_valid s = true.

Record wf_start (s : StartFrame) : Prop := {
  wf_start_job_id : zlen (start_job_id s) = 16;
  wf_start_profile_id : zlen (start_profile_id s) = 16;
  wf_start_generation : is_u64 (start_profile_generation s);
  wf_start_policy_digest : zlen (start_policy_digest s) = 32;
  wf_start_input_digest : zlen (start_input_digest s) = 32;
  wf_start_remote : is_u64 (remote_deadline_unix_ms s);
  wf_start_relay : is_u64 (relay_deadline_unix_ms s);
  wf_start_retention : is_u64 (result_retention_unix_ms s);
  wf_start_uid : is_u32 (run_as_uid s);
  wf_start_output : is_u64 (max_output_bytes s);
  wf_start_program : wf_str (program s);
  wf_start_argv : Forall wf_str (argv s);
  wf_start_env : Forall (fun v => wf_str (env_name v) /\ wf_str (env_value v)) (env s);
  wf_start_cwd : match cwd s with Some d => wf_str d | None => True end;
  wf_start_token : zlen (start_receipt_token s) = 32;
}.

Definition wf_outcome (o : ExitOutcome) : Prop :=
  match o with Exited code => is_i32 code | _ => True end.

Definition wf_frame (f : Frame) : Prop :=
  match f with
  | Hello h => is_u32 (max_frame_payload h) /\ is_u64 (feature_bits h) /\
               is_u32 (effective_uid h)
  | Start s => wf_start s
  | Stdout o | Stderr o => zlen (output_job_id o) = 16 /\ is_u64 (output_offset o)
  | Heartbeat h =>
      zlen (heartbeat_job_id h) = 16 /\ is_u64 (ordinal h) /\ is_u64 (elapsed_ms h) /\
      is_u64 (stdout_bytes h) /\ is_u64 (stderr_bytes h)
  | Cancel c => zlen (cancel_job_id c) = 16 /\ wf_str (reason c)
  | Exit e => zlen (exit_job_id e) = 16 /\ wf_outcome (outcome e) /\
              is_u64 (completed_unix_ms e)
  | Receipt r => zlen (receipt_job_id r) = 16
  | Error e => match error_job_id e with Some j => zlen j = 16 | None => True end /\
               wf_str (error_code e) /\ wf_str (error_message e)
  | QueryReceipt q =>
      zlen (query_job_id q) = 16 /\ zlen (query_profile_id q) = 16 /\
      is_u64 (query_profile_generation q) /\ zlen (query_policy_digest q) = 32 /\
      zlen (query_input_digest q) = 32 /\ zlen (query_receipt_token q) = 32
  end.

Definition wf_envelope (e : Envelope) : Prop := is_u64 (sequence e) /\ wf_frame (frame e).

(** The frames the protocol admits. *)
Definition frame_ok (f : Frame) : Prop :=
  match f with
  | Hello h => 1 <= max_frame_payload h <= MAX_FRAME_PAYLOAD /\
               Z.land (feature_bits h) (U64_MAX - SUPPORTED_FEATURE_BITS) = 0
  | Start s => start_ok s
  | Stdout o | Stderr o => zlen (output_data o) <= MAX_OUTPUT_CHUNK
  | Heartbeat h => True
  | Cancel c => text_ok 1 MAX_CANCEL_REASON_BYTES (reason c)
  | Exit e => True
  | Receipt r => 1 <= zlen (receipt_bytes r) <= MAX_RECEIPT_BYTES
  | Error e => text_ok 1 MAX_ERROR_CODE_BYTES (error_code e) /\
               text_ok 1 MAX_ERROR_MESSAGE_BYTES (error_message e)
  | QueryReceipt q => query_ok q
  end.

(** ** The bytes of a payload *)

Definition str16 (s : str) : bytes := be16 (zlen s) ++ s.
Definition bytes32 (b : bytes) : bytes := be32 (zlen b) ++ b.
Definition env_bytes (v : EnvEntry) : bytes := str16 (env_name v) ++ str16 (env_value v).
Definition opt_bytes {A} (enc : A -> bytes) (o : option A) : bytes :=
  match o with Some a => be_bytes 1 1 ++ enc a | None => be_bytes 1 0 end.

Definition start_bytes (s : StartFrame) : bytes :=
  start_job_id s ++ start_profile_id s ++ be64 (start_profile_generation s)
  ++ start_policy_digest s ++ start_input_digest s
  ++ be64 (remote_deadline_unix_ms s) ++ be64 (relay_deadline_unix_ms s)
  ++ be64 (result_retention_unix_ms s) ++ be32 (run_as_uid s) ++ be64 (max_output_bytes s)
  ++ str16 (program s)
  ++ be16 (zlen (argv s)) ++ concat (map str16 (argv s))
  ++ be16 (zlen (env s)) ++ concat (map env_bytes (env s))
  ++ opt_bytes str16 (cwd s) ++ bytes32 (policy_json s) ++ start_receipt_token s.

Definition outcome_bytes (o : ExitOutcome) : bytes :=
  match o with
  | Exited code => be_bytes 1 0 ++ be_i32 code
  | Cancelled => be_bytes 1 1 ++ be_i32 0
  | DeadlineExceeded => be_bytes 1 2 ++ be_i32 0
  end.

Definition payload_bytes (f : Frame) : bytes :=
  match f with
  | Hello h => be32 (max_frame_payload h) ++ be64 (feature_bits h) ++ be32 (effective_uid h)
  | Start s => start_bytes s
  | Stdout o | Stderr o => output_job_id o ++ be64 (output_offset o) ++ output_data o
  | Heartbeat h => heartbeat_job_id h ++ be64 (ordinal h) ++ be64 (elapsed_ms h)
                   ++ be64 (stdout_bytes h) ++ be64 (stderr_bytes h)
  | Cancel c => cancel_job_id c ++ str16 (reason c)
  | Exit e => exit_job_id e ++ outcome_bytes (outcome e) ++ be64 (completed_unix_ms e)
  | Receipt r => receipt_job_id r ++ bytes32 (receipt_bytes r)
  | Error e => opt_bytes (fun j => j) (error_job_id e) ++ str16 (error_code e)
               ++ str16 (error_message e) ++ be_bytes 1 (if retryable e then 1 else 0)
  | QueryReceipt q =>
      query_job_id q ++ query_profile_id q ++ be64 (query_profile_generation q)
      ++ query_policy_digest q ++ query_input_digest q ++ query_receipt_token q
  end.

Lemma put_string_u16_ok out field v lo hi bs :
  hi <= U16_MAX ->
  (put_string_u16 out field v lo hi = Ok bs <-> text_ok lo hi v /\ bs = out ++ str16 v).
Proof.
  intros Hhi. unfold put_string_u16, put_u16, str16. rewrite seq_ok, validate_text_ok.
  rewrite rbind_ok. setoid_rewrite ok_or_ok. setoid_rewrite try_from_max_some.
  unfold text_ok. split.
  - intros (Ht & len & (-> & _) & [= <-]). by rewrite <-app_assoc.
  - intros (Ht & ->). split; [done|]. exists (zlen v). rewrite <-app_assoc.
    repeat split; lia.
Qed.

Lemma put_bytes_u32_ok out b bs :
  put_bytes_u32 out b = Ok bs <-> zlen b <= U32_MAX /\ bs = out ++ bytes32 b.
Proof.
  unfold put_bytes_u32, put_u32, bytes32. rewrite rbind_ok. setoid_rewrite ok_or_ok.
  setoid_rewrite try_from_max_some. split.
  - intros (len & (-> & ?) & [= <-]). by rewrite <-app_assoc.
  - intros (? & ->). exists (zlen b). by rewrite <-app_assoc.
Qed.

Lemma put_argv_ok out l bs :
  for_each (fun out argument => put_string_u16 out "argument" argument 0 MAX_ARG_BYTES) out l
    = Ok bs <->
  Forall (text_ok 0 MAX_ARG_BYTES) l /\ bs = out ++ concat (map str16 l).
Proof.
  revert out; induction l as [|a l IH]; intros out; simpl.
  - rewrite app_nil_r. split; [by intros [= <-]|]. by intros [_ ->].
  - rewrite rbind_ok. setoid_rewrite put_string_u16_ok; [|done]. setoid_rewrite IH.
    rewrite Forall_cons. split.
    + intros (b1 & (Ha & ->) & Hl & ->). by rewrite <-app_assoc.
    + intros ((Ha & Hl) & ->). eexists. split; [eauto|]. by rewrite <-app_assoc.
Qed.

Lemma put_env_ok out l bs :
  for_each (fun out variable =>
      let* out := put_string_u16 out "environment name" (env_name variable)
                    1 MAX_ENV_NAME_BYTES in
      put_string_u16 out "environment value" (env_value variable)
        0 MAX_ENV_VALUE_BYTES) out l = Ok bs <->
  Forall (fun v => text_ok 1 MAX_ENV_NAME_BYTES (env_name v) /\
                   text_ok 0 MAX_ENV_VALUE_BYTES (env_value v)) l /\
  bs = out ++ concat (map env_bytes l).
Proof.
  revert out; induction l as [|v l IH]; intros out; simpl.
  - rewrite app_nil_r. split; [by intros [= <-]|]. by intros [_ ->].
  - rewrite !rbind_ok. setoid_rewrite rbind_ok.
    setoid_rewrite put_string_u16_ok; [|done..]. setoid_rewrite IH.
    rewrite Forall_cons. split.
    + intros (b1 & (b2 & (Hn & ->) & Hv & ->) & Hl & ->).
      unfold env_bytes at 2. by rewrite <-!app_assoc.
    + intros (((Hn & Hv) & Hl) & ->). eexists. split; [eauto|]. split; [done|].
      unfold env_bytes at 2. by rewrite <-!app_assoc.
Qed.

Lemma encode_start_ok s out bs :
  encode_start s out = Ok bs <-> start_ok s /\ bs = out ++ start_bytes s.
Proof.
  unfold encode_start, put_job_id, put_u16, put_u32, put_u64.
  rewrite seq_ok, validate_start_ok. split.
  - intros (Hs & H). split; [done|].
    apply rbind_ok in H as (b1 & H1 & H). apply put_string_u16_ok in H1 as (_ & ->); [|done].
    apply rbind_ok in H as (b2 & H2 & H). apply put_argv_ok in H2 as (_ & ->).
    apply rbind_ok in H as (b3 & H3 & H). apply put_env_ok in H3 as (_ & ->).
    apply rbind_ok in H as (b4 & H4 & H). apply rbind_ok in H as (b5 & H5 & [= <-]).
    apply put_bytes_u32_ok in H5 as (_ & ->).
    unfold start_bytes, opt_bytes. destruct (cwd s).
    + apply put_string_u16_ok in H4 as (_ & ->); [|done]. by rewrite <-!app_assoc.
    + injection H4 as <-. by rewrite <-!app_assoc.
  - intros (Hs & ->). split; [done|]. destruct Hs.
    erewrite rbind_pass; [|apply put_string_u16_ok; [done|]; by split].
    erewrite rbind_pass; [|apply put_argv_ok; by split].
    erewrite rbind_pass; [|apply put_env_ok; split; [|done]].
    2: { eapply Forall_impl; [exact ok_env0|]. by intros v (? & ? & _). }
    assert (zlen (policy_json s) <= U32_MAX) as Hpol
      by (unfold MAX_POLICY_BYTES, U32_MAX in *; lia).
    unfold start_bytes, opt_bytes. destruct (cwd s) as [d|].
    + erewrite rbind_pass; [|apply put_string_u16_ok; [done|]; by split].
      erewrite rbind_pass; [|apply put_bytes_u32_ok; by split].
      by rewrite <-!app_assoc.
    + cbn [rbind]. erewrite rbind_pass; [|apply put_bytes_u32_ok; by split].
      by rewrite <-!app_assoc.
Qed.

Lemma encode_payload_ok f out bs :
  wf_frame f ->
  (encode_payload f out = Ok bs <-> frame_ok f /\ bs = out ++ payload_bytes f).
Proof.
  intros Hwf.
  destruct f as [h|s|o|o|h|c|e|r|e|q]; cbn [encode_payload frame_ok payload_bytes];
    unfold put_job_id, put_u16, put_u32, put_u64.
  - rewrite !if_err_ok, orb_false_iff, Z.eqb_neq, Z.ltb_ge, negb_false_iff, Z.eqb_eq.
    destruct Hwf as ([? ?] & _). split.
    + intros (? & ? & [= <-]). rewrite <-!app_assoc. split; [lia|done].
    + intros (? & ->). rewrite <-!app_assoc. repeat split; lia.
  - apply encode_start_ok.
  - rewrite seq_ok, validate_range_ok. pose proof (zlen_nonneg (output_data o)).
    rewrite <-!app_assoc. split; [intros (? & [= <-]); split; [lia|done]|].
    intros (? & ->). split; [lia|done].
  - rewrite seq_ok, validate_range_ok. pose proof (zlen_nonneg (output_data o)).
    rewrite <-!app_assoc. split; [intros (? & [= <-]); split; [lia|done]|].
    intros (? & ->). split; [lia|done].
  - rewrite <-!app_assoc. naive_solver.
  - rewrite put_string_u16_ok by done. by rewrite <-!app_assoc.
  - destruct (outcome e); cbn [outcome_bytes]; rewrite <-!app_assoc; naive_solver.
  - rewrite seq_ok, validate_range_ok, put_bytes_u32_ok, <-!app_assoc.
    unfold MAX_RECEIPT_BYTES, U32_MAX. naive_solver lia.
  - split.
    + intros H. apply rbind_ok in H as (b1 & H1 & H). apply rbind_ok in H as (b2 & H2 & [= <-]).
      apply put_string_u16_ok in H1 as (? & ->); [|done].
      apply put_string_u16_ok in H2 as (? & ->); [|done]. split; [done|].
      destruct (error_job_id e), (retryable e); cbn [opt_bytes]; by rewrite <-!app_assoc.
    + intros ((? & ?) & ->).
      erewrite rbind_pass; [|apply put_string_u16_ok; [done|]; by split].
      erewrite rbind_pass; [|apply put_string_u16_ok; [done|]; by split].
      destruct (error_job_id e), (retryable e); cbn [opt_bytes]; by rewrite <-!app_assoc.
  - rewrite seq_ok, validate_query_receipt_ok, <-!app_assoc. naive_solver.
Qed.

(** ** Sizes *)

Definition sum_by {A} (w : A -> Z) (l : list A) : Z := fold_right (fun a s => w a + s) 0 l.

Definition env_size (v : EnvEntry) : Z := zlen (env_name v) + zlen (env_value v).

Lemma sum_by_nonneg {A} (w : A -> Z) l : (forall a, 0 <= w a) -> 0 <= sum_by w l.
Proof. intros Hw. induction l as [|a l IH]; simpl; [lia|]. pose proof (Hw a). lia. Qed.

Lemma total_argv_bytes_sum l m :
  m < USIZE_MAX -> (total_argv_bytes l <= m <-> sum_by zlen l <= m).
Proof.
  intros Hm. unfold total_argv_bytes.
  rewrite (fold_saturating_add USIZE_MAX zlen); [|done|apply zlen_nonneg].
  fold (sum_by (@zlen byte) l). pose proof (sum_by_nonneg zlen l zlen_nonneg). lia.
Qed.

Lemma env_size_nonneg v : 0 <= env_size v.
Proof.
  unfold env_size. pose proof (zlen_nonneg (env_name v)).
  pose proof (zlen_nonneg (env_value v)). lia.
Qed.

Lemma total_env_bytes_eq l :
  total_env_bytes l = Z.min USIZE_MAX (sum_by env_size l).
Proof.
  unfold total_env_bytes.
  rewrite <-(Z.add_0_l (sum_by env_size l)) at 1.
  unfold sum_by. rewrite <-(fold_saturating_add USIZE_MAX env_size); [|done|apply env_size_nonneg].
  assert (0 <= 0 <= USIZE_MAX) as H0 by done. revert H0. generalize 0 at 2 4 5.
  induction l as [|v l IH]; intros acc Hacc; simpl; [done|].
  pose proof (zlen_nonneg (env_name v)). pose proof (zlen_nonneg (env_value v)).
  rewrite IH by (unfold saturating_add; lia). f_equal. unfold saturating_add, env_size. lia.
Qed.

Lemma total_env_bytes_sum l m :
  m < USIZE_MAX -> (total_env_bytes l <= m <-> sum_by env_size l <= m).
Proof.
  intros Hm. rewrite total_env_bytes_eq.
  pose proof (sum_by_nonneg env_size l env_size_nonneg). lia.
Qed.

Lemma zlen_str16 s : zlen (str16 s) = 2 + zlen s.
Proof. unfold str16, be16. by autorewrite with zlen. Qed.

Lemma zlen_bytes32 b : zlen (bytes32 b) = 4 + zlen b.
Proof. unfold bytes32, be32. by autorewrite with zlen. Qed.

Lemma zlen_concat_str16 l : zlen (concat (map str16 l)) = 2 * zlen l + sum_by zlen l.
Proof.
  induction l as [|a l IH]; cbn [map concat sum_by fold_right]; [done|].
  autorewrite with zlen. rewrite zlen_str16, IH. unfold sum_by. lia.
Qed.

Lemma zlen_concat_env l : zlen (concat (map env_bytes l)) = 4 * zlen l + sum_by env_size l.
Proof.
  induction l as [|a l IH]; cbn [map concat sum_by fold_right]; [done|].
  unfold env_bytes at 1. autorewrite with zlen. rewrite !zlen_str16, IH.
  unfold env_size at 2, sum_by. lia.
Qed.

#[local] Hint Rewrite zlen_str16 zlen_bytes32 zlen_concat_str16 zlen_concat_env : zlen.

Ltac unfold_limits :=
  unfold MAX_FRAME_PAYLOAD, MAX_OUTPUT_CHUNK, MAX_POLICY_BYTES, MAX_PROGRAM_BYTES,
    MAX_ARG_COUNT, MAX_ARG_BYTES, MAX_ARG_TOTAL_BYTES, MAX_ENV_COUNT, MAX_ENV_NAME_BYTES,
    MAX_ENV_VALUE_BYTES, MAX_ENV_TOTAL_BYTES, MAX_PATH_BYTES, MAX_RECEIPT_BYTES,
    MAX_ERROR_CODE_BYTES, MAX_ERROR_MESSAGE_BYTES, MAX_CANCEL_REASON_BYTES,
    MAX_OUTPUT_BYTES in *.

Lemma start_bytes_size s : wf_start s -> start_ok s -> zlen (start_bytes s) <= 94713.
Proof.
  intros [] [].
  apply total_argv_bytes_sum in ok_argv_bytes0; [|done].
  apply total_env_bytes_sum in ok_env_bytes0; [|done].
  destruct ok_program0 as ([_ ?] & _). unfold start_bytes.
  assert (zlen (opt_bytes str16 (cwd s)) <= 3 + MAX_PATH_BYTES).
  { destruct (cwd s); cbn [opt_bytes]; autorewrite with zlen;
      [destruct ok_cwd0 as ([_ ?] & _); lia | by unfold_limits]. }
  unfold be16, be32, be64. autorewrite with zlen. unfold_limits. lia.
Qed.

Lemma zlen_outcome_bytes o : zlen (outcome_bytes o) = 5.
Proof. by destruct o. Qed.

Lemma payload_size_ok f :
  wf_frame f -> frame_ok f ->
  validate_payload_size (kind f) (zlen (payload_bytes f)) = Ok tt.
Proof.
  intros Hwf Hok. unfold validate_payload_size. rewrite !if_err_ok, !Z.ltb_ge.
  destruct f as [h|s|o|o|h|c|e|r|e|q];
    cbn [kind payload_bytes wf_frame frame_ok] in *; unfold be16, be32, be64 in *.
  - autorewrite with zlen. by unfold_limits.
  - pose proof (start_bytes_size s Hwf Hok). unfold_limits. split_and!; (done || lia).
  - autorewrite with zlen. unfold_limits. split_and!; (done || lia).
  - autorewrite with zlen. unfold_limits. split_and!; (done || lia).
  - autorewrite with zlen. unfold_limits. split_and!; (done || lia).
  - destruct Hok as ([_ ?] & _). autorewrite with zlen. unfold_limits. split_and!; (done || lia).
  - autorewrite with zlen. rewrite zlen_outcome_bytes. unfold_limits. split_and!; (done || lia).
  - autorewrite with zlen. unfold_limits. split_and!; (done || lia).
  - destruct Hwf as (Hj & _). destruct Hok as (([_ ?] & _) & [_ ?] & _).
    autorewrite with zlen. destruct (error_job_id e); cbn [opt_bytes];
      autorewrite with zlen; unfold_limits; split_and!; (done || lia).
  - autorewrite with zlen. unfold_limits. split_and!; (done || lia).
Qed.

Lemma validate_payload_size_max k n u :
  validate_payload_size k n = Ok u -> n <= MAX_FRAME_PAYLOAD.
Proof. unfold validate_payload_size. rewrite if_err_ok, Z.ltb_ge. naive_solver. Qed.

(** ** Reading payload fields back *)

#[export] Instance pr_source : Source PayloadReader := fun r rest =>
  0 <= pr_cursor r <= zlen (pr_bytes r) /\ zlen (pr_bytes r) <= USIZE_MAX /\
  drop (Z.to_nat (pr_cursor r)) (pr_bytes r) = rest.

Lemma view_len (r : PayloadReader) rest :
  view r rest -> zlen rest = zlen (pr_bytes r) - pr_cursor r.
Proof. intros (Hc & _ & <-). unfold zlen in *. rewrite length_drop. lia. Qed.

Lemma pr_take_step r x rest :
  view r (x ++ rest) ->
  pr_take (zlen x) r =
    Ok (x, {| pr_bytes := pr_bytes r; pr_cursor := pr_cursor r + zlen x |}) /\
  view {| pr_bytes := pr_bytes r; pr_cursor := pr_cursor r + zlen x |} rest.
Proof.
  intros Hv. pose proof (view_len _ _ Hv) as Hl. rewrite zlen_app in Hl.
  pose proof (zlen_nonneg x). pose proof (zlen_nonneg rest).
  destruct Hv as (Hc & Hmax & Hd). unfold pr_take, checked_add.
  rewrite (proj2 (Z.leb_le _ _)) by lia.
  rewrite (proj2 (Z.leb_le _ _)), (proj2 (Z.leb_le _ _)) by lia. cbn [andb].
  rewrite Hd. replace (pr_cursor r + zlen x - pr_cursor r) with (zlen x) by lia.
  unfold zlen at 1. rewrite Nat2Z.id, take_app_length. split; [done|].
  split; [cbn; lia|]. split; [done|]. cbn.
  rewrite Z2Nat.inj_add by lia. rewrite <-drop_drop, Hd.
  unfold zlen. by rewrite Nat2Z.id, drop_app_length.
Qed.

#[export] Instance pr_take_exact : ExactRead pr_take.
Proof.
  split.
  - intros r x rest _ Hv. destruct (pr_take_step r x rest Hv) as [E Hv']. eauto.
  - intros n r rem x r' Hn Hv Hr. pose proof Hv as (Hc & Hmax & Hd).
    unfold pr_take in Hr. destruct (checked_add _ _ _) as [e|] eqn:He; [|done].
    apply checked_add_some in He as [-> _].
    destruct (_ && _) eqn:Hb; [|done]. rewrite andb_true_iff, !Z.leb_le in Hb.
    injection Hr as <- <-. rewrite Hd.
    replace (pr_cursor r + n - pr_cursor r) with n by lia.
    pose proof (view_len _ _ Hv) as Hl.
    exists (drop (Z.to_nat n) rem). rewrite take_drop.
    split; [done|]. split; [unfold zlen in *; rewrite length_take; lia|].
    split; [cbn; lia|]. split; [done|]. cbn.
    rewrite Z2Nat.inj_add by lia. by rewrite <-drop_drop, Hd.
Qed.

Lemma consumes_array n x : zlen x = n -> n <= USIZE_MAX -> consumes (pr_array n) x x.
Proof. apply (consumes_take pr_take). Qed.

Lemma consumes_u8 v : 0 <= v < 256 -> consumes pr_u8 (be_bytes 1 v) v.
Proof. intros. by apply (consumes_read_be pr_take). Qed.
Lemma consumes_u16 v : is_u16 v -> consumes pr_u16 (be16 v) v.
Proof. intros. by apply (consumes_read_be pr_take), is_u16_range. Qed.
Lemma consumes_u32 v : is_u32 v -> consumes pr_u32 (be32 v) v.
Proof. intros. by apply (consumes_read_be pr_take), is_u32_range. Qed.
Lemma consumes_u64 v : is_u64 v -> consumes pr_u64 (be64 v) v.
Proof. intros. by apply (consumes_read_be pr_take), is_u64_range. Qed.

Lemma consumes_i32 v : is_i32 v -> consumes pr_i32 (be_i32 v) v.
Proof.
  intros Hv. unfold pr_i32. eapply consumes_last; [by apply consumes_array|].
  rewrite of_be_i32_be by done. apply consumes_ret.
Qed.

Lemma consumes_string field lo hi v :
  hi <= U16_MAX -> text_ok lo hi v -> wf_str v ->
  consumes (pr_string_u16 field lo hi) (str16 v) v.
Proof.
  intros Hhi Ht Hu. pose proof Ht as (Hlen & _). pose proof (zlen_nonneg v).
  unfold pr_string_u16, str16.
  eapply consumes_bind; [apply consumes_u16; unfold is_u16; lia|].
  apply consumes_check; [by apply validate_range_ok|].
  eapply consumes_last.
  { apply (consumes_take pr_take); [done|]. unfold U16_MAX, USIZE_MAX, U64_MAX in *. lia. }
  apply consumes_check; [by apply ensure_ok|].
  apply consumes_check; [by apply validate_text_ok|]. apply consumes_ret.
Qed.

Lemma consumes_bytes32 field lo hi b :
  hi <= U32_MAX -> lo <= zlen b <= hi -> consumes (pr_bytes_u32 field lo hi) (bytes32 b) b.
Proof.
  intros Hhi Hb. pose proof (zlen_nonneg b). unfold pr_bytes_u32, bytes32.
  eapply consumes_bind; [apply consumes_u32; unfold is_u32; lia|].
  apply consumes_check; [by apply validate_range_ok|].
  apply (consumes_take pr_take); [done|]. unfold U32_MAX, USIZE_MAX, U64_MAX in *. lia.
Qed.

Lemma consumes_env v :
  env_ok v -> wf_str (env_name v) /\ wf_str (env_value v) ->
  consumes decode_env_entry (env_bytes v) v.
Proof.
  intros (Hn & Hv & Heq) (Un & Uv). unfold decode_env_entry, env_bytes.
  eapply consumes_bind; [by apply consumes_string|].
  apply consumes_check; [by rewrite Heq|].
  eapply consumes_last; [by apply consumes_string|].
  destruct v. apply consumes_ret.
Qed.

#[export] Hint Resolve consumes_array consumes_u8 consumes_u16 consumes_u32 consumes_u64
  consumes_i32 consumes_string consumes_bytes32 consumes_env consumes_ret : serctl.

Lemma consumes_opt {A} (p : payload_reader A) (enc : A -> bytes) (o : option A) field :
  match o with Some a => consumes p (enc a) a | None => True end ->
  consumes (do present <- pr_u8 ;;
            match present with
            | 0 => ret None
            | 1 => do d <- p ;; ret (Some d)
            | _ => lift (Err (InvalidValue field))
            end) (opt_bytes enc o) o.
Proof.
  intros Ho. destruct o as [a|]; cbn [opt_bytes].
  - eapply consumes_bind; [by apply consumes_u8|]. cbn.
    eapply consumes_last; [done|]. apply consumes_ret.
  - eapply consumes_last; [by apply consumes_u8|]. cbn. apply consumes_ret.
Qed.

(** Reassociating a bind, to use [consumes_opt] inside a decoder. *)
Lemma consumes_assoc {A B C} (p : payload_reader A) (q : A -> payload_reader B)
    (k : B -> payload_reader C) bs c :
  consumes (bind (bind p q) k) bs c -> consumes (bind p (fun a => bind (q a) k)) bs c.
Proof.
  intros Hc s rest Hv. destruct (Hc s rest Hv) as (s' & E & Hv'). exists s'.
  split; [|done]. rewrite <-E. unfold bind. by destruct (p s) as [[a s1]|].
Qed.

(** A field, and then the rest of the message. *)
Ltac field :=
  lazymatch goal with
  | |- consumes (pr_array _) _ _ => apply consumes_array; [assumption | done]
  | |- consumes pr_u8 _ _ => apply consumes_u8; assumption
  | |- consumes pr_u32 _ _ => apply consumes_u32; assumption
  | |- consumes pr_u64 _ _ => apply consumes_u64; assumption
  | |- consumes pr_i32 _ _ => apply consumes_i32; assumption
  | |- consumes (pr_string_u16 _ _ _) _ _ => apply consumes_string; [done | assumption..]
  | |- consumes (pr_bytes_u32 _ _ _) _ _ => apply consumes_bytes32; [done | assumption..]
  end.
Ltac next_field := eapply consumes_bind; [field|].
Ltac last_field := eapply consumes_last; [field|].

Lemma consumes_start s :
  wf_start s -> start_ok s -> consumes decode_start (start_bytes s) s.
Proof.
  intros [] Hok. pose proof Hok as []. unfold decode_start, start_bytes, pr_job_id.
  pose proof (zlen_nonneg (argv s)). pose proof (zlen_nonneg (env s)).
  do 11 next_field.
  eapply consumes_bind; [apply consumes_u16; unfold is_u16, MAX_ARG_COUNT, U16_MAX in *; lia|].
  apply consumes_check; [by apply if_err_ok; rewrite Z.ltb_ge|].
  eapply consumes_bind.
  { unfold zlen. rewrite Nat2Z.id. apply consumes_repeat.
    rewrite Forall_forall in *. intros a Ha; apply consumes_string; auto; done. }
  apply consumes_check; [by apply if_err_ok; rewrite Z.ltb_ge|].
  eapply consumes_bind; [apply consumes_u16; unfold is_u16, MAX_ENV_COUNT, U16_MAX in *; lia|].
  apply consumes_check; [by apply if_err_ok; rewrite Z.ltb_ge|].
  eapply consumes_bind.
  { unfold zlen. rewrite Nat2Z.id. apply consumes_repeat.
    rewrite Forall_forall in *. auto with serctl. }
  apply consumes_check; [by apply if_err_ok; rewrite Z.ltb_ge|].
  apply consumes_assoc. eapply consumes_bind.
  { apply consumes_opt. destruct (cwd s); [|done]. by apply consumes_string. }
  do 1 next_field. last_field.
  apply consumes_check; [apply validate_start_ok; by destruct s|]. destruct s. apply consumes_ret.
Qed.

Lemma drains_remaining m b :
  zlen b <= m -> drains (pr_remaining_bounded m) b b.
Proof.
  intros Hm r Hv. pose proof (view_len _ _ Hv) as Hl. pose proof (zlen_nonneg b).
  unfold pr_remaining_bounded, saturating_sub. rewrite Z.max_r by lia.
  rewrite <-Hl, (proj2 (validate_range_ok _ _ _ _ tt)) by lia.
  rewrite <-(app_nil_r b) in Hv. destruct (pr_take_step r b [] Hv) as [-> Hv']. eauto.
Qed.

Lemma consumes_exit e :
  zlen (exit_job_id e) = 16 -> wf_outcome (outcome e) -> is_u64 (completed_unix_ms e) ->
  consumes decode_exit (exit_job_id e ++ outcome_bytes (outcome e) ++ be64 (completed_unix_ms e)) e.
Proof.
  intros Hj Ho Hc. unfold decode_exit, pr_job_id. next_field.
  destruct e as [j [code| |] t];
    cbn [exit_job_id outcome completed_unix_ms wf_outcome outcome_bytes] in *;
    rewrite <-?app_assoc;
    (eapply consumes_bind; [by apply consumes_u8|]);
    (eapply consumes_bind; [by apply consumes_i32|]);
    (eapply consumes_lift; [done|]); last_field; apply consumes_ret.
Qed.

Lemma consumes_error e : wf_frame (Error e) -> frame_ok (Error e) ->
  consumes decode_error (payload_bytes (Error e)) e.
Proof.
  intros (Hj & Uc & Um) (Tc & Tm). cbn [payload_bytes]. unfold decode_error, pr_job_id.
  apply consumes_assoc. eapply consumes_bind.
  { apply consumes_opt. destruct (error_job_id e); [|done]. by apply consumes_array. }
  do 2 next_field. destruct e as [j c m []]; cbn [retryable];
    (eapply consumes_last; [by apply consumes_u8|]);
    (eapply consumes_lift; [done|]); apply consumes_ret.
Qed.

Lemma consumes_query q : wf_frame (QueryReceipt q) -> query_ok q ->
  consumes decode_query_receipt (payload_bytes (QueryReceipt q)) q.
Proof.
  intros (? & ? & ? & ? & ? & ?) Hok. pose proof Hok as [].
  cbn [payload_bytes]. unfold decode_query_receipt, pr_job_id.
  do 3 next_field. apply consumes_check; [by apply if_err_ok; rewrite Z.eqb_neq|].
  do 2 next_field. last_field.
  apply consumes_check; [apply validate_query_receipt_ok; by destruct q|].
  destruct q. apply consumes_ret.
Qed.

Lemma drains_output o : zlen (output_job_id o) = 16 -> is_u64 (output_offset o) ->
  zlen (output_data o) <= MAX_OUTPUT_CHUNK ->
  drains decode_output (output_job_id o ++ be64 (output_offset o) ++ output_data o) o.
Proof.
  intros. unfold decode_output, pr_job_id.
  do 2 (eapply drains_bind; [field|]).
  destruct o as [j n d]; cbn in *.
  apply (drains_map _ (fun d => {| output_job_id := j; output_offset := n; output_data := d |})).
  by apply drains_remaining.
Qed.

Lemma drains_frame f : wf_frame f -> frame_ok f ->
  drains (decode_frame (kind f)) (payload_bytes f) f.
Proof.
  intros Hwf Hok.
  destruct f as [h|s|o|o|h|c|e|r|e|q]; cbn [kind decode_frame].
  - apply consumes_drains. destruct Hwf as (? & ? & ?). destruct Hok as (? & ?).
    unfold decode_hello. cbn [payload_bytes]. do 2 next_field.
    apply consumes_check; [apply if_err_ok; rewrite orb_false_iff, Z.eqb_neq, Z.ltb_ge; naive_solver lia|].
    apply consumes_check; [by apply if_err_ok; rewrite negb_false_iff, Z.eqb_eq|].
    last_field. destruct h. apply consumes_ret.
  - apply drains_map, consumes_drains. by apply consumes_start.
  - destruct Hwf. by apply drains_map, drains_output.
  - destruct Hwf. by apply drains_map, drains_output.
  - apply drains_map, consumes_drains. destruct Hwf as (? & ? & ? & ? & ?).
    unfold decode_heartbeat, pr_job_id. cbn [payload_bytes]. do 4 next_field. last_field.
    destruct h. apply consumes_ret.
  - apply consumes_drains. destruct Hwf as (? & ?). unfold pr_job_id. cbn [payload_bytes] in *.
    next_field. last_field. destruct c. apply consumes_ret.
  - destruct Hwf as (? & ? & ?). by apply drains_map, consumes_drains, consumes_exit.
  - apply consumes_drains. unfold pr_job_id. cbn [payload_bytes wf_frame frame_ok] in *.
    next_field. last_field. destruct r. apply consumes_ret.
  - by apply drains_map, consumes_drains, consumes_error.
  - by apply drains_map, consumes_drains, consumes_query.
Qed.

(** ** What a decoder accepts *)

#[local] Instance Parses_array n `{!TCEq (0 <=? n) true} :
  Parses (pr_array n) (fun x => x) (fun x => zlen x = n).
Proof. unfold pr_array. apply _. Qed.
#[local] Instance Parses_u8 : Parses pr_u8 (be_bytes 1) (fun v => 0 <= v < 256).
Proof. apply (parses_read_be pr_take 1). Qed.
#[local] Instance Parses_u16 : Parses pr_u16 be16 is_u16.
Proof.
  intros s rem v s' Hv Hp. rewrite is_u16_range. by apply (parses_read_be pr_take 2 s).
Qed.
#[local] Instance Parses_u32 : Parses pr_u32 be32 is_u32.
Proof.
  intros s rem v s' Hv Hp. rewrite is_u32_range. by apply (parses_read_be pr_take 4 s).
Qed.
#[local] Instance Parses_u64 : Parses pr_u64 be64 is_u64.
Proof.
  intros s rem v s' Hv Hp. rewrite is_u64_range. by apply (parses_read_be pr_take 8 s).
Qed.

#[local] Instance Parses_i32 : Parses pr_i32 be_i32 is_i32.
Proof.
  intros s rem v s' Hv Hp. unfold pr_i32 in Hp. inv_read. parse_next.
  apply (zlen_length x 4) in Hok. split; [by apply of_be_i32_range|].
  exists rest. by rewrite be_i32_of_be.
Qed.

#[local] Instance Parses_bytes32 field lo hi :
  Parses (pr_bytes_u32 field lo hi) bytes32 (fun b => lo <= zlen b <= hi).
Proof.
  intros s rem b s' Hv Hp. unfold pr_bytes_u32 in Hp. inv_read. parse_next.
  apply validate_range_ok in Hl. destruct Hok as [H0 _].
  destruct (parses_take pr_take x H0 _ _ _ _ Hview Hp) as (Hb & r & -> & Hv').
  subst x. split; [done|]. exists r. unfold bytes32. by rewrite <-app_assoc.
Qed.

#[local] Instance Parses_string field lo hi :
  Parses (pr_string_u16 field lo hi) str16 (fun v => text_ok lo hi v /\ wf_str v).
Proof.
  intros s rem v s' Hv Hp. unfold pr_string_u16 in Hp. inv_read. parse_next.
  destruct Hok as [H0 _]. apply ensure_ok in Hl0. apply validate_text_ok in Hl.
  destruct (parses_take pr_take x H0 _ _ _ _ Hview Hp2) as (Hb & r & -> & Hv').
  subst x. split; [done|]. exists r. unfold str16. by rewrite <-app_assoc.
Qed.

#[local] Instance Parses_env :
  Parses decode_env_entry env_bytes
    (fun v => env_ok v /\ wf_str (env_name v) /\ wf_str (env_value v)).
Proof.
  intros s rem v s' Hv Hp. unfold decode_env_entry in Hp. inv_read. do 2 parse_next.
  apply if_err_ok in Hl as [Heq _].
  split; [unfold env_ok; cbn; tauto|]. exists rest0. unfold env_bytes; cbn.
  by rewrite <-app_assoc.
Qed.

#[local] Instance Parses_repeat {A} (p : payload_reader A) enc ok n `{!Parses p enc ok} :
  Parses (repeat_reader n p) (fun l => concat (map enc l))
    (fun l => length l = n /\ Forall ok l).
Proof. by apply parses_repeat. Qed.

#[local] Instance Parses_remaining m :
  Parses (pr_remaining_bounded m) (fun b => b) (fun b => zlen b <= m).
Proof.
  intros r rem b r' Hv Hp. pose proof (view_len _ _ Hv). pose proof (zlen_nonneg rem).
  unfold pr_remaining_bounded, saturating_sub in Hp. rewrite Z.max_r in Hp by lia.
  destruct (validate_range _ _ _ _) eqn:Hr; [|done]. apply validate_range_ok in Hr.
  destruct (parses_take pr_take _ (proj1 Hr) _ _ _ _ Hv Hp) as (Hb & rest & -> & Hv').
  split; [lia|]. eauto.
Qed.

(** Reading an optional field, after its presence byte. *)
Lemma parses_opt {A} (p : payload_reader A) enc ok `{!Parses p enc ok} field n s rem o s' :
  view s rem ->
  match n with
  | 0 => ret None
  | 1 => do d <- p ;; ret (Some d)
  | _ => lift (Err (InvalidValue field))
  end s = Ok (o, s') ->
  match o with Some a => ok a | None => True end /\
  exists rest, be_bytes 1 n ++ rem = opt_bytes enc o ++ rest /\ view s' rest.
Proof.
  intros Hv Hp. destruct n as [|[]|]; try (by apply lift_ok in Hp as [? _]); inv_read.
  - split; [done|]. by exists rem.
  - parse_next. split; [done|]. exists rest. cbn [opt_bytes]. by rewrite <-app_assoc.
Qed.

(** Advance over the optional field of [parses_opt]. *)
Ltac parse_opt :=
  match goal with
  | Hv : view ?s ?rem, Hp : _ ?s = Ok (_, _) |- _ =>
      let Hok := fresh "Hok" in let rest := fresh "rest" in
      let Hr := fresh "Hr" in let Hv' := fresh "Hview" in
      destruct (parses_opt _ _ _ _ _ s rem _ _ Hv Hp) as (Hok & rest & Hr & Hv');
      rewrite Hr; clear Hr Hv Hp
  end.

Lemma count_len {A} n (l : list A) : 0 <= n -> length l = Z.to_nat n -> n = zlen l.
Proof. unfold zlen. lia. Qed.

Lemma parses_start : parses decode_start start_bytes (fun s => wf_start s /\ start_ok s).
Proof.
  intros s rem a s' Hv Hp. unfold decode_start, pr_job_id in Hp. inv_read.
  match goal with H : validate_start _ = _ |- _ => apply validate_start_ok in H as Hok end.
  do 16 parse_next. parse_opt. do 2 parse_next.
  destruct Hok11 as [Hc _], Hok12 as [El Hargs], Hok13 as [Hc' _], Hok14 as [El' Hvars].
  apply count_len in El as ->; [|done]. apply count_len in El' as ->; [|done].
  split.
  - split; [|done]. constructor; cbn [start_job_id start_profile_id start_profile_generation
      start_policy_digest start_input_digest remote_deadline_unix_ms relay_deadline_unix_ms
      result_retention_unix_ms run_as_uid max_output_bytes program argv env cwd
      start_receipt_token]; try assumption.
    + apply Hok10.
    + eapply Forall_impl; [exact Hargs|]. by intros ? [].
    + eapply Forall_impl; [exact Hvars|]. by intros ? [].
    + by destruct x19 as [d|]; [destruct Hok16|].
  - exists rest. split; [|done]. unfold start_bytes.
    cbn [start_job_id start_profile_id start_profile_generation
      start_policy_digest start_input_digest remote_deadline_unix_ms relay_deadline_unix_ms
      result_retention_unix_ms run_as_uid max_output_bytes program argv env cwd policy_json
      start_receipt_token]. by rewrite <-!app_assoc.
Qed.

Lemma parses_output :
  parses decode_output (fun o => output_job_id o ++ be64 (output_offset o) ++ output_data o)
    (fun o => (zlen (output_job_id o) = 16 /\ is_u64 (output_offset o)) /\
              zlen (output_data o) <= MAX_OUTPUT_CHUNK).
Proof.
  intros s rem a s' Hv Hp. unfold decode_output, pr_job_id in Hp. inv_read. do 3 parse_next.
  split; [done|]. eexists; split; [|done]. cbn [output_job_id output_offset output_data].
  by rewrite <-!app_assoc.
Qed.

Lemma parses_exit :
  parses decode_exit
    (fun e => exit_job_id e ++ outcome_bytes (outcome e) ++ be64 (completed_unix_ms e))
    (fun e => zlen (exit_job_id e) = 16 /\ wf_outcome (outcome e) /\
              is_u64 (completed_unix_ms e)).
Proof.
  intros s rem a s' Hv Hp. unfold decode_exit, pr_job_id in Hp. inv_read. do 4 parse_next.
  assert (be_bytes 1 x0 ++ be_i32 x1 = outcome_bytes x2 /\ wf_outcome x2) as [Eo Ho].
  { destruct x0 as [|[p|[]|]|], x1 as [| |]; inv_ok; done. }
  split; [done|]. eexists; split; [|done]. cbn [exit_job_id outcome completed_unix_ms].
  by rewrite <-Eo, <-!app_assoc.
Qed.

Lemma parses_error :
  parses decode_error (fun e => payload_bytes (Error e))
    (fun e => wf_frame (Error e) /\ frame_ok (Error e)).
Proof.
  intros s rem a s' Hv Hp. unfold decode_error, pr_job_id in Hp. inv_read.
  parse_next. parse_opt. do 3 parse_next.
  assert (be_bytes 1 x3 = be_bytes 1 (if x4 then 1 else 0)) as ->.
  { destruct x3 as [|[]|]; inv_ok; done. }
  destruct Hok1, Hok2.
  split; [done|]. eexists; split; [|done]. cbn [payload_bytes error_job_id error_code error_message retryable].
  by rewrite <-!app_assoc.
Qed.

Lemma parses_query :
  parses decode_query_receipt (fun q => payload_bytes (QueryReceipt q))
    (fun q => wf_frame (QueryReceipt q) /\ query_ok q).
Proof.
  intros s rem a s' Hv Hp. unfold decode_query_receipt, pr_job_id in Hp. inv_read.
  match goal with H : validate_query_receipt _ = _ |- _ =>
    apply validate_query_receipt_ok in H as Hok end.
  do 6 parse_next. split; [done|]. eexists. split; [|done].
  cbn [payload_bytes query_job_id query_profile_id query_profile_generation
    query_policy_digest query_input_digest query_receipt_token].
  by rewrite <-!app_assoc.
Qed.

#[local] Instance Parses_start : Parses _ _ _ := parses_start.
#[local] Instance Parses_output : Parses _ _ _ := parses_output.
#[local] Instance Parses_exit : Parses _ _ _ := parses_exit.
#[local] Instance Parses_error : Parses _ _ _ := parses_error.
#[local] Instance Parses_query : Parses _ _ _ := parses_query.

Lemma parses_frame k :
  parses (decode_frame k) payload_bytes (fun f => kind f = k /\ wf_frame f /\ frame_ok f).
Proof.
  intros s rem f s' Hv Hp. destruct k; cbn [decode_frame] in Hp.
  - unfold decode_hello in Hp. inv_read. do 3 parse_next.
    apply if_err_ok in Hl as [Hm _]. apply if_err_ok in Hl0 as [Hf _].
    bool_to_prop_in Hm. bool_to_prop_in Hf.
    split; [split; [done|]; split; [done|]; cbn; unfold is_u32 in *; lia|].
    eexists; split; [|done]. cbn [payload_bytes max_frame_payload feature_bits effective_uid].
    by rewrite <-!app_assoc.
  - inv_read. parse_next. naive_solver.
  - inv_read. parse_next. naive_solver.
  - inv_read. parse_next. naive_solver.
  - unfold decode_heartbeat, pr_job_id in Hp. inv_read. do 5 parse_next.
    split; [done|]. eexists. split; [|done].
    cbn [payload_bytes heartbeat_job_id ordinal elapsed_ms stdout_bytes stderr_bytes].
    by rewrite <-!app_assoc.
  - unfold pr_job_id in Hp. inv_read. do 2 parse_next. destruct Hok0.
    split; [done|]. eexists. split; [|done]. cbn [payload_bytes cancel_job_id reason].
    by rewrite <-!app_assoc.
  - inv_read. parse_next. naive_solver.
  - unfold pr_job_id in Hp. inv_read. do 2 parse_next.
    split; [done|]. eexists. split; [|done]. cbn [payload_bytes receipt_job_id receipt_bytes].
    by rewrite <-!app_assoc.
  - inv_read. parse_next. naive_solver.
  - inv_read. parse_next. naive_solver.
Qed.

Lemma view_new p : zlen p <= USIZE_MAX -> view (reader_new p) p.
Proof. intros Hp. pose proof (zlen_nonneg p). by split; [|split]. Qed.

Lemma decode_payload_ok k p f : zlen p <= USIZE_MAX ->
  (decode_payload k p = Ok f <->
   kind f = k /\ wf_frame f /\ frame_ok f /\ p = payload_bytes f).
Proof.
  intros Hp. unfold decode_payload. split.
  - destruct (bind _ _ (reader_new p)) as [[g r]|] eqn:E; [|done]. intros [= ->]. inv_read.
    destruct (parses_frame k _ _ _ _ (view_new p Hp) Hp0) as ((? & ? & ?) & rest & -> & Hv).
    pose proof (view_len _ _ Hv) as Hl. unfold pr_finish in Hp1.
    destruct (Z.eqb_spec (pr_cursor st) (zlen (pr_bytes st))) as [Ec|]; [|done].
    rewrite Ec, Z.sub_diag in Hl. apply zlen_zero in Hl as ->. by rewrite app_nil_r.
  - intros (<- & Hwf & Hok & ->).
    destruct (drains_frame f Hwf Hok _ (view_new _ Hp)) as (r & E & Hv).
    pose proof (view_len _ _ Hv) as Hl. rewrite zlen_nil in Hl.
    unfold bind. rewrite E. unfold pr_finish.
    by rewrite (proj2 (Z.eqb_eq _ _)) by lia.
Qed.

(** ** The header *)

Definition header_bytes (k : FrameKind) (seq len : Z) : bytes :=
  MAGIC ++ be16 PROTOCOL_VERSION ++ be_bytes 1 (kind_u8 k) ++ be_bytes 1 0
  ++ be64 seq ++ be32 len.

Definition wire_bytes (e : Envelope) : bytes :=
  header_bytes (kind (frame e)) (sequence e) (zlen (payload_bytes (frame e)))
  ++ payload_bytes (frame e).

Lemma zlen_header k seq len : zlen (header_bytes k seq len) = HEADER_BYTES.
Proof. by destruct k. Qed.

Lemma encode_ok e bs : wf_envelope e ->
  (encode e = Ok bs <-> frame_ok (frame e) /\ bs = wire_bytes e).
Proof.
  intros (Hs & Hwf). unfold encode.
  rewrite (let_ok (frame_ok (frame e)) (payload_bytes (frame e)))
    by (intros a; by apply (encode_payload_ok (frame e) [])).
  assert (forall P Q R : Prop, (P -> (Q <-> R)) -> (P /\ Q <-> P /\ R)) as Hand by tauto.
  apply Hand. intros Hok. pose proof (payload_size_ok _ Hwf Hok) as Hsz.
  rewrite seq_ok, rbind_ok. setoid_rewrite ok_or_ok. setoid_rewrite try_from_max_some.
  apply validate_payload_size_max in Hsz as Hmax.
  assert (MAX_FRAME_PAYLOAD <= U32_MAX) by done. unfold wire_bytes, header_bytes.
  rewrite <-!app_assoc. split.
  - intros (_ & len & (-> & _) & [= <-]). by destruct (kind (frame e)).
  - intros ->. split; [done|]. eexists. split; [split; [done|lia]|].
    by destruct (kind (frame e)).
Qed.

Lemma zlen_four {A} (l : list A) : zlen l = 4 -> exists a b c d, l = [a; b; c; d].
Proof.
  unfold zlen. intros H. destruct l as [|a [|b [|c [|d [|]]]]]; cbn in H; try lia. eauto.
Qed.
Lemma zlen_two {A} (l : list A) : zlen l = 2 -> exists a b, l = [a; b].
Proof. unfold zlen. intros H. destruct l as [|a [|b [|]]]; cbn in H; try lia. eauto. Qed.
Lemma zlen_one {A} (l : list A) : zlen l = 1 -> exists a, l = [a].
Proof. unfold zlen. intros H. destruct l as [|a [|]]; cbn in H; try lia. eauto. Qed.
Lemma zlen_split {A} (l : list A) n : 0 <= n <= zlen l ->
  exists a b, l = a ++ b /\ zlen a = n /\ zlen b = zlen l - n.
Proof.
  intros H. exists (take (Z.to_nat n) l), (drop (Z.to_nat n) l). rewrite take_drop.
  unfold zlen in *. rewrite length_take, length_drop. split; [done|lia].
Qed.
Lemma zlen_eight {A} (l : list A) : zlen l = 8 ->
  exists a b c d e f g h, l = [a; b; c; d; e; f; g; h].
Proof.
  intros H. destruct (zlen_split l 4) as (x & y & -> & Hx & Hy); [lia|].
  rewrite H in Hy. apply zlen_four in Hx as (? & ? & ? & ? & ->).
  apply zlen_four in Hy as (? & ? & ? & ? & ->). eauto 12.
Qed.

(** A message of at least a header, by the fields of the header. *)
Record header_fields := {
  h_magic : bytes; h_version : bytes; h_kind : bytes; h_flags : bytes;
  h_sequence : bytes; h_length : bytes;
}.

Definition header_raw (h : header_fields) : bytes :=
  h_magic h ++ h_version h ++ h_kind h ++ h_flags h ++ h_sequence h ++ h_length h.

Definition header_wf (h : header_fields) : Prop :=
  zlen (h_magic h) = 4 /\ zlen (h_version h) = 2 /\ zlen (h_kind h) = 1 /\
  zlen (h_flags h) = 1 /\ zlen (h_sequence h) = 8 /\ zlen (h_length h) = 4.

Lemma header_split b : HEADER_BYTES <= zlen b ->
  exists h p, b = header_raw h ++ p /\ header_wf h.
Proof.
  unfold HEADER_BYTES. intros H.
  destruct (zlen_split b 4) as (m & b1 & -> & Hm & L1); [lia|].
  destruct (zlen_split b1 2) as (v & b2 & -> & Hv & L2); [lia|].
  destruct (zlen_split b2 1) as (k & b3 & -> & Hk & L3); [lia|].
  destruct (zlen_split b3 1) as (f & b4 & -> & Hf & L4); [lia|].
  destruct (zlen_split b4 8) as (s & b5 & -> & Hs & L5); [lia|].
  destruct (zlen_split b5 4) as (l & p & -> & Hl & L6); [lia|].
  exists {| h_magic := m; h_version := v; h_kind := k; h_flags := f; h_sequence := s;
            h_length := l |}, p.
  split; [|done]. unfold header_raw; cbn [h_magic h_version h_kind h_flags h_sequence h_length].
  by rewrite <-!app_assoc.
Qed.

Lemma header_slices h p : header_wf h ->
  let b := header_raw h ++ p in
  slice b 0 4 = h_magic h /\ slice b 4 6 = h_version h /\ slice b 6 7 = h_kind h /\
  slice b 7 8 = h_flags h /\ slice b 8 16 = h_sequence h /\ slice b 16 20 = h_length h /\
  drop (Z.to_nat HEADER_BYTES) b = p /\ zlen b = HEADER_BYTES + zlen p.
Proof.
  destruct h as [m v k f s l]. intros (Hm & Hv & Hk & Hf & Hs & Hl).
  cbn [h_magic h_version h_kind h_flags h_sequence h_length] in *.
  apply zlen_four in Hm as (? & ? & ? & ? & ->). apply zlen_two in Hv as (? & ? & ->).
  apply zlen_one in Hk as (? & ->). apply zlen_one in Hf as (? & ->).
  apply zlen_eight in Hs as (? & ? & ? & ? & ? & ? & ? & ? & ->).
  apply zlen_four in Hl as (? & ? & ? & ? & ->).
  unfold header_raw; cbn [h_magic h_version h_kind h_flags h_sequence h_length app].
  cbv zeta. autorewrite with zlen. repeat split. unfold HEADER_BYTES. lia.
Qed.

(** The checks on a header, common to [decode_exact] and [read_frame_from]. *)
Definition header_ok (h : header_fields) (k : FrameKind) : Prop :=
  h_magic h = MAGIC /\ of_be (h_version h) = PROTOCOL_VERSION /\
  kind_try_from (of_be (h_kind h)) = Ok k /\ of_be (h_flags h) = 0 /\
  validate_payload_size k (of_be (h_length h)) = Ok tt.

Lemma kind_try_from_ok n k : kind_try_from n = Ok k <-> n = kind_u8 k.
Proof.
  split.
  - destruct n as [|p|]; [done| |done].
    repeat (destruct p as [p|p|]; try done; try (cbn; by intros [= <-])).
  - intros ->. by destruct k.
Qed.

Lemma header_raw_exact h k : header_wf h ->
  header_ok h k -> header_raw h = header_bytes k (of_be (h_sequence h)) (of_be (h_length h)).
Proof.
  intros (Hm & Hv & Hk & Hf & Hs & Hl) (Em & Ev & Ek & Ef & _).
  unfold header_raw, header_bytes. apply kind_try_from_ok in Ek. rewrite Em, <-Ev, <-Ek, <-Ef.
  unfold be16, be32, be64. by rewrite !be_bytes_of_be_n by by apply zlen_length.
Qed.

Lemma decode_exact_sound b e :
  decode_exact b = Ok e -> wf_envelope e /\ frame_ok (frame e) /\ b = wire_bytes e.
Proof.
  assert (MAX_FRAME_PAYLOAD + HEADER_BYTES <= USIZE_MAX) as Hfit by done.
  unfold decode_exact. rewrite if_err_ok, Z.ltb_ge.
  intros (Hlen & H). destruct (header_split b Hlen) as (h & p & -> & Hh).
  destruct (header_slices h p Hh) as (Em & Ev & Ek & Ef & Es & El & Ep & Hz).
  rewrite Em, Ev, Ek, Ef, Es, El, Ep, Hz in H.
  rewrite !if_err_ok in H. destruct H as (Hm & Hv & H).
  apply rbind_ok in H as (k & Hk & H). rewrite if_err_ok, seq_ok in H.
  destruct H as (Hf & Hsz & H). checks. apply checked_add_some in Hr as [-> _].
  rewrite !if_err_ok in H. destruct H as (_ & Hn & H). checks.
  apply Z.add_cancel_l in Hn. apply validate_payload_size_max in Hsz as Hmax.
  apply decode_payload_ok in Hr as (Hkf & Hwf & Hok & ->);
    [|unfold HEADER_BYTES in Hfit; lia].
  assert (header_ok h k) as Ho by done. apply header_raw_exact in Ho; [|done].
  destruct Hh as (_ & _ & _ & _ & Hs & _). split; [split; [|done]|split; [done|]].
  - cbn. apply is_u64_range. pose proof (of_be_range (h_sequence h)) as Hrg.
    by rewrite Hs in Hrg.
  - unfold wire_bytes. cbn [frame sequence]. by rewrite Ho, Hn, Hkf.
Qed.

(** The header an envelope is sent with. *)
Definition header_of (e : Envelope) : header_fields :=
  {| h_magic := MAGIC; h_version := be16 PROTOCOL_VERSION;
     h_kind := be_bytes 1 (kind_u8 (kind (frame e))); h_flags := be_bytes 1 0;
     h_sequence := be64 (sequence e);
     h_length := be32 (zlen (payload_bytes (frame e))) |}.

Lemma wire_bytes_header e : wire_bytes e = header_raw (header_of e) ++ payload_bytes (frame e).
Proof. done. Qed.

Lemma header_of_wf e : header_wf (header_of e).
Proof. unfold header_wf, header_of. cbn [h_magic h_version h_kind h_flags h_sequence h_length].
  unfold be16, be32, be64. by rewrite !zlen_be_bytes. Qed.

Lemma header_of_values e : wf_envelope e -> frame_ok (frame e) ->
  of_be (h_version (header_of e)) = PROTOCOL_VERSION /\
  of_be (h_kind (header_of e)) = kind_u8 (kind (frame e)) /\
  of_be (h_flags (header_of e)) = 0 /\ of_be (h_sequence (header_of e)) = sequence e /\
  of_be (h_length (header_of e)) = zlen (payload_bytes (frame e)).
Proof.
  intros (Hs & Hwf) Hok. pose proof (payload_size_ok _ Hwf Hok) as Hmax%validate_payload_size_max.
  pose proof (zlen_nonneg (payload_bytes (frame e))).
  split_and!; apply of_be_be_bytes_small.
  - done.
  - by destruct (kind (frame e)).
  - done.
  - by apply is_u64_range.
  - apply is_u32_range. unfold is_u32, MAX_FRAME_PAYLOAD, U32_MAX in *. lia.
Qed.

Lemma decode_exact_complete e : wf_envelope e -> frame_ok (frame e) ->
  decode_exact (wire_bytes e) = Ok e.
Proof.
  intros Hwf Hok. assert (MAX_FRAME_PAYLOAD + HEADER_BYTES <= USIZE_MAX) as Hfit by done.
  destruct (header_of_values e Hwf Hok) as (Vv & Vk & Vf & Vs & Vl).
  pose proof (payload_size_ok _ (proj2 Hwf) Hok) as Hsz.
  apply validate_payload_size_max in Hsz as Hmax. rewrite wire_bytes_header.
  destruct (header_slices _ (payload_bytes (frame e)) (header_of_wf e))
    as (Em & Ev & Ek & Ef & Es & El & Ep & Hz).
  unfold decode_exact. rewrite Em, Ev, Ek, Ef, Es, El, Ep, Hz, Vv, Vk, Vf, Vs, Vl.
  pose proof (zlen_nonneg (payload_bytes (frame e))) as H0.
  rewrite (proj2 (Z.ltb_ge _ _)) by lia.
  rewrite bool_decide_true by done. cbn [negb Z.eqb Pos.eqb PROTOCOL_VERSION].
  rewrite (proj2 (kind_try_from_ok _ (kind (frame e))) eq_refl). cbn [rbind].
  rewrite Hsz. cbn [rbind]. unfold checked_add.
  rewrite (proj2 (Z.leb_le _ _)) by lia. cbn [rbind ok_or]. rewrite Z.ltb_irrefl, Z.eqb_refl.
  destruct Hwf as [_ Hwf].
  assert (zlen (payload_bytes (frame e)) <= USIZE_MAX) as Hp by (unfold HEADER_BYTES in *; lia).
  rewrite (proj2 (decode_payload_ok _ _ (frame e) Hp)) by done.
  by destruct e.
Qed.

(** ** Streams *)

Lemma read_exact_app n x rest : zlen x = n -> read_exact n (x ++ rest) = Ok (x, rest).
Proof.
  intros <-. unfold read_exact, slice_read_exact. rewrite zlen_app.
  rewrite (proj2 (Z.leb_le _ _)) by (pose proof (zlen_nonneg rest); lia).
  unfold zlen. by rewrite Nat2Z.id, take_app_length, drop_app_length.
Qed.

Lemma read_frame_body_wire e rest : wf_envelope e -> frame_ok (frame e) ->
  read_frame_body (wire_bytes e ++ rest) = Ok (Some e, rest).
Proof.
  intros Hwf Hok. pose proof (decode_exact_complete e Hwf Hok) as Hd.
  destruct (header_of_values e Hwf Hok) as (Vv & Vk & Vf & _ & Vl).
  pose proof (payload_size_ok _ (proj2 Hwf) Hok) as Hsz.
  rewrite wire_bytes_header in *. rewrite <-app_assoc.
  pose proof (header_slices _ [] (header_of_wf e)) as Hsl. cbv zeta in Hsl.
  rewrite app_nil_r in Hsl. destruct Hsl as (Em & Ev & Ek & Ef & _ & El & _ & Hz).
  unfold read_frame_body, bind. rewrite read_exact_app by (rewrite Hz; reflexivity).
  rewrite Em, Ev, Ek, Ef, El, Vv, Vk, Vf, Vl, bool_decide_true by done.
  cbn [negb Z.eqb Pos.eqb PROTOCOL_VERSION lift].
  rewrite (proj2 (kind_try_from_ok _ (kind (frame e))) eq_refl). cbn [lift].
  rewrite Hsz. cbn [lift]. rewrite read_exact_app by done. by rewrite Hd.
Qed.

Lemma wire_bytes_cons e : exists b l, wire_bytes e = b :: l.
Proof. by do 2 eexists. Qed.

Lemma monotone_remote_frame_body : monotone read_frame_body.
Proof. unfold read_frame_body, read_exact. auto 20 with monotone. Qed.

(** Everything a stream of frames decodes to, until its end. *)
Fixpoint read_frames (fuel : nat) (s : bytes) : result ProtocolError (list Envelope) :=
  match fuel with
  | O => Err Io
  | S fuel' =>
      match read_frame_from s with
      | Err e => Err e
      | Ok (None, _) => Ok []
      | Ok (Some e, s') => let* es := read_frames fuel' s' in Ok (e :: es)
      end
  end.

(** ** The Start digest *)

Definition str64 (b : bytes) : bytes := be64 (zlen b) ++ b.
Definition env64 (v : EnvEntry) : bytes := str64 (env_name v) ++ str64 (env_value v).

Lemma fold_hash_prefixed l h :
  fold_left hash_length_prefixed l h = h ++ concat (map str64 l).
Proof.
  revert h; induction l as [|a l IH]; intros h; cbn [fold_left map concat].
  - by rewrite app_nil_r.
  - rewrite IH. unfold hash_length_prefixed, str64. by rewrite <-!app_assoc.
Qed.

Lemma fold_hash_env l h :
  fold_left (fun h v => hash_length_prefixed (hash_length_prefixed h (env_name v))
                          (env_value v)) l h = h ++ concat (map env64 l).
Proof.
  revert h; induction l as [|a l IH]; intros h; cbn [fold_left map concat].
  - by rewrite app_nil_r.
  - rewrite IH. unfold hash_length_prefixed, env64, str64. by rewrite <-!app_assoc.
Qed.

Lemma start_input_message_eq s : start_input_message s =
  START_DOMAIN ++ start_job_id s ++ start_profile_id s ++ be64 (start_profile_generation s)
  ++ start_policy_digest s ++ be64 (remote_deadline_unix_ms s)
  ++ be64 (relay_deadline_unix_ms s) ++ be64 (result_retention_unix_ms s)
  ++ be32 (run_as_uid s) ++ be64 (max_output_bytes s) ++ str64 (program s)
  ++ be64 (zlen (argv s)) ++ concat (map str64 (argv s))
  ++ be64 (zlen (env s)) ++ concat (map env64 (env s))
  ++ opt_bytes str64 (cwd s).
Proof.
  unfold start_input_message. rewrite fold_hash_prefixed, fold_hash_env.
  unfold hash_length_prefixed, str64 at 1.
  destruct (cwd s); cbn [opt_bytes]; unfold str64; by rewrite <-!app_assoc.
Qed.

(** Encodings that tell where they end: two messages that start with the
    encodings of two values start with the same value. *)
Definition self_delimiting {A} (enc : A -> bytes) (ok : A -> Prop) : Prop :=
  forall a b x y, ok a -> ok b -> enc a ++ x = enc b ++ y -> a = b /\ x = y.

Lemma delimit_fixed n : self_delimiting (fun b : bytes => b) (fun b => zlen b = n).
Proof. intros a b x y <- Hb E. apply app_inv_length in E; [done|]. unfold zlen in Hb. lia. Qed.

Lemma delimit_be n : self_delimiting (be_bytes n) (fun v => 0 <= v < 2 ^ (8 * Z.of_nat n)).
Proof.
  intros a b x y Ha Hb E. apply app_inv_length in E as [E ->]; [|by rewrite !length_be_bytes].
  apply (f_equal of_be) in E. by rewrite !of_be_be_bytes_small in E.
Qed.

Lemma delimit_u64 : self_delimiting be64 is_u64.
Proof. intros a b x y. rewrite !is_u64_range. apply (delimit_be 8). Qed.

Lemma delimit_u32 : self_delimiting be32 is_u32.
Proof. intros a b x y. rewrite !is_u32_range. apply (delimit_be 4). Qed.

Lemma delimit_str64 : self_delimiting str64 (fun b => zlen b <= U64_MAX).
Proof.
  intros a b x y Ha Hb E. unfold str64 in E. rewrite <-!app_assoc in E.
  pose proof (zlen_nonneg a). pose proof (zlen_nonneg b).
  apply delimit_u64 in E as [El E]; [|by split..].
  apply app_inv_length in E; [done|]. unfold zlen in El. lia.
Qed.

Lemma delimit_env64 : self_delimiting env64
  (fun v => zlen (env_name v) <= U64_MAX /\ zlen (env_value v) <= U64_MAX).
Proof.
  intros [n v] [n' v'] x y [] [] E. unfold env64 in E. cbn [env_name env_value] in *.
  rewrite <-!app_assoc in E. apply delimit_str64 in E as [-> E]; [|done..].
  apply delimit_str64 in E as [-> ->]; done.
Qed.

Lemma delimit_list {A} (enc : A -> bytes) ok : self_delimiting enc ok ->
  self_delimiting (fun l => be64 (zlen l) ++ concat (map enc l))
    (fun l => zlen l <= U64_MAX /\ Forall ok l).
Proof.
  intros He a b x y [Ha Fa] [Hb Fb] E. rewrite <-!app_assoc in E.
  pose proof (zlen_nonneg a). pose proof (zlen_nonneg b).
  apply delimit_u64 in E as [El E]; [|by split..]. clear Ha Hb H H0.
  revert b Fb El E; induction Fa as [|u a Hu Fa IH]; intros [|v b] Fb El E;
    rewrite ?zlen_nil, ?zlen_cons in El; cbn [map concat] in E.
  - done.
  - pose proof (zlen_nonneg b). lia.
  - pose proof (zlen_nonneg a). lia.
  - rewrite <-!app_assoc in E. apply Forall_cons in Fb as [Hv Fb].
    apply He in E as [-> E]; [|done..]. destruct (IH b Fb ltac:(lia) E) as [-> ->]. done.
Qed.

Lemma delimit_opt {A} (enc : A -> bytes) ok : self_delimiting enc ok ->
  self_delimiting (opt_bytes enc) (fun o => match o with Some a => ok a | None => True end).
Proof.
  intros He [a|] [b|] x y Ha Hb E; cbn [opt_bytes] in E; rewrite <-?app_assoc in E; try done.
  - apply app_inv_length in E as [_ E]; [|done]. by apply He in E as [-> ->].
  - by apply app_inv_length in E as [_ ->].
Qed.

(** What the digest of a Start frame covers: everything that is executed,
    except the digest itself, the policy text (bound by its own digest) and
    the receipt token. *)
Definition typed_input (s : StartFrame) :=
  (start_job_id s, start_profile_id s, start_profile_generation s, start_policy_digest s,
   (remote_deadline_unix_ms s, relay_deadline_unix_ms s, result_retention_unix_ms s),
   run_as_uid s, max_output_bytes s, program s, argv s, env s, cwd s).

Lemma text_ok_u64 lo hi v : text_ok lo hi v -> hi <= U64_MAX -> zlen v <= U64_MAX.
Proof. intros ([_ ?] & _) ?. lia. Qed.

Lemma start_input_message_inj s t :
  wf_start s -> start_ok s -> wf_start t -> start_ok t ->
  start_input_message s = start_input_message t -> typed_input s = typed_input t.
Proof.
  intros [] [] [] [] E. rewrite !start_input_message_eq in E. apply app_inv_head in E.
  apply (delimit_fixed 16) in E as [E1 E]; [|done..].
  apply (delimit_fixed 16) in E as [E2 E]; [|done..].
  apply delimit_u64 in E as [E3 E]; [|done..].
  apply (delimit_fixed 32) in E as [E4 E]; [|done..].
  apply delimit_u64 in E as [E5 E]; [|done..].
  apply delimit_u64 in E as [E6 E]; [|done..].
  apply delimit_u64 in E as [E7 E]; [|done..].
  apply delimit_u32 in E as [E8 E]; [|done..].
  apply delimit_u64 in E as [E9 E]; [|done..].
  apply delimit_str64 in E as [E10 E]; [|by eapply text_ok_u64; [eassumption|]..].
  rewrite (app_assoc (be64 (zlen (argv s)))), (app_assoc (be64 (zlen (argv t)))) in E.
  apply (delimit_list str64 _ delimit_str64) in E as [E11 E].
  2,3: split; [unfold MAX_ARG_COUNT, U64_MAX in *; lia|];
       (eapply Forall_impl; [eassumption|]); intros ? ?; by eapply text_ok_u64; [eassumption|].
  rewrite (app_assoc (be64 (zlen (env s)))), (app_assoc (be64 (zlen (env t)))) in E.
  apply (delimit_list env64 _ delimit_env64) in E as [E12 E].
  2,3: split; [unfold MAX_ENV_COUNT, U64_MAX in *; lia|];
       (eapply Forall_impl; [eassumption|]); intros ? (? & ? & _);
       split; by eapply text_ok_u64; [eassumption|].
  rewrite <-(app_nil_r (opt_bytes str64 (cwd s))), <-(app_nil_r (opt_bytes str64 (cwd t))) in E.
  apply (delimit_opt str64 _ delimit_str64) in E as [E13 _].
  2: destruct (cwd s); [by eapply text_ok_u64; [eassumption|]|done].
  2: destruct (cwd t); [by eapply text_ok_u64; [eassumption|]|done].
  unfold typed_input. congruence.
Qed.

(** ** Properties *)

(** C34: strict decoding of a remote-helper frame is the exact inverse of
    encoding: a byte string decodes to an envelope if and only if it is what
    encoding that (well-typed) envelope produces, so every message has one
    encoding and nothing else is accepted. *)
Theorem remote_decode_iff_encode b e :
  decode_exact b = Ok e <-> wf_envelope e /\ encode e = Ok b.
Proof.
  split.
  - intros (Hwf & Hok & ->)%decode_exact_sound. by rewrite encode_ok.
  - intros (Hwf & H). apply encode_ok in H as (Hok & ->); [|done].
    by apply decode_exact_complete.
Qed.

(** A well-typed envelope encodes exactly when its frame satisfies the
    protocol's field limits; the per-kind payload limits and the 32-bit length
    field never reject a frame that does. *)
Theorem remote_encode_total e :
  wf_envelope e -> is_ok (encode e) = true <-> frame_ok (frame e).
Proof.
  intros Hwf. rewrite is_ok_ok. setoid_rewrite encode_ok; [|done]. naive_solver.
Qed.

(** Frames written one after the other to a byte stream are read back in
    order, and the end of the stream after the last one is a clean end. *)
Theorem remote_stream_roundtrip es out :
  Forall wf_envelope es -> for_each write_frame_to [] es = Ok out ->
  read_frames (S (length es)) out = Ok es.
Proof.
  intros Hwf Hw.
  assert (forall pre, for_each write_frame_to pre es = Ok out ->
    Forall (fun e => frame_ok (frame e)) es /\ out = pre ++ concat (map wire_bytes es)) as Hout.
  { clear Hw. induction Hwf as [|e es He Hes IH]; intros pre; cbn [for_each map concat].
    - intros [= <-]. by rewrite app_nil_r.
    - unfold write_frame_to at 1. intros H. inv_ok.
      apply encode_ok in Hr0 as (Hok & ->); [|done].
      apply IH in H as (Hall & ->). rewrite <-app_assoc. by split; [constructor|]. }
  apply Hout in Hw as (Hok & ->). clear Hout. cbn [app].
  induction Hwf as [|e es He Hes IH]; [done|].
  apply Forall_cons in Hok as [Hoke Hok]. cbn [map concat length].
  destruct (wire_bytes_cons e) as (b & l & E).
  cbn [read_frames]. unfold read_frame_from at 1.
  rewrite E. cbn [app]. change (b :: l ++ concat (map wire_bytes es))
    with ((b :: l) ++ concat (map wire_bytes es)).
  rewrite <-E, read_frame_body_wire by done.
  rewrite rbind_pass with (a := es); [done|]. by apply IH.
Qed.

(** A frame cut short anywhere inside is rejected by the stream reader,
    never mistaken for a shorter frame or for the end of the stream. *)
Theorem remote_torn_frame_rejected e pre suf :
  wf_envelope e -> encode e = Ok (pre ++ suf) -> pre <> [] -> suf <> [] ->
  exists err, read_frame_from pre = Err err.
Proof.
  intros Hwf H Hpre Hsuf. apply encode_ok in H as (Hok & E); [|done].
  unfold read_frame_from. destruct pre as [|b pre]; [done|].
  eapply monotone_torn; [apply monotone_remote_frame_body|done|].
  rewrite E, <-(app_nil_r (wire_bytes e)). by apply read_frame_body_wire.
Qed.

(** The input digest binds the whole typed input of a Start frame: two
    admissible Start frames with the same digest agree on identity, policy
    digest, deadlines, account, output limit, program, arguments, environment
    and working directory, unless the two hashed messages themselves are a
    SHA-256 collision. *)
Theorem start_digest_binds_input `{Sha2} s t :
  wf_start s -> start_ok s -> wf_start t -> start_ok t ->
  compute_start_input_digest s = compute_start_input_digest t ->
  typed_input s = typed_input t \/
  (start_input_message s <> start_input_message t /\
   sha256 (start_input_message s) = sha256 (start_input_message t)).
Proof.
  intros ? ? ? ? E.
  destruct (decide (start_input_message s = start_input_message t)) as [Em|Hne].
  - left. by apply start_input_message_inj.
  - by right.
Qed.

Module RemoteCodecRuns.
Import StandIn.

Definition start : StartFrame := {|
  start_job_id := replicate 16 x01; start_profile_id := replicate 16 x02;
  start_profile_generation := 3; start_policy_digest := replicate 32 x04;
  start_input_digest := replicate 32 x05; remote_deadline_unix_ms := 100;
  relay_deadline_unix_ms := 200; result_retention_unix_ms := 300; run_as_uid := 1000;
  max_output_bytes := 4096; program := rs "/usr/bin/env"; argv := [rs "-i"; rs ""];
  env := [{| env_name := rs "LANG"; env_value := rs "C" |}]; cwd := Some (rs "/srv");
  policy_json := rs "{}"; start_receipt_token := replicate 32 x06 |}.

(** The same input under another receipt token. *)
Definition start' : StartFrame := {|
  start_job_id := replicate 16 x01; start_profile_id := replicate 16 x02;
  start_profile_generation := 3; start_policy_digest := replicate 32 x04;
  start_input_digest := replicate 32 x05; remote_deadline_unix_ms := 100;
  relay_deadline_unix_ms := 200; result_retention_unix_ms := 300; run_as_uid := 1000;
  max_output_bytes := 4096; program := rs "/usr/bin/env"; argv := [rs "-i"; rs ""];
  env := [{| env_name := rs "LANG"; env_value := rs "C" |}]; cwd := Some (rs "/srv");
  policy_json := rs "{ }"; start_receipt_token := replicate 32 x07 |}.

Definition hello : Envelope := {| sequence := 0; frame := Hello
  {| max_frame_payload := 65536; feature_bits := 3; effective_uid := 1000 |} |}.
Definition started : Envelope := {| sequence := 1; frame := Start start |}.
Definition encoded (e : Envelope) : bytes := match encode e with Ok b => b | Err _ => [] end.

Ltac concrete := repeat first [split | constructor]; vm_compute; congruence.

Lemma remote_encode_total_witness : is_ok (encode started) = true.
Proof.
  apply (remote_encode_total started); [concrete|]. apply validate_start_ok with (u := tt).
  vm_compute. reflexivity.
Defined.

Lemma remote_stream_roundtrip_witness :
  read_frames 3 (encoded hello ++ encoded started) = Ok [hello; started].
Proof.
  apply (remote_stream_roundtrip [hello; started]); [concrete|]. vm_compute. reflexivity.
Defined.

Lemma remote_torn_frame_rejected_witness :
  exists err, read_frame_from (take 21 (encoded started)) = Err err.
Proof.
  apply (remote_torn_frame_rejected started _ (drop 21 (encoded started))).
  - concrete.
  - vm_compute. reflexivity.
  - vm_compute. congruence.
  - vm_compute. congruence.
Defined.

Lemma start_digest_binds_input_witness :
  typed_input start = typed_input start' \/
  (start_input_message start <> start_input_message start' /\
   sha256 (start_input_message start) = sha256 (start_input_message start')).
Proof.
  apply (start_digest_binds_input start start').
  - concrete.
  - apply validate_start_ok with (u := tt). vm_compute. reflexivity.
  - concrete.
  - apply validate_start_ok with (u := tt). vm_compute. reflexivity.
  - vm_compute. reflexivity.
Defined.

End RemoteCodecRuns.
