(* ===== verification/RemoteSession.v ===== *)
(** * serctl-remote-protocol: the two directional session validators

    crates/serctl_remote_protocol/src/lib.rs, ControllerSessionValidator and
    HelperSessionValidator.  [validate] takes [&mut self]: it is modelled as a
    function to the state it leaves behind and its result, so that what a
    rejected frame leaves in the validator is visible. *)

From S2P Require Import Prelude.
From S2P Require Import Bytes.
From S2P Require Import Text.
From S2P Require Import Codec.
From S2P Require Import Crates.
From S2P Require Import RemoteProtocol.
#[local] Open Scope string_scope.
#[local] Open Scope list_scope.
#[local] Open Scope Z_scope.

Definition validate_sequence (expected actual : Z) : result ProtocolError unit :=
  if expected =? actual then Ok tt else Err (Sequence expected actual).

Definition next_sequence (current : Z) : result ProtocolError Z :=
  ok_or (checked_add U64_MAX current 1) (InvalidState "sequence exhausted").

(** ** Controller to helper *)
Module Controller.

Inductive ControllerPhase := PHello | PReady | PRunning | PTerminal.

#[export] Instance ControllerPhase_eq_dec : EqDecision ControllerPhase.
Proof. solve_decision. Defined.

Record ControllerSessionValidator := {
  next_seq : Z;
  phase : ControllerPhase;
  job_id : option bytes;
}.

Definition default : ControllerSessionValidator :=
  {| next_seq := 0; phase := PHello; job_id := None |}.

(** The transition of [validate], once the sequence number is accepted. *)
Definition transition (s : ControllerSessionValidator) (next : Z) (f : Frame)
  : ControllerSessionValidator * result ProtocolError unit :=
  let illegal :=
    (s, Err (InvalidState "illegal controller-to-helper frame transition")) in
  match phase s, f with
  | PHello, Hello hello =>
      if effective_uid hello =? 0
      then ({| next_seq := next; phase := PReady; job_id := job_id s |}, Ok tt)
      else illegal
  | PReady, Start start =>
      ({| next_seq := next; phase := PRunning; job_id := Some (start_job_id start) |}, Ok tt)
  | PReady, QueryReceipt query =>
      ({| next_seq := next; phase := PTerminal; job_id := Some (query_job_id query) |}, Ok tt)
  | PRunning, Cancel cancel =>
      if bool_decide (job_id s = Some (cancel_job_id cancel))
      then ({| next_seq := next; phase := PTerminal; job_id := job_id s |}, Ok tt)
      else illegal
  | _, _ => illegal
  end.

Definition validate (s : ControllerSessionValidator) (e : Envelope)
  : ControllerSessionValidator * result ProtocolError unit :=
  match validate_sequence (next_seq s) (sequence e) with
  | Err err => (s, Err err)
  | Ok _ =>
      match next_sequence (next_seq s) with
      | Err err => (s, Err err)
      | Ok next => transition s next (frame e)
      end
  end.

(** Feed envelopes one after the other; keep those that were accepted. *)
Fixpoint run (s : ControllerSessionValidator) (es : list Envelope)
  : ControllerSessionValidator * list Envelope :=
  match es with
  | [] => (s, [])
  | e :: es' =>
      match validate s e with
      | (s', Ok _) => let (s'', acc) := run s' es' in (s'', e :: acc)
      | (s', Err _) => run s' es'
      end
  end.

(** The conversations a controller can hold: a Hello of the uid-0 kind, then a
    Start and possibly the Cancel of that job, or a receipt query. *)
Inductive conversation : ControllerPhase -> option bytes -> list Envelope -> Prop :=
| conv_nil : conversation PHello None []
| conv_hello h :
    effective_uid h = 0 ->
    conversation PReady None [{| sequence := 0; frame := Hello h |}]
| conv_start h st :
    effective_uid h = 0 ->
    conversation PRunning (Some (start_job_id st))
      [{| sequence := 0; frame := Hello h |}; {| sequence := 1; frame := Start st |}]
| conv_cancel h st c :
    effective_uid h = 0 -> cancel_job_id c = start_job_id st ->
    conversation PTerminal (Some (start_job_id st))
      [{| sequence := 0; frame := Hello h |}; {| sequence := 1; frame := Start st |};
       {| sequence := 2; frame := Cancel c |}]
| conv_query h q :
    effective_uid h = 0 ->
    conversation PTerminal (Some (query_job_id q))
      [{| sequence := 0; frame := Hello h |}; {| sequence := 1; frame := QueryReceipt q |}].

Lemma validate_conversation s log e s' r :
  conversation (phase s) (job_id s) log -> next_seq s = zlen log ->
  validate s e = (s', r) ->
  match r with
  | Ok _ => conversation (phase s') (job_id s') (log ++ [e]) /\
            next_seq s' = zlen (log ++ [e])
  | Err _ => s' = s
  end.
Proof.
  intros Hc Hn. unfold validate, validate_sequence, next_sequence.
  destruct (Z.eqb_spec (next_seq s) (sequence e)) as [En|]; [|by intros [= <- <-]].
  destruct (checked_add _ _ _) as [n|] eqn:Hadd; [|by intros [= <- <-]].
  apply checked_add_some in Hadd as [-> _]. cbn [ok_or]. unfold transition.
  destruct e as [k f]. cbn in En. rewrite En in *. cbn [frame].
  rewrite zlen_app. change (zlen [_]) with 1.
  destruct s as [ns ph jid]; cbn in *. subst ns.
  inversion Hc; subst; destruct f; try (by intros [= <- <-]).
  - destruct (Z.eqb_spec (effective_uid f) 0); intros [= <- <-]; [|done]. by split; [constructor|].
  - intros [= <- <-]. by split; [constructor|].
  - intros [= <- <-]. by split; [constructor|].
  - case_bool_decide as Hj; intros [= <- <-]; [|done]. injection Hj as Hj. by split; [constructor|].
Qed.

Lemma run_conversation es s log :
  conversation (phase s) (job_id s) log -> next_seq s = zlen log ->
  let (s', acc) := run s es in conversation (phase s') (job_id s') (log ++ acc).
Proof.
  revert s log; induction es as [|e es IH]; intros s log Hc Hn; cbn [run].
  - by rewrite app_nil_r.
  - destruct (validate s e) as [s1 r] eqn:Hv.
    pose proof (validate_conversation _ _ _ _ _ Hc Hn Hv) as Hs. destruct r as [u|err].
    + destruct Hs as [Hc1 Hn1]. specialize (IH s1 (log ++ [e]) Hc1 Hn1).
      destruct (run s1 es) as [s2 acc]. by rewrite <-app_assoc in IH.
    + subst s1. by apply IH.
Qed.

(** C37: whatever envelopes are offered to a fresh controller validator, those
    it accepts are a prefix of Hello, Start, Cancel of the started job, or of
    Hello, QueryReceipt, numbered from 0, with a Hello of effective uid 0; no
    frame of the other direction is ever accepted. *)
Theorem controller_accepts_conversations es :
  let (s, acc) := run default es in conversation (phase s) (job_id s) acc.
Proof. by apply (run_conversation es default []); [constructor|]. Qed.

End Controller.

(** ** Helper to controller *)
Module Helper.

Inductive HelperMode :=
| Job (max_output : Z)
| ReceiptQuery.

Inductive HelperPhase :=
| PHello
| PStreaming
| PReceiptAuthenticationPending
| PReceiptAuthenticated
| PTerminal.

#[export] Instance HelperPhase_eq_dec : EqDecision HelperPhase.
Proof. solve_decision. Defined.

Record AuthenticatedTerminal := {
  term_outcome : ExitOutcome;
  term_completed_unix_ms : Z;
}.

#[export] Instance AuthenticatedTerminal_eq_dec : EqDecision AuthenticatedTerminal.
Proof. solve_decision. Defined.

Record HelperSessionValidator := {
  next_seq : Z;
  phase : HelperPhase;
  mode : HelperMode;
  job_id : bytes;
  stdout_offset : Z;
  stderr_offset : Z;
  heartbeat_ordinal : Z;
  heartbeat_elapsed_ms : Z;
  pending_receipt_digest : option bytes;
  authenticated_terminal : option AuthenticatedTerminal;
}.

(** Field updates. *)
Definition set_phase (p : HelperPhase) (s : HelperSessionValidator) :=
  {| next_seq := next_seq s; phase := p; mode := mode s; job_id := job_id s;
     stdout_offset := stdout_offset s; stderr_offset := stderr_offset s;
     heartbeat_ordinal := heartbeat_ordinal s;
     heartbeat_elapsed_ms := heartbeat_elapsed_ms s;
     pending_receipt_digest := pending_receipt_digest s;
     authenticated_terminal := authenticated_terminal s |}.
Definition set_next (n : Z) (s : HelperSessionValidator) :=
  {| next_seq := n; phase := phase s; mode := mode s; job_id := job_id s;
     stdout_offset := stdout_offset s; stderr_offset := stderr_offset s;
     heartbeat_ordinal := heartbeat_ordinal s;
     heartbeat_elapsed_ms := heartbeat_elapsed_ms s;
     pending_receipt_digest := pending_receipt_digest s;
     authenticated_terminal := authenticated_terminal s |}.
Definition set_offsets (out err : Z) (s : HelperSessionValidator) :=
  {| next_seq := next_seq s; phase := phase s; mode := mode s; job_id := job_id s;
     stdout_offset := out; stderr_offset := err;
     heartbeat_ordinal := heartbeat_ordinal s;
     heartbeat_elapsed_ms := heartbeat_elapsed_ms s;
     pending_receipt_digest := pending_receipt_digest s;
     authenticated_terminal := authenticated_terminal s |}.
Definition set_heartbeat (ord elapsed : Z) (s : HelperSessionValidator) :=
  {| next_seq := next_seq s; phase := phase s; mode := mode s; job_id := job_id s;
     stdout_offset := stdout_offset s; stderr_offset := stderr_offset s;
     heartbeat_ordinal := ord; heartbeat_elapsed_ms := elapsed;
     pending_receipt_digest := pending_receipt_digest s;
     authenticated_terminal := authenticated_terminal s |}.
Definition set_receipt (pending : option bytes) (term : option AuthenticatedTerminal)
    (s : HelperSessionValidator) :=
  {| next_seq := next_seq s; phase := phase s; mode := mode s; job_id := job_id s;
     stdout_offset := stdout_offset s; stderr_offset := stderr_offset s;
     heartbeat_ordinal := heartbeat_ordinal s;
     heartbeat_elapsed_ms := heartbeat_elapsed_ms s;
     pending_receipt_digest := pending; authenticated_terminal := term |}.

Definition new (job : bytes) (m : HelperMode) : HelperSessionValidator :=
  {| next_seq := 0; phase := PHello; mode := m; job_id := job;
     stdout_offset := 0; stderr_offset := 0; heartbeat_ordinal := 0;
     heartbeat_elapsed_ms := 0; pending_receipt_digest := None;
     authenticated_terminal := None |}.

Definition for_job (job : bytes) (max_output : Z)
  : result ProtocolError HelperSessionValidator :=
  if (max_output =? 0) || (MAX_OUTPUT_BYTES <? max_output)
  then Err (InvalidValue "max_output_bytes")
  else Ok (new job (Job max_output)).

Definition for_receipt_query (job : bytes) : HelperSessionValidator := new job ReceiptQuery.

Definition validate_job (s : HelperSessionValidator) (job : bytes)
  : result ProtocolError unit :=
  if bool_decide (job_id s = job) then Ok tt
  else Err (InvalidState "job identifier mismatch").

Definition validate_output_budget (s : HelperSessionValidator)
  : result ProtocolError unit :=
  match mode s with
  | Job max_output =>
      if max_output <? saturating_add U64_MAX (stdout_offset s) (stderr_offset s)
      then Err (InvalidState "output budget exceeded") else Ok tt
  | ReceiptQuery => Err (InvalidState "receipt query emitted output")
  end.

Definition advance_output_offset (error : string) (expected : Z) (output : OutputFrame)
  : result ProtocolError Z :=
  if negb (output_offset output =? expected) then Err (InvalidState error)
  else ok_or (checked_add U64_MAX expected (zlen (output_data output)))
         (InvalidState "output offset overflow").

Definition is_job (m : HelperMode) : bool :=
  match m with Job _ => true | ReceiptQuery => false end.

Section with_sha.
Context `{Sha2}.

(** The [match] of [validate]: the state when it is left, and whether by [?]
    or [return Err] or by falling through to the sequence update. *)
Definition transition (s : HelperSessionValidator) (f : Frame)
  : HelperSessionValidator * result ProtocolError unit :=
  let illegal := (s, Err (InvalidState "illegal helper-to-controller frame transition")) in
  match phase s, f with
  | PHello, Hello hello =>
      if negb (effective_uid hello =? 0) then
        if negb (is_job (mode s)) && (Z.land (feature_bits hello) FEATURE_RECEIPT_QUERY =? 0)
        then (s, Err (InvalidState "helper does not advertise receipt query support"))
        else (set_phase PStreaming s, Ok tt)
      else illegal
  | PStreaming, Stdout output =>
      if is_job (mode s) then
        match validate_job s (output_job_id output) with
        | Err e => (s, Err e)
        | Ok _ =>
            match advance_output_offset "stdout offset gap or replay" (stdout_offset s) output with
            | Err e => (s, Err e)
            | Ok off =>
                let s' := set_offsets off (stderr_offset s) s in (s', validate_output_budget s')
            end
        end
      else illegal
  | PStreaming, Stderr output =>
      if is_job (mode s) then
        match validate_job s (output_job_id output) with
        | Err e => (s, Err e)
        | Ok _ =>
            match advance_output_offset "stderr offset gap or replay" (stderr_offset s) output with
            | Err e => (s, Err e)
            | Ok off =>
                let s' := set_offsets (stdout_offset s) off s in (s', validate_output_budget s')
            end
        end
      else illegal
  | PStreaming, Heartbeat heartbeat =>
      if is_job (mode s) then
        match validate_job s (heartbeat_job_id heartbeat) with
        | Err e => (s, Err e)
        | Ok _ =>
            if (ordinal heartbeat <=? heartbeat_ordinal s)
               || (elapsed_ms heartbeat <? heartbeat_elapsed_ms s)
               || negb (stdout_bytes heartbeat =? stdout_offset s)
               || negb (stderr_bytes heartbeat =? stderr_offset s)
            then (s, Err (InvalidState "non-monotonic heartbeat"))
            else (set_heartbeat (ordinal heartbeat) (elapsed_ms heartbeat) s, Ok tt)
        end
      else illegal
  | PStreaming, Receipt receipt =>
      match validate_job s (receipt_job_id receipt) with
      | Err e => (s, Err e)
      | Ok _ =>
          (set_phase PReceiptAuthenticationPending
             (set_receipt (Some (sha256 (receipt_bytes receipt)))
                (authenticated_terminal s) s), Ok tt)
      end
  | PStreaming, Error error =>
      match match error_job_id error with
            | Some job => validate_job s job
            | None => Ok tt
            end with
      | Err e => (s, Err e)
      | Ok _ => (set_phase PTerminal s, Ok tt)
      end
  | PReceiptAuthenticated, Exit exit =>
      match validate_job s (exit_job_id exit) with
      | Err e => (s, Err e)
      | Ok _ =>
          if negb (bool_decide (authenticated_terminal s =
               Some {| term_outcome := outcome exit;
                       term_completed_unix_ms := completed_unix_ms exit |}))
          then (s, Err (InvalidState "Exit does not match authenticated receipt"))
          else (set_phase PTerminal s, Ok tt)
      end
  | _, _ => illegal
  end.

Definition validate (s : HelperSessionValidator) (e : Envelope)
  : HelperSessionValidator * result ProtocolError unit :=
  match validate_sequence (next_seq s) (sequence e) with
  | Err err => (s, Err err)
  | Ok _ =>
      match next_sequence (next_seq s) with
      | Err err => (s, Err err)
      | Ok next =>
          match transition s (frame e) with
          | (s', Err err) => (s', Err err)
          | (s', Ok _) => (set_next next s', Ok tt)
          end
      end
  end.

Definition authenticate_receipt (s : HelperSessionValidator) (receipt : bytes)
    (terminal : AuthenticatedTerminal) : HelperSessionValidator * result ProtocolError unit :=
  if negb (bool_decide (phase s = PReceiptAuthenticationPending))
  then (s, Err (InvalidState "no receipt is pending authentication"))
  else
    let supplied := sha256 receipt in
    if negb (bool_decide (pending_receipt_digest s = Some supplied))
    then (s, Err (InvalidState "authenticated receipt bytes do not match pending frame"))
    else (set_phase PReceiptAuthenticated (set_receipt None (Some terminal) s), Ok tt).

(** A session as its owner drives it: frames arrive, and receipts are
    authenticated.  Rejected calls leave no entry in the log. *)
Inductive event :=
| Recv (e : Envelope)
| Authenticate (receipt : bytes) (terminal : AuthenticatedTerminal).

Definition step (s : HelperSessionValidator) (ev : event)
  : HelperSessionValidator * result ProtocolError unit :=
  match ev with
  | Recv e => validate s e
  | Authenticate r t => authenticate_receipt s r t
  end.

Fixpoint run (s : HelperSessionValidator) (evs : list event)
  : HelperSessionValidator * list event :=
  match evs with
  | [] => (s, [])
  | ev :: evs' =>
      match step s ev with
      | (s', Ok _) => let (s'', log) := run s' evs' in (s'', ev :: log)
      | (s', Err _) => run s' evs'
      end
  end.

(** ** The session as a step relation *)

Definition within_budget (s : HelperSessionValidator) : Prop :=
  match mode s with
  | Job max_output => saturating_add U64_MAX (stdout_offset s) (stderr_offset s) <= max_output
  | ReceiptQuery => False
  end.

(** The transitions that accept a frame, one rule per legal arm. *)
Inductive accepts (s : HelperSessionValidator) : Frame -> HelperSessionValidator -> Prop :=
| acc_hello hello :
    phase s = PHello -> effective_uid hello <> 0 ->
    (is_job (mode s) = false -> Z.land (feature_bits hello) FEATURE_RECEIPT_QUERY <> 0) ->
    accepts s (Hello hello) (set_phase PStreaming s)
| acc_stdout o :
    phase s = PStreaming -> output_job_id o = job_id s -> output_offset o = stdout_offset s ->
    stdout_offset s + zlen (output_data o) <= U64_MAX ->
    within_budget (set_offsets (stdout_offset s + zlen (output_data o)) (stderr_offset s) s) ->
    accepts s (Stdout o)
      (set_offsets (stdout_offset s + zlen (output_data o)) (stderr_offset s) s)
| acc_stderr o :
    phase s = PStreaming -> output_job_id o = job_id s -> output_offset o = stderr_offset s ->
    stderr_offset s + zlen (output_data o) <= U64_MAX ->
    within_budget (set_offsets (stdout_offset s) (stderr_offset s + zlen (output_data o)) s) ->
    accepts s (Stderr o)
      (set_offsets (stdout_offset s) (stderr_offset s + zlen (output_data o)) s)
| acc_heartbeat h :
    phase s = PStreaming -> is_job (mode s) = true -> heartbeat_job_id h = job_id s ->
    heartbeat_ordinal s < ordinal h -> heartbeat_elapsed_ms s <= elapsed_ms h ->
    stdout_bytes h = stdout_offset s -> stderr_bytes h = stderr_offset s ->
    accepts s (Heartbeat h) (set_heartbeat (ordinal h) (elapsed_ms h) s)
| acc_receipt r :
    phase s = PStreaming -> receipt_job_id r = job_id s ->
    accepts s (Receipt r)
      (set_phase PReceiptAuthenticationPending
         (set_receipt (Some (sha256 (receipt_bytes r))) (authenticated_terminal s) s))
| acc_error e :
    phase s = PStreaming -> error_job_id e = None \/ error_job_id e = Some (job_id s) ->
    accepts s (Error e) (set_phase PTerminal s)
| acc_exit e :
    phase s = PReceiptAuthenticated -> exit_job_id e = job_id s ->
    authenticated_terminal s = Some {| term_outcome := outcome e;
                                       term_completed_unix_ms := completed_unix_ms e |} ->
    accepts s (Exit e) (set_phase PTerminal s).

Lemma validate_job_cases s j :
  (validate_job s j = Ok tt /\ j = job_id s) \/
  (exists e, validate_job s j = Err e) /\ j <> job_id s.
Proof. unfold validate_job. case_bool_decide; naive_solver. Qed.

Lemma validate_output_budget_ok s u : validate_output_budget s = Ok u <-> within_budget s.
Proof.
  unfold validate_output_budget, within_budget. destruct u, (mode s); [|done].
  rewrite if_err_ok, Z.ltb_ge. naive_solver.
Qed.

Lemma advance_output_offset_ok msg expected o off :
  advance_output_offset msg expected o = Ok off <->
  output_offset o = expected /\ expected + zlen (output_data o) <= U64_MAX /\
  off = expected + zlen (output_data o).
Proof.
  unfold advance_output_offset.
  rewrite if_err_ok, ok_or_ok, checked_add_some, negb_false_iff, Z.eqb_eq. naive_solver.
Qed.

Ltac split_transition :=
  repeat match goal with
  | |- context [if ?b then _ else _] => let E := fresh "E" in destruct b eqn:E
  | |- context [validate_job ?s ?j] =>
      destruct (validate_job_cases s j) as [[-> ?]|[(? & ->) ?]]
  | |- context [match advance_output_offset ?m ?x ?o with _ => _ end] =>
      let E := fresh "E" in destruct (advance_output_offset m x o) eqn:E
  end.

Lemma within_budget_job s : within_budget s -> is_job (mode s) = true.
Proof. unfold within_budget. by destruct (mode s). Qed.

Lemma transition_accepts s f s' u : transition s f = (s', Ok u) -> accepts s f s'.
Proof.
  unfold transition. destruct (phase s) eqn:Hp, f as [h|st|o|o|h|c|e|r|e|q];
    try (by intros [= _ ?]); split_transition; try (by intros [= _ ?]).
  - intros [= <- _]. bool_to_prop_in E. constructor; [done..|].
    intros Hj. rewrite Hj in E0. bool_to_prop_in E0. naive_solver.
  - intros [= <- Hb]. apply advance_output_offset_ok in E0 as (? & ? & ->).
    apply validate_output_budget_ok in Hb. by constructor.
  - intros [= <- Hb]. apply advance_output_offset_ok in E0 as (? & ? & ->).
    apply validate_output_budget_ok in Hb. by constructor.
  - intros [= <- _]. bool_to_prop_in E0. destruct_and! E0. constructor; try done; lia.
  - intros [= <- _]. by constructor.
  - destruct (error_job_id e) as [j|] eqn:Ej.
    + destruct (validate_job_cases s j) as [[-> ->]|[(? & ->) ?]]; intros [= <- _].
      constructor; auto.
    + intros [= <- _]. constructor; auto.
  - intros [= <- _]. bool_to_prop_in E. by constructor.
Qed.

(** What a rejected frame leaves behind: the validator unchanged, or, when an
    output chunk at the right offset breaks the budget, with that offset
    advanced past the budget. *)
Definition overshoot (s s' : HelperSessionValidator) : Prop :=
  exists out err, s' = set_offsets out err s /\ stdout_offset s <= out /\
    stderr_offset s <= err /\ ~ within_budget s'.

Lemma transition_rejects s f s' e :
  transition s f = (s', Err e) -> s' = s \/ (phase s = PStreaming /\ overshoot s s').
Proof.
  unfold transition. destruct (phase s) eqn:Hp, f as [h|st|o|o|h|c|ex|r|er|q];
    try (by intros [= <- _]; left); split_transition; try (by intros [= <- _]; left); try done.
  - intros [= <- Hb]. right. split; [done|]. eexists _, _. split; [done|].
    apply advance_output_offset_ok in E0 as (_ & _ & ->). pose proof (zlen_nonneg (output_data o)).
    rewrite <-validate_output_budget_ok with (u := tt). rewrite Hb. split_and!; [lia|lia|done].
  - intros [= <- Hb]. right. split; [done|]. eexists _, _. split; [done|].
    apply advance_output_offset_ok in E0 as (_ & _ & ->). pose proof (zlen_nonneg (output_data o)).
    rewrite <-validate_output_budget_ok with (u := tt). rewrite Hb. split_and!; [lia|lia|done].
  - destruct (error_job_id er) as [j|]; [|done].
    destruct (validate_job_cases s j) as [[-> ->]|[(? & ->) ?]]; [done|].
    intros [= <- _]. by left.
Qed.

(** ** What a log says *)

Definition stdout_of (ev : event) : Z :=
  match ev with
  | Recv {| frame := Stdout o |} => zlen (output_data o)
  | _ => 0
  end.
Definition stderr_of (ev : event) : Z :=
  match ev with
  | Recv {| frame := Stderr o |} => zlen (output_data o)
  | _ => 0
  end.
Definition total (w : event -> Z) (log : list event) : Z :=
  fold_right (fun ev n => w ev + n) 0 log.
Definition is_recv (ev : event) : Z := match ev with Recv _ => 1 | _ => 0 end.

(** Heartbeats do not go back: every earlier one has a smaller ordinal and no
    later clock. *)
Definition heart_before (ord elapsed : Z) (ev : event) : Prop :=
  match ev with
  | Recv {| frame := Heartbeat h |} => ordinal h < ord /\ elapsed_ms h <= elapsed
  | _ => True
  end.

(** An accepted event and the log before it: the sequence number is the number
    of frames before, an output chunk continues its stream, a heartbeat counts
    the bytes accepted (or more than the budget, after a rejected chunk), and
    everything is about the session's job. *)
Definition event_ok (job : bytes) (m : HelperMode) (before : list event) (ev : event) : Prop :=
  match ev with
  | Authenticate _ _ => True
  | Recv e =>
      sequence e = total is_recv before /\
      match frame e with
      | Hello h => effective_uid h <> 0
      | Stdout o => output_job_id o = job /\ output_offset o = total stdout_of before
      | Stderr o => output_job_id o = job /\ output_offset o = total stderr_of before
      | Heartbeat h =>
          heartbeat_job_id h = job /\
          Forall (heart_before (ordinal h) (elapsed_ms h)) before /\
          (stdout_bytes h = total stdout_of before /\ stderr_bytes h = total stderr_of before \/
           exists max, m = Job max /\ max < stdout_bytes h + stderr_bytes h)
      | Receipt r => receipt_job_id r = job
      | Error e => error_job_id e = None \/ error_job_id e = Some job
      | Exit e => exit_job_id e = job
      | _ => False
      end
  end.

Definition log_ok (job : bytes) (m : HelperMode) (log : list event) : Prop :=
  forall before ev after, log = before ++ ev :: after -> event_ok job m before ev.

Definition is_stream (ev : event) : Prop :=
  match ev with
  | Recv {| frame := Stdout _ |} | Recv {| frame := Stderr _ |}
  | Recv {| frame := Heartbeat _ |} => True
  | _ => False
  end.

(** The shape of the log in each phase: Hello, then output and heartbeats,
    then an Error, or a Receipt, its authentication and the matching Exit. *)
Definition opened (log : list event) : Prop :=
  exists n h body, log = Recv {| sequence := n; frame := Hello h |} :: body /\
    Forall is_stream body.

Definition authenticated (log : list event) (t : AuthenticatedTerminal) : Prop :=
  exists log0 n r b, opened log0 /\
    log = log0 ++ [Recv {| sequence := n; frame := Receipt r |}; Authenticate b t] /\
    sha256 b = sha256 (receipt_bytes r).

Definition closed (log : list event) : Prop :=
  (exists log0 n e, opened log0 /\ log = log0 ++ [Recv {| sequence := n; frame := Error e |}]) \/
  (exists log0 n e, authenticated log0 {| term_outcome := outcome e;
                                          term_completed_unix_ms := completed_unix_ms e |} /\
     log = log0 ++ [Recv {| sequence := n; frame := Exit e |}]).

Definition shape (s : HelperSessionValidator) (log : list event) : Prop :=
  match phase s with
  | PHello => log = []
  | PStreaming => opened log
  | PReceiptAuthenticationPending =>
      exists log0 n r, opened log0 /\
        log = log0 ++ [Recv {| sequence := n; frame := Receipt r |}] /\
        pending_receipt_digest s = Some (sha256 (receipt_bytes r))
  | PReceiptAuthenticated =>
      exists t, authenticated_terminal s = Some t /\ authenticated log t
  | PTerminal => closed log
  end.

(** Either the offsets are the bytes accepted so far, or a rejected chunk has
    moved them past the budget, and then no chunk is accepted any more. *)
Definition offsets_ok (s : HelperSessionValidator) (log : list event) : Prop :=
  0 <= stdout_offset s /\ 0 <= stderr_offset s /\
  match mode s with
  | Job max =>
      max < U64_MAX /\ total stdout_of log + total stderr_of log <= max /\
      ((stdout_offset s = total stdout_of log /\ stderr_offset s = total stderr_of log) \/
       max < stdout_offset s + stderr_offset s)
  | ReceiptQuery => total stdout_of log = 0 /\ total stderr_of log = 0
  end.

Record Inv (job : bytes) (m : HelperMode) (s : HelperSessionValidator) (log : list event)
  : Prop := {
  inv_job : job_id s = job;
  inv_mode : mode s = m;
  inv_seq : next_seq s = total is_recv log;
  inv_shape : shape s log;
  inv_offsets : offsets_ok s log;
  inv_heart : Forall (heart_before (heartbeat_ordinal s + 1) (heartbeat_elapsed_ms s)) log;
  inv_log : log_ok job m log;
}.

Lemma total_app w l1 l2 : total w (l1 ++ l2) = total w l1 + total w l2.
Proof. induction l1 as [|a l IH]; cbn; [done|]. unfold total in *. lia. Qed.

Lemma total_one w ev : total w [ev] = w ev.
Proof. cbn. lia. Qed.

Lemma log_ok_snoc job m log ev :
  log_ok job m log -> event_ok job m log ev -> log_ok job m (log ++ [ev]).
Proof.
  intros Hl He before ev' after E.
  destruct after as [|x after _] using rev_ind.
  - apply app_inj_tail in E as [-> ->]. done.
  - rewrite app_comm_cons, app_assoc in E. apply app_inj_tail in E as [-> ->]. by eapply Hl.
Qed.

Lemma opened_snoc log ev : opened log -> is_stream ev -> opened (log ++ [ev]).
Proof.
  intros (n & h & body & -> & Hb) He. exists n, h, (body ++ [ev]). split; [done|].
  by apply Forall_app; split; [|constructor].
Qed.

Lemma budget_exact s max : mode s = Job max -> max < U64_MAX ->
  (within_budget s <-> stdout_offset s + stderr_offset s <= max).
Proof. intros Hm ?. unfold within_budget, saturating_add. rewrite Hm. lia. Qed.

(** An event that is no output chunk leaves the totals. *)
Lemma offsets_ok_quiet s s' log ev :
  offsets_ok s log -> mode s' = mode s -> stdout_offset s' = stdout_offset s ->
  stderr_offset s' = stderr_offset s -> stdout_of ev = 0 -> stderr_of ev = 0 ->
  offsets_ok s' (log ++ [ev]).
Proof.
  intros Ho Hm E1 E2 W1 W2. unfold offsets_ok in *.
  rewrite Hm, E1, E2, !total_app, !total_one, W1, W2, !Z.add_0_r. done.
Qed.

Lemma offsets_ok_chunk s out err log ev :
  offsets_ok s log -> within_budget (set_offsets out err s) ->
  0 <= stdout_of ev -> 0 <= stderr_of ev ->
  out = stdout_offset s + stdout_of ev -> err = stderr_offset s + stderr_of ev ->
  offsets_ok (set_offsets out err s) (log ++ [ev]) /\
  stdout_offset s = total stdout_of log /\ stderr_offset s = total stderr_of log.
Proof.
  intros (H1 & H2 & Hm) Hb W1 W2 -> ->. unfold offsets_ok. cbn.
  destruct (mode s) as [max|] eqn:Em.
  - destruct Hm as (Hmax & Ht & Hc). rewrite (budget_exact _ max) in Hb by done. cbn in Hb.
    rewrite !total_app, !total_one. lia.
  - unfold within_budget in Hb. cbn in Hb. by rewrite Em in Hb.
Qed.

Lemma inv_accept job m s log e s' :
  Inv job m s log -> sequence e = next_seq s -> accepts s (frame e) s' ->
  Inv job m (set_next (next_seq s + 1) s') (log ++ [Recv e]).
Proof.
  intros [<- <- Hseq Hsh Hoff Hheart Hlog] En Ha. destruct e as [n f]. cbn in En, Ha. subst n.
  unfold shape in Hsh. assert (forall s1, next_seq (set_next (next_seq s + 1) s1) =
    total is_recv (log ++ [Recv {| sequence := next_seq s; frame := f |}])) as Hn.
  { intros. rewrite total_app, total_one. cbn. lia. }
  inversion Ha as [h Hp|o Hp|o Hp|h Hp|r Hp|er Hp|ex Hp]; subst; rewrite Hp in Hsh;
    (split; [done|done|apply Hn| | | |]);
    try (apply Forall_app; split; [exact Hheart|by constructor]).
  - subst log. by eexists _, _, [].
  - by apply (offsets_ok_quiet s).
  - by apply log_ok_snoc.
  - unfold shape. cbn. rewrite Hp. by apply opened_snoc.
  - eapply (offsets_ok_chunk s); cbn; eauto with serctl lia.
  - apply log_ok_snoc; [done|]. split; [done|]. split; [done|]. cbn in *.
    destruct (offsets_ok_chunk s _ _ log (Recv {| sequence := next_seq s; frame := Stdout o |})
      Hoff H3) as (_ & <- & _); cbn; (done || lia || auto with serctl).
  - unfold shape. cbn. rewrite Hp. by apply opened_snoc.
  - eapply (offsets_ok_chunk s); cbn; eauto with serctl lia.
  - apply log_ok_snoc; [done|]. split; [done|]. split; [done|]. cbn in *.
    destruct (offsets_ok_chunk s _ _ log (Recv {| sequence := next_seq s; frame := Stderr o |})
      Hoff H3) as (_ & _ & <-); cbn; (done || lia || auto with serctl).
  - unfold shape. cbn. rewrite Hp. by apply opened_snoc.
  - by apply (offsets_ok_quiet s).
  - cbn. apply Forall_app. split; [|constructor; [cbn; lia|done]].
    eapply Forall_impl; [exact Hheart|]. intros ev. unfold heart_before.
    destruct ev as [[? []]|]; try done. lia.
  - apply log_ok_snoc; [done|]. split; [done|]. split; [done|]. split.
    + eapply Forall_impl; [exact Hheart|]. intros ev. unfold heart_before.
      destruct ev as [[? []]|]; try done. lia.
    + destruct Hoff as (_ & _ & Hm). rewrite H4, H5.
      destruct (mode s) as [max|]; [|done]. destruct Hm as (_ & _ & [Hm|Hm]); eauto.
  - by eexists log, _, r.
  - by apply (offsets_ok_quiet s).
  - by apply log_ok_snoc.
  - left. by eexists log, _, er.
  - by apply (offsets_ok_quiet s).
  - by apply log_ok_snoc.
  - destruct Hsh as (t & Et & Hsh). right. exists log, (next_seq s), ex. split; [|done].
    congruence.
  - by apply (offsets_ok_quiet s).
  - by apply log_ok_snoc.
Qed.

Lemma validate_ok s e s' u : validate s e = (s', Ok u) ->
  exists s1, sequence e = next_seq s /\ accepts s (frame e) s1 /\
    s' = set_next (next_seq s + 1) s1.
Proof.
  unfold validate, validate_sequence, next_sequence.
  destruct (Z.eqb_spec (next_seq s) (sequence e)); [|by intros [= _ ?]].
  destruct (checked_add _ _ _) as [n|] eqn:En; [|by intros [= _ ?]].
  apply checked_add_some in En as [-> _]. cbn [ok_or].
  destruct (transition s (frame e)) as [s1 [[]|]] eqn:Ht; [|by intros [= _ ?]].
  intros [= <- _]. apply transition_accepts in Ht. eauto.
Qed.

Lemma validate_err s e s' err : validate s e = (s', Err err) ->
  s' = s \/ (phase s = PStreaming /\ overshoot s s').
Proof.
  unfold validate, validate_sequence, next_sequence.
  destruct (Z.eqb_spec (next_seq s) (sequence e)); [|by intros [= <- _]; left].
  destruct (checked_add _ _ _) as [n|] eqn:En; [|by intros [= <- _]; left]. cbn [ok_or].
  destruct (transition s (frame e)) as [s1 [[]|]] eqn:Ht; [done|].
  intros [= <- _]. by eapply transition_rejects.
Qed.

Lemma authenticate_ok s b t s' u : authenticate_receipt s b t = (s', Ok u) ->
  phase s = PReceiptAuthenticationPending /\ pending_receipt_digest s = Some (sha256 b) /\
  s' = set_phase PReceiptAuthenticated (set_receipt None (Some t) s).
Proof.
  unfold authenticate_receipt. do 2 case_bool_decide; cbn; try (by intros [= _ ?]).
  by intros [= <- _].
Qed.

Lemma authenticate_err s b t s' e : authenticate_receipt s b t = (s', Err e) -> s' = s.
Proof.
  unfold authenticate_receipt. do 2 case_bool_decide; cbn; by intros [= <- _].
Qed.

Lemma inv_overshoot job m s log s' :
  Inv job m s log -> phase s = PStreaming -> overshoot s s' -> Inv job m s' log.
Proof.
  intros [<- <- Hseq Hsh Hoff Hheart Hlog] Hp (out & err & -> & Ho & He & Hb).
  split; try done. unfold offsets_ok in *. cbn. destruct Hoff as (H1 & H2 & Hm).
  destruct (mode s) as [max|] eqn:Em; [|naive_solver lia].
  rewrite (budget_exact _ max) in Hb by (cbn; tauto). cbn in Hb. naive_solver lia.
Qed.

Lemma inv_step job m s log ev s' r :
  Inv job m s log -> step s ev = (s', r) ->
  Inv job m s' (log ++ match r with Ok _ => [ev] | Err _ => [] end).
Proof.
  intros Hinv Hs. destruct ev as [e|b t], r as [u|err]; cbn [step] in Hs.
  - apply validate_ok in Hs as (s1 & En & Ha & ->). by apply inv_accept.
  - rewrite app_nil_r. apply validate_err in Hs as [->|[Hp Ho]]; [done|].
    by eapply inv_overshoot.
  - apply authenticate_ok in Hs as (Hp & Hd & ->).
    destruct Hinv as [<- <- Hseq Hsh Hoff Hheart Hlog]. split; try done.
    + cbn. rewrite total_app, total_one. cbn. lia.
    + unfold shape in *. rewrite Hp in Hsh. cbn.
      destruct Hsh as (log0 & n & r & Hop & -> & Hd'). exists t. split; [done|].
      exists log0, n, r, b. rewrite <-app_assoc. split; [done|]. split; [done|]. congruence.
    + by apply (offsets_ok_quiet s).
    + apply Forall_app. by split; [|constructor].
    + by apply log_ok_snoc.
  - apply authenticate_err in Hs as ->. by rewrite app_nil_r.
Qed.

Lemma inv_run job m s log evs s' log' :
  Inv job m s log -> run s evs = (s', log') -> Inv job m s' (log ++ log').
Proof.
  revert s log log'; induction evs as [|ev evs IH]; intros s log log' Hinv; cbn [run].
  - intros [= <- <-]. by rewrite app_nil_r.
  - destruct (step s ev) as [s1 r] eqn:Hs. pose proof (inv_step _ _ _ _ _ _ _ Hinv Hs) as H1.
    destruct r as [u|e]; [|rewrite app_nil_r in H1; by apply IH].
    destruct (run s1 evs) as [s2 l2] eqn:Hr. intros [= <- <-].
    rewrite (app_assoc log [ev] l2 : log ++ ev :: l2 = _). by eapply IH.
Qed.

Lemma inv_new job m : match m with Job max => 0 < max <= MAX_OUTPUT_BYTES | _ => True end ->
  Inv job m (new job m) [].
Proof.
  intros Hm. split; try done.
  - unfold offsets_ok. cbn. destruct m as [max|]; [|done].
    assert (MAX_OUTPUT_BYTES < U64_MAX) by done. split_and!; [done|done|lia|lia|by left].
  - intros [] ev after E; done.
Qed.

Lemma for_job_ok job max s : 0 <= max -> for_job job max = Ok s ->
  s = new job (Job max) /\ 0 < max <= MAX_OUTPUT_BYTES.
Proof.
  intros H0. unfold for_job. rewrite if_err_ok, orb_false_iff, Z.eqb_neq, Z.ltb_ge.
  intros (? & [= <-]). split; [done|lia].
Qed.

Lemma opened_log_inv log ev log' : opened (log ++ ev :: log') ->
  match ev with
  | Recv {| frame := Exit _ |} | Recv {| frame := Error _ |}
  | Recv {| frame := Receipt _ |} | Authenticate _ _ => False
  | _ => True
  end.
Proof.
  intros (n & h & body & E & Hb). destruct log as [|a log].
  - injection E as -> _. done.
  - injection E as _ <-. apply Forall_app in Hb as [_ Hb].
    apply Forall_cons in Hb as [Hb _]. destruct ev as [[? []]|]; done.
Qed.

(** Splitting a list that ends in [x]. *)
Lemma snoc_cases {A} (l : list A) x before ev after :
  l ++ [x] = before ++ ev :: after ->
  (after = [] /\ before = l /\ ev = x) \/
  (exists after', after = after' ++ [x] /\ l = before ++ ev :: after').
Proof.
  intros E. destruct after as [|y after _] using rev_ind.
  - apply app_inj_tail in E as [-> ->]. by left.
  - rewrite app_comm_cons, app_assoc in E. apply app_inj_tail in E as [-> ->]. right. eauto.
Qed.

(** A session is opened for a job or for a receipt query. *)
Definition open_session (job : bytes) (m : HelperMode)
  : result ProtocolError HelperSessionValidator :=
  match m with
  | Job max_output => for_job job max_output
  | ReceiptQuery => Ok (for_receipt_query job)
  end.

Definition wf_mode (m : HelperMode) : Prop :=
  match m with Job max => is_u64 max | ReceiptQuery => True end.

Lemma session_inv job m s evs s' log :
  wf_mode m -> open_session job m = Ok s -> run s evs = (s', log) -> Inv job m s' log.
Proof.
  intros Hm Hs Hr. apply (inv_run job m s []) with (evs := evs); [|done].
  destruct m as [max|]; cbn in Hs, Hm.
  - apply for_job_ok in Hs as [-> Hmax]; [|by destruct Hm]. by apply inv_new.
  - injection Hs as <-. by apply inv_new.
Qed.

(** Where an Exit can be in a log. *)
Lemma shape_exit s log before n e after :
  shape s log -> log = before ++ Recv {| sequence := n; frame := Exit e |} :: after ->
  after = [] /\ authenticated before {| term_outcome := outcome e;
                                        term_completed_unix_ms := completed_unix_ms e |}.
Proof.
  assert (forall l t, authenticated l t ->
    forall b' a', l = b' ++ Recv {| sequence := n; frame := Exit e |} :: a' -> False) as Hauth.
  { intros l t (l0 & k & r & b & Hop & -> & _) b' a' E.
    rewrite (app_assoc l0 [_] [_] : l0 ++ [_; _] = _) in E.
    apply snoc_cases in E as [(_ & _ & ?)|(a1 & -> & E)]; [done|].
    apply snoc_cases in E as [(_ & _ & ?)|(a2 & -> & ->)]; [done|].
    by apply opened_log_inv in Hop. }
  unfold shape. intros Hs ->. destruct (phase s).
  - by destruct before.
  - by apply opened_log_inv in Hs.
  - destruct Hs as (l0 & k & r & Hop & E & _).
    symmetry in E. apply snoc_cases in E as [(_ & _ & ?)|(a1 & -> & ->)]; [done|].
    by apply opened_log_inv in Hop.
  - destruct Hs as (t & _ & Ha). exfalso. by eapply Hauth.
  - destruct Hs as [(l0 & k & er & Hop & E)|(l0 & k & ex & Ha & E)]; symmetry in E;
      apply snoc_cases in E as [(-> & -> & [=])|(a1 & -> & ->)].
    + by apply opened_log_inv in Hop.
    + subst. done.
    + exfalso. by eapply Hauth.
Qed.

(** C17: an accepted Exit is the last frame of its session, is about the
    session's job, and reports exactly the outcome and completion time with
    which the caller authenticated the receipt frame accepted immediately
    before: no Exit is believed without an authenticated receipt that says the
    same.  This holds however many rejected frames are interleaved. *)
Theorem exit_requires_authenticated_receipt job m s evs s' log before n e after :
  wf_mode m -> open_session job m = Ok s -> run s evs = (s', log) ->
  log = before ++ Recv {| sequence := n; frame := Exit e |} :: after ->
  after = [] /\ exit_job_id e = job /\
  exists log0 k r b,
    before = log0 ++ [Recv {| sequence := k; frame := Receipt r |};
                      Authenticate b {| term_outcome := outcome e;
                                        term_completed_unix_ms := completed_unix_ms e |}] /\
    receipt_job_id r = job /\ sha256 b = sha256 (receipt_bytes r).
Proof.
  intros Hm Hs Hr E. destruct (session_inv _ _ _ _ _ _ Hm Hs Hr) as [_ _ _ Hsh _ _ Hlog].
  destruct (shape_exit _ _ _ _ _ _ Hsh E) as [-> (l0 & k & r & b & _ & Eb & Hd)].
  split; [done|]. split; [by destruct (Hlog _ _ _ E)|].
  exists l0, k, r, b. split; [done|]. split; [|done].
  rewrite Eb, <-app_assoc in E. by destruct (Hlog _ _ _ E).
Qed.

(** In every session, whatever frames are offered, the accepted frames are
    numbered 0, 1, 2, ...; the accepted output chunks of each stream are
    contiguous from offset 0; heartbeats strictly increase and count the bytes
    accepted; and all carry the session's job identifier. *)
Theorem accepted_frames_in_order job m s evs s' log before ev after :
  wf_mode m -> open_session job m = Ok s -> run s evs = (s', log) ->
  log = before ++ ev :: after -> event_ok job m before ev.
Proof.
  intros Hm Hs Hr. destruct (session_inv _ _ _ _ _ _ Hm Hs Hr) as [_ _ _ _ _ _ Hlog].
  apply Hlog.
Qed.

(** The output accepted in a session never exceeds the budget the job was
    started with, stdout and stderr together; a receipt query accepts none. *)
Theorem accepted_output_within_budget job m s evs s' log :
  wf_mode m -> open_session job m = Ok s -> run s evs = (s', log) ->
  total stdout_of log + total stderr_of log <=
  match m with Job max => max | ReceiptQuery => 0 end.
Proof.
  intros Hm Hs Hr. destruct (session_inv _ _ _ _ _ _ Hm Hs Hr) as [_ Em _ _ Hoff _ _].
  destruct Hoff as (_ & _ & Hoff). rewrite Em in Hoff. destruct m; lia.
Qed.

(** A frame the helper validator rejects leaves it as it was, except that
    an output chunk at the expected offset that would break the budget moves
    the offset past the budget; phase, sequence number and receipt state are
    untouched in both cases. *)
Theorem rejected_frame_effect s e s' err :
  validate s e = (s', Err err) -> s' = s \/ (phase s = PStreaming /\ overshoot s s').
Proof. apply validate_err. Qed.

End with_sha.
End Helper.

(** ** A concrete session *)
Module RemoteSessionRuns.
Import StandIn Helper.

Definition job : bytes := replicate 16 x01.
Definition term : AuthenticatedTerminal :=
  {| term_outcome := Exited 0; term_completed_unix_ms := 99 |}.
Definition chunk (off : Z) (d : bytes) : OutputFrame :=
  {| output_job_id := job; output_offset := off; output_data := d |}.
Definition recv (n : Z) (f : Frame) : event := Recv {| sequence := n; frame := f |}.

(** Hello, output, a replayed chunk (rejected), a receipt, its authentication,
    the Exit, and a late chunk (rejected). *)
Definition script : list event :=
  [ recv 0 (Hello {| max_frame_payload := 4096; feature_bits := 0; effective_uid := 1000 |});
    recv 1 (Stdout (chunk 0 (rs "hel")));
    recv 2 (Stdout (chunk 0 (rs "hel")));
    recv 2 (Stdout (chunk 3 (rs "lo")));
    recv 3 (Receipt {| receipt_job_id := job; receipt_bytes := rs "receipt" |});
    Authenticate (rs "receipt") term;
    recv 4 (Exit {| exit_job_id := job; outcome := Exited 0; completed_unix_ms := 99 |});
    recv 5 (Stdout (chunk 5 (rs "x"))) ].

Definition fresh : HelperSessionValidator := new job (Job 8).
Definition log : list event := snd (run fresh script).

Lemma exit_requires_authenticated_receipt_witness :
  length log = 6%nat /\ exists log0 k r b,
    take 5 log = log0 ++ [recv k (Receipt r); Authenticate b term] /\
    receipt_job_id r = job /\ sha256 b = sha256 (receipt_bytes r).
Proof.
  split; [vm_compute; reflexivity|].
  destruct (exit_requires_authenticated_receipt job (Job 8) fresh script
    (fst (run fresh script)) log (take 5 log) 4
    {| exit_job_id := job; outcome := Exited 0; completed_unix_ms := 99 |} [])
    as (_ & _ & H); [by vm_compute|vm_compute; reflexivity..|exact H].
Defined.

Lemma accepted_frames_in_order_witness :
  event_ok job (Job 8) (take 2 log) (recv 2 (Stdout (chunk 3 (rs "lo")))).
Proof.
  apply (accepted_frames_in_order job (Job 8) fresh script (fst (run fresh script)) log _ _
    (drop 3 log)); [by vm_compute|vm_compute; reflexivity..].
Defined.

Lemma accepted_output_within_budget_witness :
  total stdout_of log = 5 /\ total stdout_of log + total stderr_of log <= 8.
Proof.
  split; [vm_compute; reflexivity|].
  apply (accepted_output_within_budget job (Job 8) fresh script (fst (run fresh script)));
    [by vm_compute|vm_compute; reflexivity..].
Defined.

(** Nine bytes in a session of eight: rejected, and the offset has moved. *)
Definition streaming : HelperSessionValidator := set_phase PStreaming fresh.
Definition big : Envelope :=
  {| sequence := 0; frame := Stdout (chunk 0 (rs "123456789")) |}.

Lemma rejected_frame_effect_witness :
  let s' := fst (validate streaming big) in
  stdout_offset s' = 9 /\
  (s' = streaming \/ (phase streaming = PStreaming /\ overshoot streaming s')).
Proof.
  split; [vm_compute; reflexivity|].
  apply (rejected_frame_effect streaming big _ (InvalidState "output budget exceeded")).
  vm_compute. reflexivity.
Defined.

End RemoteSessionRuns.
