(* ===== verification/Jobs.v ===== *)
(** * serctl-jobs: job records, authenticated receipts, reconciliation

    crates/serctl_jobs/src/lib.rs: the job record and its stage machine, the
    fixed-width receipt with its HMAC, [reconcile], and the journal encoding.
    Errors are [anyhow] messages.  A [&mut self] method that fails has not
    changed the record, so it is modelled as a result of the new record. *)

From S2P Require Import Prelude.
From S2P Require Import Bytes.
From S2P Require Import Text.
From S2P Require Import Codec.
From S2P Require Import Crates.
From S2P Require Import RemoteProtocol.
From S2P Require Import RemoteCodec.
#[local] Open Scope string_scope.
#[local] Open Scope list_scope.
#[local] Open Scope Z_scope.

Definition JOB_SCHEMA_VERSION : Z := 1.
Definition RECEIPT_VERSION : Z := 1.
Definition MAX_JOURNAL_BYTES : Z := 16 * 1024.
Definition RECEIPT_BYTES : Z :=
  4 + 2 + 16 + 16 + 8 + 32 + 32 + 4 + (8 * 4) + 32 + 32 + 1 + 4 + 8 + 32 + 32.
Definition MAX_RELAY_WINDOW_MS : Z := 40 * 60 * 1000.
Definition MAX_RESULT_RETENTION_MS : Z := 24 * 60 * 60 * 1000.
Definition RECEIPT_MAGIC : bytes := rs "SRRC".
Definition TOKEN_HASH_DOMAIN : bytes := rs "serctl-job-token-v1" ++ [x00].
Definition RECEIPT_MAC_DOMAIN : bytes := rs "serctl-job-receipt-v1" ++ [x00].

(** ** Job records *)

Inductive JobStage :=
| Submitted | Running | Cancelling | Unknown | Completed | Failed | CancelledStage.

#[export] Instance JobStage_eq_dec : EqDecision JobStage.
Proof. solve_decision. Defined.

Definition is_terminal (s : JobStage) : bool :=
  match s with Completed | Failed | CancelledStage => true | _ => false end.

Record JobDeadlines := {
  remote_unix_ms : Z;
  relay_unix_ms : Z;
  retention_unix_ms : Z;
}.

Definition deadlines_validate_at (d : JobDeadlines) (now : Z) : result string unit :=
  ensure! now <? remote_unix_ms d or "remote deadline must be in the future" ;;
  ensure! remote_unix_ms d <=? relay_unix_ms d or "relay deadline precedes remote deadline" ;;
  ensure! relay_unix_ms d <=? retention_unix_ms d
    or "result retention precedes relay deadline" ;;
  ensure! saturating_sub (relay_unix_ms d) now <=? MAX_RELAY_WINDOW_MS
    or "relay deadline exceeds the 40-minute grant window" ;;
  ensure! saturating_sub (retention_unix_ms d) now <=? MAX_RESULT_RETENTION_MS
    or "result retention exceeds the policy ceiling" ;;
  Ok tt.

Record JobIdentity := {
  job_id : bytes;
  profile_id : bytes;
  profile_generation : Z;
  policy_digest : bytes;
  input_digest : bytes;
}.

(** [bytes.iter().any(|byte| *byte != 0)]. *)
Definition any_nonzero (b : bytes) : bool := existsb (fun x => negb (b8 x =? 0)) b.

Definition identity_validate (i : JobIdentity) : result string unit :=
  ensure! any_nonzero (job_id i) or "job identifier must be non-zero" ;;
  ensure! any_nonzero (profile_id i) or "profile identifier must be non-zero" ;;
  ensure! 0 <? profile_generation i or "profile generation must be non-zero" ;;
  ensure! any_nonzero (policy_digest i) or "policy digest must be non-zero" ;;
  ensure! any_nonzero (input_digest i) or "input digest must be non-zero" ;;
  Ok tt.

#[export] Instance JobDeadlines_eq_dec : EqDecision JobDeadlines.
Proof. solve_decision. Defined.
#[export] Instance JobIdentity_eq_dec : EqDecision JobIdentity.
Proof. solve_decision. Defined.

Record JobRecord := {
  identity : JobIdentity;
  deadlines : JobDeadlines;
  record_run_as_uid : Z;
  stage : JobStage;
  record_heartbeat_ordinal : Z;
  record_elapsed_ms : Z;
  record_stdout_bytes : Z;
  record_stderr_bytes : Z;
  record_max_output_bytes : Z;
  updated_unix_ms : Z;
}.

#[export] Instance JobRecord_eq_dec : EqDecision JobRecord.
Proof. solve_decision. Defined.

(** [self.stage = stage; self.updated_unix_ms = now]. *)
Definition set_stage (r : JobRecord) (s : JobStage) (now : Z) : JobRecord :=
  {| identity := identity r; deadlines := deadlines r;
     record_run_as_uid := record_run_as_uid r; stage := s;
     record_heartbeat_ordinal := record_heartbeat_ordinal r;
     record_elapsed_ms := record_elapsed_ms r;
     record_stdout_bytes := record_stdout_bytes r;
     record_stderr_bytes := record_stderr_bytes r;
     record_max_output_bytes := record_max_output_bytes r; updated_unix_ms := now |}.

Definition submitted (i : JobIdentity) (d : JobDeadlines) (uid max_output now : Z)
  : result string JobRecord :=
  try! identity_validate i ;;
  try! deadlines_validate_at d now ;;
  ensure! negb (uid =? 0) or "execution UID must be non-zero" ;;
  ensure! 0 <? max_output or "output budget must be non-zero" ;;
  Ok {| identity := i; deadlines := d; record_run_as_uid := uid; stage := Submitted;
        record_heartbeat_ordinal := 0; record_elapsed_ms := 0; record_stdout_bytes := 0;
        record_stderr_bytes := 0; record_max_output_bytes := max_output;
        updated_unix_ms := now |}.

Definition mark_running (r : JobRecord) (now : Z) : result string JobRecord :=
  ensure! bool_decide (stage r = Submitted) or "job can enter running only from submitted" ;;
  ensure! updated_unix_ms r <=? now or "job clock moved backwards" ;;
  ensure! now <? remote_unix_ms (deadlines r) or "remote deadline already elapsed" ;;
  Ok (set_stage r Running now).

Definition observe_heartbeat (r : JobRecord) (h : HeartbeatFrame) (now : Z)
  : result string JobRecord :=
  ensure! match stage r with Running | Cancelling => true | _ => false end
    or "heartbeat is invalid in the current stage" ;;
  ensure! bool_decide (heartbeat_job_id h = job_id (identity r)) or "heartbeat job mismatch" ;;
  ensure! record_heartbeat_ordinal r <? ordinal h or "heartbeat replay or reordering" ;;
  ensure! record_elapsed_ms r <=? elapsed_ms h or "elapsed time regressed" ;;
  ensure! (record_stdout_bytes r <=? stdout_bytes h) && (record_stderr_bytes r <=? stderr_bytes h)
    or "output counters regressed" ;;
  ensure! saturating_add U64_MAX (stdout_bytes h) (stderr_bytes h) <=? record_max_output_bytes r
    or "output budget exceeded" ;;
  ensure! updated_unix_ms r <=? now or "job clock moved backwards" ;;
  Ok {| identity := identity r; deadlines := deadlines r;
        record_run_as_uid := record_run_as_uid r; stage := stage r;
        record_heartbeat_ordinal := ordinal h; record_elapsed_ms := elapsed_ms h;
        record_stdout_bytes := stdout_bytes h; record_stderr_bytes := stderr_bytes h;
        record_max_output_bytes := record_max_output_bytes r; updated_unix_ms := now |}.

Definition request_cancel (r : JobRecord) (now : Z) : result string JobRecord :=
  ensure! bool_decide (stage r = Running) or "job is not cancellable" ;;
  ensure! updated_unix_ms r <=? now or "job clock moved backwards" ;;
  Ok (set_stage r Cancelling now).

Definition mark_unknown (r : JobRecord) (now : Z) : result string JobRecord :=
  ensure! negb (is_terminal (stage r)) or "terminal jobs cannot become unknown" ;;
  ensure! updated_unix_ms r <=? now or "job clock moved backwards" ;;
  Ok (set_stage r Unknown now).

(** ** Receipts *)

(** [ReceiptOutcome] has the constructors of the protocol's [ExitOutcome]. *)
Inductive ReceiptOutcome :=
| RExited (code : Z)
| RCancelled
| RDeadlineExceeded.

#[export] Instance ReceiptOutcome_eq_dec : EqDecision ReceiptOutcome.
Proof. solve_decision. Defined.

Record ReceiptBody := {
  body_identity : JobIdentity;
  body_run_as_uid : Z;
  body_deadlines : JobDeadlines;
  body_max_output_bytes : Z;
  stdout_digest : bytes;
  stderr_digest : bytes;
  body_outcome : ReceiptOutcome;
  body_completed_unix_ms : Z;
}.

#[export] Instance ReceiptBody_eq_dec : EqDecision ReceiptBody.
Proof. solve_decision. Defined.

Record AuthenticatedReceipt := {
  body : ReceiptBody;
  token_hash : bytes;
  mac : bytes;
}.

Definition canonical_outcome (o : ReceiptOutcome) : bytes :=
  match o with
  | RExited code => [x00] ++ be_i32 code
  | RCancelled => [x01] ++ be_i32 0
  | RDeadlineExceeded => [x02] ++ be_i32 0
  end.

Definition canonical_receipt_body (b : ReceiptBody) : bytes :=
  RECEIPT_MAGIC ++ be16 RECEIPT_VERSION
  ++ job_id (body_identity b) ++ profile_id (body_identity b)
  ++ be64 (profile_generation (body_identity b))
  ++ policy_digest (body_identity b) ++ input_digest (body_identity b)
  ++ be32 (body_run_as_uid b)
  ++ be64 (remote_unix_ms (body_deadlines b)) ++ be64 (relay_unix_ms (body_deadlines b))
  ++ be64 (retention_unix_ms (body_deadlines b))
  ++ be64 (body_max_output_bytes b)
  ++ stdout_digest b ++ stderr_digest b
  ++ canonical_outcome (body_outcome b)
  ++ be64 (body_completed_unix_ms b).

Definition receipt_encode (r : AuthenticatedReceipt) : bytes :=
  canonical_receipt_body (body r) ++ token_hash r ++ mac r.

(** The cursor helpers [take_array], [take_u8], ...: the buffer and the cursor
    are those of a [PayloadReader]. *)
Definition take_array (n : Z) : reader PayloadReader string bytes := fun r =>
  match checked_add USIZE_MAX (pr_cursor r) n with
  | None => Err "receipt length overflow"
  | Some end_ =>
      if (pr_cursor r <=? end_) && (end_ <=? zlen (pr_bytes r))
      then Ok (slice (pr_bytes r) (pr_cursor r) end_,
               {| pr_bytes := pr_bytes r; pr_cursor := end_ |})
      else Err "receipt is truncated"
  end.
Definition take_u8 : reader PayloadReader string Z := read_be take_array 1.
Definition take_i32 : reader PayloadReader string Z :=
  do x <- take_array 4 ;; ret (of_be_i32 x).
Definition take_u32 : reader PayloadReader string Z := read_be take_array 4.
Definition take_u64 : reader PayloadReader string Z := read_be take_array 8.

Definition ordered (d : JobDeadlines) : bool :=
  (remote_unix_ms d <=? relay_unix_ms d) && (relay_unix_ms d <=? retention_unix_ms d).

Definition decode_fields : reader PayloadReader string AuthenticatedReceipt :=
  do job <- take_array 16 ;;
  do profile <- take_array 16 ;;
  do generation <- take_u64 ;;
  do policy <- take_array 32 ;;
  do input <- take_array 32 ;;
  do uid <- take_u32 ;;
  do remote <- take_u64 ;;
  do relay <- take_u64 ;;
  do retention <- take_u64 ;;
  do max_output <- take_u64 ;;
  do out_digest <- take_array 32 ;;
  do err_digest <- take_array 32 ;;
  do outcome_kind <- take_u8 ;;
  do exit_code <- take_i32 ;;
  do outcome <- lift (match outcome_kind, exit_code with
                      | 0, code => Ok (RExited code)
                      | 1, 0 => Ok RCancelled
                      | 2, 0 => Ok RDeadlineExceeded
                      | _, _ => Err "receipt outcome is invalid"
                      end) ;;
  do completed <- take_u64 ;;
  do hash <- take_array 32 ;;
  do tag <- take_array 32 ;;
  ret {| body := {| body_identity := {| job_id := job; profile_id := profile;
                      profile_generation := generation; policy_digest := policy;
                      input_digest := input |};
                    body_run_as_uid := uid;
                    body_deadlines := {| remote_unix_ms := remote; relay_unix_ms := relay;
                      retention_unix_ms := retention |};
                    body_max_output_bytes := max_output;
                    stdout_digest := out_digest; stderr_digest := err_digest;
                    body_outcome := outcome; body_completed_unix_ms := completed |};
         token_hash := hash; mac := tag |}.

Definition receipt_decode (b : bytes) : result string AuthenticatedReceipt :=
  ensure! zlen b =? RECEIPT_BYTES or "receipt length is invalid" ;;
  ensure! bool_decide (slice b 0 4 = RECEIPT_MAGIC) or "receipt magic is invalid" ;;
  let version := of_be (slice b 4 6) in
  ensure! version =? RECEIPT_VERSION or "receipt version is unsupported" ;;
  match decode_fields {| pr_bytes := b; pr_cursor := 6 |} with
  | Err e => Err e
  | Ok (receipt, r) =>
      ensure! pr_cursor r =? zlen b or "receipt has trailing bytes" ;;
      try! identity_validate (body_identity (body receipt)) ;;
      ensure! negb (body_run_as_uid (body receipt) =? 0) or "receipt execution UID is invalid" ;;
      ensure! ordered (body_deadlines (body receipt))
        or "receipt deadline ordering is invalid" ;;
      ensure! 0 <? body_max_output_bytes (body receipt) or "receipt output budget is invalid" ;;
      Ok receipt
  end.

Section with_crypto.
Context `{Sha2, HmacSha2}.

Definition hash_token (token : bytes) : bytes := sha256 (TOKEN_HASH_DOMAIN ++ token).

(** HMAC accepts keys of any length: [new_from_slice] does not fail. *)
Definition receipt_mac (token canonical hash : bytes) : bytes :=
  hmac_sha256 token (RECEIPT_MAC_DOMAIN ++ canonical ++ hash).

Definition issue (b : ReceiptBody) (token : bytes) : result string AuthenticatedReceipt :=
  try! identity_validate (body_identity b) ;;
  ensure! negb (body_run_as_uid b =? 0) or "execution UID must be non-zero" ;;
  ensure! ordered (body_deadlines b) or "receipt deadline ordering is invalid" ;;
  ensure! 0 <? body_max_output_bytes b or "receipt output budget must be non-zero" ;;
  ensure! 0 <? body_completed_unix_ms b or "completion time must be non-zero" ;;
  let hash := hash_token token in
  let canonical := canonical_receipt_body b in
  let tag := receipt_mac token canonical hash in
  Ok {| body := b; token_hash := hash; mac := tag |}.

Definition verify (r : AuthenticatedReceipt) (expected : JobIdentity) (d : JobDeadlines)
    (uid max_output : Z) (token : bytes) (now : Z) : result string ReceiptBody :=
  ensure! bool_decide (body_identity (body r) = expected) or "receipt identity mismatch" ;;
  ensure! (body_run_as_uid (body r) =? uid) && negb (uid =? 0)
    or "receipt execution UID mismatch" ;;
  ensure! bool_decide (body_deadlines (body r) = d) or "receipt deadlines mismatch" ;;
  ensure! (body_max_output_bytes (body r) =? max_output) && negb (max_output =? 0)
    or "receipt output budget mismatch" ;;
  ensure! body_completed_unix_ms (body r) <=? relay_unix_ms d
    or "receipt completion exceeds relay deadline" ;;
  ensure! body_completed_unix_ms (body r) <=? now or "receipt completion is in the future" ;;
  ensure! now <=? retention_unix_ms d or "receipt retention expired" ;;
  ensure! bool_decide (hash_token token = token_hash r) or "receipt token mismatch" ;;
  let canonical := canonical_receipt_body (body r) in
  let expected_mac := receipt_mac token canonical (token_hash r) in
  ensure! bool_decide (expected_mac = mac r) or "receipt authentication failed" ;;
  Ok (body r).

(** ** Reconciliation *)

Inductive ReconcileOutcome :=
| StillUnknown (record : JobRecord)
| Recovered (record : JobRecord) (receipt : ReceiptBody).

Definition stage_of_outcome (o : ReceiptOutcome) : JobStage :=
  match o with
  | RExited 0 => Completed
  | RExited _ | RDeadlineExceeded => Failed
  | RCancelled => CancelledStage
  end.

Definition reconcile (record : JobRecord) (receipt_bytes : option bytes) (token : bytes)
    (now : Z) : result string ReconcileOutcome :=
  match receipt_bytes with
  | None =>
      ensure! updated_unix_ms record <=? now or "job clock moved backwards" ;;
      Ok (StillUnknown (set_stage record Unknown now))
  | Some b =>
      let* receipt := receipt_decode b in
      let* body := verify receipt (identity record) (deadlines record)
                     (record_run_as_uid record) (record_max_output_bytes record) token now in
      Ok (Recovered (set_stage record (stage_of_outcome (body_outcome body))
                       (body_completed_unix_ms body)) body)
  end.

End with_crypto.

(** ** The journal *)

Record DiskJobRecord := {
  schema_version : Z;
  disk_job_id : str;
  disk_profile_id : str;
  disk_profile_generation : Z;
  disk_policy_digest : str;
  disk_input_digest : str;
  disk_remote_deadline_unix_ms : Z;
  disk_relay_deadline_unix_ms : Z;
  disk_result_retention_unix_ms : Z;
  disk_run_as_uid : Z;
  disk_stage : JobStage;
  disk_heartbeat_ordinal : Z;
  disk_elapsed_ms : Z;
  disk_stdout_bytes : Z;
  disk_stderr_bytes : Z;
  disk_max_output_bytes : Z;
  disk_updated_unix_ms : Z;
}.

#[export] Instance DiskJobRecord_eq_dec : EqDecision DiskJobRecord.
Proof. solve_decision. Defined.

Section with_serde.
Context `{Hex, Json DiskJobRecord}.

Definition to_disk (r : JobRecord) : DiskJobRecord := {|
  schema_version := JOB_SCHEMA_VERSION;
  disk_job_id := hex_encode (job_id (identity r));
  disk_profile_id := hex_encode (profile_id (identity r));
  disk_profile_generation := profile_generation (identity r);
  disk_policy_digest := hex_encode (policy_digest (identity r));
  disk_input_digest := hex_encode (input_digest (identity r));
  disk_remote_deadline_unix_ms := remote_unix_ms (deadlines r);
  disk_relay_deadline_unix_ms := relay_unix_ms (deadlines r);
  disk_result_retention_unix_ms := retention_unix_ms (deadlines r);
  disk_run_as_uid := record_run_as_uid r;
  disk_stage := stage r;
  disk_heartbeat_ordinal := record_heartbeat_ordinal r;
  disk_elapsed_ms := record_elapsed_ms r;
  disk_stdout_bytes := record_stdout_bytes r;
  disk_stderr_bytes := record_stderr_bytes r;
  disk_max_output_bytes := record_max_output_bytes r;
  disk_updated_unix_ms := updated_unix_ms r |}.

Definition encode_journal (r : JobRecord) : result string bytes :=
  let* b := ok_or (to_vec (to_disk r)) "serialize job journal" in
  ensure! zlen b <=? MAX_JOURNAL_BYTES or "job journal exceeds size limit" ;;
  Ok b.

Definition decode_hex_array (n : Z) (value : str) (field : string) : result string bytes :=
  ensure! zlen value =? n * 2 or (field ++ " has invalid length")%string ;;
  let* b := ok_or (hex_decode value) ("decode " ++ field)%string in
  ensure! zlen b =? n or (field ++ " has invalid length")%string ;;
  Ok b.

Definition decode_journal (b : bytes) : result string JobRecord :=
  ensure! negb (is_empty b) && (zlen b <=? MAX_JOURNAL_BYTES)
    or "job journal size is invalid" ;;
  let* disk := ok_or (from_slice b) "parse job journal" in
  ensure! schema_version disk =? JOB_SCHEMA_VERSION or "job journal schema is unsupported" ;;
  let* job := decode_hex_array 16 (disk_job_id disk) "job_id" in
  let* profile := decode_hex_array 16 (disk_profile_id disk) "profile_id" in
  let* policy := decode_hex_array 32 (disk_policy_digest disk) "policy_digest" in
  let* input := decode_hex_array 32 (disk_input_digest disk) "input_digest" in
  let i := {| job_id := job; profile_id := profile;
              profile_generation := disk_profile_generation disk;
              policy_digest := policy; input_digest := input |} in
  try! identity_validate i ;;
  let record := {|
    identity := i;
    deadlines := {| remote_unix_ms := disk_remote_deadline_unix_ms disk;
                    relay_unix_ms := disk_relay_deadline_unix_ms disk;
                    retention_unix_ms := disk_result_retention_unix_ms disk |};
    record_run_as_uid := disk_run_as_uid disk;
    stage := disk_stage disk;
    record_heartbeat_ordinal := disk_heartbeat_ordinal disk;
    record_elapsed_ms := disk_elapsed_ms disk;
    record_stdout_bytes := disk_stdout_bytes disk;
    record_stderr_bytes := disk_stderr_bytes disk;
    record_max_output_bytes := disk_max_output_bytes disk;
    updated_unix_ms := disk_updated_unix_ms disk |} in
  ensure! negb (record_run_as_uid record =? 0) or "journal execution UID is invalid" ;;
  ensure! 0 <? record_max_output_bytes record or "journal output budget is invalid" ;;
  ensure! saturating_add U64_MAX (record_stdout_bytes record) (record_stderr_bytes record)
          <=? record_max_output_bytes record or "journal output counters exceed budget" ;;
  ensure! ordered (deadlines record) or "journal deadline ordering is invalid" ;;
  Ok record.

End with_serde.

(** ** Reading receipts back *)

Lemma take_array_pr n r x : take_array n r = Ok x <-> pr_take n r = Ok x.
Proof.
  unfold take_array, pr_take, slice. destruct (checked_add _ _ _); [|done].
  destruct (_ && _); naive_solver.
Qed.

#[local] Instance take_array_exact : ExactRead take_array.
Proof.
  split.
  - intros r x rest Hx Hv. destruct (take_exact_complete r x rest Hx Hv) as (r' & E & Hv').
    exists r'. by rewrite take_array_pr.
  - intros n r rem x r' Hn Hv Hr. rewrite take_array_pr in Hr. by eapply take_exact_sound.
Qed.

Lemma consumes_take_u8 v : 0 <= v < 256 -> consumes take_u8 (be_bytes 1 v) v.
Proof. intros. by apply (consumes_read_be take_array). Qed.
Lemma consumes_take_u32 v : is_u32 v -> consumes take_u32 (be32 v) v.
Proof. intros. by apply (consumes_read_be take_array), is_u32_range. Qed.
Lemma consumes_take_u64 v : is_u64 v -> consumes take_u64 (be64 v) v.
Proof. intros. by apply (consumes_read_be take_array), is_u64_range. Qed.
Lemma consumes_take_i32 v : is_i32 v -> consumes take_i32 (be_i32 v) v.
Proof.
  intros Hv. unfold take_i32. eapply consumes_last; [by apply (consumes_take take_array)|].
  rewrite of_be_i32_be by done. apply consumes_ret.
Qed.

#[local] Instance Parses_take_u8 : Parses take_u8 (be_bytes 1) (fun v => 0 <= v < 256).
Proof. apply (parses_read_be take_array 1). Qed.
#[local] Instance Parses_take_u32 : Parses take_u32 be32 is_u32.
Proof.
  intros s rem v s' Hv Hp. rewrite is_u32_range. by apply (parses_read_be take_array 4 s).
Qed.
#[local] Instance Parses_take_u64 : Parses take_u64 be64 is_u64.
Proof.
  intros s rem v s' Hv Hp. rewrite is_u64_range. by apply (parses_read_be take_array 8 s).
Qed.
#[local] Instance Parses_take_i32 : Parses take_i32 be_i32 is_i32.
Proof.
  intros s rem v s' Hv Hp. unfold take_i32 in Hp. inv_read. parse_next.
  apply (zlen_length x 4) in Hok. split; [by apply of_be_i32_range|].
  exists rest. by rewrite be_i32_of_be.
Qed.

(** ** Well-typed receipts *)

Record wf_identity (i : JobIdentity) : Prop := {
  wf_job_id : zlen (job_id i) = 16;
  wf_profile_id : zlen (profile_id i) = 16;
  wf_generation : is_u64 (profile_generation i);
  wf_policy_digest : zlen (policy_digest i) = 32;
  wf_input_digest : zlen (input_digest i) = 32;
}.

Record wf_deadlines (d : JobDeadlines) : Prop := {
  wf_remote : is_u64 (remote_unix_ms d);
  wf_relay : is_u64 (relay_unix_ms d);
  wf_retention : is_u64 (retention_unix_ms d);
}.

Record wf_body (b : ReceiptBody) : Prop := {
  wf_body_identity : wf_identity (body_identity b);
  wf_body_uid : is_u32 (body_run_as_uid b);
  wf_body_deadlines : wf_deadlines (body_deadlines b);
  wf_body_max : is_u64 (body_max_output_bytes b);
  wf_body_stdout : zlen (stdout_digest b) = 32;
  wf_body_stderr : zlen (stderr_digest b) = 32;
  wf_body_outcome : match body_outcome b with RExited c => is_i32 c | _ => True end;
  wf_body_completed : is_u64 (body_completed_unix_ms b);
}.

Record wf_receipt (r : AuthenticatedReceipt) : Prop := {
  wf_receipt_body : wf_body (body r);
  wf_receipt_hash : zlen (token_hash r) = 32;
  wf_receipt_mac : zlen (mac r) = 32;
}.

(** What [decode] checks of a receipt's contents. *)
Definition body_ok (b : ReceiptBody) : Prop :=
  identity_validate (body_identity b) = Ok tt /\ body_run_as_uid b <> 0 /\
  ordered (body_deadlines b) = true /\ 0 < body_max_output_bytes b.

(** The encoding after magic and version. *)
Definition field_bytes (r : AuthenticatedReceipt) : bytes :=
  drop 6 (receipt_encode r).

Lemma receipt_encode_fields r : receipt_encode r =
  RECEIPT_MAGIC ++ be16 RECEIPT_VERSION ++ field_bytes r.
Proof. done. Qed.

Lemma field_bytes_eq r : field_bytes r =
  job_id (body_identity (body r)) ++ profile_id (body_identity (body r))
  ++ be64 (profile_generation (body_identity (body r)))
  ++ policy_digest (body_identity (body r)) ++ input_digest (body_identity (body r))
  ++ be32 (body_run_as_uid (body r))
  ++ be64 (remote_unix_ms (body_deadlines (body r)))
  ++ be64 (relay_unix_ms (body_deadlines (body r)))
  ++ be64 (retention_unix_ms (body_deadlines (body r)))
  ++ be64 (body_max_output_bytes (body r))
  ++ stdout_digest (body r) ++ stderr_digest (body r)
  ++ canonical_outcome (body_outcome (body r))
  ++ be64 (body_completed_unix_ms (body r)) ++ token_hash r ++ mac r.
Proof.
  unfold field_bytes, receipt_encode, canonical_receipt_body.
  rewrite <-!app_assoc. reflexivity.
Qed.

Lemma canonical_outcome_be o : canonical_outcome o =
  match o with
  | RExited c => be_bytes 1 0 ++ be_i32 c
  | RCancelled => be_bytes 1 1 ++ be_i32 0
  | RDeadlineExceeded => be_bytes 1 2 ++ be_i32 0
  end.
Proof. by destruct o. Qed.

Ltac receipt_field :=
  lazymatch goal with
  | |- consumes (take_array _) _ _ =>
      apply (consumes_take take_array); [assumption | done]
  | |- consumes take_u32 _ _ => apply consumes_take_u32; assumption
  | |- consumes take_u64 _ _ => apply consumes_take_u64; assumption
  end.

Lemma consumes_decode_fields r : wf_receipt r -> consumes decode_fields (field_bytes r) r.
Proof.
  intros [[[] ? [] ? ? ? Ho ?] ? ?]. rewrite field_bytes_eq, canonical_outcome_be.
  unfold decode_fields. do 12 (eapply consumes_bind; [receipt_field|]).
  destruct r as [[[j p g q i] u [d1 d2 d3] m so se o t] h tag];
    cbn [body token_hash mac body_identity body_run_as_uid body_deadlines
      body_max_output_bytes stdout_digest stderr_digest body_outcome body_completed_unix_ms
      job_id profile_id profile_generation policy_digest input_digest
      remote_unix_ms relay_unix_ms retention_unix_ms] in *.
  destruct o; rewrite <-!app_assoc;
    (eapply consumes_bind; [by apply consumes_take_u8|]);
    (eapply consumes_bind; [by apply consumes_take_i32|]);
    (eapply consumes_lift; [done|]);
    do 2 (eapply consumes_bind; [receipt_field|]);
    (eapply consumes_last; [receipt_field|]); apply consumes_ret.
Qed.

Lemma parses_decode_fields : parses decode_fields field_bytes wf_receipt.
Proof.
  intros s rem r s' Hv Hp. unfold decode_fields in Hp. inv_read. do 17 parse_next.
  assert (be_bytes 1 x11 ++ be_i32 x12 = canonical_outcome x13 /\
    match x13 with RExited c => is_i32 c | _ => True end) as [Eo Ho].
  { destruct x11 as [|[p|[]|]|], x12 as [| |]; inv_ok; done. }
  split; [by repeat (split; try assumption)|]. eexists; split; [|done].
  rewrite field_bytes_eq.
  cbn [body token_hash mac body_identity body_run_as_uid body_deadlines
      body_max_output_bytes stdout_digest stderr_digest body_outcome body_completed_unix_ms
      job_id profile_id profile_generation policy_digest input_digest
      remote_unix_ms relay_unix_ms retention_unix_ms].
  by rewrite <-Eo, <-!app_assoc.
Qed.

Lemma zlen_receipt_encode r : wf_receipt r -> zlen (receipt_encode r) = RECEIPT_BYTES.
Proof.
  intros [[[] ? [] ? ? ? Ho ?] ? ?]. rewrite receipt_encode_fields, field_bytes_eq.
  autorewrite with zlen. unfold be16, be32, be64. rewrite !zlen_be_bytes.
  assert (zlen (canonical_outcome (body_outcome (body r))) = 5) as ->
    by by destruct (body_outcome (body r)).
  unfold RECEIPT_BYTES. change (zlen RECEIPT_MAGIC) with 4. lia.
Qed.

(** The buffer itself is never changed. *)
Definition keeps {A} (p : reader PayloadReader string A) : Prop :=
  forall r x r', p r = Ok (x, r') -> pr_bytes r' = pr_bytes r.

Lemma keeps_ret {A} (a : A) : keeps (ret a).
Proof. intros r x r' H. by inv_read. Qed.
Lemma keeps_lift {A} (e : result string A) : keeps (lift e).
Proof. intros r x r' H. by inv_read. Qed.
Lemma keeps_bind {A B} (p : reader PayloadReader string A) (k : A -> reader _ _ B) :
  keeps p -> (forall a, keeps (k a)) -> keeps (bind p k).
Proof. intros Hp Hk r x r' H. inv_read. apply Hk in H as ->. by eapply Hp. Qed.
Lemma keeps_take n : keeps (take_array n).
Proof.
  intros r x r'. unfold take_array. destruct (checked_add _ _ _); [|done].
  destruct (_ && _); [|done]. by intros [= _ <-].
Qed.
Lemma keeps_be n : keeps (read_be take_array n).
Proof. apply keeps_bind; [apply keeps_take | intros; apply keeps_ret]. Qed.
Lemma keeps_i32 : keeps take_i32.
Proof. apply keeps_bind; [apply keeps_take | intros; apply keeps_ret]. Qed.

Create HintDb keeps discriminated.
#[local] Hint Resolve keeps_ret keeps_lift keeps_bind keeps_take keeps_be keeps_i32 : keeps.

Lemma keeps_decode_fields : keeps decode_fields.
Proof. unfold decode_fields, take_u8, take_u32, take_u64. auto 40 with keeps. Qed.

Lemma slices_of_prefix b : 6 <= zlen b ->
  b = slice b 0 4 ++ slice b 4 6 ++ drop 6 b /\ zlen (slice b 4 6) = 2.
Proof.
  intros Hb. unfold slice. cbn [Z.sub Z.to_nat].
  change (Z.to_nat (4 - 0)) with 4%nat. change (Z.to_nat (6 - 4)) with 2%nat.
  change (Z.to_nat 0) with 0%nat. change (Z.to_nat 4) with 4%nat. rewrite drop_0.
  split.
  - change (drop 6 b) with (drop (4 + 2) b). rewrite <-drop_drop, take_drop.
    by rewrite take_drop.
  - unfold zlen in *. rewrite length_take, length_drop. lia.
Qed.

Lemma view_at_6 b : 6 <= zlen b <= USIZE_MAX ->
  view {| pr_bytes := b; pr_cursor := 6 |} (drop 6 b).
Proof. intros [? ?]. split; [done|]. by split. Qed.

Lemma receipt_decode_sound b r :
  receipt_decode b = Ok r -> wf_receipt r /\ body_ok (body r) /\ b = receipt_encode r.
Proof.
  unfold receipt_decode. intros Hd. checks.
  destruct (slices_of_prefix b) as [Eb Hv2]; [rewrite Hr; done|].
  assert (view {| pr_bytes := b; pr_cursor := 6 |} (drop 6 b)) as Hv
    by (apply view_at_6; rewrite Hr; done).
  destruct (decode_fields _) as [[r0 st]|] eqn:Ed; [|done].
  checks. destruct (parses_decode_fields _ _ _ _ Hv Ed) as (Hwf & rest & Erem & Hv').
  pose proof (view_len _ _ Hv') as Hl. pose proof Hv' as (_ & _ & _).
  split; [done|]. split; [done|].
  rewrite receipt_encode_fields, <-Hr0, <-Hr1. unfold be16.
  rewrite be_bytes_of_be_n by by apply zlen_length.
  assert (rest = []) as ->; [|by rewrite app_nil_r in Erem; rewrite <-Erem].
  apply (f_equal zlen) in Eb. rewrite !zlen_app, Erem, zlen_app, Hr0 in Eb.
  pose proof (zlen_receipt_encode r Hwf) as Hz.
  rewrite receipt_encode_fields, !zlen_app in Hz. unfold be16 in Hz. rewrite zlen_be_bytes in Hz.
  apply zlen_zero. lia.
Qed.

Lemma receipt_decode_complete r :
  wf_receipt r -> body_ok (body r) -> receipt_decode (receipt_encode r) = Ok r.
Proof.
  intros Hwf (Hi & Hu & Hd & Hm). pose proof (zlen_receipt_encode r Hwf) as Hz.
  unfold receipt_decode. rewrite ensure_pass by by rewrite Hz.
  rewrite receipt_encode_fields in *.
  rewrite ensure_pass by by apply bool_decide_eq_true.
  change (of_be (slice (RECEIPT_MAGIC ++ be16 RECEIPT_VERSION ++ field_bytes r) 4 6))
    with RECEIPT_VERSION. rewrite ensure_pass by done.
  assert (view {| pr_bytes := RECEIPT_MAGIC ++ be16 RECEIPT_VERSION ++ field_bytes r;
                  pr_cursor := 6 |} (field_bytes r ++ [])) as Hv.
  { rewrite app_nil_r. apply view_at_6. by rewrite Hz. }
  destruct (consumes_decode_fields r Hwf _ _ Hv) as (st & E & Hv').
  apply keeps_decode_fields in E as Ek. cbn [pr_bytes] in Ek. pose proof (view_len _ _ Hv') as Hl.
  rewrite Ek, zlen_nil in Hl. rewrite E.
  rewrite ensure_pass by (apply Z.eqb_eq; lia). rewrite Hi. cbn [rbind].
  rewrite ensure_pass by by apply negb_true_iff, Z.eqb_neq.
  rewrite ensure_pass by done. by rewrite ensure_pass by by apply Z.ltb_lt.
Qed.

Section theory.
Context `{Sha2Laws, HmacSha2Laws}.

(** The one byte string that is the receipt of [b] under [token]. *)
Definition receipt_of (b : ReceiptBody) (token : bytes) : AuthenticatedReceipt :=
  {| body := b; token_hash := hash_token token;
     mac := receipt_mac token (canonical_receipt_body b) (hash_token token) |}.

Lemma wf_receipt_of b token : wf_body b -> wf_receipt (receipt_of b token).
Proof.
  intros Hb. split; [done|..]; cbn; unfold zlen.
  - unfold hash_token. by rewrite sha256_length.
  - unfold receipt_mac. by rewrite hmac_length.
Qed.

(** What [verify] binds a receipt to. *)
Record bound (b : ReceiptBody) (i : JobIdentity) (d : JobDeadlines) (uid max_output now : Z)
  : Prop := {
  bound_identity : body_identity b = i;
  bound_uid : body_run_as_uid b = uid /\ uid <> 0;
  bound_deadlines : body_deadlines b = d;
  bound_max : body_max_output_bytes b = max_output /\ max_output <> 0;
  bound_relay : body_completed_unix_ms b <= relay_unix_ms d;
  bound_now : body_completed_unix_ms b <= now;
  bound_retention : now <= retention_unix_ms d;
}.

Lemma verify_ok r i d uid max_output token now b :
  verify r i d uid max_output token now = Ok b <->
  r = receipt_of b token /\ bound b i d uid max_output now.
Proof.
  unfold verify. rewrite !seq_ok, !ensure_ok, !andb_true_iff, !bool_decide_eq_true, !Z.leb_le,
    !Z.eqb_eq, !negb_true_iff, !Z.eqb_neq. split.
  - intros Hv. destruct_and! Hv. destruct r as [rb h m]; cbn in *.
    match goal with E : Ok _ = Ok _ |- _ => injection E as <- end.
    subst. by split; [|split].
  - intros (-> & []). cbn. tauto.
Qed.

Lemma issue_ok b token r : issue b token = Ok r <->
  body_ok b /\ 0 < body_completed_unix_ms b /\ r = receipt_of b token.
Proof.
  unfold issue, body_ok. rewrite !seq_ok, !ensure_ok, negb_true_iff, Z.eqb_neq, !Z.ltb_lt.
  unfold receipt_of. naive_solver.
Qed.

(** Reconciling with a receipt, completely described. *)
Lemma reconcile_receipt record bs token now out :
  reconcile record (Some bs) token now = Ok out <->
  exists b, wf_body b /\ body_ok b /\
    bound b (identity record) (deadlines record) (record_run_as_uid record)
      (record_max_output_bytes record) now /\
    bs = receipt_encode (receipt_of b token) /\
    out = Recovered (set_stage record (stage_of_outcome (body_outcome b))
                       (body_completed_unix_ms b)) b.
Proof.
  unfold reconcile. split.
  - intros Hrec. inv_ok. apply receipt_decode_sound in Hr as ([Hwf _ _] & Hok & ->).
    apply verify_ok in Hr0 as (-> & Hb). eauto 10.
  - intros (b & Hwf & Hok & Hb & -> & ->).
    rewrite receipt_decode_complete by (done || by apply wf_receipt_of). cbn [rbind].
    by rewrite (proj2 (verify_ok _ _ _ _ _ _ _ b)).
Qed.

End theory.

(** ** Life of a record *)

Section lifecycle.
Context `{Sha2, HmacSha2}.

Inductive job_event :=
| EvRun (now : Z)
| EvHeartbeat (h : HeartbeatFrame) (now : Z)
| EvCancel (now : Z)
| EvUnknown (now : Z)
| EvReconcile (receipt : option bytes) (token : bytes) (now : Z).

(** A call on the record, and the record it leaves when it succeeds. *)
Definition job_step (r : JobRecord) (ev : job_event) : result string JobRecord :=
  match ev with
  | EvRun now => mark_running r now
  | EvHeartbeat h now => observe_heartbeat r h now
  | EvCancel now => request_cancel r now
  | EvUnknown now => mark_unknown r now
  | EvReconcile rc token now =>
      let* out := reconcile r rc token now in
      match out with
      | StillUnknown r' => Ok r'
      | Recovered r' _ => Ok r'
      end
  end.

(** The counters a heartbeat carries are [u64]. *)
Definition wf_event (ev : job_event) : Prop :=
  match ev with
  | EvHeartbeat h _ => is_u64 (stdout_bytes h) /\ is_u64 (stderr_bytes h)
  | _ => True
  end.

(** Records a job can have: submitted, then any successful calls; failed calls
    leave the record as it was. *)
Inductive reachable : JobRecord -> list job_event -> Prop :=
| reach_submit i d uid max_output now r :
    wf_identity i -> wf_deadlines d -> is_u32 uid -> is_u64 max_output ->
    submitted i d uid max_output now = Ok r -> reachable r []
| reach_step r evs ev r' :
    reachable r evs -> wf_event ev -> job_step r ev = Ok r' -> reachable r' (evs ++ [ev]).

(** What every record of a job satisfies. *)
Record record_ok (r : JobRecord) : Prop := {
  rec_wf_identity : wf_identity (identity r);
  rec_identity : identity_validate (identity r) = Ok tt;
  rec_wf_deadlines : wf_deadlines (deadlines r);
  rec_ordered : ordered (deadlines r) = true;
  rec_uid : record_run_as_uid r <> 0;
  rec_max : 0 < record_max_output_bytes r;
  rec_counters : 0 <= record_stdout_bytes r /\ 0 <= record_stderr_bytes r /\
    saturating_add U64_MAX (record_stdout_bytes r) (record_stderr_bytes r)
      <= record_max_output_bytes r;
}.

(** The parts of a record no call changes. *)
Definition same_job (r r' : JobRecord) : Prop :=
  identity r' = identity r /\ deadlines r' = deadlines r /\
  record_run_as_uid r' = record_run_as_uid r /\
  record_max_output_bytes r' = record_max_output_bytes r.

Lemma job_step_stage_only r s now : same_job r (set_stage r s now).
Proof. done. Qed.

Lemma set_stage_ok r s now : record_ok r -> record_ok (set_stage r s now).
Proof. by intros []. Qed.

Lemma job_step_cases r ev r' : job_step r ev = Ok r' ->
  (exists s now, r' = set_stage r s now) \/
  exists h now, ev = EvHeartbeat h now /\ observe_heartbeat r h now = Ok r'.
Proof.
  destruct ev as [now|h now|now|now|[b|] token now]; cbn [job_step].
  - unfold mark_running. intros. checks. eauto.
  - eauto.
  - unfold request_cancel. intros. checks. eauto.
  - unfold mark_unknown. intros. checks. eauto.
  - unfold reconcile. intros. inv_ok. eauto.
  - unfold reconcile. intros. inv_ok. eauto.
Qed.

Lemma job_step_ok r ev r' : wf_event ev -> record_ok r -> job_step r ev = Ok r' ->
  record_ok r' /\ same_job r r'.
Proof.
  intros He Hr Hs. apply job_step_cases in Hs as [(s & now & ->)|(h & now & -> & Hh)].
  - by split; [apply set_stage_ok|].
  - destruct Hr. unfold observe_heartbeat in Hh. checks. cbn in He.
    split; [|done]. split; cbn; try done. destruct He as [[? _] [? _]]. lia.
Qed.

Lemma submitted_ok i d uid max_output now r :
  submitted i d uid max_output now = Ok r ->
  identity_validate i = Ok tt /\ deadlines_validate_at d now = Ok tt /\ uid <> 0 /\
  0 < max_output /\
  r = {| identity := i; deadlines := d; record_run_as_uid := uid; stage := Submitted;
         record_heartbeat_ordinal := 0; record_elapsed_ms := 0; record_stdout_bytes := 0;
         record_stderr_bytes := 0; record_max_output_bytes := max_output;
         updated_unix_ms := now |}.
Proof. unfold submitted. intros. checks. done. Qed.

Lemma validate_at_ordered d now : deadlines_validate_at d now = Ok tt -> ordered d = true.
Proof.
  unfold deadlines_validate_at, ordered. intros. checks.
  rewrite andb_true_iff, !Z.leb_le. done.
Qed.

Lemma reachable_ok r evs : reachable r evs -> record_ok r.
Proof.
  induction 1 as [i d uid m now r Hi Hd Hu Hm Hs|r evs ev r' Hr IH He Hs].
  - apply submitted_ok in Hs as (? & ?%validate_at_ordered & ? & ? & ->).
    split; cbn; try done. by unfold saturating_add; cbn; lia.
  - by eapply job_step_ok.
Qed.

End lifecycle.

(** ** Properties *)

(** Decoding a receipt is the exact inverse of encoding it: exactly the
    287-byte encodings of well-typed receipts with a valid identity, a non-root
    account, ordered deadlines and a positive budget are accepted. *)
Theorem receipt_decode_iff_encode b r :
  receipt_decode b = Ok r <->
  wf_receipt r /\ body_ok (body r) /\ b = receipt_encode r /\ zlen b = RECEIPT_BYTES.
Proof.
  split.
  - intros (Hwf & Hok & ->)%receipt_decode_sound. by rewrite zlen_receipt_encode.
  - intros (Hwf & Hok & -> & _). by apply receipt_decode_complete.
Qed.

Section crypto_properties.
Context `{Sha2Laws, HmacSha2Laws}.

(** A helper that issues a receipt within the relay deadline and a
    controller that reconciles the record of that very job with it, inside the
    retention window, agree: the outcome is recovered and the stage is the one
    the outcome stands for. *)
Theorem issued_receipt_recovers record b token r now :
  wf_body b -> issue b token = Ok r ->
  body_identity b = identity record -> body_deadlines b = deadlines record ->
  body_run_as_uid b = record_run_as_uid record ->
  body_max_output_bytes b = record_max_output_bytes record ->
  body_completed_unix_ms b <= relay_unix_ms (deadlines record) ->
  body_completed_unix_ms b <= now <= retention_unix_ms (deadlines record) ->
  reconcile record (Some (receipt_encode r)) token now =
  Ok (Recovered (set_stage record (stage_of_outcome (body_outcome b))
                   (body_completed_unix_ms b)) b).
Proof.
  intros Hwf Hi Ei Ed Eu Em Hrel [Hnow Hret].
  apply issue_ok in Hi as (Hok & _ & ->). apply reconcile_receipt.
  exists b. split_and!; try done. pose proof Hok as (_ & Hu & _ & Hm).
  split; try done; (split; [done|]); lia.
Qed.

(** C19: reconciliation recovers an outcome only from the receipt of that
    outcome: the bytes presented are byte for byte the encoding, token hash and
    HMAC under the job's token of a body that carries the record's identity,
    deadlines, account and budget and completed in time; nothing else of the
    record but stage and time changes. *)
Theorem recovery_needs_the_receipt record bs token now record' b :
  reconcile record (Some bs) token now = Ok (Recovered record' b) ->
  bs = receipt_encode (receipt_of b token) /\ body_ok b /\
  bound b (identity record) (deadlines record) (record_run_as_uid record)
    (record_max_output_bytes record) now /\
  record' = set_stage record (stage_of_outcome (body_outcome b)) (body_completed_unix_ms b).
Proof.
  intros (b' & _ & Hok & Hb & -> & [= -> ->])%reconcile_receipt. done.
Qed.

(** No terminal result by inference: whatever calls a job's record goes
    through, it is in a terminal stage only if the last successful call was a
    reconciliation with the receipt of an outcome that stands for that stage. *)
Theorem terminal_only_by_receipt r evs :
  reachable r evs -> is_terminal (stage r) = true ->
  exists evs0 token now b,
    evs = evs0 ++ [EvReconcile (Some (receipt_encode (receipt_of b token))) token now] /\
    bound b (identity r) (deadlines r) (record_run_as_uid r) (record_max_output_bytes r) now /\
    stage r = stage_of_outcome (body_outcome b).
Proof.
  intros Hr Ht. destruct Hr as [i d uid m now r Hi Hd Hu Hm Hs|r evs ev r' Hr He Hs].
  - apply submitted_ok in Hs as (_ & _ & _ & _ & ->). done.
  - destruct ev as [now|h now|now|now|[bs|] token now]; cbn [job_step] in Hs.
    + unfold mark_running in Hs. checks. done.
    + unfold observe_heartbeat in Hs. checks. cbn in Ht. by destruct (stage r).
    + unfold request_cancel in Hs. checks. done.
    + unfold mark_unknown in Hs. checks. done.
    + apply rbind_ok in Hs as (out & Hrec & Hs).
      apply reconcile_receipt in Hrec as (b & _ & _ & Hb & -> & ->).
      injection Hs as <-. by exists evs, token, now, b.
    + unfold reconcile in Hs. checks. done.
Qed.

End crypto_properties.

(** Every record a job can reach keeps a valid identity, ordered deadlines,
    a non-root account and output counters within the budget, and no call ever
    changes the identity, deadlines, account or budget. *)
Theorem reachable_record_invariant `{Sha2, HmacSha2} r evs ev r' :
  reachable r evs -> wf_event ev -> job_step r ev = Ok r' -> record_ok r' /\ same_job r r'.
Proof. intros Hr He Hs. apply reachable_ok in Hr. by eapply job_step_ok. Qed.

(** The journal loses nothing: whatever record a job reaches, if it can be
    written to its journal then reading the journal back gives the record. *)
Theorem journal_roundtrip `{Sha2, HmacSha2, HexLaws, !Json DiskJobRecord,
    !JsonLaws DiskJobRecord, !JsonLineLaws DiskJobRecord} r evs bs :
  reachable r evs -> encode_journal r = Ok bs -> decode_journal bs = Ok r.
Proof.
  intros [Hw Hi _ Ho Hu Hm (? & ? & Hc)]%reachable_ok He.
  unfold encode_journal in He. checks.
  apply to_vec_nonempty in Hr as Hne. apply from_slice_to_vec in Hr as Hs.
  unfold decode_journal. rewrite ensure_pass
    by (rewrite andb_true_iff, negb_true_iff, is_empty_false, Z.leb_le; done).
  rewrite Hs. cbn [ok_or rbind]. rewrite ensure_pass by done. cbn [to_disk disk_job_id
    disk_profile_id disk_policy_digest disk_input_digest].
  assert (forall n b f, zlen b = n -> decode_hex_array n (hex_encode b) f = Ok b) as Hhex.
  { intros n b f <-. unfold decode_hex_array, zlen. rewrite hex_encode_length.
    rewrite ensure_pass by (apply Z.eqb_eq; lia). rewrite hex_decode_encode. cbn [ok_or rbind].
    by rewrite ensure_pass by by apply Z.eqb_eq. }
  destruct Hw. rewrite !Hhex by done. cbn [rbind].
  destruct r as [[] [] ? ? ? ? ? ? ? ?]; cbn in *. rewrite Hi. cbn [rbind].
  rewrite ensure_pass by by apply negb_true_iff, Z.eqb_neq.
  rewrite ensure_pass by by apply Z.ltb_lt.
  rewrite ensure_pass by by apply Z.leb_le. by rewrite ensure_pass.
Qed.

(** Reconciling without a receipt is always inconclusive, also for a job
    that already has a terminal stage: the stage becomes Unknown, although
    [mark_unknown] refuses exactly that transition. *)
Theorem reconcile_without_receipt_is_unknown `{Sha2, HmacSha2} r token now :
  updated_unix_ms r <= now ->
  reconcile r None token now = Ok (StillUnknown (set_stage r Unknown now)) /\
  (mark_unknown r now = Ok (set_stage r Unknown now) <-> is_terminal (stage r) = false).
Proof.
  intros Hn. unfold reconcile, mark_unknown.
  rewrite ensure_pass by by apply Z.leb_le. split; [done|].
  destruct (is_terminal (stage r)) eqn:Ht; cbn [negb].
  - by rewrite ensure_fail.
  - rewrite ensure_pass by done. by rewrite ensure_pass by by apply Z.leb_le.
Qed.

(** ** A concrete job *)
Module JobsRuns.
Import StandIn.

Definition ident : JobIdentity := {|
  job_id := replicate 16 x01; profile_id := replicate 16 x02; profile_generation := 7;
  policy_digest := replicate 32 x03; input_digest := replicate 32 x04 |}.
Definition dl : JobDeadlines :=
  {| remote_unix_ms := 5000; relay_unix_ms := 6000; retention_unix_ms := 9000 |}.
Definition token : bytes := replicate 32 x05.

Definition fresh : JobRecord := {|
  identity := ident; deadlines := dl; record_run_as_uid := 1000; stage := Submitted;
  record_heartbeat_ordinal := 0; record_elapsed_ms := 0; record_stdout_bytes := 0;
  record_stderr_bytes := 0; record_max_output_bytes := 4096; updated_unix_ms := 1000 |}.
Definition running : JobRecord := set_stage fresh Running 1100.

Definition done_body : ReceiptBody := {|
  body_identity := ident; body_run_as_uid := 1000; body_deadlines := dl;
  body_max_output_bytes := 4096; stdout_digest := replicate 32 x06;
  stderr_digest := replicate 32 x07; body_outcome := RExited 0;
  body_completed_unix_ms := 4000 |}.
Definition receipt : AuthenticatedReceipt := receipt_of done_body token.
Definition completed : JobRecord := set_stage running Completed 4000.

#[export] Instance journal_json : Json DiskJobRecord :=
  table_json [(to_disk running, rs "{running}")].
#[export] Instance journal_json_laws : JsonLaws DiskJobRecord.
Proof. apply table_json_laws. vm_compute. repeat constructor; set_solver. Qed.
#[export] Instance journal_json_line_laws : JsonLineLaws DiskJobRecord.
Proof.
  apply table_json_line_laws. repeat constructor; [done|].
  vm_compute. intros Hin. set_solver.
Qed.

Lemma fresh_reachable : reachable fresh [].
Proof.
  apply (reach_submit ident dl 1000 4096 1000); [by repeat split..| |]; vm_compute; [done|reflexivity].
Defined.
Lemma running_reachable : reachable running [EvRun 1100].
Proof.
  apply (reach_step fresh [] (EvRun 1100)); [apply fresh_reachable|done|vm_compute; reflexivity].
Defined.
Definition rec_event : job_event := EvReconcile (Some (receipt_encode receipt)) token 4500.
Lemma completed_reachable : reachable completed [EvRun 1100; rec_event].
Proof.
  apply (reach_step running [EvRun 1100] rec_event);
    [apply running_reachable|done|vm_compute; reflexivity].
Defined.

Lemma issued_receipt_recovers_witness :
  reconcile running (Some (receipt_encode receipt)) token 4500 =
  Ok (Recovered completed done_body).
Proof.
  apply (issued_receipt_recovers running done_body token receipt 4500);
    try (vm_compute; reflexivity); done || by repeat split.
Defined.

Lemma recovery_needs_the_receipt_witness :
  receipt_encode receipt = receipt_encode (receipt_of done_body token) /\
  bound done_body ident dl 1000 4096 4500.
Proof.
  destruct (recovery_needs_the_receipt running (receipt_encode receipt) token 4500
    completed done_body) as (E & _ & Hb & _); [vm_compute; reflexivity|].
  split; [exact E | exact Hb].
Defined.

Lemma terminal_only_by_receipt_witness :
  exists evs0 tok now b,
    [EvRun 1100; rec_event] =
      evs0 ++ [EvReconcile (Some (receipt_encode (receipt_of b tok))) tok now] /\
    bound b ident dl 1000 4096 now /\ Completed = stage_of_outcome (body_outcome b).
Proof. by apply (terminal_only_by_receipt completed _ completed_reachable). Defined.

Lemma reachable_record_invariant_witness : record_ok completed /\ same_job running completed.
Proof.
  apply (reachable_record_invariant running [EvRun 1100] rec_event);
    [apply running_reachable|done|vm_compute; reflexivity].
Defined.

Lemma journal_roundtrip_witness : decode_journal (rs "{running}") = Ok running.
Proof.
  apply (journal_roundtrip running [EvRun 1100]); [apply running_reachable|].
  vm_compute. reflexivity.
Defined.

Lemma reconcile_without_receipt_is_unknown_witness :
  reconcile completed None token 4000 = Ok (StillUnknown (set_stage completed Unknown 4000)) /\
  (mark_unknown completed 4000 = Ok (set_stage completed Unknown 4000) <->
   is_terminal Completed = false).
Proof. by apply (reconcile_without_receipt_is_unknown completed token 4000). Defined.

End JobsRuns.
