(* ===== verification/Policy.v ===== *)
(** * serctl-policy: compiling and evaluating deny-only policies

    crates/serctl_policy/src/lib.rs: a schema-v1 policy document is compiled to
    a normalized intermediate representation and its digest; typed intents are
    evaluated against the representation.  [BTreeSet] is a finite set; a
    [PolicyError] is its reason code (the message text is left out). *)

From stdpp Require Import countable gmap.
From S2P Require Import Prelude.
From S2P Require Import Bytes.
From S2P Require Import Text.
From S2P Require Import Crates.
#[local] Open Scope string_scope.
#[local] Open Scope list_scope.
#[local] Open Scope Z_scope.

Definition POLICY_SCHEMA_VERSION : Z := 1.
Definition INTENT_SCHEMA_VERSION : Z := 1.
Definition MAX_POLICY_DOCUMENT_BYTES : Z := 64 * 1024.
Definition MAX_POLICY_CAPABILITIES : Z := 16.
Definition MAX_POLICY_IDENTITIES : Z := 16.
Definition MAX_POLICY_DENY_RULES : Z := 256.
Definition MAX_PROCESS_PROGRAMS : Z := 32.
Definition MAX_PROCESS_ENV_KEYS : Z := 16.
Definition MAX_PROGRAM_BYTES : Z := 128.
Definition MAX_IDENTITY_BYTES : Z := 64.
Definition MAX_ENV_NAME_BYTES : Z := 64.
Definition MAX_ENV_VALUE_BYTES : Z := 1024.
Definition MAX_ENV_COUNT : Z := 16.
Definition MAX_ENV_TOTAL_BYTES : Z := 8 * 1024.
Definition MAX_ARG_COUNT : Z := 64.
Definition MAX_ARG_BYTES : Z := 4 * 1024.
Definition MAX_ARG_TOTAL_BYTES : Z := 16 * 1024.
Definition MAX_PATH_COUNT : Z := 8.
Definition MAX_PATH_BYTES : Z := 4 * 1024.
Definition POLICY_DIGEST_DOMAIN : bytes := rs "serctl-policy-ir-v1" ++ [x00].

(** ** Data *)

Inductive BaseTemplate := Green | Yellow | Red.

Inductive Capability :=
| FsList | FsRead | ProcessInspect | FsWriteNew | TransferRead | TransferWrite | ProcessRun.

Inductive RunAs :=
| User (name : str)
| Uid (value : Z).

Inductive PathFlavor := Posix | Windows.

Record IntentPath := { path_flavor : PathFlavor; path_value : str }.
Record EnvVar := { var_name : str; var_value : str }.

Record IntentBudget := {
  budget_bytes : Z;
  output_bytes : Z;
  parallel : Z;
  operations : Z;
}.

Record TypedIntent := {
  intent_schema_version : Z;
  capability : Capability;
  intent_run_as : RunAs;
  program : option str;
  argv : list str;
  env : list EnvVar;
  paths : list IntentPath;
  budget : IntentBudget;
  deadline_ms : Z;
}.

Record LimitsOverlay := {
  o_max_deadline_ms : option Z;
  o_max_bytes : option Z;
  o_max_output_bytes : option Z;
  o_max_parallel : option Z;
  o_max_operations : option Z;
}.

Record ProcessOverlay := {
  programs : option (list str);
  env_keys : option (list str);
}.

Inductive DenyRule :=
| DenyCapability (c : Capability)
| DenyProgram (name : str)
| DenyPathPrefix (flavor : PathFlavor) (value : str).

Record PolicyDocument := {
  doc_schema_version : Z;
  doc_base : BaseTemplate;
  doc_capabilities : option (list Capability);
  doc_run_as : list RunAs;
  doc_limits : LimitsOverlay;
  doc_process : ProcessOverlay;
  doc_deny : list DenyRule;
}.

Inductive ReasonCode :=
| Allowed | SchemaInvalid | SchemaUnsupported | PolicyTooLarge | PolicyLimitExceeded
| CapabilityExpandsBase | IdentityExpandsBase | ProgramExpandsBase | EnvironmentExpandsBase
| InvariantRootRunAs | InvariantCommandInterpreter | InvariantShellCommandFlag
| InvariantDangerousProgram | InvariantEnvironmentInjection | InvariantControlCharacter
| InvariantPathTraversal | InvariantPathNotAbsolute | InvariantAmbiguousPath
| IntentShapeMismatch | IntentCapabilityDenied | IntentIdentityDenied | IntentProgramDenied
| IntentEnvironmentDenied | IntentPathDenied | IntentDeadlineInvalid | IntentDeadlineExceeded
| IntentBudgetInvalid | IntentBudgetExceeded | IntentArgumentLimitExceeded
| IntentEnvironmentLimitExceeded | IntentPathLimitExceeded.

Record EffectiveLimits := {
  max_deadline_ms : Z;
  max_bytes : Z;
  max_output_bytes : Z;
  max_parallel : Z;
  max_operations : Z;
}.

Record NormalizedPath := { flavor : PathFlavor; value : str }.

#[export] Instance BaseTemplate_eq_dec : EqDecision BaseTemplate.
Proof. solve_decision. Defined.
#[export] Instance Capability_eq_dec : EqDecision Capability.
Proof. solve_decision. Defined.
#[export] Instance RunAs_eq_dec : EqDecision RunAs.
Proof. solve_decision. Defined.
#[export] Instance PathFlavor_eq_dec : EqDecision PathFlavor.
Proof. solve_decision. Defined.
#[export] Instance NormalizedPath_eq_dec : EqDecision NormalizedPath.
Proof. solve_decision. Defined.
#[export] Instance ReasonCode_eq_dec : EqDecision ReasonCode.
Proof. solve_decision. Defined.
#[export] Instance EffectiveLimits_eq_dec : EqDecision EffectiveLimits.
Proof. solve_decision. Defined.

Definition capability_index (c : Capability) : Z :=
  match c with
  | FsList => 0 | FsRead => 1 | ProcessInspect => 2 | FsWriteNew => 3
  | TransferRead => 4 | TransferWrite => 5 | ProcessRun => 6
  end.

#[export] Instance Capability_countable : Countable Capability.
Proof.
  refine (inj_countable' capability_index (fun n =>
    match n with
    | 0 => FsList | 1 => FsRead | 2 => ProcessInspect | 3 => FsWriteNew
    | 4 => TransferRead | 5 => TransferWrite | _ => ProcessRun
    end) _).
  by intros [].
Defined.

#[export] Instance RunAs_countable : Countable RunAs.
Proof.
  refine (inj_countable' (fun r => match r with User n => inl n | Uid v => inr v end)
    (fun s => match s with inl n => User n | inr v => Uid v end) _).
  by intros [].
Defined.

#[export] Instance PathFlavor_countable : Countable PathFlavor.
Proof.
  refine (inj_countable' (fun f => match f with Posix => true | Windows => false end)
    (fun b : bool => if b then Posix else Windows) _).
  by intros [].
Defined.

#[export] Instance NormalizedPath_countable : Countable NormalizedPath.
Proof.
  refine (inj_countable' (fun p => (flavor p, value p))
    (fun p => {| flavor := p.1; value := p.2 |}) _).
  by intros [].
Defined.

Record PolicyIr := {
  ir_schema_version : Z;
  base : BaseTemplate;
  capabilities : gset Capability;
  run_as : gset RunAs;
  limits : EffectiveLimits;
  process_programs : gset str;
  process_env_keys : gset str;
  allowed_paths : gset NormalizedPath;
  denied_paths : gset NormalizedPath;
}.

#[export] Instance PolicyIr_eq_dec : EqDecision PolicyIr.
Proof. solve_decision. Defined.

Record CompiledPolicy := { ir : PolicyIr; digest : str }.

Record Explanation := {
  allowed : bool;
  reason_code : ReasonCode;
  policy_digest : str;
}.

(** ** Text checks *)

Definition validate_plain_text (v : str) (max_bytes : Z) : result ReasonCode unit :=
  if max_bytes <? zlen v then Err PolicyLimitExceeded
  else if has_control v then Err InvariantControlCharacter
  else Ok tt.

Definition is_command_interpreter (p : str) : bool :=
  matches_str p
    ["sh"; "bash"; "dash"; "zsh"; "ksh"; "fish"; "csh"; "tcsh"; "cmd"; "powershell"; "pwsh";
     "wscript"; "cscript"; "mshta"; "python"; "python3"; "perl"; "ruby"; "node"; "osascript"].

Definition is_dangerous_program (p : str) : bool :=
  starts_with (rs "mkfs.") p
  || matches_str p
    ["rm"; "rmdir"; "dd"; "mkfs"; "fdisk"; "sfdisk"; "cfdisk"; "parted"; "wipefs"; "shred";
     "chmod"; "chown"; "chgrp"; "setfacl"; "mount"; "umount"; "reboot"; "shutdown";
     "poweroff"; "halt"; "init"; "systemctl"; "sudo"; "su"; "doas"; "pkexec"; "reg";
     "regedit"; "sc"; "net"; "netsh"; "diskpart"; "format"; "bcdedit"; "cipher"; "takeown";
     "icacls"].

Definition is_dangerous_env_key (k : str) : bool :=
  matches_str k ["PATH"; "IFS"; "ENV"; "BASH_ENV"; "SHELLOPTS"; "PYTHONPATH"]
  || starts_with (rs "LD_") k || starts_with (rs "DYLD_") k.

Definition is_shell_command_flag (a : str) : bool :=
  matches_str (to_ascii_lowercase a) ["-c"; "/c"; "--command"; "-command"; "-encodedcommand"].

Definition validate_run_as (r : RunAs) : result ReasonCode RunAs :=
  match r with
  | Uid 0 => Err InvariantRootRunAs
  | Uid _ => Ok r
  | User name =>
      try! validate_plain_text name MAX_IDENTITY_BYTES ;;
      let root_alias :=
        eq_ignore_ascii_case name (rs "root")
        || match parse_u32 name with Some v => v =? 0 | None => false end in
      if root_alias then Err InvariantRootRunAs
      else if is_empty name
           || negb (forallb (fun b => is_ascii_alphanumeric b || matches_byte b (rs "_.-")) name)
      then Err SchemaInvalid
      else Ok r
  end.

Definition normalize_program_identifier (p : str) : result ReasonCode str :=
  try! validate_plain_text p MAX_PROGRAM_BYTES ;;
  if is_empty p
     || negb (forallb (fun b => is_ascii_alphanumeric b || matches_byte b (rs "._-")) p)
  then Err SchemaInvalid
  else
    let normalized := to_ascii_lowercase p in
    Ok (match strip_suffix (rs ".exe") normalized with
        | Some without_suffix => without_suffix
        | None => normalized
        end).

Definition normalize_env_key (k : str) : result ReasonCode str :=
  try! validate_plain_text k MAX_ENV_NAME_BYTES ;;
  if is_empty k
     || negb (forallb (fun b => is_ascii_uppercase b || is_ascii_digit b
                                || bool_decide (b = "_"%byte)) k)
  then Err SchemaInvalid
  else if is_dangerous_env_key k then Err InvariantEnvironmentInjection
  else Ok k.

Definition validate_program_invariant (p : str) : result ReasonCode unit :=
  if is_command_interpreter p then Err InvariantCommandInterpreter
  else if is_dangerous_program p then Err InvariantDangerousProgram
  else Ok tt.

(** ** Paths *)

Definition is_dot (c : str) : bool :=
  bool_decide (c = rs ".") || bool_decide (c = rs "..").

Definition normalize_posix_path (v : str) : result ReasonCode str :=
  if negb (starts_with (rs "/") v) then Err InvariantPathNotAbsolute
  else if contains_byte "\"%byte v then Err InvariantAmbiguousPath
  else
    let pieces := List.filter (fun c => negb (is_empty c)) (split_on "/"%byte v) in
    let* components := for_each (fun acc component =>
        if is_dot component then Err InvariantPathTraversal
        else Ok (acc ++ [component])) [] pieces in
    if is_empty components then Ok (rs "/")
    else Ok (rs "/" ++ join_with "/"%byte components).

Definition is_windows_reserved_component (c : str) : bool :=
  let stem := to_ascii_uppercase (match split_on "."%byte c with s :: _ => s | [] => c end) in
  matches_str stem ["CON"; "PRN"; "AUX"; "NUL"]
  || match match strip_prefix (rs "COM") stem with
           | Some s => Some s
           | None => strip_prefix (rs "LPT") stem
           end with
     | Some [d] => in_range 49 57 (b8 d)
     | _ => false
     end.

Definition normalize_windows_path (v : str) : result ReasonCode str :=
  let canonical := replace_byte "\"%byte "/"%byte v in
  if starts_with (rs "//") canonical || (zlen canonical <? 3) then Err InvariantPathNotAbsolute
  else
    match canonical with
    | b0 :: b1 :: b2 :: rest =>
        if negb (is_ascii_alphabetic b0) || negb (bool_decide (b1 = ":"%byte))
           || negb (bool_decide (b2 = "/"%byte))
        then Err InvariantPathNotAbsolute
        else
          let pieces := List.filter (fun c => negb (is_empty c)) (split_on "/"%byte rest) in
          let* components := for_each (fun acc component =>
              if is_dot component then Err InvariantPathTraversal
              else if contains_byte ":"%byte component || ends_with (rs ".") component
                   || ends_with (rs " ") component || is_windows_reserved_component component
              then Err InvariantAmbiguousPath
              else Ok (acc ++ [component])) [] pieces in
          let drive := to_upper b0 in
          if is_empty components then Ok ([drive] ++ rs ":/")
          else Ok ([drive] ++ rs ":/" ++ join_with "/"%byte components)
    | _ => Err InvariantPathNotAbsolute
    end.

Definition normalize_path (f : PathFlavor) (v : str) : result ReasonCode str :=
  try! validate_plain_text v MAX_PATH_BYTES ;;
  if contains_byte "%"%byte v || contains_char 8260 v || contains_char 8725 v
     || contains_char 65295 v || contains_char 65340 v
  then Err InvariantAmbiguousPath
  else
    match f with
    | Posix => normalize_posix_path v
    | Windows => normalize_windows_path v
    end.

Definition path_prefix_matches (prefix path : NormalizedPath) : bool :=
  if negb (bool_decide (flavor prefix = flavor path)) then false
  else
    let '(prefix_value, path_value) :=
      match flavor prefix with
      | Posix => (value prefix, value path)
      | Windows => (to_ascii_lowercase (value prefix), to_ascii_lowercase (value path))
      end in
    if bool_decide (prefix_value = rs "/") || ends_with (rs ":/") prefix_value
    then starts_with prefix_value path_value
    else bool_decide (path_value = prefix_value)
         || match strip_prefix prefix_value path_value with
            | Some suffix => starts_with (rs "/") suffix
            | None => false
            end.

(** ** Base templates *)

Definition template_capabilities (b : BaseTemplate) : gset Capability :=
  list_to_set (match b with
               | Green | Yellow => [ProcessInspect]
               | Red => [ProcessInspect; ProcessRun]
               end).

Inductive IdentityCeiling := NobodyOnly | NonRootUidForFixedProcess.

Definition template_identity_ceiling (b : BaseTemplate) : IdentityCeiling :=
  match b with
  | Green | Yellow => NobodyOnly
  | Red => NonRootUidForFixedProcess
  end.

Definition template_allowed_paths (b : BaseTemplate) : gset NormalizedPath := ∅.

Definition capability_uses_path (c : Capability) : bool :=
  match c with
  | FsList | FsRead | FsWriteNew | TransferRead | TransferWrite => true
  | ProcessInspect | ProcessRun => false
  end.

Definition template_programs (b : BaseTemplate) : gset str :=
  list_to_set (map rs (match b with
                       | Green | Yellow => []
                       | Red => ["id"; "true"; "uname"; "uptime"; "whoami"]
                       end)).

Definition template_env_keys (b : BaseTemplate) : gset str :=
  list_to_set (map rs (match b with
                       | Green | Yellow => []
                       | Red => ["LANG"; "LC_ALL"; "TZ"]
                       end)).

Definition template_limits (b : BaseTemplate) : EffectiveLimits :=
  match b with
  | Green => {| max_deadline_ms := 60000; max_bytes := 64 * 1024 * 1024;
                max_output_bytes := 4 * 1024 * 1024; max_parallel := 1;
                max_operations := 100 |}
  | Yellow => {| max_deadline_ms := 300000; max_bytes := 1024 * 1024 * 1024;
                 max_output_bytes := 16 * 1024 * 1024; max_parallel := 2;
                 max_operations := 1000 |}
  | Red => {| max_deadline_ms := 2100000; max_bytes := 16 * 1024 * 1024 * 1024;
              max_output_bytes := 64 * 1024 * 1024; max_parallel := 4;
              max_operations := 1000 |}
  end.

(** ** Compilation *)

Definition enforce_count (n limit : Z) : result ReasonCode unit :=
  if limit <? n then Err PolicyLimitExceeded else Ok tt.

(** [document.capabilities.as_ref().map_or(0, Vec::len)]. *)
Definition opt_len {A} (o : option (list A)) : Z :=
  match o with Some l => zlen l | None => 0 end.

Definition compile_identity_selection (b : BaseTemplate) (selected : list RunAs)
  : result ReasonCode (gset RunAs) :=
  let* validated := collect validate_run_as selected in
  let selected : gset RunAs := list_to_set validated in
  let inside_ceiling :=
    match template_identity_ceiling b with
    | NobodyOnly =>
        forallb (fun i => match i with User name => bool_decide (name = rs "nobody")
                                     | Uid _ => false end) (elements selected)
    | NonRootUidForFixedProcess =>
        forallb (fun i => match i with Uid v => 1 <=? v | User _ => false end)
          (elements selected)
    end in
  if negb inside_ceiling then Err IdentityExpandsBase else Ok selected.

Definition narrow_limit (selected : option Z) (inherited : Z) : result ReasonCode Z :=
  let selected := match selected with Some v => v | None => inherited end in
  if (selected <? 1) || (inherited <? selected) then Err PolicyLimitExceeded
  else Ok selected.

Definition compile_limits (b : BaseTemplate) (overlay : LimitsOverlay)
  : result ReasonCode EffectiveLimits :=
  let inherited := template_limits b in
  let* deadline := narrow_limit (o_max_deadline_ms overlay) (max_deadline_ms inherited) in
  let* n_bytes := narrow_limit (o_max_bytes overlay) (max_bytes inherited) in
  let* n_output := narrow_limit (o_max_output_bytes overlay) (max_output_bytes inherited) in
  let* n_parallel := narrow_limit (o_max_parallel overlay) (max_parallel inherited) in
  let* n_ops := narrow_limit (o_max_operations overlay) (max_operations inherited) in
  Ok {| max_deadline_ms := deadline; max_bytes := n_bytes; max_output_bytes := n_output;
        max_parallel := n_parallel; max_operations := n_ops |}.

Definition compile_program_selection (selected : option (list str)) (inherited : gset str)
    (expansion_code : ReasonCode) : result ReasonCode (gset str) :=
  match selected with
  | None => Ok inherited
  | Some l =>
      let* normalized := collect (fun p =>
          let* n := normalize_program_identifier p in
          try! validate_program_invariant n ;;
          Ok n) l in
      let s : gset str := list_to_set normalized in
      if negb (bool_decide (s ⊆ inherited)) then Err expansion_code else Ok s
  end.

Definition compile_env_selection (selected : option (list str)) (inherited : gset str)
  : result ReasonCode (gset str) :=
  match selected with
  | None => Ok inherited
  | Some l =>
      let* normalized := collect normalize_env_key l in
      let s : gset str := list_to_set normalized in
      if negb (bool_decide (s ⊆ inherited)) then Err EnvironmentExpandsBase else Ok s
  end.

(** The sets the deny rules cut down. *)
Record Denials := {
  d_capabilities : gset Capability;
  d_programs : gset str;
  d_paths : gset NormalizedPath;
}.

(** One iteration of the loop over [document.deny]. *)
Definition apply_deny (d : Denials) (rule : DenyRule) : result ReasonCode Denials :=
  match rule with
  | DenyCapability c =>
      Ok {| d_capabilities := d_capabilities d ∖ {[ c ]}; d_programs := d_programs d;
            d_paths := d_paths d |}
  | DenyProgram name =>
      let* normalized := normalize_program_identifier name in
      Ok {| d_capabilities := d_capabilities d; d_programs := d_programs d ∖ {[ normalized ]};
            d_paths := d_paths d |}
  | DenyPathPrefix f v =>
      let* normalized := normalize_path f v in
      Ok {| d_capabilities := d_capabilities d; d_programs := d_programs d;
            d_paths := d_paths d ∪ {[ {| flavor := f; value := normalized |} ]} |}
  end.

Definition compile_capabilities (b : BaseTemplate) (selected : option (list Capability))
  : result ReasonCode (gset Capability) :=
  let base_capabilities := template_capabilities b in
  match selected with
  | Some l =>
      let s : gset Capability := list_to_set l in
      if negb (bool_decide (s ⊆ base_capabilities)) then Err CapabilityExpandsBase else Ok s
  | None => Ok base_capabilities
  end.

(** [compile_policy] up to the finished representation. *)
Definition compile_ir (document : PolicyDocument) : result ReasonCode PolicyIr :=
  if negb (doc_schema_version document =? POLICY_SCHEMA_VERSION) then Err SchemaUnsupported
  else
    try! enforce_count (opt_len (doc_capabilities document)) MAX_POLICY_CAPABILITIES ;;
    if is_empty (doc_run_as document) then Err PolicyLimitExceeded
    else
      try! enforce_count (zlen (doc_run_as document)) MAX_POLICY_IDENTITIES ;;
      try! enforce_count (zlen (doc_deny document)) MAX_POLICY_DENY_RULES ;;
      try! enforce_count (opt_len (programs (doc_process document))) MAX_PROCESS_PROGRAMS ;;
      try! enforce_count (opt_len (env_keys (doc_process document))) MAX_PROCESS_ENV_KEYS ;;
      let b := doc_base document in
      let* caps := compile_capabilities b (doc_capabilities document) in
      let* identities := compile_identity_selection b (doc_run_as document) in
      let* lims := compile_limits b (doc_limits document) in
      let* progs := compile_program_selection (programs (doc_process document))
                      (template_programs b) ProgramExpandsBase in
      let* keys := compile_env_selection (env_keys (doc_process document))
                     (template_env_keys b) in
      let allowed := template_allowed_paths b in
      let* d := for_each apply_deny
                  {| d_capabilities := caps; d_programs := progs; d_paths := ∅ |}
                  (doc_deny document) in
      let runs := bool_decide (ProcessRun ∈ d_capabilities d) in
      let progs := if runs then d_programs d else ∅ in
      let keys := if runs then keys else ∅ in
      if existsb capability_uses_path (elements (d_capabilities d))
         && bool_decide (allowed = ∅)
      then Err CapabilityExpandsBase
      else
        Ok {| ir_schema_version := POLICY_SCHEMA_VERSION;
              base := b;
              capabilities := d_capabilities d;
              run_as := identities;
              limits := lims;
              process_programs := progs;
              process_env_keys := keys;
              allowed_paths := allowed;
              denied_paths := d_paths d |}.

Section with_crates.
Context `{Sha2, Hex, JsonSer PolicyIr, Json PolicyDocument}.

Definition canonical_bytes (i : PolicyIr) : result ReasonCode bytes :=
  ok_or (json_bytes i) SchemaInvalid.

Definition compile_policy (document : PolicyDocument) : result ReasonCode CompiledPolicy :=
  let* i := compile_ir document in
  let* canonical := canonical_bytes i in
  Ok {| ir := i; digest := hex_encode (sha256 (POLICY_DIGEST_DOMAIN ++ canonical)) |}.

Definition compile_policy_json (b : bytes) : result ReasonCode CompiledPolicy :=
  if MAX_POLICY_DOCUMENT_BYTES <? zlen b then Err PolicyTooLarge
  else
    let* document := ok_or (from_slice b) SchemaInvalid in
    compile_policy document.

End with_crates.

(** ** Evaluation *)

Definition validate_intent_identity (r : RunAs) : result ReasonCode unit :=
  let* _ := validate_run_as r in Ok tt.

Definition validate_intent_collections (intent : TypedIntent) : result ReasonCode unit :=
  if match program intent with Some p => MAX_PROGRAM_BYTES <? zlen p | None => false end
  then Err IntentArgumentLimitExceeded
  else if MAX_ARG_COUNT <? zlen (argv intent) then Err IntentArgumentLimitExceeded
  else
    let* argument_bytes := for_each (fun acc argument =>
        if MAX_ARG_BYTES <? zlen argument then Err IntentArgumentLimitExceeded
        else if has_control argument then Err InvariantControlCharacter
        else if is_shell_command_flag argument then Err InvariantShellCommandFlag
        else Ok (saturating_add USIZE_MAX acc (zlen argument))) 0 (argv intent) in
    if MAX_ARG_TOTAL_BYTES <? argument_bytes then Err IntentArgumentLimitExceeded
    else if MAX_ENV_COUNT <? zlen (env intent) then Err IntentEnvironmentLimitExceeded
    else
      let* env_bytes := for_each (fun acc variable =>
          if (MAX_ENV_NAME_BYTES <? zlen (var_name variable))
             || (MAX_ENV_VALUE_BYTES <? zlen (var_value variable))
          then Err IntentEnvironmentLimitExceeded
          else if has_control (var_name variable) || has_control (var_value variable)
          then Err InvariantControlCharacter
          else Ok (saturating_add USIZE_MAX
                     (saturating_add USIZE_MAX acc (zlen (var_name variable)))
                     (zlen (var_value variable)))) 0 (env intent) in
      if MAX_ENV_TOTAL_BYTES <? env_bytes then Err IntentEnvironmentLimitExceeded
      else if MAX_PATH_COUNT <? zlen (paths intent) then Err IntentPathLimitExceeded
      else if existsb (fun p => MAX_PATH_BYTES <? zlen (path_value p)) (paths intent)
      then Err IntentPathLimitExceeded
      else Ok tt.

Definition is_none {A} (o : option A) : bool :=
  match o with Some _ => false | None => true end.

Definition validate_intent_shape (intent : TypedIntent) : result ReasonCode unit :=
  match capability intent with
  | FsList | FsRead | FsWriteNew | TransferRead | TransferWrite =>
      if negb (is_none (program intent)) || negb (is_empty (argv intent))
         || negb (is_empty (env intent)) || negb (zlen (paths intent) =? 1)
      then Err IntentShapeMismatch else Ok tt
  | ProcessInspect =>
      if negb (is_none (program intent)) || negb (is_empty (argv intent))
         || negb (is_empty (env intent)) || negb (is_empty (paths intent))
      then Err IntentShapeMismatch else Ok tt
  | ProcessRun =>
      if is_none (program intent) || (1 <? zlen (paths intent))
      then Err IntentShapeMismatch else Ok tt
  end.

Definition validate_intent_deadline_and_budget (l : EffectiveLimits) (intent : TypedIntent)
  : result ReasonCode unit :=
  if deadline_ms intent =? 0 then Err IntentDeadlineInvalid
  else if max_deadline_ms l <? deadline_ms intent then Err IntentDeadlineExceeded
  else if (parallel (budget intent) =? 0) || (operations (budget intent) =? 0)
  then Err IntentBudgetInvalid
  else if (max_bytes l <? budget_bytes (budget intent))
       || (max_output_bytes l <? output_bytes (budget intent))
       || (max_parallel l <? parallel (budget intent))
       || (max_operations l <? operations (budget intent))
  then Err IntentBudgetExceeded
  else Ok tt.

(** The checks of [evaluate_intent] that do not look at the policy. *)
Definition normalize_intent_program (intent : TypedIntent) : result ReasonCode (option str) :=
  match program intent with
  | None => Ok None
  | Some p =>
      let* n := normalize_program_identifier p in
      try! validate_program_invariant n ;;
      Ok (Some n)
  end.

Definition normalize_intent_env (intent : TypedIntent) : result ReasonCode (gset str) :=
  for_each (fun names variable =>
      let* key := normalize_env_key (var_name variable) in
      if bool_decide (key ∈ names) then Err IntentEnvironmentDenied
      else Ok (names ∪ {[ key ]})) ∅ (env intent).

Definition normalize_intent_paths (intent : TypedIntent)
  : result ReasonCode (list NormalizedPath) :=
  collect (fun p =>
      let* n := normalize_path (path_flavor p) (path_value p) in
      Ok {| flavor := path_flavor p; value := n |}) (paths intent).

Definition evaluate_intent (i : PolicyIr) (intent : TypedIntent) : result ReasonCode unit :=
  if negb (intent_schema_version intent =? INTENT_SCHEMA_VERSION) then Err SchemaUnsupported
  else
    try! validate_intent_identity (intent_run_as intent) ;;
    try! validate_intent_collections intent ;;
    let* normalized_program := normalize_intent_program intent in
    let* normalized_env_names := normalize_intent_env intent in
    let* normalized_paths := normalize_intent_paths intent in
    try! validate_intent_shape intent ;;
    if negb (bool_decide (capability intent ∈ capabilities i)) then Err IntentCapabilityDenied
    else if negb (bool_decide (intent_run_as intent ∈ run_as i)) then Err IntentIdentityDenied
    else
      try! validate_intent_deadline_and_budget (limits i) intent ;;
      try! match normalized_program with
           | Some p => if negb (bool_decide (p ∈ process_programs i))
                       then Err IntentProgramDenied else Ok tt
           | None => Ok tt
           end ;;
      let* _ := for_each (fun _ key =>
          if negb (bool_decide (key ∈ process_env_keys i)) then Err IntentEnvironmentDenied
          else Ok tt) tt (elements normalized_env_names) in
      let* _ := for_each (fun _ normalized =>
          if negb (existsb (fun prefix => path_prefix_matches prefix normalized)
                     (elements (allowed_paths i)))
          then Err IntentPathDenied
          else if existsb (fun prefix => path_prefix_matches prefix normalized)
                    (elements (denied_paths i))
          then Err IntentPathDenied
          else Ok tt) tt normalized_paths in
      Ok tt.

Definition explain (p : CompiledPolicy) (intent : TypedIntent) : Explanation :=
  match evaluate_intent (ir p) intent with
  | Ok _ => {| allowed := true; reason_code := Allowed; policy_digest := digest p |}
  | Err code => {| allowed := false; reason_code := code; policy_digest := digest p |}
  end.

(** ** Compilation only narrows *)

Lemma existsb_elements {A} `{Countable A} (f : A -> bool) (s : gset A) :
  existsb f (elements s) = true <-> exists x, x ∈ s /\ f x = true.
Proof.
  rewrite existsb_exists. setoid_rewrite <-list_elem_of_In. setoid_rewrite elem_of_elements.
  done.
Qed.

Lemma forallb_elements {A} `{Countable A} (f : A -> bool) (s : gset A) :
  forallb f (elements s) = true <-> forall x, x ∈ s -> f x = true.
Proof.
  rewrite forallb_forall. setoid_rewrite <-list_elem_of_In. setoid_rewrite elem_of_elements.
  done.
Qed.

Lemma negb_if_ok {E A} (b : bool) (e : E) (k : result E A) a :
  (if negb b then Err e else k) = Ok a <-> b = true /\ k = Ok a.
Proof. destruct b; naive_solver. Qed.

Lemma elem_of_collect {A B} `{Countable B} (f : A -> result ReasonCode B) l bs x :
  collect f l = Ok bs -> x ∈ (list_to_set bs : gset B) <-> exists a, a ∈ l /\ f a = Ok x.
Proof.
  rewrite collect_ok, elem_of_list_to_set. intros Hf. split.
  - intros (i & Hi)%list_elem_of_lookup.
    destruct (Forall2_lookup_r _ _ _ _ _ Hf Hi) as (a & Ha & E).
    exists a. split; [by eapply list_elem_of_lookup_2|done].
  - intros (a & (i & Hi)%list_elem_of_lookup & E).
    destruct (Forall2_lookup_l _ _ _ _ _ Hf Hi) as (b & Hb & E').
    rewrite E in E'. injection E' as <-. by eapply list_elem_of_lookup_2.
Qed.

(** What the deny rules do, by membership. *)
Record denied (d d' : Denials) (rules : list DenyRule) : Prop := {
  denied_capability c : c ∈ d_capabilities d' <->
    c ∈ d_capabilities d /\ DenyCapability c ∉ rules;
  denied_program p : p ∈ d_programs d' <->
    p ∈ d_programs d /\
    ~ exists name, DenyProgram name ∈ rules /\ normalize_program_identifier name = Ok p;
  denied_path q : q ∈ d_paths d' <->
    q ∈ d_paths d \/
    exists v, DenyPathPrefix (flavor q) v ∈ rules /\ normalize_path (flavor q) v = Ok (value q);
}.

Lemma apply_deny_one d rule d' : apply_deny d rule = Ok d' -> denied d d' [rule].
Proof.
  destruct rule as [c|name|f v]; cbn [apply_deny]; intros Hr; inv_ok.
  - split; cbn; set_solver.
  - split; cbn; intros x; [set_solver| |set_solver].
    rewrite elem_of_difference, elem_of_singleton. setoid_rewrite list_elem_of_singleton.
    split; intros [Hx Hn]; (split; [done|]).
    + intros (n & [= ->] & E). congruence.
    + intros ->. apply Hn. eauto.
  - split; cbn; intros x; [set_solver|set_solver|].
    rewrite elem_of_union, elem_of_singleton. setoid_rewrite list_elem_of_singleton.
    destruct x as [fx vx]; cbn. split; intros [?|Hx]; auto; right.
    + injection Hx as -> ->. eauto.
    + destruct Hx as (w & [= -> ->] & E). congruence.
Qed.

Lemma exists_elem_cons {A B} (f : A -> B) (Q : A -> Prop) r l :
  (exists x, f x ∈ r :: l /\ Q x) <->
  (exists x, f x ∈ [r] /\ Q x) \/ (exists x, f x ∈ l /\ Q x).
Proof.
  split.
  - intros (x & [Hx|Hx]%elem_of_cons & HQ).
    + left. exists x. split; [by apply list_elem_of_singleton|done].
    + right. eauto.
  - intros [(x & Hx%list_elem_of_singleton & HQ)|(x & Hx & HQ)]; exists x;
      rewrite elem_of_cons; auto.
Qed.

Lemma for_each_deny d rules d' : for_each apply_deny d rules = Ok d' -> denied d d' rules.
Proof.
  revert d; induction rules as [|rule rules IH]; intros d; cbn [for_each].
  - intros [= <-]. split; set_solver.
  - intros Hr. apply rbind_ok in Hr as (d1 & H1 & H2).
    apply apply_deny_one in H1 as [A1 B1 C1]. apply IH in H2 as [A2 B2 C2]. split; intros x.
    + rewrite A2, A1. set_solver.
    + rewrite B2, B1, (exists_elem_cons DenyProgram _ rule rules). tauto.
    + rewrite C2, C1, (exists_elem_cons (DenyPathPrefix (flavor x)) _ rule rules). tauto.
Qed.

(** A successful compilation, step by step. *)
Record compiled (doc : PolicyDocument) (i : PolicyIr) (caps : gset Capability)
    (progs keys : gset str) (d : Denials) : Prop := {
  comp_caps : compile_capabilities (doc_base doc) (doc_capabilities doc) = Ok caps;
  comp_run_as : compile_identity_selection (doc_base doc) (doc_run_as doc) = Ok (run_as i);
  comp_limits : compile_limits (doc_base doc) (doc_limits doc) = Ok (limits i);
  comp_progs : compile_program_selection (programs (doc_process doc))
    (template_programs (doc_base doc)) ProgramExpandsBase = Ok progs;
  comp_keys : compile_env_selection (env_keys (doc_process doc))
    (template_env_keys (doc_base doc)) = Ok keys;
  comp_deny : denied {| d_capabilities := caps; d_programs := progs; d_paths := ∅ |} d
    (doc_deny doc);
  comp_ir : i = {|
    ir_schema_version := POLICY_SCHEMA_VERSION; base := doc_base doc;
    capabilities := d_capabilities d; run_as := run_as i; limits := limits i;
    process_programs := if bool_decide (ProcessRun ∈ d_capabilities d)
                        then d_programs d else ∅;
    process_env_keys := if bool_decide (ProcessRun ∈ d_capabilities d) then keys else ∅;
    allowed_paths := ∅; denied_paths := d_paths d |};
  comp_nonempty : doc_run_as doc <> [];
}.

Lemma compile_ir_compiled doc i : compile_ir doc = Ok i ->
  exists caps progs keys d, compiled doc i caps progs keys d.
Proof.
  unfold compile_ir. rewrite negb_if_ok. intros (_ & Hc).
  apply rbind_ok in Hc as (_ & _ & Hc). apply if_err_ok in Hc as (Hne & Hc).
  inv_ok. apply if_err_ok in Hc as (_ & [= <-]). do 4 eexists.
  split; try eassumption; try done.
  - by apply for_each_deny.
  - by apply is_empty_false.
Qed.

(** Ceilings. *)
Definition inside_ceiling (b : BaseTemplate) (r : RunAs) : Prop :=
  match template_identity_ceiling b, r with
  | NobodyOnly, User name => name = rs "nobody"
  | NonRootUidForFixedProcess, Uid v => 1 <= v
  | _, _ => False
  end.

Definition limits_within (l m : EffectiveLimits) : Prop :=
  max_deadline_ms l <= max_deadline_ms m /\ max_bytes l <= max_bytes m /\
  max_output_bytes l <= max_output_bytes m /\ max_parallel l <= max_parallel m /\
  max_operations l <= max_operations m.

Lemma compile_capabilities_narrows b sel caps :
  compile_capabilities b sel = Ok caps -> caps ⊆ template_capabilities b.
Proof.
  unfold compile_capabilities. destruct sel as [l|].
  - rewrite negb_if_ok, bool_decide_eq_true. by intros (? & [= <-]).
  - by intros [= <-].
Qed.

Lemma compile_program_selection_narrows sel base_set code s :
  compile_program_selection sel base_set code = Ok s -> s ⊆ base_set.
Proof.
  unfold compile_program_selection. destruct sel as [l|]; [|by intros [= <-]].
  intros Hs. inv_ok. rewrite negb_if_ok, bool_decide_eq_true in Hs. by destruct Hs as (? & [= <-]).
Qed.

Lemma compile_env_selection_narrows sel base_set s :
  compile_env_selection sel base_set = Ok s -> s ⊆ base_set.
Proof.
  unfold compile_env_selection. destruct sel as [l|]; [|by intros [= <-]].
  intros Hs. inv_ok. rewrite negb_if_ok, bool_decide_eq_true in Hs. by destruct Hs as (? & [= <-]).
Qed.

Lemma narrow_limit_ok sel m v : narrow_limit sel m = Ok v -> 1 <= v <= m.
Proof.
  unfold narrow_limit. rewrite if_err_ok, orb_false_iff, !Z.ltb_ge. by intros (? & [= <-]).
Qed.

Lemma compile_limits_narrows b o l :
  compile_limits b o = Ok l -> limits_within l (template_limits b) /\
  1 <= max_deadline_ms l /\ 1 <= max_bytes l /\ 1 <= max_output_bytes l /\
  1 <= max_parallel l /\ 1 <= max_operations l.
Proof.
  unfold compile_limits. intros Hl. inv_ok.
  repeat match goal with H : narrow_limit _ _ = Ok _ |- _ => apply narrow_limit_ok in H end.
  unfold limits_within. cbn. lia.
Qed.

Lemma compile_identities b sel s r :
  compile_identity_selection b sel = Ok s -> r ∈ s ->
  inside_ceiling b r /\ validate_run_as r = Ok r /\ r ∈ sel.
Proof.
  unfold compile_identity_selection. intros Hs Hr. inv_ok.
  rewrite negb_if_ok in Hs. destruct Hs as (Hin & [= <-]).
  pose proof Hr as Hr'. rewrite (elem_of_collect validate_run_as sel) in Hr' by done.
  destruct Hr' as (a & Ha & E). assert (a = r) as ->.
  { destruct a as [name|[| |]]; cbn [validate_run_as] in E.
    - inv_ok. rewrite !if_err_ok in E. by destruct E as (_ & _ & [= <-]).
    - done.
    - by injection E.
    - by injection E. }
  split; [|done]. unfold inside_ceiling.
  destruct (template_identity_ceiling b); rewrite forallb_elements in Hin; apply Hin in Hr;
    destruct r; try done.
  - by apply bool_decide_eq_true in Hr.
  - by apply Z.leb_le.
Qed.

Lemma compile_identities_nonempty b sel s :
  compile_identity_selection b sel = Ok s -> sel <> [] -> s <> ∅.
Proof.
  unfold compile_identity_selection. intros Hs Hne. inv_ok.
  rewrite negb_if_ok in Hs. destruct Hs as (_ & [= <-]). destruct sel as [|a sel]; [done|].
  cbn in Hr. inv_ok. set_solver.
Qed.

(** ** Evaluation, in two parts *)

(** The part of [evaluate_intent] before the policy is looked at ... *)
Definition precheck (intent : TypedIntent)
  : result ReasonCode (option str * gset str * list NormalizedPath) :=
  if negb (intent_schema_version intent =? INTENT_SCHEMA_VERSION) then Err SchemaUnsupported
  else
    try! validate_intent_identity (intent_run_as intent) ;;
    try! validate_intent_collections intent ;;
    let* p := normalize_intent_program intent in
    let* e := normalize_intent_env intent in
    let* q := normalize_intent_paths intent in
    try! validate_intent_shape intent ;;
    Ok (p, e, q).

(** ... and after. *)
Definition path_allowed (i : PolicyIr) (q : NormalizedPath) : Prop :=
  (exists prefix, prefix ∈ allowed_paths i /\ path_prefix_matches prefix q = true) /\
  ~ exists prefix, prefix ∈ denied_paths i /\ path_prefix_matches prefix q = true.

Record granted (i : PolicyIr) (intent : TypedIntent) (p : option str) (e : gset str)
    (q : list NormalizedPath) : Prop := {
  granted_capability : capability intent ∈ capabilities i;
  granted_run_as : intent_run_as intent ∈ run_as i;
  granted_budget : validate_intent_deadline_and_budget (limits i) intent = Ok tt;
  granted_program : match p with Some n => n ∈ process_programs i | None => True end;
  granted_env : e ⊆ process_env_keys i;
  granted_paths : Forall (path_allowed i) q;
}.

Definition is_invariant (c : ReasonCode) : bool :=
  match c with
  | InvariantRootRunAs | InvariantCommandInterpreter | InvariantShellCommandFlag
  | InvariantDangerousProgram | InvariantEnvironmentInjection | InvariantControlCharacter
  | InvariantPathTraversal | InvariantPathNotAbsolute | InvariantAmbiguousPath => true
  | _ => false
  end.

Lemma for_each_unit {A} (chk : A -> result ReasonCode unit) l u :
  for_each (fun _ a => chk a) tt l = Ok u <-> Forall (fun a => chk a = Ok tt) l.
Proof.
  destruct u. induction l as [|a l IH]; cbn [for_each]; [by rewrite Forall_nil|].
  rewrite Forall_cons, <-IH. destruct (chk a) as [[]|]; naive_solver.
Qed.

Lemma for_each_unit_err {A} (chk : A -> result ReasonCode unit) (P : ReasonCode -> Prop) l c :
  (forall a c, chk a = Err c -> P c) -> for_each (fun _ a => chk a) tt l = Err c -> P c.
Proof.
  intros HP. induction l as [|a l IH]; cbn [for_each]; [done|].
  rewrite rbind_err. intros [Ha|([] & _ & Hl)]; eauto.
Qed.

Lemma not_existsb_elements {A} `{Countable A} (f : A -> bool) (s : gset A) :
  existsb f (elements s) = false <-> ~ exists x, x ∈ s /\ f x = true.
Proof. rewrite <-existsb_elements. by rewrite not_true_iff_false. Qed.

Lemma evaluate_ok i intent u : evaluate_intent i intent = Ok u <->
  exists p e q, precheck intent = Ok (p, e, q) /\ granted i intent p e q.
Proof.
  destruct u. unfold evaluate_intent, precheck. rewrite !negb_if_ok, !seq_ok.
  split.
  - intros (Hs & Hi & Hc & H). apply rbind_ok in H as (p & Hp & H).
    apply rbind_ok in H as (e & He & H). apply rbind_ok in H as (q & Hq & H).
    rewrite seq_ok, !negb_if_ok, !seq_ok, !bool_decide_eq_true, !for_each_unit in H.
    destruct H as (Hsh & Hcap & Hrun & Hb & Hprog & Henv & Hpath & _).
    exists p, e, q. rewrite Hs, Hi, Hc, Hp, He, Hq, Hsh. split; [done|]. split; try done.
    + destruct p; [|done]. by rewrite negb_if_ok, bool_decide_eq_true in Hprog; destruct Hprog.
    + intros k Hk%elem_of_elements. rewrite Forall_forall in Henv. apply Henv in Hk.
      by rewrite negb_if_ok, bool_decide_eq_true in Hk; destruct Hk.
    + eapply Forall_impl; [exact Hpath|]. intros n. cbn beta.
      by rewrite negb_if_ok, if_err_ok, existsb_elements, not_existsb_elements; intros (? & ? & _).
  - intros (p & e & q & Hpre & []). rewrite negb_if_ok, !seq_ok in Hpre.
    destruct Hpre as (Hs & Hi & Hc & H). split; [done|]. split; [done|]. split; [done|]. inv_ok. do 3 (erewrite rbind_pass by eassumption).
    rewrite seq_ok, !negb_if_ok, !seq_ok, !bool_decide_eq_true, !for_each_unit.
    split_and!; try done.
    + destruct p; [|done]. by rewrite negb_if_ok, bool_decide_eq_true.
    + apply Forall_forall. intros k Hk%elem_of_elements.
      rewrite negb_if_ok, bool_decide_eq_true. auto.
    + eapply Forall_impl; [exact granted_paths0|]. intros n [Ha Hd]. cbn beta.
      by rewrite negb_if_ok, if_err_ok, existsb_elements, not_existsb_elements.
Qed.

(** ** What the prechecks say of an intent *)

Lemma precheck_ok intent p e q : precheck intent = Ok (p, e, q) ->
  validate_run_as (intent_run_as intent) = Ok (intent_run_as intent) /\
  validate_intent_collections intent = Ok tt /\ normalize_intent_program intent = Ok p /\
  normalize_intent_env intent = Ok e /\ normalize_intent_paths intent = Ok q /\
  validate_intent_shape intent = Ok tt.
Proof.
  unfold precheck, validate_intent_identity. rewrite negb_if_ok, seq_ok.
  intros (_ & Hi & Hc). apply rbind_ok in Hi as (r & Hrun & _). inv_ok.
  split_and!; try done. rewrite Hrun. f_equal.
  destruct (intent_run_as intent) as [n|[| |]]; cbn [validate_run_as] in Hrun.
  - apply rbind_ok in Hrun as (_ & _ & Hrun). rewrite !if_err_ok in Hrun.
    by destruct Hrun as (_ & _ & [= <-]).
  - done.
  - by injection Hrun.
  - by injection Hrun.
Qed.

Lemma normalize_env_key_same k n : normalize_env_key k = Ok n -> n = k.
Proof.
  unfold normalize_env_key. intros Hk. inv_ok. rewrite !if_err_ok in Hk.
  by destruct Hk as (_ & _ & [= <-]).
Qed.

Lemma normalize_env_key_safe k n : normalize_env_key k = Ok n -> is_dangerous_env_key n = false.
Proof.
  intros Hk. apply normalize_env_key_same in Hk as E. subst n.
  unfold normalize_env_key in Hk. inv_ok. rewrite !if_err_ok in Hk.
  by destruct Hk as (_ & ? & _).
Qed.

Lemma normalize_env_loop (l : list EnvVar) (s e : gset str) :
  for_each (fun names variable =>
      let* key := normalize_env_key (var_name variable) in
      if bool_decide (key ∈ names) then Err IntentEnvironmentDenied
      else Ok (names ∪ {[ key ]})) s l = Ok e ->
  e = s ∪ list_to_set (map var_name l) /\ NoDup (map var_name l) /\
  Forall (fun v => var_name v ∉ s /\ is_dangerous_env_key (var_name v) = false) l.
Proof.
  revert s; induction l as [|v l IH]; intros s; cbn [for_each map].
  - intros [= <-]. split; [set_solver|]. split; constructor.
  - intros H. apply rbind_ok in H as (s1 & H1 & H2). apply rbind_ok in H1 as (k & Hk & H1).
    apply normalize_env_key_safe in Hk as Hsafe. apply normalize_env_key_same in Hk as ->.
    rewrite if_err_ok, bool_decide_eq_false in H1. destruct H1 as (Hn & [= <-]).
    apply IH in H2 as (-> & Hnd & Hall). split; [set_solver|]. split.
    + constructor; [|done]. rewrite list_elem_of_fmap. intros (w & E & Hw).
      rewrite Forall_forall in Hall. apply Hall in Hw as [Hw _]. rewrite <-E in Hw. set_solver.
    + constructor; [done|]. eapply Forall_impl; [exact Hall|]. set_solver.
Qed.

Lemma normalize_intent_env_ok intent e : normalize_intent_env intent = Ok e ->
  e = list_to_set (map var_name (env intent)) /\ NoDup (map var_name (env intent)) /\
  Forall (fun v => is_dangerous_env_key (var_name v) = false) (env intent).
Proof.
  intros (-> & Hnd & Hall)%normalize_env_loop. rewrite union_empty_l_L. split; [done|].
  split; [done|]. eapply Forall_impl; [exact Hall|]. by intros v [_ ?].
Qed.

Lemma collections_argv intent : validate_intent_collections intent = Ok tt ->
  Forall (fun a => is_shell_command_flag a = false /\ has_control a = false) (argv intent).
Proof.
  unfold validate_intent_collections. rewrite !if_err_ok. intros (_ & _ & H).
  apply rbind_ok in H as (n & Hn & _). revert Hn. generalize 0.
  induction (argv intent) as [|a l IH]; intros acc; cbn [for_each]; [by constructor|].
  intros H. apply rbind_ok in H as (acc' & Ha & Hl). rewrite !if_err_ok in Ha.
  destruct Ha as (_ & ? & ? & _). constructor; [done|]. by eapply IH.
Qed.

Lemma validate_program_invariant_ok p u : validate_program_invariant p = Ok u <->
  is_command_interpreter p = false /\ is_dangerous_program p = false.
Proof. unfold validate_program_invariant. rewrite !if_err_ok. destruct u. naive_solver. Qed.

Lemma budget_ok l intent u : validate_intent_deadline_and_budget l intent = Ok u <->
  deadline_ms intent <> 0 /\ deadline_ms intent <= max_deadline_ms l /\
  parallel (budget intent) <> 0 /\ operations (budget intent) <> 0 /\
  budget_bytes (budget intent) <= max_bytes l /\
  output_bytes (budget intent) <= max_output_bytes l /\
  parallel (budget intent) <= max_parallel l /\ operations (budget intent) <= max_operations l.
Proof.
  unfold validate_intent_deadline_and_budget.
  rewrite !if_err_ok, !orb_false_iff, !Z.eqb_neq, !Z.ltb_ge. destruct u. naive_solver.
Qed.

(** An intent no template could object to. *)
Record intent_safe (b : BaseTemplate) (intent : TypedIntent) : Prop := {
  safe_capability : capability intent ∈ template_capabilities b;
  safe_identity : inside_ceiling b (intent_run_as intent) /\
    validate_run_as (intent_run_as intent) = Ok (intent_run_as intent);
  safe_paths : paths intent = [];
  safe_program : match program intent with
    | None => capability intent = ProcessInspect
    | Some p => exists n, normalize_program_identifier p = Ok n /\ n ∈ template_programs b /\
        is_command_interpreter n = false /\ is_dangerous_program n = false
    end;
  safe_argv : Forall (fun a => is_shell_command_flag a = false /\ has_control a = false)
    (argv intent);
  safe_env : NoDup (map var_name (env intent)) /\
    Forall (fun v => var_name v ∈ template_env_keys b /\
                     is_dangerous_env_key (var_name v) = false) (env intent);
  safe_budget : validate_intent_deadline_and_budget (template_limits b) intent = Ok tt;
}.

(** What is compiled is inside the base template. *)
Record ir_within (b : BaseTemplate) (i : PolicyIr) : Prop := {
  within_base : base i = b;
  within_capabilities : capabilities i ⊆ template_capabilities b;
  within_programs : process_programs i ⊆ template_programs b;
  within_env_keys : process_env_keys i ⊆ template_env_keys b;
  within_limits : limits_within (limits i) (template_limits b);
  within_run_as : run_as i <> ∅ /\ forall r, r ∈ run_as i ->
    inside_ceiling b r /\ validate_run_as r = Ok r;
  within_paths : allowed_paths i = ∅;
  within_no_process : ProcessRun ∉ capabilities i ->
    process_programs i = ∅ /\ process_env_keys i = ∅;
}.

Lemma compile_ir_within doc i : compile_ir doc = Ok i -> ir_within (doc_base doc) i.
Proof.
  intros (caps & progs & keys & d & [Hc Hr Hl Hp Hk Hd Hi Hne])%compile_ir_compiled.
  apply compile_capabilities_narrows in Hc. apply compile_limits_narrows in Hl as [Hl _].
  apply compile_program_selection_narrows in Hp. apply compile_env_selection_narrows in Hk.
  destruct Hd as [Dc Dp _]. cbn in Dc, Dp. rewrite Hi. cbn. split; cbn; try done.
  - intros c Hx%Dc. set_solver.
  - destruct (bool_decide _); [|set_solver]. intros p Hx%Dp. set_solver.
  - destruct (bool_decide _); set_solver.
  - split; [by eapply compile_identities_nonempty|].
    intros r Hr'. eapply compile_identities in Hr' as (? & ? & _); [|done]. done.
  - intros Hn. by rewrite bool_decide_false.
Qed.

Lemma granted_within b i intent p e q :
  ir_within b i -> precheck intent = Ok (p, e, q) -> granted i intent p e q ->
  intent_safe b intent.
Proof.
  intros [_ Hc Hp Hk Hl [_ Hr] Hpath _] Hpre [Gc Gr Gb Gp Ge Gq].
  apply precheck_ok in Hpre as (_ & Hcol & Hprog & Henv & Hpaths & Hshape).
  apply Hr in Gr as [Gr1 Gr2]. split; try done.
  - auto.
  - unfold normalize_intent_paths in Hpaths. apply collect_ok in Hpaths.
    destruct q as [|x q]; [by apply Forall2_nil_inv_r in Hpaths|].
    apply Forall_cons in Gq as [[(prefix & Hpre & _) _] _]. rewrite Hpath in Hpre. set_solver.
  - unfold normalize_intent_program, validate_intent_shape in *.
    destruct (program intent) as [n|].
    + apply rbind_ok in Hprog as (m & Hm & Hprog). apply rbind_ok in Hprog as (u & Hu & [= <-]).
      apply validate_program_invariant_ok in Hu as [? ?]. eauto 10.
    + apply Hc in Gc. destruct (capability intent), b; set_solver.
  - by apply collections_argv.
  - apply normalize_intent_env_ok in Henv as (-> & Hnd & Hall). split; [done|].
    rewrite Forall_forall in *. intros v Hv. split; [|auto].
    apply Hk, Ge, elem_of_list_to_set, list_elem_of_fmap. eauto.
  - rewrite budget_ok in *. destruct Hl as (? & ? & ? & ? & ?). lia.
Qed.

(** One policy at most as permissive as another. *)
Record ir_le (i j : PolicyIr) : Prop := {
  le_capabilities : capabilities i ⊆ capabilities j;
  le_run_as : run_as i ⊆ run_as j;
  le_limits : limits_within (limits i) (limits j);
  le_programs : process_programs i ⊆ process_programs j;
  le_env_keys : process_env_keys i ⊆ process_env_keys j;
  le_allowed : allowed_paths i ⊆ allowed_paths j;
  le_denied : denied_paths j ⊆ denied_paths i;
}.

#[export] Instance ir_le_preorder : PreOrder ir_le.
Proof.
  split.
  - intros i. by split.
  - intros i j k [] []. split; try (by etrans). unfold limits_within in *. lia.
Qed.

Lemma granted_mono i j intent p e q :
  ir_le i j -> granted i intent p e q -> granted j intent p e q.
Proof.
  intros [] []. split; auto.
  - rewrite budget_ok in *. unfold limits_within in *. lia.
  - destruct p; auto.
  - set_solver.
  - eapply Forall_impl; [done|]. intros x ((pre & Hp & E) & Hn). split; [eauto|].
    intros (pre' & Hp' & E'). apply Hn. eauto.
Qed.

(** Every denial code of the second part is policy-specific. *)
Lemma post_not_invariant i intent p e q c :
  precheck intent = Ok (p, e, q) -> evaluate_intent i intent = Err c -> is_invariant c = false.
Proof.
  unfold precheck, evaluate_intent. rewrite negb_if_ok. intros (-> & Hpre). cbn [negb].
  inv_ok. do 2 (erewrite rbind_pass by eassumption).
  do 3 (erewrite rbind_pass by eassumption). erewrite rbind_pass by eassumption.
  destruct (bool_decide (capability intent ∈ _)); [|by intros [= <-]]. cbn [negb].
  destruct (bool_decide (intent_run_as intent ∈ _)); [|by intros [= <-]]. cbn [negb].
  rewrite rbind_err. intros [Hb|(u & _ & H)].
  { unfold validate_intent_deadline_and_budget in Hb.
    repeat (destruct (_ || _) in Hb || destruct (_ =? _) in Hb || destruct (_ <? _) in Hb);
      by simplify_eq. }
  rewrite rbind_err in H. destruct H as [Hb|(u' & _ & H)].
  { destruct p as [n|]; [|done]. by destruct (bool_decide _); simplify_eq/=. }
  rewrite rbind_err in H. destruct H as [Hb|(u'' & _ & H)].
  { revert Hb. apply (for_each_unit_err _ (fun c => is_invariant c = false)).
    intros k c'. by destruct (bool_decide _); intros; simplify_eq/=. }
  rewrite rbind_err in H. destruct H as [Hb|(u3 & _ & H)]; [|done].
  revert Hb. apply (for_each_unit_err _ (fun c => is_invariant c = false)).
  intros k c'. by repeat destruct (existsb _ _); intros; simplify_eq/=.
Qed.

(** ** Documents that mean the same *)

Definition same_elements {A} (l l' : list A) : Prop := forall x, x ∈ l <-> x ∈ l'.
Definition same_selection {A} (o o' : option (list A)) : Prop :=
  match o, o' with
  | Some l, Some l' => same_elements l l'
  | None, None => True
  | _, _ => False
  end.

(** Equal up to the order and repetition of list entries. *)
Record doc_equiv (d d' : PolicyDocument) : Prop := {
  eqv_base : doc_base d = doc_base d';
  eqv_capabilities : same_selection (doc_capabilities d) (doc_capabilities d');
  eqv_run_as : same_elements (doc_run_as d) (doc_run_as d');
  eqv_limits : doc_limits d = doc_limits d';
  eqv_programs : same_selection (programs (doc_process d)) (programs (doc_process d'));
  eqv_env_keys : same_selection (env_keys (doc_process d)) (env_keys (doc_process d'));
  eqv_deny : same_elements (doc_deny d) (doc_deny d');
}.

Lemma collect_same {A B} `{Countable B} (f : A -> result ReasonCode B) l l' bs bs' :
  same_elements l l' -> collect f l = Ok bs -> collect f l' = Ok bs' ->
  (list_to_set bs : gset B) = list_to_set bs'.
Proof.
  intros Hs Hb Hb'. apply set_eq. intros x.
  rewrite (elem_of_collect f l), (elem_of_collect f l') by done.
  split; intros (a & Ha & E); exists a; (split; [by apply Hs|done]).
Qed.

Lemma compile_program_selection_same o o' s0 c s s' : same_selection o o' ->
  compile_program_selection o s0 c = Ok s -> compile_program_selection o' s0 c = Ok s' -> s = s'.
Proof.
  unfold compile_program_selection, same_selection. destruct o as [l|], o' as [l'|]; try done.
  - intros Hs H1 H2. inv_ok. rewrite negb_if_ok in H1, H2.
    destruct H1 as (_ & [= <-]), H2 as (_ & [= <-]). by eapply collect_same.
  - intros _ [= <-] [= <-]. done.
Qed.

Lemma compile_env_selection_same o o' s0 s s' : same_selection o o' ->
  compile_env_selection o s0 = Ok s -> compile_env_selection o' s0 = Ok s' -> s = s'.
Proof.
  unfold compile_env_selection, same_selection. destruct o as [l|], o' as [l'|]; try done.
  - intros Hs H1 H2. inv_ok. rewrite negb_if_ok in H1, H2.
    destruct H1 as (_ & [= <-]), H2 as (_ & [= <-]). by eapply collect_same.
  - intros _ [= <-] [= <-]. done.
Qed.

Lemma compile_identities_same b l l' s s' : same_elements l l' ->
  compile_identity_selection b l = Ok s -> compile_identity_selection b l' = Ok s' -> s = s'.
Proof.
  unfold compile_identity_selection. intros Hs H1 H2. inv_ok. rewrite negb_if_ok in H1, H2.
  destruct H1 as (_ & [= <-]), H2 as (_ & [= <-]). by eapply collect_same.
Qed.

Lemma compile_capabilities_same b o o' s s' : same_selection o o' ->
  compile_capabilities b o = Ok s -> compile_capabilities b o' = Ok s' -> s = s'.
Proof.
  unfold compile_capabilities, same_selection. destruct o as [l|], o' as [l'|]; try done.
  - intros Hs. rewrite !negb_if_ok. intros (_ & [= <-]) (_ & [= <-]).
    apply set_eq. intros x. rewrite !elem_of_list_to_set. apply Hs.
  - intros _ [= <-] [= <-]. done.
Qed.

Lemma denied_mono d1 d2 d rules rules' :
  denied d d1 rules -> denied d d2 rules' -> (forall r, r ∈ rules -> r ∈ rules') ->
  d_capabilities d2 ⊆ d_capabilities d1 /\ d_programs d2 ⊆ d_programs d1 /\
  d_paths d1 ⊆ d_paths d2.
Proof.
  intros [A1 B1 C1] [A2 B2 C2] Hs. split_and!; intros x.
  - rewrite A1, A2. naive_solver.
  - rewrite B1, B2. intros [? Hn]. split; [done|]. intros (n & Hn' & E). eauto.
  - rewrite C1, C2. intros [?|(v & Hv & E)]; eauto.
Qed.

Lemma denied_same d1 d2 d rules rules' :
  denied d d1 rules -> denied d d2 rules' -> same_elements rules rules' -> d1 = d2.
Proof.
  intros H1 H2 Hs.
  destruct (denied_mono _ _ _ _ _ H1 H2) as (A & B & C); [by intros r ?; apply Hs|].
  destruct (denied_mono _ _ _ _ _ H2 H1) as (A' & B' & C'); [by intros r ?; apply Hs|].
  destruct d1, d2; cbn in *. f_equal; by apply set_eq; set_solver.
Qed.

Lemma compile_ir_same d d' i i' : doc_equiv d d' ->
  compile_ir d = Ok i -> compile_ir d' = Ok i' -> i = i'.
Proof.
  intros [Eb Ec Er El Ep Ek Ed] (caps & progs & keys & dn & [])%compile_ir_compiled
    (caps' & progs' & keys' & dn' & [])%compile_ir_compiled.
  rewrite Eb, El in *.
  assert (caps = caps') as -> by (eapply compile_capabilities_same; [exact Ec|eassumption..]).
  assert (progs = progs') as -> by (eapply compile_program_selection_same; [exact Ep|eassumption..]).
  assert (keys = keys') as -> by (eapply compile_env_selection_same; [exact Ek|eassumption..]).
  assert (run_as i = run_as i') as Er' by (eapply compile_identities_same; [exact Er|eassumption..]).
  assert (dn = dn') as -> by by eapply denied_same.
  assert (limits i = limits i') as El' by congruence.
  rewrite comp_ir0, comp_ir1. by rewrite Er', El'.
Qed.

(** ** POSIX paths by their components *)

Definition components (v : str) : list str :=
  List.filter (fun c => negb (is_empty c)) (split_on "/"%byte v).

Definition component_ok (c : str) : Prop := c <> [] /\ "/"%byte ∉ c /\ is_dot c = false.

Definition render (cs : list str) : str := rs "/" ++ join_with "/"%byte cs.

Lemma components_loop l acc cs :
  for_each (fun acc component =>
      if is_dot component then Err InvariantPathTraversal
      else Ok (acc ++ [component])) acc l = Ok cs <->
  Forall (fun c => is_dot c = false) l /\ cs = acc ++ l.
Proof.
  revert acc; induction l as [|c l IH]; intros acc; cbn [for_each].
  - rewrite app_nil_r. split; [by intros [= <-]|by intros [_ ->]].
  - rewrite Forall_cons, rbind_ok. setoid_rewrite if_err_ok. split.
    + intros (a & (Hc & [= <-]) & Hl). apply IH in Hl as [? ->]. by rewrite <-app_assoc.
    + intros ((Hc & Hl) & ->). eexists. split; [by split|]. apply IH. by rewrite <-app_assoc.
Qed.

Lemma components_no_sep v c : c ∈ components v -> c <> [] /\ "/"%byte ∉ c.
Proof.
  unfold components. rewrite list_elem_of_In, filter_In, <-list_elem_of_In.
  intros [Hin Hne]. apply negb_true_iff, is_empty_false in Hne. split; [done|].
  pose proof (split_on_no_sep "/"%byte v) as Hs. rewrite Forall_forall in Hs. auto.
Qed.

Lemma normalize_posix_path_ok v n : normalize_posix_path v = Ok n <->
  starts_with (rs "/") v = true /\ contains_byte "\"%byte v = false /\
  Forall component_ok (components v) /\ n = render (components v).
Proof.
  unfold normalize_posix_path. rewrite negb_if_ok, if_err_ok.
  rewrite (let_ok (Forall (fun c => is_dot c = false) (components v)) (components v))
    by (intros a; apply (components_loop _ [])).
  assert ((if is_empty (components v) then @Ok ReasonCode str (rs "/")
           else Ok (rs "/" ++ join_with "/"%byte (components v))) = Ok (render (components v)))
    as -> by by destruct (components v).
  assert (Forall (fun c => is_dot c = false) (components v) <->
          Forall component_ok (components v)) as ->.
  { rewrite !Forall_forall. split; intros Hf c Hc.
    - destruct (components_no_sep _ _ Hc). by split; [|split; [|apply Hf]].
    - by apply Hf. }
  naive_solver.
Qed.

Lemma split_join_app a s : Forall (fun c => "/"%byte ∉ c) a -> a <> [] ->
  split_on "/"%byte (join_with "/"%byte a ++ "/"%byte :: s) = a ++ split_on "/"%byte s.
Proof.
  intros Ha Hne. induction Ha as [|c a Hc Ha IH]; [done|].
  destruct a as [|c' a]; [by apply split_on_app|].
  change (join_with "/"%byte (c :: c' :: a))
    with (c ++ "/"%byte :: join_with "/"%byte (c' :: a)).
  rewrite <-app_assoc. cbn [app]. rewrite split_on_app by done. by rewrite IH.
Qed.

Lemma join_app a b : a <> [] -> b <> [] ->
  join_with "/"%byte (a ++ b) = join_with "/"%byte a ++ "/"%byte :: join_with "/"%byte b.
Proof.
  intros Ha Hb. induction a as [|c a IH]; [done|]. destruct a as [|c' a].
  - by destruct b.
  - change (join_with "/"%byte ((c :: c' :: a) ++ b))
      with (c ++ "/"%byte :: join_with "/"%byte ((c' :: a) ++ b)).
    rewrite IH by done. cbn [join_with]. by rewrite <-app_assoc.
Qed.

Lemma render_inj a b : Forall component_ok a -> Forall component_ok b ->
  render a = render b -> a = b.
Proof.
  intros Ha Hb E. apply app_inv_head in E.
  assert (forall l, Forall component_ok l -> Forall (fun c => "/"%byte ∉ c) l) as Hns.
  { intros l Hl. eapply Forall_impl; [exact Hl|]. by intros c (_ & ? & _). }
  assert (forall l, Forall component_ok l -> join_with "/"%byte l = [] -> l = []) as Hnil.
  { intros [|[|x c] [|c' l]] Hl; try done. by apply Forall_cons in Hl as [[? _] _]. }
  destruct a as [|c a], b as [|c' b]; [done| | |].
  - by rewrite (Hnil (c' :: b)).
  - by rewrite (Hnil (c :: a)).
  - apply (f_equal (split_on "/"%byte)) in E. by rewrite !split_join in E by auto.
Qed.

Lemma render_last a : a <> [] -> Forall component_ok a -> ends_with (rs ":/") (render a) = false.
Proof.
  intros Hne Ha. apply not_true_iff_false. rewrite ends_with_true. intros (r & E).
  destruct a as [|c a _] using rev_ind; [done|]. apply Forall_app in Ha as [Ha Hc].
  apply Forall_cons in Hc as [(Hc & Hsep & _) _].
  assert (exists pre, render (a ++ [c]) = pre ++ c) as (pre & Epre).
  { unfold render. destruct (decide (a = [])) as [->|Hna]; [by exists (rs "/")|].
    rewrite join_app by done. exists (rs "/" ++ join_with "/"%byte a ++ rs "/").
    cbn [join_with]. by rewrite <-!app_assoc. }
  rewrite Epre in E. destruct c as [|x c _] using rev_ind; [done|].
  rewrite app_assoc in E. change (r ++ rs ":/") with (r ++ [":"%byte] ++ ["/"%byte]) in E.
  rewrite app_assoc in E. apply app_inj_tail in E as [_ ->]. apply Hsep. set_solver.
Qed.

Lemma prefix_matches_render a b : Forall component_ok a -> Forall component_ok b ->
  path_prefix_matches {| flavor := Posix; value := render a |}
    {| flavor := Posix; value := render b |} = true <-> a `prefix_of` b.
Proof.
  intros Ha Hb. unfold path_prefix_matches. cbn [flavor value]. rewrite bool_decide_true by done.
  cbn [negb]. destruct (decide (a = [])) as [->|Hne].
  { rewrite bool_decide_true by done. cbn [orb]. split; [intros _; apply prefix_nil|].
    intros _. apply starts_with_true. by eexists. }
  rewrite bool_decide_false, render_last by first [done | intros E; by apply (render_inj a []) in E].
  cbn [orb]. rewrite orb_true_iff, bool_decide_eq_true. split.
  - intros [E|H].
    { by apply render_inj in E as ->. }
    destruct (strip_prefix _ _) as [suf|] eqn:Es; [|done].
    apply strip_prefix_some in Es. apply starts_with_true in H as (r & ->).
    unfold render in Es. rewrite <-app_assoc in Es. apply app_inv_head in Es.
    assert (b <> []) as Hnb by (intros ->; by destruct (join_with "/"%byte a)).
    apply (f_equal (split_on "/"%byte)) in Es.
    rewrite split_join in Es by (done || (eapply Forall_impl; [exact Hb|]; by intros c (_ & ? & _))).
    change (rs "/" ++ r) with ("/"%byte :: r) in Es.
    rewrite split_join_app in Es by (done || (eapply Forall_impl; [exact Ha|]; by intros c (_ & ? & _))).
    rewrite Es. by eexists.
  - intros [c ->]. destruct (decide (c = [])) as [->|Hnc]; [left; by rewrite app_nil_r|].
    right. assert (render (a ++ c) = render a ++ "/"%byte :: join_with "/"%byte c) as E.
    { unfold render. rewrite join_app by done. by rewrite <-app_assoc. }
    rewrite (proj2 (strip_prefix_some _ _ _) E). apply starts_with_true. by eexists.
Qed.

Lemma normalize_path_posix v n : normalize_path Posix v = Ok n ->
  Forall component_ok (components v) /\ n = render (components v).
Proof.
  unfold normalize_path. rewrite seq_ok, if_err_ok, normalize_posix_path_ok. tauto.
Qed.

(** ** Properties *)

Lemma evaluate_safe doc i intent :
  compile_ir doc = Ok i -> evaluate_intent i intent = Ok tt ->
  intent_safe (doc_base doc) intent.
Proof.
  intros Hw%compile_ir_within (p & e & q & Hpre & Hg)%evaluate_ok. by eapply granted_within.
Qed.

(** C35: compilation can only narrow the base template: whatever a document
    selects, the compiled capabilities, programs and environment keys are
    subsets of the template's, every limit is at most the template's, there is
    at least one identity and every one is a non-root identity inside the
    template's ceiling, no path is allowed, and without ProcessRun no program
    or key survives. *)
Theorem compile_only_narrows doc i :
  compile_ir doc = Ok i -> ir_within (doc_base doc) i.
Proof. apply compile_ir_within. Qed.

(** C18: an intent a compiled policy allows is safe whatever the document said:
    its capability, identity, budget and deadline are inside the base template,
    it carries no path, its normalized program is one of the template's fixed
    programs and no interpreter or dangerous command, no argument is a shell
    command flag or holds control characters, and its environment names are
    distinct, allowed and not injection vectors. *)
Theorem allowed_intent_is_safe doc i intent :
  compile_ir doc = Ok i -> evaluate_intent i intent = Ok tt ->
  intent_safe (doc_base doc) intent.
Proof. apply evaluate_safe. Qed.

(** Invariant denials do not depend on the policy: if one policy rejects an
    intent with an invariant code, every policy rejects it with the same code. *)
Theorem invariant_denial_policy_independent i j intent c :
  evaluate_intent i intent = Err c -> is_invariant c = true -> evaluate_intent j intent = Err c.
Proof.
  intros He Hc. destruct (precheck intent) as [[[p e] q]|c'] eqn:Hpre.
  - apply (post_not_invariant i) with (c := c) in Hpre; [congruence|done].
  - assert (forall k, evaluate_intent k intent = Err c') as Hall.
    { intros k. revert Hpre. unfold precheck, evaluate_intent.
      destruct (negb _); [by intros [= <-]|].
      destruct (validate_intent_identity _); [|by intros [= <-]]. cbn [rbind].
      destruct (validate_intent_collections _); [|by intros [= <-]]. cbn [rbind].
      destruct (normalize_intent_program _); [|by intros [= <-]]. cbn [rbind].
      destruct (normalize_intent_env _); [|by intros [= <-]]. cbn [rbind].
      destruct (normalize_intent_paths _); [|by intros [= <-]]. cbn [rbind].
      destruct (validate_intent_shape _); [done|by intros [= <-]]. }
    rewrite Hall in He. by rewrite Hall.
Qed.

(** Deny rules only deny: two documents that differ only in that the second
    has more deny rules compile to policies where everything the second allows
    the first allows too, and a denied capability or program is in no compiled
    set. *)
Theorem deny_rules_only_deny doc doc' i i' intent :
  doc_base doc = doc_base doc' -> doc_capabilities doc = doc_capabilities doc' ->
  doc_run_as doc = doc_run_as doc' -> doc_limits doc = doc_limits doc' ->
  doc_process doc = doc_process doc' -> (forall r, r ∈ doc_deny doc -> r ∈ doc_deny doc') ->
  compile_ir doc = Ok i -> compile_ir doc' = Ok i' ->
  (evaluate_intent i' intent = Ok tt -> evaluate_intent i intent = Ok tt) /\
  (forall c, DenyCapability c ∈ doc_deny doc -> c ∉ capabilities i) /\
  (forall name n, DenyProgram name ∈ doc_deny doc ->
     normalize_program_identifier name = Ok n -> n ∉ process_programs i).
Proof.
  intros Eb Ec Er El Ep Hd (caps & progs & keys & d & [])%compile_ir_compiled
    (caps' & progs' & keys' & d' & [])%compile_ir_compiled.
  assert (ir_le i' i) as Hle.
  { rewrite <-Eb, <-Ec, <-Er, <-El, <-Ep in *.
    assert (caps' = caps) as -> by congruence. assert (progs' = progs) as -> by congruence.
    assert (keys' = keys) as -> by congruence.
    destruct (denied_mono _ _ _ _ _ comp_deny0 comp_deny1 Hd) as (A & B & C).
    assert (run_as i' = run_as i) as Erun by congruence.
    assert (limits i' = limits i) as Elim by congruence.
    rewrite comp_ir0, comp_ir1. split; cbn; try done.
    - by rewrite Erun.
    - rewrite Elim. unfold limits_within. lia.
    - case_bool_decide; [|apply empty_subseteq]. by rewrite bool_decide_true by auto.
    - case_bool_decide; [|apply empty_subseteq]. by rewrite bool_decide_true by auto. }
  destruct comp_deny0 as [A B C]. rewrite comp_ir0. cbn. split_and!.
  - rewrite <-comp_ir0, !evaluate_ok. intros (p & e & q & Hpre & Hg). exists p, e, q.
    split; [done|]. by eapply granted_mono.
  - intros c Hc. rewrite A. tauto.
  - intros name n Hn E. clear Hle comp_ir0 comp_ir1.
    destruct (bool_decide (ProcessRun ∈ d_capabilities d)); [|apply not_elem_of_empty].
    rewrite B. intros [_ Hx]. eauto.
Qed.

Section digest.
Context `{Sha2, HexLaws, JsonSerLaws PolicyIr, !Json PolicyDocument}.

(** Order and repetition in a policy document are irrelevant: documents with
    the same entries compile, when both do, to the same representation and the
    same digest. *)
Theorem compile_order_independent d d' p p' :
  doc_equiv d d' -> compile_policy d = Ok p -> compile_policy d' = Ok p' -> p = p'.
Proof.
  intros Heq. unfold compile_policy. intros Hp Hp'.
  apply rbind_ok in Hp as (i & Hi & Hp). apply rbind_ok in Hp' as (i' & Hi' & Hp').
  assert (i = i') as -> by (eapply compile_ir_same; [exact Heq|eassumption..]).
  rewrite Hp in Hp'. by injection Hp'.
Qed.

(** A digest identifies the compiled policy: two documents that compile to
    the same digest compile to the same representation, unless the two hashed
    representations are a SHA-256 collision. *)
Theorem policy_digest_binds_ir d d' p p' :
  compile_policy d = Ok p -> compile_policy d' = Ok p' -> digest p = digest p' ->
  ir p = ir p' \/
  exists c c', canonical_bytes (ir p) = Ok c /\ canonical_bytes (ir p') = Ok c' /\ c <> c' /\
    sha256 (POLICY_DIGEST_DOMAIN ++ c) = sha256 (POLICY_DIGEST_DOMAIN ++ c').
Proof.
  unfold compile_policy. intros H1' H2' E. inv_ok. cbn in *. apply hex_encode_inj in E.
  match goal with
  | A : canonical_bytes ?i = Ok ?x, B : canonical_bytes ?j = Ok ?y |- _ =>
      destruct (decide (x = y)) as [->|Hne]; [left|right; by exists x, y];
      unfold canonical_bytes in A, B
  end.
  inv_ok. by eapply json_bytes_inj.
Qed.

End digest.

(** On POSIX paths the prefix test compares whole components: a normalized
    prefix matches a normalized path exactly when its list of components is a
    prefix of the other's, so a rule for one directory never covers a sibling
    whose name merely starts the same. *)
Theorem posix_prefix_is_componentwise v w n m :
  normalize_path Posix v = Ok n -> normalize_path Posix w = Ok m ->
  path_prefix_matches {| flavor := Posix; value := n |} {| flavor := Posix; value := m |} = true
  <-> components v `prefix_of` components w.
Proof.
  intros (Hv & ->)%normalize_path_posix (Hw & ->)%normalize_path_posix.
  by apply prefix_matches_render.
Qed.

(** ** A concrete policy *)
Module PolicyRuns.
Import StandIn.

Definition no_limits : LimitsOverlay :=
  {| o_max_deadline_ms := None; o_max_bytes := Some 4096; o_max_output_bytes := None;
     o_max_parallel := None; o_max_operations := None |}.

Definition doc_with (ids : list RunAs) (rules : list DenyRule) : PolicyDocument := {|
  doc_schema_version := 1; doc_base := Red; doc_capabilities := None; doc_run_as := ids;
  doc_limits := no_limits;
  doc_process := {| programs := Some [rs "ID.exe"; rs "uname"];
                    env_keys := Some [rs "LANG"] |};
  doc_deny := rules |}.

Definition doc : PolicyDocument := doc_with [Uid 1000; Uid 1001] [DenyProgram (rs "whoami")].
Definition doc_shuffled : PolicyDocument :=
  doc_with [Uid 1001; Uid 1000; Uid 1001] [DenyProgram (rs "whoami"); DenyProgram (rs "whoami")].
Definition doc_strict : PolicyDocument :=
  doc_with [Uid 1000; Uid 1001] [DenyProgram (rs "whoami"); DenyProgram (rs "uname")].

Definition compiled_ir (d : PolicyDocument) : PolicyIr :=
  match compile_ir d with
  | Ok i => i
  | Err _ => {| ir_schema_version := 0; base := Green; capabilities := ∅; run_as := ∅;
                limits := template_limits Green; process_programs := ∅;
                process_env_keys := ∅; allowed_paths := ∅; denied_paths := ∅ |}
  end.

Definition intent (p : string) : TypedIntent := {|
  intent_schema_version := 1; capability := ProcessRun; intent_run_as := Uid 1000;
  program := Some (rs p); argv := [rs "-u"];
  env := [{| var_name := rs "LANG"; var_value := rs "C" |}]; paths := [];
  budget := {| budget_bytes := 10; output_bytes := 10; parallel := 1; operations := 1 |};
  deadline_ms := 1000 |}.

Lemma compiled_ir_ok d : is_ok (compile_ir d) = true -> compile_ir d = Ok (compiled_ir d).
Proof. unfold compiled_ir. by destruct (compile_ir d). Qed.

#[export] Instance ir_json : JsonSer PolicyIr :=
  table_json_ser [(compiled_ir doc, rs "{a}"); (compiled_ir doc_strict, rs "{b}")].
#[export] Instance ir_json_laws : JsonSerLaws PolicyIr.
Proof. apply table_json_ser_laws. vm_compute. repeat constructor; set_solver. Qed.
#[export] Instance doc_json : Json PolicyDocument :=
  {| to_vec := fun _ => None; from_slice := fun _ => None |}.

Definition policy (d : PolicyDocument) : CompiledPolicy :=
  match compile_policy d with
  | Ok p => p
  | Err _ => {| ir := compiled_ir doc; digest := [] |}
  end.

Lemma policy_ok d : is_ok (compile_policy d) = true -> compile_policy d = Ok (policy d).
Proof. unfold policy. by destruct (compile_policy d). Qed.

Ltac evaluated :=
  first [apply compiled_ir_ok | apply policy_ok | idtac]; vm_compute; reflexivity.

Lemma compile_only_narrows_witness : ir_within Red (compiled_ir doc).
Proof. apply (compile_only_narrows doc). evaluated. Defined.

Lemma allowed_intent_is_safe_witness : intent_safe Red (intent "Uname.EXE").
Proof.
  apply (allowed_intent_is_safe doc (compiled_ir doc)); evaluated.
Defined.

Lemma invariant_denial_policy_independent_witness :
  evaluate_intent (compiled_ir doc_strict) (intent "Bash.exe") = Err InvariantCommandInterpreter.
Proof.
  apply (invariant_denial_policy_independent (compiled_ir doc)); evaluated.
Defined.

Lemma deny_rules_only_deny_witness :
  evaluate_intent (compiled_ir doc) (intent "id") = Ok tt.
Proof.
  apply (deny_rules_only_deny doc doc_strict (compiled_ir doc) (compiled_ir doc_strict)
    (intent "id")); try evaluated.
  intros r Hr. cbn in *. set_solver.
Defined.

Lemma compile_order_independent_witness : policy doc = policy doc_shuffled.
Proof.
  apply (compile_order_independent doc doc_shuffled).
  - split; cbn; try done; intros x; set_solver.
  - evaluated.
  - evaluated.
Defined.

Lemma policy_digest_binds_ir_witness :
  ir (policy doc) = ir (policy doc_shuffled) \/
  exists c c', canonical_bytes (ir (policy doc)) = Ok c /\
    canonical_bytes (ir (policy doc_shuffled)) = Ok c' /\ c <> c' /\
    sha256 (POLICY_DIGEST_DOMAIN ++ c) = sha256 (POLICY_DIGEST_DOMAIN ++ c').
Proof.
  apply (policy_digest_binds_ir doc doc_shuffled); evaluated.
Defined.

Lemma posix_prefix_is_componentwise_witness :
  path_prefix_matches {| flavor := Posix; value := rs "/etc" |}
    {| flavor := Posix; value := rs "/etcetera/x" |} = true <->
  components (rs "//etc/") `prefix_of` components (rs "/etcetera//x").
Proof.
  apply (posix_prefix_is_componentwise (rs "//etc/") (rs "/etcetera//x"));
    vm_compute; reflexivity.
Defined.

End PolicyRuns.
