(* ===== verification/Ledger.v ===== *)
(** * serctl_core::audit: the authenticated, profile-scoped audit ledger

    crates/serctl_core/src/audit.rs.  The ledger of one profile generation is a
    pair of protected files: a log of JSON lines, each chained by hash to its
    predecessor and authenticated by HMAC, and a checkpoint that authenticates
    the head.  The two files are the state of the model; operations run in a
    state-and-error monad that also remembers every durable state they pass
    through, which are the states a crash can leave behind.  File locks make
    operations exclusive, so an operation is one function. *)

From stdpp Require Import countable gmap sorting pretty.
From S2P Require Import Prelude.
From S2P Require Import Bytes.
From S2P Require Import Text.
From S2P Require Import Crates.
#[local] Open Scope string_scope.
#[local] Open Scope list_scope.
#[local] Open Scope Z_scope.

Definition AUDIT_SCHEMA_VERSION : Z := 1.
Definition MAX_AUDIT_LOG_BYTES : Z := 64 * 1024 * 1024.
Definition MAX_AUDIT_RECORD_BYTES : Z := 16 * 1024.
Definition MAX_OPERATION_KIND_BYTES : Z := 64.
Definition MAX_REASON_CODE_BYTES : Z := 96.
Definition RECORD_DOMAIN : bytes := rs "serctl/audit/record/v1" ++ [x00].
Definition RECORD_MAC_DOMAIN : bytes := rs "serctl/audit/record-mac/v1" ++ [x00].
Definition CHECKPOINT_DOMAIN : bytes := rs "serctl/audit/checkpoint/v1" ++ [x00].
Definition AUDIT_KEY_DOMAIN : bytes := rs "serctl/audit/profile-key/v1" ++ [x00].
Definition RESOLVE_UNKNOWN_RESULT_DOMAIN : bytes :=
  rs "serctl/audit/resolve-unknown-result/v1" ++ [x00].
Definition GENERATION_TRANSITION_DOMAIN : bytes :=
  rs "serctl/audit/generation-transition/v1" ++ [x00].
Definition RESOLVE_UNKNOWN_REASON : str := rs "administrative.resolve_unknown".
Definition ZERO_HASH : bytes := replicate 32 x00.

(** ** Events *)

Inductive AuditPhase := Intent | Outcome | Administrative.
Inductive AuditDecision := Pending | Allowed | Denied | Succeeded | Failed | Unknown.

Record AuditEvent := {
  event_profile_id : str;
  event_generation : Z;
  request_id : bytes;
  at_unix_ms : Z;
  operation_kind : str;
  phase : AuditPhase;
  decision : AuditDecision;
  policy_digest : str;
  intent_digest : str;
  result_digest : option str;
  reason_code : str;
}.

#[export] Instance AuditPhase_eq_dec : EqDecision AuditPhase.
Proof. solve_decision. Defined.
#[export] Instance AuditDecision_eq_dec : EqDecision AuditDecision.
Proof. solve_decision. Defined.
#[export] Instance AuditEvent_eq_dec : EqDecision AuditEvent.
Proof. solve_decision. Defined.

(** [byte.is_ascii_digit() || matches!(byte, b'a'..=b'f')]. *)
Definition is_hex_text (n : Z) (v : str) : bool :=
  (zlen v =? n) && forallb is_lower_hex_byte v.

Definition validate_token (v : str) (max : Z) (label : string) : result string unit :=
  ensure! negb (is_empty v) && (zlen v <=? max)
          && forallb (fun b => is_ascii_lowercase b || is_ascii_digit b
                               || matches_byte b (rs ".-_")) v
    or (label ++ " must contain 1..=max bytes of [a-z0-9._-]")%string ;;
  Ok tt.

Definition validate_profile_id (v : str) : result string unit :=
  ensure! is_hex_text 32 v
    or "audit profile id must be 32 lowercase hexadecimal characters" ;;
  Ok tt.

Definition validate_digest (v : str) (label : string) : result string unit :=
  ensure! is_hex_text 64 v
    or (label ++ " must be 64 lowercase hexadecimal characters")%string ;;
  Ok tt.

Definition validate_transition_name (v : str) (label : string) : result string unit :=
  ensure! negb (is_empty v) && (zlen v <=? 255) && negb (has_control v)
    or (label ++ " is empty, oversized, or contains control characters")%string ;;
  Ok tt.

Definition is_some {A} (o : option A) : bool :=
  match o with Some _ => true | None => false end.

Definition event_validate (e : AuditEvent) : result string unit :=
  try! validate_profile_id (event_profile_id e) ;;
  ensure! 0 <? event_generation e or "audit profile generation must be non-zero" ;;
  ensure! 0 <? at_unix_ms e or "audit timestamp must be non-zero" ;;
  try! validate_token (operation_kind e) MAX_OPERATION_KIND_BYTES "operation kind" ;;
  try! validate_token (reason_code e) MAX_REASON_CODE_BYTES "reason code" ;;
  try! validate_digest (policy_digest e) "policy digest" ;;
  try! validate_digest (intent_digest e) "intent digest" ;;
  try! match result_digest e with
       | Some d => validate_digest d "result digest"
       | None => Ok tt
       end ;;
  match phase e with
  | Intent =>
      ensure! bool_decide (decision e = Pending) && negb (is_some (result_digest e))
        or "intent records must be pending and cannot carry a result digest" ;;
      Ok tt
  | Outcome =>
      ensure! negb (bool_decide (decision e = Pending)) && is_some (result_digest e)
        or "outcome records must be terminal and carry a result digest" ;;
      Ok tt
  | Administrative =>
      ensure! negb (bool_decide (decision e = Pending)) && is_some (result_digest e)
        or "administrative records must be terminal and carry a result digest" ;;
      Ok tt
  end.

Record AuditRecord := {
  rec_schema_version : Z;
  rec_sequence : Z;
  previous_hash : str;
  rec_event : AuditEvent;
  rec_hash : str;
  record_mac_field : str;
}.

Record AuditCheckpoint := {
  cp_schema_version : Z;
  cp_profile_id : str;
  cp_generation : Z;
  cp_sequence : Z;
  cp_record_hash : str;
  cp_mac : str;
}.

#[export] Instance AuditRecord_eq_dec : EqDecision AuditRecord.
Proof. solve_decision. Defined.
#[export] Instance AuditCheckpoint_eq_dec : EqDecision AuditCheckpoint.
Proof. solve_decision. Defined.

(** [UnsignedCheckpoint]: the checkpoint without its MAC. *)
Record UnsignedCheckpoint := {
  un_schema_version : Z;
  un_profile_id : str;
  un_generation : Z;
  un_sequence : Z;
  un_record_hash : str;
}.

Definition unsigned (c : AuditCheckpoint) : UnsignedCheckpoint :=
  {| un_schema_version := cp_schema_version c; un_profile_id := cp_profile_id c;
     un_generation := cp_generation c; un_sequence := cp_sequence c;
     un_record_hash := cp_record_hash c |}.

(** The tuple [record_mac] authenticates. *)
Definition MacInput : Type := Z * Z * str * AuditEvent * str.
Definition mac_input (r : AuditRecord) : MacInput :=
  (rec_schema_version r, rec_sequence r, previous_hash r, rec_event r, rec_hash r).

Record PendingIntentBinding := {
  b_operation_kind : str;
  b_policy_digest : str;
  b_intent_digest : str;
}.

#[export] Instance PendingIntentBinding_eq_dec : EqDecision PendingIntentBinding.
Proof. solve_decision. Defined.

Definition from_intent (e : AuditEvent) : PendingIntentBinding :=
  {| b_operation_kind := operation_kind e; b_policy_digest := policy_digest e;
     b_intent_digest := intent_digest e |}.

Definition ensure_matches_outcome (b : PendingIntentBinding) (e : AuditEvent)
  : result string unit :=
  ensure! bool_decide (operation_kind e = b_operation_kind b)
    or "audit Outcome operation kind does not match its Intent" ;;
  ensure! bool_decide (policy_digest e = b_policy_digest b)
    or "audit Outcome policy digest does not match its Intent" ;;
  ensure! bool_decide (intent_digest e = b_intent_digest b)
    or "audit Outcome intent digest does not match its Intent" ;;
  Ok tt.

Record VerifiedLog := {
  v_sequence : Z;
  v_record_hash : bytes;
  v_hashes : list bytes;
  seen_intents : gset bytes;
  pending_intents : gmap bytes PendingIntentBinding;
  first_event : option AuditEvent;
}.

Record PendingResolution := { resolved : Z; resolution_checkpoint : AuditCheckpoint }.
Record AuditInspection := { inspection_pending : Z; inspection_checkpoint : AuditCheckpoint }.

(** ** The durable state *)

(** The two files of a generation; [None] is a missing file. *)
Record Disk := { log_file : option bytes; checkpoint_file : option bytes }.

#[export] Instance Disk_eq_dec : EqDecision Disk.
Proof. solve_decision. Defined.

(** The current state and, latest first, the states it was in before each
    durable write. *)
Record World := { disk : Disk; history : list Disk }.

Definition io (A : Type) : Type := World -> World * result string A.

Definition io_ret {A} (a : A) : io A := fun w => (w, Ok a).
Definition io_bind {A B} (p : io A) (k : A -> io B) : io B := fun w =>
  match p w with
  | (w', Ok a) => k a w'
  | (w', Err e) => (w', Err e)
  end.
(** A pure computation or check. *)
Definition io_lift {A} (r : result string A) : io A := fun w => (w, r).
Definition get_disk : io Disk := fun w => (w, Ok (disk w)).
Definition put_disk (d : Disk) : io unit := fun w =>
  ({| disk := d; history := disk w :: history w |}, Ok tt).

Declare Scope io_scope.
Delimit Scope io_scope with io.
#[global] Open Scope io_scope.

Notation "'let!' x ':=' p 'in' k" := (io_bind p (fun x => k))
  (at level 10, x pattern, p at level 200, k at level 200) : io_scope.
Notation "'run!' p ;; k" := (io_bind p (fun _ => k))
  (at level 10, p at level 99, k at level 200) : io_scope.
Notation "'must!' b 'or' e ;; k" := (io_bind (io_lift (ensure b e)) (fun _ => k))
  (at level 10, b at level 99, e at level 99, k at level 200) : io_scope.

(** [security::create_new_protected_file]: refuses an existing file. *)
Definition create_log : io unit :=
  let! d := get_disk in
  must! negb (is_some (log_file d)) or "create new protected audit log" ;;
  put_disk {| log_file := Some []; checkpoint_file := checkpoint_file d |}.

Definition create_checkpoint : io unit :=
  let! d := get_disk in
  must! negb (is_some (checkpoint_file d)) or "create new authenticated audit checkpoint" ;;
  put_disk {| log_file := log_file d; checkpoint_file := Some [] |}.

(** [file.seek(End(0)); file.write_all(bytes); file.sync_data()]. *)
Definition append_log (b : bytes) : io unit :=
  let! d := get_disk in
  let! l := io_lift (ok_or (log_file d) "authenticated audit log is missing") in
  put_disk {| log_file := Some (l ++ b); checkpoint_file := checkpoint_file d |}.

(** [write_protected_atomic] and [write_all] on the checkpoint file. *)
Definition write_checkpoint (b : bytes) : io unit :=
  let! d := get_disk in
  put_disk {| log_file := log_file d; checkpoint_file := Some b |}.

(** [read_bounded_file] of a file that does not change meanwhile. *)
Definition read_bounded_file (content : bytes) (maximum : Z) (label : string)
  : result string bytes :=
  ensure! zlen content <=? maximum or (label ++ " is oversized")%string ;;
  Ok content.

(** [encoded.split_inclusive(|byte| *byte == b'\n')]: every piece keeps its
    newline, except possibly the last. *)
Fixpoint split_inclusive (acc : bytes) (s : bytes) : list bytes :=
  match s with
  | [] => if is_empty acc then [] else [acc]
  | b :: s' =>
      if bool_decide (b = "010"%byte) then (acc ++ [b]) :: split_inclusive [] s'
      else split_inclusive (acc ++ [b]) s'
  end.

(** Lexicographic order of request identifiers. *)
Fixpoint bytes_leb (a b : bytes) : bool :=
  match a, b with
  | [], _ => true
  | _ :: _, [] => false
  | x :: a', y :: b' =>
      if b8 x <? b8 y then true else if b8 y <? b8 x then false else bytes_leb a' b'
  end.
Definition pending_le (p q : bytes * PendingIntentBinding) : Prop :=
  bytes_leb p.1 q.1 = true.
#[export] Instance pending_le_dec p q : Decision (pending_le p q).
Proof. unfold pending_le. apply _. Defined.

Section ledger.
Context `{Sha2, HmacSha2, Hex, Json AuditEvent, Json AuditRecord, Json AuditCheckpoint,
          JsonSer UnsignedCheckpoint, JsonSer MacInput}.

(** The ledger of one profile generation and its key. *)
Record AuditLedger := {
  profile_id : bytes;
  profile_generation : Z;
  key : bytes;
}.

Definition with_protected_key (pid : bytes) (generation : Z) (k : bytes)
  : result string AuditLedger :=
  ensure! 0 <? generation or "audit profile generation must be non-zero" ;;
  Ok {| profile_id := pid; profile_generation := generation; key := k |}.

(** [AuditLedger::new]. *)
Definition new (pid : bytes) (generation : Z) (k : bytes) : result string AuditLedger :=
  with_protected_key pid generation k.

(** The names of the two files in the ledger directory. *)
Definition stem (l : AuditLedger) : str :=
  hex_encode (profile_id l) ++ rs "-g" ++ rs (pretty (profile_generation l)).
Definition log_path (l : AuditLedger) : str := rs "audit-" ++ stem l ++ rs ".jsonl".
Definition checkpoint_path (l : AuditLedger) : str :=
  rs "audit-" ++ stem l ++ rs ".checkpoint.json".

Definition from_profile_call_key (pid : bytes) (generation : Z) (call_key : bytes)
  : result string AuditLedger :=
  let derived := hmac_sha256 call_key (AUDIT_KEY_DOMAIN ++ pid ++ be64 generation) in
  with_protected_key pid generation derived.

Definition calculate_record_hash (sequence : Z) (previous : bytes) (e : AuditEvent)
  : result string bytes :=
  let* event_bytes := ok_or (to_vec e) "serialize canonical audit event" in
  Ok (sha256 (RECORD_DOMAIN ++ be16 AUDIT_SCHEMA_VERSION ++ be64 sequence ++ previous
              ++ be64 (zlen event_bytes) ++ event_bytes)).

Definition resolved_unknown_result_digest (pid : bytes) (generation : Z) (rid : bytes)
    (b : PendingIntentBinding) : str :=
  hex_encode (sha256 (RESOLVE_UNKNOWN_RESULT_DOMAIN ++ pid ++ be64 generation ++ rid
    ++ be64 (zlen (b_operation_kind b)) ++ b_operation_kind b ++ b_policy_digest b
    ++ b_intent_digest b ++ RESOLVE_UNKNOWN_REASON)).

Section with_ledger.
Variable L : AuditLedger.

Definition record_mac (r : AuditRecord) : result string str :=
  let* encoded := ok_or (json_bytes (mac_input r)) "serialize authenticated audit record" in
  Ok (hex_encode (hmac_sha256 (key L) (RECORD_MAC_DOMAIN ++ encoded))).

Definition verify_record_mac (r : AuditRecord) : result string unit :=
  let* provided := ok_or (hex_decode (record_mac_field r)) "decode audit record MAC" in
  ensure! zlen provided =? 32 or "audit record MAC length is invalid" ;;
  let* tag := record_mac r in
  let* expected := ok_or (hex_decode tag) "decode" in
  ensure! bool_decide (expected = provided) or "audit record authentication failed" ;;
  Ok tt.

Definition same_identity (pid : str) (generation : Z) : bool :=
  bool_decide (pid = hex_encode (profile_id L)) && (generation =? profile_generation L).

Definition empty_log : VerifiedLog :=
  {| v_sequence := 0; v_record_hash := ZERO_HASH; v_hashes := []; seen_intents := ∅;
     pending_intents := ∅; first_event := None |}.

(** The phase rule of one record: the intents seen and pending afterwards. *)
Definition track_intents (seen : gset bytes) (pending : gmap bytes PendingIntentBinding)
    (e : AuditEvent) : result string (gset bytes * gmap bytes PendingIntentBinding) :=
  match phase e with
  | Intent =>
      ensure! negb (bool_decide (request_id e ∈ seen))
        or "audit ledger contains a duplicate Intent request id" ;;
      Ok (seen ∪ {[ request_id e ]}, <[ request_id e := from_intent e ]> pending)
  | Outcome =>
      let* b := ok_or (pending !! request_id e)
        "audit Outcome does not match a pending Intent" in
      try! ensure_matches_outcome b e ;;
      Ok (seen, delete (request_id e) pending)
  | Administrative => Ok (seen, pending)
  end.

(** One line of the loop in [verify_log]. *)
Definition verify_line (v : VerifiedLog) (raw_line : bytes) : result string VerifiedLog :=
  ensure! ends_with ["010"%byte] raw_line or "audit log ends with a partial record" ;;
  let line := take (length raw_line - 1) raw_line in
  ensure! negb (is_empty line) or "audit log contains an empty record" ;;
  ensure! zlen line <=? MAX_AUDIT_RECORD_BYTES or "audit record exceeds its size limit" ;;
  let* record := ok_or (from_slice line) "parse audit record" in
  ensure! rec_schema_version record =? AUDIT_SCHEMA_VERSION
    or "unsupported audit record schema" ;;
  try! verify_record_mac record ;;
  let first := match first_event v with
               | None => Some (rec_event record)
               | Some e => Some e
               end in
  try! event_validate (rec_event record) ;;
  ensure! same_identity (event_profile_id (rec_event record))
            (event_generation (rec_event record))
    or "audit record profile identity mismatch" ;;
  let* (seen, pending) := track_intents (seen_intents v) (pending_intents v)
                            (rec_event record) in
  let* expected_sequence := ok_or (checked_add U64_MAX (v_sequence v) 1)
    "audit sequence overflow" in
  ensure! rec_sequence record =? expected_sequence
    or "audit record sequence gap, replay or reordering" ;;
  ensure! bool_decide (previous_hash record = hex_encode (v_record_hash v))
    or "audit record previous hash mismatch" ;;
  let* expected_hash := calculate_record_hash (rec_sequence record) (v_record_hash v)
                          (rec_event record) in
  ensure! bool_decide (rec_hash record = hex_encode expected_hash)
    or "audit record hash mismatch" ;;
  Ok {| v_sequence := rec_sequence record; v_record_hash := expected_hash;
        v_hashes := v_hashes v ++ [expected_hash]; seen_intents := seen;
        pending_intents := pending; first_event := first |}.

Definition verify_log (content : bytes) : result string VerifiedLog :=
  let* encoded := read_bounded_file content MAX_AUDIT_LOG_BYTES "audit log" in
  for_each verify_line empty_log (split_inclusive [] encoded).

Definition checkpoint_mac (c : AuditCheckpoint) : result string str :=
  let* encoded := ok_or (json_bytes (unsigned c)) "serialize audit checkpoint payload" in
  Ok (hex_encode (hmac_sha256 (key L) (CHECKPOINT_DOMAIN ++ encoded))).

Definition make_checkpoint (sequence : Z) (hash : bytes) : result string AuditCheckpoint :=
  let c tag := {| cp_schema_version := AUDIT_SCHEMA_VERSION;
                  cp_profile_id := hex_encode (profile_id L);
                  cp_generation := profile_generation L; cp_sequence := sequence;
                  cp_record_hash := hex_encode hash; cp_mac := tag |} in
  let* tag := checkpoint_mac (c []) in
  Ok (c tag).

Definition verify_checkpoint_mac (c : AuditCheckpoint) : result string unit :=
  ensure! cp_schema_version c =? AUDIT_SCHEMA_VERSION
    or "unsupported audit checkpoint schema" ;;
  ensure! same_identity (cp_profile_id c) (cp_generation c)
    or "audit checkpoint profile identity mismatch" ;;
  try! validate_digest (cp_record_hash c) "checkpoint record hash" ;;
  let* provided := ok_or (hex_decode (cp_mac c)) "decode audit checkpoint MAC" in
  ensure! zlen provided =? 32 or "audit checkpoint MAC length is invalid" ;;
  let* tag := checkpoint_mac c in
  let* expected := ok_or (hex_decode tag) "decode" in
  ensure! bool_decide (expected = provided) or "audit checkpoint authentication failed" ;;
  Ok tt.

Definition read_checkpoint : io (option AuditCheckpoint) :=
  let! d := get_disk in
  match checkpoint_file d with
  | None => io_ret None
  | Some content =>
      let! encoded := io_lift (read_bounded_file content MAX_AUDIT_RECORD_BYTES
                                 "audit checkpoint") in
      let! c := io_lift (ok_or (from_slice encoded) "parse audit checkpoint") in
      io_ret (Some c)
  end.

Definition persist_checkpoint (c : AuditCheckpoint) : io unit :=
  let! encoded := io_lift (ok_or (to_vec c) "serialize audit checkpoint") in
  write_checkpoint encoded.

Definition persist_checkpoint_create_new (c : AuditCheckpoint) : io unit :=
  let! encoded := io_lift (ok_or (to_vec c) "serialize audit checkpoint") in
  run! create_checkpoint ;;
  write_checkpoint encoded.

(** [if sequence == 0 { ZERO_HASH } else { verified.hashes[sequence - 1] }];
    an index out of bounds panics. *)
Definition hash_at (v : VerifiedLog) (sequence : Z) : result string bytes :=
  if sequence =? 0 then Ok ZERO_HASH
  else ok_or (v_hashes v !! Z.to_nat (sequence - 1)) "panic: index out of bounds".

(** The head of the log a checkpoint or an anchor claims. *)
Definition contains_head (v : VerifiedLog) (c : AuditCheckpoint) (ahead diverges : string)
  : result string unit :=
  ensure! cp_sequence c <=? v_sequence v or ahead ;;
  let* h := hash_at v (cp_sequence c) in
  ensure! bool_decide (hex_encode h = cp_record_hash c) or diverges ;;
  Ok tt.

Definition verify_checkpoint_against_log (v : VerifiedLog) (allow_lagging : bool)
  : io AuditCheckpoint :=
  let! c := read_checkpoint in
  let! c := io_lift (ok_or c "audit checkpoint is missing") in
  run! io_lift (verify_checkpoint_mac c) ;;
  run! io_lift (contains_head v c "audit checkpoint is ahead of the log"
                  "audit checkpoint diverges from the log") ;;
  must! allow_lagging
        || ((cp_sequence c =? v_sequence v)
            && bool_decide (cp_record_hash c = hex_encode (v_record_hash v)))
    or "audit checkpoint lags behind the log; reconcile before use" ;;
  io_ret c.

Definition verify_external_anchor (v : VerifiedLog) (c : AuditCheckpoint)
    (anchor : option AuditCheckpoint) : result string unit :=
  match anchor with
  | None => Ok tt
  | Some a =>
      try! verify_checkpoint_mac a ;;
      ensure! bool_decide (cp_profile_id a = cp_profile_id c)
              && (cp_generation a =? cp_generation c)
        or "audit anchor belongs to another profile identity" ;;
      contains_head v a "audit ledger is older than the external anchor"
        "audit ledger does not contain the external anchor"
  end.

(** Opening the log: a missing file is an error. *)
Definition open_log : io bytes :=
  let! d := get_disk in
  io_lift (ok_or (log_file d) "authenticated audit log is missing").

Definition has_any_material : io bool :=
  let! d := get_disk in
  io_ret (is_some (log_file d) || is_some (checkpoint_file d)).

Definition append_locked_with_checkpoint_mode (e : AuditEvent) (create_new : bool)
  : io AuditCheckpoint :=
  let! content := open_log in
  let! v := io_lift (verify_log content) in
  run! (if create_new then
          must! (v_sequence v =? 0) && negb (is_some (first_event v))
                && bool_decide (pending_intents v = ∅)
            or "new audit generation is not empty" ;;
          let! prior := read_checkpoint in
          must! negb (is_some prior) or "new audit generation checkpoint already exists" ;;
          io_ret tt
        else
          run! verify_checkpoint_against_log v true ;;
          io_ret tt) ;;
  run! io_lift (match phase e with
                | Intent =>
                    ensure (negb (bool_decide (request_id e ∈ seen_intents v)))
                      "audit Intent request id was already used"
                | Outcome =>
                    let* b := ok_or (pending_intents v !! request_id e)
                      "audit Outcome does not match a pending Intent" in
                    ensure_matches_outcome b e
                | Administrative => Ok tt
                end) ;;
  let! sequence := io_lift (ok_or (checked_add U64_MAX (v_sequence v) 1)
                              "audit sequence overflow") in
  let! hash := io_lift (calculate_record_hash sequence (v_record_hash v) e) in
  let record tag := {|
    rec_schema_version := AUDIT_SCHEMA_VERSION; rec_sequence := sequence;
    previous_hash := hex_encode (v_record_hash v); rec_event := e;
    rec_hash := hex_encode hash; record_mac_field := tag |} in
  let! tag := io_lift (record_mac (record [])) in
  let! encoded := io_lift (ok_or (to_vec (record tag)) "serialize audit record") in
  must! zlen encoded <=? MAX_AUDIT_RECORD_BYTES or "audit record exceeds its size limit" ;;
  let encoded := encoded ++ ["010"%byte] in
  must! saturating_add U64_MAX (zlen content) (zlen encoded) <=? MAX_AUDIT_LOG_BYTES
    or "audit log reached its configured size limit" ;;
  run! append_log encoded ;;
  let! c := io_lift (make_checkpoint sequence hash) in
  run! (if create_new then persist_checkpoint_create_new c else persist_checkpoint c) ;;
  io_ret c.

Definition append_locked (e : AuditEvent) : io AuditCheckpoint :=
  append_locked_with_checkpoint_mode e false.

Definition append (e : AuditEvent) : io AuditCheckpoint :=
  run! io_lift (event_validate e) ;;
  must! same_identity (event_profile_id e) (event_generation e)
    or "audit event profile identity mismatch" ;;
  run! open_log ;;
  append_locked e.

Definition verify_internal (anchor : option AuditCheckpoint) (require_complete : bool)
  : io AuditInspection :=
  let! content := open_log in
  let! v := io_lift (verify_log content) in
  must! negb require_complete || bool_decide (pending_intents v = ∅)
    or "audit ledger contains an Intent without a terminal Outcome" ;;
  let! c := verify_checkpoint_against_log v false in
  run! io_lift (verify_external_anchor v c anchor) ;;
  io_ret {| inspection_pending := Z.of_nat (size (pending_intents v));
            inspection_checkpoint := c |}.

Definition verify (anchor : option AuditCheckpoint) : io AuditCheckpoint :=
  let! i := verify_internal anchor false in io_ret (inspection_checkpoint i).
Definition verify_complete (anchor : option AuditCheckpoint) : io AuditCheckpoint :=
  let! i := verify_internal anchor true in io_ret (inspection_checkpoint i).
Definition inspect (anchor : option AuditCheckpoint) : io AuditInspection :=
  verify_internal anchor false.

Definition unknown_outcome (at_ms : Z) (rid : bytes) (b : PendingIntentBinding) : AuditEvent :=
  {| event_profile_id := hex_encode (profile_id L);
     event_generation := profile_generation L;
     request_id := rid; at_unix_ms := at_ms; operation_kind := b_operation_kind b;
     phase := Outcome; decision := Unknown; policy_digest := b_policy_digest b;
     intent_digest := b_intent_digest b;
     result_digest := Some (resolved_unknown_result_digest (profile_id L)
                              (profile_generation L) rid b);
     reason_code := RESOLVE_UNKNOWN_REASON |}.

(** [for (request_id, binding) in pending { checkpoint = ...append_locked }]. *)
Fixpoint append_unknowns (at_ms : Z) (c : AuditCheckpoint)
    (pending : list (bytes * PendingIntentBinding)) : io AuditCheckpoint :=
  match pending with
  | [] => io_ret c
  | (rid, b) :: rest =>
      let! c' := append_locked (unknown_outcome at_ms rid b) in
      append_unknowns at_ms c' rest
  end.

Definition resolve_pending_as_unknown (at_ms : Z) (anchor : option AuditCheckpoint)
  : io PendingResolution :=
  must! 0 <? at_ms or "pending-resolution timestamp must be non-zero" ;;
  let! content := open_log in
  let! v := io_lift (verify_log content) in
  let! current := verify_checkpoint_against_log v false in
  run! io_lift (verify_external_anchor v current anchor) ;;
  let pending := merge_sort pending_le (map_to_list (pending_intents v)) in
  let! c := append_unknowns at_ms current pending in
  io_ret {| resolved := zlen pending; resolution_checkpoint := c |}.

Definition reconcile : io AuditCheckpoint :=
  let! content := open_log in
  let! v := io_lift (verify_log content) in
  let! prior := read_checkpoint in
  run! io_lift (match prior with
                | Some c =>
                    try! verify_checkpoint_mac c ;;
                    contains_head v c "audit checkpoint is ahead of the log"
                      "audit checkpoint diverges from the log"
                | None => ensure (v_sequence v =? 0) "audit checkpoint is missing"
                end) ;;
  let! c := io_lift (make_checkpoint (v_sequence v) (v_record_hash v)) in
  run! persist_checkpoint c ;;
  io_ret c.

(** ** Generations *)

Definition ensure_generation_event_matches (actual expected : AuditEvent)
  : result string unit :=
  let normalized := {|
    event_profile_id := event_profile_id expected;
    event_generation := event_generation expected; request_id := request_id expected;
    at_unix_ms := at_unix_ms actual; operation_kind := operation_kind expected;
    phase := phase expected; decision := decision expected;
    policy_digest := policy_digest expected; intent_digest := intent_digest expected;
    result_digest := result_digest expected; reason_code := reason_code expected |} in
  ensure! bool_decide (actual = normalized)
    or "pre-existing generation audit transition does not match the requested continuity" ;;
  Ok tt.

Definition transition_binding (old_name new_name : str) (predecessor : bytes) : bytes :=
  sha256 (GENERATION_TRANSITION_DOMAIN
    ++ be64 (zlen old_name) ++ old_name ++ be64 (zlen new_name) ++ new_name
    ++ be64 (zlen predecessor) ++ predecessor
    ++ profile_id L ++ be64 (profile_generation L)).

Definition generation_transition_event (predecessor : option AuditCheckpoint)
    (old_name new_name : str) (at_ms : Z) : result string AuditEvent :=
  let* predecessor_bytes :=
    match predecessor with
    | Some c => ok_or (to_vec c) "serialize predecessor audit checkpoint"
    | None => Ok []
    end in
  let binding := transition_binding old_name new_name predecessor_bytes in
  let policy := sha256 (GENERATION_TRANSITION_DOMAIN ++ rs "policy" ++ profile_id L) in
  let res := sha256 (GENERATION_TRANSITION_DOMAIN ++ rs "successor" ++ profile_id L
                     ++ be64 (profile_generation L) ++ binding) in
  Ok {| event_profile_id := hex_encode (profile_id L);
        event_generation := profile_generation L;
        request_id := take 16 binding; at_unix_ms := at_ms;
        operation_kind := rs "audit.generation"; phase := Administrative;
        decision := Allowed; policy_digest := hex_encode policy;
        intent_digest := hex_encode binding; result_digest := Some (hex_encode res);
        reason_code := match predecessor with
                       | Some _ => rs "generation.transition"
                       | None => rs "generation.genesis"
                       end |}.

Definition initialize_create_new (e : AuditEvent) : io AuditCheckpoint :=
  run! io_lift (event_validate e) ;;
  must! same_identity (event_profile_id e) (event_generation e)
    or "audit initialization event profile identity mismatch" ;;
  let! d := get_disk in
  must! negb (is_some (checkpoint_file d)) or "audit checkpoint already exists" ;;
  run! create_log ;;
  append_locked_with_checkpoint_mode e true.

Definition resume_generation_initialization (expected : AuditEvent) : io AuditCheckpoint :=
  let! content := open_log in
  let! v := io_lift (verify_log content) in
  if v_sequence v =? 0 then
    must! negb (is_some (first_event v)) && bool_decide (pending_intents v = ∅)
      or "empty generation audit log has unexpected verification state" ;;
    append_locked_with_checkpoint_mode expected true
  else
    must! (v_sequence v =? 1) && bool_decide (pending_intents v = ∅)
      or "incomplete generation audit log is not an exact single transition" ;;
    let! actual := io_lift (ok_or (first_event v)
                              "incomplete generation audit log has no transition") in
    run! io_lift (ensure_generation_event_matches actual expected) ;;
    let! c := io_lift (make_checkpoint (v_sequence v) (v_record_hash v)) in
    run! persist_checkpoint_create_new c ;;
    io_ret c.

Definition verify_single_generation_event (expected : AuditEvent) : io AuditCheckpoint :=
  let! content := open_log in
  let! v := io_lift (verify_log content) in
  must! (v_sequence v =? 1) && bool_decide (pending_intents v = ∅)
    or "pre-existing generation audit ledger is not an exact transition" ;;
  let! c := verify_checkpoint_against_log v false in
  let! actual := io_lift (ok_or (first_event v)
                            "generation audit ledger has no transition") in
  run! io_lift (ensure_generation_event_matches actual expected) ;;
  io_ret c.

Definition initialize_generation (predecessor : option AuditCheckpoint)
    (old_name new_name : str) (at_ms : Z) : io AuditCheckpoint :=
  must! 0 <? at_ms or "audit initialization timestamp must be non-zero" ;;
  run! io_lift (validate_transition_name old_name "old profile name") ;;
  run! io_lift (validate_transition_name new_name "new profile name") ;;
  let! e := io_lift (generation_transition_event predecessor old_name new_name at_ms) in
  let! d := get_disk in
  match is_some (log_file d), is_some (checkpoint_file d) with
  | false, false => initialize_create_new e
  | true, true => verify_single_generation_event e
  | true, false => resume_generation_initialization e
  | false, true =>
      io_lift (Err "audit generation checkpoint exists without its authenticated log")
  end.

End with_ledger.
End ledger.
