(* ===== verification/LedgerTheory.v ===== *)
(** * The audit ledger: what its operations guarantee

    The abstract state of a ledger is the list of events in its log.
    [verify_log] is shown to compute a function of those events, and every
    operation is then described by what it does to them: append extends the
    list by one, a crash leaves the list before or after, an anchor pins a
    prefix, resolution closes every pending intent. *)

From stdpp Require Import countable gmap sorting.
From S2P Require Import Prelude.
From S2P Require Import Bytes.
From S2P Require Import Text.
From S2P Require Import Crates.
From S2P Require Import Ledger.
#[local] Open Scope string_scope.
#[local] Open Scope list_scope.
#[local] Open Scope Z_scope.

Notation newline := ("010"%byte : byte).

#[local] Opaque RECORD_DOMAIN RECORD_MAC_DOMAIN CHECKPOINT_DOMAIN GENERATION_TRANSITION_DOMAIN
  RESOLVE_UNKNOWN_RESULT_DOMAIN.

(** ** The monad *)

Lemma io_bind_ok {A B} (p : io A) (k : A -> io B) w w' b :
  io_bind p k w = (w', Ok b) <->
  exists w1 a, p w = (w1, Ok a) /\ k a w1 = (w', Ok b).
Proof. unfold io_bind. destruct (p w) as [w1 [a|e]]; naive_solver. Qed.

Lemma io_lift_ok {A} (r : result string A) w w' a :
  io_lift r w = (w', Ok a) <-> w' = w /\ r = Ok a.
Proof. unfold io_lift. naive_solver. Qed.

Lemma io_ret_ok {A} (a b : A) w w' : io_ret a w = (w', Ok b) <-> w' = w /\ b = a.
Proof. unfold io_ret. naive_solver. Qed.

Lemma get_disk_ok w w' d : get_disk w = (w', Ok d) <-> w' = w /\ d = disk w.
Proof. unfold get_disk. naive_solver. Qed.

Lemma io_bind_lift {A B} (r : result string A) (k : A -> io B) w :
  io_bind (io_lift r) k w = match r with Ok a => k a w | Err e => (w, Err e) end.
Proof. by destruct r. Qed.

(** Take apart a successful run. *)
Ltac inv_io :=
  repeat match goal with
  | H : io_bind _ _ _ = (_, Ok _) |- _ =>
      let w := fresh "w" in let a := fresh "a" in let Ha := fresh "Hrun" in
      apply io_bind_ok in H as (w & a & Ha & H)
  | H : io_lift _ _ = (_, Ok _) |- _ => apply io_lift_ok in H as [? H]; subst
  | H : io_ret _ _ = (_, Ok _) |- _ => apply io_ret_ok in H as [? H]; subst
  | H : get_disk _ = (_, Ok _) |- _ => apply get_disk_ok in H as [? H]; subst
  end.

(** Follow a computation whose steps are known to succeed. *)
Ltac replay :=
  subst;
  repeat match goal with
  | H : ?o = Some _ |- context [ok_or ?o _] => rewrite H; cbn [ok_or rbind]
  | H : ?r = Ok _ |- context [rbind ?r _] => rewrite H; cbn [rbind]
  | |- context [ok_or (Some _) _] => cbn [ok_or rbind]
  end;
  try done.

(** ** Lines *)

Lemma split_inclusive_app acc s t :
  newline ∉ acc -> Forall (fun p => ends_with [newline] p = true) (split_inclusive acc s) ->
  split_inclusive acc (s ++ t) = split_inclusive acc s ++ split_inclusive [] t.
Proof.
  revert acc; induction s as [|b s IH]; intros acc Hacc Hall; simpl in *.
  - destruct acc as [|x acc]; [done|]. simpl in Hall.
    apply Forall_singleton, ends_with_true in Hall as (r & E).
    exfalso. apply Hacc. rewrite E. set_solver.
  - case_bool_decide as Hb.
    + apply Forall_cons in Hall as [_ Hall]. simpl. f_equal.
      apply IH; [set_solver|done].
    + apply IH; [|done]. set_solver.
Qed.

Lemma split_inclusive_line acc l :
  newline ∉ l -> split_inclusive acc (l ++ [newline]) = [acc ++ l ++ [newline]].
Proof.
  revert acc; induction l as [|b l IH]; intros acc Hl; simpl; [done|].
  rewrite bool_decide_false by set_solver. rewrite IH by set_solver.
  by rewrite <-!(assoc_L (++)).
Qed.

(** A line that was cut short has no newline. *)
Lemma split_inclusive_partial acc l :
  newline ∉ l -> acc ++ l <> [] -> split_inclusive acc l = [acc ++ l].
Proof.
  revert acc; induction l as [|b l IH]; intros acc Hl Hne; simpl.
  - rewrite app_nil_r in *. by destruct acc.
  - rewrite bool_decide_false by set_solver.
    rewrite IH by (set_solver || by destruct acc). by rewrite <-(assoc_L (++)).
Qed.

Lemma split_inclusive_concat acc s : concat (split_inclusive acc s) = acc ++ s.
Proof.
  revert acc; induction s as [|b s IH]; intros acc; simpl.
  - destruct acc; simpl; [done|]. by rewrite !app_nil_r.
  - case_bool_decide; simpl; rewrite IH; by rewrite <-?(assoc_L (++)).
Qed.

(** What [serde_json] does with a checkpoint: every struct of ASCII strings
    and machine integers is serialized, a string byte takes at most six bytes
    (an escape), and the field names, the punctuation and the integers fit in
    256 bytes.  The empty file is no checkpoint. *)
Class CheckpointJsonLaws `{!JsonSer UnsignedCheckpoint, !Json AuditCheckpoint} : Prop := {
  unsigned_json_total u :
    is_u16 (un_schema_version u) -> is_u64 (un_generation u) -> is_u64 (un_sequence u) ->
    is_ascii (un_profile_id u) = true -> is_ascii (un_record_hash u) = true ->
    exists bs, json_bytes u = Some bs;
  checkpoint_json_total c :
    is_u16 (cp_schema_version c) -> is_u64 (cp_generation c) -> is_u64 (cp_sequence c) ->
    is_ascii (cp_profile_id c) = true -> is_ascii (cp_record_hash c) = true ->
    is_ascii (cp_mac c) = true ->
    exists bs, to_vec c = Some bs /\
      zlen bs <= 256 + 6 * (zlen (cp_profile_id c) + zlen (cp_record_hash c) + zlen (cp_mac c));
  checkpoint_json_empty : from_slice (A := AuditCheckpoint) [] = None;
}.

(** The fields of a ledger have the widths of the Rust struct. *)
Definition ledger_ok (L : AuditLedger) : Prop :=
  length (profile_id L) = 16%nat /\ 0 < profile_generation L <= U64_MAX.

Section theory.
Context `{!Sha2, !Sha2Laws, !HmacSha2, !HmacSha2Laws, !Hex, !HexLaws,
          !Json AuditEvent, !JsonLaws AuditEvent,
          !Json AuditRecord, !JsonLaws AuditRecord, !JsonLineLaws AuditRecord,
          !Json AuditCheckpoint, !JsonLaws AuditCheckpoint,
          !JsonSer UnsignedCheckpoint, !JsonSer MacInput}.
Context (L : AuditLedger).

(** ** The events of a log *)

Definition record_of_line (raw_line : bytes) : option AuditRecord :=
  from_slice (take (length raw_line - 1) raw_line).

Definition log_events (content : bytes) : list AuditEvent :=
  omap (fun l => rec_event <$> record_of_line l) (split_inclusive [] content).

(** The verifier's state after one more event, without the encoding. *)
Definition absorb (v : VerifiedLog) (e : AuditEvent) : result string VerifiedLog :=
  let* (seen, pending) := track_intents (seen_intents v) (pending_intents v) e in
  let* sequence := ok_or (checked_add U64_MAX (v_sequence v) 1) "audit sequence overflow" in
  let* hash := calculate_record_hash sequence (v_record_hash v) e in
  Ok {| v_sequence := sequence; v_record_hash := hash; v_hashes := v_hashes v ++ [hash];
        seen_intents := seen; pending_intents := pending;
        first_event := match first_event v with None => Some e | Some e0 => Some e0 end |}.

Definition absorb_all (evs : list AuditEvent) : result string VerifiedLog :=
  for_each absorb empty_log evs.

(** An event [append] accepts for this ledger. *)
Definition admissible (e : AuditEvent) : Prop :=
  event_validate e = Ok tt /\
  same_identity L (event_profile_id e) (event_generation e) = true.

Lemma verify_line_ok v raw v' :
  verify_line L v raw = Ok v' ->
  ends_with [newline] raw = true /\
  exists r, record_of_line raw = Some r /\ admissible (rec_event r) /\
    absorb v (rec_event r) = Ok v'.
Proof.
  unfold verify_line. intros Hv. checks. split; [done|].
  eexists; split; [done|].
  match goal with p : (_ * _)%type |- _ => destruct p as [seen pending] end. checks.
  split; [done|]. unfold absorb. replay.
Qed.

Lemma verify_lines_ok v ls v' :
  for_each (verify_line L) v ls = Ok v' ->
  Forall (fun p => ends_with [newline] p = true) ls /\
  let evs := omap (fun l => rec_event <$> record_of_line l) ls in
  Forall admissible evs /\ for_each absorb v evs = Ok v' /\ length evs = length ls.
Proof.
  revert v; induction ls as [|l ls IH]; intros v; simpl; [by intros [= ->]|].
  intros (v1 & Hl & Hls)%rbind_ok. apply verify_line_ok in Hl as (He & r & Hr & Ha & Hab).
  destruct (IH _ Hls) as (Hends & Hadm & Habs & Hlen). split; [by constructor|].
  rewrite Hr. simpl. split; [by constructor|]. rewrite Hab. simpl. split; [done|]. simpl. by f_equal.
Qed.

Lemma verify_log_ok content v :
  verify_log L content = Ok v ->
  zlen content <= MAX_AUDIT_LOG_BYTES /\
  Forall (fun p => ends_with [newline] p = true) (split_inclusive [] content) /\
  Forall admissible (log_events content) /\
  absorb_all (log_events content) = Ok v.
Proof.
  unfold verify_log, read_bounded_file. intros Hv. checks.
  apply verify_lines_ok in Hv as (Hends & Hadm & Habs & _). done.
Qed.

(** What the verifier's state says about the events. *)
Lemma absorb_all_snoc evs e :
  absorb_all (evs ++ [e]) = let* v := absorb_all evs in absorb v e.
Proof.
  unfold absorb_all. rewrite for_each_app. destruct (for_each _ _ evs); simpl; [|done].
  by destruct (absorb _ e).
Qed.

Lemma absorb_ok v e v' :
  absorb v e = Ok v' ->
  v_sequence v' = v_sequence v + 1 /\ v_sequence v' <= U64_MAX /\
  calculate_record_hash (v_sequence v') (v_record_hash v) e = Ok (v_record_hash v') /\
  v_hashes v' = v_hashes v ++ [v_record_hash v'] /\
  track_intents (seen_intents v) (pending_intents v) e =
    Ok (seen_intents v', pending_intents v') /\
  first_event v' = match first_event v with None => Some e | Some e0 => Some e0 end.
Proof.
  unfold absorb. intros (p & Ht & Hv)%rbind_ok. destruct p as [seen pending]. checks.
  match goal with H : checked_add _ _ _ = Some _ |- _ =>
    apply checked_add_some in H as [-> Hle] end.
  simpl. done.
Qed.

Record describes (v : VerifiedLog) (evs : list AuditEvent) : Prop := {
  d_sequence : v_sequence v = zlen evs;
  d_bound : zlen evs <= U64_MAX;
  d_hashes : length (v_hashes v) = length evs;
  d_head : v_record_hash v = default ZERO_HASH (last (v_hashes v));
  d_head_length : length (v_record_hash v) = 32%nat;
  d_first : first_event v = head evs;
}.

Lemma calculate_record_hash_length s p e h :
  calculate_record_hash s p e = Ok h -> length h = 32%nat.
Proof. unfold calculate_record_hash. intros Hh. checks. apply sha256_length. Qed.

Lemma absorb_all_describes evs v : absorb_all evs = Ok v -> describes v evs.
Proof.
  revert v; induction evs as [|e evs IH] using rev_ind; intros v.
  { intros [= <-]. split; simpl; done. }
  rewrite absorb_all_snoc. intros (v0 & Hv0 & Ha)%rbind_ok.
  destruct (IH _ Hv0) as [Hs Hb Hh Hd Hl Hf].
  apply absorb_ok in Ha as (Es & Hle & Ec & Eh & _ & Ef). split.
  - rewrite zlen_app, zlen_cons, zlen_nil. lia.
  - rewrite zlen_app, zlen_cons, zlen_nil. lia.
  - rewrite Eh, !length_app. simpl. lia.
  - by rewrite Eh, last_snoc.
  - by apply calculate_record_hash_length in Ec.
  - rewrite Ef, Hf. by destruct evs.
Qed.

(** ** The operations as functions of the files *)

Definition parse_checkpoint (f : option bytes) : result string (option AuditCheckpoint) :=
  match f with
  | None => Ok None
  | Some content =>
      let* encoded := read_bounded_file content MAX_AUDIT_RECORD_BYTES "audit checkpoint" in
      let* c := ok_or (from_slice encoded) "parse audit checkpoint" in
      Ok (Some c)
  end.

Definition check_checkpoint (v : VerifiedLog) (allow_lagging : bool) (f : option bytes)
  : result string AuditCheckpoint :=
  let* c := parse_checkpoint f in
  let* c := ok_or c "audit checkpoint is missing" in
  try! verify_checkpoint_mac L c ;;
  try! contains_head v c "audit checkpoint is ahead of the log"
         "audit checkpoint diverges from the log" ;;
  ensure! allow_lagging
          || ((cp_sequence c =? v_sequence v)
              && bool_decide (cp_record_hash c = hex_encode (v_record_hash v)))
    or "audit checkpoint lags behind the log; reconcile before use" ;;
  Ok c.

Lemma read_checkpoint_run w :
  read_checkpoint w = (w, parse_checkpoint (checkpoint_file (disk w))).
Proof.
  unfold read_checkpoint, io_bind, get_disk, parse_checkpoint.
  destruct (checkpoint_file (disk w)) as [f|]; [|done]. unfold io_lift.
  destruct (read_bounded_file _ _ _) as [b|]; [|done]. simpl.
  by destruct (from_slice b).
Qed.

Lemma check_checkpoint_run v lag w :
  verify_checkpoint_against_log L v lag w = (w, check_checkpoint v lag (checkpoint_file (disk w))).
Proof.
  unfold verify_checkpoint_against_log, check_checkpoint. unfold io_bind at 1.
  rewrite read_checkpoint_run. destruct (parse_checkpoint _) as [c|]; [|done]. simpl.
  rewrite io_bind_lift. destruct (ok_or c _) as [c'|]; [|done]. simpl.
  rewrite io_bind_lift. destruct (verify_checkpoint_mac _ _) as [|]; [|done]. simpl.
  rewrite io_bind_lift. destruct (contains_head _ _ _ _) as [|]; [|done]. simpl.
  rewrite io_bind_lift. by destruct (ensure _ _).
Qed.

Lemma open_log_run w :
  open_log w = (w, ok_or (log_file (disk w)) "authenticated audit log is missing").
Proof. done. Qed.

(** The record [append] writes after [v], and its line without the newline. *)
Definition new_record (v : VerifiedLog) (e : AuditEvent) (sequence : Z) (hash : bytes)
    (tag : str) : AuditRecord :=
  {| rec_schema_version := AUDIT_SCHEMA_VERSION; rec_sequence := sequence;
     previous_hash := hex_encode (v_record_hash v); rec_event := e;
     rec_hash := hex_encode hash; record_mac_field := tag |}.

Definition phase_check (v : VerifiedLog) (e : AuditEvent) : result string unit :=
  match phase e with
  | Intent =>
      ensure (negb (bool_decide (request_id e ∈ seen_intents v)))
        "audit Intent request id was already used"
  | Outcome =>
      let* b := ok_or (pending_intents v !! request_id e)
        "audit Outcome does not match a pending Intent" in
      ensure_matches_outcome b e
  | Administrative => Ok tt
  end.

(** The checks that precede the first write. *)
Definition mode_check (v : VerifiedLog) (create_new : bool) (f : option bytes)
  : result string unit :=
  if create_new then
    ensure! (v_sequence v =? 0) && negb (is_some (first_event v))
            && bool_decide (pending_intents v = ∅)
      or "new audit generation is not empty" ;;
    let* prior := parse_checkpoint f in
    ensure! negb (is_some prior) or "new audit generation checkpoint already exists" ;;
    Ok tt
  else
    let* _ := check_checkpoint v true f in Ok tt.

Definition plan_record (v : VerifiedLog) (e : AuditEvent) (used : Z)
  : result string (bytes * Z * bytes) :=
  try! phase_check v e ;;
  let* sequence := ok_or (checked_add U64_MAX (v_sequence v) 1) "audit sequence overflow" in
  let* hash := calculate_record_hash sequence (v_record_hash v) e in
  let* tag := record_mac L (new_record v e sequence hash []) in
  let* encoded := ok_or (to_vec (new_record v e sequence hash tag))
                    "serialize audit record" in
  ensure! zlen encoded <=? MAX_AUDIT_RECORD_BYTES or "audit record exceeds its size limit" ;;
  ensure! saturating_add U64_MAX used (zlen (encoded ++ [newline])) <=? MAX_AUDIT_LOG_BYTES
    or "audit log reached its configured size limit" ;;
  Ok (encoded, sequence, hash).

Definition plan (create_new : bool) (e : AuditEvent) (d : Disk)
  : result string (bytes * bytes * Z * bytes) :=
  let* content := ok_or (log_file d) "authenticated audit log is missing" in
  let* v := verify_log L content in
  try! mode_check v create_new (checkpoint_file d) ;;
  let* (encoded, sequence, hash) := plan_record v e (zlen content) in
  Ok (content, encoded, sequence, hash).

(** The writes. *)
Definition commit (create_new : bool) (encoded : bytes) (sequence : Z) (hash : bytes)
  : io AuditCheckpoint :=
  run! append_log (encoded ++ [newline]) ;;
  let! c := io_lift (make_checkpoint L sequence hash) in
  run! (if create_new then persist_checkpoint_create_new c else persist_checkpoint c) ;;
  io_ret c.

Lemma mode_check_run v (create_new : bool) w :
  (if create_new then
     must! (v_sequence v =? 0) && negb (is_some (first_event v))
           && bool_decide (pending_intents v = ∅)
       or "new audit generation is not empty" ;;
     let! prior := read_checkpoint in
     must! negb (is_some prior) or "new audit generation checkpoint already exists" ;;
     io_ret tt
   else
     run! verify_checkpoint_against_log L v true ;;
     io_ret tt) w = (w, mode_check v create_new (checkpoint_file (disk w))).
Proof.
  destruct create_new; unfold mode_check.
  - rewrite io_bind_lift. destruct (ensure _ _); [|done]. unfold io_bind at 1.
    rewrite read_checkpoint_run. destruct (parse_checkpoint _) as [c|]; [|done].
    rewrite io_bind_lift. simpl. by destruct c.
  - unfold io_bind. rewrite check_checkpoint_run. by destruct (check_checkpoint _ _ _).
Qed.

Lemma append_locked_plan create_new e w :
  append_locked_with_checkpoint_mode L e create_new w =
  match plan create_new e (disk w) with
  | Ok (_, encoded, sequence, hash) => commit create_new encoded sequence hash w
  | Err s => (w, Err s)
  end.
Proof.
  unfold append_locked_with_checkpoint_mode, plan. unfold io_bind at 1.
  rewrite open_log_run. destruct (log_file (disk w)) as [content|] eqn:Hf; [|done].
  cbn [ok_or rbind]. rewrite io_bind_lift.
  destruct (verify_log L content) as [v|]; [|done]. cbn [rbind].
  unfold io_bind at 1. rewrite mode_check_run.
  destruct (mode_check _ _ _) as [[]|]; [|done]. cbn [rbind].
  unfold plan_record, phase_check. rewrite io_bind_lift.
  match goal with |- context [match ?r with Ok a => io_bind _ _ w | Err e => _ end] =>
    destruct r as [[]|] end; [|done]. cbn [rbind].
  rewrite io_bind_lift. destruct (ok_or _ "audit sequence overflow") as [sequence|]; [|done].
  cbn [rbind]. rewrite io_bind_lift.
  destruct (calculate_record_hash _ _ _) as [hash|]; [|done].
  cbn [rbind]. rewrite io_bind_lift. unfold new_record.
  destruct (record_mac _ _) as [tag|]; [|done].
  cbn [rbind]. rewrite io_bind_lift. destruct (to_vec _) as [encoded|]; [|done].
  cbn [rbind ok_or]. rewrite io_bind_lift. destruct (_ <=? _); [|done].
  cbn [rbind ensure]. rewrite io_bind_lift. by destruct (_ <=? _).
Qed.

(** ** What a planned record does to the log *)

Lemma phase_check_track v e :
  phase_check v e = Ok tt ->
  exists seen pending, track_intents (seen_intents v) (pending_intents v) e = Ok (seen, pending).
Proof.
  unfold phase_check, track_intents. destruct (phase e); intros Hp; [| |eauto].
  - apply ensure_ok in Hp. rewrite Hp. simpl. eauto.
  - apply rbind_ok in Hp as (b & Hb & Hm). rewrite Hb. simpl. rewrite Hm. simpl. eauto.
Qed.

Lemma record_mac_verifies r tag :
  record_mac L r = Ok tag -> record_mac_field r = tag -> verify_record_mac L r = Ok tt.
Proof.
  intros Ht Et. unfold verify_record_mac. rewrite Ht, Et. unfold record_mac in Ht. checks.
  rewrite !hex_decode_encode. cbn [ok_or rbind]. unfold zlen. rewrite hmac_length.
  rewrite ensure_pass by done. rewrite hex_decode_encode. cbn [ok_or rbind].
  by rewrite ensure_pass by by apply bool_decide_true.
Qed.

Lemma record_mac_field_irrelevant v e s h t t' :
  record_mac L (new_record v e s h t) = record_mac L (new_record v e s h t').
Proof. done. Qed.

Lemma line_body enc : take (length (enc ++ [newline]) - 1) (enc ++ [newline]) = enc.
Proof.
  rewrite length_app. simpl. replace (length enc + 1 - 1)%nat with (length enc) by lia.
  apply take_app_length.
Qed.

Lemma plan_record_ok v e used enc seq hash :
  admissible e -> 0 <= used -> plan_record v e used = Ok (enc, seq, hash) ->
  enc <> [] /\ newline ∉ enc /\ used + zlen (enc ++ [newline]) <= MAX_AUDIT_LOG_BYTES /\
  exists v' r, absorb v e = Ok v' /\ v_sequence v' = seq /\ v_record_hash v' = hash /\
    record_of_line (enc ++ [newline]) = Some r /\ rec_event r = e /\
    verify_line L v (enc ++ [newline]) = Ok v'.
Proof.
  intros [Hval Hid] Hused Hp. unfold plan_record in Hp. checks. simplify_eq.
  match goal with H : to_vec _ = Some _ |- _ => rename H into Henc end.
  match goal with H : phase_check _ _ = _ |- _ =>
    apply phase_check_track in H as (seen & pending & Htrack) end.
  match goal with H : saturating_add _ _ _ <= _ |- _ => rename H into Hfit end.
  match goal with H : record_mac _ _ = Ok ?t |- _ =>
    rewrite (record_mac_field_irrelevant _ _ _ _ _ t) in H; rename H into Hmac end.
  pose proof (to_vec_nonempty _ _ Henc) as Hne.
  split; [done|]. split; [by apply (to_vec_no_newline _ _ Henc)|].
  split. { unfold saturating_add, U64_MAX, MAX_AUDIT_LOG_BYTES in *. lia. }
  eexists _, _. split; [unfold absorb; replay|]. split; [done|]. split; [done|].
  split; [unfold record_of_line; rewrite line_body; by apply from_slice_to_vec|].
  split; [done|]. unfold verify_line. rewrite line_body.
  rewrite ensure_pass by (apply ends_with_true; by eexists).
  rewrite ensure_pass by (by apply negb_true_iff, is_empty_false).
  rewrite ensure_pass by (by apply Z.leb_le).
  rewrite (from_slice_to_vec _ _ Henc). cbn [ok_or rbind].
  rewrite ensure_pass by done.
  rewrite (rbind_pass (verify_record_mac _ _) _ _ (record_mac_verifies _ _ Hmac eq_refl)).
  cbn [new_record rec_event rec_sequence previous_hash rec_hash].
  rewrite (rbind_pass _ _ _ Hval), ensure_pass by done.
  rewrite (rbind_pass _ _ _ Htrack). replay.
  rewrite ensure_pass by apply Z.eqb_refl.
  rewrite ensure_pass by by apply bool_decide_true. replay.
  by rewrite ensure_pass by by apply bool_decide_true.
Qed.

Lemma verify_log_extend content v enc v' r :
  verify_log L content = Ok v -> verify_line L v (enc ++ [newline]) = Ok v' ->
  newline ∉ enc -> record_of_line (enc ++ [newline]) = Some r ->
  zlen content + zlen (enc ++ [newline]) <= MAX_AUDIT_LOG_BYTES ->
  verify_log L (content ++ enc ++ [newline]) = Ok v' /\
  log_events (content ++ enc ++ [newline]) = log_events content ++ [rec_event r].
Proof.
  intros Hc Hl Hn Hr Hb. pose proof (verify_log_ok _ _ Hc) as (_ & Hends & _ & _).
  assert (split_inclusive [] (content ++ enc ++ [newline]) =
          split_inclusive [] content ++ [enc ++ [newline]]) as Hsplit.
  { rewrite split_inclusive_app by (done || set_solver).
    by rewrite split_inclusive_line by done. }
  unfold verify_log, read_bounded_file, log_events in *. split.
  - rewrite ensure_pass by (rewrite zlen_app; lia). cbn [rbind]. inv_ok.
    rewrite Hsplit, for_each_app, Hc. cbn [rbind for_each]. by rewrite Hl.
  - rewrite Hsplit, omap_app. simpl. by rewrite Hr.
Qed.

Lemma plan_ok create_new e d content enc seq hash :
  admissible e -> plan create_new e d = Ok (content, enc, seq, hash) ->
  log_file d = Some content /\ enc <> [] /\ newline ∉ enc /\
  exists v v', verify_log L content = Ok v /\
    mode_check v create_new (checkpoint_file d) = Ok tt /\ absorb v e = Ok v' /\
    v_sequence v' = seq /\ v_record_hash v' = hash /\
    verify_log L (content ++ enc ++ [newline]) = Ok v' /\
    log_events (content ++ enc ++ [newline]) = log_events content ++ [e].
Proof.
  intros Hadm Hp. unfold plan in Hp.
  apply rbind_ok in Hp as (c & Hc & Hp). apply ok_or_ok in Hc.
  apply rbind_ok in Hp as (v & Hv & Hp). apply seq_ok in Hp as (Hm & Hp).
  apply rbind_ok in Hp as ([[enc' seq'] hash'] & Hr & [= <- <- <- <-]).
  apply plan_record_ok in Hr as (Hne & Hnl & Hfit & v' & r & Ha & Hs & Hh & Hrl & He & Hl);
    [|done|apply zlen_nonneg].
  destruct (verify_log_extend _ _ _ _ _ Hv Hl Hnl Hrl Hfit) as [Hx Hev].
  rewrite He in Hev. split; [done|]. split; [done|]. split; [done|].
  exists v, v'. done.
Qed.

(** ** Checkpoints *)

Lemma hex_is_ascii b : is_ascii (hex_encode b) = true.
Proof.
  apply forallb_Forall'. pose proof (hex_encode_lower b) as Hh.
  rewrite forallb_Forall' in Hh. eapply Forall_impl; [exact Hh|]. intros x. simpl.
  unfold is_lower_hex_byte. rewrite orb_true_iff, !in_range_true. lia.
Qed.

Lemma hex_text n b : length b = n -> is_hex_text (2 * Z.of_nat n) (hex_encode b) = true.
Proof.
  intros Hb. unfold is_hex_text, zlen. rewrite hex_encode_length, hex_encode_lower, Hb.
  rewrite andb_true_r. apply Z.eqb_eq. lia.
Qed.

Lemma make_checkpoint_ok s h c :
  make_checkpoint L s h = Ok c -> length h = 32%nat ->
  verify_checkpoint_mac L c = Ok tt /\ cp_sequence c = s /\ cp_record_hash c = hex_encode h /\
  cp_profile_id c = hex_encode (profile_id L) /\ cp_generation c = profile_generation L.
Proof.
  unfold make_checkpoint. intros (tag & Ht & [= <-])%rbind_ok Hh. simpl. split; [|done].
  unfold verify_checkpoint_mac. cbn [cp_schema_version cp_profile_id cp_generation
    cp_record_hash cp_mac]. rewrite ensure_pass by done. unfold same_identity.
  rewrite ensure_pass by by rewrite bool_decide_true, Z.eqb_refl by done.
  unfold validate_digest. rewrite ensure_pass by apply (hex_text 32 h Hh). cbn [rbind].
  unfold checkpoint_mac, unsigned in *. cbn [cp_schema_version cp_profile_id cp_generation
    cp_sequence cp_record_hash] in *. apply rbind_ok in Ht as (enc & Henc & [= <-]).
  apply ok_or_ok in Henc. rewrite hex_decode_encode. cbn [ok_or rbind].
  rewrite ensure_pass by (unfold zlen; by rewrite hmac_length).
  rewrite Henc. cbn [ok_or rbind]. rewrite hex_decode_encode. cbn [ok_or rbind].
  by rewrite ensure_pass by by apply bool_decide_true.
Qed.

Lemma make_checkpoint_total `{!CheckpointJsonLaws} s h :
  ledger_ok L -> is_u64 s -> length h = 32%nat ->
  exists c bs, make_checkpoint L s h = Ok c /\ to_vec c = Some bs /\
    zlen bs <= MAX_AUDIT_RECORD_BYTES.
Proof.
  intros [Hpid Hgen] Hs Hh. unfold make_checkpoint, checkpoint_mac.
  match goal with |- context [json_bytes ?u] => destruct (unsigned_json_total u) as [enc Henc] end;
    [done|unfold is_u64; simpl; lia|done|apply hex_is_ascii|apply hex_is_ascii|].
  rewrite Henc. cbn [ok_or rbind].
  match goal with |- context [Ok ?x = Ok _] => destruct (checkpoint_json_total x) as (bs & Hbs & Hl) end;
    [done|unfold is_u64; simpl; lia|done|apply hex_is_ascii..|].
  eexists _, bs. split; [done|]. split; [done|]. revert Hl.
  cbn [cp_profile_id cp_record_hash cp_mac]. unfold zlen.
  rewrite !hex_encode_length, hmac_length, Hpid, Hh. unfold MAX_AUDIT_RECORD_BYTES. lia.
Qed.

Lemma parse_written c bs :
  to_vec c = Some bs -> zlen bs <= MAX_AUDIT_RECORD_BYTES ->
  parse_checkpoint (Some bs) = Ok (Some c).
Proof.
  intros Hc Hl. unfold parse_checkpoint, read_bounded_file.
  rewrite ensure_pass by by apply Z.leb_le. cbn [rbind]. by rewrite (from_slice_to_vec _ _ Hc).
Qed.

Lemma hash_at_head v evs : describes v evs -> hash_at v (v_sequence v) = Ok (v_record_hash v).
Proof.
  intros [Hs _ Hh Hd _ _]. unfold hash_at. rewrite Hd, Hs.
  destruct (Z.eqb_spec (zlen evs) 0) as [E|E].
  - apply zlen_zero in E as ->. by apply nil_length_inv in Hh as ->.
  - rewrite last_lookup. unfold zlen in *.
    replace (Z.to_nat (Z.of_nat (length evs) - 1)) with (pred (length (v_hashes v))) by lia.
    destruct (lookup_lt_is_Some_2 (v_hashes v) (pred (length (v_hashes v)))) as [x ->];
      [lia|done].
Qed.

Lemma contains_own_head v evs c s1 s2 :
  describes v evs -> cp_sequence c = v_sequence v ->
  cp_record_hash c = hex_encode (v_record_hash v) -> contains_head v c s1 s2 = Ok tt.
Proof.
  intros Hd Hs Hh. unfold contains_head. rewrite Hs, ensure_pass by apply Z.leb_refl.
  rewrite (hash_at_head _ _ Hd). cbn [rbind]. by rewrite ensure_pass by by apply bool_decide_true.
Qed.

(** A head the log contains stays in every extension of the log. *)
Lemma contains_head_extends v evs e v' c s1 s2 s1' s2' :
  describes v evs -> absorb v e = Ok v' ->
  contains_head v c s1 s2 = Ok tt -> contains_head v' c s1' s2' = Ok tt.
Proof.
  intros [Hs _ Hh _ _ _] Ha Hc. apply absorb_ok in Ha as (Es & _ & _ & Eh & _ & _).
  unfold contains_head, hash_at in *. checks. rewrite Eh.
  rewrite ensure_pass by (apply Z.leb_le; lia).
  destruct (cp_sequence c =? 0); checks; cbn [rbind].
  - simplify_eq. by rewrite ensure_pass by by apply bool_decide_true.
  - rewrite lookup_app_l by (by eapply lookup_lt_Some). replay.
    by rewrite ensure_pass by by apply bool_decide_true.
Qed.

Lemma check_own_checkpoint v evs c bs lag :
  describes v evs -> make_checkpoint L (v_sequence v) (v_record_hash v) = Ok c ->
  to_vec c = Some bs -> zlen bs <= MAX_AUDIT_RECORD_BYTES ->
  check_checkpoint v lag (Some bs) = Ok c.
Proof.
  intros Hd Hm Hb Hl. pose proof Hd as [_ _ _ _ Hlen _].
  apply make_checkpoint_ok in Hm as (Hmac & Hs & Hh & _); [|done].
  unfold check_checkpoint. rewrite (parse_written _ _ Hb Hl). cbn [ok_or rbind].
  rewrite Hmac. cbn [rbind]. rewrite (contains_own_head _ _ _ _ _ Hd Hs Hh). cbn [rbind].
  rewrite ensure_pass; [done|]. rewrite Hs, Hh, Z.eqb_refl, bool_decide_true by done.
  apply orb_true_r.
Qed.

(** ** Runs *)

(** The durable states between the first and the last write of a commit. *)
Definition between (create_new : bool) (log : bytes) (d : Disk) : list Disk :=
  if create_new then
    [ {| log_file := Some log; checkpoint_file := Some [] |};
      {| log_file := Some log; checkpoint_file := checkpoint_file d |} ]
  else [ {| log_file := Some log; checkpoint_file := checkpoint_file d |} ].

Lemma commit_run create_new enc s h w content c bs :
  log_file (disk w) = Some content ->
  (create_new = true -> checkpoint_file (disk w) = None) ->
  make_checkpoint L s h = Ok c -> to_vec c = Some bs ->
  commit create_new enc s h w =
    let log := content ++ enc ++ [newline] in
    ({| disk := {| log_file := Some log; checkpoint_file := Some bs |};
        history := between create_new log (disk w) ++ disk w :: history w |}, Ok c).
Proof.
  intros Hf Hn Hm Hb. unfold commit, append_log.
  unfold io_bind at 1, io_bind at 1. cbn [get_disk]. unfold io_bind at 1. cbn [io_lift].
  rewrite Hf. cbn [ok_or put_disk]. unfold io_bind at 1, io_lift. rewrite Hm.
  unfold io_bind at 1. destruct create_new.
  - unfold persist_checkpoint_create_new, create_checkpoint.
    unfold io_bind at 1, io_lift. rewrite Hb. cbn [ok_or].
    unfold io_bind, get_disk, put_disk, write_checkpoint, io_lift. cbn. by rewrite Hn.
  - unfold persist_checkpoint, io_bind, io_lift. rewrite Hb. done.
Qed.

Lemma world_eta w : {| disk := disk w; history := history w |} = w.
Proof. by destruct w. Qed.

Lemma mode_check_create v f : mode_check v true f = Ok tt -> f = None.
Proof.
  unfold mode_check. intros Hm. checks. destruct f as [f|]; [|done].
  unfold parse_checkpoint in *. checks. done.
Qed.

Lemma check_lagging v f c : check_checkpoint v false f = Ok c -> check_checkpoint v true f = Ok c.
Proof. unfold check_checkpoint. intros Hc. checks. by replay. Qed.

Lemma check_extends v evs e v' f c :
  describes v evs -> absorb v e = Ok v' ->
  check_checkpoint v true f = Ok c -> check_checkpoint v' true f = Ok c.
Proof.
  intros Hd Ha. unfold check_checkpoint. intros Hc. checks.
  match goal with H : contains_head _ _ ?s1 ?s2 = Ok tt |- _ =>
    apply (contains_head_extends _ _ _ _ _ _ _ s1 s2 Hd Ha) in H end.
  by replay.
Qed.

(** One locked append: no effect, or one more event, in a known order of writes. *)
Lemma append_locked_cases `{!CheckpointJsonLaws} create_new e w :
  ledger_ok L -> admissible e ->
  (exists s, append_locked_with_checkpoint_mode L e create_new w = (w, Err s)) \/
  exists content enc v v' c bs,
    let log := content ++ enc ++ [newline] in
    log_file (disk w) = Some content /\ enc <> [] /\ newline ∉ enc /\
    verify_log L content = Ok v /\
    mode_check v create_new (checkpoint_file (disk w)) = Ok tt /\
    absorb v e = Ok v' /\ verify_log L log = Ok v' /\
    log_events log = log_events content ++ [e] /\
    make_checkpoint L (v_sequence v') (v_record_hash v') = Ok c /\
    to_vec c = Some bs /\ zlen bs <= MAX_AUDIT_RECORD_BYTES /\
    forall h, append_locked_with_checkpoint_mode L e create_new {| disk := disk w; history := h |} =
      ({| disk := {| log_file := Some log; checkpoint_file := Some bs |};
          history := between create_new log (disk w) ++ disk w :: h |}, Ok c).
Proof.
  intros HL Hadm. rewrite (append_locked_plan _ _ w).
  destruct (plan create_new e (disk w)) as [[[[content enc] s] h]|err] eqn:Hp; [right|by eauto].
  destruct (plan_ok _ _ _ _ _ _ _ Hadm Hp)
    as (Hf & Hne & Hnl & v & v' & Hv & Hm & Ha & <- & <- & Hx & Hev).
  apply verify_log_ok in Hx as Hd. destruct Hd as (_ & _ & _ & Hd%absorb_all_describes).
  destruct Hd as [Es Eb _ _ El _].
  destruct (make_checkpoint_total (v_sequence v') (v_record_hash v')) as (c & bs & Hc & Hb & Hl);
    [done|unfold is_u64; rewrite Es; pose proof (zlen_nonneg (log_events (content ++ enc ++ [newline]))); lia|done|].
  exists content, enc, v, v', c, bs. repeat (split; [done|]).
  intros h. rewrite append_locked_plan. cbn [disk]. rewrite Hp.
  apply (commit_run create_new enc _ _ {| disk := disk w; history := h |}); [done| |done..].
  intros ->. by eapply mode_check_create.
Qed.

(** ** Recovery *)

(** The log verifies and contains the head its checkpoint authenticates. *)
Definition recoverable (d : Disk) : Prop :=
  exists content v c, log_file d = Some content /\ verify_log L content = Ok v /\
    check_checkpoint v true (checkpoint_file d) = Ok c.

(** [d'] is recoverable and its log continues the log of [d]. *)
Definition continues (d d' : Disk) : Prop :=
  recoverable d' /\
  exists log ext, log_file d = Some log /\ log_file d' = Some (log ++ ext).

Lemma continues_refl d : recoverable d -> continues d d.
Proof.
  intros Hr. split; [done|]. destruct Hr as (content & v & c & Hf & _).
  exists content, []. by rewrite app_nil_r.
Qed.

Lemma continues_trans d1 d2 d3 : continues d1 d2 -> continues d2 d3 -> continues d1 d3.
Proof.
  intros [_ (l1 & x1 & E1 & E2)] [Hr (l2 & x2 & E3 & E4)]. split; [done|].
  simplify_eq. exists l1, (x1 ++ x2). by rewrite (assoc_L (++)).
Qed.

(** Every durable state of a run continues the state it started from. *)
Definition safe_run (w w' : World) : Prop :=
  exists hs, history w' = hs ++ history w /\ Forall (continues (disk w)) (disk w' :: hs).

Lemma safe_run_refl w : recoverable (disk w) -> safe_run w w.
Proof. intros Hr. exists []. split; [done|]. constructor; [by apply continues_refl|done]. Qed.

Lemma safe_run_trans w1 w2 w3 : safe_run w1 w2 -> safe_run w2 w3 -> safe_run w1 w3.
Proof.
  intros (h1 & E1 & F1) (h2 & E2 & F2). exists (h2 ++ h1). split.
  - by rewrite E2, E1, (assoc_L (++)).
  - apply Forall_cons in F1 as [C1 F1]. rewrite app_comm_cons. apply Forall_app. split; [|done].
    eapply Forall_impl; [exact F2|]. intros d. by apply continues_trans.
Qed.

Lemma append_locked_safe `{!CheckpointJsonLaws} e w w' r :
  ledger_ok L -> admissible e -> recoverable (disk w) ->
  append_locked L e w = (w', r) -> safe_run w w'.
Proof.
  intros HL Hadm Hrec Hrun. unfold append_locked in Hrun.
  destruct (append_locked_cases false e w HL Hadm)
    as [[s E]|(content & enc & v & v' & c & bs & Hf & _ & _ & Hv & Hm & Ha & Hx & _ & Hc & Hb & Hl & E)];
    [|specialize (E (history w)); rewrite world_eta in E]; rewrite E in Hrun; simplify_eq; [by apply safe_run_refl|].
  apply verify_log_ok in Hv as Hd. destruct Hd as (_ & _ & _ & Hd%absorb_all_describes).
  apply verify_log_ok in Hx as Hd'. destruct Hd' as (_ & _ & _ & Hd'%absorb_all_describes).
  unfold mode_check in Hm. apply rbind_ok in Hm as (c0 & Hc0 & _).
  eexists [_; _]. split; [done|]. repeat constructor; simpl.
  - exists (content ++ enc ++ [newline]), v', c. split; [done|]. split; [done|].
    by eapply check_own_checkpoint.
  - by exists content, (enc ++ [newline]).
  - exists (content ++ enc ++ [newline]), v', c0. split; [done|]. split; [done|].
    exact (check_extends _ _ _ _ _ _ Hd Ha Hc0).
  - by exists content, (enc ++ [newline]).
  - done.
  - by exists content, []; rewrite app_nil_r.
Qed.

Lemma append_cases e w :
  (exists s, append L e w = (w, Err s)) \/
  admissible e /\ append L e w = append_locked L e w.
Proof.
  unfold append. rewrite io_bind_lift.
  destruct (event_validate e) as [[]|s] eqn:Hv; [|by eauto].
  rewrite io_bind_lift. unfold admissible.
  destruct (same_identity _ _ _) eqn:Hi; cbn [ensure]; [|by eauto].
  unfold io_bind. rewrite open_log_run.
  destruct (log_file (disk w)); cbn [ok_or]; [|by eauto]. by right.
Qed.

Definition inspect_disk (anchor : option AuditCheckpoint) (require_complete : bool) (d : Disk)
  : result string AuditInspection :=
  let* content := ok_or (log_file d) "authenticated audit log is missing" in
  let* v := verify_log L content in
  ensure! negb require_complete || bool_decide (pending_intents v = ∅)
    or "audit ledger contains an Intent without a terminal Outcome" ;;
  let* c := check_checkpoint v false (checkpoint_file d) in
  try! verify_external_anchor L v c anchor ;;
  Ok {| inspection_pending := Z.of_nat (size (pending_intents v));
        inspection_checkpoint := c |}.

Lemma verify_internal_run anchor complete w :
  verify_internal L anchor complete w = (w, inspect_disk anchor complete (disk w)).
Proof.
  unfold verify_internal, inspect_disk. unfold io_bind at 1. rewrite open_log_run.
  destruct (log_file (disk w)) as [content|]; [|done]. cbn [ok_or rbind].
  rewrite io_bind_lift. destruct (verify_log L content) as [v|]; [|done]. cbn [rbind].
  rewrite io_bind_lift. destruct (ensure _ _); [|done]. cbn [rbind].
  unfold io_bind at 1. rewrite check_checkpoint_run.
  destruct (check_checkpoint _ _ _) as [c|]; [|done]. cbn [rbind].
  rewrite io_bind_lift. by destruct (verify_external_anchor _ _ _ _).
Qed.

Lemma verify_run anchor w :
  verify L anchor w =
  (w, let* i := inspect_disk anchor false (disk w) in Ok (inspection_checkpoint i)).
Proof.
  unfold verify, io_bind. rewrite verify_internal_run. by destruct (inspect_disk _ _ _).
Qed.

Lemma verify_complete_run anchor w :
  verify_complete L anchor w =
  (w, let* i := inspect_disk anchor true (disk w) in Ok (inspection_checkpoint i)).
Proof.
  unfold verify_complete, io_bind. rewrite verify_internal_run. by destruct (inspect_disk _ _ _).
Qed.

Lemma inspect_disk_ok anchor complete d i :
  inspect_disk anchor complete d = Ok i <->
  exists content v, log_file d = Some content /\ verify_log L content = Ok v /\
    (complete = true -> pending_intents v = ∅) /\
    check_checkpoint v false (checkpoint_file d) = Ok (inspection_checkpoint i) /\
    verify_external_anchor L v (inspection_checkpoint i) anchor = Ok tt /\
    inspection_pending i = Z.of_nat (size (pending_intents v)).
Proof.
  unfold inspect_disk. split.
  - intros Hi. checks. eexists _, _. repeat (split; [done|]). split; [|done].
    intros ->. cbn [negb orb] in *. by checks.
  - intros (content & v & Hf & Hv & Hc & Hk & Ha & Hn). replay.
    rewrite ensure_pass by (destruct complete; [by rewrite bool_decide_true by auto|done]).
    replay. rewrite <-Hn. by destruct i.
Qed.

Lemma verify_ledger_ok anchor w w' c :
  verify L anchor w = (w', Ok c) <->
  w' = w /\ exists content v, log_file (disk w) = Some content /\
    verify_log L content = Ok v /\
    check_checkpoint v false (checkpoint_file (disk w)) = Ok c /\
    verify_external_anchor L v c anchor = Ok tt.
Proof.
  rewrite verify_run. split.
  - intros [= -> (i & Hi & [= <-])%rbind_ok]. apply inspect_disk_ok in Hi. naive_solver.
  - intros (-> & content & v & Hf & Hv & Hc & Ha). f_equal. apply rbind_ok.
    exists {| inspection_pending := Z.of_nat (size (pending_intents v)); inspection_checkpoint := c |}.
    split; [|done]. apply inspect_disk_ok. exists content, v. done.
Qed.

(** [reconcile] writes the checkpoint of the whole log. *)
Lemma reconcile_recovers `{!CheckpointJsonLaws} w :
  ledger_ok L -> recoverable (disk w) ->
  exists content v c bs, log_file (disk w) = Some content /\ verify_log L content = Ok v /\
    make_checkpoint L (v_sequence v) (v_record_hash v) = Ok c /\ to_vec c = Some bs /\
    check_checkpoint v false (Some bs) = Ok c /\
    reconcile L w =
      ({| disk := {| log_file := Some content; checkpoint_file := Some bs |};
          history := disk w :: history w |}, Ok c).
Proof.
  intros HL (content & v & c0 & Hf & Hv & Hc0).
  apply verify_log_ok in Hv as Hd. destruct Hd as (_ & _ & _ & Hd%absorb_all_describes).
  pose proof Hd as [Es Eb _ _ El _].
  destruct (make_checkpoint_total (v_sequence v) (v_record_hash v)) as (c & bs & Hc & Hb & Hl);
    [done|unfold is_u64; rewrite Es; pose proof (zlen_nonneg (log_events content)); lia|done|].
  exists content, v, c, bs. repeat (split; [done|]).
  split; [by eapply check_own_checkpoint|].
  unfold check_checkpoint in Hc0. checks.
  unfold reconcile. unfold io_bind at 1. rewrite open_log_run, Hf. cbn [ok_or].
  rewrite io_bind_lift, Hv. unfold io_bind at 1. rewrite read_checkpoint_run. replay.
  match goal with H : parse_checkpoint _ = Ok _ |- _ => rewrite H end.
  rewrite io_bind_lift. replay.
  match goal with H : contains_head _ _ _ _ = Ok _ |- _ => rewrite H end.
  rewrite io_bind_lift, Hc. unfold persist_checkpoint, io_bind, io_lift. rewrite Hb. simpl.
  by rewrite Hf.
Qed.

(** ** Pairing of intents and outcomes *)

Definition is_intent (e : AuditEvent) : Prop := phase e = Intent.
Definition is_outcome (e : AuditEvent) : Prop := phase e = Outcome.

(** The intents no outcome in the list answers. *)
Definition open_intents (evs : list AuditEvent) : list AuditEvent :=
  filter (fun e => phase e = Intent /\
                   Forall (fun o => phase o = Outcome -> request_id o <> request_id e) evs) evs.

(** Intents have distinct request identifiers; an outcome follows the one
    intent it answers, repeats its binding, and is the only one to do so. *)
Record paired (evs : list AuditEvent) : Prop := {
  intents_distinct : NoDup (map request_id (filter (fun e => phase e = Intent) evs));
  outcomes_distinct : NoDup (map request_id (filter (fun e => phase e = Outcome) evs));
  outcome_follows_intent j o :
    evs !! j = Some o -> is_outcome o ->
    exists i e, (i < j)%nat /\ evs !! i = Some e /\ is_intent e /\
      request_id e = request_id o /\ from_intent e = from_intent o;
}.

Record tracks (v : VerifiedLog) (evs : list AuditEvent) : Prop := {
  t_paired : paired evs;
  t_seen rid : rid ∈ seen_intents v <-> exists e, e ∈ evs /\ is_intent e /\ request_id e = rid;
  t_pending rid b : pending_intents v !! rid = Some b <->
    exists e, e ∈ evs /\ is_intent e /\ request_id e = rid /\ from_intent e = b /\
      forall o, o ∈ evs -> is_outcome o -> request_id o <> rid;
}.

Lemma ensure_matches_outcome_ok b e : ensure_matches_outcome b e = Ok tt <-> from_intent e = b.
Proof.
  unfold ensure_matches_outcome, from_intent. destruct b as [k p i]. simpl. split.
  - intros Hm. checks. congruence.
  - intros [= <- <- <-]. by rewrite !ensure_pass by (by apply bool_decide_true).
Qed.

Lemma in_map_filter (P : AuditEvent -> Prop) `{forall e, Decision (P e)} evs rid :
  rid ∈ map request_id (filter P evs) <-> exists e, e ∈ evs /\ P e /\ request_id e = rid.
Proof.
  change (map request_id) with (fmap (M := list) request_id). rewrite list_elem_of_fmap.
  setoid_rewrite list_elem_of_filter. naive_solver.
Qed.

Lemma NoDup_map_filter_impl (P Q : AuditEvent -> Prop)
    `{forall e, Decision (P e), forall e, Decision (Q e)} evs :
  (forall e, Q e -> P e) -> NoDup (map request_id (filter P evs)) ->
  NoDup (map request_id (filter Q evs)).
Proof.
  intros HQP. induction evs as [|e evs IH]; [done|]. rewrite !filter_cons.
  destruct (decide (Q e)) as [HQ|HQ]; destruct (decide (P e)) as [HP|HP]; simpl;
    rewrite ?NoDup_cons; [|naive_solver|naive_solver|done].
  intros [Hnew Hnd]. split; [|auto]. intros Hin. apply Hnew.
  rewrite in_map_filter in Hin |- *. naive_solver.
Qed.

Lemma NoDup_map_snoc (P : AuditEvent -> Prop) `{forall e, Decision (P e)} evs e :
  NoDup (map request_id (filter P evs)) ->
  (P e -> forall e', e' ∈ evs -> P e' -> request_id e' <> request_id e) ->
  NoDup (map request_id (filter P (evs ++ [e]))).
Proof.
  intros Hnd Hnew. rewrite filter_app, map_app. apply NoDup_app. split; [done|].
  rewrite filter_cons. destruct (decide (P e)) as [HP|HP]; simpl; [|split; [set_solver|constructor]].
  split; [|apply NoDup_singleton]. intros rid Hin ->%list_elem_of_singleton.
  apply in_map_filter in Hin as (e' & Hin & HP' & E). by apply (Hnew HP e').
Qed.

Lemma outcome_order_snoc evs e :
  (forall j o, evs !! j = Some o -> is_outcome o ->
     exists i e, (i < j)%nat /\ evs !! i = Some e /\ is_intent e /\
       request_id e = request_id o /\ from_intent e = from_intent o) ->
  (is_outcome e -> exists e0, e0 ∈ evs /\ is_intent e0 /\ request_id e0 = request_id e /\
     from_intent e0 = from_intent e) ->
  forall j o, (evs ++ [e]) !! j = Some o -> is_outcome o ->
    exists i e', (i < j)%nat /\ (evs ++ [e]) !! i = Some e' /\ is_intent e' /\
      request_id e' = request_id o /\ from_intent e' = from_intent o.
Proof.
  intros Hold Hnew j o [Hj|[Hj Ho]]%lookup_app_Some Hout.
  - destruct (Hold j o Hj Hout) as (i & e' & Hi & He & Hrest). exists i, e'.
    split; [done|]. split; [by apply lookup_app_l_Some|done].
  - apply list_lookup_singleton_Some in Ho as [Hz <-].
    destruct (Hnew Hout) as (e0 & (i & Hi)%list_elem_of_lookup & Hrest).
    exists i, e0. pose proof (lookup_lt_Some _ _ _ Hi). split; [lia|].
    split; [by apply lookup_app_l_Some|done].
Qed.

Lemma tracks_intent v evs e v' :
  tracks v evs -> phase e = Intent -> absorb v e = Ok v' -> tracks v' (evs ++ [e]).
Proof.
  intros [[Hi Ho Hord] Hs Hp] He Ha. apply absorb_ok in Ha as (_ & _ & _ & _ & Ht & _).
  unfold track_intents in Ht. rewrite He in Ht. checks. simplify_eq.
  match goal with H : request_id e ∉ _ |- _ => rename H into Hfresh end.
  assert (forall e', e' ∈ evs -> is_intent e' -> request_id e' <> request_id e) as Hnew.
  { intros e' Hin Hint E. apply Hfresh, Hs. eauto. }
  assert (forall o, o ∈ evs -> is_outcome o -> request_id o <> request_id e) as Hnone.
  { intros o (j & Hj)%list_elem_of_lookup Hout E.
    destruct (Hord j o Hj Hout) as (i & e' & _ & Hlk & Hint & Er & _).
    apply (Hnew e'); [by eapply list_elem_of_lookup_2|done|congruence]. }
  split; [split| |].
  - apply NoDup_map_snoc; [done|]. intros _. exact Hnew.
  - apply NoDup_map_snoc; [done|]. by rewrite He.
  - apply outcome_order_snoc; [done|]. unfold is_outcome. by rewrite He.
  - intros rid.
    match goal with H : _ = seen_intents v' |- _ => rewrite <-H end.
    rewrite elem_of_union, elem_of_singleton, Hs. setoid_rewrite elem_of_app.
    setoid_rewrite list_elem_of_singleton. naive_solver.
  - intros rid b.
    match goal with H : _ = pending_intents v' |- _ => rewrite <-H end.
    rewrite lookup_insert_Some, Hp. setoid_rewrite elem_of_app.
    setoid_rewrite list_elem_of_singleton. split.
    + intros [[<- <-]|[Hne (e' & Hin & Hint & Er & Eb & Hnoo)]].
      * exists e. repeat split; auto. intros o [Hin| ->] Hout; [by apply Hnone|].
        unfold is_outcome in Hout. congruence.
      * exists e'. repeat split; auto. intros o [Hin'| ->] Hout; [by apply Hnoo|].
        unfold is_outcome in Hout. congruence.
    + intros (e' & [Hin| ->] & Hint & <- & <- & Hnoo); [|by left].
      right. split; [intros E; by apply (Hnew e')|]. exists e'. naive_solver.
Qed.

Lemma tracks_outcome v evs e v' :
  tracks v evs -> phase e = Outcome -> absorb v e = Ok v' -> tracks v' (evs ++ [e]).
Proof.
  intros [[Hi Ho Hord] Hs Hp] He Ha. apply absorb_ok in Ha as (_ & _ & _ & _ & Ht & _).
  unfold track_intents in Ht. rewrite He in Ht.
  apply rbind_ok in Ht as (b & Hb%ok_or_ok & Ht).
  apply seq_ok in Ht as (Hm%ensure_matches_outcome_ok & [= Eseen Epend]).
  apply Hp in Hb as Hb'. destruct Hb' as (e0 & Hin0 & Hint0 & Er0 & Eb0 & Hnoo0).
  split; [split| |].
  - apply NoDup_map_snoc; [done|]. by rewrite He.
  - apply NoDup_map_snoc; [done|]. intros _. exact Hnoo0.
  - apply outcome_order_snoc; [done|]. intros _. exists e0. by rewrite Eb0, Hm.
  - intros rid. rewrite <-Eseen, Hs. setoid_rewrite elem_of_app.
    setoid_rewrite list_elem_of_singleton. unfold is_intent. split; [naive_solver|].
    intros (e' & [Hin| ->] & Hint & Er); [eauto|congruence].
  - intros rid b'. rewrite <-Epend, lookup_delete_Some, Hp. setoid_rewrite elem_of_app.
    setoid_rewrite list_elem_of_singleton. split.
    + intros [Hne (e' & Hin & Hint & Er & Eb & Hnoo)]. exists e'. repeat split; auto.
      intros o [Hin'| ->] Hout; [by apply Hnoo|done].
    + intros (e' & [Hin| ->] & Hint & Er & Eb & Hnoo).
      * split; [intros E; subst; apply (Hnoo e); auto|]. exists e'. naive_solver.
      * unfold is_intent in Hint. congruence.
Qed.

Lemma tracks_administrative v evs e v' :
  tracks v evs -> phase e = Administrative -> absorb v e = Ok v' -> tracks v' (evs ++ [e]).
Proof.
  intros [[Hi Ho Hord] Hs Hp] He Ha. apply absorb_ok in Ha as (_ & _ & _ & _ & Ht & _).
  unfold track_intents in Ht. rewrite He in Ht. injection Ht as Eseen Epend.
  split; [split| |].
  - apply NoDup_map_snoc; [done|]. by rewrite He.
  - apply NoDup_map_snoc; [done|]. by rewrite He.
  - apply outcome_order_snoc; [done|]. unfold is_outcome. by rewrite He.
  - intros rid. rewrite <-Eseen, Hs. setoid_rewrite elem_of_app.
    setoid_rewrite list_elem_of_singleton. unfold is_intent. split; [naive_solver|].
    intros (e' & [Hin| ->] & Hint & Er); [eauto|congruence].
  - intros rid b. rewrite <-Epend, Hp. setoid_rewrite elem_of_app.
    setoid_rewrite list_elem_of_singleton. unfold is_intent, is_outcome. split.
    + intros (e' & Hin & Hint & Er & Eb & Hnoo). exists e'. repeat split; auto.
      intros o [Hin'| ->] Hout; [by apply Hnoo|congruence].
    + intros (e' & [Hin| ->] & Hint & Er & Eb & Hnoo); [|congruence]. exists e'. naive_solver.
Qed.

Lemma absorb_all_tracks evs v : absorb_all evs = Ok v -> tracks v evs.
Proof.
  revert v; induction evs as [|e evs IH] using rev_ind; intros v.
  { intros [= <-]. split; [split|..]; simpl; [by apply NoDup_nil_2..| | |].
    - intros j o. by rewrite lookup_nil.
    - set_solver.
    - intros rid b. rewrite lookup_empty. set_solver. }
  rewrite absorb_all_snoc. intros (v0 & Hv0 & Ha)%rbind_ok. specialize (IH _ Hv0).
  destruct (phase e) eqn:He;
    [by eapply tracks_intent|by eapply tracks_outcome|by eapply tracks_administrative].
Qed.

(** The pending map holds the open intents, once each. *)
Lemma tracks_open v evs : tracks v evs -> size (pending_intents v) = length (open_intents evs).
Proof.
  intros [[Hi Ho Hord] Hs Hp].
  assert (dom (pending_intents v) = list_to_set (map request_id (open_intents evs))
          :> gset bytes) as Hdom.
  { apply set_eq. intros rid. rewrite elem_of_dom, elem_of_list_to_set.
    unfold open_intents. rewrite in_map_filter. unfold is_Some. setoid_rewrite Hp.
    setoid_rewrite Forall_forall. unfold is_intent, is_outcome. split.
    - intros (b & e & Hin & Hint & Er & Eb & Hnoo). subst. eauto 10.
    - intros (e & Hin & [Hint Hnoo] & Er). subst. eexists _, e. eauto 10. }
  rewrite <-size_dom, Hdom, size_list_to_set.
  - by rewrite length_map.
  - eapply NoDup_map_filter_impl; [|exact Hi]. by intros e [].
Qed.

(** ** Resolution of pending intents *)

Definition binding_ok (b : PendingIntentBinding) : Prop :=
  validate_token (b_operation_kind b) MAX_OPERATION_KIND_BYTES "operation kind" = Ok tt /\
  validate_digest (b_policy_digest b) "policy digest" = Ok tt /\
  validate_digest (b_intent_digest b) "intent digest" = Ok tt.

Lemma pending_binding_ok v evs rid b :
  tracks v evs -> Forall admissible evs -> pending_intents v !! rid = Some b -> binding_ok b.
Proof.
  intros [_ _ Hp] Hall (e & Hin & _ & _ & <- & _)%Hp.
  apply (proj1 (Forall_forall _ _) Hall) in Hin as [Hv _].
  unfold event_validate in Hv. checks. unfold binding_ok. simpl.
  repeat match goal with u : unit |- _ => destruct u end. done.
Qed.

Lemma unknown_outcome_admissible at_ms rid b :
  ledger_ok L -> 0 < at_ms -> binding_ok b -> admissible (unknown_outcome L at_ms rid b).
Proof.
  intros [Hpid Hgen] Hat (Hk & Hpol & Hint). split.
  - unfold event_validate, unknown_outcome. cbn [event_profile_id event_generation at_unix_ms
      operation_kind reason_code policy_digest intent_digest result_digest phase decision].
    unfold validate_profile_id. rewrite ensure_pass by apply (hex_text 16 _ Hpid). cbn [rbind].
    rewrite !ensure_pass by (apply Z.ltb_lt; lia). rewrite Hk. cbn [rbind].
    change (validate_token RESOLVE_UNKNOWN_REASON MAX_REASON_CODE_BYTES "reason code")
      with (Ok (E := string) tt). cbn [rbind]. rewrite Hpol, Hint. cbn [rbind].
    unfold resolved_unknown_result_digest, validate_digest.
    rewrite ensure_pass by (apply (hex_text 32), sha256_length). done.
  - unfold same_identity. simpl. rewrite bool_decide_true by done. apply Z.eqb_refl.
Qed.

Lemma append_unknowns_safe `{!CheckpointJsonLaws} at_ms pending c w w' r :
  ledger_ok L -> 0 < at_ms -> Forall (fun p => binding_ok p.2) pending ->
  recoverable (disk w) -> append_unknowns L at_ms c pending w = (w', r) -> safe_run w w'.
Proof.
  intros HL Hat. revert c w; induction pending as [|[rid b] rest IH]; intros c w Hall Hrec.
  { intros [= <- <-]. by apply safe_run_refl. }
  apply Forall_cons in Hall as [Hb Hall]. cbn [append_unknowns]. unfold io_bind.
  destruct (append_locked L _ w) as [w1 r1] eqn:E1.
  apply append_locked_safe in E1; [|done|by apply unknown_outcome_admissible|done].
  destruct r1 as [c1|err]; [|by intros [= <- <-]].
  intros E. eapply safe_run_trans; [exact E1|]. eapply IH; [done| |exact E].
  destruct E1 as (hs & _ & Hf). by apply Forall_cons in Hf as [[] _].
Qed.

(** The log and its checkpoint agree. *)
Definition in_sync (d : Disk) (content : bytes) (v : VerifiedLog) (c : AuditCheckpoint) : Prop :=
  log_file d = Some content /\ verify_log L content = Ok v /\
  check_checkpoint v false (checkpoint_file d) = Ok c.

Lemma append_locked_ok `{!CheckpointJsonLaws} e w w' c :
  ledger_ok L -> admissible e -> append_locked L e w = (w', Ok c) ->
  exists content enc v v', log_file (disk w) = Some content /\ verify_log L content = Ok v /\
    enc <> [] /\ newline ∉ enc /\ absorb v e = Ok v' /\
    in_sync (disk w') (content ++ enc ++ [newline]) v' c /\
    log_events (content ++ enc ++ [newline]) = log_events content ++ [e].
Proof.
  intros HL Hadm Hrun. unfold append_locked in Hrun.
  destruct (append_locked_cases false e w HL Hadm)
    as [[s E]|(content & enc & v & v' & c' & bs & Hf & Hne & Hnl & Hv & Hm & Ha & Hx & Hev & Hc & Hb & Hl & E)];
    [|specialize (E (history w)); rewrite world_eta in E]; rewrite E in Hrun; simplify_eq.
  apply verify_log_ok in Hx as Hd'. destruct Hd' as (_ & _ & _ & Hd'%absorb_all_describes).
  exists content, enc, v, v'. repeat (split; [done|]). split; [|done].
  split; [done|]. split; [done|]. by eapply check_own_checkpoint.
Qed.

Lemma unknown_outcome_tracked v v' at_ms rid b :
  absorb v (unknown_outcome L at_ms rid b) = Ok v' ->
  pending_intents v' = delete rid (pending_intents v).
Proof.
  intros (_ & _ & _ & _ & Ht & _)%absorb_ok. unfold track_intents in Ht. simpl in Ht.
  apply rbind_ok in Ht as (b' & _ & Ht). apply seq_ok in Ht as (_ & [= _ <-]). done.
Qed.

Lemma append_unknowns_ok `{!CheckpointJsonLaws} at_ms pending c w w' c' content v :
  ledger_ok L -> 0 < at_ms -> Forall (fun p => binding_ok p.2) pending ->
  in_sync (disk w) content v c -> NoDup pending.*1 ->
  pending_intents v = list_to_map pending ->
  append_unknowns L at_ms c pending w = (w', Ok c') ->
  exists content' v', in_sync (disk w') content' v' c' /\ pending_intents v' = ∅ /\
    log_events content' =
      log_events content ++ map (fun p => unknown_outcome L at_ms p.1 p.2) pending /\
    forall a s1 s2, contains_head v a s1 s2 = Ok tt -> contains_head v' a s1 s2 = Ok tt.
Proof.
  intros HL Hat. revert c w content v;
    induction pending as [|[rid b] rest IH]; intros c w content v Hall Hsync Hnd Hp.
  { intros [= <- <-]. exists content, v. rewrite app_nil_r. done. }
  apply Forall_cons in Hall as [Hb Hall]. inversion_clear Hnd as [|?? Hnew Hnd'].
  cbn [append_unknowns]. intros (w1 & c1 & E1 & E)%io_bind_ok.
  apply append_locked_ok in E1
    as (content0 & enc & v0 & v1 & Hf & Hv & _ & _ & Ha & Hsync1 & Hev);
    [|done|by apply unknown_outcome_admissible].
  destruct Hsync as (Hf' & Hv' & _).
  assert (content0 = content) as -> by congruence. assert (v0 = v) as -> by congruence.
  destruct (IH c1 w1 _ v1 Hall Hsync1 Hnd') as (content' & v' & Hsync' & Hp' & Hev' & Hh);
    [|done|].
  { rewrite (unknown_outcome_tracked _ _ _ _ _ Ha), Hp. simpl.
    rewrite delete_insert_id; [done|]. by apply not_elem_of_list_to_map_1. }
  exists content', v'. split; [done|]. split; [done|]. split.
  - rewrite Hev', Hev. simpl. by rewrite <-(assoc_L (++)).
  - intros a s1 s2 Hc. apply Hh. apply verify_log_ok in Hv as (_ & _ & _ & Hd%absorb_all_describes).
    by eapply contains_head_extends.
Qed.

(** The pending intents in the order [resolve_pending_as_unknown] closes them. *)
Definition pending_sorted (v : VerifiedLog) : list (bytes * PendingIntentBinding) :=
  merge_sort pending_le (map_to_list (pending_intents v)).

Lemma pending_sorted_perm v : pending_sorted v ≡ₚ map_to_list (pending_intents v).
Proof. apply merge_sort_Permutation. Qed.

Lemma pending_sorted_nodup v : NoDup (pending_sorted v).*1.
Proof. rewrite pending_sorted_perm. apply NoDup_fst_map_to_list. Qed.

Lemma pending_sorted_map v : list_to_map (pending_sorted v) = pending_intents v.
Proof.
  rewrite (list_to_map_proper _ (map_to_list (pending_intents v)));
    [apply list_to_map_to_list|apply pending_sorted_nodup|apply pending_sorted_perm].
Qed.

Lemma pending_sorted_ok v evs :
  tracks v evs -> Forall admissible evs -> Forall (fun p => binding_ok p.2) (pending_sorted v).
Proof.
  intros Ht Hadm. rewrite pending_sorted_perm. apply Forall_forall. intros [rid b] Hin.
  apply elem_of_map_to_list in Hin. by eapply pending_binding_ok.
Qed.

Lemma resolve_cases at_ms anchor w w' r :
  resolve_pending_as_unknown L at_ms anchor w = (w', r) ->
  (w' = w /\ exists s, r = Err s) \/
  exists content v c0 r0, 0 < at_ms /\ in_sync (disk w) content v c0 /\
    verify_external_anchor L v c0 anchor = Ok tt /\
    append_unknowns L at_ms c0 (pending_sorted v) w = (w', r0) /\
    r = let* c := r0 in
        Ok {| resolved := zlen (pending_sorted v); resolution_checkpoint := c |}.
Proof.
  unfold resolve_pending_as_unknown. rewrite io_bind_lift.
  destruct (0 <? at_ms) eqn:Hat; cbn [ensure]; [|intros [= <- <-]; by eauto].
  unfold io_bind at 1. rewrite open_log_run.
  destruct (log_file (disk w)) as [content|] eqn:Hf; cbn [ok_or]; [|intros [= <- <-]; by eauto].
  rewrite io_bind_lift. destruct (verify_log L content) as [v|] eqn:Hv; [|intros [= <- <-]; by eauto].
  unfold io_bind at 1. rewrite check_checkpoint_run.
  destruct (check_checkpoint v false _) as [c0|] eqn:Hc; [|intros [= <- <-]; by eauto].
  rewrite io_bind_lift.
  destruct (verify_external_anchor L v c0 anchor) as [[]|] eqn:Ha; [|intros [= <- <-]; by eauto].
  fold (pending_sorted v). unfold io_bind.
  destruct (append_unknowns L at_ms c0 (pending_sorted v) w) as [w1 r0] eqn:Eu.
  intros Hrun. right. exists content, v, c0, r0. apply Z.ltb_lt in Hat.
  split; [done|]. split; [done|]. split; [done|].
  destruct r0; unfold io_ret in Hrun; simplify_eq; done.
Qed.

Lemma resolve_safe `{!CheckpointJsonLaws} at_ms anchor w w' r :
  ledger_ok L -> recoverable (disk w) ->
  resolve_pending_as_unknown L at_ms anchor w = (w', r) -> safe_run w w'.
Proof.
  intros HL Hrec [[-> _]|(content & v & c0 & r0 & Hat & Hs & _ & Hu & _)]%resolve_cases;
    [by apply safe_run_refl|].
  destruct Hs as (_ & Hv & _). apply verify_log_ok in Hv as (_ & _ & Hadm & Htr%absorb_all_tracks).
  eapply append_unknowns_safe; [done|done|by eapply pending_sorted_ok|done|exact Hu].
Qed.

Lemma append_safe `{!CheckpointJsonLaws} e w w' r :
  ledger_ok L -> recoverable (disk w) -> append L e w = (w', r) -> safe_run w w'.
Proof.
  intros HL Hrec Hrun. destruct (append_cases e w) as [[s E]|[Hadm E]]; rewrite E in Hrun.
  - simplify_eq. by apply safe_run_refl.
  - by eapply append_locked_safe.
Qed.

Lemma reconcile_safe `{!CheckpointJsonLaws} w w' r :
  ledger_ok L -> recoverable (disk w) -> reconcile L w = (w', r) -> safe_run w w'.
Proof.
  intros HL Hrec Hrun.
  destruct (reconcile_recovers w HL Hrec) as (content & v & c & bs & Hf & Hv & _ & _ & Hk & E).
  rewrite E in Hrun. simplify_eq. exists [disk w]. split; [done|].
  constructor; [|constructor; [by apply continues_refl|done]]. split.
  - exists content, v, c. repeat (split; [done|]). by apply check_lagging.
  - exists content, []. by rewrite app_nil_r.
Qed.

(** ** Reachable states *)

(** An operation started on [d], interrupted at any of its durable states. *)
Inductive crash_step (d d' : Disk) : Prop :=
| crash_append e w r :
    append L e {| disk := d; history := [] |} = (w, r) -> d' ∈ disk w :: history w ->
    crash_step d d'
| crash_reconcile w r :
    reconcile L {| disk := d; history := [] |} = (w, r) -> d' ∈ disk w :: history w ->
    crash_step d d'
| crash_resolve at_ms anchor w r :
    resolve_pending_as_unknown L at_ms anchor {| disk := d; history := [] |} = (w, r) ->
    d' ∈ disk w :: history w -> crash_step d d'.

Lemma safe_run_states d w d' :
  safe_run {| disk := d; history := [] |} w -> d' ∈ disk w :: history w -> continues d d'.
Proof.
  intros (hs & E & Hall) Hin. simpl in E. rewrite app_nil_r in E. subst hs.
  by apply (proj1 (Forall_forall _ _) Hall).
Qed.

Lemma crash_step_continues `{!CheckpointJsonLaws} d d' :
  ledger_ok L -> recoverable d -> crash_step d d' -> continues d d'.
Proof.
  intros HL Hrec [e w r Hrun Hin|w r Hrun Hin|at_ms anchor w r Hrun Hin];
    (eapply safe_run_states; [|exact Hin]).
  - by eapply append_safe.
  - by eapply reconcile_safe.
  - by eapply resolve_safe.
Qed.

Lemma crash_steps_continue `{!CheckpointJsonLaws} d d' :
  ledger_ok L -> recoverable d -> rtc crash_step d d' -> continues d d'.
Proof.
  intros HL Hrec Hs. induction Hs as [d|d1 d2 d3 H12 _ IH]; [by apply continues_refl|].
  apply crash_step_continues in H12; [|done..]. eapply continues_trans; [exact H12|].
  by apply IH, H12.
Qed.

(** ** Extensions and the hash chain *)

Lemma verify_log_prefix log ext v0 v :
  verify_log L log = Ok v0 -> verify_log L (log ++ ext) = Ok v ->
  exists evs, log_events (log ++ ext) = log_events log ++ evs /\ for_each absorb v0 evs = Ok v.
Proof.
  intros Hlog Hext. apply verify_log_ok in Hlog as (_ & Hends & _ & Hlog).
  apply verify_log_ok in Hext as (_ & _ & _ & Hext). unfold absorb_all, log_events in *.
  rewrite split_inclusive_app, omap_app in * by (done || set_solver).
  eexists. split; [done|]. rewrite for_each_app, Hlog in Hext. done.
Qed.

Lemma contains_head_extends_all v evs0 evs v' c s1 s2 :
  describes v evs0 -> for_each absorb v evs = Ok v' ->
  contains_head v c s1 s2 = Ok tt -> contains_head v' c s1 s2 = Ok tt.
Proof.
  revert v evs0; induction evs as [|e evs IH]; intros v evs0 Hd; simpl; [by intros [= ->]|].
  intros (v1 & Ha & Hrest)%rbind_ok Hc. apply (IH v1 (evs0 ++ [e])); [|done|].
  - destruct Hd as [Hs Hb Hh Hdd Hl Hf]. apply absorb_ok in Ha as (Es & Hle & Ec & Eh & _ & Ef).
    split; rewrite ?zlen_app, ?zlen_cons, ?zlen_nil, ?Eh, ?last_snoc, ?length_app; simpl;
      try (lia || done); [by apply calculate_record_hash_length in Ec|].
    rewrite Ef, Hf. by destruct evs0.
  - by eapply contains_head_extends.
Qed.

(** What [calculate_record_hash] hashes. *)
Definition preimage (sequence : Z) (previous : bytes) (e : AuditEvent) : option bytes :=
  (fun event_bytes => RECORD_DOMAIN ++ be16 AUDIT_SCHEMA_VERSION ++ be64 sequence ++ previous
     ++ be64 (zlen event_bytes) ++ event_bytes) <$> to_vec e.

(** The hashed strings of a chain of records, as far as they serialize. *)
Fixpoint chain (sequence : Z) (previous : bytes) (evs : list AuditEvent) : list bytes :=
  match evs with
  | [] => []
  | e :: evs' =>
      match preimage (sequence + 1) previous e with
      | Some p => p :: chain (sequence + 1) (sha256 p) evs'
      | None => []
      end
  end.

Definition record_preimages (evs : list AuditEvent) : list bytes := chain 0 ZERO_HASH evs.

Lemma calculate_record_hash_ok s p e h :
  calculate_record_hash s p e = Ok h <-> exists q, preimage s p e = Some q /\ h = sha256 q.
Proof.
  unfold calculate_record_hash, preimage. destruct (to_vec e) as [b|]; simpl; [|naive_solver].
  split; [intros [= <-]; eauto|]. by intros (q & [= <-] & ->).
Qed.

Lemma absorb_chain v evs v' :
  for_each absorb v evs = Ok v' ->
  v_hashes v' = v_hashes v ++ map sha256 (chain (v_sequence v) (v_record_hash v) evs).
Proof.
  revert v; induction evs as [|e evs IH]; intros v; simpl.
  { intros [= ->]. by rewrite app_nil_r. }
  intros (v1 & Ha & Hrest)%rbind_ok. apply absorb_ok in Ha as (Es & _ & Ec & Eh & _ & _).
  apply calculate_record_hash_ok in Ec as (q & Hq & Eq). rewrite Es in Hq. rewrite Hq. simpl.
  apply IH in Hrest. rewrite Hrest, Eh, Es, Eq. by rewrite <-(assoc_L (++)).
Qed.

Lemma preimage_inj s p1 p2 e1 e2 q :
  length p1 = length p2 -> preimage s p1 e1 = Some q -> preimage s p2 e2 = Some q ->
  p1 = p2 /\ e1 = e2.
Proof.
  unfold preimage. intros Hl (b1 & Hb1 & ->)%fmap_Some (b2 & Hb2 & E)%fmap_Some.
  apply app_inv_head, app_inv_head, app_inv_head in E.
  apply app_inv_length in E as [-> E]; [|done].
  apply app_inv_length in E as [_ ->]; [|unfold be64; by rewrite !length_be_bytes].
  split; [done|]. by eapply to_vec_inj.
Qed.

(** Two distinct hashed strings of the same record position collide. *)
Definition collision (l1 l2 : list bytes) : Prop :=
  exists i q1 q2, l1 !! i = Some q1 /\ l2 !! i = Some q2 /\ q1 <> q2 /\ sha256 q1 = sha256 q2.

Lemma chain_agree n s p1 p2 evs1 evs2 q1 q2 :
  length p1 = length p2 ->
  chain s p1 evs1 !! n = Some q1 -> chain s p2 evs2 !! n = Some q2 -> sha256 q1 = sha256 q2 ->
  (p1 = p2 /\ take (S n) evs1 = take (S n) evs2) \/ collision (chain s p1 evs1) (chain s p2 evs2).
Proof.
  revert s p1 p2 evs1 evs2; induction n as [|n IH]; intros s p1 p2 evs1 evs2 Hl;
    (destruct evs1 as [|e1 evs1]; [done|]); (destruct evs2 as [|e2 evs2]; [done|]); simpl;
    destruct (preimage (s + 1) p1 e1) as [r1|] eqn:E1; try done;
    destruct (preimage (s + 1) p2 e2) as [r2|] eqn:E2; try done; simpl.
  - intros [= ->] [= ->] Hh. destruct (decide (q1 = q2)) as [->|Hne].
    + left. destruct (preimage_inj _ _ _ _ _ _ Hl E1 E2) as [-> ->]. done.
    + right. by exists 0%nat, q1, q2.
  - intros Hq1 Hq2 Hh.
    destruct (IH _ _ _ _ _ ltac:(by rewrite !sha256_length) Hq1 Hq2 Hh)
      as [[Er Et]|(i & x1 & x2 & Hx)].
    + destruct (decide (r1 = r2)) as [->|Hne].
      * left. destruct (preimage_inj _ _ _ _ _ _ Hl E1 E2) as [-> ->].
        split; [done|]. f_equal. exact Et.
      * right. by exists 0%nat, r1, r2.
    + right. by exists (S i), x1, x2.
Qed.

End theory.
