(* ===== verification/LedgerProperties.v ===== *)
(** * The audit ledger: its guarantees

    The theorems about the ledger of one profile generation, and runs of the
    model on concrete ledgers. *)

From stdpp Require Import countable gmap sorting pretty.
From S2P Require Import Prelude.
From S2P Require Import Bytes.
From S2P Require Import Text.
From S2P Require Import Crates.
From S2P Require Import Ledger.
From S2P Require Import LedgerTheory.
#[local] Open Scope string_scope.
#[local] Open Scope list_scope.
#[local] Open Scope Z_scope.

Section properties.
Context `{!Sha2, !Sha2Laws, !HmacSha2, !HmacSha2Laws, !Hex, !HexLaws,
          !Json AuditEvent, !JsonLaws AuditEvent,
          !Json AuditRecord, !JsonLaws AuditRecord, !JsonLineLaws AuditRecord,
          !Json AuditCheckpoint, !JsonLaws AuditCheckpoint,
          !JsonSer UnsignedCheckpoint, !JsonSer MacInput, !CheckpointJsonLaws}.
Context (L : AuditLedger).

(** The events of the log on a disk. *)
Definition disk_events (d : Disk) : list AuditEvent :=
  match log_file d with
  | Some content => log_events content
  | None => []
  end.

Definition on (d : Disk) (h : list Disk) : World := {| disk := d; history := h |}.

Lemma verified_identity v c f :
  check_checkpoint L v false f = Ok c ->
  cp_profile_id c = hex_encode (profile_id L) /\ cp_generation c = profile_generation L /\
  cp_sequence c = v_sequence v /\ cp_record_hash c = hex_encode (v_record_hash v) /\
  verify_checkpoint_mac L c = Ok tt /\
  contains_head v c "audit checkpoint is ahead of the log"
    "audit checkpoint diverges from the log" = Ok tt.
Proof.
  unfold check_checkpoint. intros Hc. checks. cbn [orb] in *. checks.
  match goal with H : verify_checkpoint_mac _ _ = _ |- _ => pose proof H as Hmac end.
  unfold verify_checkpoint_mac, same_identity in Hmac. checks. done.
Qed.

Lemma contains_head_messages v c s1 s2 s1' s2' :
  contains_head v c s1 s2 = Ok tt -> contains_head v c s1' s2' = Ok tt.
Proof.
  unfold contains_head. intros Hc. checks.
  rewrite ensure_pass by by apply Z.leb_le. replay.
  by rewrite ensure_pass by by apply bool_decide_true.
Qed.

(** An authenticated head the log contains is accepted as an anchor. *)
Lemma anchor_accepted v c f a :
  check_checkpoint L v false f = Ok c -> verify_checkpoint_mac L a = Ok tt ->
  contains_head v a "audit ledger is older than the external anchor"
    "audit ledger does not contain the external anchor" = Ok tt ->
  verify_external_anchor L v c (Some a) = Ok tt.
Proof.
  intros Hc Hmac Hh. apply verified_identity in Hc as (Ei & Eg & _).
  unfold verify_external_anchor. rewrite Hmac. cbn [rbind].
  unfold verify_checkpoint_mac, same_identity in Hmac. checks.
  rewrite ensure_pass; [done|]. rewrite Ei, Eg, bool_decide_true by done. by apply Z.eqb_eq.
Qed.

(** C5: crash safety.  Start from a ledger that verifies with head [c0], run
    any number of appends, reconciliations and pending-intent resolutions,
    each cut off after any of its durable writes.  In every state this can
    leave behind, [reconcile] succeeds without touching the log; the ledger
    then verifies, contains the old head as an anchor, has lost none of the
    earlier events, and its checkpoint counts exactly the events of the log. *)
Theorem ledger_survives_crashes w0 c0 d h :
  ledger_ok L -> verify L None w0 = (w0, Ok c0) -> rtc (crash_step L) (disk w0) d ->
  exists w c, reconcile L (on d h) = (w, Ok c) /\
    verify L (Some c0) w = (w, Ok c) /\ log_file (disk w) = log_file d /\
    disk_events (disk w0) `prefix_of` disk_events d /\
    cp_sequence c = zlen (disk_events d).
Proof.
  intros HL (_ & content0 & v0 & Hf0 & Hv0 & Hc0 & _)%verify_ledger_ok Hsteps.
  assert (recoverable L (disk w0)) as Hrec0
    by (exists content0, v0, c0; auto using check_lagging).
  apply crash_steps_continue in Hsteps as [Hrec (log & ext & El & Ed)]; [|done..].
  assert (log = content0) as -> by congruence.
  destruct (reconcile_recovers L (on d h) HL Hrec)
    as (content & v & c & bs & Hf & Hv & _ & _ & Hk & E).
  cbn in Hf. assert (content = content0 ++ ext) as -> by congruence.
  destruct (verify_log_prefix L _ _ _ _ Hv0 Hv) as (evs & Hevs & Habs).
  apply verify_log_ok in Hv0 as Hd0. destruct Hd0 as (_ & _ & _ & Hd0%absorb_all_describes).
  apply verify_log_ok in Hv as Hd. destruct Hd as (_ & _ & _ & Hd%absorb_all_describes).
  eexists _, c. split; [exact E|]. unfold disk_events. rewrite Hf, Hf0. cbn.
  split; [|split; [done|split]].
  - apply verify_ledger_ok. split; [done|]. exists (content0 ++ ext), v. repeat (split; [done|]).
    apply verified_identity in Hc0 as (_ & _ & _ & _ & Hmac0 & Hh0).
    eapply anchor_accepted; [exact Hk|done|].
    eapply contains_head_messages, contains_head_extends_all; [exact Hd0|exact Habs|exact Hh0].
  - rewrite Hevs. by apply prefix_app_r.
  - apply verified_identity in Hk as (_ & _ & -> & _). apply Hd.
Qed.

Lemma append_effect e w w' r :
  ledger_ok L -> append L e w = (w', r) ->
  match r with
  | Ok c =>
      event_validate e = Ok tt /\
      (exists log line, log_file (disk w) = Some log /\ log_file (disk w') = Some (log ++ line)) /\
      disk_events (disk w') = disk_events (disk w) ++ [e] /\
      cp_sequence c = zlen (disk_events (disk w')) /\
      verify L None w' = (w', Ok c)
  | Err _ => w' = w
  end.
Proof.
  intros HL Hrun. destruct (append_cases L e w) as [[s E]|[Hadm E]]; rewrite E in Hrun;
    [by simplify_eq|].
  destruct r as [c|s].
  - apply append_locked_ok in Hrun as (content & enc & v & v' & Hf & _ & _ & _ & _ & Hs & Hev);
      [|done..]. destruct Hs as (Hf' & Hv' & Hk).
    unfold disk_events. rewrite Hf, Hf'. split; [apply Hadm|]. split; [by eauto|].
    split; [done|]. split.
    + apply verified_identity in Hk as (_ & _ & -> & _).
      apply verify_log_ok in Hv' as (_ & _ & _ & Hd%absorb_all_describes). apply Hd.
    + apply verify_ledger_ok. split; [done|]. by exists (content ++ enc ++ [newline]), v'.
  - unfold append_locked in Hrun. destruct (append_locked_cases L false e w HL Hadm)
      as [[s' E']|(? & ? & ? & ? & ? & ? & _ & _ & _ & _ & _ & _ & _ & _ & _ & _ & _ & E')];
      [|specialize (E' (history w)); rewrite world_eta in E']; rewrite E' in Hrun; by simplify_eq.
Qed.

(** Append.  A successful append writes bytes at the end of the log and
    nowhere else, adds exactly the given event, returns the checkpoint that
    counts it, and leaves a ledger that verifies with that checkpoint; an
    append that returns an error has written nothing. *)
Theorem append_extends_log e w w' r :
  ledger_ok L -> append L e w = (w', r) ->
  match r with
  | Ok c =>
      event_validate e = Ok tt /\
      (exists log line, log_file (disk w) = Some log /\ log_file (disk w') = Some (log ++ line)) /\
      disk_events (disk w') = disk_events (disk w) ++ [e] /\
      cp_sequence c = zlen (disk_events (disk w')) /\
      verify L None w' = (w', Ok c)
  | Err _ => w' = w
  end.
Proof. apply append_effect. Qed.

Lemma partial_log_rejected content v p :
  verify_log L content = Ok v -> p <> [] -> newline ∉ p ->
  zlen (content ++ p) <= MAX_AUDIT_LOG_BYTES ->
  verify_log L (content ++ p) = Err "audit log ends with a partial record".
Proof.
  intros Hv Hne Hnl Hl. apply verify_log_ok in Hv as Hd. destruct Hd as (_ & Hends & _ & _).
  unfold verify_log, read_bounded_file in *. inv_ok.
  rewrite ensure_pass by by apply Z.leb_le. cbn [rbind].
  rewrite split_inclusive_app by (done || set_solver).
  rewrite (split_inclusive_partial [] p) by done. rewrite for_each_app, Hv. cbn [rbind for_each app].
  unfold verify_line. rewrite ensure_fail; [done|]. apply not_true_iff_false.
  rewrite ends_with_true. intros (x & E). apply Hnl. rewrite E. set_solver.
Qed.

(** What every operation does with a log that does not verify. *)
Lemma unverified_log_refused d h content s :
  log_file d = Some content -> verify_log L content = Err s ->
  reconcile L (on d h) = (on d h, Err s) /\
  (forall anchor, verify L anchor (on d h) = (on d h, Err s)) /\
  (forall e, exists s', append L e (on d h) = (on d h, Err s')) /\
  (forall at_ms anchor, exists s',
     resolve_pending_as_unknown L at_ms anchor (on d h) = (on d h, Err s')).
Proof.
  intros Hf Hv. split; [|split; [|split]].
  - unfold reconcile. unfold io_bind at 1. rewrite open_log_run. cbn [on disk]. rewrite Hf.
    cbn [ok_or]. by rewrite io_bind_lift, Hv.
  - intros anchor. rewrite verify_run. unfold inspect_disk. cbn [on disk].
    rewrite Hf. cbn [ok_or rbind]. by rewrite Hv.
  - intros e. destruct (append_cases L e (on d h)) as [?|[_ ->]]; [done|].
    unfold append_locked. rewrite append_locked_plan. unfold plan. cbn [on disk].
    rewrite Hf. cbn [ok_or rbind]. rewrite Hv. by eexists.
  - intros at_ms anchor. destruct (resolve_pending_as_unknown _ _ _ _) as [w r] eqn:E.
    apply resolve_cases in E as [[-> [s' ->]]|(content' & v & c0 & r0 & _ & (Hf' & Hv' & _) & _)];
      [by eexists|]. cbn in Hf'. congruence.
Qed.

(** A torn append.  If only a proper, non-empty part of a record line
    reached the log, every operation refuses the ledger and changes nothing. *)
Theorem torn_append_rejected e w w' c log p q checkpoint h :
  ledger_ok L -> append L e w = (w', Ok c) ->
  log_file (disk w) = Some log -> log_file (disk w') = Some (log ++ p ++ q) ->
  p <> [] -> q <> [] ->
  let d := on {| log_file := Some (log ++ p); checkpoint_file := checkpoint |} h in
  let partial := "audit log ends with a partial record" in
  reconcile L d = (d, Err partial) /\
  (forall anchor, verify L anchor d = (d, Err partial)) /\
  (forall e', exists s, append L e' d = (d, Err s)) /\
  (forall at_ms anchor, exists s, resolve_pending_as_unknown L at_ms anchor d = (d, Err s)).
Proof.
  intros HL Hrun Hf Hf' Hp Hq. destruct (append_cases L e w) as [[s E]|[Hadm E]];
    rewrite E in Hrun; [done|].
  apply append_locked_ok in Hrun as (content & enc & v & v' & Hfc & Hv & _ & Hnl & _ & Hs & _);
    [|done..]. destruct Hs as (Hfx & Hx & _).
  assert (content = log) as -> by congruence.
  assert (p ++ q = enc ++ [newline]) as Epq.
  { apply (app_inv_head log). congruence. }
  assert (newline ∉ p) as Hnp.
  { destruct (exists_last Hq) as (q' & x & ->). rewrite (assoc_L (++)) in Epq.
    apply app_inj_tail in Epq as [<- _]. set_solver. }
  cbn zeta. eapply unverified_log_refused; [done|]. eapply partial_log_rejected; [done..|].
  apply verify_log_ok in Hx as (Hl & _). rewrite <-Epq in Hl.
  rewrite !zlen_app in *. pose proof (zlen_nonneg q). lia.
Qed.

Lemma verified_chain content v :
  verify_log L content = Ok v ->
  v_hashes v = map sha256 (record_preimages (log_events content)).
Proof. intros (_ & _ & _ & Ha)%verify_log_ok. by apply absorb_chain in Ha. Qed.

Lemma hash_position content v n hash :
  verify_log L content = Ok v -> v_hashes v !! n = Some hash ->
  exists q, record_preimages (log_events content) !! n = Some q /\ hash = sha256 q.
Proof.
  intros Hv Hh. rewrite (verified_chain _ _ Hv) in Hh.
  change (map sha256) with (fmap (M := list) sha256) in Hh. rewrite list_lookup_fmap in Hh.
  apply fmap_Some in Hh as (q & Hq & ->). eauto.
Qed.

(** C29: anchors.  Let [a] be the checkpoint a verification of the ledger
    returned.  A later verification that is given [a] as its external anchor
    succeeds only on a ledger that still begins with all the events of the
    first one, unless the records of the two ledgers exhibit, at the same
    position, two different hashed strings with the same SHA-256 digest.  So
    a rollback, a truncation or a rewritten history is detected. *)
Theorem anchor_pins_history anchor0 a c w0 w0' w w' :
  verify L anchor0 w0 = (w0', Ok a) -> verify L (Some a) w = (w', Ok c) ->
  disk_events (disk w0) `prefix_of` disk_events (disk w) \/
  collision (record_preimages (disk_events (disk w0)))
            (record_preimages (disk_events (disk w))).
Proof.
  intros (_ & content0 & v0 & Hf0 & Hv0 & Hc0 & _)%verify_ledger_ok
         (_ & content & v & Hf & Hv & _ & Hanchor)%verify_ledger_ok.
  unfold disk_events. rewrite Hf0, Hf.
  apply verified_identity in Hc0 as (_ & _ & Es & Eh & _).
  unfold verify_external_anchor, contains_head in Hanchor. checks.
  match goal with H : hash_at _ _ = Ok ?x |- _ => rename x into hash, H into Hat end.
  match goal with H : hex_encode hash = _ |- _ => rewrite Eh in H; apply hex_encode_inj in H as -> end.
  apply verify_log_ok in Hv0 as Hd0. destruct Hd0 as (_ & _ & _ & Hd0%absorb_all_describes).
  pose proof (hash_at_head _ _ Hd0) as Hat0. destruct Hd0 as [Hs0 _ _ _ _ _].
  rewrite Es in Hat. unfold hash_at in *. rewrite Hs0 in *.
  destruct (log_events content0) as [|e0 evs0] eqn:Hev0; [left; apply prefix_nil|].
  rewrite (proj2 (Z.eqb_neq _ _)) in Hat, Hat0 by (rewrite zlen_cons; pose proof (zlen_nonneg evs0); lia).
  apply ok_or_ok in Hat, Hat0.
  replace (Z.to_nat (zlen (e0 :: evs0) - 1)) with (length evs0) in * by (unfold zlen; simpl; lia).
  destruct (hash_position _ _ _ _ Hv0 Hat0) as (q0 & Hq0 & E0).
  destruct (hash_position _ _ _ _ Hv Hat) as (q & Hq & E).
  rewrite Hev0 in Hq0.
  destruct (chain_agree _ _ _ _ _ _ _ _ eq_refl Hq0 Hq ltac:(congruence)) as [[_ Ht]|Hcol];
    [left|by right].
  rewrite (take_ge (e0 :: evs0)) in Ht by (simpl; lia). rewrite Ht. apply prefix_take.
Qed.

(** Pairing.  In a ledger that verifies, intents have distinct request
    identifiers and every outcome follows the intent it answers, with the
    same operation kind, policy digest and intent digest, and is the only one
    to answer it; the count [inspect] reports is the number of intents
    without an outcome, and [verify_complete] accepts exactly when there is
    none. *)
Theorem verified_ledger_is_paired anchor w w' i :
  inspect L anchor w = (w', Ok i) ->
  let evs := disk_events (disk w) in
  paired evs /\ inspection_pending i = zlen (open_intents evs) /\
  (is_ok (verify_complete L anchor w).2 = true <-> open_intents evs = []).
Proof.
  unfold inspect. rewrite verify_internal_run. intros [= _ Hi]. pose proof Hi as Hi'.
  apply inspect_disk_ok in Hi as (content & v & Hf & Hv & _ & Hk & Ha & Hn).
  unfold disk_events. rewrite Hf. cbn zeta.
  apply verify_log_ok in Hv as Ht. destruct Ht as (_ & _ & _ & Ht%absorb_all_tracks).
  apply tracks_open in Ht as Hsize. split; [apply Ht|]. split; [unfold zlen; lia|].
  rewrite verify_complete_run. cbn [snd]. rewrite is_ok_ok. split.
  - intros (c & (i' & Hi2 & _)%rbind_ok). apply inspect_disk_ok in Hi2 as (content' & v' & Hf2 & Hv2 & He & _).
    assert (content' = content) as -> by congruence. assert (v' = v) as -> by congruence.
    rewrite He, map_size_empty in Hsize by done. by apply nil_length_inv.
  - intros E. exists (inspection_checkpoint i). apply rbind_ok. exists i. split; [|done].
    apply inspect_disk_ok. exists content, v. repeat (split; [done|]). split; [|done].
    intros _. rewrite E in Hsize. by apply map_size_empty_inv.
Qed.

Definition request_binding (e : AuditEvent) : bytes * PendingIntentBinding :=
  (request_id e, from_intent e).

Lemma pending_are_open v evs :
  tracks v evs -> map_to_list (pending_intents v) ≡ₚ map request_binding (open_intents evs).
Proof.
  intros [[Hi _ _] _ Hp]. apply NoDup_Permutation.
  - apply NoDup_map_to_list.
  - assert (NoDup (map request_id (open_intents evs))) as Hnd
      by (eapply NoDup_map_filter_impl; [|exact Hi]; by intros e []).
    revert Hnd. generalize (open_intents evs). intros l Hnd.
    apply (NoDup_fmap_1 fst). rewrite <-list_fmap_compose. exact Hnd.
  - intros [rid b]. rewrite elem_of_map_to_list, Hp.
    change (map request_binding) with (fmap (M := list) request_binding).
    rewrite list_elem_of_fmap. unfold open_intents. setoid_rewrite list_elem_of_filter.
    setoid_rewrite Forall_forall. unfold request_binding, is_intent, is_outcome. split.
    + intros (e & Hin & Hint & <- & <- & Hnoo). exists e. eauto.
    + intros (e & [= -> ->] & [Hint Hnoo] & Hin). exists e. eauto 10.
Qed.

(** Resolution.  After a successful resolution the ledger passes the
    complete verification, under the same anchor, with the returned
    checkpoint; the old events are untouched, and what was added is one
    Unknown outcome at the given time for each open intent, with that
    intent's request identifier and binding. *)
Theorem resolution_closes_open_intents at_ms anchor w w' r :
  ledger_ok L -> resolve_pending_as_unknown L at_ms anchor w = (w', Ok r) ->
  let evs := disk_events (disk w) in
  verify_complete L anchor w' = (w', Ok (resolution_checkpoint r)) /\
  resolved r = zlen (open_intents evs) /\
  exists outs, disk_events (disk w') = evs ++ outs /\
    Forall (fun o => phase o = Outcome /\ decision o = Unknown /\ at_unix_ms o = at_ms) outs /\
    map request_binding outs ≡ₚ map request_binding (open_intents evs).
Proof.
  intros HL [[_ [s ?]]|(content & v & c0 & r0 & Hat & Hs & Ha & Hu & Er)]%resolve_cases; [done|].
  symmetry in Er. apply rbind_ok in Er as (c & -> & [= <-]). cbn zeta.
  cbn [resolution_checkpoint resolved].
  pose proof Hs as (Hf & Hv & Hk). apply verify_log_ok in Hv as Ht.
  destruct Ht as (_ & _ & Hadm & Ht%absorb_all_tracks).
  destruct (append_unknowns_ok L _ _ _ _ _ _ _ _ HL Hat (pending_sorted_ok L _ _ Ht Hadm) Hs
    (pending_sorted_nodup v) (eq_sym (pending_sorted_map v)) Hu)
    as (content' & v' & (Hf' & Hv' & Hk') & Hp & Hev & Hh).
  unfold disk_events. rewrite Hf, Hf'. split; [|split].
  - rewrite verify_complete_run. f_equal. apply rbind_ok.
    exists {| inspection_pending := Z.of_nat (size (pending_intents v')); inspection_checkpoint := c |}.
    split; [|done]. apply inspect_disk_ok. exists content', v'. repeat (split; [done|]).
    split; [|done]. destruct anchor as [a|]; [|done]. unfold verify_external_anchor in Ha. checks.
    eapply anchor_accepted; [exact Hk'|done|]. by apply Hh.
  - unfold zlen. f_equal. rewrite pending_sorted_perm, (pending_are_open _ _ Ht). apply length_map.
  - eexists. split; [exact Hev|]. split.
    + apply Forall_forall. intros o. rewrite list_elem_of_In, in_map_iff.
      by intros ([rid b] & <- & _).
    + rewrite map_map. rewrite <-(pending_are_open _ _ Ht), <-pending_sorted_perm.
      apply Permutation_refl'. transitivity (map id (pending_sorted v)); [|apply map_id].
      apply map_ext. by intros [rid [k po it]].
Qed.

(** ** Initialization of a generation *)

(** A locked append does not depend on the states before it. *)
Lemma append_mode_history create_new e d h1 h2 w1 c :
  ledger_ok L -> admissible L e ->
  append_locked_with_checkpoint_mode L e create_new (on d h1) = (w1, Ok c) ->
  exists w2, append_locked_with_checkpoint_mode L e create_new (on d h2) = (w2, Ok c) /\
    disk w2 = disk w1.
Proof.
  intros HL Hadm Hrun. destruct (append_locked_cases L create_new e (on d h1) HL Hadm)
    as [[s E]|(? & ? & ? & ? & ? & ? & _ & _ & _ & _ & _ & _ & _ & _ & _ & _ & _ & E)];
    [by rewrite E in Hrun|].
  unfold on in *. cbn [disk] in *. rewrite (E h1) in Hrun. simplify_eq. eexists. split; [apply (E h2)|done].
Qed.

Definition no_files : Disk := {| log_file := None; checkpoint_file := None |}.

Definition set_at (at_ms : Z) (e : AuditEvent) : AuditEvent :=
  {| event_profile_id := event_profile_id e; event_generation := event_generation e;
     request_id := request_id e; at_unix_ms := at_ms; operation_kind := operation_kind e;
     phase := phase e; decision := decision e; policy_digest := policy_digest e;
     intent_digest := intent_digest e; result_digest := result_digest e;
     reason_code := reason_code e |}.

Lemma transition_event_ok pred old new at_ms e :
  generation_transition_event L pred old new at_ms = Ok e ->
  phase e = Administrative /\
  forall at_ms', generation_transition_event L pred old new at_ms' = Ok (set_at at_ms' e).
Proof.
  unfold generation_transition_event. intros (b & Hb & [= <-])%rbind_ok. split; [done|].
  intros at_ms'. by rewrite Hb.
Qed.

Lemma event_matches_set_at at_ms e : ensure_generation_event_matches e (set_at at_ms e) = Ok tt.
Proof.
  unfold ensure_generation_event_matches, set_at. cbn. rewrite ensure_pass; [done|].
  apply bool_decide_true. by destruct e.
Qed.

(** The dispatch on the files that exist. *)
Definition dispatch (e : AuditEvent) : io AuditCheckpoint :=
  let! d := get_disk in
  match is_some (log_file d), is_some (checkpoint_file d) with
  | false, false => initialize_create_new L e
  | true, true => verify_single_generation_event L e
  | true, false => resume_generation_initialization L e
  | false, true =>
      io_lift (Err "audit generation checkpoint exists without its authenticated log")
  end.

Lemma initialize_dispatch pred old new at_ms e :
  0 < at_ms -> validate_transition_name old "old profile name" = Ok tt ->
  validate_transition_name new "new profile name" = Ok tt ->
  generation_transition_event L pred old new at_ms = Ok e ->
  forall w, initialize_generation L pred old new at_ms w = dispatch e w.
Proof.
  intros Hat Ho Hn He w. unfold initialize_generation. rewrite io_bind_lift.
  rewrite (proj2 (Z.ltb_lt _ _) Hat). cbn [ensure].
  by rewrite io_bind_lift, Ho, io_bind_lift, Hn, io_bind_lift, He.
Qed.

Lemma initialize_ok pred old new at_ms w w' c :
  initialize_generation L pred old new at_ms w = (w', Ok c) ->
  0 < at_ms /\ validate_transition_name old "old profile name" = Ok tt /\
  validate_transition_name new "new profile name" = Ok tt /\
  exists e, generation_transition_event L pred old new at_ms = Ok e /\ dispatch e w = (w', Ok c).
Proof.
  intros Hrun. pose proof Hrun as Hrun'. unfold initialize_generation in Hrun'.
  apply io_bind_ok in Hrun' as (w1 & [] & [-> Hat%ensure_ok%Z.ltb_lt]%io_lift_ok & Hrun').
  apply io_bind_ok in Hrun' as (w2 & [] & [-> Ho]%io_lift_ok & Hrun').
  apply io_bind_ok in Hrun' as (w3 & [] & [-> Hn]%io_lift_ok & Hrun').
  apply io_bind_ok in Hrun' as (w4 & e & [-> He]%io_lift_ok & Hrun'). eauto 10.
Qed.

(** The log of one administrative record. *)
Definition single (e : AuditEvent) (log : bytes) (v : VerifiedLog) (c : AuditCheckpoint)
    (bs : bytes) : Prop :=
  verify_log L log = Ok v /\ v_sequence v = 1 /\ pending_intents v = ∅ /\
  first_event v = Some e /\ log_events log = [e] /\
  make_checkpoint L (v_sequence v) (v_record_hash v) = Ok c /\ to_vec c = Some bs /\
  check_checkpoint L v false (Some bs) = Ok c.

Lemma create_new_run e h :
  initialize_create_new L e (on no_files h) =
  match event_validate e with
  | Err s => (on no_files h, Err s)
  | Ok _ =>
      if same_identity L (event_profile_id e) (event_generation e) then
        append_locked_with_checkpoint_mode L e true
          (on {| log_file := Some []; checkpoint_file := None |} (no_files :: h))
      else (on no_files h, Err "audit initialization event profile identity mismatch")
  end.
Proof.
  unfold initialize_create_new. rewrite io_bind_lift. destruct (event_validate e); [|done].
  rewrite io_bind_lift. by destruct (same_identity _ _ _).
Qed.

Lemma create_new_ok e h w c :
  ledger_ok L -> phase e = Administrative -> dispatch e (on no_files h) = (w, Ok c) ->
  admissible L e /\
  append_locked_with_checkpoint_mode L e true
    (on {| log_file := Some []; checkpoint_file := None |} (no_files :: h)) = (w, Ok c) /\
  exists log v bs, single e log v c bs /\
    disk w = {| log_file := Some log; checkpoint_file := Some bs |} /\
    history w = [ {| log_file := Some log; checkpoint_file := Some [] |};
                  {| log_file := Some log; checkpoint_file := None |};
                  {| log_file := Some []; checkpoint_file := None |}; no_files ] ++ h.
Proof.
  intros HL Hph Hrun.
  change (initialize_create_new L e (on no_files h) = (w, Ok c)) in Hrun.
  rewrite create_new_run in Hrun.
  destruct (event_validate e) as [[]|] eqn:Hval; [|done].
  destruct (same_identity _ _ _) eqn:Hid; [|done].
  assert (admissible L e) as Hadm by done. split; [done|]. split; [exact Hrun|].
  match type of Hrun with append_locked_with_checkpoint_mode _ _ _ ?w = _ =>
    destruct (append_locked_cases L true e w HL Hadm)
    as [[s E]|(content & enc & v & v' & c' & bs & Hf & _ & _ & Hv & Hm & Ha & Hx & Hev & Hc & Hb & Hl & E)]
  end; [by rewrite E in Hrun|].
  unfold on in *. cbn [disk] in *. rewrite E in Hrun. injection Hf as <-. injection Hv as <-.
  injection Hrun as <- <-. exists ([] ++ enc ++ [newline]), v', bs. split; [|done].
  apply verify_log_ok in Hx as Hd. destruct Hd as (_ & _ & _ & Hd%absorb_all_describes).
  apply absorb_ok in Ha as (Es & _ & _ & _ & Ht & Ef). unfold track_intents in Ht.
  rewrite Hph in Ht. injection Ht as _ Ep.
  repeat (split; [done|]). by eapply check_own_checkpoint.
Qed.

Lemma resume_empty e h :
  resume_generation_initialization L e
    (on {| log_file := Some []; checkpoint_file := None |} h) =
  append_locked_with_checkpoint_mode L e true
    (on {| log_file := Some []; checkpoint_file := None |} h).
Proof. done. Qed.

Lemma resume_single e e' log v c bs h :
  single e log v c bs -> ensure_generation_event_matches e e' = Ok tt ->
  exists w, resume_generation_initialization L e'
    (on {| log_file := Some log; checkpoint_file := None |} h) = (w, Ok c) /\
    disk w = {| log_file := Some log; checkpoint_file := Some bs |}.
Proof.
  intros (Hv & Hs & Hp & Hf & _ & Hc & Hb & _) Hm.
  unfold resume_generation_initialization. unfold io_bind at 1. rewrite open_log_run.
  cbn [on disk log_file ok_or]. rewrite io_bind_lift, Hv, Hs, Hp, Hf. cbn [Z.eqb].
  rewrite io_bind_lift, bool_decide_true by done. cbn [andb ensure].
  rewrite io_bind_lift. cbn [ok_or]. rewrite io_bind_lift, Hm, io_bind_lift.
  rewrite Hs in Hc. rewrite Hc. unfold persist_checkpoint_create_new, io_bind, io_lift.
  rewrite Hb. by eexists.
Qed.

Lemma verify_single_ok e e' log v c bs h :
  single e log v c bs -> ensure_generation_event_matches e e' = Ok tt ->
  let w := on {| log_file := Some log; checkpoint_file := Some bs |} h in
  verify_single_generation_event L e' w = (w, Ok c).
Proof.
  intros (Hv & Hs & Hp & Hf & _ & _ & _ & Hk) Hm w.
  unfold verify_single_generation_event. unfold io_bind at 1. rewrite open_log_run.
  cbn [w on disk log_file ok_or]. rewrite io_bind_lift, Hv, io_bind_lift, Hs, Hp.
  rewrite bool_decide_true by done. cbn [Z.eqb Pos.eqb andb ensure].
  unfold io_bind at 1. rewrite check_checkpoint_run.
  change (checkpoint_file (disk w)) with (Some bs). rewrite Hk.
  rewrite io_bind_lift, Hf. cbn [ok_or]. by rewrite io_bind_lift, Hm.
Qed.

Lemma verify_single_empty_checkpoint e' log h :
  let w := on {| log_file := Some log; checkpoint_file := Some [] |} h in
  exists s, verify_single_generation_event L e' w = (w, Err s).
Proof.
  intros w. unfold verify_single_generation_event. unfold io_bind at 1. rewrite open_log_run.
  cbn [w on disk log_file ok_or]. rewrite io_bind_lift.
  destruct (verify_log L log) as [v|]; [|by eexists].
  rewrite io_bind_lift. destruct (ensure _ _); [|by eexists].
  unfold io_bind at 1. rewrite check_checkpoint_run.
  change (checkpoint_file (disk w)) with (Some (@nil byte)). unfold check_checkpoint, parse_checkpoint, read_bounded_file. rewrite ensure_pass by done.
  cbn [rbind]. rewrite checkpoint_json_empty. by eexists.
Qed.

(** Initialization.  When the first initialization of a generation
    returns, the ledger holds exactly the transition event and verifies
    completely.  Initializing again, at any time, changes nothing and returns
    the same checkpoint.  If instead a crash cut the initialization off
    before the checkpoint file existed, repeating it ends in the same two
    files and the same checkpoint; a checkpoint file left empty is refused. *)
Theorem generation_initialization_resumes pred old new at_ms w c :
  ledger_ok L ->
  initialize_generation L pred old new at_ms (on no_files []) = (w, Ok c) ->
  verify_complete L None w = (w, Ok c) /\
  (exists e, generation_transition_event L pred old new at_ms = Ok e /\
             disk_events (disk w) = [e]) /\
  (forall at_ms' h, 0 < at_ms' ->
     initialize_generation L pred old new at_ms' (on (disk w) h) = (on (disk w) h, Ok c)) /\
  (forall d h, d ∈ history w -> checkpoint_file d = None -> exists w',
     initialize_generation L pred old new at_ms (on d h) = (w', Ok c) /\ disk w' = disk w) /\
  (forall d h, d ∈ history w -> checkpoint_file d <> None -> exists s,
     initialize_generation L pred old new at_ms (on d h) = (on d h, Err s)).
Proof.
  intros HL (Hat & Ho & Hn & e & He & Hrun)%initialize_ok.
  pose proof (transition_event_ok _ _ _ _ _ He) as [Hph Hre].
  destruct (create_new_ok _ _ _ _ HL Hph Hrun) as (Hadm & Happ & log & v & bs & Hsingle & Hd & Hh).
  pose proof (event_matches_set_at at_ms e) as Hself.
  assert (set_at at_ms e = e) as Eself by (specialize (Hre at_ms); congruence).
  rewrite Eself in Hself. rewrite Hd. pose proof (initialize_dispatch _ _ _ _ _ Hat Ho Hn He) as Hdisp.
  split; [|split; [|split; [|split]]].
  - destruct Hsingle as (Hv & _ & Hp & _ & _ & _ & _ & Hk).
    rewrite verify_complete_run, Hd. f_equal. apply rbind_ok.
    exists {| inspection_pending := Z.of_nat (size (pending_intents v)); inspection_checkpoint := c |}.
    split; [|done]. apply inspect_disk_ok. by exists log, v.
  - exists e. split; [done|]. apply Hsingle.
  - intros at_ms' h Hat'. rewrite (initialize_dispatch _ _ _ _ _ Hat' Ho Hn (Hre at_ms')).
    apply (verify_single_ok e _ _ _ _ _ h Hsingle), event_matches_set_at.
  - intros d h Hin Hnone. rewrite Hh in Hin. rewrite Hdisp.
    rewrite !elem_of_app, !elem_of_cons in Hin.
    destruct Hin as [[->|[->|[->|[->|?%elem_of_nil]]]]|?%elem_of_nil]; try done.
    + exact (resume_single e e log v c bs h Hsingle Hself).
    + destruct (append_mode_history _ _ _ _ h _ _ HL Hadm Happ) as (w2 & Hw2 & Ed).
      exists w2. split; [|by rewrite Ed, Hd]. rewrite <-Hw2. apply resume_empty.
    + change (dispatch e (on no_files h)) with (initialize_create_new L e (on no_files h)).
      rewrite create_new_run. destruct Hadm as [Hval Hid]. rewrite Hval, Hid.
      destruct (append_mode_history _ _ _ _ (no_files :: h) _ _ HL (conj Hval Hid) Happ)
        as (w2 & Hw2 & Ed).
      exists w2. by rewrite Ed, Hd.
  - intros d h Hin Hsome. rewrite Hh in Hin. rewrite Hdisp.
    rewrite !elem_of_app, !elem_of_cons in Hin.
    destruct Hin as [[->|[->|[->|[->|?%elem_of_nil]]]]|?%elem_of_nil]; try done.
    apply verify_single_empty_checkpoint.
Qed.

Lemma rs_inj a b : rs a = rs b -> a = b.
Proof.
  unfold rs. intros E. apply (f_equal String.string_of_list_byte) in E.
  by rewrite !String.string_of_list_byte_of_string in E.
Qed.

Lemma pretty_N_go_no_dot x s : ("."%byte : byte) ∉ rs s -> "."%byte ∉ rs (pretty_N_go x s).
Proof.
  revert s; induction (N.lt_wf_0 x) as [x _ IH]; intros s Hs.
  assert (x = 0 \/ 0 < x)%N as [->|Hx] by lia; [by rewrite pretty_N_go_0|].
  rewrite pretty_N_go_step by done. apply IH; [apply N.div_lt; lia|].
  change (rs (String.String ?a s)) with (Ascii.byte_of_ascii a :: rs s).
  rewrite not_elem_of_cons. split; [|done]. unfold pretty_N_char. by repeat case_match.
Qed.

Lemma pretty_no_dot z : 0 < z -> ("."%byte : byte) ∉ rs (pretty z).
Proof.
  intros Hz. destruct z as [|p|p]; [lia| |lia]. change (pretty (Z.pos p)) with (pretty_N_go (N.pos p) EmptyString).
  apply pretty_N_go_no_dot. unfold rs. simpl. set_solver.
Qed.

(** The identity and the extension, from a file name. *)
Lemma file_name_inj L1 L2 x1 x2 :
  ledger_ok L1 -> ledger_ok L2 ->
  rs "audit-" ++ stem L1 ++ "."%byte :: x1 = rs "audit-" ++ stem L2 ++ "."%byte :: x2 ->
  profile_id L1 = profile_id L2 /\ profile_generation L1 = profile_generation L2 /\ x1 = x2.
Proof.
  intros [Hp1 Hg1] [Hp2 Hg2] E. apply app_inv_head in E. unfold stem in E.
  rewrite <-!(assoc_L (++)) in E. apply app_inv_length in E as [Hid E].
  2: { by rewrite !hex_encode_length, Hp1, Hp2. }
  apply hex_encode_inj in Hid. apply app_inv_head in E.
  apply app_sep_inj in E as [Eg Ex]; [|apply pretty_no_dot; lia|apply pretty_no_dot; lia].
  apply rs_inj, (inj pretty) in Eg. done.
Qed.

Definition same_generation (L1 L2 : AuditLedger) : Prop :=
  profile_id L1 = profile_id L2 /\ profile_generation L1 = profile_generation L2.

(** Two ledgers share a file only if they are ledgers of the same profile
    and generation, and the log and the checkpoint are different files. *)
Theorem ledger_files_disjoint L1 L2 :
  ledger_ok L1 -> ledger_ok L2 ->
  (log_path L1 = log_path L2 \/ checkpoint_path L1 = checkpoint_path L2 <->
   same_generation L1 L2) /\
  log_path L1 <> checkpoint_path L2.
Proof.
  intros H1' H2'. unfold same_generation. split; [split|].
  - intros [E|E]; apply file_name_inj in E; naive_solver.
  - intros [Ei Eg]. left. unfold log_path, stem. by rewrite Ei, Eg.
  - intros E. by apply file_name_inj in E as (_ & _ & E).
Qed.

End properties.

(** ** Runs on concrete ledgers *)
Module LedgerRuns.
Import StandIn.

Definition u64b (v : Z) : bool := in_range 0 U64_MAX v.
Definition u16b (v : Z) : bool := in_range 0 U16_MAX v.

Lemma of_be_be64 v : u64b v = true -> of_be (be64 v) = v.
Proof.
  unfold u64b. rewrite in_range_true. intros Hv. apply of_be_be_bytes_small.
  unfold U64_MAX in Hv. change (2 ^ (8 * Z.of_nat 8)) with (2 ^ 64). lia.
Qed.
Lemma of_be_be16 v : u16b v = true -> of_be (be16 v) = v.
Proof.
  unfold u16b. rewrite in_range_true. intros Hv. apply of_be_be_bytes_small.
  unfold U16_MAX in Hv. change (2 ^ (8 * Z.of_nat 2)) with (2 ^ 16). lia.
Qed.

Definition phase_tag (p : AuditPhase) : bytes :=
  match p with Intent => [x00] | Outcome => [x01] | Administrative => [x02] end.
Definition decision_tag (d : AuditDecision) : bytes :=
  match d with
  | Pending => [x00] | Allowed => [x01] | Denied => [x02]
  | Succeeded => [x03] | Failed => [x04] | Unknown => [x05]
  end.
Definition of_phase_tag (t : bytes) : AuditPhase :=
  match t with [x00] => Intent | [x01] => Outcome | _ => Administrative end.
Definition of_decision_tag (t : bytes) : AuditDecision :=
  match t with
  | [x00] => Pending | [x01] => Allowed | [x02] => Denied
  | [x03] => Succeeded | [x04] => Failed | _ => Unknown
  end.
Definition option_tag (o : option str) : bytes :=
  match o with None => [] | Some s => x01 :: s end.
Definition of_option_tag (t : bytes) : option str :=
  match t with [] => None | _ :: s => Some s end.

Definition event_fields (e : AuditEvent) : list bytes :=
  [event_profile_id e; be64 (event_generation e); request_id e; be64 (at_unix_ms e);
   operation_kind e; phase_tag (phase e); decision_tag (decision e); policy_digest e;
   intent_digest e; option_tag (result_digest e); reason_code e].
Definition of_event_fields (fs : list bytes) : option AuditEvent :=
  match fs with
  | [a; b; c; d; e; f; g; h; i; j; k] =>
      Some {| event_profile_id := a; event_generation := of_be b; request_id := c;
              at_unix_ms := of_be d; operation_kind := e; phase := of_phase_tag f;
              decision := of_decision_tag g; policy_digest := h; intent_digest := i;
              result_digest := of_option_tag j; reason_code := k |}
  | _ => None
  end.
Definition event_serializable (e : AuditEvent) : bool :=
  u64b (event_generation e) && u64b (at_unix_ms e).

Lemma of_event_fields_ok e :
  event_serializable e = true -> of_event_fields (event_fields e) = Some e.
Proof.
  unfold event_serializable. rewrite andb_true_iff. intros [Hg Ha].
  unfold of_event_fields, event_fields. rewrite !of_be_be64 by done. destruct e as [a b c d k p q h i j r]; cbn.
  by destruct p, q, j.
Qed.

Definition record_fields (r : AuditRecord) : list bytes :=
  be16 (rec_schema_version r) :: be64 (rec_sequence r) :: previous_hash r :: rec_hash r
  :: record_mac_field r :: event_fields (rec_event r).
Definition of_record_fields (fs : list bytes) : option AuditRecord :=
  match fs with
  | a :: b :: c :: d :: e :: rest =>
      (fun ev => {| rec_schema_version := of_be a; rec_sequence := of_be b; previous_hash := c;
                    rec_event := ev; rec_hash := d; record_mac_field := e |})
      <$> of_event_fields rest
  | _ => None
  end.
Definition record_serializable (r : AuditRecord) : bool :=
  u16b (rec_schema_version r) && u64b (rec_sequence r) && event_serializable (rec_event r).

Lemma of_record_fields_ok r :
  record_serializable r = true -> of_record_fields (record_fields r) = Some r.
Proof.
  unfold record_serializable. rewrite !andb_true_iff. intros [[Hv Hs] He].
  unfold of_record_fields, record_fields. rewrite of_event_fields_ok by done. cbn [fmap option_fmap option_map].
  rewrite of_be_be16, of_be_be64 by done. by destruct r.
Qed.

Definition checkpoint_fields (c : AuditCheckpoint) : list bytes :=
  [be16 (cp_schema_version c); cp_profile_id c; be64 (cp_generation c); be64 (cp_sequence c);
   cp_record_hash c; cp_mac c].
Definition of_checkpoint_fields (fs : list bytes) : option AuditCheckpoint :=
  match fs with
  | [a; b; c; d; e; f] =>
      Some {| cp_schema_version := of_be a; cp_profile_id := b; cp_generation := of_be c;
              cp_sequence := of_be d; cp_record_hash := e; cp_mac := f |}
  | _ => None
  end.
Definition checkpoint_serializable (c : AuditCheckpoint) : bool :=
  u16b (cp_schema_version c) && u64b (cp_generation c) && u64b (cp_sequence c).

Lemma of_checkpoint_fields_ok c :
  checkpoint_serializable c = true -> of_checkpoint_fields (checkpoint_fields c) = Some c.
Proof.
  unfold checkpoint_serializable. rewrite !andb_true_iff. intros [[Hv Hg] Hs].
  unfold of_checkpoint_fields, checkpoint_fields. rewrite of_be_be16, !of_be_be64 by done. by destruct c.
Qed.

#[export] Instance event_json : Json AuditEvent :=
  fields_json event_fields of_event_fields event_serializable.
#[export] Instance record_json : Json AuditRecord :=
  fields_json record_fields of_record_fields record_serializable.
#[export] Instance checkpoint_json : Json AuditCheckpoint :=
  fields_json checkpoint_fields of_checkpoint_fields checkpoint_serializable.
#[export] Instance unsigned_json : JsonSer UnsignedCheckpoint := fun u =>
  Some (join_with ";"%byte (map hex_encode
    [be16 (un_schema_version u); un_profile_id u; be64 (un_generation u);
     be64 (un_sequence u); un_record_hash u])).
#[export] Instance mac_input_json : JsonSer MacInput := fun m =>
  let '(v, s, p, e, h) := m in
  Some (join_with ";"%byte (map hex_encode ([be16 v; be64 s; p; h] ++ event_fields e))).

#[export] Instance event_json_laws : JsonLaws AuditEvent.
Proof. apply fields_json_laws; [apply of_event_fields_ok|]. intros e. cbn. lia. Qed.
#[export] Instance record_json_laws : JsonLaws AuditRecord.
Proof. apply fields_json_laws; [apply of_record_fields_ok|]. intros e. cbn. lia. Qed.
#[export] Instance record_json_line_laws : JsonLineLaws AuditRecord.
Proof. apply fields_json_line_laws; [apply of_record_fields_ok|]. intros e. cbn. lia. Qed.
#[export] Instance checkpoint_json_laws : JsonLaws AuditCheckpoint.
Proof. apply fields_json_laws; [apply of_checkpoint_fields_ok|]. intros e. cbn. lia. Qed.
#[export] Instance checkpoint_total : CheckpointJsonLaws.
Proof.
  split.
  - intros u _ _ _ _ _. by eexists.
  - intros c Hv Hg Hs _ _ _. eexists. split.
    + unfold to_vec, checkpoint_json, fields_json, fields_to_vec.
      replace (checkpoint_serializable c) with true; [done|]. symmetry.
      unfold checkpoint_serializable, u16b, u64b. rewrite !andb_true_iff, !in_range_true. done.
    + etrans; [apply zlen_fields|]. unfold checkpoint_fields. cbn [fold_right].
      unfold be16, be64. rewrite !zlen_be_bytes.
      pose proof (zlen_nonneg (cp_profile_id c)). pose proof (zlen_nonneg (cp_record_hash c)).
      pose proof (zlen_nonneg (cp_mac c)). lia.
  - reflexivity.
Qed.

Definition ledger : AuditLedger :=
  {| profile_id := replicate 16 x01; profile_generation := 1; key := replicate 32 x07 |}.

Lemma ledger_is_ok : ledger_ok ledger.
Proof. split; [done|]. by vm_compute. Qed.

Definition digest : str := hex_encode (replicate 32 x2a).
Definition event (p : AuditPhase) (d : AuditDecision) (rid : byte) (res : option str) : AuditEvent :=
  {| event_profile_id := hex_encode (profile_id ledger); event_generation := 1;
     request_id := replicate 16 rid; at_unix_ms := 1000; operation_kind := rs "process.run";
     phase := p; decision := d; policy_digest := digest; intent_digest := digest;
     result_digest := res; reason_code := rs "requested" |}.

Definition ok_of {A} (r : result string A) : option A :=
  match r with Ok a => Some a | Err _ => None end.
Definition head_of (w : World) : AuditCheckpoint :=
  match ok_of (verify ledger None w).2 with
  | Some c => c
  | None => {| cp_schema_version := 0; cp_profile_id := []; cp_generation := 0; cp_sequence := 0;
               cp_record_hash := []; cp_mac := [] |}
  end.

(** The states as literals, so that every run below starts from data. *)
Definition fresh : World := Eval vm_compute in
  (initialize_generation ledger None (rs "lab") (rs "lab") 900 (on no_files [])).1.
Definition fresh_disk : Disk := Eval vm_compute in disk fresh.
Definition fresh_head : AuditCheckpoint := Eval vm_compute in head_of fresh.
Definition asked_world : World :=
  Eval vm_compute in (append ledger (event Intent Pending x01 None) (on fresh_disk [])).1.
Definition asked_head : AuditCheckpoint := Eval vm_compute in head_of asked_world.

(** The log is one record ahead of the checkpoint. *)
Definition crashed : Disk :=
  {| log_file := log_file (disk asked_world); checkpoint_file := checkpoint_file fresh_disk |}.

Lemma fresh_verifies : verify ledger None (on fresh_disk []) = (on fresh_disk [], Ok fresh_head).
Proof. vm_compute. reflexivity. Qed.

Lemma asked_run :
  append ledger (event Intent Pending x01 None) (on fresh_disk []) = (asked_world, Ok asked_head).
Proof. vm_compute. reflexivity. Qed.

Lemma crash_reached : rtc (crash_step ledger) (disk (on fresh_disk [])) crashed.
Proof.
  apply rtc_once. eapply crash_append; [exact asked_run|].
  apply list_elem_of_further, list_elem_of_here.
Qed.

Lemma ledger_survives_crashes_witness :
  exists w c, reconcile ledger (on crashed []) = (w, Ok c) /\
    verify ledger (Some fresh_head) w = (w, Ok c) /\ log_file (disk w) = log_file crashed /\
    disk_events fresh_disk `prefix_of` disk_events crashed /\
    cp_sequence c = zlen (disk_events crashed).
Proof.
  exact (ledger_survives_crashes ledger (on fresh_disk []) fresh_head crashed []
           ledger_is_ok fresh_verifies crash_reached).
Defined.

Lemma append_extends_log_witness :
  event_validate (event Intent Pending x01 None) = Ok tt /\
  (exists log line, log_file fresh_disk = Some log /\
     log_file (disk asked_world) = Some (log ++ line)) /\
  disk_events (disk asked_world) = disk_events fresh_disk ++ [event Intent Pending x01 None] /\
  cp_sequence asked_head = zlen (disk_events (disk asked_world)) /\
  verify ledger None asked_world = (asked_world, Ok asked_head).
Proof.
  exact (append_extends_log ledger (event Intent Pending x01 None) (on fresh_disk [])
           asked_world (Ok asked_head) ledger_is_ok asked_run).
Defined.

Definition fresh_log : bytes := Eval vm_compute in default [] (log_file fresh_disk).
Definition asked_line : bytes := Eval vm_compute in
  drop (length fresh_log) (default [] (log_file (disk asked_world))).

(** A crash after ten bytes of the new line. *)
Definition torn : World :=
  on {| log_file := Some (fresh_log ++ take 10 asked_line);
        checkpoint_file := checkpoint_file fresh_disk |} [].

Lemma torn_append_rejected_witness :
  reconcile ledger torn = (torn, Err "audit log ends with a partial record") /\
  verify ledger None torn = (torn, Err "audit log ends with a partial record").
Proof.
  assert (log_file (disk asked_world) =
          Some (fresh_log ++ take 10 asked_line ++ drop 10 asked_line)) as Hsplit
    by (vm_compute; reflexivity).
  destruct (torn_append_rejected ledger _ _ _ _ fresh_log (take 10 asked_line)
    (drop 10 asked_line) (checkpoint_file fresh_disk) [] ledger_is_ok asked_run
    eq_refl Hsplit ltac:(discriminate) ltac:(discriminate)) as (Hr & Hv & _).
  exact (conj Hr (Hv None)).
Defined.

Lemma asked_accepts_fresh :
  verify ledger (Some fresh_head) asked_world = (asked_world, Ok asked_head).
Proof. vm_compute. reflexivity. Qed.

Lemma anchor_pins_history_witness :
  disk_events fresh_disk `prefix_of` disk_events (disk asked_world) \/
  collision (record_preimages (disk_events fresh_disk))
            (record_preimages (disk_events (disk asked_world))).
Proof.
  exact (anchor_pins_history ledger None fresh_head asked_head (on fresh_disk [])
           (on fresh_disk []) asked_world asked_world fresh_verifies asked_accepts_fresh).
Defined.

(** A second intent, and the outcome of the first. *)
Definition asked_twice : World := Eval vm_compute in
  (append ledger (event Intent Pending x02 None) (on (disk asked_world) [])).1.
Definition answered : World := Eval vm_compute in
  on (disk (append ledger (event Outcome Succeeded x01 (Some digest))
              (on (disk asked_twice) [])).1) [].
Definition answered_head : AuditCheckpoint := Eval vm_compute in head_of answered.

Lemma answered_inspection :
  inspect ledger (Some fresh_head) answered =
    (answered, Ok {| inspection_pending := 1; inspection_checkpoint := answered_head |}).
Proof. vm_compute. reflexivity. Qed.

Lemma verified_ledger_is_paired_witness :
  paired (disk_events (disk answered)) /\ 1 = zlen (open_intents (disk_events (disk answered))) /\
  (is_ok (verify_complete ledger (Some fresh_head) answered).2 = true <->
   open_intents (disk_events (disk answered)) = []).
Proof.
  exact (verified_ledger_is_paired ledger (Some fresh_head) answered answered _
           answered_inspection).
Defined.

Definition resolution : World * result string PendingResolution := Eval vm_compute in
  resolve_pending_as_unknown ledger 2000 (Some fresh_head) answered.
Definition resolution_world : World := Eval vm_compute in resolution.1.
Definition resolution_value : PendingResolution := Eval vm_compute in
  match resolution.2 with
  | Ok r => r
  | Err _ => {| resolved := 0; resolution_checkpoint := answered_head |}
  end.

Lemma resolution_run :
  resolve_pending_as_unknown ledger 2000 (Some fresh_head) answered =
    (resolution_world, Ok resolution_value).
Proof. vm_compute. reflexivity. Qed.

Lemma resolution_closes_open_intents_witness :
  verify_complete ledger (Some fresh_head) resolution_world =
    (resolution_world, Ok (resolution_checkpoint resolution_value)) /\
  resolved resolution_value = zlen (open_intents (disk_events (disk answered))) /\
  exists outs, disk_events (disk resolution_world) = disk_events (disk answered) ++ outs /\
    Forall (fun o => phase o = Outcome /\ decision o = Unknown /\ at_unix_ms o = 2000) outs /\
    map request_binding outs ≡ₚ
      map request_binding (open_intents (disk_events (disk answered))).
Proof.
  exact (resolution_closes_open_intents ledger 2000 (Some fresh_head) answered resolution_world
           resolution_value ledger_is_ok resolution_run).
Defined.

Lemma fresh_run :
  initialize_generation ledger None (rs "lab") (rs "lab") 900 (on no_files []) =
    (fresh, Ok fresh_head).
Proof. vm_compute. reflexivity. Qed.

Lemma generation_initialization_resumes_witness :
  verify_complete ledger None fresh = (fresh, Ok fresh_head) /\
  initialize_generation ledger None (rs "lab") (rs "lab") 901 (on (disk fresh) []) =
    (on (disk fresh) [], Ok fresh_head).
Proof.
  destruct (generation_initialization_resumes ledger None (rs "lab") (rs "lab") 900 fresh
    fresh_head ledger_is_ok fresh_run) as (Hv & _ & Hi & _).
  exact (conj Hv (Hi 901 [] ltac:(lia))).
Defined.

Lemma ledger_files_disjoint_witness :
  (log_path ledger = log_path ledger \/ checkpoint_path ledger = checkpoint_path ledger <->
   same_generation ledger ledger) /\
  log_path ledger <> checkpoint_path ledger.
Proof. exact (ledger_files_disjoint ledger ledger ledger_is_ok ledger_is_ok). Defined.

End LedgerRuns.
