(* ===== verification/Async.v ===== *)
(** * Effects and byte streams

    The IPC code of crates/serctl_protocol is generic over a transport
    [S: AsyncRead + AsyncWrite].  An operation on [&mut self] that may fail is
    a function to the state it leaves behind and its result, so that what a
    failed operation leaves in the state stays visible.  A transport is an
    instance of [AsyncStream]; what a caller may rely on is [StreamLaws], in
    terms of the bytes written to it and the bytes it is going to deliver.
    [wire] is the transport that never fails on its own. *)

From S2P Require Import Prelude.
From S2P Require Import Bytes.
#[local] Open Scope string_scope.
#[local] Open Scope list_scope.
#[local] Open Scope Z_scope.

(** ** Fallible operations on a state *)

Definition eff (S E A : Type) : Type := S -> S * result E A.

Definition eret {S E A} (a : A) : eff S E A := fun s => (s, Ok a).
Definition efail {S E A} (e : E) : eff S E A := fun s => (s, Err e).
Definition ebind {S E A B} (p : eff S E A) (k : A -> eff S E B) : eff S E B :=
  fun s => match p s with
           | (s', Ok a) => k a s'
           | (s', Err e) => (s', Err e)
           end.
Definition elift {S E A} (r : result E A) : eff S E A := fun s => (s, r).
Definition eget {S E A} (f : S -> A) : eff S E A := fun s => (s, Ok (f s)).
Definition emodify {S E} (f : S -> S) : eff S E unit := fun s => (f s, Ok tt).

(** An operation on a field of the state. *)
Definition zoom {T S E A} (field : T -> S) (update : S -> T -> T) (p : eff S E A)
  : eff T E A :=
  fun t => let (s', r) := p (field t) in (update s' t, r).

(** [map_err] on the outcome of an operation. *)
Definition emap_err {S E F A} (f : E -> F) (p : eff S E A) : eff S F A :=
  fun s => let (s', r) := p s in (s', map_err f r).

Declare Scope eff_scope.
Delimit Scope eff_scope with eff.
#[global] Open Scope eff_scope.

Notation "'let~' x ':=' p 'in' k" := (ebind p (fun x => k))
  (at level 10, x pattern, p at level 200, k at level 200) : eff_scope.
Notation "'run~' p ;; k" := (ebind p (fun _ => k))
  (at level 10, p at level 99, k at level 200) : eff_scope.
Notation "'ensure~' b 'or' e ;; k" := (ebind (elift (ensure b e)) (fun _ => k))
  (at level 10, b at level 99, e at level 99, k at level 200) : eff_scope.

Lemma ebind_ok {S E A B} (p : eff S E A) (k : A -> eff S E B) s s' b :
  ebind p k s = (s', Ok b) <->
  exists a s1, p s = (s1, Ok a) /\ k a s1 = (s', Ok b).
Proof.
  unfold ebind. destruct (p s) as [s1 [a|e]]; split.
  - eauto.
  - by intros (a' & s1' & [= <- <-] & H).
  - done.
  - by intros (a' & s1' & ? & H).
Qed.

Lemma ebind_pass {S E A B} (p : eff S E A) (k : A -> eff S E B) s s1 a :
  p s = (s1, Ok a) -> ebind p k s = k a s1.
Proof. unfold ebind. by intros ->. Qed.

Lemma ebind_stop {S E A B} (p : eff S E A) (k : A -> eff S E B) s s1 e :
  p s = (s1, Err e) -> ebind p k s = (s1, Err e).
Proof. unfold ebind. by intros ->. Qed.

Lemma elift_ok {S E A} (r : result E A) (s s' : S) a :
  elift r s = (s', Ok a) <-> s' = s /\ r = Ok a.
Proof. unfold elift. naive_solver. Qed.

Lemma eret_ok {S E A} (a b : A) (s s' : S) :
  @eret S E A a s = (s', Ok b) <-> s' = s /\ b = a.
Proof. unfold eret. naive_solver. Qed.

Lemma zoom_ok {T S E A} (field : T -> S) update (p : eff S E A) t t' a :
  zoom field update p t = (t', Ok a) <->
  exists s', p (field t) = (s', Ok a) /\ t' = update s' t.
Proof. unfold zoom. destruct (p (field t)) as [s1 r]. naive_solver. Qed.

Lemma emap_err_ok {S E F A} (f : E -> F) (p : eff S E A) s s' a :
  emap_err f p s = (s', Ok a) <-> p s = (s', Ok a).
Proof. unfold emap_err. destruct (p s) as [s1 [|]]; naive_solver. Qed.

(** Take apart a successful run. *)
Ltac inv_eff :=
  repeat match goal with
  | H : ebind _ _ _ = (_, Ok _) |- _ =>
      let a := fresh "a" in let s := fresh "s" in let Ha := fresh "He" in
      apply ebind_ok in H as (a & s & Ha & H)
  | H : elift _ _ = (_, Ok _) |- _ =>
      let Hs := fresh "Hs" in apply elift_ok in H as [Hs H]; subst
  | H : eret _ _ = (_, Ok _) |- _ =>
      let Hs := fresh "Hs" in apply eret_ok in H as [Hs H]; subst
  | H : emap_err _ _ _ = (_, Ok _) |- _ => apply emap_err_ok in H
  | H : eget _ _ = (_, Ok _) |- _ =>
      let Hs := fresh "Hs" in let Ha := fresh "Hg" in injection H as Hs Ha; subst
  | H : emodify _ _ = (_, Ok _) |- _ =>
      let Hs := fresh "Hs" in injection H as Hs; subst
  | H : efail _ _ = (_, Ok _) |- _ => discriminate H
  end; checks.

(** ** Transports *)

Inductive io_error :=
| Elapsed                  (** the deadline of [tokio::time::timeout_at] passed *)
| IoError (msg : string).

(** [timeout_at(deadline, fut).await.map_err(|_| label)??] *)
Definition timed {S A} (label : string) (p : eff S io_error A) : eff S string A :=
  emap_err (fun e => match e with Elapsed => label | IoError m => m end) p.

Class AsyncStream (S : Type) := {
  write_all : bytes -> eff S io_error unit;
  flush : eff S io_error unit;
  read_exact : Z -> eff S io_error bytes;
  (** [read(&mut buf[..1])]: [None] at the end of the stream. *)
  read_byte : eff S io_error (option byte);
}.

(** The contract of a transport.  [written] is what it accepted so far and
    [incoming] what it has left to deliver.  A failed operation may have
    written, or consumed, a part. *)
Class StreamLaws (S : Type) `{AsyncStream S} := {
  written : S -> bytes;
  incoming : S -> bytes;
  write_all_spec bs s s' r : write_all bs s = (s', r) ->
    incoming s' = incoming s /\
    exists part rest, bs = part ++ rest /\ written s' = written s ++ part /\
      (r = Ok tt -> rest = []);
  flush_spec s s' r : flush s = (s', r) ->
    incoming s' = incoming s /\ written s' = written s;
  read_exact_spec n s s' r : read_exact n s = (s', r) ->
    written s' = written s /\
    exists part, incoming s = part ++ incoming s' /\
      forall x, r = Ok x -> x = part /\ zlen x = Z.max 0 n;
  read_byte_spec s s' r : read_byte s = (s', r) ->
    written s' = written s /\
    match r with
    | Ok (Some b) => incoming s = b :: incoming s'
    | Ok None => incoming s = [] /\ incoming s' = []
    | Err _ => exists part, incoming s = part ++ incoming s'
    end;
}.

(** ** The transport that does not fail

    Reading past the end of what the peer sends ends in an error, as for a
    peer that closes the connection. *)
Record wire := { wire_in : bytes; wire_out : bytes }.

Definition wire_write (bs : bytes) : eff wire io_error unit :=
  fun w => ({| wire_in := wire_in w; wire_out := wire_out w ++ bs |}, Ok tt).

Definition wire_read_exact (n : Z) : eff wire io_error bytes :=
  fun w =>
    if n <=? zlen (wire_in w)
    then ({| wire_in := drop (Z.to_nat n) (wire_in w); wire_out := wire_out w |},
          Ok (take (Z.to_nat n) (wire_in w)))
    else ({| wire_in := []; wire_out := wire_out w |}, Err (IoError "unexpected end of file")).

Definition wire_read_byte : eff wire io_error (option byte) :=
  fun w => match wire_in w with
           | [] => (w, Ok None)
           | b :: rest => ({| wire_in := rest; wire_out := wire_out w |}, Ok (Some b))
           end.

#[export] Instance wire_stream : AsyncStream wire := {
  write_all := wire_write;
  flush := eret tt;
  read_exact := wire_read_exact;
  read_byte := wire_read_byte;
}.

#[export, program] Instance wire_laws : StreamLaws wire :=
  {| written := wire_out; incoming := wire_in |}.
Next Obligation.
  intros bs w w' r [= <- <-]. cbn. split; [done|]. exists bs, [].
  by rewrite app_nil_r.
Qed.
Next Obligation. by intros w w' r [= <- <-]. Qed.
Next Obligation.
  intros n w w' r. cbn. unfold wire_read_exact.
  destruct (Z.leb_spec n (zlen (wire_in w))) as [Hn|Hn]; intros [= <- <-]; cbn.
  - split; [done|]. exists (take (Z.to_nat n) (wire_in w)). rewrite take_drop.
    split; [done|]. intros x [= <-]. split; [done|].
    unfold zlen in *. rewrite length_take. lia.
  - split; [done|]. exists (wire_in w). by rewrite app_nil_r.
Qed.
Next Obligation.
  intros w w' r. cbn. unfold wire_read_byte.
  destruct (wire_in w) eqn:Hw; intros [= <- <-]; cbn; auto.
Qed.

Lemma wire_read_exact_app n x rest out :
  zlen x = n ->
  read_exact n {| wire_in := x ++ rest; wire_out := out |} =
  ({| wire_in := rest; wire_out := out |}, Ok x).
Proof.
  intros <-. cbn. unfold wire_read_exact. cbn. rewrite zlen_app.
  rewrite (proj2 (Z.leb_le _ _)) by (pose proof (zlen_nonneg rest); lia).
  unfold zlen. by rewrite Nat2Z.id, take_app_length, drop_app_length.
Qed.

Lemma wire_read_byte_cons b x out :
  read_byte {| wire_in := b :: x; wire_out := out |} =
  ({| wire_in := x; wire_out := out |}, Ok (Some b)).
Proof. done. Qed.

Lemma wire_read_exact_short n x out :
  zlen x < n ->
  read_exact n {| wire_in := x; wire_out := out |} =
  ({| wire_in := []; wire_out := out |}, Err (IoError "unexpected end of file")).
Proof. intros Hn. cbn. unfold wire_read_exact. cbn. by rewrite (proj2 (Z.leb_gt _ _)). Qed.

Lemma timed_ok {S A} label (p : eff S io_error A) s s' a :
  timed label p s = (s', Ok a) <-> p s = (s', Ok a).
Proof. apply emap_err_ok. Qed.

Lemma emap_err_stop {S E F A} (f : E -> F) (p : eff S E A) s s' e :
  p s = (s', Err e) -> emap_err f p s = (s', Err (f e)).
Proof. unfold emap_err. by intros ->. Qed.

Lemma ensure_pass_eff {S E A} (b : bool) (e : E) (k : unit -> eff S E A) s :
  b = true -> ebind (elift (ensure b e)) k s = k tt s.
Proof. by intros ->. Qed.

Lemma elift_pass {S E A B} (r : result E A) (k : A -> eff S E B) s a :
  r = Ok a -> ebind (elift r) k s = k a s.
Proof. by intros ->. Qed.
