(* ===== verification/IpcCrates.v ===== *)
(** * The third-party crates of the IPC layer

    [base64], [chacha20poly1305], [hkdf], [ed25519-dalek] and the streaming
    serializer of [serde_json], as classes of operations with their documented
    behaviour, in the manner of Crates.v.  The stand-ins at the end satisfy
    the laws and are used only to evaluate the models. *)

From S2P Require Import Prelude.
From S2P Require Import Bytes.
From S2P Require Import Text.
From S2P Require Import Crates.
#[local] Open Scope Z_scope.

(** ** base64: [general_purpose::STANDARD], padded *)
Class Base64 := {
  b64_encode : bytes -> str;
  b64_decode : str -> option bytes;
}.
Class Base64Laws `{Base64} : Prop := {
  b64_decode_encode b : b64_decode (b64_encode b) = Some b;
  b64_encode_length b : zlen (b64_encode b) = 4 * ((zlen b + 2) / 3);
}.

Lemma b64_encode_inj `{Base64Laws} a b : b64_encode a = b64_encode b -> a = b.
Proof.
  intros E. apply (f_equal b64_decode) in E. rewrite !b64_decode_encode in E. congruence.
Qed.

(** ** chacha20poly1305: [ChaCha20Poly1305::encrypt] / [decrypt]

    Deterministic in key, nonce and associated data.  The tag is 16 bytes;
    a ciphertext that decrypts is the encryption of what it decrypts to. *)
Class Aead := {
  aead_encrypt : forall (key nonce aad msg : bytes), option bytes;
  aead_decrypt : forall (key nonce aad ct : bytes), option bytes;
}.
Class AeadLaws `{Aead} : Prop := {
  aead_decrypt_encrypt k n a m c :
    aead_encrypt k n a m = Some c -> aead_decrypt k n a c = Some m;
  aead_encrypt_decrypt k n a m c :
    aead_decrypt k n a c = Some m -> aead_encrypt k n a m = Some c;
  aead_encrypt_length k n a m c :
    aead_encrypt k n a m = Some c -> zlen c = zlen m + 16;
  aead_encrypt_total k n a m :
    zlen m <= 2 ^ 32 -> exists c, aead_encrypt k n a m = Some c;
}.

(** ** hkdf: [Hkdf::<Sha256>::new(Some(salt), ikm)] then [expand(info, okm)]

    [expand] fails only for more than 255 blocks of output. *)
Class Hkdf := hkdf_expand : forall (salt ikm info : bytes) (len : Z), option bytes.
Class HkdfLaws `{Hkdf} : Prop := {
  hkdf_expand_total salt ikm info len : 0 <= len <= 255 * 32 ->
    exists okm, hkdf_expand salt ikm info len = Some okm;
  hkdf_expand_length salt ikm info len okm : 0 <= len ->
    hkdf_expand salt ikm info len = Some okm -> zlen okm = len;
}.

(** ** ed25519-dalek *)
Class Ed25519 := {
  SigningKey : Type;
  verifying_key : SigningKey -> bytes;        (** [verifying_key().to_bytes()] *)
  ed_sign : SigningKey -> bytes -> bytes;     (** [sign(msg).to_bytes()] *)
  ed_key_valid : bytes -> bool;               (** [VerifyingKey::from_bytes] succeeds *)
  ed_verify : bytes -> bytes -> bytes -> bool; (** key, message, signature *)
}.
Class Ed25519Laws `{Ed25519} : Prop := {
  ed_sign_length k m : length (ed_sign k m) = 64%nat;
  verifying_key_length k : length (verifying_key k) = 32%nat;
  verifying_key_valid k : ed_key_valid (verifying_key k) = true;
  ed_verify_sign k m : ed_verify (verifying_key k) m (ed_sign k m) = true;
}.

(** ** serde_json at a type not all of whose values survive the round trip

    [f64] fields are written with the shortest digits and NaN as [null];
    without the [float_roundtrip] feature parsing is not exact. *)
Class JsonLawsOn (A : Type) (exact : A -> bool) `{Json A} : Prop := {
  from_slice_to_vec_on a bs :
    exact a = true -> to_vec a = Some bs -> from_slice bs = Some a;
}.

Lemma to_vec_inj_on `{JsonLawsOn A exact} (a b : A) bs :
  exact a = true -> exact b = true ->
  to_vec a = Some bs -> to_vec b = Some bs -> a = b.
Proof.
  intros Ea Eb Ha%from_slice_to_vec_on Hb%from_slice_to_vec_on; [congruence|done..].
Qed.

(** [serde_json::to_writer] hands the text to the writer in pieces; together
    they are the text of [to_vec]. *)
Class JsonWriter (A : Type) := to_chunks : A -> option (list bytes).
Class JsonWriterLaws (A : Type) `{Json A, JsonWriter A} : Prop := {
  to_chunks_to_vec (a : A) : to_vec a = option_map (@List.concat byte) (to_chunks a);
}.

(** ** Executable stand-ins *)
Module IpcStandIn.
Import StandIn.

(** Base64 with the standard alphabet. *)
Definition b64_digit (v : Z) : byte :=
  byte_of_Z (if v <? 26 then 65 + v else if v <? 52 then 71 + v
             else if v <? 62 then v - 4 else if v =? 62 then 43 else 47).

Definition b64_value (b : byte) : option Z :=
  let c := b8 b in
  if in_range 65 90 c then Some (c - 65) else if in_range 97 122 c then Some (c - 71)
  else if in_range 48 57 c then Some (c + 4) else if c =? 43 then Some 62
  else if c =? 47 then Some 63 else None.

Definition b64_group (n : Z) : str :=
  [b64_digit (n / 262144); b64_digit (n / 4096 mod 64);
   b64_digit (n / 64 mod 64); b64_digit (n mod 64)].

Fixpoint encode_b64 (l : bytes) : str :=
  match l with
  | [] => []
  | [a] => take 2 (b64_group (b8 a * 65536)) ++ ["="%byte; "="%byte]
  | [a; b] => take 3 (b64_group (b8 a * 65536 + b8 b * 256)) ++ ["="%byte]
  | a :: b :: c :: l' => b64_group (b8 a * 65536 + b8 b * 256 + b8 c) ++ encode_b64 l'
  end.

Definition quad (w x y z : byte) : option Z :=
  match b64_value w, b64_value x, b64_value y, b64_value z with
  | Some p, Some q, Some r, Some s => Some (p * 262144 + q * 4096 + r * 64 + s)
  | _, _, _, _ => None
  end.

Definition pad : byte := "="%byte.
Definition zero_digit : byte := "A"%byte.

Fixpoint decode_b64 (s : str) : option bytes :=
  match s with
  | [] => Some []
  | w :: x :: y :: z :: s' =>
      if bool_decide (z = pad) then
        if negb (is_empty s') then None
        else if bool_decide (y = pad) then
          n ← quad w x zero_digit zero_digit; Some [byte_of_Z (n / 65536)]
        else
          n ← quad w x y zero_digit;
          Some [byte_of_Z (n / 65536); byte_of_Z (n / 256)]
      else
        n ← quad w x y z; r ← decode_b64 s';
        Some (byte_of_Z (n / 65536) :: byte_of_Z (n / 256) :: byte_of_Z n :: r)
  | _ => None
  end.

#[export] Instance plain_b64 : Base64 := {| b64_encode := encode_b64; b64_decode := decode_b64 |}.

Definition digits_ok : bool :=
  forallb (fun n => let v := Z.of_nat n in
    bool_decide (b64_value (b64_digit v) = Some v) &&
    negb (bool_decide (b64_digit v = pad))) (seq 0 64).
Lemma digits_checked : digits_ok = true.
Proof. by vm_compute. Qed.

Lemma b64_digit_ok v : 0 <= v < 64 ->
  b64_value (b64_digit v) = Some v /\ b64_digit v <> pad.
Proof.
  intros Hv. pose proof digits_checked as H. unfold digits_ok in H.
  rewrite forallb_forall in H. specialize (H (Z.to_nat v)). cbv zeta in H.
  rewrite Z2Nat.id in H by lia.
  destruct (proj1 (andb_true_iff _ _) (H ltac:(apply in_seq; lia))) as [H1 H2].
  split; [by apply bool_decide_eq_true in H1|].
  by apply negb_true_iff, bool_decide_eq_false in H2.
Qed.

Lemma b64_group_digits n : 0 <= n < 16777216 ->
  0 <= n / 262144 < 64 /\ 0 <= n / 4096 mod 64 < 64 /\ 0 <= n / 64 mod 64 < 64 /\
  0 <= n mod 64 < 64 /\
  n / 262144 * 262144 + n / 4096 mod 64 * 4096 + n / 64 mod 64 * 64 + n mod 64 = n.
Proof. intros Hn. Z.to_euclidean_division_equations; lia. Qed.

Lemma byte_of_Z_b8 v b : v mod 256 = b8 b -> byte_of_Z v = b.
Proof. intros H. apply b8_inj. by rewrite b8_of_Z. Qed.

Lemma quad_group n : 0 <= n < 16777216 ->
  quad (b64_digit (n / 262144)) (b64_digit (n / 4096 mod 64))
       (b64_digit (n / 64 mod 64)) (b64_digit (n mod 64)) = Some n.
Proof.
  intros Hn. pose proof (b64_group_digits n Hn) as (H1 & H2 & H3 & H4 & E). unfold quad.
  rewrite (proj1 (b64_digit_ok _ H1)), (proj1 (b64_digit_ok _ H2)),
    (proj1 (b64_digit_ok _ H3)), (proj1 (b64_digit_ok _ H4)). by rewrite E.
Qed.

Lemma zero_digit_group n : n mod 64 = 0 -> zero_digit = b64_digit (n mod 64).
Proof. by intros ->. Qed.

Lemma decode_full n s r : 0 <= n < 16777216 -> decode_b64 s = Some r ->
  decode_b64 (b64_group n ++ s) =
  Some (byte_of_Z (n / 65536) :: byte_of_Z (n / 256) :: byte_of_Z n :: r).
Proof.
  intros Hn Hs. pose proof (b64_group_digits n Hn) as (H1 & H2 & H3 & H4 & E).
  unfold b64_group. cbn [app decode_b64].
  rewrite bool_decide_false by by apply b64_digit_ok.
  rewrite quad_group by done. cbn. by rewrite Hs.
Qed.

Lemma decode_one a : decode_b64 (encode_b64 [a]) = Some [a].
Proof.
  pose proof (b8_range a). set (n := b8 a * 65536).
  assert (0 <= n < 16777216) as Hn by lia.
  assert (n mod 64 = 0 /\ n / 64 mod 64 = 0) as [E1 E2]
    by (unfold n; Z.to_euclidean_division_equations; lia).
  cbn [encode_b64]. fold n. cbn [b64_group take app decode_b64].
  rewrite bool_decide_true by done. cbn [is_empty negb].
  pose proof (quad_group n Hn) as Hq. rewrite E1, E2 in Hq.
  change (b64_digit 0) with zero_digit in Hq. rewrite Hq. cbn. f_equal. f_equal.
  apply byte_of_Z_b8. unfold n. Z.to_euclidean_division_equations; lia.
Qed.

Lemma decode_two a b : decode_b64 (encode_b64 [a; b]) = Some [a; b].
Proof.
  pose proof (b8_range a). pose proof (b8_range b). set (n := b8 a * 65536 + b8 b * 256).
  assert (0 <= n < 16777216) as Hn by lia.
  assert (n mod 64 = 0) as E1 by (unfold n; Z.to_euclidean_division_equations; lia).
  pose proof (b64_group_digits n Hn) as (_ & _ & H3 & _ & _).
  cbn [encode_b64]. fold n. cbn [b64_group take app decode_b64].
  rewrite bool_decide_true by done. cbn [is_empty negb].
  rewrite bool_decide_false by by apply b64_digit_ok.
  pose proof (quad_group n Hn) as Hq. rewrite E1 in Hq.
  change (b64_digit 0) with zero_digit in Hq. rewrite Hq. cbn. repeat f_equal;
    apply byte_of_Z_b8; unfold n; Z.to_euclidean_division_equations; lia.
Qed.

#[export] Instance plain_b64_laws : Base64Laws.
Proof.
  split.
  - induction b as [b IH] using (induction_ltof1 _ (@length _)).
    destruct b as [|a [|b' [|c l]]]; [done|apply decode_one|apply decode_two|].
    pose proof (b8_range a). pose proof (b8_range b'). pose proof (b8_range c).
    cbn [b64_decode b64_encode plain_b64 encode_b64].
    rewrite (decode_full _ _ l); [|lia|apply IH; unfold ltof; simpl; lia].
    repeat f_equal; apply byte_of_Z_b8; Z.to_euclidean_division_equations; lia.
  - induction b as [b IH] using (induction_ltof1 _ (@length _)).
    destruct b as [|a [|b' [|c l]]]; [done..|].
    specialize (IH l ltac:(unfold ltof; simpl; lia)).
    cbn [b64_encode plain_b64 encode_b64] in *. rewrite zlen_app, IH, !zlen_cons.
    change (zlen (b64_group _)) with 4. pose proof (zlen_nonneg l).
    replace (1 + (1 + (1 + zlen l)) + 2) with (zlen l + 2 + 1 * 3) by lia.
    rewrite Z.div_add by lia. lia.
Qed.

(** A tag of 16 bytes after the message. *)
Definition poly_tag (k n a m : bytes) : bytes := drop 16 (poly 23 (k ++ n ++ a ++ m)).

#[export] Instance tag_aead : Aead := {|
  aead_encrypt k n a m := Some (m ++ poly_tag k n a m);
  aead_decrypt k n a c :=
    let m := take (length c - 16) c in
    if bool_decide (c = m ++ poly_tag k n a m) then Some m else None;
|}.

Lemma poly_tag_length k n a m : length (poly_tag k n a m) = 16%nat.
Proof. unfold poly_tag, poly. by rewrite length_drop, length_be_bytes. Qed.

Lemma take_untagged (m t : bytes) :
  length t = 16%nat -> take (length (m ++ t) - 16) (m ++ t) = m.
Proof. intros Ht. rewrite length_app, Ht. by rewrite Nat.add_sub, take_app_length. Qed.

#[export] Instance tag_aead_laws : AeadLaws.
Proof.
  split; unfold aead_encrypt, aead_decrypt, tag_aead; cbv zeta.
  - intros k n a m c [= <-]. rewrite take_untagged by apply poly_tag_length.
    by rewrite bool_decide_true.
  - intros k n a m c. case_bool_decide as E; [|done]. intros [= E2].
    rewrite E2 in E. by rewrite <-E.
  - intros k n a m c [= <-]. rewrite zlen_app. unfold zlen. rewrite poly_tag_length. lia.
  - eauto.
Qed.

#[export] Instance poly_hkdf : Hkdf := fun salt ikm info len =>
  if len <=? 255 * 32
  then Some (be_bytes (Z.to_nat len)
               (of_be (poly 29 (salt ++ ikm ++ info)) * (2 ^ 128 + 1) * (2 ^ 256 + 1)))
  else None.

#[export] Instance poly_hkdf_laws : HkdfLaws.
Proof.
  split; unfold hkdf_expand, poly_hkdf.
  - intros salt ikm info len Hl. rewrite (proj2 (Z.leb_le _ _)) by lia. eauto.
  - intros salt ikm info len okm Hl. destruct (len <=? _); [|done]. intros [= <-].
    rewrite zlen_be_bytes. lia.
Qed.

(** Signing keys that are their own verifying keys. *)
#[export] Instance poly_ed25519 : Ed25519 := {|
  SigningKey := Z;
  verifying_key k := be_bytes 32 k;
  ed_sign k m := be_bytes 32 0 ++ poly 31 (be_bytes 32 k ++ m);
  ed_key_valid b := length b =? 32;
  ed_verify b m s := bool_decide (s = be_bytes 32 0 ++ poly 31 (b ++ m));
|}%nat.

#[export] Instance poly_ed25519_laws : Ed25519Laws.
Proof.
  split; cbn -[be_bytes poly].
  - intros. rewrite length_app. unfold poly. by rewrite !length_be_bytes.
  - intros. apply length_be_bytes.
  - intros. by rewrite length_be_bytes.
  - intros. by apply bool_decide_eq_true.
Qed.

End IpcStandIn.
