(* ===== verification/IpcFrame.v ===== *)
(** * serctl_protocol: frames of the client-daemon protocol

    crates/serctl_protocol/src/lib.rs: the identifiers and records a frame
    carries with their validation, the [Frame] enum, its erasure
    ([Zeroize for Frame]) and the canonical digest of a root request.
    An [anyhow] error is its message (interpolated values left out);
    [f64] is the Standard Library's IEEE datatype. *)

From Stdlib Require Import Floats.SpecFloat.
From S2P Require Import Prelude.
From S2P Require Import Bytes.
From S2P Require Import Text.
From S2P Require Import Crates.
From S2P Require Import IpcCrates.
#[local] Open Scope string_scope.
#[local] Open Scope list_scope.
#[local] Open Scope Z_scope.

Definition IPC_PROTOCOL_VERSION : Z := 5.
Definition MAX_FRAME : Z := 64 * 1024 * 1024.
Definition MAX_AUTH_FRAME : Z := 4 * 1024.
Definition TRANSFER_PROGRESS_SCHEMA_VERSION : Z := 1.
Definition TUNNEL_STATUS_SCHEMA_VERSION : Z := 1.
Definition NATIVE_HELPER_BINARY_NAME : str := rs "serctl-xfer".
Definition NATIVE_HELPER_PROTOCOL_VERSION_TEXT : str := rs "1".
Definition MAX_NATIVE_HELPER_BINARY_BYTES : Z := 512 * 1024 * 1024.
Definition MAX_NATIVE_HELPER_VERSION_BYTES : Z := 256.
Definition DEFAULT_TUNNEL_CONNECTIONS : Z := 32.
Definition MAX_TUNNEL_CONNECTIONS : Z := 128.
Definition MAX_SSH_SERVER_IDENTIFICATION_BYTES : Z := 128.

(** ** Identifiers: a [String] that only [parse] and [random] construct *)

Definition TransferId : Type := str.
Definition OperationContextId : Type := str.
Definition TunnelId : Type := str.

(** [len() == n && bytes().all(|b| b.is_ascii_digit() || matches!(b, b'a'..=b'f'))] *)
Definition lower_hex_text (n : Z) (v : str) : bool :=
  (zlen v =? n) && forallb is_lower_hex_byte v.

Definition OperationContextId_parse (value : str) : result string OperationContextId :=
  ensure! lower_hex_text 64 value
    or "operation context id must contain 64 lowercase hex characters" ;;
  Ok value.

Definition TransferId_parse (value : str) : result string TransferId :=
  ensure! zlen value =? 32 or "transfer id must contain 32 lowercase hex characters" ;;
  ensure! forallb is_lower_hex_byte value
    or "transfer id must contain 32 lowercase hex characters" ;;
  Ok value.

Definition TunnelId_parse (value : str) : result string TunnelId :=
  ensure! lower_hex_text 32 value or "tunnel id must contain 32 lowercase hex characters" ;;
  Ok value.

(** [TransferId::random] and [TunnelId::random], on the 16 bytes drawn. *)
Definition TransferId_random `{Hex} (draw : bytes) : TransferId := hex_encode draw.
Definition TunnelId_random `{Hex} (draw : bytes) : TunnelId := hex_encode draw.

(** ** Enumerations *)

Inductive TransferDirection := Push | Pull.
Inductive TransferStage :=
| Preflight | Hash | Negotiating | Transferring | Verifying | Committing
| Cleanup | Completed | Failed | Cancelled | Stalled.
Inductive TransferBackend := BackendAuto | BackendNative | BackendSftp | BackendSftpFallback.
Inductive TransferResumeMode := ResumeAuto | ResumeNever.
Inductive TunnelMode := Local_ | Remote_ | Dynamic_.
Inductive TunnelStage := TunnelStageReady | Cancelling | Closed | TunnelStageUnknown.

(** [*backend as u8], [*resume as u8]. *)
Definition backend_u8 (b : TransferBackend) : Z :=
  match b with BackendAuto => 0 | BackendNative => 1 | BackendSftp => 2 | BackendSftpFallback => 3 end.
Definition resume_u8 (r : TransferResumeMode) : Z :=
  match r with ResumeAuto => 0 | ResumeNever => 1 end.

(** ** Expected helper identity *)

Record ExpectedNativeHelperIdentity := {
  helper_name : str;
  binary_size : Z;
  helper_sha256 : str;
  helper_version : str;
}.

Definition helper_validate (h : ExpectedNativeHelperIdentity) : result string unit :=
  ensure! bool_decide (helper_name h = NATIVE_HELPER_BINARY_NAME)
    or "expected native helper name mismatch" ;;
  ensure! in_range 1 MAX_NATIVE_HELPER_BINARY_BYTES (binary_size h)
    or "expected native helper binary size is invalid" ;;
  ensure! lower_hex_text 64 (helper_sha256 h)
    or "expected native helper SHA-256 must contain 64 lowercase hex characters" ;;
  ensure! negb (is_empty (helper_version h))
          && (zlen (helper_version h) <=? MAX_NATIVE_HELPER_VERSION_BYTES)
          && is_ascii (helper_version h)
          && negb (existsb is_ascii_control (helper_version h))
    or "expected native helper version identity is invalid" ;;
  let prefix := NATIVE_HELPER_BINARY_NAME ++ rs " " in
  let suffix := rs "; transfer protocol v" ++ NATIVE_HELPER_PROTOCOL_VERSION_TEXT ++ rs ")" in
  let* body := ok_or (v ← strip_prefix prefix (helper_version h); strip_suffix suffix v)
    "expected native helper version identity grammar mismatch" in
  let* (release_version, commit) := ok_or (split_once (rs " (git ") body)
    "expected native helper version identity grammar mismatch" in
  ensure! negb (is_empty release_version) && (zlen release_version <=? 64)
          && forallb (fun b => is_ascii_alphanumeric b || matches_byte b (rs ".-")) release_version
    or "expected native helper release version is invalid" ;;
  let commit_hex := default commit (strip_suffix (rs "-dirty") commit) in
  ensure! lower_hex_text 12 commit_hex
    or "expected native helper commit identity is invalid" ;;
  Ok tt.

Definition helper_zeroize (h : ExpectedNativeHelperIdentity) : ExpectedNativeHelperIdentity :=
  {| helper_name := []; binary_size := 0; helper_sha256 := []; helper_version := [] |}.

(** ** Transfer progress *)

Record TransferProgress := {
  progress_schema_version : Z;
  progress_event : str;
  progress_transfer_id : TransferId;
  progress_context_id : option OperationContextId;
  progress_revision : Z;
  direction : TransferDirection;
  progress_stage : TransferStage;
  total_bytes : Z;
  confirmed_bytes : Z;
  durable_bytes : Z;
  window_bps : spec_float;
  average_bps : spec_float;
  eta_ms : option Z;
  progress_backend : TransferBackend;
  chunk_bytes : Z;
  window_bytes : Z;
  progress_updated_unix_ms : Z;
}.

Definition is_some {A} (o : option A) : bool :=
  match o with Some _ => true | None => false end.

(** [x.is_finite() && x >= 0.0] *)
Definition finite_non_negative (x : spec_float) : bool :=
  match x with
  | S754_zero _ | S754_finite _ _ _ => true
  | S754_infinity _ | S754_nan => false
  end && SFleb (S754_zero false) x.

Definition progress_validate (p : TransferProgress) : result string unit :=
  ensure! progress_schema_version p =? TRANSFER_PROGRESS_SCHEMA_VERSION
    or "unsupported transfer progress schema version" ;;
  ensure! confirmed_bytes p <=? total_bytes p or "confirmed bytes exceed total" ;;
  ensure! durable_bytes p <=? confirmed_bytes p or "durable bytes exceed confirmed" ;;
  ensure! negb (is_some (progress_context_id p)) || (0 <? progress_revision p)
    or "context-bound transfer progress requires a positive revision" ;;
  ensure! finite_non_negative (window_bps p) or "window rate must be finite and non-negative" ;;
  ensure! finite_non_negative (average_bps p) or "average rate must be finite and non-negative" ;;
  ensure! negb (is_empty (progress_event p)) && (zlen (progress_event p) <=? 64)
          && negb (has_control (progress_event p))
    or "transfer progress event is invalid" ;;
  Ok tt.

(** ** Profile names *)

(** [chars().any(|c| c.is_control() || matches!(c, '/' | '\\' | ':'))] *)
Definition has_unsafe_name_char (name : str) : bool :=
  existsb (fun c => is_control c || bool_decide (c ∈ [47; 92; 58])) (chars name).

Definition validate_profile_name (name : str) : result string unit :=
  ensure! negb (is_empty name) && (zlen name <=? 128)
    or "profile name must contain 1 to 128 bytes" ;;
  ensure! negb (bool_decide (name = rs ".") || bool_decide (name = rs "..")
                || has_unsafe_name_char name)
    or "profile name contains unsafe path characters" ;;
  Ok tt.

(** ** Tunnels *)

Record TunnelSpec := {
  spec_mode : TunnelMode;
  spec_bind_port : Z;
  spec_target_port : Z;
  spec_max_connections : Z;
}.

Record TunnelReady := {
  ready_mode : TunnelMode;
  ready_bind_host : str;
  ready_bind_port : Z;
}.

(** [SocketAddr] of an IPv4 address. *)
Record SocketAddr := { addr_ip : list Z; addr_port : Z }.

Inductive ValidatedTunnelSpec :=
| ValidLocal (bind : SocketAddr) (target_port max_connections : Z)
| ValidRemote (bind_port target_port max_connections : Z)
| ValidDynamic (bind : SocketAddr) (max_connections : Z).

Definition validate_tunnel_connections (max_connections : Z) : result string unit :=
  ensure! in_range 1 MAX_TUNNEL_CONNECTIONS max_connections
    or "tunnel connection limit must be between 1 and 128" ;;
  Ok tt.

Definition tunnel_loopback_addr (port : Z) : SocketAddr :=
  {| addr_ip := [127; 0; 0; 1]; addr_port := port |}.

Definition tunnel_try_from (spec : TunnelSpec) : result string ValidatedTunnelSpec :=
  let max_connections := spec_max_connections spec in
  try! validate_tunnel_connections max_connections ;;
  match spec_mode spec with
  | Local_ =>
      ensure! negb (spec_target_port spec =? 0)
        or "local-forward target port must not be zero" ;;
      Ok (ValidLocal (tunnel_loopback_addr (spec_bind_port spec)) (spec_target_port spec)
            max_connections)
  | Remote_ =>
      ensure! negb (spec_target_port spec =? 0)
        or "remote-forward target port must not be zero" ;;
      Ok (ValidRemote (spec_bind_port spec) (spec_target_port spec) max_connections)
  | Dynamic_ =>
      ensure! spec_target_port spec =? 0
        or "dynamic forwarding target port must be zero" ;;
      Ok (ValidDynamic (tunnel_loopback_addr (spec_bind_port spec)) max_connections)
  end.

Definition tunnel_spec_validate (spec : TunnelSpec) : result string unit :=
  let* _ := tunnel_try_from spec in Ok tt.

Record TunnelStatus := {
  status_schema_version : Z;
  status_tunnel_id : TunnelId;
  status_profile_id : str;
  status_profile_generation : Z;
  status_mode : TunnelMode;
  status_bind_host : str;
  status_bind_port : Z;
  status_target_host : option str;
  status_target_port : Z;
  status_deadline_unix_ms : Z;
  status_stage : TunnelStage;
  status_updated_unix_ms : Z;
  status_context_id : option OperationContextId;
  status_revision : Z;
}.

Definition tunnel_status_validate (s : TunnelStatus) : result string unit :=
  ensure! status_schema_version s =? TUNNEL_STATUS_SCHEMA_VERSION
    or "unsupported tunnel status schema version" ;;
  let* _ := TunnelId_parse (status_tunnel_id s) in
  ensure! lower_hex_text 32 (status_profile_id s)
    or "tunnel profile id must contain 32 lowercase hex characters" ;;
  ensure! 0 <? status_profile_generation s or "tunnel profile generation is invalid" ;;
  ensure! bool_decide (status_bind_host s = rs "127.0.0.1")
    or "tunnel bind host must be IPv4 loopback" ;;
  ensure! 0 <? status_bind_port s or "tunnel bind port must be non-zero" ;;
  try! match status_mode s with
       | Local_ | Remote_ =>
           ensure! bool_decide (status_target_host s = Some (rs "127.0.0.1"))
             or "fixed tunnel target host must be IPv4 loopback" ;;
           ensure! 0 <? status_target_port s or "fixed tunnel target port must be non-zero" ;;
           Ok tt
       | Dynamic_ =>
           ensure! negb (is_some (status_target_host s))
             or "dynamic tunnel has no fixed target host" ;;
           ensure! status_target_port s =? 0 or "dynamic tunnel has no fixed target port" ;;
           Ok tt
       end ;;
  ensure! 0 <? status_deadline_unix_ms s or "tunnel deadline is invalid" ;;
  ensure! 0 <? status_updated_unix_ms s or "tunnel update time is invalid" ;;
  ensure! Bool.eqb (is_some (status_context_id s)) (0 <? status_revision s)
    or "tunnel operation context and revision must appear together" ;;
  Ok tt.

(** ** Directory entries, catalog rows and connection identities *)

Record RemoteEntry := {
  entry_name : str;
  entry_path : str;
  is_dir : bool;
  is_symlink : bool;
  entry_size : Z;
  modified_unix : option Z;
}.

Record WireProfile := {
  wire_name : str;
  wire_host : str;
  wire_port : Z;
  wire_generation : Z;
  wire_profile_id : str;
}.

Record SshConnectionIdentity := {
  identity_profile_id : bytes;
  identity_profile_generation : Z;
  observed_host_key_sha256 : str;
  pin_match : bool;
  server_identification : str;
  transport_attempt_id : str;
  identity_context_id : option OperationContextId;
  identity_revision : Z;
}.

Definition is_upper_hex_byte (b : byte) : bool :=
  is_ascii_digit b || in_range 65 70 (b8 b).

Definition connection_identity_validate (i : SshConnectionIdentity) : result string unit :=
  ensure! 0 <? identity_profile_generation i
    or "SSH connection identity profile generation must be positive" ;;
  let* fingerprint := ok_or (strip_prefix (rs "SHA256:") (observed_host_key_sha256 i))
    "SSH connection identity host key must start with SHA256:" in
  ensure! (zlen fingerprint =? 43)
          && forallb (fun b => is_ascii_alphanumeric b || matches_byte b (rs "+/")) fingerprint
    or "SSH connection identity host key must be canonical SHA256 Base64" ;;
  ensure! pin_match i or "SSH connection identity must represent a matching host-key pin" ;;
  ensure! Bool.eqb (is_some (identity_context_id i)) (0 <? identity_revision i)
    or "SSH connection identity context and revision are inconsistent" ;;
  ensure! (zlen (server_identification i) <=? MAX_SSH_SERVER_IDENTIFICATION_BYTES)
          && (starts_with (rs "SSH-2.0-") (server_identification i)
              || starts_with (rs "SSH-1.99-") (server_identification i))
          && forallb (fun b => in_range 33 126 (b8 b)) (server_identification i)
    or "SSH connection identity server identification is unsafe or oversized" ;;
  ensure! (zlen (transport_attempt_id i) =? 32)
          && forallb is_upper_hex_byte (transport_attempt_id i)
    or "SSH connection identity transport attempt id must be 32 uppercase hex characters" ;;
  Ok tt.

(** ** Frames *)

Inductive Frame :=
(* client -> daemon *)
| AuthHello (version : Z) (client_nonce : str) (intent_commitment : option str)
| AuthResponse (client_proof : str) (client_call_proof : option str)
| Exec (cmd : str) (timeout_ms : Z)
| Shell (cols rows : Z)
| ShellInput (data : bytes)
| Status
| Shutdown (passphrase : str)
| Unlock (passphrase : str)
| ProfileAuthorized (call_key : str)
| ListProfiles
| IssueGrant (profile : str) (operations : list str) (budget ttl_secs : Z) (holder_key : str)
| GrantIssued (grant_id : str) (profile_generation issued_unix_ms expires_unix_ms : Z)
| ListDir (path : str) (timeout_ms : Z)
| CreateDir (path : str) (timeout_ms : Z)
| Download (transfer_id : TransferId) (path : str) (local_target_sha256 : option str)
    (backend : TransferBackend) (resume : TransferResumeMode) (resume_offset : Z)
    (expected_size : option Z) (expected_sha256 : option str)
    (expected_helper_identity : option ExpectedNativeHelperIdentity)
    (idle_timeout_ms : Z) (deadline_ms : option Z)
| UploadBegin (transfer_id : TransferId) (path : str) (size : Z) (sha256 : str)
    (backend : TransferBackend) (resume : TransferResumeMode) (resume_token : option str)
    (expected_helper_identity : option ExpectedNativeHelperIdentity)
    (idle_timeout_ms : Z) (deadline_ms : option Z)
| UploadChunk (data : bytes)
| UploadEnd
| TransferStatus (transfer_id : option TransferId)
    (operation_context_id : option OperationContextId)
| TransferCancel (transfer_id : TransferId) (operation_context_id : option OperationContextId)
| TunnelOpen (spec : TunnelSpec)
| TunnelStop
| ManagedTunnelOpen (spec : TunnelSpec) (deadline_unix_ms : Z)
| ManagedTunnelStatus (tunnel_id : option TunnelId)
    (operation_context_id : option OperationContextId)
| ManagedTunnelCancel (tunnel_id : TunnelId) (operation_context_id : option OperationContextId)
| ConnectionIdentity (profile_id : bytes) (profile_generation : Z)
(* daemon -> client *)
| AuthChallenge (version : Z) (server_nonce server_proof : str) (server_call_proof : option str)
| AuthAccepted
| ExecOut (data : bytes)
| ExecErr (data : bytes)
| ExecExit (code : option Z) (operation_context_id : option OperationContextId) (revision : Z)
| ShellOut (data : bytes)
| ShellClosed
| ProfileList (profiles : list WireProfile)
| StatusInfo (profile host user : str) (started_unix : Z)
    (operation_context_id : option OperationContextId) (revision : Z)
| Ack
| CreateDirAccepted (operation_context_id : option OperationContextId) (revision : Z)
| TransferAck (confirmed durable : Z)
| DirList (path : str) (entries : list RemoteEntry)
    (operation_context_id : option OperationContextId) (revision : Z)
| FileChunk (data : bytes)
| TransferDone (bytes_ : Z)
| TransferDigest (transfer_id : TransferId) (sha256 : str)
| TransferProgressFrame (progress : TransferProgress)
| TransferStatusInfo (transfers : list TransferProgress)
| TransferCancelAccepted (progress : TransferProgress)
| TunnelReadyFrame (ready : TunnelReady)
| TunnelClosed
| ManagedTunnelOpened (status : TunnelStatus)
| ManagedTunnelStatusInfo (tunnels : list TunnelStatus)
| ManagedTunnelTerminal (status : TunnelStatus)
| ConnectionIdentityInfo (identity : SshConnectionIdentity)
| Error (msg : str).

(** ** Erasure

    [String::zeroize] and [Vec::zeroize] overwrite the contents and leave the
    value empty; [Option::zeroize] leaves [None]. *)

Definition progress_zeroize (p : TransferProgress) : TransferProgress :=
  {| progress_schema_version := progress_schema_version p;
     progress_event := [];
     progress_transfer_id := progress_transfer_id p;
     progress_context_id := None;
     progress_revision := progress_revision p;
     direction := direction p;
     progress_stage := progress_stage p;
     total_bytes := total_bytes p;
     confirmed_bytes := confirmed_bytes p;
     durable_bytes := durable_bytes p;
     window_bps := window_bps p;
     average_bps := average_bps p;
     eta_ms := eta_ms p;
     progress_backend := progress_backend p;
     chunk_bytes := chunk_bytes p;
     window_bytes := window_bytes p;
     progress_updated_unix_ms := progress_updated_unix_ms p |}.

Definition status_zeroize (s : TunnelStatus) : TunnelStatus :=
  {| status_schema_version := status_schema_version s;
     status_tunnel_id := status_tunnel_id s;
     status_profile_id := [];
     status_profile_generation := status_profile_generation s;
     status_mode := status_mode s;
     status_bind_host := [];
     status_bind_port := status_bind_port s;
     status_target_host := None;
     status_target_port := status_target_port s;
     status_deadline_unix_ms := status_deadline_unix_ms s;
     status_stage := status_stage s;
     status_updated_unix_ms := status_updated_unix_ms s;
     status_context_id := None;
     status_revision := status_revision s |}.

Definition identity_zeroize (i : SshConnectionIdentity) : SshConnectionIdentity :=
  {| identity_profile_id := identity_profile_id i;
     identity_profile_generation := identity_profile_generation i;
     observed_host_key_sha256 := [];
     pin_match := pin_match i;
     server_identification := [];
     transport_attempt_id := [];
     identity_context_id := None;
     identity_revision := identity_revision i |}.

(** [Zeroize for Frame], which [zeroize_sensitive] calls. *)
Definition zeroize (f : Frame) : Frame :=
  match f with
  | AuthHello version _ _ => AuthHello version [] None
  | AuthResponse _ _ => AuthResponse [] None
  | Exec _ timeout_ms => Exec [] timeout_ms
  | ProfileAuthorized _ => ProfileAuthorized []
  | ShellInput _ => ShellInput []
  | UploadChunk _ => UploadChunk []
  | ExecOut _ => ExecOut []
  | ExecErr _ => ExecErr []
  | ShellOut _ => ShellOut []
  | FileChunk _ => FileChunk []
  | ListDir _ timeout_ms => ListDir [] timeout_ms
  | CreateDir _ timeout_ms => CreateDir [] timeout_ms
  | Download id _ _ backend resume off size _ _ idle deadline =>
      Download id [] None backend resume off size None None idle deadline
  | UploadBegin id _ size _ backend resume _ _ idle deadline =>
      UploadBegin id [] size [] backend resume None None idle deadline
  | TransferDigest id _ => TransferDigest id []
  | TunnelReadyFrame r =>
      TunnelReadyFrame {| ready_mode := ready_mode r; ready_bind_host := [];
                          ready_bind_port := ready_bind_port r |}
  | ManagedTunnelOpened s => ManagedTunnelOpened (status_zeroize s)
  | ManagedTunnelTerminal s => ManagedTunnelTerminal (status_zeroize s)
  | ManagedTunnelStatusInfo _ => ManagedTunnelStatusInfo []
  | AuthChallenge version _ _ _ => AuthChallenge version [] [] None
  | StatusInfo _ _ _ started _ revision => StatusInfo [] [] [] started None revision
  | DirList _ _ _ revision => DirList [] [] None revision
  | Error _ => Error []
  | Unlock _ => Unlock []
  | Shutdown _ => Shutdown []
  | IssueGrant _ _ budget ttl _ => IssueGrant [] [] budget ttl []
  | GrantIssued _ generation issued expires => GrantIssued [] generation issued expires
  | TransferStatus id _ => TransferStatus id None
  | TransferCancel id _ => TransferCancel id None
  | ManagedTunnelStatus id _ => ManagedTunnelStatus id None
  | ManagedTunnelCancel id _ => ManagedTunnelCancel id None
  | ProfileList _ => ProfileList []
  | TransferStatusInfo _ => TransferStatusInfo []
  | TransferProgressFrame p => TransferProgressFrame (progress_zeroize p)
  | TransferCancelAccepted p => TransferCancelAccepted (progress_zeroize p)
  | ConnectionIdentityInfo i => ConnectionIdentityInfo (identity_zeroize i)
  | ExecExit code _ revision => ExecExit code None revision
  | CreateDirAccepted _ revision => CreateDirAccepted None revision
  | Shell _ _ | TunnelOpen _ | ManagedTunnelOpen _ _ | AuthAccepted | Status
  | ListProfiles | UploadEnd | TunnelStop | TunnelClosed | ConnectionIdentity _ _
  | ShellClosed | Ack | TransferAck _ _ | TransferDone _ => f
  end.

(** ** Canonical request digest *)

Definition REQUEST_DIGEST_DOMAIN : bytes := rs "serctl/ipc/request-intent/v5" ++ [x00].
Definition INTENT_COMMITMENT_DOMAIN : bytes := rs "serctl/ipc/intent-commitment/v5" ++ [x00].

(** The bytes [update_length_prefixed] feeds to the hasher. *)
Definition update_length_prefixed (value : bytes) : result string bytes :=
  let* length := ok_or (try_from_max U32_MAX (zlen value))
    "IPC request field exceeds the canonical intent limit" in
  Ok (be32 length ++ value).

Definition u8 (v : Z) : bytes := [byte_of_Z v].

Definition update_expected_native_helper_identity
    (expected : option ExpectedNativeHelperIdentity) : result string bytes :=
  match expected with
  | None => Ok (u8 0)
  | Some e =>
      try! helper_validate e ;;
      let* name := update_length_prefixed (helper_name e) in
      let* digest := update_length_prefixed (helper_sha256 e) in
      let* version := update_length_prefixed (helper_version e) in
      Ok (u8 1 ++ name ++ be64 (binary_size e) ++ digest ++ version)
  end.

Definition mode_u8 (m : TunnelMode) : Z :=
  match m with Local_ => 1 | Remote_ => 2 | Dynamic_ => 3 end.

Definition spec_message (spec : TunnelSpec) : bytes :=
  u8 (mode_u8 (spec_mode spec)) ++ be16 (spec_bind_port spec) ++
  be16 (spec_target_port spec) ++ be16 (spec_max_connections spec).

(** [unwrap_or_default] on an optional string, [unwrap_or(0)] on an optional
    number. *)
Definition text_or_empty (o : option str) : str := default [] o.
Definition number_or_zero (o : option Z) : Z := default 0 o.

(** Everything hashed after the domain and the version. *)
Definition request_fields (f : Frame) : result string bytes :=
  match f with
  | Exec cmd timeout_ms =>
      let* c := update_length_prefixed cmd in
      Ok (u8 1 ++ c ++ be64 timeout_ms)
  | Shell cols rows => Ok (u8 2 ++ be32 cols ++ be32 rows)
  | Status => Ok (u8 3)
  | Shutdown passphrase =>
      let* p := update_length_prefixed passphrase in Ok (u8 4 ++ p)
  | Unlock passphrase =>
      let* p := update_length_prefixed passphrase in Ok (u8 10 ++ p)
  | ListProfiles => Ok (u8 11)
  | ListDir path timeout_ms =>
      let* p := update_length_prefixed path in
      Ok (u8 5 ++ p ++ be64 timeout_ms)
  | CreateDir path timeout_ms =>
      let* p := update_length_prefixed path in
      Ok (u8 6 ++ p ++ be64 timeout_ms)
  | Download transfer_id path local_target_sha256 backend resume resume_offset
      expected_size expected_sha256 expected_helper_identity idle_timeout_ms deadline_ms =>
      let* i := update_length_prefixed transfer_id in
      let* p := update_length_prefixed path in
      let* l := update_length_prefixed (text_or_empty local_target_sha256) in
      let* e := update_length_prefixed (text_or_empty expected_sha256) in
      let* h := update_expected_native_helper_identity expected_helper_identity in
      Ok (u8 7 ++ i ++ p ++ l ++ u8 (backend_u8 backend) ++ u8 (resume_u8 resume) ++
          be64 resume_offset ++ be64 (number_or_zero expected_size) ++ e ++ h ++
          be64 idle_timeout_ms ++ be64 (number_or_zero deadline_ms))
  | UploadBegin transfer_id path size sha256 backend resume resume_token
      expected_helper_identity idle_timeout_ms deadline_ms =>
      let* i := update_length_prefixed transfer_id in
      let* p := update_length_prefixed path in
      let* d := update_length_prefixed sha256 in
      let* t := update_length_prefixed (text_or_empty resume_token) in
      let* h := update_expected_native_helper_identity expected_helper_identity in
      Ok (u8 8 ++ i ++ p ++ be64 size ++ d ++ u8 (backend_u8 backend) ++
          u8 (resume_u8 resume) ++ t ++ h ++
          be64 idle_timeout_ms ++ be64 (number_or_zero deadline_ms))
  | TunnelOpen spec => Ok (u8 9 ++ spec_message spec)
  | TransferStatus transfer_id operation_context_id =>
      let* i := update_length_prefixed (text_or_empty transfer_id) in
      let* c := update_length_prefixed (text_or_empty operation_context_id) in
      Ok (u8 12 ++ i ++ c)
  | TransferCancel transfer_id operation_context_id =>
      let* i := update_length_prefixed transfer_id in
      let* c := update_length_prefixed (text_or_empty operation_context_id) in
      Ok (u8 13 ++ i ++ c)
  | ManagedTunnelOpen spec deadline_unix_ms =>
      Ok (u8 14 ++ spec_message spec ++ be64 deadline_unix_ms)
  | ManagedTunnelStatus tunnel_id operation_context_id =>
      let* i := update_length_prefixed (text_or_empty tunnel_id) in
      let* c := update_length_prefixed (text_or_empty operation_context_id) in
      Ok (u8 15 ++ i ++ c)
  | ManagedTunnelCancel tunnel_id operation_context_id =>
      let* i := update_length_prefixed tunnel_id in
      let* c := update_length_prefixed (text_or_empty operation_context_id) in
      Ok (u8 16 ++ i ++ c)
  | ConnectionIdentity profile_id profile_generation =>
      Ok (u8 17 ++ profile_id ++ be64 profile_generation)
  | _ => Err "IPC frame is not an authorizable root request"
  end.

Definition canonical_request_message (f : Frame) : result string bytes :=
  let* fields := request_fields f in
  Ok (REQUEST_DIGEST_DOMAIN ++ be16 IPC_PROTOCOL_VERSION ++ fields).

Section digest.
Context `{Sha2} `{HmacSha2}.

Definition canonical_request_digest (f : Frame) : result string bytes :=
  let* message := canonical_request_message f in
  Ok (sha256 message).

Definition request_intent_commitment (call_key : bytes) (f : Frame) : result string bytes :=
  let* request_digest := canonical_request_digest f in
  Ok (hmac_sha256 call_key
        (INTENT_COMMITMENT_DOMAIN ++ be16 IPC_PROTOCOL_VERSION ++ request_digest)).
End digest.

(** ** Theorems *)

(** The text and byte payloads a frame owns, other than the opaque transfer
    and tunnel ids. *)
Definition opt (o : option str) : list str := match o with Some s => [s] | None => [] end.

Definition helper_text (h : option ExpectedNativeHelperIdentity) : list str :=
  match h with
  | Some h => [helper_name h; helper_sha256 h; helper_version h]
  | None => []
  end.
Definition progress_text (p : TransferProgress) : list str :=
  progress_event p :: opt (progress_context_id p).
Definition status_text (s : TunnelStatus) : list str :=
  status_profile_id s :: status_bind_host s ::
  opt (status_target_host s) ++ opt (status_context_id s).

Definition owned_text (f : Frame) : list str :=
  match f with
  | AuthHello _ n c => n :: opt c
  | AuthResponse p c => p :: opt c
  | Exec c _ => [c]
  | ShellInput d | UploadChunk d | ExecOut d | ExecErr d | ShellOut d | FileChunk d => [d]
  | Shutdown p | Unlock p => [p]
  | ProfileAuthorized k => [k]
  | IssueGrant p ops _ _ k => p :: k :: ops
  | GrantIssued g _ _ _ => [g]
  | ListDir p _ | CreateDir p _ => [p]
  | Download _ p l _ _ _ _ e h _ _ => p :: opt l ++ opt e ++ helper_text h
  | UploadBegin _ p _ d _ _ t h _ _ => p :: d :: opt t ++ helper_text h
  | TransferStatus _ c | TransferCancel _ c | ManagedTunnelStatus _ c
  | ManagedTunnelCancel _ c | ExecExit _ c _ | CreateDirAccepted c _ => opt c
  | AuthChallenge _ n p c => n :: p :: opt c
  | ProfileList ps =>
      concat (map (fun p => [wire_name p; wire_host p; wire_profile_id p]) ps)
  | StatusInfo p h u _ c _ => p :: h :: u :: opt c
  | DirList p es c _ => p :: concat (map (fun e => [entry_name e; entry_path e]) es) ++ opt c
  | TransferDigest _ d => [d]
  | TransferProgressFrame p | TransferCancelAccepted p => progress_text p
  | TransferStatusInfo ps => concat (map progress_text ps)
  | TunnelReadyFrame r => [ready_bind_host r]
  | ManagedTunnelOpened s | ManagedTunnelTerminal s => status_text s
  | ManagedTunnelStatusInfo ss => concat (map status_text ss)
  | ConnectionIdentityInfo i =>
      observed_host_key_sha256 i :: server_identification i :: transport_attempt_id i ::
      opt (identity_context_id i)
  | Error m => [m]
  | Shell _ _ | Status | ListProfiles | UploadEnd | TunnelOpen _ | TunnelStop
  | ManagedTunnelOpen _ _ | ConnectionIdentity _ _ | AuthAccepted | ShellClosed | Ack
  | TransferAck _ _ | TransferDone _ | TunnelClosed => []
  end.

(** The opaque transfer and tunnel ids a frame owns. *)
Definition owned_ids (f : Frame) : list str :=
  match f with
  | Download id _ _ _ _ _ _ _ _ _ _ | UploadBegin id _ _ _ _ _ _ _ _ _
  | TransferCancel id _ | ManagedTunnelCancel id _ | TransferDigest id _ => [id]
  | TransferStatus o _ | ManagedTunnelStatus o _ => opt o
  | TransferProgressFrame p | TransferCancelAccepted p => [progress_transfer_id p]
  | TransferStatusInfo ps => map progress_transfer_id ps
  | ManagedTunnelOpened s | ManagedTunnelTerminal s => [status_tunnel_id s]
  | ManagedTunnelStatusInfo ss => map status_tunnel_id ss
  | _ => []
  end.

(** Erasing a frame leaves no byte of any text or byte payload it owned:
    every such field is empty afterwards.  The only strings an erased frame
    may still hold are opaque transfer and tunnel ids it held before, and
    erasing twice changes nothing more. *)
Theorem zeroize_erases f :
  Forall (fun s => s = []) (owned_text (zeroize f)) /\
  owned_ids (zeroize f) ⊆ owned_ids f /\
  zeroize (zeroize f) = zeroize f.
Proof.
  destruct f; cbn; (split; [by repeat constructor|split; [set_solver|done]]).
Qed.

(** ** The digest determines the request *)

(** The integers of a frame have the width of their Rust type, and its ids
    came from [parse]. *)
Definition request_typed (f : Frame) : Prop :=
  match f with
  | Exec _ t | ListDir _ t | CreateDir _ t => is_u64 t
  | Shell c r => is_u32 c /\ is_u32 r
  | Download _ _ _ _ _ off size _ _ idle deadline =>
      is_u64 off /\ is_u64 (number_or_zero size) /\ is_u64 idle /\
      is_u64 (number_or_zero deadline)
  | UploadBegin _ _ size _ _ _ _ _ idle deadline =>
      is_u64 size /\ is_u64 idle /\ is_u64 (number_or_zero deadline)
  | TunnelOpen s => is_u16 (spec_bind_port s) /\ is_u16 (spec_target_port s) /\
      is_u16 (spec_max_connections s)
  | ManagedTunnelOpen s d => is_u16 (spec_bind_port s) /\ is_u16 (spec_target_port s) /\
      is_u16 (spec_max_connections s) /\ is_u64 d
  | TransferStatus i c | ManagedTunnelStatus i c => i <> Some [] /\ c <> Some []
  | TransferCancel _ c | ManagedTunnelCancel _ c => c <> Some []
  | ConnectionIdentity i g => length i = 16%nat /\ is_u64 g
  | _ => True
  end.

(** An absent optional field of a transfer request is hashed like an empty or
    zero one. *)
Definition drop_empty (o : option str) : option str :=
  match o with Some [] => None | _ => o end.
Definition drop_zero (o : option Z) : option Z :=
  match o with Some 0 => None | _ => o end.

Definition intent_of (f : Frame) : Frame :=
  match f with
  | Download id p l b r off size e h idle deadline =>
      Download id p (drop_empty l) b r off (drop_zero size) (drop_empty e) h idle
        (drop_zero deadline)
  | UploadBegin id p size d b r t h idle deadline =>
      UploadBegin id p size d b r (drop_empty t) h idle (drop_zero deadline)
  | _ => f
  end.

Definition lp (v : bytes) : bytes := be32 (zlen v) ++ v.

Lemma lp_ok v x : update_length_prefixed v = Ok x <-> x = lp v /\ zlen v <= U32_MAX.
Proof.
  unfold update_length_prefixed, try_from_max, lp.
  destruct (Z.leb_spec (zlen v) U32_MAX); cbn; naive_solver lia.
Qed.

Lemma be_app_inj n v w x y :
  0 <= v < 2 ^ (8 * Z.of_nat n) -> 0 <= w < 2 ^ (8 * Z.of_nat n) ->
  be_bytes n v ++ x = be_bytes n w ++ y -> v = w /\ x = y.
Proof.
  intros Hv Hw E. apply app_inv_length in E as [E ->]; [|by rewrite !length_be_bytes].
  apply (f_equal of_be) in E. by rewrite !of_be_be_bytes_small in E.
Qed.

Lemma be16_app_inj v w x y : is_u16 v -> is_u16 w ->
  be16 v ++ x = be16 w ++ y -> v = w /\ x = y.
Proof. rewrite !is_u16_range. apply be_app_inj. Qed.
Lemma be32_app_inj v w x y : is_u32 v -> is_u32 w ->
  be32 v ++ x = be32 w ++ y -> v = w /\ x = y.
Proof. rewrite !is_u32_range. apply be_app_inj. Qed.
Lemma be64_app_inj v w x y : is_u64 v -> is_u64 w ->
  be64 v ++ x = be64 w ++ y -> v = w /\ x = y.
Proof. rewrite !is_u64_range. apply be_app_inj. Qed.

Lemma lp_app_inj a b x y :
  zlen a <= U32_MAX -> zlen b <= U32_MAX -> lp a ++ x = lp b ++ y -> a = b /\ x = y.
Proof.
  unfold lp. intros Ha Hb E. rewrite <-!app_assoc in E.
  apply be32_app_inj in E as [El E]; [|split; auto with serctl..].
  apply app_inv_length in E; [done|]. unfold zlen in El. lia.
Qed.

Lemma u8_app_inj v w x y : 0 <= v < 256 -> 0 <= w < 256 ->
  u8 v ++ x = u8 w ++ y -> v = w /\ x = y.
Proof.
  intros Hv Hw [= E ->]. apply (f_equal b8) in E. by rewrite !b8_of_Z_small in E.
Qed.

#[local] Opaque be_bytes u8.

(** Take equal messages apart, field by field. *)
Ltac peel E :=
  rewrite <-?app_assoc in E;
  repeat match type of E with
  | u8 _ ++ _ = u8 _ ++ _ => apply u8_app_inj in E as [? E]; [|auto; lia..]
  | lp _ ++ _ = lp _ ++ _ => apply lp_app_inj in E as [? E]; [|assumption..]
  | be16 _ ++ _ = be16 _ ++ _ => apply be16_app_inj in E as [? E]; [|assumption..]
  | be32 _ ++ _ = be32 _ ++ _ => apply be32_app_inj in E as [? E]; [|assumption..]
  | be64 _ ++ _ = be64 _ ++ _ => apply be64_app_inj in E as [? E]; [|assumption..]
  end.

Lemma helper_validate_size h : helper_validate h = Ok tt -> is_u64 (binary_size h).
Proof.
  unfold helper_validate. intros Hv. checks.
  unfold is_u64, U64_MAX, MAX_NATIVE_HELPER_BINARY_BYTES in *. lia.
Qed.

Lemma helper_app_inj a b x y r s :
  update_expected_native_helper_identity a = Ok x ->
  update_expected_native_helper_identity b = Ok y ->
  x ++ r = y ++ s -> a = b /\ r = s.
Proof.
  destruct a as [a|], b as [b|]; cbn [update_expected_native_helper_identity];
    intros Ha Hb E; inv_ok; peel E; try lia; [|done].
  rewrite lp_ok in *. destruct_and!; subst.
  pose proof (helper_validate_size a ltac:(done)).
  pose proof (helper_validate_size b ltac:(done)).
  peel E. destruct a, b; cbn in *. by subst.
Qed.

Lemma text_or_empty_inj a b : text_or_empty a = text_or_empty b -> drop_empty a = drop_empty b.
Proof. destruct a as [[|]|], b as [[|]|]; cbn; congruence. Qed.
Lemma text_or_empty_id a b :
  a <> Some [] -> b <> Some [] -> text_or_empty a = text_or_empty b -> a = b.
Proof. destruct a as [[|]|], b as [[|]|]; cbn; congruence. Qed.
Lemma number_or_zero_inj a b : number_or_zero a = number_or_zero b -> drop_zero a = drop_zero b.
Proof. destruct a as [[]|], b as [[]|]; cbn; congruence. Qed.

Lemma backend_u8_range b : 0 <= backend_u8 b < 256.
Proof. by destruct b. Qed.
Lemma resume_u8_range r : 0 <= resume_u8 r < 256.
Proof. by destruct r. Qed.
Lemma mode_u8_range m : 0 <= mode_u8 m < 256.
Proof. by destruct m. Qed.
#[local] Hint Resolve backend_u8_range resume_u8_range mode_u8_range : core.
Lemma backend_u8_inj a b : backend_u8 a = backend_u8 b -> a = b.
Proof. by destruct a, b. Qed.
Lemma resume_u8_inj a b : resume_u8 a = resume_u8 b -> a = b.
Proof. by destruct a, b. Qed.
Lemma mode_u8_inj a b : mode_u8 a = mode_u8 b -> a = b.
Proof. by destruct a, b. Qed.

(** The first byte hashed for a request. *)
Definition request_tag (f : Frame) : Z :=
  match f with
  | Exec _ _ => 1 | Shell _ _ => 2 | Status => 3 | Shutdown _ => 4 | ListDir _ _ => 5
  | CreateDir _ _ => 6 | Download _ _ _ _ _ _ _ _ _ _ _ => 7
  | UploadBegin _ _ _ _ _ _ _ _ _ _ => 8 | TunnelOpen _ => 9 | Unlock _ => 10
  | ListProfiles => 11 | TransferStatus _ _ => 12 | TransferCancel _ _ => 13
  | ManagedTunnelOpen _ _ => 14 | ManagedTunnelStatus _ _ => 15
  | ManagedTunnelCancel _ _ => 16 | ConnectionIdentity _ _ => 17 | _ => 0
  end.

Lemma request_fields_tag f m : request_fields f = Ok m ->
  exists rest, m = u8 (request_tag f) ++ rest /\ 0 < request_tag f < 256.
Proof.
  destruct f; cbn [request_fields request_tag]; intros Hf; inv_ok;
    (eexists; split; [reflexivity || by rewrite app_nil_r|lia]).
Qed.

Lemma request_fields_inj f g m n :
  request_typed f -> request_typed g ->
  request_fields f = Ok m -> request_fields g = Ok n -> m ++ [] = n ++ [] ->
  intent_of f = intent_of g.
Proof.
  intros Tf Tg Hf Hg E.
  assert (request_tag f = request_tag g) as Ht.
  { destruct (request_fields_tag _ _ Hf) as (x & -> & ?), (request_fields_tag _ _ Hg) as (y & -> & ?).
    rewrite <-!app_assoc in E. apply u8_app_inj in E; [tauto|lia..]. }
  destruct f; try discriminate Hf; destruct g; try discriminate Ht; try discriminate Hg;
    cbn [request_fields request_typed intent_of] in *; inv_ok; rewrite ?lp_ok in *;
    destruct_and?; subst; unfold spec_message in E; peel E; subst; try done.
  all: try match goal with
       | Ha : update_expected_native_helper_identity _ = Ok ?x,
         Hb : update_expected_native_helper_identity _ = Ok ?y, E : ?x ++ _ = ?y ++ _ |- _ =>
           destruct (helper_app_inj _ _ _ _ _ _ Ha Hb E) as [? E2]; peel E2
       end.
  all: repeat match goal with
       | H : text_or_empty _ = text_or_empty _ |- _ =>
           first [apply text_or_empty_id in H; [|done..] | apply text_or_empty_inj in H]
       | H : number_or_zero _ = number_or_zero _ |- _ => apply number_or_zero_inj in H
       | H : backend_u8 _ = backend_u8 _ |- _ => apply backend_u8_inj in H
       | H : resume_u8 _ = resume_u8 _ |- _ => apply resume_u8_inj in H
       | H : mode_u8 _ = mode_u8 _ |- _ => apply mode_u8_inj in H
       end; try congruence.
  - destruct spec, spec0; cbn in *. congruence.
  - destruct spec, spec0; cbn in *. congruence.
  - apply app_inv_length in E as [-> E]; [|lia]. peel E. congruence.
Qed.

Lemma canonical_message_ok f m : canonical_request_message f = Ok m <->
  exists x, request_fields f = Ok x /\
    m = REQUEST_DIGEST_DOMAIN ++ be16 IPC_PROTOCOL_VERSION ++ x.
Proof. unfold canonical_request_message. rewrite rbind_ok. naive_solver. Qed.

Lemma same_message_same_intent f g m :
  request_typed f -> request_typed g ->
  canonical_request_message f = Ok m -> canonical_request_message g = Ok m ->
  intent_of f = intent_of g.
Proof.
  intros Tf Tg (x & Hx & ->)%canonical_message_ok (y & Hy & E)%canonical_message_ok.
  apply app_inv_head, app_inv_head in E. subst y. by eapply request_fields_inj.
Qed.

(** A SHA-256 collision. *)
Definition sha256_collision `{Sha2} (m n : bytes) : Prop := m <> n /\ sha256 m = sha256 n.

(** The canonical digest of a root request determines the request, whatever
    its kind: two well-typed requests with the same digest are the same request
    once absent optional fields of a transfer are identified with empty or zero
    ones, unless their canonical messages are a SHA-256 collision. *)
Theorem request_digest_binds_request `{Sha2} f g d mf mg :
  request_typed f -> request_typed g ->
  canonical_request_digest f = Ok d -> canonical_request_digest g = Ok d ->
  canonical_request_message f = Ok mf -> canonical_request_message g = Ok mg ->
  intent_of f = intent_of g \/ sha256_collision mf mg.
Proof.
  unfold canonical_request_digest. intros Tf Tg Hf Hg Mf Mg.
  rewrite Mf in Hf. rewrite Mg in Hg. cbn in Hf, Hg.
  destruct (decide (mf = mg)) as [->|Hne]; [left|right; split; [done|congruence]].
  by eapply same_message_same_intent.
Qed.

(** The addresses a validated tunnel binds on this host, and those it asks
    the SSH server to bind. *)
Definition bind_addresses (v : ValidatedTunnelSpec) : list SocketAddr :=
  match v with
  | ValidLocal bind _ _ | ValidDynamic bind _ => [bind]
  | ValidRemote bind_port _ _ => [tunnel_loopback_addr bind_port]
  end.
Definition tunnel_connections (v : ValidatedTunnelSpec) : Z :=
  match v with
  | ValidLocal _ _ n | ValidRemote _ _ n | ValidDynamic _ n => n
  end.

(** A tunnel request is accepted exactly when its connection limit is
    between 1 and 128 and it names a target port iff it is not dynamic; every
    address an accepted tunnel binds is 127.0.0.1 at the requested port. *)
Theorem tunnel_binds_loopback spec :
  (is_ok (tunnel_try_from spec) = true <->
   1 <= spec_max_connections spec <= MAX_TUNNEL_CONNECTIONS /\
   (spec_target_port spec = 0 <-> spec_mode spec = Dynamic_)) /\
  forall v, tunnel_try_from spec = Ok v ->
    tunnel_connections v = spec_max_connections spec /\
    Forall (fun a => addr_ip a = [127; 0; 0; 1] /\ addr_port a = spec_bind_port spec)
      (bind_addresses v).
Proof.
  unfold tunnel_try_from, validate_tunnel_connections. split.
  - destruct (in_range 1 _ _) eqn:Hr; cbn [ensure rbind].
    + apply in_range_true in Hr. destruct (Z.eqb_spec (spec_target_port spec) 0),
        (spec_mode spec); cbn; naive_solver.
    + apply in_range_false in Hr. cbn. naive_solver lia.
  - intros v Hv. destruct (spec_mode spec); checks; cbn; auto.
Qed.

(** ** Runs *)
Module IpcFrameRuns.
Import StandIn.

Definition pull (size deadline : option Z) : Frame :=
  Download (rs "00112233445566778899aabbccddeeff") (rs "/srv/a") None BackendSftp ResumeNever 0
    size None None 30000 deadline.
Definition pull_message : bytes :=
  Eval vm_compute in match canonical_request_message (pull None None) with Ok m => m | _ => [] end.
Definition pull_digest : bytes := Eval vm_compute in sha256 pull_message.

(** An absent deadline and a zero deadline have the same digest. *)
Lemma request_digest_binds_request_witness :
  intent_of (pull None None) = intent_of (pull (Some 0) (Some 0)) \/
  sha256_collision pull_message pull_message.
Proof.
  apply (request_digest_binds_request (pull None None) (pull (Some 0) (Some 0)) pull_digest).
  - cbn. unfold is_u64, U64_MAX. lia.
  - cbn. unfold is_u64, U64_MAX. lia.
  - vm_compute. reflexivity.
  - vm_compute. reflexivity.
  - vm_compute. reflexivity.
  - vm_compute. reflexivity.
Defined.

End IpcFrameRuns.
