(* ===== verification/IpcAuth.v ===== *)
(** * serctl_protocol: framing and v5 authentication

    crates/serctl_protocol/src/lib.rs: the two sizing writers and the bounded
    serialization of a frame, frame writing and reading on a transport, the
    canonical Base64 decoding, endpoint names, the authentication proofs, the
    single-use authorization context and the two sides of the v5 handshake.
    Random nonces are arguments.  A memory reservation may fail:
    [try_reserve_exact] says whether it succeeds. *)

From S2P Require Import Prelude.
From S2P Require Import Bytes.
From S2P Require Import Text.
From S2P Require Import Crates.
From S2P Require Import IpcCrates.
From S2P Require Import Async.
From S2P Require Import IpcFrame.
#[local] Open Scope string_scope.
#[local] Open Scope list_scope.
#[local] Open Scope Z_scope.

(** A frame that carries no [f64]: its JSON is parsed back exactly. *)
Definition float_free (f : Frame) : bool :=
  match f with
  | TransferProgressFrame _ | TransferStatusInfo _ | TransferCancelAccepted _ => false
  | _ => true
  end.

(** ** Bounded serialization *)

Record BoundedFrameCounter := { counter_length : Z; maximum : Z; exceeded : bool }.

Definition counter_new (maximum : Z) : BoundedFrameCounter :=
  {| counter_length := 0; maximum := maximum; exceeded := false |}.

(** [io::Write::write]: the number of bytes taken. *)
Definition counter_write (bs : bytes) : eff BoundedFrameCounter string Z :=
  fun c =>
    let over := {| counter_length := counter_length c; maximum := maximum c; exceeded := true |} in
    match checked_add USIZE_MAX (counter_length c) (zlen bs) with
    | None => (over, Err "frame length overflow")
    | Some length =>
        if maximum c <? length then (over, Err "frame exceeds configured limit")
        else ({| counter_length := length; maximum := maximum c; exceeded := exceeded c |},
              Ok (zlen bs))
    end.

Record PreallocatedFrameBuffer := { buffer_bytes : bytes; expected : Z }.

Definition buffer_write (bs : bytes) : eff PreallocatedFrameBuffer string Z :=
  fun b =>
    match checked_add USIZE_MAX (zlen (buffer_bytes b)) (zlen bs) with
    | None => (b, Err "frame length overflow")
    | Some new_len =>
        if expected b <? new_len
        then (b, Err "frame length changed between sizing and serialization")
        else ({| buffer_bytes := buffer_bytes b ++ bs; expected := expected b |}, Ok (zlen bs))
    end.

(** [serde_json::to_writer]: every piece of the text is written in full (both
    writers take a whole piece or fail); an error of the writer ends it. *)
Fixpoint feed {W} (write : bytes -> eff W string Z) (pieces : list bytes) : eff W string unit :=
  match pieces with
  | [] => eret tt
  | p :: ps => let~ _ := write p in feed write ps
  end.

Section framing.
Context `{Json Frame, JsonWriter Frame} (try_reserve_exact : Z -> bool).

Definition to_writer {W} (write : bytes -> eff W string Z) (f : Frame) : eff W string unit :=
  let~ pieces := elift (ok_or (to_chunks f) "serialize frame") in feed write pieces.

Definition encoded_frame_len_limited (f : Frame) (maximum : Z) : result string Z :=
  match to_writer counter_write f (counter_new maximum) with
  | (counter, Err e) => if exceeded counter then Err "frame too large" else Err e
  | (counter, Ok _) => Ok (counter_length counter)
  end.

Definition buffer_new (expected : Z) : result string PreallocatedFrameBuffer :=
  ensure! try_reserve_exact expected or "reserve bounded frame buffer" ;;
  Ok {| buffer_bytes := []; expected := expected |}.

Definition serialize_frame_bounded (f : Frame) (maximum : Z) : result string bytes :=
  let* expected := encoded_frame_len_limited f maximum in
  let* sink := buffer_new expected in
  let (sink', r) := to_writer buffer_write f sink in
  try! r ;;
  ensure! zlen (buffer_bytes sink') =? expected
    or "frame length changed between sizing and serialization" ;;
  Ok (buffer_bytes sink').

(** ** Frames on a transport *)

Context {S : Type} `{AsyncStream S}.

Definition on_stream {C A} (p : eff S io_error A) : eff (S * C) io_error A :=
  zoom fst (fun s t => (s, snd t)) p.

(** The callback updates the caller's own state [C]. *)
Definition write_frame_limited_with_written_callback {C} (f : Frame) (max_frame : Z)
    (on_frame_written : C -> C) : eff (S * C) io_error unit :=
  let~ json := elift (map_err IoError (serialize_frame_bounded f max_frame)) in
  let~ wire_len := elift (ok_or (try_from_max U32_MAX (zlen json))
    (IoError "frame exceeds the u32 wire length")) in
  run~ on_stream (write_all (be32 wire_len)) ;;
  run~ on_stream (write_all json) ;;
  run~ emodify (fun t => (fst t, on_frame_written (snd t))) ;;
  run~ on_stream flush ;;
  eret tt.

Definition write_frame_limited (f : Frame) (max_frame : Z) : eff S io_error unit :=
  fun s =>
    let (t, r) := write_frame_limited_with_written_callback f max_frame (fun u => u) (s, tt) in
    (fst t, r).

Definition read_frame_limited (max_frame : Z) : eff S io_error (option Frame) :=
  let~ first := read_byte in
  match first with
  | None => eret None
  | Some b0 =>
      let~ rest := emap_err (fun e => match e with
          | Elapsed => Elapsed
          | IoError _ => IoError "IPC peer disconnected during frame length prefix"
          end) (read_exact 3) in
      let len := of_be (b0 :: rest) in
      ensure~ negb (max_frame <? len) or IoError "frame too large" ;;
      let~ buf := read_exact len in
      let~ f := elift (ok_or (from_slice buf) (IoError "parse frame")) in
      eret (Some f)
  end.

(** ** Authentication frames *)

Definition write_auth_frame (f : Frame) : eff S string unit :=
  timed "IPC authentication timed out" (write_frame_limited f MAX_AUTH_FRAME).

Definition read_auth_frame : eff S string Frame :=
  let~ f := timed "IPC authentication timed out" (read_frame_limited MAX_AUTH_FRAME) in
  elift (ok_or f "IPC peer disconnected during authentication").

End framing.

(** ** Keys, endpoints and proofs *)

Definition ENDPOINT_DOMAIN : bytes := rs "serctl/ipc/endpoint/v5" ++ [x00].
Definition SERVER_PROOF_DOMAIN : bytes := rs "serctl/ipc/auth/server-token/v5" ++ [x00].
Definition CLIENT_PROOF_DOMAIN : bytes := rs "serctl/ipc/auth/client-token/v5" ++ [x00].
Definition SERVER_CALL_PROOF_DOMAIN : bytes := rs "serctl/ipc/auth/server-call/v5" ++ [x00].
Definition CLIENT_CALL_PROOF_DOMAIN : bytes := rs "serctl/ipc/auth/client-call/v5" ++ [x00].

Definition validate_unix_peer_identity (actual_uid : Z) (actual_pid : option Z)
    (expected_uid expected_pid : Z) : result string unit :=
  ensure! actual_uid =? expected_uid or "Unix-socket peer is not owned by the current user" ;;
  let* pid := ok_or actual_pid "Unix-socket peer PID is unavailable on this platform" in
  let* pid := ok_or (if in_range 0 U32_MAX pid then Some pid else None)
    "Unix-socket peer returned an invalid process ID" in
  ensure! negb ((pid =? 0) || negb (pid =? expected_pid))
    or "Unix-socket peer PID does not match the protected runtime lock" ;;
  Ok tt.

Definition validate_endpoint_bytes (expected endpoint : str) : result string unit :=
  ensure! bool_decide (endpoint = expected)
    or "runtime lock contains an unexpected local IPC endpoint" ;;
  Ok tt.

Section auth.
Context `{Sha2, HmacSha2, Hex, Base64}.

Definition decode_base64_32 (label : string) (encoded : str) : result string bytes :=
  let* decoded := ok_or (b64_decode encoded) ("decode " ++ label)%string in
  ensure! zlen decoded =? 32 or (label ++ " must contain exactly 32 bytes")%string ;;
  ensure! bool_decide (b64_encode decoded = encoded)
    or (label ++ " must use canonical padded Base64")%string ;;
  Ok decoded.

Definition endpoint_id_with_token (profile : str) (token : bytes) : str :=
  take 32 (hex_encode (sha256 (ENDPOINT_DOMAIN ++ be16 IPC_PROTOCOL_VERSION ++
    be32 (zlen profile) ++ profile ++ token))).

Definition endpoint_id (profile token : str) : result string str :=
  try! validate_profile_name profile ;;
  let* token := decode_base64_32 "IPC token" token in
  Ok (endpoint_id_with_token profile token).

(** On Unix: [runtime_dir.join("serctl-v5-{id}.sock")]. *)
Definition expected_endpoint_in_runtime_dir (profile token runtime_dir : str) : result string str :=
  let* id := endpoint_id profile token in
  Ok (runtime_dir ++ rs "/serctl-v5-" ++ id ++ rs ".sock").

Definition validate_endpoint_in_runtime_dir (profile token runtime_dir endpoint : str)
  : result string unit :=
  let* expected := expected_endpoint_in_runtime_dir profile token runtime_dir in
  validate_endpoint_bytes expected endpoint.

(** What [proof_mac] feeds to the MAC. *)
Definition proof_message (domain : bytes) (version : Z) (profile endpoint_id : str)
    (client_nonce server_nonce : bytes) (intent_commitment : option bytes) : bytes :=
  domain ++ be16 version ++ be32 (zlen profile) ++ profile ++
  be32 (zlen endpoint_id) ++ endpoint_id ++ client_nonce ++ server_nonce ++
  match intent_commitment with
  | Some commitment => u8 1 ++ commitment
  | None => u8 0
  end.

Definition proof_mac (key domain : bytes) (version : Z) (profile endpoint_id : str)
    (client_nonce server_nonce : bytes) (intent_commitment : option bytes) : bytes :=
  hmac_sha256 key (proof_message domain version profile endpoint_id client_nonce server_nonce
                     intent_commitment).

Definition encoded_proof (key domain : bytes) (version : Z) (profile endpoint_id : str)
    (client_nonce server_nonce : bytes) (intent_commitment : option bytes) : str :=
  b64_encode (proof_mac key domain version profile endpoint_id client_nonce server_nonce
                intent_commitment).

Definition verify_proof (key domain : bytes) (version : Z) (profile endpoint_id : str)
    (client_nonce server_nonce : bytes) (intent_commitment : option bytes) (encoded : str)
  : result string unit :=
  let* provided := decode_base64_32 "IPC authentication proof" encoded in
  ensure! bool_decide (proof_mac key domain version profile endpoint_id client_nonce
                         server_nonce intent_commitment = provided)
    or "IPC authentication proof mismatch" ;;
  Ok tt.

(** ** The server's authorization context *)

Record AuthContext := { context_commitment : option bytes; request_verified : bool }.

Definition verify_request (call_key : bytes) (request : Frame) : eff AuthContext string unit :=
  fun ctx =>
    let used := {| context_commitment := context_commitment ctx; request_verified := true |} in
    (used,
     ensure! negb (request_verified ctx) or "IPC authorization context was already consumed" ;;
     let* provided := ok_or (context_commitment ctx)
       "IPC request requires master-passphrase authorization" in
     let* expected := request_intent_commitment call_key request in
     ensure! bool_decide (expected = provided) or "IPC request authorization failed" ;;
     Ok tt).

(** ** The client's side of the handshake *)

(** What a client knows once it has drawn its nonce. *)
Record Exchange := {
  ex_profile : str;
  ex_token : bytes;
  ex_endpoint_id : str;
  ex_client_nonce : bytes;
  ex_call_key : option bytes;
  ex_commitment : option bytes;
}.

Definition client_exchange (profile token : str) (call_key : option bytes)
    (request : option Frame) (client_nonce : bytes) : result string Exchange :=
  try! validate_profile_name profile ;;
  let* intent_commitment :=
    match call_key, request with
    | Some call_key, Some request =>
        let* c := request_intent_commitment call_key request in Ok (Some c)
    | None, None => Ok None
    | _, _ => Err "incomplete IPC call-authorization inputs"
    end in
  let* token := decode_base64_32 "IPC token" token in
  Ok {| ex_profile := profile; ex_token := token;
        ex_endpoint_id := endpoint_id_with_token profile token;
        ex_client_nonce := client_nonce; ex_call_key := call_key;
        ex_commitment := intent_commitment |}.

Definition client_hello (x : Exchange) : Frame :=
  AuthHello IPC_PROTOCOL_VERSION (b64_encode (ex_client_nonce x))
    (b64_encode <$> ex_commitment x).

(** From the challenge to the response. *)
Definition client_response (x : Exchange) (challenge : Frame) : result string Frame :=
  let* (server_nonce, server_proof, server_call_proof) :=
    match challenge with
    | AuthChallenge version server_nonce server_proof server_call_proof =>
        if version =? IPC_PROTOCOL_VERSION
        then Ok (server_nonce, server_proof, server_call_proof)
        else Err "unsupported IPC authentication version"
    | _ => Err "unexpected IPC server authentication frame"
    end in
  let* server_nonce := decode_base64_32 "IPC server nonce" server_nonce in
  ensure! negb (bool_decide (ex_client_nonce x = server_nonce))
    or "IPC server reused the client nonce" ;;
  try! verify_proof (ex_token x) SERVER_PROOF_DOMAIN IPC_PROTOCOL_VERSION (ex_profile x)
         (ex_endpoint_id x) (ex_client_nonce x) server_nonce (ex_commitment x) server_proof ;;
  let* client_call_proof :=
    match ex_call_key x, ex_commitment x, server_call_proof with
    | Some call_key, Some commitment, Some server_call_proof =>
        try! verify_proof call_key SERVER_CALL_PROOF_DOMAIN IPC_PROTOCOL_VERSION (ex_profile x)
               (ex_endpoint_id x) (ex_client_nonce x) server_nonce (Some commitment)
               server_call_proof ;;
        Ok (Some (encoded_proof call_key CLIENT_CALL_PROOF_DOMAIN IPC_PROTOCOL_VERSION
                    (ex_profile x) (ex_endpoint_id x) (ex_client_nonce x) server_nonce
                    (Some commitment)))
    | None, None, None => Ok None
    | _, _, _ => Err "IPC call-authorization challenge mismatch"
    end in
  Ok (AuthResponse
        (encoded_proof (ex_token x) CLIENT_PROOF_DOMAIN IPC_PROTOCOL_VERSION (ex_profile x)
           (ex_endpoint_id x) (ex_client_nonce x) server_nonce (ex_commitment x))
        client_call_proof).

(** ** The server's side *)

(** [random_nonce()] until it differs from the client's; [None] when the
    draws given do not suffice. *)
Fixpoint fresh_nonce (client_nonce : bytes) (draws : list bytes) : option bytes :=
  match draws with
  | [] => None
  | d :: ds => if bool_decide (client_nonce = d) then fresh_nonce client_nonce ds else Some d
  end.

Record Pending := {
  pd_profile : str;
  pd_token : bytes;
  pd_endpoint_id : str;
  pd_client_nonce : bytes;
  pd_server_nonce : bytes;
  pd_commitment : option bytes;
}.

(** From the hello to the challenge. *)
Definition server_challenge (profile : str) (token : bytes) (call_key : bytes)
    (draws : list bytes) (hello : Frame) : result string (Frame * Pending) :=
  let endpoint_id := endpoint_id_with_token profile token in
  let* (client_nonce, intent_commitment) :=
    match hello with
    | AuthHello version client_nonce intent_commitment =>
        if version =? IPC_PROTOCOL_VERSION then Ok (client_nonce, intent_commitment)
        else Err "unsupported IPC authentication version"
    | _ => Err "unexpected IPC client authentication frame"
    end in
  let* client_nonce := decode_base64_32 "IPC client nonce" client_nonce in
  let* intent_commitment :=
    match intent_commitment with
    | Some c => let* c := decode_base64_32 "IPC request intent commitment" c in Ok (Some c)
    | None => Ok None
    end in
  let* server_nonce := ok_or (fresh_nonce client_nonce draws) "random source exhausted" in
  let server_proof := encoded_proof token SERVER_PROOF_DOMAIN IPC_PROTOCOL_VERSION profile
    endpoint_id client_nonce server_nonce intent_commitment in
  let server_call_proof :=
    (fun commitment => encoded_proof call_key SERVER_CALL_PROOF_DOMAIN IPC_PROTOCOL_VERSION
       profile endpoint_id client_nonce server_nonce (Some commitment)) <$> intent_commitment in
  Ok (AuthChallenge IPC_PROTOCOL_VERSION (b64_encode server_nonce) server_proof
        server_call_proof,
      {| pd_profile := profile; pd_token := token; pd_endpoint_id := endpoint_id;
         pd_client_nonce := client_nonce; pd_server_nonce := server_nonce;
         pd_commitment := intent_commitment |}).

(** From the response to the decision. *)
Definition server_accept (call_key : bytes) (p : Pending) (response : Frame)
  : result string AuthContext :=
  let* (client_proof, client_call_proof) :=
    match response with
    | AuthResponse client_proof client_call_proof => Ok (client_proof, client_call_proof)
    | _ => Err "unexpected IPC client proof frame"
    end in
  try! verify_proof (pd_token p) CLIENT_PROOF_DOMAIN IPC_PROTOCOL_VERSION (pd_profile p)
         (pd_endpoint_id p) (pd_client_nonce p) (pd_server_nonce p) (pd_commitment p)
         client_proof ;;
  try! match pd_commitment p, client_call_proof with
       | Some commitment, Some client_call_proof =>
           verify_proof call_key CLIENT_CALL_PROOF_DOMAIN IPC_PROTOCOL_VERSION (pd_profile p)
             (pd_endpoint_id p) (pd_client_nonce p) (pd_server_nonce p) (Some commitment)
             client_call_proof
       | None, None => Ok tt
       | _, _ => Err "IPC call-authorization response mismatch"
       end ;;
  Ok {| context_commitment := pd_commitment p; request_verified := false |}.

(** ** The handshake on a transport *)

Context `{Json Frame, JsonWriter Frame} (try_reserve_exact : Z -> bool).
Context {S : Type} `{AsyncStream S}.

Definition authenticate_client_inner (profile token : str) (call_key : option bytes)
    (request : option Frame) (client_nonce : bytes) : eff S string unit :=
  let~ x := elift (client_exchange profile token call_key request client_nonce) in
  run~ write_auth_frame try_reserve_exact (client_hello x) ;;
  let~ challenge := read_auth_frame in
  let~ response := elift (client_response x challenge) in
  run~ write_auth_frame try_reserve_exact response ;;
  let~ accepted := read_auth_frame in
  ensure~ match accepted with AuthAccepted => true | _ => false end
    or "unexpected IPC authorization completion frame" ;;
  eret tt.

Definition authenticate_server (profile token : str) (call_key : bytes) (draws : list bytes)
  : eff S string AuthContext :=
  run~ elift (validate_profile_name profile) ;;
  let~ token := elift (decode_base64_32 "IPC token" token) in
  let~ hello := read_auth_frame in
  let~ (challenge, pending) := elift (server_challenge profile token call_key draws hello) in
  run~ write_auth_frame try_reserve_exact challenge ;;
  let~ response := read_auth_frame in
  let~ context := elift (server_accept call_key pending response) in
  run~ write_auth_frame try_reserve_exact AuthAccepted ;;
  eret context.

End auth.

(** ** Framing: theorems *)

Lemma feed_counter ps c :
  0 <= counter_length c <= maximum c -> maximum c <= USIZE_MAX ->
  if counter_length c + zlen (concat ps) <=? maximum c
  then feed counter_write ps c =
       ({| counter_length := counter_length c + zlen (concat ps); maximum := maximum c;
           exceeded := exceeded c |}, Ok tt)
  else exists c' e, feed counter_write ps c = (c', Err e) /\ exceeded c' = true.
Proof.
  revert c; induction ps as [|p ps IH]; intros [len mx ex] Hl Hm; cbn in Hl, Hm.
  - cbn. rewrite zlen_nil, Z.add_0_r. by rewrite (proj2 (Z.leb_le _ _)) by lia.
  - cbn [feed concat]. rewrite zlen_app. pose proof (zlen_nonneg p).
    pose proof (zlen_nonneg (concat ps)). unfold ebind, counter_write. cbn.
    destruct (checked_add _ _ _) as [n|] eqn:Ha.
    + apply checked_add_some in Ha as [-> Ha]. destruct (Z.ltb_spec mx (len + zlen p)).
      * rewrite (proj2 (Z.leb_gt _ _)) by lia. eauto.
      * specialize (IH {| counter_length := len + zlen p; maximum := mx; exceeded := ex |}).
        cbn in IH. rewrite <-Z.add_assoc in IH. apply IH; lia.
    + apply checked_add_none in Ha. rewrite (proj2 (Z.leb_gt _ _)) by lia. eauto.
Qed.

Lemma feed_buffer ps b :
  zlen (buffer_bytes b) + zlen (concat ps) <= expected b -> expected b <= USIZE_MAX ->
  feed buffer_write ps b =
  ({| buffer_bytes := buffer_bytes b ++ concat ps; expected := expected b |}, Ok tt).
Proof.
  revert b; induction ps as [|p ps IH]; intros [bs ex]; cbn [buffer_bytes expected feed concat].
  - by rewrite app_nil_r.
  - rewrite zlen_app. pose proof (zlen_nonneg (concat ps)). intros Hl He.
    unfold ebind, buffer_write. cbn. unfold checked_add.
    rewrite (proj2 (Z.leb_le _ _)), (proj2 (Z.ltb_ge _ _)) by lia.
    rewrite IH; cbn; rewrite ?zlen_app; [by rewrite app_assoc|lia..].
Qed.

Section framing_theory.
Context `{Json Frame, JsonWriter Frame, !JsonWriterLaws Frame} (try_reserve_exact : Z -> bool).

Lemma serialize_exact f limit :
  0 <= limit <= USIZE_MAX ->
  serialize_frame_bounded try_reserve_exact f limit =
  match to_vec f with
  | None => Err "serialize frame"
  | Some bs =>
      if zlen bs <=? limit
      then if try_reserve_exact (zlen bs) then Ok bs else Err "reserve bounded frame buffer"
      else Err "frame too large"
  end.
Proof.
  intros Hm. unfold serialize_frame_bounded, encoded_frame_len_limited, to_writer.
  rewrite to_chunks_to_vec. destruct (to_chunks f) as [ps|]; [|done].
  cbn [option_map ok_or elift ebind]. unfold ebind, elift.
  pose proof (feed_counter ps (counter_new limit)) as Hc.
  unfold counter_new in *. cbn [counter_length maximum exceeded] in Hc.
  specialize (Hc ltac:(lia) ltac:(lia)). rewrite Z.add_0_l in Hc.
  pose proof (zlen_nonneg (concat ps)).
  destruct (Z.leb_spec (zlen (concat ps)) limit).
  - rewrite Hc. cbn [rbind counter_length]. unfold buffer_new.
    destruct (try_reserve_exact _); [cbn [rbind ensure]|done].
    rewrite feed_buffer by (cbn [buffer_bytes expected]; rewrite ?zlen_nil; lia).
    cbn. by rewrite Z.eqb_refl.
  - destruct Hc as (c' & e & -> & Hx). cbn. by rewrite Hx.
Qed.

(** Sizing a frame with the counting writer and then serializing it into
    the preallocated buffer yields exactly the JSON text of the frame when it
    fits the limit and an error otherwise; the length check between the two
    passes never fires. *)
Theorem bounded_serialization_exact f limit :
  0 <= limit <= USIZE_MAX ->
  serialize_frame_bounded try_reserve_exact f limit =
  match to_vec f with
  | None => Err "serialize frame"
  | Some bs =>
      if zlen bs <=? limit
      then if try_reserve_exact (zlen bs) then Ok bs else Err "reserve bounded frame buffer"
      else Err "frame too large"
  end.
Proof. apply serialize_exact. Qed.

(** A frame that can be sent under a limit, with its text. *)
Definition sends (limit : Z) (f : Frame) (bs : bytes) : Prop :=
  to_vec f = Some bs /\ zlen bs <= limit /\ try_reserve_exact (zlen bs) = true.

Lemma serialize_sends f limit bs :
  0 <= limit <= USIZE_MAX ->
  serialize_frame_bounded try_reserve_exact f limit = Ok bs <-> sends limit f bs.
Proof.
  intros Hm. unfold sends. rewrite serialize_exact by done.
  destruct (to_vec f) as [b|]; [|split; [done|by intros [? _]]].
  destruct (Z.leb_spec (zlen b) limit); [|split; [done|intros ([= <-] & ? & _); lia]].
  destruct (try_reserve_exact (zlen b)) eqn:Hr; split; try done.
  - by intros [= <-].
  - by intros ([= <-] & _).
  - intros ([= <-] & _ & ?). congruence.
Qed.

(** The bytes of a frame on the transport. *)
Definition framed (bs : bytes) : bytes := be32 (zlen bs) ++ bs.

Lemma wire_write_frame f limit bs w :
  0 <= limit <= U32_MAX -> sends limit f bs ->
  write_frame_limited try_reserve_exact f limit w =
  ({| wire_in := wire_in w; wire_out := wire_out w ++ framed bs |}, Ok tt).
Proof.
  intros Hl Hs. unfold write_frame_limited, write_frame_limited_with_written_callback.
  rewrite (proj2 (serialize_sends f limit bs ltac:(unfold USIZE_MAX, U64_MAX, U32_MAX in *; lia)) Hs).
  destruct Hs as (_ & Hb & _). unfold ebind, elift, map_err, ok_or, try_from_max.
  rewrite (proj2 (Z.leb_le _ _)) by lia. cbn. by rewrite <-app_assoc.
Qed.

Context `{!JsonLawsOn Frame float_free}.

Lemma be32_split n : exists b0 b3, be32 n = b0 :: b3 /\ zlen b3 = 3.
Proof. unfold be32. cbn. eauto. Qed.

Lemma of_be32 n : 0 <= n <= U32_MAX -> of_be (be32 n) = n.
Proof. intros Hn. apply of_be_be_bytes_small. by apply is_u32_range. Qed.

Lemma wire_read_frame f limit bs rest out :
  float_free f = true -> to_vec f = Some bs -> zlen bs <= limit <= U32_MAX ->
  read_frame_limited limit {| wire_in := framed bs ++ rest; wire_out := out |} =
  ({| wire_in := rest; wire_out := out |}, Ok (Some f)).
Proof.
  intros Hf Hv Hl. unfold framed. pose proof (zlen_nonneg bs).
  destruct (be32_split (zlen bs)) as (b0 & b3 & Eb & H3). rewrite <-app_assoc, Eb.
  unfold read_frame_limited. cbn [app]. erewrite ebind_pass by apply wire_read_byte_cons.
  cbv beta iota zeta. erewrite ebind_pass; [|apply emap_err_ok; by apply wire_read_exact_app].
  cbv beta. rewrite <-Eb, of_be32 by lia.
  rewrite ensure_pass_eff by (rewrite (proj2 (Z.ltb_ge _ _)); [done|lia]).
  erewrite ebind_pass by by apply wire_read_exact_app.
  by rewrite (from_slice_to_vec_on _ _ Hf Hv).
Qed.

(** Writing frames one after the other; reading up to [n] frames, until the
    transport is closed. *)
Fixpoint write_frames {S} `{AsyncStream S} (limit : Z) (fs : list Frame) : eff S io_error unit :=
  match fs with
  | [] => eret tt
  | f :: fs' =>
      run~ write_frame_limited try_reserve_exact f limit ;; write_frames limit fs'
  end.

Fixpoint read_frames {S} `{AsyncStream S} (n : nat) (limit : Z)
  : eff S io_error (list Frame) :=
  match n with
  | O => eret []
  | Datatypes.S m =>
      let~ f := read_frame_limited limit in
      match f with
      | None => eret []
      | Some f => let~ fs := read_frames m limit in eret (f :: fs)
      end
  end.

Lemma read_frames_S {S} `{AsyncStream S} n limit (s : S) :
  read_frames (Datatypes.S n) limit s =
  (let~ f := read_frame_limited limit in
   match f with
   | None => eret []
   | Some f => let~ fs := read_frames n limit in eret (f :: fs)
   end) s.
Proof. done. Qed.

Lemma wire_write_frames limit fs texts w :
  0 <= limit <= U32_MAX -> Forall2 (sends limit) fs texts ->
  write_frames limit fs w =
  ({| wire_in := wire_in w; wire_out := wire_out w ++ concat (map framed texts) |}, Ok tt).
Proof.
  intros Hl Hs. revert w. induction Hs as [|f bs fs texts Hf Hs IH]; intros w; cbn.
  - rewrite app_nil_r. by destruct w.
  - erewrite ebind_pass by by apply wire_write_frame. rewrite IH. cbn. by rewrite <-app_assoc.
Qed.

Lemma wire_read_frames limit fs texts out :
  limit <= U32_MAX -> Forall2 (sends limit) fs texts ->
  Forall (fun f => float_free f = true) fs ->
  read_frames (Datatypes.S (length fs)) limit
    {| wire_in := concat (map framed texts); wire_out := out |} =
  ({| wire_in := []; wire_out := out |}, Ok fs).
Proof.
  intros Hl Hs Hff. induction Hs as [|f bs fs texts (Hv & Hb & _) Hs IH]; [done|].
  inversion_clear Hff. cbn [length map concat].
  rewrite read_frames_S. erewrite ebind_pass by (apply wire_read_frame; done).
  cbv beta iota. by erewrite ebind_pass by by apply IH.
Qed.

Lemma wire_read_torn bs limit p q out :
  framed bs = p ++ q -> p <> [] -> q <> [] -> zlen bs <= U32_MAX ->
  exists w e, read_frame_limited limit {| wire_in := p; wire_out := out |} = (w, Err e).
Proof.
  intros E Hp Hq Hb. destruct p as [|b0 p]; [done|]. unfold framed in E.
  destruct (be32_split (zlen bs)) as (b0' & b3 & Eb & H3). rewrite Eb in E.
  injection E as <- E. unfold read_frame_limited.
  erewrite ebind_pass by apply wire_read_byte_cons. cbv beta iota zeta.
  destruct (Z.leb_spec 3 (zlen p)) as [Hl|Hl].
  - assert (exists p', p = b3 ++ p' /\ bs = p' ++ q) as (p' & -> & ->).
    { apply app_eq_app in E as (l & [[-> ->]|[-> ->]]); [|eauto].
      rewrite zlen_app in H3. assert (zlen l = 0) as ->%zlen_zero by (pose proof (zlen_nonneg l); lia).
      exists []. by rewrite !app_nil_r. }
    erewrite ebind_pass; [|apply emap_err_ok; by apply wire_read_exact_app].
    cbv beta. rewrite <-Eb, of_be32 by (split; auto with serctl).
    destruct (limit <? _); [by repeat eexists|]. rewrite ensure_pass_eff by done.
    erewrite ebind_stop; [by repeat eexists|]. apply wire_read_exact_short. rewrite zlen_app.
    destruct q; [done|]. rewrite zlen_cons. pose proof (zlen_nonneg q). lia.
  - erewrite ebind_stop; [by repeat eexists|].
    by apply emap_err_stop, wire_read_exact_short.
Qed.

(** Frames written one after the other on a transport are read back as the
    same frames in the same order, ending in a clean close; a transport that
    ends anywhere inside a frame, its length prefix included, is an error and
    never a clean close. *)
Theorem ipc_stream_roundtrip limit fs texts :
  0 <= limit <= U32_MAX -> Forall2 (sends limit) fs texts ->
  Forall (fun f => float_free f = true) fs ->
  (exists w, write_frames limit fs {| wire_in := []; wire_out := [] |} = (w, Ok tt) /\
    read_frames (S (length fs)) limit {| wire_in := wire_out w; wire_out := [] |} =
    ({| wire_in := []; wire_out := [] |}, Ok fs)) /\
  forall bs p q, bs ∈ texts -> framed bs = p ++ q -> p <> [] -> q <> [] ->
    exists w e, read_frame_limited limit {| wire_in := p; wire_out := [] |} = (w, Err e).
Proof.
  intros Hl Hs Hff. split.
  - eexists. split; [by eapply wire_write_frames|]. cbn. apply wire_read_frames; [lia|done..].
  - intros bs p q Hin E Hp Hq. eapply wire_read_torn; [done..|].
    apply list_elem_of_lookup in Hin as (i & Hi).
    destruct (Forall2_lookup_r _ _ _ _ _ Hs Hi) as (f & _ & _ & Hb & _). lia.
Qed.
End framing_theory.

(** ** Authentication: theorems *)

(** An HMAC collision under a key. *)
Definition hmac_collision `{HmacSha2} (key m n : bytes) : Prop :=
  m <> n /\ hmac_sha256 key m = hmac_sha256 key n.

Section auth_theory.
Context `{Sha2, !Sha2Laws, HmacSha2, !HmacSha2Laws, Hex, !HexLaws, Base64, !Base64Laws}.

Lemma decode_base64_32_encode label b :
  zlen b = 32 -> decode_base64_32 label (b64_encode b) = Ok b.
Proof.
  intros Hb. unfold decode_base64_32. rewrite b64_decode_encode. cbn.
  rewrite (proj2 (Z.eqb_eq _ _)) by done. cbn. by rewrite bool_decide_true.
Qed.

Lemma decode_base64_32_ok label s b :
  decode_base64_32 label s = Ok b -> zlen b = 32 /\ s = b64_encode b.
Proof. unfold decode_base64_32. intros Hd. checks. done. Qed.

Lemma hmac_zlen k m : zlen (hmac_sha256 k m) = 32.
Proof. unfold zlen. by rewrite hmac_length. Qed.
Lemma sha256_zlen m : zlen (sha256 m) = 32.
Proof. unfold zlen. by rewrite sha256_length. Qed.

Lemma verify_encoded_proof key domain version profile endpoint cn sn commitment :
  verify_proof key domain version profile endpoint cn sn commitment
    (encoded_proof key domain version profile endpoint cn sn commitment) = Ok tt.
Proof.
  unfold verify_proof, encoded_proof.
  rewrite decode_base64_32_encode by apply hmac_zlen. cbn. by rewrite bool_decide_true.
Qed.

Lemma verify_proof_ok key domain version profile endpoint cn sn commitment encoded :
  verify_proof key domain version profile endpoint cn sn commitment encoded = Ok tt ->
  encoded = encoded_proof key domain version profile endpoint cn sn commitment.
Proof.
  unfold verify_proof. intros Hv. inv_ok. apply decode_base64_32_ok in Hr as [_ ->].
  checks. unfold encoded_proof. congruence.
Qed.

Lemma verify_request_once k f ctx ctx' r :
  verify_request k f ctx = (ctx', r) ->
  forall k' g, exists e, verify_request k' g ctx' = (ctx', Err e).
Proof. intros [= <- _] k' g. cbn. eauto. Qed.

Lemma commitment_binds k f g c df dg mf mg :
  request_typed f -> request_typed g ->
  canonical_request_message f = Ok mf -> canonical_request_message g = Ok mg ->
  canonical_request_digest f = Ok df -> canonical_request_digest g = Ok dg ->
  request_intent_commitment k f = Ok c -> request_intent_commitment k g = Ok c ->
  intent_of f = intent_of g \/ sha256_collision mf mg \/
  hmac_collision k (INTENT_COMMITMENT_DOMAIN ++ be16 IPC_PROTOCOL_VERSION ++ df)
                   (INTENT_COMMITMENT_DOMAIN ++ be16 IPC_PROTOCOL_VERSION ++ dg).
Proof.
  intros Tf Tg Mf Mg Df Dg. unfold request_intent_commitment. rewrite Df, Dg. cbn [rbind].
  intros [= Hf] [= Hg]. destruct (decide (df = dg)) as [<-|Hne].
  - unfold canonical_request_digest in *. rewrite Mf in Df. rewrite Mg in Dg. cbn in Df, Dg.
    destruct (decide (mf = mg)) as [<-|]; [left|right; left; split; [done|congruence]].
    by eapply same_message_same_intent.
  - right; right. split; [|exact (eq_trans Hf (eq_sym Hg))]. intros E. by apply app_inv_head, app_inv_head in E.
Qed.

Lemma client_exchange_commitment profile token k f n x :
  client_exchange profile token (Some k) (Some f) n = Ok x ->
  exists c, request_intent_commitment k f = Ok c /\ ex_commitment x = Some c /\ zlen c = 32.
Proof.
  unfold client_exchange. destruct (request_intent_commitment k f) as [c|] eqn:Hc;
    intros Hx; inv_ok. eexists. split_and!; [done..|].
  unfold request_intent_commitment in Hc. inv_ok. apply hmac_zlen.
Qed.

Lemma client_exchange_fields profile token ck rq n x :
  client_exchange profile token ck rq n = Ok x ->
  ex_profile x = profile /\ ex_client_nonce x = n /\ ex_call_key x = ck /\
  ex_endpoint_id x = endpoint_id_with_token profile (ex_token x) /\
  decode_base64_32 "IPC token" token = Ok (ex_token x) /\
  validate_profile_name profile = Ok tt /\
  match ck, ex_commitment x with
  | Some _, Some c => zlen c = 32
  | None, None => True
  | _, _ => False
  end.
Proof.
  unfold client_exchange. intros Hx. inv_ok. cbn. split_and!; try done.
  destruct ck as [k|], rq as [f|]; inv_ok; try done.
  unfold request_intent_commitment in *. inv_ok. apply hmac_zlen.
Qed.

(** The retry loop ends at the first draw that differs from the client's. *)
Lemma fresh_nonce_total cn draws :
  Exists (fun d => cn <> d) draws -> is_Some (fresh_nonce cn draws).
Proof.
  induction 1 as [d ds Hd|d ds Hd IH]; cbn; case_bool_decide; eauto; done.
Qed.

Lemma fresh_nonce_ne cn draws sn : fresh_nonce cn draws = Some sn -> cn <> sn /\ sn ∈ draws.
Proof.
  induction draws as [|d ds IH]; cbn; [done|].
  case_bool_decide; [intros Hf; apply IH in Hf; set_solver|]. intros [= <-]. set_solver.
Qed.

(** What the server's half of the handshake has checked, whoever the peer is. *)
Lemma server_challenge_ok profile tok k draws hello ch p :
  server_challenge profile tok k draws hello = Ok (ch, p) ->
  pd_profile p = profile /\ pd_token p = tok /\
  pd_endpoint_id p = endpoint_id_with_token profile tok /\
  zlen (pd_client_nonce p) = 32 /\ pd_client_nonce p <> pd_server_nonce p /\
  pd_server_nonce p ∈ draws.
Proof.
  unfold server_challenge. intros Hs. apply rbind_ok in Hs as ([cn co] & _ & Hs). inv_ok.
  match goal with Hd : decode_base64_32 _ cn = _ |- _ => apply decode_base64_32_ok in Hd as [Hl _] end.
  match goal with Hf : fresh_nonce _ _ = _ |- _ => apply fresh_nonce_ne in Hf as [Hne Hin] end.
  done.
Qed.

Lemma server_accept_ok k p response ctx c :
  server_accept k p response = Ok ctx -> context_commitment ctx = Some c ->
  pd_commitment p = Some c /\ request_verified ctx = false /\
  response = AuthResponse
    (encoded_proof (pd_token p) CLIENT_PROOF_DOMAIN IPC_PROTOCOL_VERSION (pd_profile p)
       (pd_endpoint_id p) (pd_client_nonce p) (pd_server_nonce p) (Some c))
    (Some (encoded_proof k CLIENT_CALL_PROOF_DOMAIN IPC_PROTOCOL_VERSION (pd_profile p)
       (pd_endpoint_id p) (pd_client_nonce p) (pd_server_nonce p) (Some c))).
Proof.
  unfold server_accept. intros Ha Hc. apply rbind_ok in Ha as ([cp ccp] & Hr & Ha). inv_ok.
  cbn in Hc. rewrite Hc in *. destruct response; try discriminate Hr. injection Hr as -> ->.
  destruct ccp as [ccp|]; [|done]. repeat match goal with
  | Hv : verify_proof _ _ _ _ _ _ _ _ _ = Ok _ |- _ => apply verify_proof_ok in Hv as -> end. done.
Qed.

Lemma client_response_ok x k c challenge response :
  ex_call_key x = Some k -> ex_commitment x = Some c -> client_response x challenge = Ok response ->
  exists encoded sn p q, challenge = AuthChallenge IPC_PROTOCOL_VERSION encoded p q /\
    encoded = b64_encode sn /\ zlen sn = 32 /\
    response = AuthResponse
      (encoded_proof (ex_token x) CLIENT_PROOF_DOMAIN IPC_PROTOCOL_VERSION (ex_profile x)
         (ex_endpoint_id x) (ex_client_nonce x) sn (Some c))
      (Some (encoded_proof k CLIENT_CALL_PROOF_DOMAIN IPC_PROTOCOL_VERSION (ex_profile x)
         (ex_endpoint_id x) (ex_client_nonce x) sn (Some c))).
Proof.
  intros Hk Hc. unfold client_response. rewrite Hk, Hc. intros Hr.
  apply rbind_ok in Hr as ([[e p] q] & Hch & Hr). inv_ok.
  destruct challenge; try discriminate Hch.
  destruct (Z.eqb_spec version IPC_PROTOCOL_VERSION) as [->|]; [|discriminate Hch].
  injection Hch as -> -> ->.
  match goal with Hd : decode_base64_32 _ e = _ |- _ => apply decode_base64_32_ok in Hd as [Hl ->] end.
  destruct q; [|done]. inv_ok. eauto 10.
Qed.

(** The message of a proof determines what the proof is about. *)
Lemma endpoint_id_length profile tok : zlen (endpoint_id_with_token profile tok) = 32.
Proof.
  unfold endpoint_id_with_token, zlen. rewrite length_take, hex_encode_length, sha256_length. done.
Qed.

Lemma proof_message_inj domain version profile ep cn sn c profile' ep' cn' sn' c' :
  zlen profile <= U32_MAX -> zlen profile' <= U32_MAX -> zlen ep = zlen ep' ->
  zlen cn = zlen cn' -> zlen sn = zlen sn' ->
  proof_message domain version profile ep cn sn (Some c) =
    proof_message domain version profile' ep' cn' sn' (Some c') ->
  profile = profile' /\ ep = ep' /\ cn = cn' /\ sn = sn' /\ c = c'.
Proof.
  unfold proof_message, zlen. intros Hp Hp' He Hc Hs E. apply app_inv_head, app_inv_head in E.
  apply app_inv_length in E as [El E]; [|by unfold be32; rewrite !length_be_bytes].
  apply (f_equal of_be) in El. unfold be32 in El.
  rewrite !of_be_be_bytes_small in El by (apply is_u32_range; unfold is_u32; lia).
  apply app_inv_length in E as [-> E]; [|lia].
  apply app_inv_length in E as [_ E]; [|by unfold be32; rewrite !length_be_bytes].
  apply app_inv_length in E as [-> E]; [|lia]. apply app_inv_length in E as [-> E]; [|lia].
  apply app_inv_length in E as [-> E]; [|lia]. by injection E as ->.
Qed.

Lemma profile_name_short profile : validate_profile_name profile = Ok tt -> zlen profile <= U32_MAX.
Proof. unfold validate_profile_name. intros Hv. checks. unfold U32_MAX. lia. Qed.

(** The commitments to two requests collide, in HMAC or in the digests. *)
Definition commitment_collision (k : bytes) (f g : Frame) : Prop :=
  exists df dg mf mg,
    canonical_request_message f = Ok mf /\ canonical_request_message g = Ok mg /\
    canonical_request_digest f = Ok df /\ canonical_request_digest g = Ok dg /\
    (sha256_collision mf mg \/
     hmac_collision k (INTENT_COMMITMENT_DOMAIN ++ be16 IPC_PROTOCOL_VERSION ++ df)
                      (INTENT_COMMITMENT_DOMAIN ++ be16 IPC_PROTOCOL_VERSION ++ dg)).

Lemma same_commitment k f g c :
  request_typed f -> request_typed g ->
  request_intent_commitment k f = Ok c -> request_intent_commitment k g = Ok c ->
  intent_of f = intent_of g \/ commitment_collision k f g.
Proof.
  intros Tf Tg Hf Hg.
  assert (forall h, request_intent_commitment k h = Ok c -> exists m d,
    canonical_request_message h = Ok m /\ canonical_request_digest h = Ok d) as Hm.
  { intros h Hh. unfold request_intent_commitment in Hh. apply rbind_ok in Hh as (d & Hd & _).
    pose proof Hd as Hd'. unfold canonical_request_digest in Hd'. apply rbind_ok in Hd' as (m & Hm & _).
    eauto. }
  destruct (Hm _ Hf) as (mf & df & Mf & Df), (Hm _ Hg) as (mg & dg & Mg & Dg).
  destruct (commitment_binds k f g c df dg mf mg) as [?|Hcol]; [done..|by left|].
  right. by exists df, dg, mf, mg.
Qed.

(** The message a client that committed to [c] authenticates with its call key. *)
Definition call_message (profile ep cn sn c : bytes) : bytes :=
  proof_message CLIENT_CALL_PROOF_DOMAIN IPC_PROTOCOL_VERSION profile ep cn sn (Some c).

(** C36: a v5 server authorizes a request only for a peer that has proved, in
    this very exchange, to hold the token and the call key and to have
    committed to that request; and only once.

    Whatever hello opened the exchange and whatever response came: if the server
    then lets [g] pass, the response consists of the HMACs under the token and
    under the call key of a nonce the server has just drawn and the commitment
    to [g].  And if the response is that of a client which asked for [f] with
    this call key, whatever challenge it answered, then the two agree on the
    profile and on both nonces, and [g] has the intent of [f]; unless HMAC
    collides on the two messages, or the commitments do. *)
Theorem v5_authorizes_committed_request profile tok k draws hello challenge pending response ctx g ctx' :
  validate_profile_name profile = Ok tt ->
  Forall (fun d => zlen d = 32) draws ->
  server_challenge profile tok k draws hello = Ok (challenge, pending) ->
  server_accept k pending response = Ok ctx ->
  verify_request k g ctx = (ctx', Ok tt) ->
  let ep := endpoint_id_with_token profile tok in
  exists cn sn c,
    sn ∈ draws /\ cn <> sn /\ request_intent_commitment k g = Ok c /\
    response = AuthResponse
      (encoded_proof tok CLIENT_PROOF_DOMAIN IPC_PROTOCOL_VERSION profile ep cn sn (Some c))
      (Some (b64_encode (hmac_sha256 k (call_message profile ep cn sn c)))) /\
    (forall k' h, exists e, verify_request k' h ctx' = (ctx', Err e)) /\
    forall profile' token f n x challenge',
      request_typed f -> request_typed g -> zlen n = 32 ->
      client_exchange profile' token (Some k) (Some f) n = Ok x ->
      client_response x challenge' = Ok response ->
      exists sn' cf p q,
        challenge' = AuthChallenge IPC_PROTOCOL_VERSION (b64_encode sn') p q /\
        request_intent_commitment k f = Ok cf /\
        (profile' = profile /\ n = cn /\ sn' = sn /\
           (intent_of f = intent_of g \/ commitment_collision k f g) \/
         hmac_collision k (call_message profile' (ex_endpoint_id x) n sn' cf)
                          (call_message profile ep cn sn c)).
Proof.
  intros Hp%profile_name_short Hd Hs Ha Hv ep.
  apply server_challenge_ok in Hs as (Ep & Et & Ee & Hcn & Hne & Hin).
  pose proof (verify_request_once _ _ _ _ _ Hv) as Honce.
  unfold verify_request in Hv. injection Hv as <- Hv. inv_ok.
  apply bool_decide_eq_true in Hr2 as ->. rename v0 into c, Hr0 into Hctx, Hr1 into Hc.
  destruct (server_accept_ok _ _ _ _ c Ha Hctx) as (_ & _ & Er). rewrite Ep, Et, Ee in Er.
  exists (pd_client_nonce pending), (pd_server_nonce pending), c.
  split_and!; [done..|]. intros profile' token f n x challenge' Tf Tg Hn Hx Hr'.
  pose proof (client_exchange_fields _ _ _ _ _ _ Hx) as (Xp & Xn & Xk & Xe & _ & Hp'%profile_name_short & _).
  apply client_exchange_commitment in Hx as (cf & Hf & Xc & _).
  apply (client_response_ok _ k cf) in Hr' as (e & sn' & p & q & -> & -> & Hsn' & Er'); [|done..].
  exists sn', cf, p, q. split; [done|]. split; [done|]. rewrite Er in Er'. injection Er' as _ Eh.
  apply b64_encode_inj in Eh. unfold proof_mac in Eh. rewrite Xp, Xn in Eh.
  fold (call_message profile ep (pd_client_nonce pending) (pd_server_nonce pending) c) in Eh.
  fold (call_message profile' (ex_endpoint_id x) n sn' cf) in Eh.
  destruct (decide (call_message profile' (ex_endpoint_id x) n sn' cf =
    call_message profile ep (pd_client_nonce pending) (pd_server_nonce pending) c)) as [Em|Em];
    [left|by right].
  rewrite Forall_forall in Hd. apply proof_message_inj in Em as (-> & _ & -> & -> & ->);
    [|done|done|unfold ep; by rewrite Xe, !endpoint_id_length|congruence|by rewrite (Hd _ Hin)].
  split_and!; [done..|]. by eapply same_commitment.
Qed.

Lemma honest_exchange profile token ck rq n x k draws sn :
  client_exchange profile token ck rq n = Ok x -> ck = None \/ ck = Some k ->
  zlen n = 32 -> zlen sn = 32 -> fresh_nonce n draws = Some sn ->
  exists ch p r,
    server_challenge profile (ex_token x) k draws (client_hello x) = Ok (ch, p) /\
    client_response x ch = Ok r /\
    server_accept k p r =
      Ok {| context_commitment := ex_commitment x; request_verified := false |} /\
    float_free ch = true /\ float_free r = true.
Proof.
  intros Hx Hck Hn Hs Hf. apply client_exchange_fields in Hx as (<- & <- & <- & He & _ & _ & Hc).
  assert (bool_decide (ex_client_nonce x = sn) = false) as Hd.
  { by apply bool_decide_eq_false, (fresh_nonce_ne _ draws). }
  unfold server_challenge, client_hello. cbn [rbind Z.eqb IPC_PROTOCOL_VERSION Pos.eqb].
  rewrite decode_base64_32_encode by done. cbn [rbind].
  destruct x as [profile tok ep cn ck cm]; cbn in *. subst ep.
  destruct ck as [k'|], cm as [c|]; try done;
    [destruct Hck as [|[= ->]]; [done|]; cbn; rewrite decode_base64_32_encode by done; cbn|cbn];
    rewrite Hf; cbn; do 3 eexists; split; try done;
    unfold client_response; cbn; rewrite decode_base64_32_encode by done; cbn;
    rewrite Hd; cbn; rewrite !verify_encoded_proof; cbn; (split; [done|]);
    unfold server_accept; cbn; rewrite ?verify_encoded_proof; cbn; by rewrite ?verify_encoded_proof.
Qed.

Context `{Json Frame, JsonWriter Frame, !JsonWriterLaws Frame, !JsonLawsOn Frame float_free}
        (try_reserve_exact : Z -> bool).
Notation sends_auth := (sends try_reserve_exact MAX_AUTH_FRAME).

Lemma wire_write_auth f bs w : sends_auth f bs ->
  write_auth_frame try_reserve_exact f w =
  ({| wire_in := wire_in w; wire_out := wire_out w ++ framed bs |}, Ok tt).
Proof.
  intros Hs. apply timed_ok, wire_write_frame; [|done]. unfold MAX_AUTH_FRAME, U32_MAX. lia.
Qed.

Lemma wire_read_auth f bs rest out : float_free f = true -> sends_auth f bs ->
  read_auth_frame {| wire_in := framed bs ++ rest; wire_out := out |} =
  ({| wire_in := rest; wire_out := out |}, Ok f).
Proof.
  intros Hf (Hv & Hb & _). unfold read_auth_frame.
  assert (zlen bs <= MAX_AUTH_FRAME <= U32_MAX) by (unfold MAX_AUTH_FRAME, U32_MAX in *; lia).
  by erewrite ebind_pass by by apply timed_ok, wire_read_frame.
Qed.

Lemma wire_read_auth_eof out :
  read_auth_frame {| wire_in := []; wire_out := out |} =
  ({| wire_in := []; wire_out := out |}, Err "IPC peer disconnected during authentication").
Proof. done. Qed.

(** Two honest v5 peers complete the handshake.  With the same profile,
    token and call key, a client nonce and a differing server draw, the client
    alone sends its hello and waits; on it the server sends its challenge and
    waits; on that the client sends its response and waits; on that the server
    accepts with the client's commitment, and on the acceptance the client
    returns.  The context the server returns then lets the client's own
    request pass. *)
Theorem v5_handshake_completes profile token ck rq n x k draws sn :
  client_exchange profile token ck rq n = Ok x -> ck = None \/ ck = Some k ->
  zlen n = 32 -> zlen sn = 32 -> fresh_nonce n draws = Some sn ->
  exists ch r ctx, forall th tc tr ta,
    sends_auth (client_hello x) th -> sends_auth ch tc -> sends_auth r tr ->
    sends_auth AuthAccepted ta ->
    let client input := authenticate_client_inner try_reserve_exact profile token ck rq n
                          {| wire_in := input; wire_out := [] |} in
    let server input := authenticate_server try_reserve_exact profile token k draws
                          {| wire_in := input; wire_out := [] |} in
    let waiting := "IPC peer disconnected during authentication" in
    client [] = ({| wire_in := []; wire_out := framed th |}, Err waiting) /\
    server (framed th) = ({| wire_in := []; wire_out := framed tc |}, Err waiting) /\
    client (framed tc) =
      ({| wire_in := []; wire_out := framed th ++ framed tr |}, Err waiting) /\
    server (framed th ++ framed tr) =
      ({| wire_in := []; wire_out := framed tc ++ framed ta |}, Ok ctx) /\
    client (framed tc ++ framed ta) =
      ({| wire_in := []; wire_out := framed th ++ framed tr |}, Ok tt) /\
    forall f, ck = Some k -> rq = Some f -> (verify_request k f ctx).2 = Ok tt.
Proof.
  intros Hx Hck Hn Hs Hf.
  destruct (honest_exchange _ _ _ _ _ _ k draws sn Hx Hck Hn Hs Hf)
    as (ch & p & r & Hch & Hr & Hacc & Fch & Fr).
  pose proof (client_exchange_fields _ _ _ _ _ _ Hx) as (_ & _ & _ & _ & Htok & Hprof & _).
  exists ch, r, {| context_commitment := ex_commitment x; request_verified := false |}.
  intros th tc tr ta Sh Sc Sr Sa client server waiting.
  assert (forall input, client input =
    (let~ challenge := read_auth_frame in
     let~ response := elift (client_response x challenge) in
     run~ write_auth_frame try_reserve_exact response ;;
     let~ accepted := read_auth_frame in
     ensure~ match accepted with AuthAccepted => true | _ => false end
       or "unexpected IPC authorization completion frame" ;;
     eret tt) {| wire_in := input; wire_out := framed th |}) as Ec.
  { intros input. unfold client, authenticate_client_inner.
    erewrite ebind_pass by (apply elift_ok; by rewrite Hx).
    by erewrite ebind_pass by by apply wire_write_auth. }
  assert (forall input, server (framed th ++ input) =
    (let~ response := read_auth_frame in
     let~ context := elift (server_accept k p response) in
     run~ write_auth_frame try_reserve_exact AuthAccepted ;;
     eret context) {| wire_in := input; wire_out := framed tc |}) as Es.
  { intros input. unfold server, authenticate_server.
    erewrite ebind_pass by (apply elift_ok; by rewrite Hprof).
    erewrite ebind_pass by (apply elift_ok; by rewrite Htok).
    erewrite ebind_pass by by apply (wire_read_auth (client_hello x)).
    erewrite ebind_pass by (apply elift_ok; by rewrite Hch).
    cbv beta iota.
    by erewrite ebind_pass by by apply wire_write_auth. }
  clearbody client server. split_and!.
  - rewrite Ec. by erewrite ebind_stop by apply wire_read_auth_eof.
  - rewrite <-(app_nil_r (framed th)), Es. by erewrite ebind_stop by apply wire_read_auth_eof.
  - rewrite Ec, <-(app_nil_r (framed tc)).
    erewrite ebind_pass by by apply (wire_read_auth ch).
    erewrite ebind_pass by (apply elift_ok; by rewrite Hr).
    erewrite ebind_pass by by apply wire_write_auth.
    by erewrite ebind_stop by apply wire_read_auth_eof.
  - rewrite Es, <-(app_nil_r (framed tr)).
    erewrite ebind_pass by by apply (wire_read_auth r).
    erewrite ebind_pass by (apply elift_ok; by rewrite Hacc).
    by erewrite ebind_pass by by apply wire_write_auth.
  - rewrite Ec. erewrite ebind_pass by by apply (wire_read_auth ch).
    erewrite ebind_pass by (apply elift_ok; by rewrite Hr).
    erewrite ebind_pass by by apply wire_write_auth.
    rewrite <-(app_nil_r (framed ta)). by erewrite ebind_pass by by apply (wire_read_auth AuthAccepted).
  - intros f -> ->. apply client_exchange_commitment in Hx as (c & Hfc & Hxc & _).
    rewrite Hxc. cbn. rewrite Hfc. cbn. by rewrite bool_decide_true.
Qed.

End auth_theory.

(** ** A serializer for some frames, to run the models *)
Module FrameStandIn.
Import StandIn IpcStandIn.

Definition opt_field (o : option str) : bytes :=
  match o with None => [x00] | Some s => x01 :: s end.
Definition of_opt_field (b : bytes) : option (option str) :=
  match b with
  | [] => None
  | x00 :: [] => Some None
  | x01 :: s => Some (Some s)
  | _ => None
  end.

Definition frame_fields (f : Frame) : list bytes :=
  match f with
  | AuthHello v n c => [u8 0; be16 v; n; opt_field c]
  | AuthResponse p c => [u8 1; p; opt_field c]
  | AuthChallenge v n p c => [u8 2; be16 v; n; p; opt_field c]
  | AuthAccepted => [u8 3; []]
  | Exec c t => [u8 4; c; be64 t]
  | Ack => [u8 5; []]
  | ShellInput d => [u8 6; d]
  | _ => [u8 7; []]
  end.

Definition of_frame_fields (l : list bytes) : option Frame :=
  match l with
  | [t; v; n; c] => if bool_decide (t = u8 0) then c ← of_opt_field c; Some (AuthHello (of_be v) n c) else None
  | [t; x; c] =>
      if bool_decide (t = u8 1) then c ← of_opt_field c; Some (AuthResponse x c)
      else if bool_decide (t = u8 4) then Some (Exec x (of_be c)) else None
  | [t; v; n; p; c] =>
      if bool_decide (t = u8 2) then c ← of_opt_field c; Some (AuthChallenge (of_be v) n p c) else None
  | [t; d] =>
      if bool_decide (t = u8 3) then Some AuthAccepted
      else if bool_decide (t = u8 5) then Some Ack
      else if bool_decide (t = u8 6) then Some (ShellInput d) else None
  | _ => None
  end.

Definition frame_serializable (f : Frame) : bool :=
  match f with
  | AuthHello v _ _ | AuthChallenge v _ _ _ => in_range 0 U16_MAX v
  | Exec _ t => in_range 0 U64_MAX t
  | AuthResponse _ _ | AuthAccepted | Ack | ShellInput _ => true
  | _ => false
  end.

#[export] Instance frame_json : Json Frame :=
  fields_json frame_fields of_frame_fields frame_serializable.
#[export] Instance frame_writer : JsonWriter Frame :=
  fun f => option_map (fun bs => [take 3 bs; drop 3 bs]) (to_vec f).

#[export] Instance frame_writer_laws : JsonWriterLaws Frame.
Proof.
  split. intros f. unfold to_chunks, frame_writer. destruct (to_vec f); [|done].
  cbn [option_map concat]. by rewrite app_nil_r, take_drop.
Qed.

Lemma of_opt_field_opt c : of_opt_field (opt_field c) = Some c.
Proof. by destruct c. Qed.

Lemma of_frame_fields_fields f :
  frame_serializable f = true -> of_frame_fields (frame_fields f) = Some f.
Proof.
  destruct f; cbn -[be_bytes u8 of_be bool_decide]; intros Hs; try discriminate Hs;
    repeat (rewrite bool_decide_false by done); try (rewrite bool_decide_true by done);
    rewrite ?of_opt_field_opt; cbn -[be_bytes of_be]; try done;
    apply in_range_true in Hs; unfold be16, be64; rewrite of_be_be_bytes_small; try done;
    unfold U16_MAX, U64_MAX in Hs; lia.
Qed.

Lemma frame_json_laws : @JsonLaws Frame frame_json.
Proof.
  apply fields_json_laws; [apply of_frame_fields_fields|].
  destruct a; cbn; lia.
Qed.

#[export] Instance frame_json_laws_on : JsonLawsOn Frame float_free.
Proof. split. intros a bs _. pose proof frame_json_laws. apply from_slice_to_vec. Qed.
End FrameStandIn.

(** ** Runs *)
Module IpcAuthRuns.
Import StandIn IpcStandIn FrameStandIn.

Definition reserve (n : Z) : bool := n <=? 2 ^ 40.
Definition listing : Frame := Exec (rs "ls") 5000.
Definition text_of (f : Frame) : bytes := match to_vec f with Some b => b | None => [] end.

Lemma bounded_serialization_exact_witness :
  0 <= 16 <= USIZE_MAX /\
  serialize_frame_bounded reserve listing 4096 = Ok (text_of listing) /\
  serialize_frame_bounded reserve listing 16 = Err "frame too large".
Proof.
  split; [unfold USIZE_MAX, U64_MAX; lia|]. split.
  - rewrite (bounded_serialization_exact reserve listing 4096) by (unfold USIZE_MAX, U64_MAX; lia).
    vm_compute. reflexivity.
  - rewrite (bounded_serialization_exact reserve listing 16) by (unfold USIZE_MAX, U64_MAX; lia).
    vm_compute. reflexivity.
Defined.

Definition stream : list Frame := [listing; Ack; ShellInput (rs "q")].

Lemma ipc_stream_roundtrip_witness :
  exists w, write_frames reserve 4096 stream {| wire_in := []; wire_out := [] |} = (w, Ok tt) /\
    read_frames 4 4096 {| wire_in := wire_out w; wire_out := [] |} =
    ({| wire_in := []; wire_out := [] |}, Ok stream).
Proof.
  apply (ipc_stream_roundtrip reserve 4096 stream (map text_of stream)).
  - unfold U32_MAX. lia.
  - repeat constructor; by vm_compute.
  - repeat constructor.
Defined.

Definition token_bytes : bytes := Eval vm_compute in be_bytes 32 77.
Definition token : str := Eval vm_compute in b64_encode token_bytes.
Definition call_key : bytes := Eval vm_compute in be_bytes 32 99.
Definition client_nonce : bytes := Eval vm_compute in be_bytes 32 1.
Definition server_nonce : bytes := Eval vm_compute in be_bytes 32 2.
Definition unwrap {E A} (d : A) (r : result E A) : A := match r with Ok a => a | Err _ => d end.
Definition no_exchange : Exchange :=
  {| ex_profile := []; ex_token := []; ex_endpoint_id := []; ex_client_nonce := [];
     ex_call_key := None; ex_commitment := None |}.
Definition exchange : Exchange := Eval vm_compute in
  unwrap no_exchange (client_exchange (rs "prod") token (Some call_key) (Some listing) client_nonce).
Definition no_pending : Pending :=
  {| pd_profile := []; pd_token := []; pd_endpoint_id := []; pd_client_nonce := [];
     pd_server_nonce := []; pd_commitment := None |}.
Definition draws : list bytes := [client_nonce; server_nonce].
Definition challenge_pending : Frame * Pending := Eval vm_compute in
  unwrap (Ack, no_pending)
    (server_challenge (rs "prod") token_bytes call_key draws (client_hello exchange)).
Definition response : Frame := Eval vm_compute in
  unwrap Ack (client_response exchange challenge_pending.1).
Definition context : AuthContext := Eval vm_compute in
  unwrap {| context_commitment := None; request_verified := true |}
    (server_accept call_key challenge_pending.2 response).

Lemma v5_authorizes_committed_request_witness :
  let ep := endpoint_id_with_token (rs "prod") token_bytes in
  exists cn sn c, sn ∈ draws /\ cn <> sn /\
    request_intent_commitment call_key listing = Ok c /\
    exists sn' cf p q,
      challenge_pending.1 = AuthChallenge IPC_PROTOCOL_VERSION (b64_encode sn') p q /\
      request_intent_commitment call_key listing = Ok cf /\
      (rs "prod" = rs "prod" /\ client_nonce = cn /\ sn' = sn /\
         (intent_of listing = intent_of listing \/ commitment_collision call_key listing listing) \/
       hmac_collision call_key (call_message (rs "prod") (ex_endpoint_id exchange) client_nonce sn' cf)
                               (call_message (rs "prod") ep cn sn c)).
Proof.
  cbv zeta.
  destruct (v5_authorizes_committed_request (rs "prod") token_bytes call_key draws
    (client_hello exchange) challenge_pending.1 challenge_pending.2 response context listing
    (verify_request call_key listing context).1) as (cn & sn & c & Hin & Hne & Hc & _ & _ & Hall).
  - vm_compute. reflexivity.
  - repeat constructor.
  - vm_compute. reflexivity.
  - vm_compute. reflexivity.
  - vm_compute. reflexivity.
  - exists cn, sn, c. split; [exact Hin|]. split; [exact Hne|]. split; [exact Hc|].
    apply (Hall (rs "prod") token listing client_nonce exchange challenge_pending.1).
    + split; vm_compute; discriminate.
    + split; vm_compute; discriminate.
    + reflexivity.
    + vm_compute. reflexivity.
    + vm_compute. reflexivity.
Defined.

Lemma v5_handshake_completes_witness :
  exists ch r ctx, forall th tc tr ta,
    sends reserve MAX_AUTH_FRAME (client_hello exchange) th -> sends reserve MAX_AUTH_FRAME ch tc ->
    sends reserve MAX_AUTH_FRAME r tr -> sends reserve MAX_AUTH_FRAME AuthAccepted ta ->
    authenticate_server reserve (rs "prod") token call_key draws
      {| wire_in := framed th ++ framed tr; wire_out := [] |} =
    ({| wire_in := []; wire_out := framed tc ++ framed ta |}, Ok ctx).
Proof.
  destruct (v5_handshake_completes reserve (rs "prod") token (Some call_key) (Some listing)
              client_nonce exchange call_key draws server_nonce) as (ch & r & ctx & Hrun).
  - vm_compute. reflexivity.
  - by right.
  - vm_compute. reflexivity.
  - vm_compute. reflexivity.
  - vm_compute. reflexivity.
  - exists ch, r, ctx. intros th tc tr ta Sh Sc Sr Sa.
    exact (proj1 (proj2 (proj2 (proj2 (Hrun th tc tr ta Sh Sc Sr Sa))))).
Defined.

(** The texts of the four messages fit the authentication limit. *)
Example handshake_texts_fit :
  forallb (fun f => (zlen (text_of f) <=? MAX_AUTH_FRAME) && reserve (zlen (text_of f))
                    && negb (is_empty (text_of f)))
    [client_hello exchange; challenge_pending.1; response; AuthAccepted] = true.
Proof. vm_compute. reflexivity. Qed.

End IpcAuthRuns.
