(* ===== verification/V6.v ===== *)
(** * serctl_protocol::v6: handshake, cipher state and sessions

    crates/serctl_protocol/src/v6.rs up to the sessions (the stream adapter is
    in V6Adapter.v).  A connection carries one root request, committed to in
    the plaintext prelude; the handshake proves the activation secret both
    ways and derives one key per direction; every later frame is sealed under
    a nonce made of its direction and a counter.  A cipher is its key; random
    nonces are arguments; deadlines are part of the transport (Async.v). *)

From S2P Require Import Prelude.
From S2P Require Import Bytes.
From S2P Require Import Text.
From S2P Require Import Crates.
From S2P Require Import IpcCrates.
From S2P Require Import Async.
From S2P Require Import IpcFrame.
From S2P Require Import IpcAuth.
#[local] Open Scope string_scope.
#[local] Open Scope list_scope.
#[local] Open Scope Z_scope.

Definition IPC_PROTOCOL_VERSION_V9 : Z := 9.
Definition IPC_PROTOCOL_VERSION_V6 : Z := IPC_PROTOCOL_VERSION_V9.
Definition V6_MAX_AUTH_FRAME : Z := 4 * 1024.
Definition V6_MAX_DATA_FRAME : Z := 64 * 1024 * 1024.
Definition V6_AEAD_TAG_BYTES : Z := 16.
Definition V6_MAX_PLAINTEXT_FRAME : Z := V6_MAX_DATA_FRAME - V6_AEAD_TAG_BYTES.
Definition V6_MAX_OPERATION_KIND_BYTES : Z := 32.
Definition SERVER_MAC_DOMAIN : bytes := rs "serctl/ipc/v6/auth/server/v1" ++ [x00].
Definition CLIENT_MAC_DOMAIN : bytes := rs "serctl/ipc/v6/auth/client/v1" ++ [x00].
Definition KEY_INFO_DOMAIN : bytes := rs "serctl/ipc/v6/keys/v1" ++ [x00].
Definition FRAME_AAD_DOMAIN : bytes := rs "serctl/ipc/v6/frame/v1" ++ [x00].
Definition PROFILE_PROOF_DOMAIN : bytes := rs "serctl/ipc/v6/profile-proof/v1" ++ [x00].
Definition DIRECTION_C2D : Z := 0.
Definition DIRECTION_D2C : Z := 1.

Definition validate_plaintext_frame_len (len : Z) : result string unit :=
  ensure! len <=? V6_MAX_PLAINTEXT_FRAME or "IPC v6 plaintext frame exceeds its size cap" ;;
  Ok tt.

Definition validate_ciphertext_frame_len (len : Z) : result string unit :=
  ensure! in_range V6_AEAD_TAG_BYTES V6_MAX_DATA_FRAME len
    or "IPC v6 encrypted data frame length is invalid" ;;
  Ok tt.

(** ** Request preludes *)

(** The operation kind of a frame. *)
Definition frame_kind (f : Frame) : str :=
  match f with
  | AuthHello _ _ _ | AuthResponse _ _ | AuthChallenge _ _ _ _ | AuthAccepted => rs "auth"
  | Exec _ _ => rs "ssh.exec"
  | ConnectionIdentity _ _ => rs "ssh.connection-identity"
  | Shell _ _ | ShellInput _ => rs "ssh.pty"
  | Status => rs "daemon.status"
  | Shutdown _ => rs "daemon.shutdown"
  | Unlock _ => rs "daemon.unlock"
  | ListProfiles => rs "daemon.list-profiles"
  | IssueGrant _ _ _ _ _ => rs "daemon.issue-grant"
  | ListDir _ _ => rs "sftp.list"
  | CreateDir _ _ => rs "sftp.write"
  | Download _ _ _ _ _ _ _ _ _ _ _ => rs "transfer.read"
  | UploadBegin _ _ _ _ _ _ _ _ _ _ | UploadChunk _ | UploadEnd => rs "transfer.write"
  | TransferStatus _ _ => rs "transfer.status"
  | TransferCancel _ _ => rs "transfer.cancel"
  | TunnelOpen _ | TunnelStop => rs "forward"
  | ManagedTunnelOpen spec _ =>
      match spec_mode spec with
      | Local_ => rs "forward.local/open"
      | Remote_ => rs "forward.remote/open"
      | Dynamic_ => rs "forward.dynamic/open"
      end
  | ManagedTunnelStatus _ _ => rs "forward.status"
  | ManagedTunnelCancel _ _ => rs "forward.cancel"
  | ExecOut _ | ExecErr _ | ExecExit _ _ _ | ShellOut _ | ShellClosed | ProfileList _
  | GrantIssued _ _ _ _ | ProfileAuthorized _ | StatusInfo _ _ _ _ _ _ | Ack
  | CreateDirAccepted _ _ | TransferAck _ _ | DirList _ _ _ _ | FileChunk _ | TransferDone _
  | TransferDigest _ _ | TransferProgressFrame _ | TransferStatusInfo _
  | TransferCancelAccepted _ | TunnelReadyFrame _ | TunnelClosed | ManagedTunnelOpened _
  | ManagedTunnelStatusInfo _ | ManagedTunnelTerminal _ | ConnectionIdentityInfo _
  | Error _ => rs "stream"
  end.

Record V6RequestPrelude := {
  protocol_version : Z;
  client_session_id : bytes;
  request_id : bytes;
  operation_kind : str;
  profile_id : option bytes;
  profile_name : option str;
  grant_id : option bytes;
  pop_signature : option str;
  profile_proof : option str;
  requested_deadline_unix_ms : Z;
  root_request_hash : bytes;
}.

#[export] Instance V6RequestPrelude_eq_dec : EqDecision V6RequestPrelude.
Proof. solve_decision. Defined.

Definition is_kind_byte (b : byte) : bool :=
  is_ascii_lowercase b || is_ascii_digit b || matches_byte b (rs ".-_/").

Definition prelude_validate (p : V6RequestPrelude) : result string unit :=
  ensure! protocol_version p =? IPC_PROTOCOL_VERSION_V6 or "unsupported IPC v9 prelude version" ;;
  ensure! negb (is_empty (operation_kind p))
          && (zlen (operation_kind p) <=? V6_MAX_OPERATION_KIND_BYTES)
          && forallb is_kind_byte (operation_kind p)
    or "operation kind must be 1..=32 bytes of [a-z0-9._/-]" ;;
  ensure! negb (is_some (profile_id p) && is_some (grant_id p))
    or "prelude must name at most one of profile_id and grant_id" ;;
  ensure! Bool.eqb (is_some (grant_id p)) (is_some (pop_signature p))
    or "a grant prelude must carry a proof-of-possession signature, and only a grant prelude may" ;;
  ensure! Bool.eqb (is_some (profile_id p)) (is_some (profile_proof p))
    or "a profile-id prelude must carry a profile call proof, and only a profile-id prelude may" ;;
  try! match profile_name p with
       | Some name =>
           ensure! negb (is_empty name) && (zlen name <=? 128)
                   && negb (has_unsafe_name_char name)
             or "prelude profile name must satisfy the vault profile-name rules" ;;
           Ok tt
       | None => Ok tt
       end ;;
  Ok tt.

(** The authenticated fields of a profile call proof. *)
Record ProfileProofPayload := {
  ppp_protocol_version : Z;
  ppp_client_session_id : bytes;
  ppp_request_id : bytes;
  ppp_operation_kind : str;
  ppp_profile_id : option bytes;
  ppp_profile_name : option str;
  ppp_grant_id : option bytes;
  ppp_requested_deadline_unix_ms : Z;
  ppp_root_request_hash : bytes;
}.

Inductive V6AuthFrame :=
| Hello (version : Z) (instance_id client_nonce : bytes) (prelude : V6RequestPrelude)
| Challenge (version : Z) (server_nonce : bytes) (server_mac : str)
| Response (client_mac : str).

(** ** Nonces and associated data *)

Definition frame_nonce (direction counter : Z) : bytes :=
  u8 direction ++ replicate 3 x00 ++ be64 counter.

Definition frame_aad (version : Z) (instance_id : bytes) (direction ciphertext_len : Z) : bytes :=
  FRAME_AAD_DOMAIN ++ be16 version ++ instance_id ++ u8 direction ++ be32 ciphertext_len.

Definition transcript_input (version : Z) (instance_id client_nonce server_nonce
    prelude_digest : bytes) : bytes :=
  be16 version ++ instance_id ++ client_nonce ++ server_nonce ++ prelude_digest.

Record DirectionCipher := { cipher : bytes; send_counter : Z }.

Record SharedV6State := {
  st_version : Z;
  st_instance_id : bytes;
  c2d : DirectionCipher;
  d2c : DirectionCipher;
  c2d_recv_counter : Z;
  d2c_recv_counter : Z;
}.

(** [&self.c2d] or [&self.d2c]. *)
Definition cipher_state (direction : Z) (s : SharedV6State) : result string DirectionCipher :=
  if direction =? DIRECTION_C2D then Ok (c2d s)
  else if direction =? DIRECTION_D2C then Ok (d2c s)
  else Err "unknown IPC v6 frame direction".

Definition set_send_counter (direction counter : Z) (s : SharedV6State) : SharedV6State :=
  let set c := {| cipher := cipher c; send_counter := counter |} in
  {| st_version := st_version s; st_instance_id := st_instance_id s;
     c2d := if direction =? DIRECTION_C2D then set (c2d s) else c2d s;
     d2c := if direction =? DIRECTION_D2C then set (d2c s) else d2c s;
     c2d_recv_counter := c2d_recv_counter s; d2c_recv_counter := d2c_recv_counter s |}.

Definition recv_counter (direction : Z) (s : SharedV6State) : result string Z :=
  if direction =? DIRECTION_C2D then Ok (c2d_recv_counter s)
  else if direction =? DIRECTION_D2C then Ok (d2c_recv_counter s)
  else Err "unknown IPC v6 frame direction".

Definition set_recv_counter (direction counter : Z) (s : SharedV6State) : SharedV6State :=
  {| st_version := st_version s; st_instance_id := st_instance_id s;
     c2d := c2d s; d2c := d2c s;
     c2d_recv_counter := if direction =? DIRECTION_C2D then counter else c2d_recv_counter s;
     d2c_recv_counter := if direction =? DIRECTION_D2C then counter else d2c_recv_counter s |}.

Section v6.
Context `{Sha2, HmacSha2, Hex, Base64, Aead, Hkdf}.
Context `{Json Frame, Json V6RequestPrelude, Json V6AuthFrame, JsonSer ProfileProofPayload}.

Definition root_request_hash_of (f : Frame) : result string bytes :=
  let* bs := ok_or (to_vec f) "serialize root request for prelude binding" in
  Ok (sha256 bs).

(** [InstanceId] is its 16 bytes, [ActivationSecret] its 32. *)
Definition InstanceId_from_hex (encoded : str) : result string bytes :=
  let* bs := ok_or (hex_decode encoded) "instance id must be hex" in
  ensure! zlen bs =? 16 or "instance id must decode to 16 bytes" ;;
  Ok bs.
Definition InstanceId_as_hex (id : bytes) : str := hex_encode id.

Definition ActivationSecret_from_base64 (encoded : str) : result string bytes :=
  let* decoded := ok_or (b64_decode encoded) "decode daemon activation secret" in
  ensure! zlen decoded =? 32 or "daemon activation secret must decode to 32 bytes" ;;
  Ok decoded.
Definition ActivationSecret_to_base64 (secret : bytes) : str := b64_encode secret.

Definition canonical_bytes (p : V6RequestPrelude) : result string bytes :=
  ok_or (to_vec p) "serialize v6 request prelude".

Definition prelude_digest (p : V6RequestPrelude) : result string bytes :=
  let* bs := canonical_bytes p in Ok (sha256 bs).

(** ** Profile call proofs *)

Definition profile_proof_payload (p : V6RequestPrelude) : ProfileProofPayload :=
  {| ppp_protocol_version := protocol_version p;
     ppp_client_session_id := client_session_id p;
     ppp_request_id := request_id p;
     ppp_operation_kind := operation_kind p;
     ppp_profile_id := profile_id p;
     ppp_profile_name := profile_name p;
     ppp_grant_id := grant_id p;
     ppp_requested_deadline_unix_ms := requested_deadline_unix_ms p;
     ppp_root_request_hash := root_request_hash p |}.

Definition profile_proof_message (p : V6RequestPrelude) : result string bytes :=
  ensure! is_some (profile_id p) or "profile proof requires a profile id" ;;
  ensure! negb (is_some (grant_id p)) or "grant requests cannot carry a profile proof" ;;
  let* encoded := ok_or (json_bytes (profile_proof_payload p))
    "serialize profile call-proof payload" in
  Ok (PROFILE_PROOF_DOMAIN ++ encoded).

Definition profile_prelude_proof (call_key : bytes) (p : V6RequestPrelude) : result string str :=
  let* message := profile_proof_message p in
  Ok (b64_encode (hmac_sha256 call_key message)).

Definition verify_profile_prelude_proof (call_key : bytes) (encoded : str)
    (p : V6RequestPrelude) : result string unit :=
  ensure! zlen encoded <=? 64 or "profile call proof is oversized" ;;
  let* provided := ok_or (b64_decode encoded) "decode profile call proof" in
  ensure! zlen provided =? 32 or "profile call proof must decode to 32 bytes" ;;
  let* proof := profile_prelude_proof call_key p in
  let* expected := ok_or (b64_decode proof) "decode profile call proof" in
  ensure! bool_decide (expected = provided) or "profile call proof verification failed" ;;
  Ok tt.

(** ** Handshake MACs and keys *)

Definition role_mac (secret domain : bytes) (version : Z) (instance_id client_nonce server_nonce
    prelude_digest : bytes) : bytes :=
  hmac_sha256 secret
    (domain ++ transcript_input version instance_id client_nonce server_nonce prelude_digest).

Definition verify_role_mac (secret domain : bytes) (version : Z) (instance_id client_nonce
    server_nonce prelude_digest : bytes) (encoded : str) : result string unit :=
  let* provided := ok_or (b64_decode encoded) "decode IPC v6 handshake MAC" in
  ensure! zlen provided =? 32 or "IPC v6 handshake MAC must decode to 32 bytes" ;;
  ensure! bool_decide (role_mac secret domain version instance_id client_nonce server_nonce
                         prelude_digest = provided)
    or "IPC v6 handshake MAC mismatch" ;;
  Ok tt.

Definition derive_keys (secret : bytes) (version : Z) (instance_id client_nonce server_nonce
    prelude_digest : bytes) : result string (bytes * bytes) :=
  let salt := sha256 (transcript_input version instance_id client_nonce server_nonce
                        prelude_digest) in
  let info direction := KEY_INFO_DOMAIN ++ be16 version ++ instance_id ++ u8 direction in
  let* okm := ok_or (hkdf_expand salt secret (info DIRECTION_C2D) 64)
    "IPC v6 key derivation failed" in
  let c2d := take 32 okm in
  let* okm := ok_or (hkdf_expand salt secret (info DIRECTION_D2C) 64)
    "IPC v6 key derivation failed" in
  Ok (c2d, take 32 okm).

(** ** The cipher state *)

Definition encrypt_frame (direction : Z) (plaintext : bytes) : eff SharedV6State string bytes :=
  run~ elift (validate_plaintext_frame_len (zlen plaintext)) ;;
  let~ s := eget (fun s => s) in
  let~ cs := elift (cipher_state direction s) in
  let counter := send_counter cs in
  let~ next_counter := elift (ok_or (checked_add U64_MAX counter 1)
    "IPC v6 frame counter overflow") in
  let nonce := frame_nonce direction counter in
  let~ ciphertext_len := elift (ok_or (try_from_max U32_MAX (zlen plaintext + 16))
    "IPC v6 frame exceeds the wire length limit") in
  let aad := frame_aad (st_version s) (st_instance_id s) direction ciphertext_len in
  let~ ciphertext := elift (ok_or (aead_encrypt (cipher cs) nonce aad plaintext)
    "IPC v6 frame encryption failed") in
  run~ elift (validate_ciphertext_frame_len (zlen ciphertext)) ;;
  run~ emodify (set_send_counter direction next_counter) ;;
  eret ciphertext.

Definition decrypt_frame (direction : Z) (ciphertext : bytes) (expected_counter : Z)
  : eff SharedV6State string bytes :=
  run~ elift (validate_ciphertext_frame_len (zlen ciphertext)) ;;
  let~ s := eget (fun s => s) in
  let~ cs := elift (cipher_state direction s) in
  let~ ciphertext_len := elift (ok_or (try_from_max U32_MAX (zlen ciphertext))
    "IPC v6 frame exceeds the wire length limit") in
  let nonce := frame_nonce direction expected_counter in
  let aad := frame_aad (st_version s) (st_instance_id s) direction ciphertext_len in
  elift (ok_or (aead_decrypt (cipher cs) nonce aad ciphertext)
    "IPC v6 frame authentication failed").

Definition expect_next_counter (direction : Z) : eff SharedV6State string Z :=
  let~ s := eget (fun s => s) in
  let~ expected := elift (recv_counter direction s) in
  let~ next := elift (ok_or (checked_add U64_MAX expected 1) "IPC v6 receive counter overflow") in
  run~ emodify (set_recv_counter direction next) ;;
  eret expected.

(** ** The two sides of the handshake, message by message *)

Definition session_state (instance_id : bytes) (keys : bytes * bytes) : SharedV6State :=
  {| st_version := IPC_PROTOCOL_VERSION_V6; st_instance_id := instance_id;
     c2d := {| cipher := keys.1; send_counter := 0 |};
     d2c := {| cipher := keys.2; send_counter := 0 |};
     c2d_recv_counter := 0; d2c_recv_counter := 0 |}.

Definition client_hello (instance_id client_nonce : bytes) (p : V6RequestPrelude) : V6AuthFrame :=
  Hello IPC_PROTOCOL_VERSION_V6 instance_id client_nonce p.

(** The client on the challenge: the server nonce it verified and its response. *)
Definition client_on_challenge (secret instance_id client_nonce digest : bytes)
    (challenge : V6AuthFrame) : result string (bytes * V6AuthFrame) :=
  let* (server_nonce, server_mac) :=
    match challenge with
    | Challenge version server_nonce server_mac =>
        if version =? IPC_PROTOCOL_VERSION_V6 then Ok (server_nonce, server_mac)
        else Err "unsupported IPC v6 challenge version"
    | _ => Err "unexpected IPC v6 server handshake frame"
    end in
  ensure! negb (bool_decide (client_nonce = server_nonce))
    or "IPC v6 server reused the client nonce" ;;
  try! verify_role_mac secret SERVER_MAC_DOMAIN IPC_PROTOCOL_VERSION_V6 instance_id
         client_nonce server_nonce digest server_mac ;;
  let client_mac := role_mac secret CLIENT_MAC_DOMAIN IPC_PROTOCOL_VERSION_V6 instance_id
                      client_nonce server_nonce digest in
  Ok (server_nonce, Response (b64_encode client_mac)).

(** What the server holds between the challenge and the response. *)
Record ServerPending := {
  sp_client_nonce : bytes;
  sp_server_nonce : bytes;
  sp_prelude : V6RequestPrelude;
  sp_digest : bytes;
}.

Definition server_on_hello (secret instance_id : bytes) (draws : list bytes)
    (hello : V6AuthFrame) : result string (V6AuthFrame * ServerPending) :=
  let* (client_nonce, prelude) :=
    match hello with
    | Hello version received client_nonce prelude =>
        if version =? IPC_PROTOCOL_VERSION_V6 then
          ensure! bool_decide (received = instance_id)
            or "IPC v6 hello names a different daemon instance" ;;
          Ok (client_nonce, prelude)
        else Err "unsupported IPC v6 hello version"
    | _ => Err "unexpected IPC v6 client handshake frame"
    end in
  try! prelude_validate prelude ;;
  let* digest := prelude_digest prelude in
  let* server_nonce := ok_or (fresh_nonce client_nonce draws) "random source exhausted" in
  let server_mac := role_mac secret SERVER_MAC_DOMAIN IPC_PROTOCOL_VERSION_V6 instance_id
                      client_nonce server_nonce digest in
  Ok (Challenge IPC_PROTOCOL_VERSION_V6 server_nonce (b64_encode server_mac),
      {| sp_client_nonce := client_nonce; sp_server_nonce := server_nonce;
         sp_prelude := prelude; sp_digest := digest |}).

(** The server on the response: the keys of the session. *)
Definition server_on_response (secret instance_id : bytes) (p : ServerPending)
    (response : V6AuthFrame) : result string (bytes * bytes) :=
  let* client_mac :=
    match response with
    | Response client_mac => Ok client_mac
    | _ => Err "unexpected IPC v6 client response frame"
    end in
  try! verify_role_mac secret CLIENT_MAC_DOMAIN IPC_PROTOCOL_VERSION_V6 instance_id
         (sp_client_nonce p) (sp_server_nonce p) (sp_digest p) client_mac ;;
  derive_keys secret IPC_PROTOCOL_VERSION_V6 instance_id (sp_client_nonce p)
    (sp_server_nonce p) (sp_digest p).

(** ** On a transport *)

Context {S : Type} `{AsyncStream S}.

Definition write_handshake_frame (f : V6AuthFrame) : eff S string unit :=
  let~ json := elift (ok_or (to_vec f) "serialize IPC v6 handshake frame") in
  ensure~ zlen json <=? V6_MAX_AUTH_FRAME or "IPC v6 handshake frame exceeds its size cap" ;;
  let~ len := elift (ok_or (try_from_max U32_MAX (zlen json))
    "IPC v6 handshake frame length overflow") in
  timed "IPC v6 handshake timed out"
    (run~ write_all (be32 len) ;; run~ write_all json ;; run~ flush ;; eret tt).

Definition read_handshake_frame : eff S string V6AuthFrame :=
  timed "IPC v6 handshake timed out"
    (let~ lenbuf := read_exact 4 in
     let len := of_be lenbuf in
     ensure~ len <=? V6_MAX_AUTH_FRAME
       or IoError "IPC v6 handshake frame exceeds its size cap" ;;
     let~ json := read_exact len in
     elift (ok_or (from_slice json) (IoError "parse IPC v6 handshake frame"))).

Record V6ClientSession := {
  cs_stream : S;
  cs_state : SharedV6State;
  cs_root_request_hash : bytes;
  root_sent : bool;
}.

Record V6ServerSession := {
  ss_stream : S;
  ss_state : SharedV6State;
  ss_prelude : V6RequestPrelude;
  root_received : bool;
}.

(** The session owns the stream; a failed handshake drops it, and the model
    returns the stream it leaves behind. *)
Definition v6_client_handshake (secret instance_id : bytes) (prelude : V6RequestPrelude)
    (client_nonce : bytes) : eff S string V6ClientSession :=
  run~ elift (prelude_validate prelude) ;;
  let~ digest := elift (prelude_digest prelude) in
  run~ write_handshake_frame (client_hello instance_id client_nonce prelude) ;;
  let~ challenge := read_handshake_frame in
  let~ (server_nonce, response) :=
    elift (client_on_challenge secret instance_id client_nonce digest challenge) in
  run~ write_handshake_frame response ;;
  let~ keys := elift (derive_keys secret IPC_PROTOCOL_VERSION_V6 instance_id client_nonce
                        server_nonce digest) in
  let~ stream := eget (fun s => s) in
  eret {| cs_stream := stream; cs_state := session_state instance_id keys;
          cs_root_request_hash := root_request_hash prelude; root_sent := false |}.

Definition v6_server_handshake (secret instance_id : bytes) (draws : list bytes)
  : eff S string (V6ServerSession * V6RequestPrelude) :=
  let~ hello := read_handshake_frame in
  let~ (challenge, pending) := elift (server_on_hello secret instance_id draws hello) in
  run~ write_handshake_frame challenge ;;
  let~ response := read_handshake_frame in
  let~ keys := elift (server_on_response secret instance_id pending response) in
  let~ stream := eget (fun s => s) in
  eret ({| ss_stream := stream; ss_state := session_state instance_id keys;
           ss_prelude := sp_prelude pending; root_received := false |},
        sp_prelude pending).

(** ** Sealed frames *)

Definition on_conn_stream {A} (p : eff S io_error A) : eff (S * SharedV6State) io_error A :=
  zoom fst (fun s t => (s, snd t)) p.
Definition on_conn_state {A} (p : eff SharedV6State string A) : eff (S * SharedV6State) string A :=
  zoom snd (fun s t => (fst t, s)) p.

Definition write_data_frame (direction : Z) (bs : bytes) : eff (S * SharedV6State) string unit :=
  let~ ciphertext := on_conn_state (encrypt_frame direction bs) in
  let~ len := elift (ok_or (try_from_max U32_MAX (zlen ciphertext))
    "IPC v6 frame length overflow") in
  timed "IPC v6 frame write timed out"
    (on_conn_stream (run~ write_all (be32 len) ;; run~ write_all ciphertext ;;
                     run~ flush ;; eret tt)).

Definition read_data_frame (direction : Z) : eff (S * SharedV6State) string (option bytes) :=
  let~ len := timed "IPC v6 frame read timed out" (on_conn_stream
    (let~ first := read_byte in
     match first with
     | None => eret None
     | Some b => let~ rest := read_exact 3 in eret (Some (of_be (b :: rest)))
     end)) in
  match len with
  | None => eret None
  | Some len =>
      run~ elift (validate_ciphertext_frame_len len) ;;
      let~ ciphertext := timed "IPC v6 frame read timed out" (on_conn_stream (read_exact len)) in
      let~ counter := on_conn_state (expect_next_counter direction) in
      let~ plaintext := on_conn_state (decrypt_frame direction ciphertext counter) in
      eret (Some plaintext)
  end.

Definition client_conn (s : V6ClientSession) : S * SharedV6State := (cs_stream s, cs_state s).
Definition set_client_conn (t : S * SharedV6State) (s : V6ClientSession) : V6ClientSession :=
  {| cs_stream := t.1; cs_state := t.2; cs_root_request_hash := cs_root_request_hash s;
     root_sent := root_sent s |}.
Definition server_conn (s : V6ServerSession) : S * SharedV6State := (ss_stream s, ss_state s).
Definition set_server_conn (t : S * SharedV6State) (s : V6ServerSession) : V6ServerSession :=
  {| ss_stream := t.1; ss_state := t.2; ss_prelude := ss_prelude s;
     root_received := root_received s |}.

Definition client_send_frame (f : Frame) : eff V6ClientSession string unit :=
  let~ bs := elift (ok_or (to_vec f) "serialize IPC v6 data frame") in
  let~ s := eget (fun s => s) in
  ensure~ root_sent s || bool_decide (sha256 bs = cs_root_request_hash s)
    or "IPC v6 root request does not match the handshake prelude" ;;
  run~ zoom client_conn set_client_conn (write_data_frame DIRECTION_C2D bs) ;;
  emodify (fun s => {| cs_stream := cs_stream s; cs_state := cs_state s;
                       cs_root_request_hash := cs_root_request_hash s; root_sent := true |}).

Definition client_recv_frame : eff V6ClientSession string (option Frame) :=
  let~ bs := zoom client_conn set_client_conn (read_data_frame DIRECTION_D2C) in
  match bs with
  | None => eret None
  | Some bs =>
      let~ f := elift (ok_or (from_slice bs) "parse IPC v6 data frame") in eret (Some f)
  end.

Definition recv_root_request : eff V6ServerSession string Frame :=
  let~ s := eget (fun s => s) in
  ensure~ negb (root_received s) or "IPC v6 root request already consumed" ;;
  let~ bs := zoom server_conn set_server_conn (read_data_frame DIRECTION_C2D) in
  let~ bs := elift (ok_or bs "IPC v6 peer closed before sending the root request") in
  ensure~ bool_decide (sha256 bs = root_request_hash (ss_prelude s))
    or "IPC v6 root request does not match the handshake prelude" ;;
  let~ f := elift (ok_or (from_slice bs) "parse IPC v6 root request") in
  ensure~ bool_decide (frame_kind f = operation_kind (ss_prelude s))
    or "IPC v6 root request kind does not match the prelude" ;;
  run~ emodify (fun s => {| ss_stream := ss_stream s; ss_state := ss_state s;
                            ss_prelude := ss_prelude s; root_received := true |}) ;;
  eret f.

Definition server_recv_frame : eff V6ServerSession string (option Frame) :=
  let~ s := eget (fun s => s) in
  ensure~ root_received s or "IPC v6 server must consume the root request before stream frames" ;;
  let~ bs := zoom server_conn set_server_conn (read_data_frame DIRECTION_C2D) in
  match bs with
  | None => eret None
  | Some bs =>
      let~ f := elift (ok_or (from_slice bs) "parse IPC v6 data frame") in eret (Some f)
  end.

Definition server_send_frame (f : Frame) : eff V6ServerSession string unit :=
  let~ bs := elift (ok_or (to_vec f) "serialize IPC v6 data frame") in
  zoom server_conn set_server_conn (write_data_frame DIRECTION_D2C bs).

End v6.
Arguments V6ClientSession S : clear implicits.
Arguments V6ServerSession S : clear implicits.
