(* ===== verification/V6Theory.v ===== *)
(** * The v6 channel: theorems

    The handshake (completion, agreement), the cipher state (nonces never
    repeat, delivery in order), and the sessions (round trip, the root request
    is the one committed to). *)

From S2P Require Import Prelude.
From S2P Require Import Bytes.
From S2P Require Import Text.
From S2P Require Import Crates.
From S2P Require Import IpcCrates.
From S2P Require Import Async.
From S2P Require Import IpcFrame.
From S2P Require Import IpcAuth.
From S2P Require Import V6.
#[local] Open Scope string_scope.
#[local] Open Scope list_scope.
#[local] Open Scope Z_scope.

(** ** Counters and nonces *)

Definition is_direction (d : Z) : Prop := d = DIRECTION_C2D \/ d = DIRECTION_D2C.

(** The cipher of a direction. *)
Definition dir_cipher (d : Z) (s : SharedV6State) : DirectionCipher :=
  if d =? DIRECTION_C2D then c2d s else d2c s.
Definition dir_recv (d : Z) (s : SharedV6State) : Z :=
  if d =? DIRECTION_C2D then c2d_recv_counter s else d2c_recv_counter s.

(** Counters are [u64]. *)
Definition counters_ok (s : SharedV6State) : Prop :=
  is_u64 (send_counter (c2d s)) /\ is_u64 (send_counter (d2c s)) /\
  is_u64 (c2d_recv_counter s) /\ is_u64 (d2c_recv_counter s).

Lemma cipher_state_ok d s c : cipher_state d s = Ok c <-> is_direction d /\ c = dir_cipher d s.
Proof.
  unfold cipher_state, is_direction, dir_cipher, DIRECTION_C2D, DIRECTION_D2C.
  destruct (Z.eqb_spec d 0), (Z.eqb_spec d 1); naive_solver.
Qed.

Lemma recv_counter_ok d s n : recv_counter d s = Ok n <-> is_direction d /\ n = dir_recv d s.
Proof.
  unfold recv_counter, is_direction, dir_recv, DIRECTION_C2D, DIRECTION_D2C.
  destruct (Z.eqb_spec d 0), (Z.eqb_spec d 1); naive_solver.
Qed.

Lemma dir_cipher_set d d' n s : is_direction d -> is_direction d' ->
  dir_cipher d (set_send_counter d' n s) =
  if d =? d' then {| cipher := cipher (dir_cipher d s); send_counter := n |} else dir_cipher d s.
Proof. by intros [->| ->] [->| ->]. Qed.

Lemma dir_recv_set_send d d' n s : dir_recv d (set_send_counter d' n s) = dir_recv d s.
Proof. done. Qed.

Lemma dir_recv_set d n s : is_direction d -> dir_recv d (set_recv_counter d n s) = n.
Proof. by intros [->| ->]. Qed.

Lemma dir_cipher_set_recv d d' n s : dir_cipher d (set_recv_counter d' n s) = dir_cipher d s.
Proof. done. Qed.

Lemma frame_nonce_inj d d' n n' :
  is_direction d -> is_direction d' -> is_u64 n -> is_u64 n' ->
  frame_nonce d n = frame_nonce d' n' -> d = d' /\ n = n'.
Proof.
  intros Hd Hd' Hn Hn' E. unfold frame_nonce in E.
  apply (f_equal (fun m => m ++ [])) in E. rewrite <-!app_assoc in E.
  apply u8_app_inj in E as [-> E];
    [|destruct Hd as [->| ->]; unfold DIRECTION_C2D, DIRECTION_D2C; lia
     |destruct Hd' as [->| ->]; unfold DIRECTION_C2D, DIRECTION_D2C; lia].
  apply app_inv_head in E. by apply be64_app_inj in E as [-> _].
Qed.

Section cipher.
Context `{Aead, !AeadLaws}.

(** Sealing under the key, counter and direction of a state. *)
Definition sealed (s : SharedV6State) (d counter : Z) (m c : bytes) : Prop :=
  aead_encrypt (cipher (dir_cipher d s)) (frame_nonce d counter)
    (frame_aad (st_version s) (st_instance_id s) d (zlen m + 16)) m = Some c.

Lemma encrypt_frame_ok d m s s' c :
  encrypt_frame d m s = (s', Ok c) <->
  is_direction d /\ zlen m <= V6_MAX_PLAINTEXT_FRAME /\
  send_counter (dir_cipher d s) + 1 <= U64_MAX /\
  sealed s d (send_counter (dir_cipher d s)) m c /\
  s' = set_send_counter d (send_counter (dir_cipher d s) + 1) s.
Proof.
  unfold encrypt_frame, sealed. pose proof (zlen_nonneg m). split.
  - intros He. inv_eff. unfold validate_plaintext_frame_len in He0. checks.
    apply cipher_state_ok in He2 as [Hd ->].
    apply checked_add_some in He3 as [-> Hn]. apply try_from_max_some in He4 as [-> _].
    done.
  - intros (Hd & Hm & Hc & Hs & ->).
    pose proof (aead_encrypt_length _ _ _ _ _ Hs) as Hl.
    unfold validate_plaintext_frame_len, validate_ciphertext_frame_len.
    unfold V6_MAX_PLAINTEXT_FRAME, V6_AEAD_TAG_BYTES, V6_MAX_DATA_FRAME in *.
    rewrite (proj2 (Z.leb_le _ _)) by lia.
    erewrite ebind_pass by reflexivity. erewrite ebind_pass by reflexivity.
    rewrite (elift_pass _ _ _ (dir_cipher d s)) by by apply cipher_state_ok.
    cbv zeta. erewrite elift_pass by by apply ok_or_ok, checked_add_some.
    rewrite (elift_pass _ _ _ (zlen m + 16)) by
      (apply ok_or_ok, try_from_max_some; unfold U32_MAX; lia).
    erewrite elift_pass by by apply ok_or_ok.
    rewrite (proj2 (in_range_true _ _ _)) by lia. done.
Qed.

Lemma encrypt_frame_err d m s s' e : encrypt_frame d m s = (s', Err e) -> s' = s.
Proof.
  unfold encrypt_frame, ebind, elift, eget, emodify, eret. intros He.
  repeat case_match; simplify_eq; done.
Qed.

(** Encryptions one after the other, in any directions: what each frame that
    was sealed leaves on the wire, with its direction and plaintext. *)
Fixpoint seal_all (ops : list (Z * bytes)) (s : SharedV6State)
  : SharedV6State * list (Z * bytes * bytes) :=
  match ops with
  | [] => (s, [])
  | (d, m) :: ops' =>
      match encrypt_frame d m s with
      | (s', Ok c) => let (s'', log) := seal_all ops' s' in (s'', (d, m, c) :: log)
      | (s', Err _) => seal_all ops' s'
      end
  end.

(** The ciphertext is what the cipher makes of the plaintext under [nonce],
    with the key and the associated data of the direction. *)
Definition sealed_with (s : SharedV6State) (nonce : bytes) (e : Z * bytes * bytes) : Prop :=
  let '(d, m, c) := e in
  aead_encrypt (cipher (dir_cipher d s)) nonce
    (frame_aad (st_version s) (st_instance_id s) d (zlen m + 16)) m = Some c.

Definition nonce_of (e : Z * Z) : bytes := frame_nonce e.1 e.2.

Lemma counters_ok_dir d s : counters_ok s ->
  is_u64 (send_counter (dir_cipher d s)) /\ is_u64 (dir_recv d s).
Proof. unfold counters_ok, dir_cipher, dir_recv. destruct (d =? _); naive_solver. Qed.

Lemma counters_ok_set d n s :
  is_u64 n -> counters_ok s -> counters_ok (set_send_counter d n s).
Proof.
  unfold counters_ok, set_send_counter. cbn. intros Hn (H1 & H2 & H3 & H4).
  destruct (d =? DIRECTION_C2D), (d =? DIRECTION_D2C); cbn; auto.
Qed.

Lemma sealed_with_counter d n s nonce e :
  sealed_with (set_send_counter d n s) nonce e -> sealed_with s nonce e.
Proof.
  destruct e as [[d' m] c]. unfold sealed_with, dir_cipher, set_send_counter. cbn.
  by destruct (d' =? DIRECTION_C2D), (d =? DIRECTION_C2D), (d =? DIRECTION_D2C).
Qed.

(** The counters under which the frames of the log were sealed. *)
Lemma seal_all_log ops s :
  counters_ok s ->
  counters_ok (seal_all ops s).1 /\
  exists log : list (Z * Z),
    Forall (fun e => is_direction e.1 /\ is_u64 e.2 /\
                     send_counter (dir_cipher e.1 s) <= e.2) log /\
    NoDup (map nonce_of log) /\
    Forall2 (sealed_with s) (map nonce_of log) (seal_all ops s).2.
Proof.
  revert s; induction ops as [|[d m] ops IH]; intros s Hs; cbn [seal_all].
  { split; [apply Hs|]. exists []. repeat constructor. }
  destruct (encrypt_frame d m s) as [s1 [c|e]] eqn:He.
  2:{ apply encrypt_frame_err in He as ->. by apply IH. }
  apply encrypt_frame_ok in He as (Hd & _ & Hn & Hc & ->).
  destruct (counters_ok_dir d s Hs) as [Hu _].
  specialize (IH (set_send_counter d (send_counter (dir_cipher d s) + 1) s)).
  destruct (seal_all ops _) as [s2 out]. cbn [fst snd] in *.
  destruct IH as (H1 & log & H2 & H3 & H4). { apply counters_ok_set; [|done]. unfold is_u64 in *. lia. }
  assert (Forall (fun e => is_direction e.1 /\ is_u64 e.2 /\
    (if e.1 =? d then send_counter (dir_cipher d s) + 1 else send_counter (dir_cipher e.1 s)) <= e.2)
    log) as H2'.
  { eapply Forall_impl; [exact H2|]. intros [d' n] (Hd' & Hn' & Hle). split_and!; try done.
    cbn in *. rewrite dir_cipher_set in Hle by done. by destruct (Z.eqb_spec d' d); subst. }
  split; [done|]. exists ((d, send_counter (dir_cipher d s)) :: log). split_and!.
  - constructor; [by eauto using Z.le_refl|]. eapply Forall_impl; [exact H2'|].
    intros [d' n] (Hd' & Hn' & Hle). split_and!; try done. cbn in *.
    destruct (Z.eqb_spec d' d); subst; lia.
  - cbn [map]. constructor; [|done]. rewrite list_elem_of_In, in_map_iff.
    intros ([d' n] & E & Hin). apply list_elem_of_In in Hin.
    apply (proj1 (Forall_forall _ _) H2') in Hin as (Hd' & Hn' & Hle). cbn in *.
    apply frame_nonce_inj in E as [-> ->]; try done. rewrite Z.eqb_refl in Hle. lia.
  - constructor; [exact Hc|]. eapply Forall2_impl; [exact H4|].
    intros nonce e. apply sealed_with_counter.
Qed.

(** C22: no nonce is used twice in a session.  Whatever frames are encrypted in
    whatever order and directions, failures included, the ciphertexts that come
    out are those of the cipher under pairwise distinct nonces, each with the
    key and associated data of its direction; the counters stay within 64 bits
    (the last value is refused instead of wrapping), and an encryption that
    fails leaves the state as it was. *)
Theorem nonces_never_repeat ops s :
  counters_ok s ->
  (exists nonces, NoDup nonces /\ Forall2 (sealed_with s) nonces (seal_all ops s).2) /\
  counters_ok (seal_all ops s).1 /\
  forall d m s' e, encrypt_frame d m s = (s', Err e) -> s' = s.
Proof.
  intros Hs. destruct (seal_all_log ops s Hs) as (? & log & _ & ? & ?).
  eauto 6 using encrypt_frame_err.
Qed.

(** ** Delivery in order *)

(** What the receiver does with one ciphertext. *)
Definition open_one (d : Z) (c : bytes) : eff SharedV6State string bytes :=
  let~ counter := expect_next_counter d in decrypt_frame d c counter.

Definition opens (r : SharedV6State) (d counter : Z) (c m : bytes) : Prop :=
  aead_decrypt (cipher (dir_cipher d r)) (frame_nonce d counter)
    (frame_aad (st_version r) (st_instance_id r) d (zlen c)) c = Some m.

Lemma expect_next_ok d r r' n :
  expect_next_counter d r = (r', Ok n) <->
  is_direction d /\ n = dir_recv d r /\ n + 1 <= U64_MAX /\ r' = set_recv_counter d (n + 1) r.
Proof.
  unfold expect_next_counter, ebind, eget, elift, emodify, eret.
  destruct (recv_counter d r) as [x|] eqn:Hr; cbn [ok_or].
  - apply recv_counter_ok in Hr as [Hd ->].
    destruct (checked_add _ _ _) as [y|] eqn:Ha; cbn [ok_or].
    + apply checked_add_some in Ha as [-> Ha]. naive_solver.
    + apply checked_add_none in Ha. split; [done|]. intros (_ & -> & ? & _). lia.
  - split; [done|]. intros (Hd & -> & _).
    by rewrite (proj2 (recv_counter_ok d r _) (conj Hd eq_refl)) in Hr.
Qed.

Lemma decrypt_frame_ok d c n r r' m :
  decrypt_frame d c n r = (r', Ok m) <->
  is_direction d /\ V6_AEAD_TAG_BYTES <= zlen c <= V6_MAX_DATA_FRAME /\
  opens r d n c m /\ r' = r.
Proof.
  unfold decrypt_frame, opens, validate_ciphertext_frame_len, ebind, elift, eget.
  destruct (in_range _ _ _) eqn:Hl; cbn [rbind ensure].
  - apply in_range_true in Hl. destruct (cipher_state d r) as [x|] eqn:Hc.
    + apply cipher_state_ok in Hc as [Hd ->].
      rewrite (proj2 (try_from_max_some U32_MAX (zlen c) (zlen c))) by
        (unfold U32_MAX, V6_MAX_DATA_FRAME in *; lia). cbn [ok_or].
      destruct (aead_decrypt _ _ _ _); cbn [ok_or]; naive_solver.
    + split; [done|]. intros (Hd & _).
      by rewrite (proj2 (cipher_state_ok d r _) (conj Hd eq_refl)) in Hc.
  - apply in_range_false in Hl. split; [done|]. intros (_ & ? & _). lia.
Qed.

Lemma open_one_ok d c r r' m :
  open_one d c r = (r', Ok m) <->
  is_direction d /\ V6_AEAD_TAG_BYTES <= zlen c <= V6_MAX_DATA_FRAME /\
  dir_recv d r + 1 <= U64_MAX /\ opens r d (dir_recv d r) c m /\
  r' = set_recv_counter d (dir_recv d r + 1) r.
Proof.
  unfold open_one. rewrite ebind_ok. setoid_rewrite expect_next_ok.
  setoid_rewrite decrypt_frame_ok. split.
  - intros (n & r1 & (Hd & -> & Hn & ->) & _ & Hl & Ho & ->). done.
  - intros (Hd & Hl & Hn & Ho & ->). eauto 10.
Qed.

(** Sending frames in one direction; opening what arrives until the first
    failure, which closes the connection. *)
Fixpoint send_all (d : Z) (ms : list bytes) : eff SharedV6State string (list bytes) :=
  match ms with
  | [] => eret []
  | m :: ms' =>
      let~ c := encrypt_frame d m in
      let~ cs := send_all d ms' in
      eret (c :: cs)
  end.

Fixpoint open_all (d : Z) (cs : list bytes) (r : SharedV6State) : list bytes :=
  match cs with
  | [] => []
  | c :: cs' =>
      match open_one d c r with
      | (r', Ok m) => m :: open_all d cs' r'
      | (_, Err _) => []
      end
  end.

(** Sender and receiver of a direction hold the same key and context. *)
Definition peers (d : Z) (s r : SharedV6State) : Prop :=
  st_version s = st_version r /\ st_instance_id s = st_instance_id r /\
  cipher (dir_cipher d s) = cipher (dir_cipher d r).

(** No forgery among the ciphertexts [ds]: what opens under the [i]-th nonce
    of the direction is the [i]-th ciphertext the sender produced.  This is
    the authenticity of the cipher, for the ciphertexts at hand. *)
Definition no_forgery (r : SharedV6State) (d base : Z) (cs ds : list bytes) : Prop :=
  Forall (fun c => forall n m, base <= n <= U64_MAX -> opens r d n c m ->
                   cs !! Z.to_nat (n - base) = Some c) ds.

Lemma sealed_opens d s r n m c :
  peers d s r -> sealed s d n m c -> opens r d n c m /\ zlen c = zlen m + 16.
Proof.
  intros (Hv & Hi & Hk) Hs. unfold opens, sealed in *.
  pose proof (aead_encrypt_length _ _ _ _ _ Hs) as Hl. rewrite Hl, <-Hv, <-Hi, <-Hk.
  split; [|done]. by apply aead_decrypt_encrypt.
Qed.

Lemma send_all_sealed d ms s s' cs :
  send_all d ms s = (s', Ok cs) ->
  Forall2 (fun m c => zlen m <= V6_MAX_PLAINTEXT_FRAME) ms cs /\
  (ms <> [] -> is_direction d /\ send_counter (dir_cipher d s) + zlen ms <= U64_MAX) /\
  forall i m c, ms !! i = Some m -> cs !! i = Some c ->
    sealed s d (send_counter (dir_cipher d s) + Z.of_nat i) m c.
Proof.
  revert s s' cs; induction ms as [|m ms IH]; intros s s' cs; cbn [send_all]; intros Hs.
  { inv_eff. split_and!; [constructor|done|done]. }
  apply ebind_ok in Hs as (c & s1 & He & Hs). apply ebind_ok in Hs as (cs' & s2 & Hs & E).
  apply eret_ok in E as [-> ->]. apply encrypt_frame_ok in He as (Hd & Hm & Hn & Hc & ->).
  apply IH in Hs as (Hl & Hcnt & Hall). rewrite dir_cipher_set, Z.eqb_refl in * by done.
  cbn [send_counter] in *. split_and!.
  - by constructor.
  - intros _. split; [done|]. rewrite zlen_cons. destruct ms; [cbn in *; rewrite zlen_nil; lia|].
    destruct (Hcnt ltac:(done)). lia.
  - intros [|i] m' c'; cbn; [intros [= <-] [= <-]; by rewrite Z.add_0_r|].
    intros Hm' Hc'. specialize (Hall _ _ _ Hm' Hc'). unfold sealed in *.
    rewrite dir_cipher_set, Z.eqb_refl in Hall by done. cbn in Hall.
    replace (send_counter (dir_cipher d s) + Z.of_nat (S i))
      with (send_counter (dir_cipher d s) + 1 + Z.of_nat i) by lia. done.
Qed.

Lemma open_all_sent d ms s s' cs r :
  send_all d ms s = (s', Ok cs) -> peers d s r ->
  dir_recv d r = send_counter (dir_cipher d s) -> open_all d cs r = ms.
Proof.
  revert s s' cs r; induction ms as [|m ms IH]; intros s s' cs r; cbn [send_all]; intros Hs Hp Hr.
  { by inv_eff. }
  apply ebind_ok in Hs as (c & s1 & He & Hs). apply ebind_ok in Hs as (cs' & s2 & Hs & E).
  apply eret_ok in E as [-> ->]. apply encrypt_frame_ok in He as (Hd & Hm & Hn & Hc & ->).
  destruct (sealed_opens _ _ _ _ _ _ Hp Hc) as [Ho Hl]. cbn [open_all].
  rewrite (proj2 (open_one_ok d c r (set_recv_counter d (dir_recv d r + 1) r) m)).
  - f_equal. eapply IH; [exact Hs| |].
    + unfold peers in *. rewrite dir_cipher_set, Z.eqb_refl by done. done.
    + rewrite dir_cipher_set, Z.eqb_refl, dir_recv_set by done. cbn. by rewrite Hr.
  - rewrite Hr. unfold V6_MAX_PLAINTEXT_FRAME, V6_AEAD_TAG_BYTES in *.
    pose proof (zlen_nonneg m). split_and!; try done; lia.
Qed.

Lemma open_all_prefix d s r base cs ds ms i :
  peers d s r -> no_forgery r d base cs ds -> dir_recv d r = base + Z.of_nat i ->
  length cs = length ms ->
  (forall j m c, ms !! j = Some m -> cs !! j = Some c -> sealed s d (base + Z.of_nat j) m c) ->
  open_all d ds r `prefix_of` drop i ms.
Proof.
  intros Hp Hf Hr Hl Hs. revert r i Hp Hf Hr.
  induction ds as [|c ds IH]; intros r i Hp Hf Hr; cbn [open_all]; [apply prefix_nil|].
  destruct (open_one d c r) as [r' [m|e]] eqn:Ho; [|apply prefix_nil].
  apply open_one_ok in Ho as (Hd & _ & Hn & Ho & ->). inversion_clear Hf as [|? ? Hc Hf'].
  assert (cs !! i = Some c) as Hci.
  { rewrite Hr in Ho. specialize (Hc (base + Z.of_nat i) m ltac:(lia) Ho).
    by replace (Z.to_nat (base + Z.of_nat i - base)) with i in Hc by lia. }
  destruct (lookup_lt_is_Some_2 ms i) as [m' Hm'].
  { rewrite <-Hl. apply lookup_lt_is_Some_1. eauto. }
  destruct (sealed_opens _ _ _ _ _ _ Hp (Hs _ _ _ Hm' Hci)) as [Ho' _].
  rewrite Hr in Ho. unfold opens in Ho, Ho'. rewrite Ho in Ho'. injection Ho' as <-.
  rewrite (drop_S _ _ _ Hm'). apply prefix_cons. apply IH; [done|done|].
  rewrite dir_recv_set by done. lia.
Qed.

(** C13: the channel delivers in order.  When a sender has sealed frames [ms]
    into ciphertexts [cs] and the receiver of that direction holds the same
    key and expects the sender's counter, receiving [cs] yields exactly [ms];
    and whatever ciphertexts arrive instead (dropped, repeated, reordered,
    injected), provided none is a forgery, what is accepted before the first
    failure is a prefix of [ms]. *)
Theorem channel_delivers_in_order d s s' r ms cs ds :
  send_all d ms s = (s', Ok cs) -> peers d s r ->
  dir_recv d r = send_counter (dir_cipher d s) ->
  open_all d cs r = ms /\
  (no_forgery r d (dir_recv d r) cs ds -> open_all d ds r `prefix_of` ms).
Proof.
  intros Hs Hp Hr. split; [by eapply open_all_sent|]. intros Hf.
  destruct (send_all_sealed _ _ _ _ _ Hs) as (Hl & _ & Hall).
  rewrite <-(drop_0 ms). eapply (open_all_prefix d s r _ cs ds ms 0); try done.
  - by rewrite Z.add_0_r.
  - symmetry. by eapply Forall2_length.
  - by rewrite Hr.
Qed.
End cipher.

(** ** The handshake *)

Section handshake.
Context `{Sha2, !Sha2Laws, HmacSha2, !HmacSha2Laws, Hex, !HexLaws, Base64, !Base64Laws}.
Context `{Aead, !AeadLaws, Hkdf, !HkdfLaws}.
Context `{Json Frame, !JsonLawsOn Frame float_free}.
Context `{Json V6RequestPrelude, !JsonLaws V6RequestPrelude}.
Context `{Json V6AuthFrame, !JsonLaws V6AuthFrame, JsonSer ProfileProofPayload}.

Lemma verify_role_mac_ok secret domain version inst cn sn dg encoded :
  verify_role_mac secret domain version inst cn sn dg encoded = Ok tt <->
  b64_decode encoded = Some (role_mac secret domain version inst cn sn dg).
Proof.
  unfold verify_role_mac. split.
  - intros Hv. checks. congruence.
  - intros ->. cbn [ok_or rbind]. unfold role_mac. rewrite hmac_zlen. cbn.
    by rewrite bool_decide_true.
Qed.

Lemma verify_own_role_mac secret domain version inst cn sn dg :
  verify_role_mac secret domain version inst cn sn dg
    (b64_encode (role_mac secret domain version inst cn sn dg)) = Ok tt.
Proof. apply verify_role_mac_ok. apply b64_decode_encode. Qed.

Lemma transcript_inj v i i' c c' s s' d d' :
  zlen i = 16 -> zlen i' = 16 -> zlen c = 32 -> zlen c' = 32 ->
  zlen s = 32 -> zlen s' = 32 ->
  transcript_input v i c s d = transcript_input v i' c' s' d' ->
  i = i' /\ c = c' /\ s = s' /\ d = d'.
Proof.
  unfold transcript_input, zlen. intros ? ? ? ? ? ? E. apply app_inv_head in E.
  apply app_inv_length in E as [-> E]; [|lia].
  apply app_inv_length in E as [-> E]; [|lia].
  by apply app_inv_length in E as [-> ->]; [|lia].
Qed.

Lemma prelude_digest_ok p d : prelude_digest p = Ok d <->
  exists bs, to_vec p = Some bs /\ d = sha256 bs.
Proof.
  unfold prelude_digest, canonical_bytes. rewrite rbind_ok. setoid_rewrite ok_or_ok.
  naive_solver.
Qed.

Lemma client_on_challenge_ok secret inst cn dg ch sn resp :
  client_on_challenge secret inst cn dg ch = Ok (sn, resp) ->
  cn <> sn /\
  resp = Response (b64_encode (role_mac secret CLIENT_MAC_DOMAIN IPC_PROTOCOL_VERSION_V6
                                 inst cn sn dg)) /\
  exists mac, ch = Challenge IPC_PROTOCOL_VERSION_V6 sn mac /\
    b64_decode mac =
      Some (role_mac secret SERVER_MAC_DOMAIN IPC_PROTOCOL_VERSION_V6 inst cn sn dg).
Proof.
  unfold client_on_challenge. destruct ch as [|v sn' mac|]; try done.
  destruct (Z.eqb_spec v IPC_PROTOCOL_VERSION_V6) as [->|]; [cbn [rbind]|done].
  intros Hc. checks. apply verify_role_mac_ok in Hr0. eauto 10.
Qed.

Lemma server_on_hello_ok secret inst draws hello ch p :
  server_on_hello secret inst draws hello = Ok (ch, p) ->
  hello = Hello IPC_PROTOCOL_VERSION_V6 inst (sp_client_nonce p) (sp_prelude p) /\
  prelude_validate (sp_prelude p) = Ok tt /\
  prelude_digest (sp_prelude p) = Ok (sp_digest p) /\
  fresh_nonce (sp_client_nonce p) draws = Some (sp_server_nonce p) /\
  ch = Challenge IPC_PROTOCOL_VERSION_V6 (sp_server_nonce p)
         (b64_encode (role_mac secret SERVER_MAC_DOMAIN IPC_PROTOCOL_VERSION_V6 inst
                        (sp_client_nonce p) (sp_server_nonce p) (sp_digest p))).
Proof.
  unfold server_on_hello. destruct hello as [v i cn pre| |]; try done.
  destruct (Z.eqb_spec v IPC_PROTOCOL_VERSION_V6) as [->|]; [|done].
  intros Hs. case_bool_decide; [subst i|done]. cbn [ensure rbind] in Hs. inv_ok. cbn. done.
Qed.

Lemma server_on_response_ok secret inst p resp keys :
  server_on_response secret inst p resp = Ok keys ->
  (exists mac, resp = Response mac /\
     b64_decode mac = Some (role_mac secret CLIENT_MAC_DOMAIN IPC_PROTOCOL_VERSION_V6 inst
                              (sp_client_nonce p) (sp_server_nonce p) (sp_digest p))) /\
  derive_keys secret IPC_PROTOCOL_VERSION_V6 inst (sp_client_nonce p) (sp_server_nonce p)
    (sp_digest p) = Ok keys.
Proof.
  unfold server_on_response. destruct resp; try done. cbn [rbind]. intros Hs.
  apply seq_ok in Hs as [Hv Hk]. apply verify_role_mac_ok in Hv. eauto.
Qed.

(** C12: agreement.  If a client, on any challenge, produced a response and a
    server holding the same secret accepted that response, on whatever hello it
    had read, then both agree on the daemon instance, the two nonces, the
    request prelude and both direction keys; otherwise HMAC collides on the
    two transcripts or SHA-256 on the two preludes. *)
Theorem v6_handshake_agreement secret inst inst' cn prelude bs bs' digest ch sn resp
    draws hello ch' p keys :
  zlen inst = 16 -> zlen inst' = 16 -> zlen cn = 32 -> zlen sn = 32 ->
  zlen (sp_client_nonce p) = 32 -> zlen (sp_server_nonce p) = 32 ->
  to_vec prelude = Some bs -> to_vec (sp_prelude p) = Some bs' ->
  prelude_digest prelude = Ok digest ->
  client_on_challenge secret inst cn digest ch = Ok (sn, resp) ->
  server_on_hello secret inst' draws hello = Ok (ch', p) ->
  server_on_response secret inst' p resp = Ok keys ->
  (inst = inst' /\ cn = sp_client_nonce p /\ sn = sp_server_nonce p /\
   prelude = sp_prelude p /\
   derive_keys secret IPC_PROTOCOL_VERSION_V6 inst cn sn digest = Ok keys) \/
  hmac_collision secret
    (CLIENT_MAC_DOMAIN ++ transcript_input IPC_PROTOCOL_VERSION_V6 inst cn sn digest)
    (CLIENT_MAC_DOMAIN ++ transcript_input IPC_PROTOCOL_VERSION_V6 inst' (sp_client_nonce p)
                            (sp_server_nonce p) (sp_digest p)) \/
  sha256_collision bs bs'.
Proof.
  intros Hi Hi' Hc Hs Hpc Hps Hb Hb' Hd Hcl Hsh Hsr.
  apply client_on_challenge_ok in Hcl as (_ & -> & _).
  apply server_on_hello_ok in Hsh as (_ & _ & Hd' & _).
  apply server_on_response_ok in Hsr as ((mac & [= <-] & Hm) & Hk).
  rewrite b64_decode_encode in Hm. injection Hm as Hm.
  apply prelude_digest_ok in Hd as (b & E & ->), Hd' as (b' & E' & Ed').
  rewrite Hb in E. injection E as <-. rewrite Hb' in E'. injection E' as <-.
  destruct (decide (CLIENT_MAC_DOMAIN ++ transcript_input IPC_PROTOCOL_VERSION_V6 inst cn sn (sha256 bs)
    = CLIENT_MAC_DOMAIN ++ transcript_input IPC_PROTOCOL_VERSION_V6 inst' (sp_client_nonce p)
        (sp_server_nonce p) (sp_digest p))) as [E|]; [|by right; left].
  apply app_inv_head, transcript_inj in E as (-> & -> & -> & E); try done.
  destruct (decide (bs = bs')) as [<-|]; [left|right; right; split; congruence].
  split_and!; try done; [by eapply to_vec_inj|by rewrite E].
Qed.

(** A handshake frame that fits its cap, with its text. *)
Definition v6_text (f : V6AuthFrame) (bs : bytes) : Prop :=
  to_vec f = Some bs /\ zlen bs <= V6_MAX_AUTH_FRAME.

Lemma wire_write_handshake f bs w : v6_text f bs ->
  write_handshake_frame f w =
  ({| wire_in := wire_in w; wire_out := wire_out w ++ framed bs |}, Ok tt).
Proof.
  intros [Hv Hl]. unfold write_handshake_frame. rewrite Hv.
  rewrite (elift_pass _ _ _ bs) by done.
  rewrite ensure_pass_eff by by apply Z.leb_le.
  rewrite (elift_pass _ _ _ (zlen bs)) by
    (apply ok_or_ok, try_from_max_some; unfold U32_MAX, V6_MAX_AUTH_FRAME in *; lia).
  apply timed_ok. unfold framed. cbn. by rewrite <-app_assoc.
Qed.

Lemma wire_read_handshake f bs rest out : v6_text f bs ->
  read_handshake_frame {| wire_in := framed bs ++ rest; wire_out := out |} =
  ({| wire_in := rest; wire_out := out |}, Ok f).
Proof.
  intros [Hv Hl]. unfold read_handshake_frame, framed. apply timed_ok. rewrite <-app_assoc.
  pose proof (zlen_nonneg bs).
  erewrite ebind_pass by by apply wire_read_exact_app. cbv zeta.
  rewrite of_be32 by (unfold U32_MAX, V6_MAX_AUTH_FRAME in *; lia).
  rewrite ensure_pass_eff by by apply Z.leb_le.
  erewrite ebind_pass by by apply wire_read_exact_app.
  by rewrite (from_slice_to_vec _ _ Hv).
Qed.

Lemma wire_read_handshake_eof out :
  read_handshake_frame {| wire_in := []; wire_out := out |} =
  ({| wire_in := []; wire_out := out |}, Err "unexpected end of file").
Proof. done. Qed.

Lemma derive_keys_total secret v inst cn sn dg :
  exists keys, derive_keys secret v inst cn sn dg = Ok keys.
Proof.
  unfold derive_keys. cbv zeta.
  destruct (hkdf_expand_total (sha256 (transcript_input v inst cn sn dg)) secret
    (KEY_INFO_DOMAIN ++ be16 v ++ inst ++ u8 DIRECTION_C2D) 64) as [a ->]; [lia|].
  destruct (hkdf_expand_total (sha256 (transcript_input v inst cn sn dg)) secret
    (KEY_INFO_DOMAIN ++ be16 v ++ inst ++ u8 DIRECTION_D2C) 64) as [b ->]; [lia|].
  cbn. eauto.
Qed.

Lemma honest_v6 secret inst draws cn sn prelude digest :
  prelude_validate prelude = Ok tt -> prelude_digest prelude = Ok digest ->
  fresh_nonce cn draws = Some sn ->
  exists ch p resp keys,
    server_on_hello secret inst draws (client_hello inst cn prelude) = Ok (ch, p) /\
    client_on_challenge secret inst cn digest ch = Ok (sn, resp) /\
    server_on_response secret inst p resp = Ok keys /\ sp_prelude p = prelude /\
    derive_keys secret IPC_PROTOCOL_VERSION_V6 inst cn sn digest = Ok keys.
Proof.
  intros Hv Hd Hf. destruct (derive_keys_total secret IPC_PROTOCOL_VERSION_V6 inst cn sn digest)
    as [keys Hk].
  pose proof (proj1 (fresh_nonce_ne _ _ _ Hf)) as Hne.
  unfold server_on_hello, client_hello. rewrite Z.eqb_refl, bool_decide_true by done.
  cbn [ensure rbind]. rewrite Hv, Hd, Hf. cbn [rbind ok_or]. do 4 eexists. split; [done|].
  unfold client_on_challenge. rewrite Z.eqb_refl. cbn [rbind].
  rewrite bool_decide_false by done. cbn [negb ensure rbind]. rewrite verify_own_role_mac.
  cbn [rbind]. split; [done|]. unfold server_on_response. cbn [rbind sp_client_nonce
    sp_server_nonce sp_digest sp_prelude]. rewrite verify_own_role_mac. done.
Qed.

(** Two honest v6 peers complete the handshake.  With the same secret and
    daemon instance, a valid prelude and some server draw that differs from
    the client's nonce, the client alone sends its hello and waits; on it the
    server answers with its challenge and waits; on that the client sends its
    response and returns its session; on that the server returns its own.  The
    two sessions hold the same cipher state, and the server's prelude is the
    client's. *)
Theorem v6_handshake_completes secret inst draws cn sn prelude digest :
  prelude_validate prelude = Ok tt -> prelude_digest prelude = Ok digest ->
  fresh_nonce cn draws = Some sn ->
  exists ch resp, forall th tc tr,
    v6_text (client_hello inst cn prelude) th -> v6_text ch tc -> v6_text resp tr ->
    let client input := v6_client_handshake secret inst prelude cn
                          {| wire_in := input; wire_out := [] |} in
    let server input := v6_server_handshake secret inst draws
                          {| wire_in := input; wire_out := [] |} in
    let waiting := "unexpected end of file" in
    client [] = ({| wire_in := []; wire_out := framed th |}, Err waiting) /\
    server (framed th) = ({| wire_in := []; wire_out := framed tc |}, Err waiting) /\
    exists cs ss,
      client (framed tc) =
        ({| wire_in := []; wire_out := framed th ++ framed tr |}, Ok cs) /\
      server (framed th ++ framed tr) =
        ({| wire_in := []; wire_out := framed tc |}, Ok (ss, prelude)) /\
      cs_state cs = ss_state ss /\ ss_prelude ss = prelude /\
      cs_root_request_hash cs = root_request_hash prelude /\
      root_sent cs = false /\ root_received ss = false.
Proof.
  intros Hv Hd Hf. destruct (honest_v6 secret inst draws cn sn prelude digest Hv Hd Hf)
    as (ch & p & resp & keys & Hh & Hc & Hr & Hp & Hk).
  exists ch, resp. intros th tc tr Th Tc Tr client server waiting.
  assert (forall input, client input =
    (let~ challenge := read_handshake_frame in
     let~ (server_nonce, response) :=
       elift (client_on_challenge secret inst cn digest challenge) in
     run~ write_handshake_frame response ;;
     let~ keys := elift (derive_keys secret IPC_PROTOCOL_VERSION_V6 inst cn server_nonce digest) in
     let~ stream := eget (fun s => s) in
     eret {| cs_stream := stream; cs_state := session_state inst keys;
             cs_root_request_hash := root_request_hash prelude; root_sent := false |})
    {| wire_in := input; wire_out := framed th |}) as Ec.
  { intros input. unfold client, v6_client_handshake.
    rewrite (elift_pass _ _ _ tt) by done. rewrite (elift_pass _ _ _ digest) by done.
    by erewrite ebind_pass by by apply wire_write_handshake. }
  assert (forall input, server (framed th ++ input) =
    (let~ response := read_handshake_frame in
     let~ keys := elift (server_on_response secret inst p response) in
     let~ stream := eget (fun s => s) in
     eret ({| ss_stream := stream; ss_state := session_state inst keys;
              ss_prelude := sp_prelude p; root_received := false |}, sp_prelude p))
    {| wire_in := input; wire_out := framed tc |}) as Es.
  { intros input. unfold server, v6_server_handshake.
    erewrite ebind_pass by by apply wire_read_handshake.
    rewrite (elift_pass _ _ _ (ch, p)) by done. cbv beta iota.
    by erewrite ebind_pass by by apply wire_write_handshake. }
  clearbody client server. split; [|split].
  - rewrite Ec. by erewrite ebind_stop by apply wire_read_handshake_eof.
  - rewrite <-(app_nil_r (framed th)), Es. by erewrite ebind_stop by apply wire_read_handshake_eof.
  - do 2 eexists. split; [|split].
    + rewrite Ec, <-(app_nil_r (framed tc)).
      erewrite ebind_pass by by apply wire_read_handshake.
      rewrite (elift_pass _ _ _ (sn, resp)) by done. cbv beta iota.
      erewrite ebind_pass by by apply wire_write_handshake.
      rewrite (elift_pass _ _ _ keys) by done. reflexivity.
    + rewrite Es, <-(app_nil_r (framed tr)).
      erewrite ebind_pass by by apply wire_read_handshake.
      rewrite (elift_pass _ _ _ keys) by done. rewrite Hp. reflexivity.
    + done.
Qed.

(** ** Sessions *)

Lemma read_data_frame_prelude {S} `{AsyncStream S} d (s s' : V6ServerSession S) r :
  zoom server_conn set_server_conn (read_data_frame d) s = (s', r) ->
  ss_prelude s' = ss_prelude s /\ root_received s' = root_received s.
Proof.
  unfold zoom. destruct (read_data_frame d (server_conn s)) as [t r1].
  intros [= <- _]. done.
Qed.

(** C24: the root request is the one the client committed to, and there is only
    one.  On any transport, a server session yields a root request only once,
    only with the kind its prelude declares, and only from bytes whose SHA-256
    is the committed hash, so that it is the very frame any honest client
    committed to, or SHA-256 collides; before it no stream frame is read. *)
Theorem root_request_is_the_committed_one {S} `{AsyncStream S} (s s' : V6ServerSession S) f g bg :
  recv_root_request s = (s', Ok f) ->
  float_free g = true -> to_vec g = Some bg ->
  root_request_hash_of g = Ok (root_request_hash (ss_prelude s)) ->
  frame_kind f = operation_kind (ss_prelude s) /\
  (f = g \/ exists bs, sha256_collision bs bg /\ from_slice bs = Some f) /\
  server_recv_frame s =
    (s, Err "IPC v6 server must consume the root request before stream frames") /\
  recv_root_request s' = (s', Err "IPC v6 root request already consumed") /\
  ss_prelude s' = ss_prelude s.
Proof.
  unfold recv_root_request at 1. intros Hr Hg Hb Hh.
  apply ebind_ok in Hr as (s0 & s1 & [= <- <-] & Hr).
  apply ebind_ok in Hr as ([] & s2 & Hr0 & Hr). apply elift_ok in Hr0 as [-> Hr0]. checks.
  apply ebind_ok in Hr as (o & s3 & Hread & Hr). apply read_data_frame_prelude in Hread as [Hp Hrr].
  inv_eff. unfold root_request_hash_of in Hh. rewrite Hb in Hh. cbn in Hh.
  injection Hh as Hh. split_and!; try done.
  - destruct (decide (a = bg)) as [->|Hne].
    + left. rewrite (from_slice_to_vec_on _ _ Hg Hb) in *. congruence.
    + right. exists a. split; [split; congruence|done].
  - unfold server_recv_frame, ebind, eget, elift. by rewrite Hr0.
Qed.

Lemma wire_write_data d m st st' c out inp :
  encrypt_frame d m st = (st', Ok c) ->
  write_data_frame d m ({| wire_in := inp; wire_out := out |}, st) =
  (({| wire_in := inp; wire_out := out ++ framed c |}, st'), Ok tt).
Proof.
  intros He. pose proof He as He'. apply encrypt_frame_ok in He' as (_ & Hl & _ & Hs & _).
  pose proof (aead_encrypt_length _ _ _ _ _ Hs) as Hc.
  unfold write_data_frame.
  erewrite ebind_pass by (apply zoom_ok; eexists; split; [exact He|reflexivity]).
  rewrite (elift_pass _ _ _ (zlen c)) by
    (apply ok_or_ok, try_from_max_some;
     unfold U32_MAX, V6_MAX_PLAINTEXT_FRAME, V6_MAX_DATA_FRAME, V6_AEAD_TAG_BYTES in *; lia).
  apply timed_ok. unfold framed. cbn. by rewrite <-app_assoc.
Qed.

Lemma wire_read_data d c m st st' out rest :
  open_one d c st = (st', Ok m) ->
  read_data_frame d ({| wire_in := framed c ++ rest; wire_out := out |}, st) =
  (({| wire_in := rest; wire_out := out |}, st'), Ok (Some m)).
Proof.
  intros Ho. pose proof Ho as Ho'. apply open_one_ok in Ho' as (_ & Hl & _).
  unfold open_one in Ho. apply ebind_ok in Ho as (n & st1 & Hn & Ho).
  unfold read_data_frame, framed. rewrite <-app_assoc.
  destruct (be32_split (zlen c)) as (b0 & b3 & Eb & Hb3). rewrite Eb. cbn [app].
  assert (of_be (b0 :: b3) = zlen c) as Hbe.
  { rewrite <-Eb, of_be32; [done|]. unfold U32_MAX, V6_MAX_DATA_FRAME, V6_AEAD_TAG_BYTES in *. lia. }
  erewrite ebind_pass; [|apply timed_ok, zoom_ok; eexists; split; [|reflexivity];
    erewrite ebind_pass by apply wire_read_byte_cons; cbv beta iota;
    erewrite ebind_pass by (by apply wire_read_exact_app); reflexivity].
  cbv beta iota. rewrite Hbe. unfold validate_ciphertext_frame_len.
  rewrite (proj2 (in_range_true _ _ _) Hl). erewrite ebind_pass by reflexivity.
  erewrite ebind_pass; [|apply timed_ok, zoom_ok; eexists; split; [|reflexivity];
    by apply wire_read_exact_app].
  erewrite ebind_pass; [|apply zoom_ok; eexists; split; [exact Hn|reflexivity]].
  erewrite ebind_pass; [|apply zoom_ok; eexists; split; [exact Ho|reflexivity]].
  done.
Qed.

Lemma wire_read_data_eof d st out :
  read_data_frame d ({| wire_in := []; wire_out := out |}, st) =
  (({| wire_in := []; wire_out := out |}, st), Ok None).
Proof. done. Qed.

(** Frames sent by a client one after the other; the server reads the root
    request and then up to [n] stream frames, until the transport ends. *)
Fixpoint client_send_frames {S} `{AsyncStream S} (fs : list Frame)
  : eff (V6ClientSession S) string unit :=
  match fs with
  | [] => eret tt
  | f :: fs' => run~ client_send_frame f ;; client_send_frames fs'
  end.

Fixpoint server_recv_frames {S} `{AsyncStream S} (n : nat)
  : eff (V6ServerSession S) string (list Frame) :=
  match n with
  | O => eret []
  | Datatypes.S n' =>
      let~ f := server_recv_frame in
      match f with
      | None => eret []
      | Some f => let~ fs := server_recv_frames n' in eret (f :: fs)
      end
  end.

Definition server_session {S} `{AsyncStream S} (n : nat)
  : eff (V6ServerSession S) string (Frame * list Frame) :=
  let~ root := recv_root_request in
  let~ fs := server_recv_frames n in
  eret (root, fs).

Lemma server_recv_frames_S {S} `{AsyncStream S} n (s : V6ServerSession S) :
  server_recv_frames (Datatypes.S n) s =
  (let~ f := server_recv_frame in
   match f with
   | None => eret []
   | Some f => let~ fs := server_recv_frames n in eret (f :: fs)
   end) s.
Proof. done. Qed.

#[local] Opaque framed.

(** A frame with its text, small enough for one sealed frame. *)
Definition data_text (f : Frame) (bs : bytes) : Prop :=
  to_vec f = Some bs /\ float_free f = true /\ zlen bs <= V6_MAX_PLAINTEXT_FRAME.

Lemma send_all_total d ms s :
  is_direction d -> Forall (fun m => zlen m <= V6_MAX_PLAINTEXT_FRAME) ms ->
  send_counter (dir_cipher d s) + zlen ms <= U64_MAX ->
  exists s' cs, send_all d ms s = (s', Ok cs).
Proof.
  intros Hd Hms. revert s; induction Hms as [|m ms Hm Hms IH]; intros s Hn; cbn [send_all].
  { by repeat eexists. }
  rewrite zlen_cons in Hn. pose proof (zlen_nonneg ms).
  destruct (aead_encrypt_total (cipher (dir_cipher d s))
    (frame_nonce d (send_counter (dir_cipher d s)))
    (frame_aad (st_version s) (st_instance_id s) d (zlen m + 16)) m) as [c Hc].
  { unfold V6_MAX_PLAINTEXT_FRAME, V6_MAX_DATA_FRAME, V6_AEAD_TAG_BYTES in *. lia. }
  erewrite ebind_pass by (apply encrypt_frame_ok; split_and!; [done..|lia|exact Hc|reflexivity]).
  destruct (IH (set_send_counter d (send_counter (dir_cipher d s) + 1) s)) as (s' & cs & Hs).
  { rewrite dir_cipher_set, Z.eqb_refl by done. cbn. lia. }
  erewrite ebind_pass by exact Hs. by repeat eexists.
Qed.

Lemma client_send_frames_wire fs ts (cs : V6ClientSession wire) st' cts :
  Forall2 data_text fs ts -> root_sent cs = true ->
  send_all DIRECTION_C2D ts (cs_state cs) = (st', Ok cts) ->
  client_send_frames fs cs =
  ({| cs_stream := {| wire_in := wire_in (cs_stream cs);
                      wire_out := wire_out (cs_stream cs) ++ concat (map framed cts) |};
      cs_state := st'; cs_root_request_hash := cs_root_request_hash cs; root_sent := true |},
   Ok tt).
Proof.
  intros Hft. revert cs cts. induction Hft as [|f tx fs ts (Hv & _ & _) Hft IH];
    intros [[inp out] st hash sent] cts Hsent; cbn in Hsent |- *; subst sent; intros Hs.
  { inv_eff. by rewrite app_nil_r. }
  apply ebind_ok in Hs as (c & st1 & He & Hs). apply ebind_ok in Hs as (cts' & st2 & Hs & E).
  apply eret_ok in E as [-> ->].
  erewrite ebind_pass.
  2:{ unfold client_send_frame. rewrite Hv. rewrite (elift_pass _ _ _ tx) by done.
      erewrite ebind_pass by reflexivity. rewrite ensure_pass_eff by done.
      erewrite ebind_pass by (apply zoom_ok; eexists; split; [by apply wire_write_data|reflexivity]).
      reflexivity. }
  cbn. erewrite IH; [|done|exact Hs]. cbn. by rewrite <-app_assoc.
Qed.

Lemma server_recv_frames_wire fs ts (ss : V6ServerSession wire) st st' cts :
  Forall2 data_text fs ts -> root_received ss = true ->
  send_all DIRECTION_C2D ts st = (st', Ok cts) -> peers DIRECTION_C2D st (ss_state ss) ->
  c2d_recv_counter (ss_state ss) = send_counter (c2d st) ->
  wire_in (ss_stream ss) = concat (map framed cts) ->
  (server_recv_frames (S (length fs)) ss).2 = Ok fs.
Proof.
  intros Hft. revert ss st cts. induction Hft as [|f tx fs ts (Hv & Hff & _) Hft IH];
    intros [[inp out] rt pre rcv] st cts Hrcv; cbn in Hrcv; subst rcv;
    cbn [send_all ss_state ss_stream wire_in]; intros Hs Hp Hc Hin.
  { by inv_eff. }
  apply ebind_ok in Hs as (c & st1 & He & Hs). apply ebind_ok in Hs as (cts' & st2 & Hs & E).
  apply eret_ok in E as [-> ->]. apply encrypt_frame_ok in He as (Hd & Hm & Hn & Hseal & ->).
  destruct (sealed_opens _ _ _ _ _ _ Hp Hseal) as [Ho Hl]. pose proof (zlen_nonneg tx).
  assert (open_one DIRECTION_C2D c rt =
    (set_recv_counter DIRECTION_C2D (c2d_recv_counter rt + 1) rt, Ok tx)) as Hop.
  { apply open_one_ok. unfold dir_recv. cbn. rewrite Hc.
    unfold V6_MAX_PLAINTEXT_FRAME, V6_AEAD_TAG_BYTES in *. split_and!; try done; lia. }
  cbn in Hin. subst inp. cbn [length]. rewrite server_recv_frames_S. erewrite ebind_pass.
  2:{ unfold server_recv_frame. erewrite ebind_pass by reflexivity.
      rewrite ensure_pass_eff by done.
      erewrite ebind_pass by (apply zoom_ok; eexists; split; [by apply wire_read_data|reflexivity]).
      cbv beta iota. rewrite (elift_pass _ _ _ f) by (by rewrite (from_slice_to_vec_on _ _ Hff Hv)).
      reflexivity. }
  cbv beta iota. cbn [fst snd set_server_conn].
  specialize (IH {| ss_stream := {| wire_in := concat (map framed cts'); wire_out := out |};
                    ss_state := set_recv_counter DIRECTION_C2D (c2d_recv_counter rt + 1) rt;
                    ss_prelude := pre; root_received := true |}
                 (set_send_counter DIRECTION_C2D (send_counter (c2d st) + 1) st) cts').
  unfold ebind. destruct (server_recv_frames _ _) as [ss' r]. cbn in IH.
  rewrite (IH eq_refl Hs); [done| |by rewrite Hc|done].
  destruct Hp as (Hp1 & Hp2 & Hp3). split_and!; done.
Qed.

(** A v6 session carries the root request and the stream frames.  When a
    client and a server share the cipher state of a fresh handshake whose
    prelude commits to frame [f] by hash and kind, the client can send [f] and
    any frames [fs] after it, and the server, reading what was written,
    receives exactly [f] as root request and then exactly [fs]. *)
Theorem v6_session_roundtrip f t fs ts (cs : V6ClientSession wire) (ss : V6ServerSession wire) :
  data_text f t -> Forall2 data_text fs ts ->
  cs_state cs = ss_state ss -> root_sent cs = false -> root_received ss = false ->
  c2d_recv_counter (ss_state ss) = send_counter (c2d (cs_state cs)) ->
  send_counter (c2d (cs_state cs)) + 1 + zlen fs <= U64_MAX ->
  sha256 t = root_request_hash (ss_prelude ss) ->
  cs_root_request_hash cs = root_request_hash (ss_prelude ss) ->
  frame_kind f = operation_kind (ss_prelude ss) ->
  exists cs' sent,
    client_send_frames (f :: fs) cs = (cs', Ok tt) /\
    wire_out (cs_stream cs') = wire_out (cs_stream cs) ++ sent /\
    (server_session (S (length fs))
       {| ss_stream := {| wire_in := sent; wire_out := [] |}; ss_state := ss_state ss;
          ss_prelude := ss_prelude ss; root_received := false |}).2 = Ok (f, fs).
Proof.
  intros (Hv & Hff & Ht) Hft Est Hrs _ Hcnt Hmax Hhash Hch Hkind.
  destruct cs as [[inp out] st hash sent]; cbn in *. subst sent st hash.
  assert (zlen ts = zlen fs) as Hlen by (unfold zlen; by rewrite (Forall2_length _ _ _ Hft)).
  destruct (send_all_total DIRECTION_C2D (t :: ts) (ss_state ss)) as (st' & cts & Hs).
  { by left. }
  { constructor; [done|]. clear -Hft. induction Hft as [|? ? ? ? (? & ? & ?)]; by constructor. }
  { rewrite zlen_cons, Hlen. unfold dir_cipher. cbn. lia. }
  cbn in Hs. apply ebind_ok in Hs as (c & st1 & He & Hs).
  apply ebind_ok in Hs as (cts' & st2 & Hs & E). apply eret_ok in E as [-> ->].
  do 2 eexists. split; [|split].
  - cbn. erewrite ebind_pass.
    2:{ unfold client_send_frame. rewrite Hv. rewrite (elift_pass _ _ _ t) by done.
        erewrite ebind_pass by reflexivity.
        rewrite ensure_pass_eff by (cbn; by apply bool_decide_eq_true).
        erewrite ebind_pass by (apply zoom_ok; eexists; split; [by apply wire_write_data|reflexivity]).
        reflexivity. }
    cbn. by erewrite client_send_frames_wire; [|done|done|exact Hs].
  - cbn. by rewrite <-app_assoc.
  - apply encrypt_frame_ok in He as (Hd & Hm & Hn & Hseal & ->).
    destruct (sealed_opens _ (ss_state ss) (ss_state ss) _ _ _ ltac:(by split_and!) Hseal) as [Ho Hl].
    assert (open_one DIRECTION_C2D c (ss_state ss) =
      (set_recv_counter DIRECTION_C2D (c2d_recv_counter (ss_state ss) + 1) (ss_state ss), Ok t)) as Hop.
    { apply open_one_ok. unfold dir_recv. cbn. rewrite Hcnt. pose proof (zlen_nonneg t).
      unfold V6_MAX_PLAINTEXT_FRAME, V6_AEAD_TAG_BYTES in *. split_and!; try done; lia. }
    unfold server_session. erewrite ebind_pass.
    2:{ unfold recv_root_request. erewrite ebind_pass by reflexivity.
        rewrite ensure_pass_eff by done.
        erewrite ebind_pass by (apply zoom_ok; eexists; split; [by apply wire_read_data|reflexivity]).
        rewrite (elift_pass _ _ _ t) by done. cbn [ss_prelude].
        rewrite ensure_pass_eff by by apply bool_decide_eq_true.
        rewrite (elift_pass _ _ _ f) by (by rewrite (from_slice_to_vec_on _ _ Hff Hv)).
        rewrite ensure_pass_eff by by apply bool_decide_eq_true. reflexivity. }
    set (ss' := {| ss_stream := {| wire_in := concat (map framed cts'); wire_out := [] |};
      ss_state := set_recv_counter DIRECTION_C2D (c2d_recv_counter (ss_state ss) + 1) (ss_state ss);
      ss_prelude := ss_prelude ss; root_received := true |} : V6ServerSession wire).
    change (((let~ l := server_recv_frames (S (length fs)) in eret (f, l)) ss').2 = Ok (f, fs)).
    assert ((server_recv_frames (S (length fs)) ss').2 = Ok fs) as Hrec.
    { eapply (server_recv_frames_wire fs ts ss'); [done|done|exact Hs|by split_and!| |done].
      cbn. by rewrite Hcnt. }
    unfold ebind. destruct (server_recv_frames _ ss') as [s3 r]. cbn in Hrec. by subst r.
Qed.

(** ** Profile call proofs *)
Context `{!JsonSerLaws ProfileProofPayload}.

Lemma profile_proof_ok k p e : profile_prelude_proof k p = Ok e <->
  exists m, profile_proof_message p = Ok m /\ e = b64_encode (hmac_sha256 k m).
Proof. unfold profile_prelude_proof. rewrite rbind_ok. naive_solver. Qed.

Lemma profile_message_ok p m : profile_proof_message p = Ok m <->
  is_some (profile_id p) = true /\ is_some (grant_id p) = false /\
  exists bs, json_bytes (profile_proof_payload p) = Some bs /\ m = PROFILE_PROOF_DOMAIN ++ bs.
Proof.
  unfold profile_proof_message. destruct (is_some (profile_id p)), (is_some (grant_id p));
    cbn; try naive_solver. rewrite rbind_ok. setoid_rewrite ok_or_ok. naive_solver.
Qed.

(** A profile call proof verifies for the prelude it was made for, and for
    another prelude only if every authenticated field (version, session,
    request, kind, profile, grant, deadline, request hash) is the same, unless
    HMAC collides; preludes that name a grant or no profile have none. *)
Theorem profile_proof_binds_prelude k p m e :
  profile_proof_message p = Ok m -> profile_prelude_proof k p = Ok e ->
  verify_profile_prelude_proof k e p = Ok tt /\
  (forall q mq, profile_proof_message q = Ok mq ->
     verify_profile_prelude_proof k e q = Ok tt ->
     profile_proof_payload q = profile_proof_payload p \/ hmac_collision k m mq) /\
  forall q, profile_id q = None \/ is_some (grant_id q) = true ->
    exists err, verify_profile_prelude_proof k e q = Err err.
Proof.
  intros Hm He. assert (e = b64_encode (hmac_sha256 k m)) as ->.
  { apply profile_proof_ok in He as (m' & Hm' & ->). congruence. }
  assert (zlen (b64_encode (hmac_sha256 k m)) = 44) as Hl by (by rewrite b64_encode_length, hmac_zlen).
  unfold verify_profile_prelude_proof. rewrite Hl, b64_decode_encode. cbn [ok_or rbind ensure Z.leb].
  change (44 <=? 64) with true. cbn [ensure rbind].
  rewrite hmac_zlen. cbn [Z.eqb Pos.eqb ensure rbind]. split_and!.
  - rewrite He. cbn [rbind]. rewrite b64_decode_encode. cbn. by rewrite bool_decide_true.
  - intros q mq Hq. rewrite (proj2 (profile_proof_ok k q _) (ex_intro _ mq (conj Hq eq_refl))).
    cbn [rbind]. rewrite b64_decode_encode. cbn [ok_or rbind]. intros Hv. checks.
    destruct (decide (m = mq)) as [<-|]; [left|right; by split].
    apply profile_message_ok in Hm as (_ & _ & b & Hb & ->), Hq as (_ & _ & b' & Hb' & E).
    apply app_inv_head in E as <-. by eapply json_bytes_inj.
  - intros q Hq. unfold profile_prelude_proof, profile_proof_message.
    destruct (profile_id q), (grant_id q); cbn; try (by eexists); naive_solver.
Qed.

(** A prelude's profile name may be [.] or [..], which are no profile names. *)
Lemma prelude_accepts_dot_names p :
  prelude_validate p = Ok tt -> forall n, n = rs "." \/ n = rs ".." ->
  prelude_validate {| protocol_version := protocol_version p;
    client_session_id := client_session_id p; request_id := request_id p;
    operation_kind := operation_kind p; profile_id := profile_id p; profile_name := Some n;
    grant_id := grant_id p; pop_signature := pop_signature p; profile_proof := profile_proof p;
    requested_deadline_unix_ms := requested_deadline_unix_ms p;
    root_request_hash := root_request_hash p |} = Ok tt /\
  exists e, validate_profile_name n = Err e.
Proof.
  unfold prelude_validate. intros Hp n Hn.
  do 5 (apply rbind_ok in Hp as ([] & ? & Hp)).
  repeat match goal with E : ensure _ _ = Ok _ |- _ => apply ensure_ok in E end.
  cbn [protocol_version operation_kind profile_id grant_id pop_signature profile_proof].
  rewrite !ensure_pass by done.
  destruct Hn as [->| ->]; (split; [by vm_compute|eexists; by vm_compute]).
Qed.
End handshake.

(** ** Runs *)
Module V6Runs.
Import StandIn IpcStandIn FrameStandIn IpcAuthRuns.

(** A cipher whose tag is the nonce: nothing opens under another nonce. *)
Definition nonce_tag (n : bytes) : bytes := take 16 (n ++ replicate 16 x00).
Definition nonce_aead : Aead := {|
  aead_encrypt k n a m := Some (m ++ nonce_tag n);
  aead_decrypt k n a c :=
    let m := take (length c - 16) c in
    if bool_decide (c = m ++ nonce_tag n) then Some m else None;
|}.

Lemma nonce_tag_length n : length (nonce_tag n) = 16%nat.
Proof. unfold nonce_tag. rewrite length_take, length_app, length_replicate. lia. Qed.

Lemma nonce_aead_laws : @AeadLaws nonce_aead.
Proof.
  split; unfold aead_encrypt, aead_decrypt, nonce_aead; cbv zeta.
  - intros k n a m c [= <-]. rewrite take_untagged by apply nonce_tag_length.
    by rewrite bool_decide_true.
  - intros k n a m c. case_bool_decide as E; [|done]. intros [= E2].
    rewrite E2 in E. by rewrite <-E.
  - intros k n a m c [= <-]. rewrite zlen_app. unfold zlen. rewrite nonce_tag_length. lia.
  - eauto.
Qed.

Lemma nonce_tag_inj n n' : is_u64 n -> is_u64 n' ->
  nonce_tag (frame_nonce DIRECTION_C2D n) = nonce_tag (frame_nonce DIRECTION_C2D n') -> n = n'.
Proof.
  intros Hn Hn' E. apply (frame_nonce_inj DIRECTION_C2D DIRECTION_C2D); try done; try (by left).
  unfold nonce_tag in E. apply (f_equal (take 12)) in E.
  rewrite !take_take in E. cbn [Nat.min] in E.
  rewrite !take_app_le, !take_ge in E; [done|..]; unfold frame_nonce;
    rewrite !length_app, length_replicate; cbn; lia.
Qed.

Definition secret : bytes := Eval vm_compute in be_bytes 32 5.
Definition instance : bytes := Eval vm_compute in be_bytes 16 6.
Definition fresh : SharedV6State := session_state instance (secret, secret).

Lemma fresh_counters : counters_ok fresh.
Proof. repeat split; vm_compute; discriminate. Defined.

(** Frames in both directions; the second one has an unknown direction and is
    refused. *)
Lemma nonces_never_repeat_witness :
  let ops := [(0, rs "a"); (7, rs "b"); (1, rs "c"); (0, rs "a")] in
  counters_ok fresh /\
  map fst (@seal_all nonce_aead ops fresh).2 = [(0, rs "a"); (1, rs "c"); (0, rs "a")] /\
  exists nonces, NoDup nonces /\
    Forall2 (@sealed_with nonce_aead fresh) nonces (@seal_all nonce_aead ops fresh).2.
Proof.
  split; [exact fresh_counters|]. split; [vm_compute; reflexivity|].
  destruct (@nonces_never_repeat nonce_aead nonce_aead_laws
    [(0, rs "a"); (7, rs "b"); (1, rs "c"); (0, rs "a")] fresh fresh_counters) as [Hn _].
  exact Hn.
Defined.

Definition sent : list bytes :=
  Eval vm_compute in match (@send_all nonce_aead 0 [rs "a"; rs "b"] fresh).2 with
                     | Ok cs => cs | Err _ => [] end.

Lemma sent_not_forged : @no_forgery nonce_aead fresh 0 0 sent (rev sent ++ sent).
Proof.
  assert (forall i m c n m', 0 <= i < 2 -> c = m ++ nonce_tag (frame_nonce DIRECTION_C2D i) ->
    0 <= n <= U64_MAX -> @opens nonce_aead fresh 0 n c m' -> n = i) as Hone.
  { intros i m c n m' Hi -> Hn Ho. unfold opens, aead_decrypt, nonce_aead in Ho. cbv zeta in Ho.
    rewrite take_untagged in Ho by apply nonce_tag_length. case_bool_decide as E; [|done].
    apply app_inv_head in E. symmetry. apply nonce_tag_inj; [|done|done].
    unfold is_u64, U64_MAX. lia. }
  unfold no_forgery. repeat (apply Forall_cons; split); [..|by apply Forall_nil].
  - intros n m Hn Ho. apply (Hone 1 (rs "b")) in Ho as ->; [done|lia|done|done].
  - intros n m Hn Ho. apply (Hone 0 (rs "a")) in Ho as ->; [done|lia|done|done].
  - intros n m Hn Ho. apply (Hone 0 (rs "a")) in Ho as ->; [done|lia|done|done].
  - intros n m Hn Ho. apply (Hone 1 (rs "b")) in Ho as ->; [done|lia|done|done].
Qed.

(** Ciphertexts that arrive in the wrong order first. *)
Lemma channel_delivers_in_order_witness :
  @open_all nonce_aead 0 sent fresh = [rs "a"; rs "b"] /\
  @open_all nonce_aead 0 (rev sent ++ sent) fresh `prefix_of` [rs "a"; rs "b"].
Proof.
  pose proof nonce_aead_laws as Hlaws.
  destruct (@channel_delivers_in_order nonce_aead Hlaws 0 fresh
    (set_send_counter 0 2 fresh) fresh [rs "a"; rs "b"] sent (rev sent ++ sent)) as [H1 H2].
  - vm_compute. reflexivity.
  - repeat split.
  - reflexivity.
  - split; [exact H1|]. apply H2. exact sent_not_forged.
Defined.

(** A handshake for [listing]. *)
Definition prelude : V6RequestPrelude := Eval vm_compute in
  {| protocol_version := 9; client_session_id := be_bytes 16 1; request_id := be_bytes 16 2;
     operation_kind := rs "ssh.exec"; profile_id := None; profile_name := Some (rs "prod");
     grant_id := None; pop_signature := None; profile_proof := None;
     requested_deadline_unix_ms := 1000; root_request_hash := sha256 (text_of listing) |}.
Definition prelude_text : bytes := rs "prelude".
#[local] Instance prelude_json : Json V6RequestPrelude := table_json [(prelude, prelude_text)].
#[local] Instance prelude_json_laws : JsonLaws V6RequestPrelude.
Proof. apply table_json_laws. repeat constructor; set_solver. Qed.

Definition the_digest : bytes := Eval vm_compute in unwrap [] (prelude_digest prelude).
Definition the_challenge : V6AuthFrame * ServerPending := Eval vm_compute in
  unwrap (Response [], {| sp_client_nonce := []; sp_server_nonce := []; sp_prelude := prelude;
                          sp_digest := [] |})
    (server_on_hello secret instance draws (client_hello instance client_nonce prelude)).
Definition the_response : V6AuthFrame := Eval vm_compute in
  (unwrap ([], Response [])
     (client_on_challenge secret instance client_nonce the_digest the_challenge.1)).2.
Definition the_keys : bytes * bytes := Eval vm_compute in
  unwrap ([], []) (server_on_response secret instance the_challenge.2 the_response).

Lemma v6_handshake_agreement_witness :
  (instance = instance /\ client_nonce = client_nonce /\ server_nonce = server_nonce /\
   prelude = prelude /\
   derive_keys secret IPC_PROTOCOL_VERSION_V6 instance client_nonce server_nonce the_digest
     = Ok the_keys) \/
  hmac_collision secret
    (CLIENT_MAC_DOMAIN ++ transcript_input IPC_PROTOCOL_VERSION_V6 instance client_nonce
                            server_nonce the_digest)
    (CLIENT_MAC_DOMAIN ++ transcript_input IPC_PROTOCOL_VERSION_V6 instance client_nonce
                            server_nonce the_digest) \/
  sha256_collision prelude_text prelude_text.
Proof.
  apply (v6_handshake_agreement secret instance instance client_nonce prelude prelude_text
    prelude_text the_digest the_challenge.1 server_nonce the_response draws
    (client_hello instance client_nonce prelude) the_challenge.1 the_challenge.2 the_keys);
    vm_compute; reflexivity.
Defined.

#[export] Instance V6AuthFrame_eq_dec : EqDecision V6AuthFrame.
Proof. solve_decision. Defined.
#[local] Instance auth_json : Json V6AuthFrame :=
  table_json [(client_hello instance client_nonce prelude, rs "hello");
              (the_challenge.1, rs "challenge"); (the_response, rs "response")].
#[local] Instance auth_json_laws : JsonLaws V6AuthFrame.
Proof. apply table_json_laws. repeat constructor; set_solver. Qed.

Lemma v6_handshake_completes_witness :
  exists ch resp, forall th tc tr,
    v6_text (client_hello instance client_nonce prelude) th -> v6_text ch tc -> v6_text resp tr ->
    exists cs ss,
      v6_client_handshake secret instance prelude client_nonce
        {| wire_in := framed tc; wire_out := [] |} =
        ({| wire_in := []; wire_out := framed th ++ framed tr |}, Ok cs) /\
      v6_server_handshake secret instance draws
        {| wire_in := framed th ++ framed tr; wire_out := [] |} =
        ({| wire_in := []; wire_out := framed tc |}, Ok (ss, prelude)).
Proof.
  destruct (v6_handshake_completes secret instance draws client_nonce server_nonce prelude
              the_digest) as (ch & resp & Hrun).
  - vm_compute. reflexivity.
  - vm_compute. reflexivity.
  - vm_compute. reflexivity.
  - exists ch, resp. intros th tc tr Th Tc Tr.
    destruct (Hrun th tc tr Th Tc Tr) as (_ & _ & cs & ss & Hc & Hs & _). exists cs, ss. by split.
Defined.

Example handshake_runs :
  (v6_server_handshake secret instance draws
     {| wire_in := framed (rs "hello") ++ framed (rs "response"); wire_out := [] |}).1 =
  {| wire_in := []; wire_out := framed (rs "challenge") |}.
Proof. vm_compute. reflexivity. Qed.

(** The sessions of that handshake. *)
Definition client0 : V6ClientSession wire :=
  {| cs_stream := {| wire_in := []; wire_out := [] |};
     cs_state := session_state instance the_keys;
     cs_root_request_hash := root_request_hash prelude; root_sent := false |}.
Definition server0 (input : bytes) : V6ServerSession wire :=
  {| ss_stream := {| wire_in := input; wire_out := [] |};
     ss_state := session_state instance the_keys; ss_prelude := prelude; root_received := false |}.

Lemma v6_session_roundtrip_witness :
  exists cs' sent,
    client_send_frames [listing; Ack] client0 = (cs', Ok tt) /\
    wire_out (cs_stream cs') = [] ++ sent /\
    (server_session 2 (server0 sent)).2 = Ok (listing, [Ack]).
Proof.
  apply (v6_session_roundtrip listing (text_of listing) [Ack] [text_of Ack] client0 (server0 [])).
  - repeat split; by vm_compute.
  - repeat constructor; by vm_compute.
  - reflexivity.
  - reflexivity.
  - reflexivity.
  - reflexivity.
  - vm_compute. discriminate.
  - vm_compute. reflexivity.
  - reflexivity.
  - vm_compute. reflexivity.
Defined.

Definition wire_of_listing : bytes := Eval vm_compute in
  wire_out (cs_stream (client_send_frames [listing] client0).1).

Lemma root_request_is_the_committed_one_witness :
  frame_kind listing = operation_kind prelude /\
  (listing = listing \/
   exists bs, sha256_collision bs (text_of listing) /\ from_slice bs = Some listing) /\
  recv_root_request (recv_root_request (server0 wire_of_listing)).1 =
    ((recv_root_request (server0 wire_of_listing)).1, Err "IPC v6 root request already consumed").
Proof.
  destruct (root_request_is_the_committed_one (server0 wire_of_listing)
    (recv_root_request (server0 wire_of_listing)).1 listing listing (text_of listing))
    as (H1 & H2 & _ & H3 & _).
  - vm_compute. reflexivity.
  - reflexivity.
  - vm_compute. reflexivity.
  - vm_compute. reflexivity.
  - split; [exact H1|]. split; [exact H2|exact H3].
Defined.

#[export] Instance ProfileProofPayload_eq_dec : EqDecision ProfileProofPayload.
Proof. solve_decision. Defined.
Definition profile_prelude : V6RequestPrelude := Eval vm_compute in
  {| protocol_version := 9; client_session_id := be_bytes 16 1; request_id := be_bytes 16 2;
     operation_kind := rs "ssh.exec"; profile_id := Some (be_bytes 16 3); profile_name := None;
     grant_id := None; pop_signature := None; profile_proof := Some (rs "-");
     requested_deadline_unix_ms := 1000; root_request_hash := sha256 (text_of listing) |}.
#[local] Instance proof_json : JsonSer ProfileProofPayload :=
  table_json_ser [(profile_proof_payload profile_prelude, rs "payload")].
#[local] Instance proof_json_laws : JsonSerLaws ProfileProofPayload.
Proof. apply table_json_ser_laws. repeat constructor; set_solver. Qed.

Lemma profile_proof_binds_prelude_witness :
  verify_profile_prelude_proof call_key
    (unwrap [] (profile_prelude_proof call_key profile_prelude)) profile_prelude = Ok tt.
Proof.
  apply (profile_proof_binds_prelude call_key profile_prelude
           (unwrap [] (profile_proof_message profile_prelude))
           (unwrap [] (profile_prelude_proof call_key profile_prelude))).
  - vm_compute. reflexivity.
  - vm_compute. reflexivity.
Defined.
End V6Runs.
