(* ===== verification/V6Adapter.v ===== *)
(** * serctl_protocol::v6: the stream adapter

    crates/serctl_protocol/src/v6.rs, V6ClientIo and V6ServerIo: a session
    presented as a byte stream.  The source writes both with one macro,
    parameterized by the two directions and the session's root-request hooks;
    here they are a [Role].  Polling is a function of the adapter and the
    transport's answers; a transport poll is [Ready] or [Pend].  The loops of
    the source are bounded by their I/O budget, which is the recursion
    argument.  [Pend true] is a pending poll for which the adapter has woken
    the task itself. *)

From S2P Require Import Prelude.
From S2P Require Import Bytes.
From S2P Require Import Text.
From S2P Require Import Crates.
From S2P Require Import IpcCrates.
From S2P Require Import Async.
From S2P Require Import IpcFrame.
From S2P Require Import IpcAuth.
From S2P Require Import V6.
From S2P Require Import V6Theory.
#[local] Open Scope string_scope.
#[local] Open Scope list_scope.
#[local] Open Scope Z_scope.

Definition V6_ADAPTER_MAX_FRAME : Z := V6_MAX_PLAINTEXT_FRAME.
Definition V6_ADAPTER_IO_BUDGET : nat := 64.

(** ** Polling *)

Inductive poll (A : Type) := Ready (a : A) | Pend (woken : bool).
Arguments Ready {A} a.
Arguments Pend {A} woken.

(** [AsyncWrite::poll_write], [AsyncRead::poll_read] into a buffer of the
    given capacity, [AsyncWrite::poll_shutdown]. *)
Class PollStream (S : Type) := {
  poll_write : bytes -> S -> S * poll (result string Z);
  poll_read : Z -> S -> S * poll (result string bytes);
  poll_shutdown : S -> S * poll (result string unit);
}.

(** The contract of the two traits: a write accepts a prefix of what it is
    given, a read delivers the next bytes; otherwise nothing moves. *)
Class PollLaws (S : Type) `{PollStream S} := {
  accepted : S -> bytes;
  to_deliver : S -> bytes;
  poll_write_spec bs s s' r : poll_write bs s = (s', r) ->
    to_deliver s' = to_deliver s /\
    match r with
    | Ready (Ok n) => 0 <= n <= zlen bs /\ accepted s' = accepted s ++ take (Z.to_nat n) bs
    | _ => accepted s' = accepted s
    end;
  poll_read_spec cap s s' r : poll_read cap s = (s', r) ->
    accepted s' = accepted s /\
    match r with
    | Ready (Ok x) => zlen x <= cap /\ to_deliver s = x ++ to_deliver s'
    | _ => to_deliver s' = to_deliver s
    end;
  poll_shutdown_spec s s' r : poll_shutdown s = (s', r) ->
    accepted s' = accepted s /\ to_deliver s' = to_deliver s;
}.

(** ** Roles *)

Record Role (R : Type) := {
  dir_send : Z;
  dir_recv_ : Z;
  root_ok_for_send : R -> bytes -> bool;
  note_root_sent : R -> R;
  root_ok_for_recv : bytes -> R -> R * bool;
}.
Arguments dir_send {R}.
Arguments dir_recv_ {R}.
Arguments root_ok_for_send {R}.
Arguments note_root_sent {R}.
Arguments root_ok_for_recv {R}.

(** The root-request bookkeeping of the two sessions. *)
Record ClientRoot := { cr_root_request_hash : bytes; cr_root_sent : bool }.
Record ServerRoot := { sr_prelude : V6RequestPrelude; sr_root_received : bool }.

Section roles.
Context `{Sha2, Json Frame}.

Definition client_role : Role ClientRoot := {|
  dir_send := DIRECTION_C2D;
  dir_recv_ := DIRECTION_D2C;
  root_ok_for_send r plaintext :=
    cr_root_sent r || bool_decide (sha256 plaintext = cr_root_request_hash r);
  note_root_sent r := {| cr_root_request_hash := cr_root_request_hash r; cr_root_sent := true |};
  root_ok_for_recv plaintext r := (r, true);
|}.

Definition server_root_ok_for_recv (plaintext : bytes) (r : ServerRoot) : ServerRoot * bool :=
  if sr_root_received r then (r, true)
  else
    let hash_ok := bool_decide (sha256 plaintext = root_request_hash (sr_prelude r)) in
    let kind_ok :=
      match from_slice plaintext with
      | Some f => bool_decide (frame_kind f = operation_kind (sr_prelude r))
      | None => false
      end in
    let ok := hash_ok && kind_ok in
    ((if ok then {| sr_prelude := sr_prelude r; sr_root_received := true |} else r), ok).

Definition server_role : Role ServerRoot := {|
  dir_send := DIRECTION_D2C;
  dir_recv_ := DIRECTION_C2D;
  root_ok_for_send r plaintext := true;
  note_root_sent r := r;
  root_ok_for_recv := server_root_ok_for_recv;
|}.
End roles.

(** ** The adapter *)

Record V6Io (S R : Type) := {
  stream : S;
  state : SharedV6State;
  root : R;
  write_buf : bytes;
  send_header : option (bytes * Z);
  send_body : option (bytes * Z);
  recv_header : option (bytes * Z);
  recv_body : option (bytes * Z);
  read_buf : bytes;
  read_offset : Z;
  poisoned : bool;
}.
Arguments stream {S R}.
Arguments state {S R}.
Arguments root {S R}.
Arguments write_buf {S R}.
Arguments send_header {S R}.
Arguments send_body {S R}.
Arguments recv_header {S R}.
Arguments recv_body {S R}.
Arguments read_buf {S R}.
Arguments read_offset {S R}.
Arguments poisoned {S R}.

Definition io_new {S R} (s : S) (st : SharedV6State) (r : R) : V6Io S R :=
  {| stream := s; state := st; root := r; write_buf := []; send_header := None;
     send_body := None; recv_header := None; recv_body := None; read_buf := [];
     read_offset := 0; poisoned := false |}.

Definition client_io_new {S} (c : V6ClientSession S) : V6Io S ClientRoot :=
  io_new (cs_stream c) (cs_state c)
    {| cr_root_request_hash := cs_root_request_hash c; cr_root_sent := root_sent c |}.
Definition server_io_new {S} (c : V6ServerSession S) : V6Io S ServerRoot :=
  io_new (ss_stream c) (ss_state c)
    {| sr_prelude := ss_prelude c; sr_root_received := root_received c |}.
Definition into_inner {S} (io : V6Io S ClientRoot) : V6ClientSession S :=
  {| cs_stream := stream io; cs_state := state io;
     cs_root_request_hash := cr_root_request_hash (root io); root_sent := cr_root_sent (root io) |}.

Definition zeroize_buffers {S R} (io : V6Io S R) : V6Io S R :=
  {| stream := stream io; state := state io; root := root io; write_buf := [];
     send_header := None; send_body := None; recv_header := None; recv_body := None;
     read_buf := []; read_offset := 0; poisoned := poisoned io |}.

Definition poison {S R} (io : V6Io S R) : V6Io S R :=
  zeroize_buffers
    {| stream := stream io; state := state io; root := root io; write_buf := write_buf io;
       send_header := send_header io; send_body := send_body io;
       recv_header := recv_header io; recv_body := recv_body io; read_buf := read_buf io;
       read_offset := read_offset io; poisoned := true |}.

Definition poisoned_error : string := "IPC v6 adapter is poisoned".

(** Update the sending half, or the receiving half. *)
Definition with_send {S R} (io : V6Io S R) (s : S) (st : SharedV6State) (r : R) (wb : bytes)
    (sh sb : option (bytes * Z)) : V6Io S R :=
  {| stream := s; state := st; root := r; write_buf := wb; send_header := sh; send_body := sb;
     recv_header := recv_header io; recv_body := recv_body io; read_buf := read_buf io;
     read_offset := read_offset io; poisoned := poisoned io |}.
Definition with_recv {S R} (io : V6Io S R) (s : S) (st : SharedV6State) (r : R)
    (rh rb : option (bytes * Z)) (buf : bytes) (off : Z) : V6Io S R :=
  {| stream := s; state := st; root := r; write_buf := write_buf io;
     send_header := send_header io; send_body := send_body io; recv_header := rh;
     recv_body := rb; read_buf := buf; read_offset := off; poisoned := poisoned io |}.

(** [&bytes[offset..]] *)
Definition from_offset (p : bytes * Z) : bytes := drop (Z.to_nat p.2) p.1.

Section adapter.
Context {S R : Type} `{PollStream S} `{Aead} (role : Role R).
Notation Io := (V6Io S R).

(** The loop of [poll_send_parts]; [left] operations remain of the budget. *)
Fixpoint poll_send_parts (left : nat) (s : S) (header body : option (bytes * Z))
  : S * option (bytes * Z) * option (bytes * Z) * poll (result string unit) :=
  match header, body with
  | None, None => (s, None, None, Ready (Ok tt))
  | _, _ =>
      match left with
      | O => (s, header, body, Pend true)
      | Datatypes.S left' =>
          match header with
          | Some (bs, offset) =>
              match poll_write (from_offset (bs, offset)) s with
              | (s', Ready (Ok n)) =>
                  if n =? 0
                  then (s', header, body, Ready (Err "IPC v6 transport wrote zero bytes"))
                  else if offset + n <? 4
                       then poll_send_parts left' s' (Some (bs, offset + n)) body
                       else poll_send_parts left' s' None body
              | (s', Ready (Err e)) => (s', header, body, Ready (Err e))
              | (s', Pend _) => (s', header, body, Pend false)
              end
          | None =>
              match body with
              | Some (bs, offset) =>
                  match poll_write (from_offset (bs, offset)) s with
                  | (s', Ready (Ok n)) =>
                      if n =? 0
                      then (s', None, body, Ready (Err "IPC v6 transport wrote zero bytes"))
                      else if offset + n <? zlen bs
                           then poll_send_parts left' s' None (Some (bs, offset + n))
                           else (s', None, None, Ready (Ok tt))
                  | (s', Ready (Err e)) => (s', None, body, Ready (Err e))
                  | (s', Pend _) => (s', None, body, Pend false)
                  end
              | None => (s, None, None, Ready (Ok tt))
              end
          end
      end
  end.

Definition arm_send : eff Io string unit :=
  fun io =>
    if is_some (send_header io) || is_some (send_body io) then (io, Ok tt)
    else if is_empty (write_buf io) then (io, Ok tt)
    else
      let plaintext := write_buf io in
      let taken := with_send io (stream io) (state io) (root io) [] (send_header io)
                     (send_body io) in
      if V6_ADAPTER_MAX_FRAME <? zlen plaintext
      then (taken, Err "IPC v6 adapted frame exceeds its size cap")
      else if (4 <=? zlen plaintext) && negb (of_be (take 4 plaintext) + 4 =? zlen plaintext)
      then (taken, Err "IPC v6 adapted frame length prefix is inconsistent")
      else
        let root_payload := if 4 <=? zlen plaintext then drop 4 plaintext else plaintext in
        if negb (root_ok_for_send role (root io) root_payload)
        then (taken, Err "IPC v6 root request does not match the handshake prelude")
        else
          match encrypt_frame (dir_send role) plaintext (state io) with
          | (st, Err e) =>
              (with_send io (stream io) st (root io) [] (send_header io) (send_body io), Err e)
          | (st, Ok ciphertext) =>
              match try_from_max U32_MAX (zlen ciphertext) with
              | None =>
                  (with_send io (stream io) st (root io) [] (send_header io) (send_body io),
                   Err "IPC v6 frame length overflow")
              | Some len =>
                  (with_send io (stream io) st (note_root_sent role (root io)) []
                     (Some (be32 len, 0)) (Some (ciphertext, 0)), Ok tt)
              end
          end.

Definition poll_flush_io (io : Io) : Io * poll (result string unit) :=
  if poisoned io then (io, Ready (Err poisoned_error))
  else
    match arm_send io with
    | (io', Err e) => (poison io', Ready (Err e))
    | (io', Ok _) =>
        let '(s, sh, sb, r) :=
          poll_send_parts V6_ADAPTER_IO_BUDGET (stream io') (send_header io') (send_body io') in
        let io'' := with_send io' s (state io') (root io') (write_buf io') sh sb in
        match r with
        | Ready (Err e) => (poison io'', Ready (Err e))
        | other => (io'', other)
        end
    end.

(** Append to the buffer, within the cap. *)
Definition buffer_write_io (io : Io) (buf : bytes) : Io * poll (result string Z) :=
  match checked_add USIZE_MAX (zlen (write_buf io)) (zlen buf) with
  | None => (poison io, Ready (Err "IPC v6 adapted frame exceeds its size cap"))
  | Some buffered =>
      if V6_ADAPTER_MAX_FRAME <? buffered
      then (poison io, Ready (Err "IPC v6 adapted frame exceeds its size cap"))
      else (with_send io (stream io) (state io) (root io) (write_buf io ++ buf)
              (send_header io) (send_body io), Ready (Ok (zlen buf)))
  end.

Definition poll_write_io (io : Io) (buf : bytes) : Io * poll (result string Z) :=
  if poisoned io then (io, Ready (Err poisoned_error))
  else if is_some (send_header io) || is_some (send_body io) then
    match poll_flush_io io with
    | (io', Ready (Ok _)) => buffer_write_io io' buf
    | (io', Ready (Err e)) => (io', Ready (Err e))
    | (io', Pend w) => (io', Pend w)
    end
  else buffer_write_io io buf.

Definition poll_shutdown_io (io : Io) : Io * poll (result string unit) :=
  match poll_flush_io io with
  | (io', Ready (Err e)) => (io', Ready (Err e))
  | (io', Pend w) => (io', Pend w)
  | (io', Ready (Ok _)) =>
      match poll_shutdown (stream io') with
      | (s, Ready (Err e)) =>
          (poison (with_send io' s (state io') (root io') (write_buf io') (send_header io')
                     (send_body io')), Ready (Err e))
      | (s, other) =>
          (with_send io' s (state io') (root io') (write_buf io') (send_header io')
             (send_body io'), other)
      end
  end.

(** A buffer with [x] written at an offset. *)
Definition overwrite (bs : bytes) (offset : Z) (x : bytes) : bytes :=
  take (Z.to_nat offset) bs ++ x ++ drop (Z.to_nat offset + length x) bs.

(** A complete ciphertext: open it and check the root request. *)
Definition finish_record (io : Io) (s : S) (ciphertext : bytes) : Io * result string unit :=
  let io0 st := with_recv io s st (root io) None None (read_buf io) (read_offset io) in
  match open_one (dir_recv_ role) ciphertext (state io) with
  | (st, Err e) => (poison (io0 st), Err e)
  | (st, Ok plaintext) =>
      let (r, ok) := root_ok_for_recv role (drop 4 plaintext) (root io) in
      if ok then (with_recv io s st r None None plaintext 0, Ok tt)
      else (poison (with_recv io s st r None None (read_buf io) (read_offset io)),
            Err "IPC v6 root request does not match the handshake prelude")
  end.

(** Hand out plaintext of the current record, at most [remaining] bytes. *)
Definition serve (io : Io) (remaining : Z) : Io * bytes :=
  let n := Z.min remaining (zlen (read_buf io) - read_offset io) in
  let out := take (Z.to_nat n) (from_offset (read_buf io, read_offset io)) in
  let fin := read_offset io + n in
  (if zlen (read_buf io) <=? fin
   then with_recv io (stream io) (state io) (root io) (recv_header io) (recv_body io) [] 0
   else with_recv io (stream io) (state io) (root io) (recv_header io) (recv_body io)
          (read_buf io) fin, out).

(** The two nested loops of [poll_read_io]; [Ok] with no bytes is the end of
    the stream (or an empty buffer to read into). *)
Fixpoint read_loop (left : nat) (remaining : Z) (io : Io) : Io * poll (result string bytes) :=
  if read_offset io <? zlen (read_buf io)
  then let (io', out) := serve io remaining in (io', Ready (Ok out))
  else
    match left with
    | O => (io, Pend true)
    | Datatypes.S left' =>
        let header := match recv_header io, recv_body io with
                      | None, None => Some (replicate 4 x00, 0)
                      | h, _ => h
                      end in
        let update s rh rb := with_recv io s (state io) (root io) rh rb (read_buf io)
                                (read_offset io) in
        match header with
        | Some (bs, offset) =>
            match poll_read (4 - offset) (stream io) with
            | (s, Ready (Ok x)) =>
                if zlen x =? 0 then
                  if offset =? 0 then (update s header (recv_body io), Ready (Ok []))
                  else (poison (update s header (recv_body io)),
                        Ready (Err "IPC v6 transport ended during a frame header"))
                else
                  let bs := overwrite bs offset x in
                  let offset := offset + zlen x in
                  if offset <? 4
                  then read_loop left' remaining (update s (Some (bs, offset)) (recv_body io))
                  else
                    match validate_ciphertext_frame_len (of_be bs) with
                    | Err e => (poison (update s (Some (bs, offset)) (recv_body io)), Ready (Err e))
                    | Ok _ =>
                        read_loop left' remaining
                          (update s None (Some (replicate (Z.to_nat (of_be bs)) x00, 0)))
                    end
            | (s, Ready (Err e)) => (poison (update s header (recv_body io)), Ready (Err e))
            | (s, Pend _) => (update s header (recv_body io), Pend false)
            end
        | None =>
            match recv_body io with
            | Some (bs, offset) =>
                match poll_read (zlen bs - offset) (stream io) with
                | (s, Ready (Ok x)) =>
                    if zlen x =? 0
                    then (poison (update s None (recv_body io)),
                          Ready (Err "IPC v6 transport ended during a frame body"))
                    else
                      let bs := overwrite bs offset x in
                      let offset := offset + zlen x in
                      if offset <? zlen bs
                      then read_loop left' remaining (update s None (Some (bs, offset)))
                      else
                        match finish_record io s bs with
                        | (io', Err e) => (io', Ready (Err e))
                        | (io', Ok _) => read_loop left' remaining io'
                        end
                | (s, Ready (Err e)) => (poison (update s None (recv_body io)), Ready (Err e))
                | (s, Pend _) => (update s None (recv_body io), Pend false)
                end
            | None => (io, Pend false)
            end
        end
    end.

Definition poll_read_io (io : Io) (remaining : Z) : Io * poll (result string bytes) :=
  if poisoned io then (io, Ready (Err poisoned_error))
  else read_loop V6_ADAPTER_IO_BUDGET remaining io.

End adapter.
