(* ===== verification/V6AdapterTheory.v ===== *)
(** * The v6 stream adapter: theorems

    Whatever the transport answers and however calls are fragmented, what the
    adapter puts on the wire is the sealed records of what was written to it,
    and what it hands out is the plaintext of the records it received; every
    error poisons it and erases its buffers. *)

From S2P Require Import Prelude.
From S2P Require Import Bytes.
From S2P Require Import Text.
From S2P Require Import Crates.
From S2P Require Import IpcCrates.
From S2P Require Import Async.
From S2P Require Import IpcFrame.
From S2P Require Import IpcAuth.
From S2P Require Import V6.
From S2P Require Import V6Theory.
From S2P Require Import V6Adapter.
#[local] Open Scope string_scope.
#[local] Open Scope list_scope.
#[local] Open Scope Z_scope.

(** ** Calls on an adapter *)

Inductive op := OWrite (buf : bytes) | OFlush | OShutdown | ORead (remaining : Z).

(** An error the adapter reported, bytes it took, bytes it handed out. *)
Definition taken_of (buf : bytes) (r : poll (result string Z)) : bytes :=
  match r with Ready (Ok n) => take (Z.to_nat n) buf | _ => [] end.
Definition given_of (r : poll (result string bytes)) : bytes :=
  match r with Ready (Ok x) => x | _ => [] end.
Definition failed {A} (r : poll (result string A)) : bool :=
  match r with Ready (Err _) => true | _ => false end.

Section theory.
Context {S R : Type} `{PollStream S, !PollLaws S} `{Aead, !AeadLaws} (role : Role R).
Notation Io := (V6Io S R).

Definition step (o : op) (io : Io) : Io * bool * bytes * bytes :=
  match o with
  | OWrite buf => let (io', r) := poll_write_io role io buf in (io', failed r, taken_of buf r, [])
  | OFlush => let (io', r) := poll_flush_io role io in (io', failed r, [], [])
  | OShutdown => let (io', r) := poll_shutdown_io role io in (io', failed r, [], [])
  | ORead n => let (io', r) := poll_read_io role io n in (io', failed r, [], given_of r)
  end.

(** All bytes taken and handed out by a sequence of calls. *)
Fixpoint run (ops : list op) (io : Io) : Io * bytes * bytes :=
  match ops with
  | [] => (io, [], [])
  | o :: ops' =>
      let '(io', _, taken, given) := step o io in
      let '(io'', taken', given') := run ops' io' in
      (io'', taken ++ taken', given ++ given')
  end.

(** ** Poisoning *)

Definition cleared (io : Io) : Prop :=
  poisoned io = true /\ write_buf io = [] /\ send_header io = None /\ send_body io = None /\
  recv_header io = None /\ recv_body io = None /\ read_buf io = [] /\ read_offset io = 0.

Lemma poison_cleared (io : Io) : cleared (poison io).
Proof. done. Qed.

Lemma flush_failed io io' e :
  poisoned io = false -> poll_flush_io role io = (io', Ready (Err e)) -> cleared io'.
Proof.
  intros Hp. unfold poll_flush_io. rewrite Hp. destruct (arm_send role io) as [io1 [u|e1]].
  - destruct (poll_send_parts _ _ _ _) as [[[s sh] sb] [[]|]]; intros [= <- <-]; done.
  - by intros [= <- <-].
Qed.

Lemma buffer_write_failed (io io' : Io) buf e :
  buffer_write_io io buf = (io', Ready (Err e)) -> cleared io'.
Proof.
  unfold buffer_write_io. destruct (checked_add _ _ _); [|by intros [= <- _]].
  destruct (_ <? _); [by intros [= <- _]|done].
Qed.

Lemma read_loop_failed left n io io' e :
  read_loop role left n io = (io', Ready (Err e)) -> cleared io'.
Proof.
  revert io; induction left as [|left IH]; intros io; cbn [read_loop].
  - by destruct (_ <? _).
  - destruct (_ <? _); [done|].
    destruct (match recv_header io, recv_body io with None, None => _ | h, _ => h end) as [[bs off]|].
    + destruct (poll_read _ _) as [s [[x|e1]|]]; [|by intros [= <- _]|done].
      destruct (zlen x =? 0); [destruct (off =? 0); [done|by intros [= <- _]]|].
      destruct (_ <? 4); [apply IH|]. destruct (validate_ciphertext_frame_len _);
        [apply IH|by intros [= <- _]].
    + destruct (recv_body io) as [[bs off]|]; [|done].
      destruct (poll_read _ _) as [s [[x|e1]|]]; [|by intros [= <- _]|done].
      destruct (zlen x =? 0); [by intros [= <- _]|].
      destruct (_ <? _); [apply IH|].
      unfold finish_record. destruct (open_one _ _ _) as [st [p|e2]]; [|by intros [= <- _]].
      destruct (root_ok_for_recv _ _ _) as [r [|]]; [apply IH|by intros [= <- _]].
Qed.

Lemma poisoned_step o (io : Io) : poisoned io = true -> step o io = (io, true, [], []).
Proof.
  intros Hp. destruct o; unfold step, poll_write_io, poll_shutdown_io, poll_flush_io, poll_read_io;
    by rewrite Hp.
Qed.

Lemma step_failed o io io' taken given :
  poisoned io = false -> step o io = (io', true, taken, given) ->
  cleared io' /\ taken = [] /\ given = [].
Proof.
  intros Hp. destruct o as [buf| | |n]; unfold step.
  - unfold poll_write_io. rewrite Hp. destruct (_ || _).
    + destruct (poll_flush_io role io) as [io1 [[u|e]|w]] eqn:Hf; cbn.
      * destruct (buffer_write_io io1 buf) as [io2 [[k|e]|w]] eqn:Hb; cbn; intros [= <- <- <-].
        by apply buffer_write_failed in Hb.
      * intros [= <- <- <-]. by apply flush_failed in Hf.
      * done.
    + destruct (buffer_write_io io buf) as [io2 [[k|e]|w]] eqn:Hb; cbn; intros [= <- <- <-].
      by apply buffer_write_failed in Hb.
  - destruct (poll_flush_io role io) as [io1 [[u|e]|w]] eqn:Hf; cbn; intros [= <- <- <-].
    by apply flush_failed in Hf.
  - unfold poll_shutdown_io. destruct (poll_flush_io role io) as [io1 [[u|e]|w]] eqn:Hf; cbn.
    + destruct (poll_shutdown (stream io1)) as [s [[|]|]]; cbn; by intros [= <- <- <-].
    + intros [= <- <- <-]. by apply flush_failed in Hf.
    + done.
  - unfold poll_read_io. rewrite Hp.
    destruct (read_loop _ _ _ _) as [io1 [[x|e]|w]] eqn:Hr; cbn; intros [= <- <- <-].
    by apply read_loop_failed in Hr.
Qed.

(** An error is final.  Every call that reports an error leaves the
    adapter poisoned with all its buffers erased; on a poisoned adapter every
    call reports the poisoned error and changes nothing, the transport and the
    cipher counters included. *)
Theorem adapter_error_is_final o io io' taken given :
  (poisoned io = true -> cleared io) ->
  step o io = (io', true, taken, given) ->
  cleared io' /\ taken = [] /\ given = [] /\
  (poisoned io = true -> io' = io) /\
  forall o', step o' io' = (io', true, [], []).
Proof.
  intros Hwf Hs. destruct (poisoned io) eqn:Hp.
  - rewrite poisoned_step in Hs by done. injection Hs as <- <- <-.
    split_and!; auto. intros o'. by apply poisoned_step.
  - destruct (step_failed _ _ _ _ _ Hp Hs) as (Hc & -> & ->). split_and!; try done.
    intros o'. by apply poisoned_step, Hc.
Qed.

(** ** The sending half *)

(** Bytes armed but not accepted by the transport yet. *)
Definition unsent (h b : option (bytes * Z)) : bytes :=
  match h with Some p => from_offset p | None => [] end ++
  match b with Some p => from_offset p | None => [] end.

#[local] Arguments unsent : simpl never.
#[local] Arguments framed : simpl never.

Definition send_shape (h b : option (bytes * Z)) : Prop :=
  match h, b with
  | None, None => True
  | Some (hs, off), Some (_, boff) => zlen hs = 4 /\ 0 <= off < 4 /\ boff = 0
  | None, Some (bs, off) => 0 <= off <= zlen bs
  | Some _, None => False
  end.

Lemma from_offset_take (bs : bytes) off n :
  0 <= off -> 0 <= n ->
  take (Z.to_nat n) (from_offset (bs, off)) ++ from_offset (bs, off + n) = from_offset (bs, off).
Proof.
  intros Ho Hn. unfold from_offset. cbn. rewrite Z2Nat.inj_add by done.
  rewrite <-drop_drop. apply take_drop.
Qed.

Lemma zlen_from_offset (bs : bytes) off :
  0 <= off <= zlen bs -> zlen (from_offset (bs, off)) = zlen bs - off.
Proof. intros Ho. unfold from_offset, zlen in *. cbn. rewrite length_drop. lia. Qed.

Lemma from_offset_end (bs : bytes) off : zlen bs <= off -> from_offset (bs, off) = [].
Proof. intros Ho. unfold from_offset. cbn. apply drop_ge. unfold zlen in *. lia. Qed.

Lemma poll_send_parts_spec left s h b s' h' b' r :
  send_shape h b -> poll_send_parts left s h b = (s', h', b', r) ->
  send_shape h' b' /\ to_deliver s' = to_deliver s /\
  accepted s' ++ unsent h' b' = accepted s ++ unsent h b /\
  (r = Ready (Ok tt) -> h' = None /\ b' = None).
Proof.
  revert s h b; induction left as [|left IH]; intros s h b Hsh.
  { destruct h as [[hs off]|], b as [[bs boff]|]; cbn; intros [= <- <- <- <-]; done. }
  cbn [poll_send_parts]. destruct h as [[hs off]|].
  - destruct b as [[bs boff]|]; [|done]. destruct Hsh as (Hh & Ho & ->).
    destruct (poll_write _ s) as [s1 r1] eqn:Hw. apply poll_write_spec in Hw as [Hd Hw].
    destruct r1 as [[n|e]|w];
      [|intros [= <- <- <- <-]; rewrite Hw; done..].
    destruct Hw as [Hn Ha]. rewrite zlen_from_offset in Hn by lia.
    destruct (Z.eqb_spec n 0) as [->|].
    { intros [= <- <- <- <-]. rewrite Ha, app_nil_r. done. }
    pose proof (from_offset_take hs off n ltac:(lia) ltac:(lia)) as Ht.
    destruct (Z.ltb_spec (off + n) 4); intros Hr; apply IH in Hr as (I1 & I2 & I3 & I4).
    + split_and!; try done; [by rewrite I2|]. rewrite I3, Ha. unfold unsent.
      rewrite <-app_assoc. f_equal. by rewrite app_assoc, Ht.
    + repeat split; lia.
    + split_and!; try done; [by rewrite I2|]. rewrite I3, Ha. unfold unsent.
      rewrite (from_offset_end hs (off + n)), app_nil_r in Ht by lia. by rewrite Ht, <-app_assoc.
    + cbn. pose proof (zlen_nonneg bs). lia.
  - destruct b as [[bs off]|]; [|intros [= <- <- <- <-]; done]. cbn in Hsh.
    destruct (poll_write _ s) as [s1 r1] eqn:Hw. apply poll_write_spec in Hw as [Hd Hw].
    destruct r1 as [[n|e]|w];
      [|intros [= <- <- <- <-]; rewrite Hw; done..].
    destruct Hw as [Hn Ha]. rewrite zlen_from_offset in Hn by lia.
    destruct (Z.eqb_spec n 0) as [->|].
    { intros [= <- <- <- <-]. rewrite Ha, app_nil_r. done. }
    pose proof (from_offset_take bs off n ltac:(lia) ltac:(lia)) as Ht.
    destruct (Z.ltb_spec (off + n) (zlen bs)).
    + intros Hr; apply IH in Hr as (I1 & I2 & I3 & I4); [|cbn; lia].
      split_and!; try done; [by rewrite I2|]. rewrite I3, Ha. unfold unsent.
      cbn [app]. by rewrite <-app_assoc, Ht.
    + intros [= <- <- <- <-]. split_and!; try done. unfold unsent. cbn [app].
      rewrite (from_offset_end bs (off + n)), app_nil_r in Ht by lia. by rewrite app_nil_r, Ha, Ht.
Qed.

(** Keys, version and instance never change. *)
Definition static (st0 st : SharedV6State) : Prop :=
  st_version st = st_version st0 /\ st_instance_id st = st_instance_id st0 /\
  cipher (c2d st) = cipher (c2d st0) /\ cipher (d2c st) = cipher (d2c st0).

Lemma static_cipher st0 st d : static st0 st ->
  cipher (dir_cipher d st) = cipher (dir_cipher d st0).
Proof. intros (_ & _ & Hc & Hd). unfold dir_cipher. by destruct (d =? _). Qed.

Lemma static_set_send st0 st d n : static st0 st -> static st0 (set_send_counter d n st).
Proof.
  intros (H1' & H2' & H3' & H4'). unfold static, set_send_counter. cbn.
  by destruct (d =? DIRECTION_C2D), (d =? DIRECTION_D2C).
Qed.

Lemma sealed_static st0 st d n m c : static st0 st -> sealed st d n m c -> sealed st0 d n m c.
Proof.
  intros Hst. pose proof (static_cipher _ _ d Hst) as Hk. destruct Hst as (Hv & Hi & _).
  unfold sealed. by rewrite Hv, Hi, Hk.
Qed.

Lemma opens_static st0 st d n m c : static st0 st -> opens st d n m c -> opens st0 d n m c.
Proof.
  intros Hst. pose proof (static_cipher _ _ d Hst) as Hk. destruct Hst as (Hv & Hi & _).
  unfold opens. by rewrite Hv, Hi, Hk.
Qed.

(** The [i]-th record is the [i]-th plaintext sealed with counter [n0 + i]. *)
Definition records (rel : Z -> bytes -> bytes -> Prop) (n0 : Z) (pts cts : list bytes) : Prop :=
  length cts = length pts /\
  forall i m c, pts !! i = Some m -> cts !! i = Some c -> rel (n0 + Z.of_nat i) m c.

Lemma records_nil rel n0 : records rel n0 [] [].
Proof. done. Qed.

Lemma records_snoc rel n0 pts cts m c :
  records rel n0 pts cts -> rel (n0 + zlen pts) m c -> records rel n0 (pts ++ [m]) (cts ++ [c]).
Proof.
  intros [Hl Hr] Hc. split; [rewrite !length_app; cbn; lia|]. intros i m' c' Hm Hc'.
  apply lookup_snoc_Some in Hm as [[Hi Hm]|[-> <-]], Hc' as [[Hi' Hc'']|[Hi' <-]]; try lia; eauto.
Qed.

(** ** What is written reaches the wire *)
Section sending.
Context (st0 : SharedV6State) (acc0 : bytes).
Notation d := (dir_send role).
Notation n0 := (send_counter (dir_cipher d st0)).
Notation seals := (records (fun n m c => sealed st0 d n m c /\ zlen c <= V6_MAX_DATA_FRAME)).

Record send_inv (taken : bytes) (io : Io) (pts cts : list bytes) : Prop := {
  si_records : seals n0 pts cts;
  si_static : static st0 (state io);
  si_counter : send_counter (dir_cipher d (state io)) = n0 + zlen pts;
  si_shape : send_shape (send_header io) (send_body io);
  si_wire : accepted (stream io) ++ unsent (send_header io) (send_body io) =
            acc0 ++ concat (map framed cts);
  si_taken : taken = concat pts ++ write_buf io;
  si_excl : is_some (send_body io) = true -> write_buf io = [];
}.

(** What remains of it once the adapter is poisoned. *)
Definition send_weak (taken : bytes) (io : Io) (pts cts : list bytes) : Prop :=
  seals n0 pts cts /\ accepted (stream io) `prefix_of` acc0 ++ concat (map framed cts) /\
  concat pts `prefix_of` taken.

Definition send_ok (taken : bytes) (io : Io) : Prop :=
  exists pts cts, if poisoned io then send_weak taken io pts cts else send_inv taken io pts cts.

Lemma send_inv_weak taken io pts cts : send_inv taken io pts cts -> send_weak taken io pts cts.
Proof.
  intros [Hr _ _ _ Hw Ht _]. split_and!; [done|..].
  - rewrite <-Hw. by apply prefix_app_r.
  - subst taken. by apply prefix_app_r.
Qed.

Lemma send_weak_more taken more io pts cts :
  send_weak taken io pts cts -> send_weak (taken ++ more) io pts cts.
Proof. intros (? & ? & ?). split_and!; try done. by apply prefix_app_r. Qed.

Lemma arm_send_spec taken io io' pts cts r :
  send_inv taken io pts cts -> arm_send role io = (io', r) ->
  poisoned io' = poisoned io /\ stream io' = stream io /\
  match r with
  | Ok _ => exists pts' cts', send_inv taken io' pts' cts' /\ write_buf io' = []
  | Err _ => send_weak taken io' pts cts
  end.
Proof.
  intros Hinv. pose proof (send_inv_weak _ _ _ _ Hinv) as Hweak. destruct Hinv as [Hr Hst Hc Hsh Hw Ht Hx].
  unfold arm_send. destruct (is_some (send_header io) || is_some (send_body io)) eqn:Hp.
  { intros [= <- <-]. split_and!; try done. exists pts, cts. split; [done|]. apply Hx.
    by destruct (send_header io) as [[]|], (send_body io). }
  assert (send_header io = None /\ send_body io = None) as [Eh Eb].
  { destruct (send_header io), (send_body io); done. }
  destruct (is_empty (write_buf io)) eqn:He.
  { apply is_empty_true in He. intros [= <- <-]. split_and!; try done. by exists pts, cts. }
  destruct (_ <? zlen (write_buf io)); [by intros [= <- <-]|].
  destruct (_ && _); [by intros [= <- <-]|].
  destruct (negb _); [by intros [= <- <-]|].
  destruct (encrypt_frame _ _ _) as [st [c|e]] eqn:Hen; [|by intros [= <- <-]].
  destruct (try_from_max _ _) as [len|] eqn:Hl; [|by intros [= <- <-]].
  apply try_from_max_some in Hl as [-> _]. apply encrypt_frame_ok in Hen as (Hd & Hm & _ & Hs & ->).
  pose proof (aead_encrypt_length _ _ _ _ _ Hs) as Hcl.
  intros [= <- <-]. split_and!; try done.
  exists (pts ++ [write_buf io]), (cts ++ [c]). split; [|done]. constructor; cbn.
  - apply records_snoc; [done|]. rewrite <-Hc. split; [by eapply sealed_static|].
    unfold V6_MAX_PLAINTEXT_FRAME, V6_AEAD_TAG_BYTES in *. lia.
  - by apply static_set_send.
  - rewrite dir_cipher_set, Z.eqb_refl by done. cbn. rewrite Hc, zlen_app, zlen_cons, zlen_nil. lia.
  - done.
  - rewrite Eh, Eb in Hw. unfold unsent in Hw. cbn in Hw. rewrite app_nil_r in Hw.
    unfold unsent. cbn. rewrite Hw.
    rewrite map_app, concat_app. cbn. by rewrite app_nil_r, <-app_assoc.
  - rewrite concat_app. cbn. by rewrite !app_nil_r.
  - done.
Qed.

Lemma flush_spec taken io io' r :
  send_ok taken io -> poll_flush_io role io = (io', r) ->
  send_ok taken io' /\
  (r = Ready (Ok tt) -> poisoned io' = false /\ send_header io' = None /\ send_body io' = None /\
                        write_buf io' = []).
Proof.
  intros (pts & cts & Hok). unfold poll_flush_io. destruct (poisoned io) eqn:Hp.
  { intros [= <- <-]. split; [|done]. exists pts, cts. by rewrite Hp. }
  destruct (arm_send role io) as [io1 r1] eqn:Ha.
  apply (arm_send_spec _ _ _ _ _ _ Hok) in Ha as (Hp1 & Hs1 & Ha).
  destruct r1 as [u|e].
  2:{ intros [= <- <-]. split; [|done]. by exists pts, cts. }
  destruct Ha as (pts1 & cts1 & Hinv & Hwb). rewrite Hp in Hp1.
  destruct (poll_send_parts _ _ _ _) as [[[s sh] sb] r2] eqn:Hsp.
  apply poll_send_parts_spec in Hsp as (Hsh & Hdel & Hacc & Hend); [|apply Hinv].
  assert (send_inv taken (with_send io1 s (state io1) (root io1) (write_buf io1) sh sb) pts1 cts1)
    as Hinv2.
  { destruct Hinv as [Hr Hst Hc _ Hw Ht _].
    constructor; cbn; [done..|by rewrite Hacc|done|done]. }
  pose proof (send_inv_weak _ _ _ _ Hinv2) as Hweak.
  destruct r2 as [[[]|e]|w]; intros [= <- <-].
  - destruct (Hend eq_refl) as [-> ->]. split; [|done]. exists pts1, cts1. cbn. by rewrite Hp1.
  - split; [|done]. by exists pts1, cts1.
  - split; [|done]. exists pts1, cts1. cbn. by rewrite Hp1.
Qed.

Lemma buffer_write_spec taken io io' buf r :
  send_ok taken io -> poisoned io = false ->
  send_header io = None -> send_body io = None ->
  buffer_write_io io buf = (io', r) -> send_ok (taken ++ taken_of buf r) io'.
Proof.
  intros (pts & cts & Hok) Hp Hh Hb. rewrite Hp in Hok.
  pose proof (send_inv_weak _ _ _ _ Hok) as Hweak. unfold buffer_write_io.
  destruct (checked_add _ _ _) as [n|].
  2:{ intros [= <- <-]. exists pts, cts. cbn. by rewrite app_nil_r. }
  destruct (_ <? n).
  { intros [= <- <-]. exists pts, cts. cbn. by rewrite app_nil_r. }
  intros [= <- <-]. exists pts, cts. cbn. rewrite Hp.
  destruct Hok as [Hr Hst Hc Hsh Hw Ht Hx]. constructor; cbn; try done.
  - unfold zlen. rewrite Nat2Z.id, take_ge by done. by rewrite Ht, app_assoc.
  - by rewrite Hb.
Qed.

Lemma write_spec taken io io' buf r :
  send_ok taken io -> poll_write_io role io buf = (io', r) ->
  send_ok (taken ++ taken_of buf r) io'.
Proof.
  intros Hok. unfold poll_write_io. destruct (poisoned io) eqn:Hp.
  { intros [= <- <-]. cbn. by rewrite app_nil_r. }
  destruct (is_some (send_header io) || is_some (send_body io)) eqn:Hs.
  - destruct (poll_flush_io role io) as [io1 [[[]|e]|w]] eqn:Hf;
      apply (flush_spec _ _ _ _ Hok) in Hf as [Hok1 Hend].
    + destruct (Hend eq_refl) as (? & ? & ? & _). by apply buffer_write_spec.
    + intros [= <- <-]. cbn. by rewrite app_nil_r.
    + intros [= <- <-]. cbn. by rewrite app_nil_r.
  - apply buffer_write_spec; try done; by destruct (send_header io), (send_body io).
Qed.

Lemma send_ok_stream taken io s :
  accepted s = accepted (stream io) -> send_ok taken io ->
  send_ok taken (with_send io s (state io) (root io) (write_buf io) (send_header io) (send_body io)).
Proof.
  intros Ha (pts & cts & Hok). exists pts, cts. cbn. destruct (poisoned io).
  - destruct Hok as (? & ? & ?). by split_and!; cbn; rewrite ?Ha.
  - destruct Hok as [Hr Hst Hc Hsh Hw Ht Hx]. constructor; cbn; try done. by rewrite Ha.
Qed.

Lemma send_ok_poison taken io : send_ok taken io -> send_ok taken (poison io).
Proof.
  intros (pts & cts & Hok). exists pts, cts. cbn.
  destruct (poisoned io); [done|by apply send_inv_weak in Hok].
Qed.

Lemma shutdown_spec taken io io' r :
  send_ok taken io -> poll_shutdown_io role io = (io', r) -> send_ok taken io'.
Proof.
  intros Hok. unfold poll_shutdown_io.
  destruct (poll_flush_io role io) as [io1 [[[]|e]|w]] eqn:Hf;
    apply (flush_spec _ _ _ _ Hok) in Hf as [Hok1 _]; [|by intros [= <- <-]..].
  destruct (poll_shutdown (stream io1)) as [s r1] eqn:Hs.
  apply poll_shutdown_spec in Hs as [Ha _].
  destruct r1 as [[[]|e]|w]; intros [= <- <-];
    first [by apply send_ok_stream | by apply send_ok_poison, send_ok_stream].
Qed.
End sending.

(** ** What is received is handed out *)
Section receiving.
Context (st0 : SharedV6State) (del0 : bytes).
Notation d := (dir_recv_ role).
Notation m0 := (dir_recv d st0).
Notation opened := (records (fun n m c => opens st0 d n c m /\ zlen c <= V6_MAX_DATA_FRAME)).

(** The bytes of a record that arrived in part. *)
Definition partial (h b : option (bytes * Z)) : bytes :=
  match h, b with
  | Some (bs, off), _ => take (Z.to_nat off) bs
  | None, Some (bs, off) => be32 (zlen bs) ++ take (Z.to_nat off) bs
  | None, None => []
  end.

Definition recv_shape (h b : option (bytes * Z)) : Prop :=
  match h, b with
  | None, None => True
  | Some (bs, off), None => zlen bs = 4 /\ 0 <= off < 4
  | None, Some (bs, off) =>
      0 <= off < zlen bs /\ V6_AEAD_TAG_BYTES <= zlen bs <= V6_MAX_DATA_FRAME
  | Some _, Some _ => False
  end.

Record recv_inv (given : bytes) (io : Io) (pts cts : list bytes) : Prop := {
  ri_records : opened m0 pts cts;
  ri_static : static st0 (state io);
  ri_counter : dir_recv d (state io) = m0 + zlen pts;
  ri_shape : recv_shape (recv_header io) (recv_body io);
  ri_wire : del0 = concat (map framed cts) ++ partial (recv_header io) (recv_body io) ++
                   to_deliver (stream io);
  ri_given : given ++ from_offset (read_buf io, read_offset io) = concat pts;
  ri_offset : 0 <= read_offset io <= zlen (read_buf io);
}.

Definition recv_weak (given : bytes) (io : Io) (pts cts : list bytes) : Prop :=
  opened m0 pts cts /\ concat (map framed cts) `prefix_of` del0 /\ given `prefix_of` concat pts.

Definition recv_ok (given : bytes) (io : Io) : Prop :=
  exists pts cts, if poisoned io then recv_weak given io pts cts else recv_inv given io pts cts.

#[local] Arguments partial : simpl never.
#[local] Arguments recv_shape : simpl never.

Lemma recv_inv_weak given io io' pts cts :
  recv_inv given io pts cts -> recv_weak given io' pts cts.
Proof.
  intros [Hr _ _ _ Hw Hg _]. split_and!; [done|..].
  - rewrite Hw. by apply prefix_app_r.
  - rewrite <-Hg. by apply prefix_app_r.
Qed.

Lemma recv_poisoned given io io' pts cts :
  poisoned io' = true -> recv_inv given io pts cts -> recv_ok (given ++ []) io'.
Proof. intros Hp Hi. exists pts, cts. rewrite Hp, app_nil_r. by eapply recv_inv_weak. Qed.

Lemma overwrite_take bs off x :
  0 <= off <= zlen bs ->
  take (Z.to_nat (off + zlen x)) (overwrite bs off x) = take (Z.to_nat off) bs ++ x.
Proof.
  intros Ho. unfold overwrite. rewrite app_assoc. unfold zlen in *.
  rewrite take_app_le by (rewrite length_app, length_take; lia).
  rewrite take_ge; [done|]. rewrite length_app, length_take. lia.
Qed.

Lemma overwrite_zlen bs off x :
  0 <= off -> off + zlen x <= zlen bs -> zlen (overwrite bs off x) = zlen bs.
Proof.
  intros Ho Hx. unfold overwrite, zlen in *. rewrite !length_app, length_take, length_drop. lia.
Qed.

Lemma recv_step given io pts cts s h b :
  recv_inv given io pts cts -> recv_shape h b ->
  partial h b ++ to_deliver s = partial (recv_header io) (recv_body io) ++ to_deliver (stream io) ->
  recv_inv given (with_recv io s (state io) (root io) h b (read_buf io) (read_offset io)) pts cts.
Proof.
  intros [Hr Hst Hc _ Hw Hg Ho] Hsh Hp. constructor; cbn; try done. by rewrite Hp.
Qed.

Lemma serve_spec given io io' out n pts cts :
  0 <= n -> read_offset io < zlen (read_buf io) ->
  recv_inv given io pts cts -> serve io n = (io', out) ->
  poisoned io' = poisoned io /\ recv_inv (given ++ out) io' pts cts.
Proof.
  intros Hn Hlt [Hr Hst Hc Hsh Hw Hg Ho]. unfold serve.
  set (k := Z.min n (zlen (read_buf io) - read_offset io)).
  pose proof (from_offset_take (read_buf io) (read_offset io) k ltac:(lia) ltac:(lia)) as Ht.
  destruct (Z.leb_spec (zlen (read_buf io)) (read_offset io + k)); intros [= <- <-];
    (split; [done|]); constructor; cbn; try done.
  - rewrite (from_offset_end _ (read_offset io + k)), app_nil_r in Ht by lia.
    rewrite Ht, app_nil_r. done.
  - by rewrite <-app_assoc, Ht.
  - lia.
Qed.

Lemma finish_record_spec given io io' s c r pts cts :
  recv_inv given io pts cts -> poisoned io = false ->
  zlen (read_buf io) <= read_offset io ->
  del0 = concat (map framed cts) ++ framed c ++ to_deliver s ->
  finish_record role io s c = (io', r) ->
  match r with
  | Ok _ => poisoned io' = false /\ exists pts' cts', recv_inv given io' pts' cts'
  | Err _ => recv_ok (given ++ []) io'
  end.
Proof.
  intros Hinv Hp Hro Hdel. unfold finish_record.
  destruct (open_one _ _ _) as [st [m|e]] eqn:Ho.
  2:{ intros [= <- <-]. by eapply recv_poisoned. }
  destruct (root_ok_for_recv _ _ _) as [rt [|]].
  2:{ intros [= <- <-]. by eapply recv_poisoned. }
  intros [= <- <-]. split; [done|]. apply open_one_ok in Ho as (Hd & Hl & _ & Ho & ->).
  destruct Hinv as [Hr Hst Hc Hsh Hw Hg Hoff].
  exists (pts ++ [m]), (cts ++ [c]). constructor; cbn.
  - apply records_snoc; [done|]. rewrite <-Hc. split; [by eapply opens_static|lia].
  - done.
  - rewrite dir_recv_set by done. rewrite Hc, zlen_app, zlen_cons, zlen_nil. lia.
  - done.
  - rewrite Hdel, map_app, concat_app. cbn. by rewrite app_nil_r, <-app_assoc.
  - rewrite from_offset_end, app_nil_r in Hg by done. subst given.
    rewrite concat_app. cbn. by rewrite app_nil_r.
  - pose proof (zlen_nonneg m). lia.
Qed.

(** A full header announces a body; a full body is a record. *)
Lemma header_complete bs off x :
  zlen bs = 4 -> 0 <= off < 4 -> 0 < zlen x <= 4 - off -> 4 <= off + zlen x ->
  overwrite bs off x = take (Z.to_nat off) bs ++ x /\
  be32 (of_be (overwrite bs off x)) = overwrite bs off x.
Proof.
  intros Hb Ho Hx He. assert (zlen (overwrite bs off x) = 4) as Hz by (rewrite overwrite_zlen; lia).
  split.
  - rewrite <-overwrite_take by lia. rewrite take_ge; [done|]. unfold zlen in *. lia.
  - apply be_bytes_of_be_n. unfold zlen in *. lia.
Qed.

Lemma read_loop_spec left n given io io' r pts cts :
  0 <= n -> poisoned io = false -> recv_inv given io pts cts ->
  read_loop role left n io = (io', r) -> recv_ok (given ++ given_of r) io'.
Proof.
  intros Hn. revert io pts cts; induction left as [|left IH]; intros io pts cts Hp Hinv;
    cbn [read_loop]; destruct (Z.ltb_spec (read_offset io) (zlen (read_buf io))) as [Hlt|Hge].
  1,3: destruct (serve io n) as [io1 out] eqn:Hs; intros [= <- <-];
    apply (serve_spec given _ _ _ _ pts cts) in Hs as [Hp1 Hi1]; [|done..];
    exists pts, cts; by rewrite Hp1, Hp.
  { intros [= <- <-]. exists pts, cts. cbn. by rewrite Hp, app_nil_r. }
  destruct (match recv_header io, recv_body io with
            | None, None => Some (replicate 4 x00, 0) | h, _ => h end) as [[bs off]|] eqn:Eh.
  - assert (recv_shape (Some (bs, off)) None /\ recv_body io = None /\
      partial (Some (bs, off)) None = partial (recv_header io) (recv_body io)) as (Hsh & Eb & Epart).
    { pose proof (ri_shape _ _ _ _ Hinv) as Hsh. unfold recv_shape in *.
      destruct (recv_header io) as [[hs ho]|], (recv_body io) as [[bb bo]|]; try done;
        injection Eh as <- <-; done. }
    rewrite Eb in Epart. destruct Hsh as [Hb4 Hoff].
    destruct (poll_read _ _) as [s r1] eqn:Hr. apply poll_read_spec in Hr as [_ Hr].
    destruct r1 as [[x|e]|w].
    2:{ intros [= <- <-]. by eapply recv_poisoned. }
    2:{ intros [= <- <-]. exists pts, cts. cbn [poisoned with_recv given_of]. rewrite Hp, app_nil_r.
        apply recv_step; [done|by rewrite Eb|]. by rewrite Eb, Epart, Hr. }
    destruct Hr as [Hx Hdel]. destruct (Z.eqb_spec (zlen x) 0) as [Ex|Ex].
    { apply zlen_zero in Ex as ->. destruct (off =? 0); intros [= <- <-]; [|by eapply recv_poisoned].
      exists pts, cts. cbn [poisoned with_recv given_of]. rewrite Hp, app_nil_r.
      apply recv_step; [done|by rewrite Eb|]. by rewrite Eb, Epart, Hdel. }
    pose proof (zlen_nonneg x). cbv zeta. destruct (Z.ltb_spec (off + zlen x) 4).
    + apply (IH _ pts cts); [done|]. apply recv_step; [done| |].
      * rewrite Eb. split; [rewrite overwrite_zlen; lia|lia].
      * rewrite Eb, <-Epart, Hdel. unfold partial.
        rewrite overwrite_take by lia. by rewrite <-app_assoc.
    + destruct (header_complete bs off x) as [Eo Ebe]; [lia..|].
      unfold validate_ciphertext_frame_len. destruct (in_range _ _ _) eqn:Hlen; cbn [ensure rbind].
      2:{ intros [= <- <-]. by eapply recv_poisoned. }
      apply in_range_true in Hlen. apply (IH _ pts cts); [done|].
      assert (zlen (replicate (Z.to_nat (of_be (overwrite bs off x))) x00) =
        of_be (overwrite bs off x)) as Hrep.
      { unfold zlen. rewrite length_replicate. unfold V6_AEAD_TAG_BYTES in *. lia. }
      apply recv_step; [done| |].
      * unfold recv_shape. rewrite Hrep. unfold V6_AEAD_TAG_BYTES in *. lia.
      * rewrite Eb, <-Epart. unfold partial. rewrite Hrep, Ebe, Hdel, Eo. cbn [take Z.to_nat].
        by rewrite app_nil_r, <-app_assoc.
  - destruct (recv_body io) as [[bs off]|] eqn:Eb.
    2:{ by destruct (recv_header io). }
    assert (recv_header io = None) as Ehd by by destruct (recv_header io).
    pose proof (ri_shape _ _ _ _ Hinv) as Hsh. rewrite Ehd, Eb in Hsh. destruct Hsh as [Hoff Hlen].
    destruct (poll_read _ _) as [s r1] eqn:Hr. apply poll_read_spec in Hr as [_ Hr].
    destruct r1 as [[x|e]|w].
    2:{ intros [= <- <-]. by eapply recv_poisoned. }
    2:{ intros [= <- <-]. exists pts, cts. cbn [poisoned with_recv given_of]. rewrite Hp, app_nil_r.
        apply recv_step; [done|done|]. by rewrite Ehd, Eb, Hr. }
    destruct Hr as [Hx Hdel]. destruct (Z.eqb_spec (zlen x) 0) as [Ex|Ex].
    { intros [= <- <-]. by eapply recv_poisoned. }
    pose proof (zlen_nonneg x). cbv zeta. rewrite overwrite_zlen by lia.
    pose proof (overwrite_take bs off x ltac:(lia)) as Hot.
    destruct (Z.ltb_spec (off + zlen x) (zlen bs)).
    + apply (IH _ pts cts); [done|]. apply recv_step; [done| |].
      * unfold recv_shape. rewrite overwrite_zlen by lia. lia.
      * rewrite Ehd, Eb, Hdel. unfold partial. rewrite Hot, overwrite_zlen by lia.
        by rewrite <-!app_assoc.
    + destruct (finish_record _ _ _ _) as [io1 r1] eqn:Hf.
      apply (finish_record_spec given _ _ _ _ _ pts cts) in Hf; [|done..|].
      * destruct r1 as [u|e]; [|by intros [= <- <-]]. destruct Hf as (Hp1 & pts' & cts' & Hi1).
        by apply (IH io1 pts' cts').
      * rewrite (ri_wire _ _ _ _ Hinv), Ehd, Eb, Hdel. unfold partial, framed.
        rewrite overwrite_zlen by lia. rewrite <-!app_assoc. do 2 f_equal. rewrite app_assoc.
        f_equal. rewrite <-Hot. rewrite take_ge; [done|].
        pose proof (overwrite_zlen bs off x). unfold zlen in *. lia.
Qed.
End receiving.

(** ** The two halves do not disturb each other *)

Definition recv_same (st st' : SharedV6State) : Prop :=
  static st st' /\ forall d, dir_recv d st' = dir_recv d st.
Definition send_same (st st' : SharedV6State) : Prop :=
  static st st' /\ forall d, send_counter (dir_cipher d st') = send_counter (dir_cipher d st).

Lemma static_refl st : static st st.
Proof. done. Qed.
Lemma static_trans a b c : static a b -> static b c -> static a c.
Proof. unfold static. intros (?&?&?&?) (?&?&?&?). split_and!; congruence. Qed.

(** What a call on one half leaves of the other. *)
Record keeps_recv (io io' : Io) : Prop := {
  kr_deliver : to_deliver (stream io') = to_deliver (stream io);
  kr_live : poisoned io' = false ->
    recv_header io' = recv_header io /\ recv_body io' = recv_body io /\
    read_buf io' = read_buf io /\ read_offset io' = read_offset io /\
    recv_same (state io) (state io') /\ poisoned io = false;
}.
Record keeps_send (io io' : Io) : Prop := {
  ks_accepted : accepted (stream io') = accepted (stream io);
  ks_live : poisoned io' = false ->
    send_header io' = send_header io /\ send_body io' = send_body io /\
    write_buf io' = write_buf io /\ send_same (state io) (state io') /\ poisoned io = false;
}.

Lemma keeps_recv_ok st0 del0 given io io' :
  keeps_recv io io' -> recv_ok st0 del0 given io -> recv_ok st0 del0 given io'.
Proof.
  intros [Hd Hl] (pts & cts & Hok). exists pts, cts. destruct (poisoned io') eqn:Hp'.
  - destruct (poisoned io); [done|by eapply recv_inv_weak].
  - destruct (Hl eq_refl) as (Eh & Eb & Er & Eo & [Hst Hcnt] & Hp). rewrite Hp in Hok.
    destruct Hok as [Hr Hs Hc Hsh Hw Hg Ho]. constructor; rewrite ?Eh, ?Eb, ?Er, ?Eo, ?Hd; try done.
    + by eapply static_trans.
    + by rewrite Hcnt.
Qed.

Lemma keeps_send_ok st0 acc0 taken io io' :
  keeps_send io io' -> send_ok st0 acc0 taken io -> send_ok st0 acc0 taken io'.
Proof.
  intros [Hd Hl] (pts & cts & Hok). exists pts, cts. destruct (poisoned io') eqn:Hp'.
  - assert (send_weak st0 acc0 taken io pts cts) as (? & ? & ?)
      by (destruct (poisoned io); [done|by eapply send_inv_weak]).
    split_and!; try done. by rewrite Hd.
  - destruct (Hl eq_refl) as (Eh & Eb & Er & [Hst Hcnt] & Hp). rewrite Hp in Hok.
    destruct Hok as [Hr Hs Hc Hsh Hw Hg Ho]. constructor; rewrite ?Eh, ?Eb, ?Er, ?Hd; try done.
    + by eapply static_trans.
    + by rewrite Hcnt.
Qed.

Lemma keeps_recv_refl io : poisoned io = false -> keeps_recv io io.
Proof. intros Hp. constructor; [done|]. intros _. split_and!; try done. Qed.

Lemma keeps_recv_trans a b c : keeps_recv a b -> keeps_recv b c -> keeps_recv a c.
Proof.
  intros [Hd Hl] [Hd' Hl']. constructor; [congruence|]. intros Hp.
  destruct (Hl' Hp) as (? & ? & ? & ? & [Hst' Hc'] & Hpb).
  destruct (Hl Hpb) as (? & ? & ? & ? & [Hst Hc] & ?).
  split_and!; try congruence. split; [by eapply static_trans|]. intros d. by rewrite Hc'.
Qed.

Lemma keeps_recv_poison a b : keeps_recv a b -> keeps_recv a (poison b).
Proof. intros [Hd _]. by constructor. Qed.

Lemma poll_send_parts_deliver left s h b s' h' b' r :
  poll_send_parts left s h b = (s', h', b', r) -> to_deliver s' = to_deliver s.
Proof.
  revert s h b; induction left as [|left IH]; intros s h b; cbn [poll_send_parts].
  { destruct h, b; by intros [= <- <- <- <-]. }
  destruct h as [[hs off]|].
  - destruct (poll_write _ s) as [s1 r1] eqn:Hw. apply poll_write_spec in Hw as [Hd _].
    destruct b, r1 as [[n|e]|w]; try (by intros [= <- <- <- <-]);
      (destruct (n =? 0); [by intros [= <- <- <- <-]|]); destruct (_ <? _); intros Hr;
      apply IH in Hr; congruence.
  - destruct b as [[bs off]|]; [|by intros [= <- <- <- <-]].
    destruct (poll_write _ s) as [s1 r1] eqn:Hw. apply poll_write_spec in Hw as [Hd _].
    destruct r1 as [[n|e]|w]; try (by intros [= <- <- <- <-]).
    destruct (n =? 0); [by intros [= <- <- <- <-]|]. destruct (_ <? _); [|by intros [= <- <- <- <-]].
    intros Hr. apply IH in Hr. congruence.
Qed.

Lemma keeps_recv_with_send io s st r wb sh sb :
  poisoned io = false -> to_deliver s = to_deliver (stream io) -> recv_same (state io) st ->
  keeps_recv io (with_send io s st r wb sh sb).
Proof. intros Hp Hd Hs. constructor; [done|]. intros _. by split_and!. Qed.

Lemma recv_same_refl st : recv_same st st.
Proof. split; [apply static_refl|done]. Qed.

Lemma encrypt_recv_same dd m st st' r : encrypt_frame dd m st = (st', r) -> recv_same st st'.
Proof.
  destruct r as [c|e]; intros He.
  - apply encrypt_frame_ok in He as (_ & _ & _ & _ & ->). split; [|done]. by apply static_set_send.
  - apply encrypt_frame_err in He as ->. apply recv_same_refl.
Qed.

Lemma arm_send_keeps io io' r :
  poisoned io = false -> arm_send role io = (io', r) -> keeps_recv io io'.
Proof.
  intros Hp. unfold arm_send.
  repeat (match goal with |- (if ?b then _ else _) = _ -> _ => destruct b end;
          [intros [= <- <-]; first [by apply keeps_recv_refl
             | by apply keeps_recv_with_send; [|done|apply recv_same_refl]]|]).
  destruct (encrypt_frame _ _ _) as [st [c|e]] eqn:He; apply encrypt_recv_same in He.
  - destruct (try_from_max _ _); intros [= <- <-]; by apply keeps_recv_with_send.
  - intros [= <- <-]. by apply keeps_recv_with_send.
Qed.

Lemma flush_keeps io io' r :
  poisoned io = false -> poll_flush_io role io = (io', r) -> keeps_recv io io'.
Proof.
  intros Hp. unfold poll_flush_io. rewrite Hp.
  destruct (arm_send role io) as [io1 [u|e]] eqn:Ha; apply (arm_send_keeps _ _ _ Hp) in Ha.
  - destruct (poll_send_parts _ _ _ _) as [[[s sh] sb] r1] eqn:Hs.
    apply poll_send_parts_deliver in Hs.
    assert (keeps_recv io (with_send io1 s (state io1) (root io1) (write_buf io1) sh sb)) as Hk.
    { destruct Ha as [Hd Hl]. constructor; [cbn; congruence|done]. }
    destruct r1 as [[[]|e]|w]; intros [= <- <-]; try done; by apply keeps_recv_poison.
  - intros [= <- <-]. by apply keeps_recv_poison.
Qed.

Lemma buffer_write_keeps io io' buf r :
  poisoned io = false -> buffer_write_io io buf = (io', r) -> keeps_recv io io'.
Proof.
  intros Hp. unfold buffer_write_io. pose proof (keeps_recv_poison _ _ (keeps_recv_refl io Hp)).
  destruct (checked_add _ _ _); [destruct (_ <? _)|]; intros [= <- <-]; done.
Qed.

(** A call on the sending half. *)
Lemma send_step_keeps o io io' f taken given :
  poisoned io = false -> (forall n, o <> ORead n) ->
  step o io = (io', f, taken, given) -> keeps_recv io io' /\ given = [].
Proof.
  intros Hp Ho. destruct o as [buf| | |n]; [..|by destruct (Ho n)]; unfold step.
  - unfold poll_write_io. rewrite Hp. destruct (_ || _).
    + destruct (poll_flush_io role io) as [io1 r1] eqn:Hf. apply (flush_keeps _ _ _ Hp) in Hf.
      destruct r1 as [[[]|e]|w]; try (by intros [= <- <- <- <-]).
      destruct (buffer_write_io io1 buf) as [io2 r2] eqn:Hb. intros [= <- <- <- <-].
      split; [|done]. destruct (poisoned io1) eqn:Hp1.
      * constructor.
        -- rewrite <-(kr_deliver _ _ Hf). unfold buffer_write_io in Hb.
           destruct (checked_add _ _ _); [destruct (_ <? _)|]; by injection Hb as <- <-.
        -- unfold buffer_write_io in Hb.
           destruct (checked_add _ _ _); [destruct (_ <? _)|]; injection Hb as <- <-; cbn; try done.
           by rewrite Hp1.
      * eapply keeps_recv_trans; [done|]. by eapply buffer_write_keeps.
    + destruct (buffer_write_io io buf) as [io2 r2] eqn:Hb. intros [= <- <- <- <-].
      split; [|done]. by eapply buffer_write_keeps.
  - destruct (poll_flush_io role io) as [io1 r1] eqn:Hf. intros [= <- <- <- <-].
    split; [|done]. by eapply flush_keeps.
  - unfold poll_shutdown_io. destruct (poll_flush_io role io) as [io1 r1] eqn:Hf.
    apply (flush_keeps _ _ _ Hp) in Hf. destruct r1 as [[[]|e]|w]; try (by intros [= <- <- <- <-]).
    destruct (poll_shutdown (stream io1)) as [s r2] eqn:Hs. apply poll_shutdown_spec in Hs as [_ Hd].
    assert (keeps_recv io (with_send io1 s (state io1) (root io1) (write_buf io1) (send_header io1)
      (send_body io1))) as Hk.
    { destruct Hf as [Hd1 Hl]. constructor; [cbn; congruence|done]. }
    destruct r2 as [[[]|e]|w]; intros [= <- <- <- <-]; (split; [|done]); try done.
    by apply keeps_recv_poison.
Qed.

Lemma keeps_send_with_recv io s st r rh rb buf off :
  poisoned io = false -> accepted s = accepted (stream io) -> send_same (state io) st ->
  keeps_send io (with_recv io s st r rh rb buf off).
Proof. intros Hp Hd Hs. constructor; [done|]. intros _. by split_and!. Qed.

Lemma keeps_send_poison a b : keeps_send a b -> keeps_send a (poison b).
Proof. intros [Hd _]. by constructor. Qed.

Lemma keeps_send_trans a b c : keeps_send a b -> keeps_send b c -> keeps_send a c.
Proof.
  intros [Hd Hl] [Hd' Hl']. constructor; [congruence|]. intros Hp.
  destruct (Hl' Hp) as (? & ? & ? & [Hst' Hc'] & Hpb).
  destruct (Hl Hpb) as (? & ? & ? & [Hst Hc] & ?).
  split_and!; try congruence. split; [by eapply static_trans|]. intros d. by rewrite Hc'.
Qed.

Lemma send_same_refl st : send_same st st.
Proof. split; [apply static_refl|done]. Qed.

Lemma open_send_same dd c st st' r : open_one dd c st = (st', r) -> send_same st st'.
Proof.
  unfold open_one, ebind.
  destruct (expect_next_counter dd st) as [st1 [n|e]] eqn:Hn.
  - apply expect_next_ok in Hn as (_ & _ & _ & ->).
    assert (forall r1, decrypt_frame dd c n (set_recv_counter dd (n + 1) st) = (st', r1) ->
      st' = set_recv_counter dd (n + 1) st) as Hd.
    { intros r1. unfold decrypt_frame, ebind, elift, eget. intros Hx.
      repeat case_match; simplify_eq; done. }
    intros E. apply Hd in E as ->. by split.
  - intros [= <- _]. unfold expect_next_counter, ebind, eget, elift, emodify, eret in Hn.
    repeat case_match; simplify_eq; apply send_same_refl.
Qed.

Lemma read_loop_keeps left n io io' r :
  poisoned io = false -> read_loop role left n io = (io', r) -> keeps_send io io'.
Proof.
  revert io; induction left as [|left IH]; intros io Hp; cbn [read_loop]; destruct (_ <? _).
  1,3: unfold serve; destruct (_ <=? _); intros [= <- <-];
    (apply keeps_send_with_recv; [done|done|apply send_same_refl]).
  { intros [= <- <-]. constructor; [done|]. intros _. split_and!; try done. }
  assert (forall s cap r1, poll_read cap (stream io) = (s, r1) -> forall rh rb, keeps_send io
    (with_recv io s (state io) (root io) rh rb (read_buf io) (read_offset io))) as Hk.
  { intros s cap r1 [Ha _]%poll_read_spec rh rb.
    apply keeps_send_with_recv; [done|done|apply send_same_refl]. }
  assert (forall s cap r1, poll_read cap (stream io) = (s, r1) -> forall rh rb,
    read_loop role left n (with_recv io s (state io) (root io) rh rb (read_buf io) (read_offset io))
      = (io', r) -> keeps_send io io') as Hloop.
  { intros s cap r1 Hr rh rb Hl. eapply keeps_send_trans; [by eapply (Hk s)|].
    eapply IH; [|exact Hl]. done. }
  destruct (match recv_header io, recv_body io with
            | None, None => _ | h, _ => h end) as [[bs off]|].
  - destruct (poll_read _ _) as [s r1] eqn:Hr. specialize (Hk _ _ _ Hr). specialize (Hloop _ _ _ Hr).
    destruct r1 as [[x|e]|w]; [|intros [= <- <-]; by apply keeps_send_poison|by intros [= <- <-]].
    destruct (zlen x =? 0).
    { destruct (off =? 0); intros [= <- <-]; [done|by apply keeps_send_poison]. }
    cbv zeta. destruct (_ <? 4); [apply Hloop|].
    destruct (validate_ciphertext_frame_len _); [apply Hloop|].
    intros [= <- <-]; by apply keeps_send_poison.
  - destruct (recv_body io) as [[bs off]|].
    2:{ intros [= <- <-]. constructor; [done|]. intros _. split_and!; try done. }
    destruct (poll_read _ _) as [s r1] eqn:Hr. pose proof Hr as [Hacc _]%poll_read_spec.
    specialize (Hk _ _ _ Hr). specialize (Hloop _ _ _ Hr).
    destruct r1 as [[x|e]|w]; [|intros [= <- <-]; by apply keeps_send_poison|by intros [= <- <-]].
    destruct (zlen x =? 0); [intros [= <- <-]; by apply keeps_send_poison|].
    cbv zeta. destruct (_ <? _); [apply Hloop|].
    unfold finish_record. destruct (open_one _ _ _) as [st [m|e]] eqn:Ho; apply open_send_same in Ho.
    + destruct (root_ok_for_recv _ _ _) as [rt [|]].
      * intros Hl. eapply keeps_send_trans; [by apply (keeps_send_with_recv io s st rt None None m 0)|].
        eapply IH; [|exact Hl]. done.
      * intros [= <- <-]. by apply keeps_send_poison, keeps_send_with_recv.
    + intros [= <- <-]. by apply keeps_send_poison, keeps_send_with_recv.
Qed.

(** ** Any sequence of calls *)

Definition op_ok (o : op) : Prop := match o with ORead n => 0 <= n | _ => True end.

Lemma step_spec st0 acc0 del0 o io io' f taken given tk gv :
  op_ok o -> step o io = (io', f, tk, gv) ->
  send_ok st0 acc0 taken io -> recv_ok st0 del0 given io ->
  send_ok st0 acc0 (taken ++ tk) io' /\ recv_ok st0 del0 (given ++ gv) io'.
Proof.
  intros Ho Hs Hsend Hrecv. destruct (poisoned io) eqn:Hp.
  { rewrite poisoned_step in Hs by done. injection Hs as <- <- <- <-. by rewrite !app_nil_r. }
  destruct o as [buf| | |n].
  1-3: pose proof Hs as Hk; apply send_step_keeps in Hk as [Hk ->]; [|done|done];
    (split; [|rewrite app_nil_r; by eapply keeps_recv_ok]); unfold step in Hs.
  - destruct (poll_write_io role io buf) as [io1 r] eqn:Hw. injection Hs as <- <- <-.
    by eapply write_spec.
  - destruct (poll_flush_io role io) as [io1 r] eqn:Hw. injection Hs as <- <- <-.
    rewrite app_nil_r. by eapply flush_spec.
  - destruct (poll_shutdown_io role io) as [io1 r] eqn:Hw. injection Hs as <- <- <-.
    rewrite app_nil_r. by eapply shutdown_spec.
  - unfold step in Hs. destruct (poll_read_io role io n) as [io1 r] eqn:Hr.
    injection Hs as <- <- <- <-. unfold poll_read_io in Hr. rewrite Hp in Hr.
    rewrite app_nil_r. split.
    + eapply keeps_send_ok; [by eapply read_loop_keeps|done].
    + destruct Hrecv as (pts & cts & Hok). rewrite Hp in Hok. by eapply read_loop_spec.
Qed.

Lemma run_spec st0 acc0 del0 ops io io' taken given tk gv :
  Forall op_ok ops -> run ops io = (io', tk, gv) ->
  send_ok st0 acc0 taken io -> recv_ok st0 del0 given io ->
  send_ok st0 acc0 (taken ++ tk) io' /\ recv_ok st0 del0 (given ++ gv) io'.
Proof.
  intros Hops. revert io io' taken given tk gv.
  induction Hops as [|o ops Ho Hops IH]; intros io io' taken given tk gv; cbn [run].
  { intros [= <- <- <-]. by rewrite !app_nil_r. }
  destruct (step o io) as [[[io1 f] tk1] gv1] eqn:Hs.
  destruct (run ops io1) as [[io2 tk2] gv2] eqn:Hr. intros [= <- <- <-] Hsend Hrecv.
  destruct (step_spec _ _ _ _ _ _ _ _ _ _ _ Ho Hs Hsend Hrecv) as [H1' H2'].
  rewrite !app_assoc. by eapply IH.
Qed.

Lemma fresh_ok s st r :
  send_ok st (accepted s) [] (io_new s st r) /\ recv_ok st (to_deliver s) [] (io_new s st r).
Proof.
  split; exists [], [].
  - by constructor; cbn; rewrite ?Z.add_0_r.
  - by constructor; cbn; rewrite ?Z.add_0_r.
Qed.

(** The record relations of the two halves. *)
Definition sealed_records (st : SharedV6State) : list bytes -> list bytes -> Prop :=
  records (fun n m c => sealed st (dir_send role) n m c /\ zlen c <= V6_MAX_DATA_FRAME)
    (send_counter (dir_cipher (dir_send role) st)).
Definition opened_records (st : SharedV6State) : list bytes -> list bytes -> Prop :=
  records (fun n m c => opens st (dir_recv_ role) n c m /\ zlen c <= V6_MAX_DATA_FRAME)
    (dir_recv (dir_recv_ role) st).

Lemma run_records ops s st r io taken given :
  Forall op_ok ops -> run ops (io_new s st r) = (io, taken, given) ->
  (exists pts cts, sealed_records st pts cts /\
     accepted (stream io) `prefix_of` accepted s ++ concat (map framed cts) /\
     concat pts `prefix_of` taken /\
     (poisoned io = false ->
      accepted (stream io) ++ unsent (send_header io) (send_body io) =
        accepted s ++ concat (map framed cts) /\
      taken = concat pts ++ write_buf io)) /\
  (exists pts cts, opened_records st pts cts /\
     concat (map framed cts) `prefix_of` to_deliver s /\
     given `prefix_of` concat pts /\
     (poisoned io = false ->
      given ++ from_offset (read_buf io, read_offset io) = concat pts)).
Proof.
  intros Hops Hrun. destruct (fresh_ok s st r) as [Hs Hr].
  destruct (run_spec _ _ _ _ _ _ _ _ _ _ Hops Hrun Hs Hr) as [(pts & cts & Hs') (pts' & cts' & Hr')].
  cbn in Hs', Hr'. split.
  - exists pts, cts. destruct (poisoned io).
    + destruct Hs' as (? & ? & ?). by split_and!.
    + pose proof (send_inv_weak _ _ _ _ _ _ Hs') as (? & ? & ?). destruct Hs'. by split_and!.
  - exists pts', cts'. destruct (poisoned io).
    + destruct Hr' as (? & ? & ?). by split_and!.
    + pose proof (recv_inv_weak _ _ _ _ io _ _ Hr') as (? & ? & ?). destruct Hr'. by split_and!.
Qed.

(** C40: the adapter is a byte stream over sealed records.  For any calls
    (writes, flushes, shutdowns, reads) and any answers of the transport
    (partial, pending, failing), there are records such that what the
    transport accepted is a prefix of their frames on the wire, sealed with
    consecutive counters, and their plaintexts are what was written, up to
    what is still buffered; likewise what the transport delivered starts with
    the frames of opened records, and what was handed out is their plaintexts,
    up to what is still to be read.  While the adapter is not poisoned the
    accounts are exact: no byte is lost, repeated or reordered. *)
Theorem adapter_carries_the_stream ops s st r io taken given :
  Forall op_ok ops -> run ops (io_new s st r) = (io, taken, given) ->
  (exists pts cts, sealed_records st pts cts /\
     accepted (stream io) `prefix_of` accepted s ++ concat (map framed cts) /\
     concat pts `prefix_of` taken /\
     (poisoned io = false ->
      accepted (stream io) ++ unsent (send_header io) (send_body io) =
        accepted s ++ concat (map framed cts) /\
      taken = concat pts ++ write_buf io)) /\
  (exists pts cts, opened_records st pts cts /\
     concat (map framed cts) `prefix_of` to_deliver s /\
     given `prefix_of` concat pts /\
     (poisoned io = false ->
      given ++ from_offset (read_buf io, read_offset io) = concat pts)).
Proof. apply run_records. Qed.
End theory.

(** ** Two adapters *)

Lemma framed_prefix xs ys :
  Forall (fun x => zlen x <= U32_MAX) xs -> Forall (fun y => zlen y <= U32_MAX) ys ->
  concat (map framed xs) `prefix_of` concat (map framed ys) -> xs `prefix_of` ys.
Proof.
  intros Hx. revert ys. induction Hx as [|x xs Hx Hxs IH]; intros ys Hy; [intros; apply prefix_nil|].
  cbn [map concat]. intros [k Hk]. rewrite <-app_assoc in Hk. destruct Hy as [|y ys Hy Hys]; [done|].
  cbn [map concat] in Hk.
  apply (lp_app_inj y x) in Hk as [-> Hk]; [|done..].
  apply prefix_cons. apply IH; [done|]. by exists k.
Qed.

Lemma records_bound (P : Z -> bytes -> bytes -> Prop) n0 pts cts :
  records (fun n m c => P n m c /\ zlen c <= V6_MAX_DATA_FRAME) n0 pts cts ->
  Forall (fun c => zlen c <= U32_MAX) cts.
Proof.
  intros [Hl Hr]. apply Forall_lookup. intros i c Hc.
  destruct (lookup_lt_is_Some_2 pts i) as [m Hm].
  { rewrite <-Hl. apply lookup_lt_is_Some_1. eauto. }
  destruct (Hr _ _ _ Hm Hc) as [_ Hb]. unfold V6_MAX_DATA_FRAME, U32_MAX in *. lia.
Qed.

(** C23: end to end.  Let one adapter write through its transport, another one
    read from its own, of the opposite role, with the same keys and matching
    counters, and let the second transport deliver a prefix of what the first
    accepted.  Then, whatever the two sequences of calls and however the two
    transports fragment, delay or fail, what the reader is handed is a prefix
    of what was written. *)
Theorem adapters_connect {S1 S2 R1 R2 : Type} `{PollStream S1, !PollLaws S1}
    `{PollStream S2, !PollLaws S2} `{Aead, !AeadLaws} (role1 : Role R1) (role2 : Role R2)
    ops1 (s1 : S1) st1 r1 io1 taken1 given1 ops2 (s2 : S2) st2 r2 io2 taken2 given2 :
  dir_send role1 = dir_recv_ role2 -> peers (dir_send role1) st1 st2 ->
  dir_recv (dir_recv_ role2) st2 = send_counter (dir_cipher (dir_send role1) st1) ->
  Forall op_ok ops1 -> Forall op_ok ops2 -> accepted s1 = [] ->
  run role1 ops1 (io_new s1 st1 r1) = (io1, taken1, given1) ->
  run role2 ops2 (io_new s2 st2 r2) = (io2, taken2, given2) ->
  to_deliver s2 `prefix_of` accepted (stream io1) ->
  given2 `prefix_of` taken1.
Proof.
  intros Hdir Hpeers Hcnt Ho1 Ho2 Hacc Hrun1 Hrun2 Hdel.
  destruct (run_records role1 _ _ _ _ _ _ _ Ho1 Hrun1) as [(pts & cts & Hseal & Hw & Ht & _) _].
  destruct (run_records role2 _ _ _ _ _ _ _ Ho2 Hrun2) as [_ (pts' & cts' & Hopen & Hw' & Hg & _)].
  rewrite Hacc in Hw. cbn in Hw.
  assert (cts' `prefix_of` cts) as [k ->].
  { apply framed_prefix.
    { exact (records_bound (fun n m c => opens st2 (dir_recv_ role2) n c m) _ _ _ Hopen). }
    { exact (records_bound (fun n m c => sealed st1 (dir_send role1) n m c) _ _ _ Hseal). }
    etrans; [done|]. by etrans. }
  assert (pts' `prefix_of` pts) as [k' ->].
  { destruct Hseal as [Hl Hseal], Hopen as [Hl' Hopen]. rewrite length_app in Hl.
    exists (drop (length pts') pts). apply list_eq. intros i.
    destruct (decide (i < length pts')%nat) as [Hi|Hi].
    - rewrite lookup_app_l by done.
      destruct (lookup_lt_is_Some_2 pts i) as [m Hm]; [lia|].
      destruct (lookup_lt_is_Some_2 cts' i) as [c Hc]; [lia|].
      destruct (lookup_lt_is_Some_2 pts' i Hi) as [m' Hm'].
      destruct (Hseal i m c Hm) as [Hs _]; [by rewrite lookup_app_l by lia|].
      destruct (Hopen i m' c Hm' Hc) as [Hop _].
      destruct (sealed_opens _ _ _ _ _ _ Hpeers Hs) as [Hop' _].
      rewrite Hcnt, <-Hdir in Hop. unfold opens in Hop, Hop'. rewrite Hop in Hop'.
      injection Hop' as ->. by rewrite Hm, Hm'.
    - rewrite lookup_app_r by lia. rewrite lookup_drop. f_equal. lia. }
  rewrite concat_app in Ht. etrans; [exact Hg|]. etrans; [|exact Ht]. by apply prefix_app_r.
Qed.
