(* ===== verification/V6AdapterLive.v ===== *)
(** * The v6 stream adapter: progress

    Every call of the adapter makes a bounded number of polls of its
    transport, a pending call has a wakeup to come, and flushing over a
    transport that accepts bytes ends.  The witnesses of the adapter's
    theorems are here too, over a transport that fragments both ways. *)

From S2P Require Import Prelude.
From S2P Require Import Bytes.
From S2P Require Import Text.
From S2P Require Import Crates.
From S2P Require Import IpcCrates.
From S2P Require Import Async.
From S2P Require Import IpcFrame.
From S2P Require Import IpcAuth.
From S2P Require Import V6.
From S2P Require Import V6Theory.
From S2P Require Import V6Adapter.
From S2P Require Import V6AdapterTheory.
#[local] Open Scope string_scope.
#[local] Open Scope list_scope.
#[local] Open Scope Z_scope.

(** ** Counting polls *)

(** A transport that counts its polls and remembers whether the last one was
    pending (it has then kept the task's waker). *)
Record metered (S : Type) := { under : S; polls : nat; last_pending : bool }.
Arguments under {S}.
Arguments polls {S}.
Arguments last_pending {S}.

Definition is_pend {A} (r : poll A) : bool := match r with Pend _ => true | _ => false end.

Definition meter {S A} (f : S -> S * poll A) (m : metered S) : metered S * poll A :=
  let (s, r) := f (under m) in
  ({| under := s; polls := Datatypes.S (polls m); last_pending := is_pend r |}, r).

#[export] Instance metered_stream {S} `{PollStream S} : PollStream (metered S) := {|
  poll_write bs := meter (poll_write bs);
  poll_read cap := meter (poll_read cap);
  poll_shutdown := meter poll_shutdown;
|}.

Section metering.
Context {S R : Type} `{PollStream S} `{Aead} (role : Role R).
Notation Io := (V6Io (metered S) R).

(** At most [k] polls; a pending answer is the transport's own, or comes
    after the whole budget and a wakeup. *)
Definition within {A} (k : nat) (m m' : metered S) (r : poll A) : Prop :=
  (polls m <= polls m' <= polls m + k)%nat /\
  match r with
  | Pend w => last_pending m' = true \/ (w = true /\ polls m' = polls m + k)%nat
  | Ready _ => True
  end.

Lemma meter_polls {A} (f : S -> S * poll A) m m' r :
  meter f m = (m', r) -> polls m' = Datatypes.S (polls m) /\ last_pending m' = is_pend r.
Proof. unfold meter. destruct (f (under m)) as [s r1]. by intros [= <- <-]. Qed.

Lemma within_done {A} k m m' (x : A) :
  polls m' = Datatypes.S (polls m) -> (0 < k)%nat -> within k m m' (Ready x).
Proof. intros Hp Hk. split; [lia|done]. Qed.
Lemma within_stop {A} k m m' w :
  polls m' = Datatypes.S (polls m) -> last_pending m' = true -> (0 < k)%nat ->
  within (A := A) k m m' (Pend w).
Proof. intros Hp Hl Hk. split; [lia|by left]. Qed.
Lemma within_next {A} k m m' m'' (r : poll A) :
  polls m' = Datatypes.S (polls m) -> within k m' m'' r -> within (Datatypes.S k) m m'' r.
Proof.
  intros Hp [Hk Hr]. split; [lia|]. destruct r as [x|w]; [done|].
  destruct Hr as [?|[? ?]]; [by left|right; split; [done|lia]].
Qed.

Ltac metered_poll Hp :=
  match goal with
  | |- context [meter ?f ?m] => destruct (meter f m) as [? [[?|?]|?]] eqn:Hp
  end;
  apply meter_polls in Hp; cbn [is_pend] in Hp; destruct Hp as [Hp ?].

Ltac metered_end := intros [= <- <- <- <-]; first
  [by apply within_done; [|lia] | by apply within_stop; [..|lia]].

Lemma poll_send_parts_within left (m : metered S) h b m' h' b' r :
  poll_send_parts left m h b = (m', h', b', r) -> within left m m' r.
Proof.
  revert m h b; induction left as [|left IH]; intros m h b.
  { destruct h, b; cbn; intros [= <- <- <- <-]; (split; [lia|first [done|by right; split; [|lia]]]). }
  cbn [poll_send_parts poll_write metered_stream].
  destruct h as [[hs off]|].
  - metered_poll Hp; [|metered_end..]. destruct (_ =? 0); [metered_end|].
    destruct (_ <? 4); intros Hr; apply IH in Hr; by eapply within_next.
  - destruct b as [[bs off]|]; [|intros [= <- <- <- <-]; split; [lia|done]].
    metered_poll Hp; [|metered_end..]. destruct (_ =? 0); [metered_end|].
    destruct (_ <? _); [|metered_end]. intros Hr; apply IH in Hr. by eapply within_next.
Qed.

Lemma arm_send_stream (io io' : Io) r : arm_send role io = (io', r) -> stream io' = stream io.
Proof.
  unfold arm_send. destruct (_ || _); [by intros [= <- _]|].
  destruct (is_empty _); [by intros [= <- _]|].
  destruct (_ <? _); [by intros [= <- _]|]. destruct (_ && _); [by intros [= <- _]|].
  destruct (negb _); [by intros [= <- _]|].
  destruct (encrypt_frame _ _ _) as [st [c|e]]; [|by intros [= <- _]].
  destruct (try_from_max _ _); by intros [= <- _].
Qed.

Lemma flush_within (io io' : Io) r :
  poll_flush_io role io = (io', r) -> within V6_ADAPTER_IO_BUDGET (stream io) (stream io') r.
Proof.
  unfold poll_flush_io. destruct (poisoned io); [intros [= <- <-]; split; [lia|done]|].
  destruct (arm_send role io) as [io1 [u|e]] eqn:Ha; apply arm_send_stream in Ha.
  - destruct (poll_send_parts _ _ _ _) as [[[s sh] sb] r1] eqn:Hs.
    apply poll_send_parts_within in Hs. rewrite Ha in Hs.
    destruct r1 as [[u1|e]|w]; by intros [= <- <-].
  - intros [= <- <-]. cbn. rewrite Ha. split; [lia|done].
Qed.

Lemma buffer_write_within (io io' : Io) buf r :
  buffer_write_io io buf = (io', r) -> stream io' = stream io /\ exists x, r = Ready x.
Proof.
  unfold buffer_write_io. destruct (checked_add _ _ _); [|intros [= <- <-]; eauto].
  destruct (_ <? _); intros [= <- <-]; eauto.
Qed.

Ltac read_end := intros [= <- <-]; cbn; first
  [by apply within_done; [|lia] | by apply within_stop; [..|lia]].

Lemma read_loop_within left n (io io' : Io) r :
  read_loop role left n io = (io', r) -> within left (stream io) (stream io') r.
Proof.
  assert (forall A k (m : metered S) (x : A), within k m m (Ready x)) as Hsame.
  { intros. split; [lia|done]. }
  revert io; induction left as [|left IH]; intros io; cbn [read_loop poll_read metered_stream].
  - destruct (_ <? _); unfold serve; [destruct (_ <=? _); intros [= <- <-]; apply Hsame|].
    intros [= <- <-]. split; [lia|right; split; [done|lia]].
  - destruct (_ <? _); unfold serve; [destruct (_ <=? _); intros [= <- <-]; apply Hsame|].
    destruct (match recv_header io, recv_body io with None, None => _ | h, _ => h end)
      as [[bs off]|] eqn:Hh.
    + metered_poll Hp; [|read_end..].
      destruct (zlen _ =? 0); [destruct (off =? 0); read_end|].
      destruct (_ <? 4); [intros Hr; apply IH in Hr; by eapply within_next|].
      destruct (validate_ciphertext_frame_len _); [|read_end].
      intros Hr; apply IH in Hr; by eapply within_next.
    + destruct (recv_body io) as [[bs off]|] eqn:Hb; [|by destruct (recv_header io)].
      metered_poll Hp; [|read_end..]. destruct (zlen _ =? 0); [read_end|].
      destruct (_ <? _); [intros Hr; apply IH in Hr; by eapply within_next|].
      unfold finish_record. destruct (open_one _ _ _) as [st [p|e]]; [|read_end].
      destruct (root_ok_for_recv _ _ _) as [rt [|]]; [|read_end].
      intros Hr; apply IH in Hr; by eapply within_next.
Qed.

(** No call blocks the task or loses a wakeup.  A read, write or flush
    polls the transport at most 64 times (a shutdown once more), and when it
    is pending either the transport's own last poll was pending, and it will
    wake the task, or the whole budget was used and the adapter has woken the
    task itself. *)
Theorem adapter_poll_is_bounded (io : Io) :
  (forall buf io' r, poll_write_io role io buf = (io', r) -> within 64 (stream io) (stream io') r) /\
  (forall io' r, poll_flush_io role io = (io', r) -> within 64 (stream io) (stream io') r) /\
  (forall n io' r, poll_read_io role io n = (io', r) -> within 64 (stream io) (stream io') r) /\
  (forall io' r, poll_shutdown_io role io = (io', r) ->
     (polls (stream io') <= polls (stream io) + 65)%nat /\
     forall w, r = Pend w ->
       last_pending (stream io') = true \/ (w = true /\ polls (stream io') = polls (stream io) + 64)%nat).
Proof.
  split_and!.
  - intros buf io' r. unfold poll_write_io.
    destruct (poisoned io); [intros [= <- <-]; split; [lia|done]|].
    destruct (_ || _).
    + destruct (poll_flush_io role io) as [io1 [[u|e]|w]] eqn:Hf; apply flush_within in Hf;
        [|by intros [= <- <-]..].
      intros Hb. apply buffer_write_within in Hb as [-> [x ->]]. split; [apply Hf|done].
    + intros Hb. apply buffer_write_within in Hb as [-> [x ->]]. split; [lia|done].
  - apply flush_within.
  - intros n io' r. unfold poll_read_io.
    destruct (poisoned io); [intros [= <- <-]; split; [lia|done]|]. apply read_loop_within.
  - intros io' r. unfold poll_shutdown_io.
    destruct (poll_flush_io role io) as [io1 [[u|e]|w]] eqn:Hf; apply flush_within in Hf as [Hk Hw];
      unfold V6_ADAPTER_IO_BUDGET in *.
    + cbn [poll_shutdown metered_stream].
      destruct (meter poll_shutdown (stream io1)) as [m r1] eqn:Hp. apply meter_polls in Hp as [Hp Hl].
      destruct r1 as [[u1|e]|w]; intros [= <- <-]; cbn; (split; [lia|]); try done.
      intros w' [= <-]. by left.
    + intros [= <- <-]. split; [lia|done].
    + intros [= <- <-]. split; [lia|]. intros w' [= <-]. exact Hw.
Qed.
End metering.

(** ** Draining *)

(** Poll a flush again while it is pending, at most [k] more times. *)
Fixpoint flush_until {S R} `{PollStream S} `{Aead} (role : Role R) (k : nat) (io : V6Io S R)
  : V6Io S R * option (result string unit) :=
  match poll_flush_io role io with
  | (io', Ready r) => (io', Some r)
  | (io', Pend _) =>
      match k with
      | O => (io', None)
      | Datatypes.S k' => flush_until role k' io'
      end
  end.

Section draining.
Context {S R : Type} `{PollStream S, !PollLaws S} `{Aead, !AeadLaws} (role : Role R).

(** A transport that accepts at least one byte of a non-empty write. *)
Definition willing : Prop :=
  forall bs s, bs <> [] -> exists s' n, poll_write bs s = (s', Ready (Ok n)) /\ 0 < n.

(** Nothing armed, or both parts with bytes left. *)
Definition armed (h b : option (bytes * Z)) : Prop :=
  match h, b with
  | None, None => True
  | Some (hs, off), Some (bs, boff) => zlen hs = 4 /\ 0 <= off < 4 /\ boff = 0 /\ 0 < zlen bs
  | None, Some (bs, off) => 0 <= off < zlen bs
  | Some _, None => False
  end.

Lemma armed_shape h b : armed h b -> send_shape h b.
Proof. destruct h as [[]|], b as [[]|]; cbn; try done; lia. Qed.

Lemma from_offset_ne (bs : bytes) off : 0 <= off < zlen bs -> from_offset (bs, off) <> [].
Proof.
  intros Ho E. apply (f_equal zlen) in E. rewrite zlen_from_offset in E by lia.
  unfold zlen at 2 in E. cbn in E. lia.
Qed.

Context (Hwilling : willing).

Lemma willing_write (bs : bytes) off s : 0 <= off < zlen bs ->
  exists s' n, poll_write (from_offset (bs, off)) s = (s', Ready (Ok n)) /\
               0 < n <= zlen bs - off.
Proof.
  intros Ho. destruct (Hwilling _ s (from_offset_ne _ _ Ho)) as (s' & n & Hw & Hn).
  exists s', n. split; [done|]. apply poll_write_spec in Hw as [_ [Hb _]].
  rewrite zlen_from_offset in Hb by lia. lia.
Qed.

(** Either everything is sent, or the whole budget was used, one byte each at
    least. *)
Lemma drain_parts left s h b :
  armed h b -> exists s' h' b' r, poll_send_parts left s h b = (s', h', b', r) /\ armed h' b' /\
  ((r = Ready (Ok tt) /\ h' = None /\ b' = None) \/
   (r = Pend true /\ zlen (unsent h' b') + Z.of_nat left <= zlen (unsent h b) /\
    is_some b' = true)).
Proof.
  revert s h b; induction left as [|left IH]; intros s h b Ha.
  { cbn. destruct h as [[hs off]|], b as [[bs boff]|]; try done; do 4 eexists;
      (split_and!; [done|exact Ha|]); first [by left|right; split_and!; [done|lia|done]]. }
  cbn [poll_send_parts]. destruct h as [[hs off]|], b as [[bs boff]|]; try done.
  - destruct Ha as (Hh & Ho & -> & Hb).
    destruct (willing_write hs off s) as (s1 & n & -> & Hn); [lia|].
    destruct (Z.eqb_spec n 0); [lia|].
    assert (forall h', armed h' (Some (bs, 0)) ->
      zlen (unsent h' (Some (bs, 0))) + 1 <= zlen (unsent (Some (hs, off)) (Some (bs, 0))) ->
      exists s' h'' b' r, poll_send_parts left s1 h' (Some (bs, 0)) = (s', h'', b', r) /\
        armed h'' b' /\
        ((r = Ready (Ok tt) /\ h'' = None /\ b' = None) \/
         (r = Pend true /\ zlen (unsent h'' b') + Z.of_nat (Datatypes.S left) <=
            zlen (unsent (Some (hs, off)) (Some (bs, 0))) /\ is_some b' = true))) as Hgo.
    { intros h' Ha' Hl. destruct (IH s1 h' _ Ha') as (s' & h'' & b' & r & Hr & Ha'' & Hor).
      exists s', h'', b', r. split_and!; [done..|].
      destruct Hor as [?|(? & ? & ?)]; [by left|right; split_and!; [done|lia|done]]. }
    destruct (Z.ltb_spec (off + n) 4); apply Hgo.
    + cbn. repeat split; lia.
    + unfold unsent. rewrite !zlen_app, !(zlen_from_offset hs) by lia. lia.
    + cbn. lia.
    + unfold unsent. cbn [app]. rewrite zlen_app, (zlen_from_offset hs) by lia. lia.
  - cbn in Ha. destruct (willing_write bs boff s) as (s1 & n & -> & Hn); [lia|].
    destruct (Z.eqb_spec n 0); [lia|]. destruct (Z.ltb_spec (boff + n) (zlen bs)).
    + destruct (IH s1 None (Some (bs, boff + n))) as (s' & h' & b' & r & Hr & Ha' & Hor);
        [cbn; lia|].
      exists s', h', b', r. split_and!; [done..|].
      destruct Hor as [?|(? & Hl & ?)]; [by left|right; split_and!; [done| |done]].
      unfold unsent in Hl |- *. cbn [app] in *.
      rewrite zlen_from_offset in Hl |- * by lia.
      rewrite zlen_app in Hl |- *. lia.
    + do 4 eexists. split_and!; [done|exact I|by left].
  - do 4 eexists. split_and!; [done|exact I|by left].
Qed.
Lemma flush_armed io :
  poisoned io = false -> is_some (send_body io) = true ->
  armed (send_header io) (send_body io) ->
  exists io' r, poll_flush_io role io = (io', r) /\ poisoned io' = false /\
    write_buf io' = write_buf io /\
    armed (send_header io') (send_body io') /\
    accepted (stream io') ++ unsent (send_header io') (send_body io') =
      accepted (stream io) ++ unsent (send_header io) (send_body io) /\
    ((r = Ready (Ok tt) /\ send_header io' = None /\ send_body io' = None) \/
     (r = Pend true /\ is_some (send_body io') = true /\
      zlen (unsent (send_header io') (send_body io')) + 64 <=
        zlen (unsent (send_header io) (send_body io)))).
Proof.
  intros Hp Hb Ha. unfold poll_flush_io, arm_send. rewrite Hp, Hb, orb_true_r.
  destruct (drain_parts V6_ADAPTER_IO_BUDGET (stream io) _ _ Ha)
    as (s' & h' & b' & r & Hr & Ha' & Hor). rewrite Hr.
  apply poll_send_parts_spec in Hr as (_ & _ & Hacc & _); [|by apply armed_shape].
  destruct Hor as [(-> & -> & ->)|(-> & Hl & Hb')]; do 2 eexists;
    (split_and!; [reflexivity|done|done|done|exact Hacc|]); cbn.
  - by left.
  - right. split_and!; [done|done|exact Hl].
Qed.

Lemma flush_until_drains k io :
  poisoned io = false -> is_some (send_body io) = true ->
  armed (send_header io) (send_body io) ->
  zlen (unsent (send_header io) (send_body io)) <= 64 * Z.of_nat k + 63 ->
  exists io', flush_until role k io = (io', Some (Ok tt)) /\ poisoned io' = false /\
    accepted (stream io') = accepted (stream io) ++ unsent (send_header io) (send_body io) /\
    write_buf io' = write_buf io /\ send_header io' = None /\ send_body io' = None.
Proof.
  revert io; induction k as [|k IH]; intros io Hp Hb Ha Hl;
    destruct (flush_armed io Hp Hb Ha) as (io1 & r & Hf & Hp1 & Hw1 & Ha1 & Hacc & Hor);
    cbn [flush_until]; rewrite Hf; destruct Hor as [(-> & Hh & Hb1)|(-> & Hb1 & Hl1)].
  1,3: rewrite Hh, Hb1 in Hacc; unfold unsent at 1 in Hacc; rewrite !app_nil_r in Hacc; by exists io1.
  - pose proof (zlen_nonneg (unsent (send_header io1) (send_body io1))). lia.
  - destruct (IH io1) as (io' & Hu & Hp' & Hacc' & Hw' & Hn & Hn'); [done..|lia|].
    exists io'. rewrite Hacc', Hacc, Hw', Hw1. by split_and!.
Qed.

(** Flushing ends.  When the buffered frame is accepted for sending (it is
    well formed, it is the committed root request if it is the first one, and
    the counter is not exhausted) and the transport takes at least a byte at
    each write, then polling the flush again while it is pending completes
    after at most one more poll per 64 bytes of the record, with the whole
    sealed record on the wire and nothing left in the adapter. *)
Theorem flush_completes io io1 :
  poisoned io = false -> send_header io = None -> send_body io = None -> write_buf io <> [] ->
  arm_send role io = (io1, Ok tt) ->
  exists io' c,
    flush_until role (Z.to_nat ((zlen (write_buf io) + 20) / 64)) io = (io', Some (Ok tt)) /\
    sealed (state io) (dir_send role) (send_counter (dir_cipher (dir_send role) (state io)))
      (write_buf io) c /\
    accepted (stream io') = accepted (stream io) ++ framed c /\
    poisoned io' = false /\ write_buf io' = [] /\ send_header io' = None /\ send_body io' = None.
Proof.
  intros Hp Hh Hb Hne. unfold arm_send. rewrite Hh, Hb. cbn [is_some orb].
  destruct (is_empty (write_buf io)) eqn:He; [by apply is_empty_true in He|].
  destruct (_ <? zlen (write_buf io)) eqn:H1'; [done|].
  destruct ((_ <=? _) && _) eqn:H2'; [done|]. destruct (negb (root_ok_for_send _ _ _)) eqn:H3'; [done|].
  destruct (encrypt_frame _ _ _) as [st [c|e]] eqn:Hen; [|done].
  destruct (try_from_max _ _) as [len|] eqn:Hl; [|done]. intros [= <-].
  set (io1 := with_send io (stream io) st (note_root_sent role (root io)) []
                (Some (be32 len, 0)) (Some (c, 0))).
  assert (poll_flush_io role io = poll_flush_io role io1) as Heq.
  { unfold poll_flush_io, arm_send. rewrite Hh, Hb, Hp. cbn [is_some orb].
    rewrite He, H1', H2', H3', Hen, Hl. cbn [poisoned io1 with_send send_header send_body is_some orb].
    by rewrite Hp. }
  assert (forall k, flush_until role k io = flush_until role k io1) as Hall.
  { intros k. destruct k; cbn [flush_until]; by rewrite Heq. }
  apply try_from_max_some in Hl as [-> Hlen]. apply encrypt_frame_ok in Hen as (_ & _ & _ & Hs & _).
  pose proof (aead_encrypt_length _ _ _ _ _ Hs) as Hcl. pose proof (zlen_nonneg (write_buf io)).
  assert (unsent (Some (be32 (zlen c), 0)) (Some (c, 0)) = framed c) as Hun.
  { unfold unsent, from_offset, framed. done. }
  assert (zlen (be32 (zlen c)) = 4) as Hb4 by apply zlen_be_bytes.
  destruct (flush_until_drains (Z.to_nat ((zlen (write_buf io) + 20) / 64)) io1)
    as (io' & Hu & Hp' & Hacc & Hw & Hn1 & Hn2).
  { exact Hp. }
  { done. }
  { cbn [io1 with_send send_header send_body armed]. split_and!; [exact Hb4|lia|lia|done|lia]. }
  { cbn [io1 with_send send_header send_body]. rewrite Hun. unfold framed. rewrite zlen_app, Hb4.
    rewrite Z2Nat.id by (apply Z.div_pos; lia).
    pose proof (Z.div_mod (zlen (write_buf io) + 20) 64 ltac:(lia)).
    pose proof (Z.mod_pos_bound (zlen (write_buf io) + 20) 64 ltac:(lia)). lia. }
  exists io', c. rewrite Hall, Hu. cbn [io1 with_send send_header send_body stream] in Hacc.
  rewrite Hun in Hacc. by split_and!.
Qed.
End draining.

(** ** Runs *)
Module V6AdapterRuns.
Import StandIn IpcStandIn FrameStandIn IpcAuthRuns V6Runs.

(** A transport that takes three bytes at a time and delivers five, and is
    pending at every other read. *)
Record pipe := { inbox : bytes; outbox : bytes; ready : bool }.
#[export] Instance pipe_stream : PollStream pipe := {|
  poll_write bs p :=
    ({| inbox := inbox p; outbox := outbox p ++ take 3 bs; ready := ready p |},
     Ready (Ok (Z.min 3 (zlen bs))));
  poll_read cap p :=
    if ready p && (0 <=? cap)
    then let n := Z.to_nat (Z.min 5 cap) in
         ({| inbox := drop n (inbox p); outbox := outbox p; ready := false |},
          Ready (Ok (take n (inbox p))))
    else ({| inbox := inbox p; outbox := outbox p; ready := true |}, Pend false);
  poll_shutdown p := (p, Ready (Ok tt));
|}.

#[export] Instance pipe_laws : PollLaws pipe.
Proof.
  refine {| accepted := outbox; to_deliver := inbox |}; cbn.
  - intros bs s s' r [= <- <-]. cbn. pose proof (zlen_nonneg bs). split; [done|]. split; [lia|].
    f_equal. destruct (Z.min_spec 3 (zlen bs)) as [[? ->]|[? ->]]; [done|].
    unfold zlen in *. rewrite !take_ge; [done|lia..].
  - intros cap s s' r. destruct (ready s && _) eqn:Hc; intros [= <- <-]; cbn; [|done].
    split; [done|]. split; [|by rewrite take_drop].
    apply andb_true_iff in Hc as [_ Hc%Z.leb_le]. unfold zlen. rewrite length_take. lia.
  - intros s s' r [= <- <-]. done.
Defined.

Lemma pipe_willing : willing (S := pipe).
Proof.
  intros bs s Hne. cbn. do 2 eexists. split; [reflexivity|].
  destruct bs; [done|]. rewrite zlen_cons. pose proof (zlen_nonneg bs). lia.
Qed.

Definition quiet : pipe := {| inbox := []; outbox := []; ready := true |}.
Definition server_root : ServerRoot := {| sr_prelude := prelude; sr_root_received := true |}.
Definition client_root : ClientRoot :=
  {| cr_root_request_hash := root_request_hash prelude; cr_root_sent := true |}.

(** What the server writes: two frames, the second one left in the buffer. *)
Definition server_ops : list op :=
  [OWrite (framed (rs "hello")); OFlush; OWrite (framed (rs "!")); OShutdown; OWrite (rs "..")].
Definition server_end : V6Io pipe ServerRoot * bytes * bytes := Eval vm_compute in
  run server_role server_ops (io_new quiet fresh server_root).
Definition to_client : pipe := {| inbox := outbox (V6Adapter.stream server_end.1.1); outbox := []; ready := true |}.
Definition client_ops : list op := replicate 40 (ORead 4).
Definition client_end : V6Io pipe ClientRoot * bytes * bytes := Eval vm_compute in
  run client_role client_ops (io_new to_client fresh client_root).

Example client_reads : client_end.2 = framed (rs "hello") ++ framed (rs "!").
Proof. vm_compute. reflexivity. Qed.

Lemma adapters_connect_witness : client_end.2 `prefix_of` server_end.1.2.
Proof.
  apply (adapters_connect server_role client_role server_ops quiet fresh server_root
    server_end.1.1 server_end.1.2 server_end.2 client_ops to_client fresh client_root
    client_end.1.1 client_end.1.2 client_end.2).
  - reflexivity.
  - repeat split.
  - reflexivity.
  - repeat constructor.
  - apply Forall_replicate. vm_compute. discriminate.
  - reflexivity.
  - vm_compute. reflexivity.
  - vm_compute. reflexivity.
  - exists []. vm_compute. reflexivity.
Defined.

Lemma adapter_carries_the_stream_witness :
  poisoned server_end.1.1 = false /\
  exists pts cts, sealed_records server_role fresh pts cts /\
    accepted (V6Adapter.stream server_end.1.1) ++
      unsent (send_header server_end.1.1) (send_body server_end.1.1) = [] ++ concat (map framed cts) /\
    server_end.1.2 = concat pts ++ rs "..".
Proof.
  split; [reflexivity|].
  destruct (adapter_carries_the_stream server_role server_ops quiet fresh server_root
    server_end.1.1 server_end.1.2 server_end.2) as [(pts & cts & Hr & _ & _ & He) _].
  - repeat constructor.
  - vm_compute. reflexivity.
  - destruct He as [H1 H2]; [reflexivity|]. exists pts, cts. split; [exact Hr|]. split; [exact H1|].
    exact H2.
Defined.

(** A header that announces an empty record. *)
Definition bad_header : V6Io pipe ClientRoot :=
  io_new {| inbox := replicate 4 x00; outbox := []; ready := true |} fresh client_root.

Lemma adapter_error_is_final_witness :
  exists io', cleared io' /\ step client_role (ORead 8) bad_header = (io', true, [], []) /\
    step client_role (OWrite (rs "x")) io' = (io', true, [], []).
Proof.
  destruct (adapter_error_is_final client_role (ORead 8) bad_header
    (step client_role (ORead 8) bad_header).1.1.1 [] []) as (Hc & _ & _ & _ & Hall).
  - discriminate.
  - vm_compute. reflexivity.
  - eexists. split; [exact Hc|]. split; [vm_compute; reflexivity|]. apply Hall.
Defined.

(** Two hundred bytes in a single frame: one poll is not enough. *)
Definition long_text : bytes := Eval vm_compute in framed (replicate 200 "x"%byte).
Definition loaded : V6Io pipe ServerRoot :=
  (buffer_write_io (io_new quiet fresh server_root) long_text).1.

Lemma flush_completes_witness :
  is_pend (poll_flush_io server_role loaded).2 = true /\
  exists io' c,
    flush_until server_role (Z.to_nat ((zlen (write_buf loaded) + 20) / 64)) loaded =
      (io', Some (Ok tt)) /\
    accepted (V6Adapter.stream io') = [] ++ framed c /\ write_buf io' = [].
Proof.
  split; [vm_compute; reflexivity|].
  destruct (flush_completes server_role pipe_willing loaded (arm_send server_role loaded).1)
    as (io' & c & Hf & _ & Ha & _ & Hw & _).
  - reflexivity.
  - reflexivity.
  - reflexivity.
  - discriminate.
  - vm_compute. reflexivity.
  - exists io', c. split; [exact Hf|]. split; [exact Ha|exact Hw].
Defined.
End V6AdapterRuns.
