(* ===== verification/Grant.v ===== *)
(** * serctl_protocol::grant: operation grants

    crates/serctl_protocol/src/grant.rs: what a grant is, how it is issued and
    revalidated, and the agent's proof of possession.  A [Duration] is its
    number of nanoseconds; the random grant id is an argument. *)

From S2P Require Import Prelude.
From S2P Require Import Bytes.
From S2P Require Import Text.
From S2P Require Import Crates.
From S2P Require Import IpcCrates.
From S2P Require Import IpcFrame.
From S2P Require Import V6.
#[local] Open Scope string_scope.
#[local] Open Scope list_scope.
#[local] Open Scope Z_scope.

(** ** Durations *)
Definition from_secs (secs : Z) : Z := secs * 1000000000.
Definition from_millis (ms : Z) : Z := ms * 1000000.
Definition as_secs (d : Z) : Z := d / 1000000000.
Definition as_millis (d : Z) : Z := d / 1000000.
Definition subsec_nanos (d : Z) : Z := d mod 1000000000.
Definition is_multiple_of (n k : Z) : bool := n mod k =? 0.

Definition GRANT_DEFAULT_TTL : Z := from_secs (30 * 60).
Definition GRANT_MIN_TTL : Z := from_secs 60.
Definition GRANT_MAX_TTL : Z := from_secs (40 * 60).
Definition GRANT_BUDGET_CAP : Z := 1000.
Definition GRANT_MAX_OPERATIONS : Z := 32.
Definition POP_SIGNATURE_B64_LEN : Z := 88.
Definition POP_DOMAIN : bytes := rs "serctl/ipc/v9/grant-pop/v1" ++ [x00].

(** ** Grants *)

Record GrantProfileIdentity := { gpi_profile_id : bytes; gpi_generation : Z }.

Record OperationGrant := {
  og_grant_id : bytes;
  og_profile_name : str;
  og_profile_id : bytes;
  og_profile_generation : Z;
  og_operations : list str;
  og_budget : Z;
  og_issued_unix_ms : Z;
  og_expires_unix_ms : Z;
  og_holder_key : bytes;
}.

#[export] Instance OperationGrant_eq_dec : EqDecision OperationGrant.
Proof. solve_decision. Defined.

Definition ttl_in_range (ttl : Z) : bool := (GRANT_MIN_TTL <=? ttl) && (ttl <=? GRANT_MAX_TTL).

Definition new_with_ttl (draw : bytes) (profile_name : str)
    (profile_identity : GrantProfileIdentity) (operations : list str) (budget : Z)
    (holder_key : bytes) (now_unix_ms ttl : Z) : result string OperationGrant :=
  ensure! negb (is_empty profile_name) && (zlen profile_name <=? 128)
          && negb (has_unsafe_name_char profile_name)
    or "grant profile name must satisfy the vault profile-name rules" ;;
  ensure! 0 <? gpi_generation profile_identity or "grant profile generation must be non-zero" ;;
  ensure! (1 <=? budget) && (budget <=? GRANT_BUDGET_CAP)
    or "grant budget must be between 1 and 1000" ;;
  ensure! negb (is_empty operations) && (zlen operations <=? GRANT_MAX_OPERATIONS)
    or "grant must authorize 1..=32 operation kinds" ;;
  ensure! ttl_in_range ttl or "grant TTL must be between 60 and 2400 seconds" ;;
  ensure! (subsec_nanos ttl =? 0) && is_multiple_of (as_secs ttl) 60
    or "grant TTL must use whole minutes" ;;
  let* millis := ok_or (try_from_max U64_MAX (as_millis ttl)) "grant TTL exceeds u64 millis" in
  let* expires_unix_ms := ok_or (checked_add U64_MAX now_unix_ms millis) "grant expiry overflow" in
  Ok {| og_grant_id := draw;
        og_profile_name := profile_name;
        og_profile_id := gpi_profile_id profile_identity;
        og_profile_generation := gpi_generation profile_identity;
        og_operations := operations;
        og_budget := budget;
        og_issued_unix_ms := now_unix_ms;
        og_expires_unix_ms := expires_unix_ms;
        og_holder_key := holder_key |}.

Definition grant_new (draw : bytes) (profile_name : str)
    (profile_identity : GrantProfileIdentity) (operations : list str) (budget : Z)
    (holder_key : bytes) (now_unix_ms : Z) : result string OperationGrant :=
  new_with_ttl draw profile_name profile_identity operations budget holder_key now_unix_ms
    GRANT_DEFAULT_TTL.

Definition grant_id_hex `{Hex} (g : OperationGrant) : str := hex_encode (og_grant_id g).
Definition is_expired (g : OperationGrant) (now_unix_ms : Z) : bool :=
  og_expires_unix_ms g <=? now_unix_ms.

Definition policy_ttl (g : OperationGrant) : result string Z :=
  ensure! 0 <? og_profile_generation g or "grant profile generation must be non-zero" ;;
  let* millis := ok_or (checked_sub (og_expires_unix_ms g) (og_issued_unix_ms g))
    "grant expiry precedes its issue time" in
  ensure! is_multiple_of millis 60000 or "grant TTL must use whole minutes" ;;
  let ttl := from_millis millis in
  ensure! ttl_in_range ttl or "grant TTL is outside the allowed policy range" ;;
  Ok ttl.

Definition covers (g : OperationGrant) (p : V6RequestPrelude) : bool :=
  existsb (fun kind => bool_decide (kind = operation_kind p)) (og_operations g).
Definition covers_profile (g : OperationGrant) (p : V6RequestPrelude) : bool :=
  match profile_name p with
  | Some name => bool_decide (name = og_profile_name g)
  | None => false
  end.

(** ** Proof of possession *)

Record PopPayload := {
  pop_protocol_version : Z;
  pop_client_session_id : bytes;
  pop_request_id : bytes;
  pop_operation_kind : str;
  pop_profile_id : option bytes;
  pop_profile_name : option str;
  pop_grant_id : option bytes;
  pop_profile_proof : option str;
  pop_requested_deadline_unix_ms : Z;
  pop_root_request_hash : bytes;
}.

#[export] Instance PopPayload_eq_dec : EqDecision PopPayload.
Proof. solve_decision. Defined.

Definition pop_payload (p : V6RequestPrelude) : PopPayload :=
  {| pop_protocol_version := protocol_version p;
     pop_client_session_id := client_session_id p;
     pop_request_id := request_id p;
     pop_operation_kind := operation_kind p;
     pop_profile_id := profile_id p;
     pop_profile_name := profile_name p;
     pop_grant_id := grant_id p;
     pop_profile_proof := profile_proof p;
     pop_requested_deadline_unix_ms := requested_deadline_unix_ms p;
     pop_root_request_hash := root_request_hash p |}.

Section possession.
Context `{JsonSer PopPayload, !JsonSerLaws PopPayload} `{Base64, !Base64Laws}
        `{Ed25519, !Ed25519Laws}.

Definition prelude_pop_message (p : V6RequestPrelude) : result string bytes :=
  let* encoded := ok_or (json_bytes (pop_payload p))
    "serialize grant proof-of-possession payload" in
  Ok (POP_DOMAIN ++ encoded).

Definition sign_prelude_pop (key : SigningKey) (p : V6RequestPrelude) : result string str :=
  let* message := prelude_pop_message p in
  Ok (b64_encode (ed_sign key message)).

Definition verify_prelude_pop (holder_key : bytes) (signature_b64 : str) (p : V6RequestPrelude)
  : result string unit :=
  ensure! negb (POP_SIGNATURE_B64_LEN + 16 <? zlen signature_b64)
    or "grant proof-of-possession signature is oversized" ;;
  let* decoded := ok_or (b64_decode signature_b64)
    "decode grant proof-of-possession signature" in
  ensure! zlen decoded =? 64 or "grant proof-of-possession signature must decode to 64 bytes" ;;
  ensure! ed_key_valid holder_key or "grant holder key is invalid" ;;
  let* message := prelude_pop_message p in
  ensure! ed_verify holder_key message decoded or "grant proof-of-possession verification failed" ;;
  Ok tt.

(** ** Proof of possession: theorems *)

Lemma pop_message_ok p m : prelude_pop_message p = Ok m <->
  exists bs, json_bytes (pop_payload p) = Some bs /\ m = POP_DOMAIN ++ bs.
Proof.
  unfold prelude_pop_message. rewrite rbind_ok. setoid_rewrite ok_or_ok. naive_solver.
Qed.

Lemma pop_message_inj p q m : prelude_pop_message p = Ok m -> prelude_pop_message q = Ok m ->
  pop_payload p = pop_payload q.
Proof.
  intros (b & Hb & ->)%pop_message_ok (b' & Hb' & E)%pop_message_ok.
  apply app_inv_head in E as <-. by eapply json_bytes_inj.
Qed.

Lemma verify_pop_ok holder s p : verify_prelude_pop holder s p = Ok tt <->
  zlen s <= POP_SIGNATURE_B64_LEN + 16 /\
  exists sig m, b64_decode s = Some sig /\ zlen sig = 64 /\ ed_key_valid holder = true /\
    prelude_pop_message p = Ok m /\ ed_verify holder m sig = true.
Proof.
  unfold verify_prelude_pop. split.
  - intros Hv. checks. eauto 10.
  - intros (Hl & sig & m & Hd & Hs & Hk & Hm & Hv).
    rewrite ensure_pass by (by rewrite negb_true_iff, Z.ltb_ge).
    rewrite Hd. cbn [ok_or rbind]. rewrite Hs, Hk, Hm. cbn. by rewrite Hv.
Qed.

(** A signature made for one message that verifies for another. *)
Definition ed_forgery (key : SigningKey) (m m' : bytes) : Prop :=
  m <> m' /\ ed_verify (verifying_key key) m' (ed_sign key m) = true.

(** A proof of possession verifies under the holder's key for the prelude
    it was made for, and for another prelude only if every field but the
    signature itself (version, session, request, kind, profile, grant, call
    proof, deadline, request hash) is the same, unless Ed25519 is forged. *)
Theorem pop_binds_prelude key p s m :
  sign_prelude_pop key p = Ok s -> prelude_pop_message p = Ok m ->
  verify_prelude_pop (verifying_key key) s p = Ok tt /\
  (forall q mq, prelude_pop_message q = Ok mq ->
     verify_prelude_pop (verifying_key key) s q = Ok tt ->
     pop_payload q = pop_payload p \/ ed_forgery key m mq).
Proof.
  intros Hs Hm. unfold sign_prelude_pop in Hs. rewrite Hm in Hs. cbn in Hs. injection Hs as <-.
  split_and!.
  - apply verify_pop_ok. split.
    + rewrite b64_encode_length. unfold zlen. rewrite ed_sign_length. done.
    + exists (ed_sign key m), m. rewrite b64_decode_encode. unfold zlen.
      rewrite ed_sign_length, verifying_key_valid, ed_verify_sign. by split_and!.
  - intros q mq Hq (_ & sig & mq' & Hd & _ & _ & Hq' & Hv)%verify_pop_ok.
    rewrite b64_decode_encode in Hd. injection Hd as <-. rewrite Hq in Hq'. injection Hq' as <-.
    destruct (decide (m = mq)) as [<-|Hne]; [left|right; by split].
    by eapply pop_message_inj.
Qed.
End possession.

(** ** Issuance and lifetime *)

(** The limits every grant keeps: one to forty whole minutes, one to a
    thousand operations of at most 32 kinds. *)
Definition grant_minutes (g : OperationGrant) (m : Z) : Prop :=
  1 <= m <= 40 /\ og_expires_unix_ms g = og_issued_unix_ms g + 60000 * m.
Definition grant_wf (g : OperationGrant) : Prop :=
  0 < og_profile_generation g /\ 1 <= og_budget g <= GRANT_BUDGET_CAP /\
  1 <= zlen (og_operations g) <= GRANT_MAX_OPERATIONS /\
  1 <= zlen (og_profile_name g) <= 128 /\ has_unsafe_name_char (og_profile_name g) = false /\
  exists m, grant_minutes g m.

Lemma zlen_pos {A} (l : list A) : l <> [] -> 1 <= zlen l.
Proof. destruct l; [done|]. rewrite zlen_cons. pose proof (zlen_nonneg l). lia. Qed.

Lemma whole_minutes ttl :
  ttl_in_range ttl = true -> subsec_nanos ttl = 0 -> is_multiple_of (as_secs ttl) 60 = true ->
  exists m, 1 <= m <= 40 /\ ttl = from_secs (60 * m) /\ as_millis ttl = 60000 * m.
Proof.
  unfold ttl_in_range, subsec_nanos, is_multiple_of, as_secs, as_millis, from_secs,
    GRANT_MIN_TTL, GRANT_MAX_TTL, from_secs.
  rewrite andb_true_iff, !Z.leb_le, Z.eqb_eq. intros Hr Hn Hs.
  pose proof (Z.div_mod ttl 1000000000 ltac:(lia)) as H1.
  pose proof (Z.div_mod (ttl / 1000000000) 60 ltac:(lia)) as H2.
  exists (ttl / 1000000000 / 60). split; [lia|]. split; [lia|].
  symmetry. apply Z.div_unique with 0; lia.
Qed.

Lemma policy_ttl_ok g ttl : policy_ttl g = Ok ttl <->
  0 < og_profile_generation g /\ exists m, grant_minutes g m /\ ttl = from_secs (60 * m).
Proof.
  unfold policy_ttl, grant_minutes. split.
  - intros Hp. checks. apply checked_sub_some in Hr0 as [-> Hle].
    unfold is_multiple_of in *. checks. split; [done|].
    unfold ttl_in_range, from_millis, GRANT_MIN_TTL, GRANT_MAX_TTL, from_secs in *. checks.
    set (d := og_expires_unix_ms g - og_issued_unix_ms g) in *.
    pose proof (Z.div_mod d 60000 ltac:(lia)). exists (d / 60000). lia.
  - intros (Hg & m & (Hm & He) & ->). rewrite ensure_pass by (by apply Z.ltb_lt).
    rewrite (rbind_pass _ _ (60000 * m)) by (apply ok_or_ok, checked_sub_some; lia).
    rewrite ensure_pass.
    2:{ unfold is_multiple_of. apply Z.eqb_eq. rewrite Z.mul_comm. by apply Z.mod_mul. }
    cbv zeta. rewrite ensure_pass.
    2:{ unfold ttl_in_range, from_millis, GRANT_MIN_TTL, GRANT_MAX_TTL, from_secs.
        rewrite andb_true_iff, !Z.leb_le. lia. }
    f_equal. unfold from_millis, from_secs. lia.
Qed.

(** What a grant can be issued for, and what it then is. *)
Lemma new_with_ttl_ok draw name pid ops budget key now ttl g :
  new_with_ttl draw name pid ops budget key now ttl = Ok g ->
  grant_wf g /\ policy_ttl g = Ok ttl /\
  og_grant_id g = draw /\ og_profile_name g = name /\ og_profile_id g = gpi_profile_id pid /\
  og_profile_generation g = gpi_generation pid /\ og_operations g = ops /\
  og_budget g = budget /\ og_holder_key g = key /\ og_issued_unix_ms g = now /\
  og_expires_unix_ms g <= U64_MAX.
Proof.
  unfold new_with_ttl. intros Hn. checks.
  edestruct (whole_minutes ttl) as (m & Hm & Ht & Hms); [done..|].
  repeat match goal with
  | H : try_from_max _ _ = Some _ |- _ => apply try_from_max_some in H as [-> ?]
  | H : checked_add _ _ _ = Some _ |- _ => apply checked_add_some in H as [-> ?]
  | H : _ <> [] |- _ => apply zlen_pos in H
  end.
  rewrite Hms in *. rewrite policy_ttl_ok. unfold grant_wf, grant_minutes. cbn.
  split_and!; try done; eauto.
Qed.

(** A grant is issued exactly for a profile name of the allowed form, a
    non-zero generation, a budget of 1 to 1000, 1 to 32 operation kinds and a
    lifetime of 1 to 40 whole minutes that ends within the clock's range.  The
    issued grant passes revalidation with that very lifetime, and it expires
    exactly when the lifetime has passed. *)
Theorem grant_issuance_exact draw name pid ops budget key now ttl :
  let issued := new_with_ttl draw name pid ops budget key now ttl in
  (is_ok issued = true <->
   1 <= zlen name <= 128 /\ has_unsafe_name_char name = false /\ 0 < gpi_generation pid /\
   1 <= budget <= GRANT_BUDGET_CAP /\ 1 <= zlen ops <= GRANT_MAX_OPERATIONS /\
   exists m, 1 <= m <= 40 /\ ttl = from_secs (60 * m) /\ now + 60000 * m <= U64_MAX) /\
  forall g, issued = Ok g ->
    policy_ttl g = Ok ttl /\ forall t, is_expired g t = (now + as_millis ttl <=? t).
Proof.
  intros issued. unfold issued. split; [split|].
  - intros [g Hg]%is_ok_ok. apply new_with_ttl_ok in Hg
      as ((? & ? & ? & ? & ? & m & Hm & He) & Hp & _ & <- & _ & <- & <- & <- & _ & <- & Hmax).
    apply policy_ttl_ok in Hp as (_ & m' & (Hm' & He') & ->).
    split_and!; try lia; try done. exists m'. split_and!; try lia; done.
  - intros (Hn & Hc & Hg & Hb & Ho & m & Hm & -> & Hmax). unfold new_with_ttl.
    assert (as_millis (from_secs (60 * m)) = 60000 * m) as Hms.
    { unfold as_millis, from_secs. symmetry. apply Z.div_unique with 0; lia. }
    assert (as_secs (from_secs (60 * m)) = 60 * m) as Hsecs.
    { unfold as_secs, from_secs. apply Z.div_mul. lia. }
    assert (subsec_nanos (from_secs (60 * m)) = 0) as Hnanos.
    { unfold subsec_nanos, from_secs. apply Z.mod_mul. lia. }
    assert (is_empty name = false /\ is_empty ops = false) as [Hne Hoe].
    { split; apply is_empty_false; intros E; rewrite E, zlen_nil in *; lia. }
    rewrite ensure_pass by (rewrite Hne, Hc; cbn [negb andb]; rewrite andb_true_r; lia).
    rewrite ensure_pass by lia. rewrite ensure_pass by (unfold GRANT_BUDGET_CAP in *; lia).
    rewrite ensure_pass by (rewrite Hoe; cbn [negb andb]; unfold GRANT_MAX_OPERATIONS in *; lia).
    rewrite ensure_pass by
      (unfold ttl_in_range, GRANT_MIN_TTL, GRANT_MAX_TTL, from_secs; lia).
    rewrite ensure_pass by (rewrite Hnanos, Hsecs, Z.mul_comm; unfold is_multiple_of;
                            rewrite Z.mod_mul; done).
    rewrite Hms. unfold U64_MAX in *.
    rewrite (rbind_pass _ _ (60000 * m)) by (apply ok_or_ok, try_from_max_some; lia).
    rewrite (rbind_pass _ _ (now + 60000 * m)) by (apply ok_or_ok, checked_add_some; lia). done.
  - intros g Hg. apply new_with_ttl_ok in Hg as (_ & Hp & _ & _ & _ & _ & _ & _ & _ & Hi & _).
    split; [done|]. intros t. apply policy_ttl_ok in Hp as (_ & m & (Hm & He) & ->).
    unfold is_expired. rewrite He, Hi. f_equal. f_equal.
    unfold as_millis, from_secs. apply Z.div_unique with 0; lia.
Qed.

(** ** Runs *)
Module GrantRuns.
Import StandIn IpcStandIn.

Definition agent_prelude : V6RequestPrelude := Eval vm_compute in
  {| protocol_version := 9; client_session_id := be_bytes 16 1; request_id := be_bytes 16 2;
     operation_kind := rs "ssh.exec"; profile_id := None; profile_name := Some (rs "prod");
     grant_id := Some (be_bytes 16 7); pop_signature := None; profile_proof := None;
     requested_deadline_unix_ms := 61000; root_request_hash := be_bytes 32 3 |}.
#[export] Instance pop_json : JsonSer PopPayload :=
  table_json_ser [(pop_payload agent_prelude, rs "payload")].
#[export] Instance pop_json_laws : JsonSerLaws PopPayload.
Proof. apply table_json_ser_laws. repeat constructor; set_solver. Qed.

Definition agent_key : @SigningKey poly_ed25519 := 9.
Definition agent_signature : str := Eval vm_compute in
  match sign_prelude_pop agent_key agent_prelude with Ok s => s | Err _ => [] end.

Lemma pop_binds_prelude_witness :
  verify_prelude_pop (verifying_key agent_key) agent_signature agent_prelude = Ok tt.
Proof.
  apply (pop_binds_prelude agent_key agent_prelude agent_signature
           (POP_DOMAIN ++ rs "payload")).
  - vm_compute. reflexivity.
  - vm_compute. reflexivity.
Defined.

Definition pid0 : GrantProfileIdentity := {| gpi_profile_id := be_bytes 16 3; gpi_generation := 1 |}.
Definition grant0 : result string OperationGrant :=
  new_with_ttl (be_bytes 16 7) (rs "prod") pid0 [rs "ssh.exec"] 2 (verifying_key agent_key) 1000
    (from_secs 60).

Lemma grant_issuance_exact_witness :
  exists g, grant0 = Ok g /\ policy_ttl g = Ok (from_secs 60) /\ is_expired g 60999 = false /\
            is_expired g 61000 = true.
Proof.
  destruct grant0 as [g|e] eqn:Hg; [|vm_compute in Hg; discriminate Hg].
  destruct (proj2 (grant_issuance_exact (be_bytes 16 7) (rs "prod") pid0 [rs "ssh.exec"] 2
    (verifying_key agent_key) 1000 (from_secs 60)) g Hg) as [Hp He].
  exists g. split; [reflexivity|]. split; [exact Hp|]. rewrite !He. split; vm_compute; reflexivity.
Defined.
End GrantRuns.
