(* ===== verification/DaemonGrants.v ===== *)
(** * serctl_daemon: profile pool, grant registry and grant issuance

    crates/serctl_daemon/src/daemon.rs, ProfilePool, IdleTracker,
    GrantRegistry, GrantRecord and issue_grant.  Records and pool entries are
    shared through [Arc]s by the registry and the handlers of running
    requests: they are cells of two append-only heaps, an [Arc] is an index,
    and a record cell carries its strong count.  A record owns an idle guard;
    dropping the last [Arc] releases it.  Instants are nanoseconds; every
    function that reads a clock takes the value read.  No operation panics
    while it holds the registry lock, so the lock is never poisoned. *)

From stdpp Require Import gmap sorting.
From S2P Require Import Prelude.
From S2P Require Import Bytes.
From S2P Require Import Text.
From S2P Require Import Crates.
From S2P Require Import IpcCrates.
From S2P Require Import Async.
From S2P Require Import Ledger.
From S2P Require Import IpcFrame.
From S2P Require Import V6.
From S2P Require Import Grant.
#[local] Open Scope string_scope.
#[local] Open Scope list_scope.
#[local] Open Scope Z_scope.

Definition GRANT_REGISTRY_LIMIT : nat := 1024.
Definition GRANT_TERMINAL_TOMBSTONE_TTL : Z := from_secs 60.

(** The range of the monotonic clock: seconds of a signed 64-bit integer. *)
Definition INSTANT_MAX : Z := 2 ^ 63 * 1000000000 - 1.
Definition instant_add (t d : Z) : option Z := checked_add INSTANT_MAX t d.

Definition GRANTABLE_OPERATION_KINDS : list str :=
  [rs "ssh.exec"; rs "ssh.connection-identity"; rs "daemon.status"; rs "sftp.list";
   rs "sftp.write"; rs "transfer.read"; rs "transfer.write"; rs "transfer.status";
   rs "transfer.cancel"; rs "forward.local/open"; rs "forward.remote/open";
   rs "forward.dynamic/open"; rs "forward.status"; rs "forward.cancel"].

(** ** Data *)

Record ProfileIdentity := { id_profile_id : bytes; id_generation : Z }.
#[export] Instance ProfileIdentity_eq_dec : EqDecision ProfileIdentity.
Proof. solve_decision. Defined.

Record ProfilePoolEntry := {
  pe_identity : ProfileIdentity;
  pe_profile : str;                     (** [conn_info.profile] *)
  pe_call_key : bytes;
  pe_quarantined : bool;
  pe_expires_at : Z;
}.

Inductive GrantTerminalKind := Exhausted | Expired.
#[export] Instance GrantTerminalKind_eq_dec : EqDecision GrantTerminalKind.
Proof. solve_decision. Defined.

Record GrantTombstone := {
  ts_kind : GrantTerminalKind;
  ts_expires_at : Z;
  ts_forget_at : Z;
}.

Record GrantRecord := {
  gr_grant : OperationGrant;
  gr_entry : nat;                       (** [Arc<ProfilePoolEntry>] *)
  gr_remaining : Z;                     (** [AtomicUsize] *)
  gr_expires_at : Z;
  gr_strong : nat;                      (** strong count of its [Arc] *)
}.

Inductive GrantLookup := LookupLive (record : nat) | LookupExhausted | LookupExpired | LookupUnknown.

(** The shared state of the daemon's capability bookkeeping. *)
Record Grants := {
  pool : gmap bytes nat;
  live : gmap bytes nat;
  tombstones : gmap bytes GrantTombstone;
  records : list GrantRecord;
  entries : list ProfilePoolEntry;
  work : Z;                             (** [IdleTracker::work] *)
}.

Definition with_registry (g : Grants) (lv : gmap bytes nat) (ts : gmap bytes GrantTombstone) : Grants :=
  {| pool := pool g; live := lv; tombstones := ts; records := records g; entries := entries g;
     work := work g |}.
Definition with_records (g : Grants) (rs : list GrantRecord) (w : Z) : Grants :=
  {| pool := pool g; live := live g; tombstones := tombstones g; records := rs;
     entries := entries g; work := w |}.
Definition with_pool (g : Grants) (p : gmap bytes nat) (es : list ProfilePoolEntry) : Grants :=
  {| pool := p; live := live g; tombstones := tombstones g; records := records g; entries := es;
     work := work g |}.

Definition with_strong (r : GrantRecord) (n : nat) : GrantRecord :=
  {| gr_grant := gr_grant r; gr_entry := gr_entry r; gr_remaining := gr_remaining r;
     gr_expires_at := gr_expires_at r; gr_strong := n |}.
Definition with_remaining (r : GrantRecord) (n : Z) : GrantRecord :=
  {| gr_grant := gr_grant r; gr_entry := gr_entry r; gr_remaining := n;
     gr_expires_at := gr_expires_at r; gr_strong := gr_strong r |}.

(** ** Idle tracking and [Arc]s *)

Definition idle_acquire (g : Grants) : Grants := with_records g (records g) (work g + 1).
(** [Drop for IdleGuard] *)
Definition idle_release (g : Grants) : Grants := with_records g (records g) (work g - 1).
Definition is_idle (g : Grants) : bool := work g =? 0.

Definition arc_clone (l : nat) (g : Grants) : Grants :=
  match records g !! l with
  | Some r => with_records g (<[l := with_strong r (Datatypes.S (gr_strong r))]> (records g)) (work g)
  | None => g
  end.
(** The last drop drops the record, and its idle guard with it. *)
Definition arc_drop (l : nat) (g : Grants) : Grants :=
  match records g !! l with
  | Some r =>
      let g' := with_records g (<[l := with_strong r (pred (gr_strong r))]> (records g)) (work g) in
      if decide (gr_strong r = 1%nat) then idle_release g' else g'
  | None => g
  end.

(** ** The profile pool *)

Definition pool_entry_for (profile_id : bytes) (now : Z) (g : Grants) : Grants * option nat :=
  let expired := match pool g !! profile_id ≫= (entries g !!.) with
                 | Some e => pe_expires_at e <=? now
                 | None => false
                 end in
  let g' := if expired then with_pool g (delete profile_id (pool g)) (entries g) else g in
  (g', pool g' !! profile_id).

Definition pool_insert (profile_id : bytes) (e : ProfilePoolEntry) (g : Grants) : Grants :=
  with_pool g (<[profile_id := length (entries g)]> (pool g)) (entries g ++ [e]).

Definition pool_prune_expired (now : Z) (g : Grants) : Grants :=
  with_pool g
    (filter (fun kv => match entries g !! kv.2 with
                       | Some e => now <? pe_expires_at e
                       | None => false
                       end = true) (pool g)) (entries g).

(** ** The registry *)

Definition record_expires_at (g : Grants) (l : nat) : option Z := gr_expires_at <$> records g !! l.

(** Move a live grant to the tombstones, dropping the registry's [Arc]. *)
Definition tombstone_of (kind : GrantTerminalKind) (expires_at : Z) : GrantTombstone :=
  {| ts_kind := kind; ts_expires_at := expires_at;
     ts_forget_at := match instant_add expires_at GRANT_TERMINAL_TOMBSTONE_TTL with
                     | Some t => t
                     | None => expires_at
                     end |}.

(** One round of the expiry loop of [prune_locked]. *)
Definition expire_one (now : Z) (g : Grants) (grant_id : bytes) : Grants :=
  match live g !! grant_id with
  | Some l =>
      match record_expires_at g l with
      | Some expires_at =>
          let t := tombstone_of Expired expires_at in
          arc_drop l
            (with_registry g (delete grant_id (live g))
               (if now <? ts_forget_at t then <[grant_id := t]> (tombstones g) else tombstones g))
      | None => g
      end
  | None => g
  end.

Definition is_expired_record (now : Z) (g : Grants) (l : nat) : Prop :=
  match record_expires_at g l with Some t => t <= now | None => False end.
#[export] Instance is_expired_record_dec now g l : Decision (is_expired_record now g l).
Proof. unfold is_expired_record. destruct (record_expires_at g l); apply _. Defined.

Definition prune_locked (now : Z) (g : Grants) : Grants :=
  let g := with_registry g (live g) (filter (fun kv => now < ts_forget_at kv.2) (tombstones g)) in
  let expired_ids := (filter (fun kv => is_expired_record now g kv.2) (map_to_list (live g))).*1 in
  fold_left (expire_one now) expired_ids g.

Definition lookup (grant_id : bytes) (now : Z) (g : Grants) : Grants * GrantLookup :=
  let g := prune_locked now g in
  match live g !! grant_id with
  | Some l => (arc_clone l g, LookupLive l)
  | None =>
      (g, match tombstones g !! grant_id with
          | Some t => if bool_decide (ts_kind t = Exhausted) && (now <? ts_expires_at t)
                      then LookupExhausted else LookupExpired
          | None => LookupUnknown
          end)
  end.

(** [GrantRecord::new], the [Arc] around it included. *)
Definition record_new (grant : OperationGrant) (entry : nat) (e : ProfilePoolEntry)
    (issued_at : Z) : result string GrantRecord :=
  let* ttl := policy_ttl grant in
  ensure! bool_decide (id_profile_id (pe_identity e) = og_profile_id grant)
    or "grant profile id does not match its bound profile entry" ;;
  ensure! id_generation (pe_identity e) =? og_profile_generation grant
    or "grant profile generation does not match its bound profile entry" ;;
  ensure! bool_decide (pe_profile e = og_profile_name grant)
    or "grant profile name does not match its bound profile entry" ;;
  let* expires_at := ok_or (instant_add issued_at ttl) "grant monotonic expiry overflow" in
  Ok {| gr_grant := grant; gr_entry := entry; gr_remaining := og_budget grant;
        gr_expires_at := expires_at; gr_strong := 1 |}.

Definition insert (grant : OperationGrant) (entry : nat) (e : ProfilePoolEntry) (now : Z)
  : eff Grants string unit :=
  fun g =>
    let g := prune_locked now g in
    if negb (size (live g) + size (tombstones g) <? GRANT_REGISTRY_LIMIT)%nat
    then (g, Err "grant registry is at its capacity")
    else if is_some (live g !! og_grant_id grant) || is_some (tombstones g !! og_grant_id grant)
    then (g, Err "grant id collision")
    else
      let g := idle_acquire g in
      match record_new grant entry e now with
      | Err err => (idle_release g, Err err)
      | Ok record =>
          let g' := with_records g (records g ++ [record]) (work g) in
          (with_registry g' (<[og_grant_id grant := length (records g)]> (live g')) (tombstones g'),
           Ok tt)
      end.

Definition mark_terminal_if_same (grant_id : bytes) (expected : nat) (kind : GrantTerminalKind)
    (now : Z) (g : Grants) : Grants :=
  let g := prune_locked now g in
  if bool_decide (live g !! grant_id = Some expected) then
    match record_expires_at g expected with
    | Some expires_at =>
        arc_drop expected
          (with_registry g (delete grant_id (live g))
             (<[grant_id := tombstone_of kind expires_at]> (tombstones g)))
    | None => g
    end
  else g.

Definition grants_prune_expired (now : Z) (g : Grants) : Grants := prune_locked now g.

(** ** Grant records *)

Section records.
Context `{Sha2, Hex, JsonSer PopPayload, JsonSer ProfileProofPayload, Base64, Ed25519, HmacSha2}.

Definition validate_request (r : GrantRecord) (e : ProfilePoolEntry) (p : V6RequestPrelude)
    (now now_ms : Z) : result string unit :=
  let grant := gr_grant r in
  ensure! bool_decide (id_profile_id (pe_identity e) = og_profile_id grant)
    or "grant profile id does not match its bound profile entry" ;;
  ensure! id_generation (pe_identity e) =? og_profile_generation grant
    or "grant profile generation does not match its bound profile entry" ;;
  ensure! bool_decide (pe_profile e = og_profile_name grant)
    or "grant profile name does not match its bound profile entry" ;;
  ensure! now <? gr_expires_at r or "grant has expired" ;;
  ensure! (now_ms <? requested_deadline_unix_ms p)
          && (requested_deadline_unix_ms p <=? og_expires_unix_ms grant)
    or "requested deadline exceeds the grant expiry" ;;
  ensure! covers grant p or "grant does not authorize this operation kind" ;;
  ensure! covers_profile grant p or "grant profile mismatch" ;;
  let* signature := ok_or (pop_signature p)
    "grant prelude must carry a proof-of-possession signature" in
  try! verify_prelude_pop (og_holder_key grant) signature p ;;
  Ok tt.

Definition record_is_expired (r : GrantRecord) (now : Z) : bool := gr_expires_at r <=? now.

Definition policy_digest_message (g : OperationGrant) : bytes :=
  rs "serctl/audit/grant-policy/v1" ++ [x00] ++ og_grant_id g ++ og_profile_id g ++
  be64 (og_profile_generation g) ++ be32 (og_budget g) ++ be64 (og_issued_unix_ms g) ++
  be64 (og_expires_unix_ms g) ++
  concat (map (fun op => be64 (zlen op) ++ op) (og_operations g)).
Definition grant_policy_digest (r : GrantRecord) : str :=
  hex_encode (sha256 (policy_digest_message (gr_grant r))).

(** ** Issuing *)

(** [unique.sort(); unique.dedup()] *)
Definition str_le (a b : str) : Prop := bytes_leb a b = true.
#[export] Instance str_le_dec a b : Decision (str_le a b).
Proof. unfold str_le. apply _. Defined.
Fixpoint dedup (l : list str) : list str :=
  match l with
  | a :: l' =>
      match l' with
      | b :: _ => if decide (a = b) then dedup l' else a :: dedup l'
      | [] => [a]
      end
  | [] => []
  end.

(** [draw] is the grant id drawn, [pool_now], [wall_now] and [now] the clocks
    as [entry_for], [now_unix_ms] and [insert] read them. *)
Definition issue_grant (p : V6RequestPrelude) (f : Frame) (draw : bytes)
    (pool_now wall_now now : Z) : eff Grants string OperationGrant :=
  match f with
  | IssueGrant profile operations budget ttl_secs holder_key =>
      ensure~ bool_decide (profile_name p = Some profile)
        or "grant issuance must target the unlocked issuing profile" ;;
      let~ id := elift (ok_or (profile_id p)
        "grant issuance requires the issuing profile id") in
      let~ found := (fun g => let (g', o) := pool_entry_for id pool_now g in
                              (g', Ok (o ≫= fun l => (fun e => (l, e)) <$> entries g' !! l))) in
      let~ entry := elift (ok_or found "profile is locked: unlock it first") in
      ensure~ bool_decide (pe_profile entry.2 = profile)
        or "grant profile name does not match its profile id" ;;
      let~ proof := elift (ok_or (profile_proof p)
        "grant issuance requires a profile call proof") in
      run~ elift (verify_profile_prelude_proof (pe_call_key entry.2) proof p) ;;
      let unique := dedup (merge_sort str_le operations) in
      ensure~ negb (is_empty unique)
              && forallb (fun k => bool_decide (k ∈ GRANTABLE_OPERATION_KINDS)) unique
        or "grant contains a non-grantable or empty operation kind" ;;
      let~ key_bytes := elift (ok_or (b64_decode holder_key) "decode grant holder public key") in
      ensure~ zlen key_bytes =? 32 or "grant holder key must decode to 32 bytes" ;;
      ensure~ ed_key_valid key_bytes or "grant holder public key is invalid" ;;
      let~ grant := elift (new_with_ttl draw profile
        {| gpi_profile_id := id; gpi_generation := id_generation (pe_identity entry.2) |}
        unique budget key_bytes wall_now (from_secs ttl_secs)) in
      run~ insert grant entry.1 entry.2 now ;;
      eret grant
  | _ => efail "issue-grant operation kind without an issue-grant frame"
  end.
End records.
