(* ===== verification/DaemonGrantsTheory.v ===== *)
(** * serctl_daemon: the grant registry, theorems

    The registry's invariant under every sequence of operations, what a
    lookup answers, and what an issued grant is bound to. *)

From stdpp Require Import gmap sorting.
From S2P Require Import Prelude.
From S2P Require Import Bytes.
From S2P Require Import Text.
From S2P Require Import Crates.
From S2P Require Import IpcCrates.
From S2P Require Import Async.
From S2P Require Import Ledger.
From S2P Require Import IpcFrame.
From S2P Require Import V6.
From S2P Require Import Grant.
From S2P Require Import DaemonGrants.
#[local] Open Scope string_scope.
#[local] Open Scope list_scope.
#[local] Open Scope Z_scope.

(** ** Counting records in use *)

Definition in_use (r : GrantRecord) : bool := negb (gr_strong r =? 0)%nat.
Definition used (rs : list GrantRecord) : Z := Z.of_nat (length (List.filter in_use rs)).

Lemma used_app rs rs' : used (rs ++ rs') = used rs + used rs'.
Proof. unfold used. rewrite List.filter_app, length_app. lia. Qed.

Lemma used_insert rs l r r' :
  rs !! l = Some r ->
  used (<[l := r']> rs) + (if in_use r then 1 else 0) = used rs + (if in_use r' then 1 else 0).
Proof.
  unfold used. revert l; induction rs as [|a rs IH]; intros [|l] Hl; try done.
  - injection Hl as ->. cbn. destruct (in_use r), (in_use r'); cbn; lia.
  - change (<[Datatypes.S l := r']> (a :: rs)) with (a :: <[l := r']> rs). cbn [List.filter].
    specialize (IH l Hl). destruct (in_use a), (in_use r), (in_use r'); cbn [length] in *; lia.
Qed.

Lemma used_nonneg rs : 0 <= used rs.
Proof. unfold used. lia. Qed.

Lemma used_zero rs l r : used rs = 0 -> rs !! l = Some r -> gr_strong r = 0%nat.
Proof.
  intros Hu Hl. unfold used in Hu.
  assert (List.filter in_use rs = []) as Hf by (destruct (List.filter in_use rs); [done|cbn in Hu; lia]).
  destruct (decide (gr_strong r = 0%nat)) as [|Hne]; [done|].
  assert (r ∈ List.filter in_use rs) as Hin; [|rewrite Hf in Hin; set_solver].
  apply list_elem_of_In, List.filter_In. split.
  - apply list_elem_of_In. by eapply list_elem_of_lookup_2.
  - unfold in_use. destruct (Nat.eqb_spec (gr_strong r) 0); done.
Qed.

(** ** The invariant *)

(** A record as it was issued, up to the two counters. *)
Definition same_record (r r' : GrantRecord) : Prop :=
  gr_grant r' = gr_grant r /\ gr_entry r' = gr_entry r /\ gr_expires_at r' = gr_expires_at r.

(** The record at [l] is the registry's, under its own id. *)
Definition registered (g : Grants) (l : nat) (r : GrantRecord) : bool :=
  bool_decide (live g !! og_grant_id (gr_grant r) = Some l).

Record record_ok (g : Grants) (r : GrantRecord) : Prop := {
  ro_wf : grant_wf (gr_grant r);
  ro_budget : 0 <= gr_remaining r <= og_budget (gr_grant r);
  ro_entry : exists e, entries g !! gr_entry r = Some e /\
    id_profile_id (pe_identity e) = og_profile_id (gr_grant r) /\
    id_generation (pe_identity e) = og_profile_generation (gr_grant r) /\
    pe_profile e = og_profile_name (gr_grant r);
}.

(** [held l] handlers hold an [Arc] of record [l]; [conns] idle guards belong
    to connections and operations. *)
Record registry_ok (conns : Z) (held : nat -> nat) (g : Grants) : Prop := {
  ok_disjoint : forall id l, live g !! id = Some l -> tombstones g !! id = None;
  ok_live : forall id l, live g !! id = Some l ->
    exists r, records g !! l = Some r /\ og_grant_id (gr_grant r) = id;
  ok_capacity : (size (live g) + size (tombstones g) <= GRANT_REGISTRY_LIMIT)%nat;
  ok_tombstones : forall id t, tombstones g !! id = Some t -> ts_expires_at t <= ts_forget_at t;
  ok_records : forall l r, records g !! l = Some r -> record_ok g r;
  ok_strong : forall l r, records g !! l = Some r ->
    gr_strong r = ((if registered g l r then 1 else 0) + held l)%nat;
  ok_held : forall l, records g !! l = None -> held l = 0%nat;
  ok_work : work g = conns + used (records g);
  ok_conns : 0 <= conns;
}.

Lemma tombstone_of_ok kind t : ts_expires_at (tombstone_of kind t) <= ts_forget_at (tombstone_of kind t).
Proof.
  unfold tombstone_of, instant_add. cbn. destruct (checked_add _ _ _) as [f|] eqn:Hf; [|lia].
  apply checked_add_some in Hf as [-> _].
  unfold GRANT_TERMINAL_TOMBSTONE_TTL, from_secs. lia.
Qed.

(** *** [Arc]s *)

Lemma arc_drop_registry l g : live (arc_drop l g) = live g /\
  tombstones (arc_drop l g) = tombstones g /\ pool (arc_drop l g) = pool g /\
  entries (arc_drop l g) = entries g.
Proof. unfold arc_drop. destruct (records g !! l) as [r|]; [|done]. by destruct (decide _). Qed.

Lemma arc_clone_registry l g : live (arc_clone l g) = live g /\
  tombstones (arc_clone l g) = tombstones g /\ pool (arc_clone l g) = pool g /\
  entries (arc_clone l g) = entries g.
Proof. unfold arc_clone. by destruct (records g !! l). Qed.

Lemma arc_drop_records l g r : records g !! l = Some r ->
  records (arc_drop l g) = <[l := with_strong r (pred (gr_strong r))]> (records g) /\
  work (arc_drop l g) = work g - (if decide (gr_strong r = 1%nat) then 1 else 0).
Proof. intros Hr. unfold arc_drop. rewrite Hr. destruct (decide _); cbn; split; (done || lia). Qed.

Lemma arc_clone_records l g r : records g !! l = Some r ->
  records (arc_clone l g) = <[l := with_strong r (Datatypes.S (gr_strong r))]> (records g) /\
  work (arc_clone l g) = work g.
Proof. intros Hr. unfold arc_clone. by rewrite Hr. Qed.

Lemma same_record_refl r : same_record r r.
Proof. done. Qed.
#[local] Hint Resolve same_record_refl : core.

Lemma record_ok_ext g g' r r' :
  entries g = entries g' -> same_record r r' -> gr_remaining r' = gr_remaining r ->
  record_ok g r -> record_ok g' r'.
Proof.
  intros He (Hg & Hn & Hx) Hrem [Hwf Hb Hent]. constructor; rewrite ?Hg, ?Hn, ?Hrem, <-?He; done.
Qed.

(** Dropping or cloning one [Arc] of [l]: the count of its owners changes by
    one, in the registry or among the handlers. *)
Section arcs.
Context (conns : Z) (held held' : nat -> nat) (g g' : Grants) (l : nat) (r : GrantRecord)
  (n : nat).
Context (Hl : records g !! l = Some r)
  (Hrecs : records g' = <[l := with_strong r n]> (records g))
  (Hents : entries g' = entries g).

Lemma arc_records_lookup l' r' : records g' !! l' = Some r' ->
  exists r0, records g !! l' = Some r0 /\ same_record r0 r' /\ gr_remaining r' = gr_remaining r0 /\
  gr_strong r' = if decide (l' = l) then n else gr_strong r0.
Proof.
  rewrite Hrecs. destruct (decide (l' = l)) as [->|Hne].
  - rewrite list_lookup_insert_eq by (by eapply lookup_lt_Some). intros [= <-]. by exists r.
  - rewrite list_lookup_insert_ne by done. intros Hr'. by exists r'.
Qed.
End arcs.

(** *** Leaving the registry *)

Definition retire (id : bytes) (l : nat) (ts : gmap bytes GrantTombstone) (g : Grants) : Grants :=
  arc_drop l (with_registry g (delete id (live g)) ts).

(** The tombstones after [id] left: unchanged, or with a tombstone for it. *)
Definition buries (id : bytes) (g : Grants) (ts : gmap bytes GrantTombstone) : Prop :=
  ts = tombstones g \/
  exists t, ts_expires_at t <= ts_forget_at t /\ ts = <[id := t]> (tombstones g).

Lemma retire_maps id l ts g : live (retire id l ts g) = delete id (live g) /\
  tombstones (retire id l ts g) = ts /\ entries (retire id l ts g) = entries g /\
  pool (retire id l ts g) = pool g.
Proof.
  unfold retire. destruct (arc_drop_registry l (with_registry g (delete id (live g)) ts))
    as (-> & -> & -> & ->). done.
Qed.

Lemma retire_records id l ts g r : records g !! l = Some r ->
  records (retire id l ts g) = <[l := with_strong r (pred (gr_strong r))]> (records g) /\
  work (retire id l ts g) = work g - (if decide (gr_strong r = 1%nat) then 1 else 0).
Proof.
  intros Hr. exact (arc_drop_records l (with_registry g (delete id (live g)) ts) r Hr).
Qed.

Lemma buries_other id id' g ts : buries id g ts -> id' <> id -> ts !! id' = tombstones g !! id'.
Proof. intros [->|(t & _ & ->)] Hne; [done|]. by rewrite lookup_insert_ne. Qed.

Lemma retire_ok conns held id l ts g :
  registry_ok conns held g -> live g !! id = Some l -> buries id g ts ->
  registry_ok conns held (retire id l ts g).
Proof.
  intros Hok Hl Hb. destruct (ok_live _ _ _ Hok _ _ Hl) as (r & Hr & Hid).
  destruct (retire_maps id l ts g) as (Elive & Ets & Eents & Epool).
  destruct (retire_records id l ts g r Hr) as (Erecs & Ework).
  pose proof (ok_strong _ _ _ Hok _ _ Hr) as Hstrong.
  unfold registered in Hstrong. rewrite Hid, bool_decide_true in Hstrong by done.
  pose proof (arc_records_lookup g (retire id l ts g) l r _ Hr Erecs) as Hback.
  constructor; rewrite ?Elive, ?Ets.
  - intros id' l' [Hne Hl']%lookup_delete_Some. rewrite (buries_other id id' g ts) by done.
    by eapply ok_disjoint.
  - intros id' l' [Hne Hl']%lookup_delete_Some.
    destruct (ok_live _ _ _ Hok _ _ Hl') as (r' & Hr' & Hid'). rewrite Erecs.
    destruct (decide (l' = l)) as [->|].
    + rewrite list_lookup_insert_eq by (by eapply lookup_lt_Some). eexists. split; [done|].
      cbn. congruence.
    + rewrite list_lookup_insert_ne by done. eauto.
  - pose proof (ok_capacity _ _ _ Hok) as Hcap. rewrite map_size_delete, Hl.
    assert (size (live g) <> 0)%nat by (intros E%map_size_empty_inv; by rewrite E in Hl).
    destruct Hb as [->|(t & _ & ->)]; [cbn; lia|].
    rewrite map_size_insert. destruct (tombstones g !! id); cbn; lia.
  - intros id' t Ht. destruct (decide (id' = id)) as [->|Hne].
    + destruct Hb as [->|(t' & Ht' & ->)]; [by eapply ok_tombstones|].
      rewrite lookup_insert_eq in Ht. by injection Ht as <-.
    + rewrite (buries_other id id' g ts) in Ht by done. by eapply ok_tombstones.
  - intros l' r' Hr'. destruct (Hback _ _ Hr') as (r0 & Hr0 & Hsame & Hrem & _).
    by eapply record_ok_ext, (ok_records _ _ _ Hok).
  - intros l' r' Hr'. destruct (Hback _ _ Hr') as (r0 & Hr0 & (Hg & _) & _ & ->).
    unfold registered. rewrite Elive, Hg. destruct (decide (l' = l)) as [->|Hne].
    + assert (r0 = r) as -> by congruence. rewrite Hid, lookup_delete_eq.
      rewrite bool_decide_false by done. cbn in *. lia.
    + rewrite (ok_strong _ _ _ Hok _ _ Hr0). unfold registered. f_equal.
      destruct (decide (og_grant_id (gr_grant r0) = id)) as [E|Hid'].
      * rewrite E, Hl, lookup_delete_eq. rewrite !bool_decide_false; [done|congruence..].
      * by rewrite lookup_delete_ne by done.
  - intros l' Hl'. rewrite Erecs in Hl'. apply (ok_held _ _ _ Hok).
    apply lookup_ge_None in Hl'. rewrite length_insert in Hl'. by apply lookup_ge_None.
  - rewrite Ework, Erecs, (ok_work _ _ _ Hok).
    pose proof (used_insert (records g) l r (with_strong r (pred (gr_strong r))) Hr) as Hu.
    unfold in_use in Hu. cbn in Hu. rewrite Hstrong in *. cbn in Hu. cbn [pred].
    destruct (held l); cbn in Hu |- *; destruct (decide _); lia.
  - apply (ok_conns _ _ _ Hok).
Qed.

(** *** Pruning *)

(** Nothing but strong counts changed in the record heap. *)
Definition records_kept (g g' : Grants) : Prop :=
  length (records g') = length (records g) /\
  forall l r', records g' !! l = Some r' -> exists r, records g !! l = Some r /\
    same_record r r' /\ gr_remaining r' = gr_remaining r.

Lemma records_kept_refl g : records_kept g g.
Proof. split; [done|]. intros l r Hr. by exists r. Qed.

Lemma records_kept_trans g1 g2 g3 :
  records_kept g1 g2 -> records_kept g2 g3 -> records_kept g1 g3.
Proof.
  intros [L1 K1] [L2 K2]. split; [congruence|]. intros l r3 H3.
  destruct (K2 _ _ H3) as (r2 & H2 & (Hg & He & Hx) & Hr).
  destruct (K1 _ _ H2) as (r1 & H1 & (Hg' & He' & Hx') & Hr').
  exists r1. split_and!; try done; [|congruence]. split_and!; congruence.
Qed.

Lemma records_kept_expires g g' l : records_kept g g' ->
  record_expires_at g' l = record_expires_at g l.
Proof.
  intros [Hlen Hk]. unfold record_expires_at.
  destruct (records g' !! l) as [r'|] eqn:Hr'; cbn.
  - destruct (Hk _ _ Hr') as (r & -> & (_ & _ & ->) & _). done.
  - apply lookup_ge_None in Hr'. rewrite Hlen in Hr'. apply lookup_ge_None in Hr'. by rewrite Hr'.
Qed.

Lemma retire_kept id l ts g : records_kept g (retire id l ts g).
Proof.
  destruct (records g !! l) as [r|] eqn:Hr.
  - destruct (retire_records id l ts g r Hr) as [Hrecs _]. split.
    + by rewrite Hrecs, length_insert.
    + intros l' r' Hr'. destruct (arc_records_lookup g _ l r _ Hr Hrecs _ _ Hr')
        as (r0 & ? & ? & ? & _). eauto.
  - unfold retire, arc_drop. cbn [records with_registry]. rewrite Hr.
    exact (records_kept_refl g).
Qed.

Definition tombstone_after (now : Z) (g : Grants) (id : bytes) : option GrantTombstone :=
  match live g !! id ≫= record_expires_at g with
  | Some x => let t := tombstone_of Expired x in
              if now <? ts_forget_at t then Some t else tombstones g !! id
  | None => tombstones g !! id
  end.

Lemma expire_one_retire conns held now id g : registry_ok conns held g ->
  (live g !! id = None /\ expire_one now g id = g) \/
  exists l ts, live g !! id = Some l /\ expire_one now g id = retire id l ts g /\
    buries id g ts /\ ts !! id = tombstone_after now g id.
Proof.
  intros Hok. unfold expire_one, tombstone_after.
  destruct (live g !! id) as [l|] eqn:Hl; [|by left].
  destruct (ok_live _ _ _ Hok _ _ Hl) as (r & Hr & Hid). right.
  unfold record_expires_at. rewrite Hr. cbn [fmap option_fmap option_map mbind option_bind].
  rewrite Hr. cbn [fmap option_fmap option_map].
  set (t := tombstone_of Expired (gr_expires_at r)).
  exists l, (if now <? ts_forget_at t then <[id := t]> (tombstones g) else tombstones g).
  split_and!; try done; destruct (now <? ts_forget_at t).
  - right. exists t. split; [apply tombstone_of_ok|done].
  - by left.
  - by rewrite lookup_insert_eq.
  - done.
Qed.

Lemma expire_fold conns held now ids g : registry_ok conns held g ->
  let g' := fold_left (expire_one now) ids g in
  registry_ok conns held g' /\ records_kept g g' /\ entries g' = entries g /\ pool g' = pool g /\
  forall id, live g' !! id = (if decide (id ∈ ids) then None else live g !! id) /\
    tombstones g' !! id =
      if decide (id ∈ ids) then tombstone_after now g id else tombstones g !! id.
Proof.
  revert g; induction ids as [|id0 ids IH]; intros g Hok; cbn [fold_left].
  { split_and!; try done. apply records_kept_refl. }
  assert (registry_ok conns held (expire_one now g id0) /\ records_kept g (expire_one now g id0) /\
    entries (expire_one now g id0) = entries g /\ pool (expire_one now g id0) = pool g /\
    forall id, live (expire_one now g id0) !! id = (if decide (id = id0) then None else live g !! id) /\
      tombstones (expire_one now g id0) !! id =
        if decide (id = id0) then tombstone_after now g id0 else tombstones g !! id)
    as (Hok1 & Hk1 & He1 & Hp1 & H1).
  { destruct (expire_one_retire conns held now id0 g Hok) as [[Hl ->]|(l & ts & Hl & -> & Hb & Ht)].
    - split_and!; try done; [apply records_kept_refl|]. intros id.
      destruct (decide (id = id0)) as [->|]; [|done]. split; [done|].
      unfold tombstone_after. by rewrite Hl.
    - destruct (retire_maps id0 l ts g) as (-> & -> & -> & ->).
      split_and!; try done; [by apply retire_ok|apply retire_kept|]. intros id.
      destruct (decide (id = id0)) as [->|Hne]; [by rewrite lookup_delete_eq|].
      rewrite lookup_delete_ne by done. by rewrite (buries_other id0 id g ts). }
  destruct (IH _ Hok1) as (Hok2 & Hk2 & He2 & Hp2 & H2).
  split_and!; [done|by eapply records_kept_trans|congruence|congruence|].
  intros id. destruct (H2 id) as [-> ->], (H1 id) as [E1 E2].
  assert (id <> id0 -> tombstone_after now (expire_one now g id0) id = tombstone_after now g id)
    as Hta.
  { intros Hne. unfold tombstone_after. rewrite E1, E2, !decide_False by done.
    destruct (live g !! id) as [l|]; cbn; [|done]. by rewrite (records_kept_expires _ _ l Hk1). }
  rewrite E1, E2. destruct (decide (id = id0)) as [->|Hne].
  - assert (tombstone_after now (expire_one now g id0) id0 = tombstone_after now g id0) as ->
      by (unfold tombstone_after at 1; rewrite E1; exact E2).
    destruct (decide (id0 ∈ ids)), (decide (id0 ∈ id0 :: ids)); first [done|set_solver].
  - rewrite Hta by done.
    destruct (decide (id ∈ ids)), (decide (id ∈ id0 :: ids)); first [done|set_solver].
Qed.

(** The tombstones kept by [retain]. *)
Definition retained (now : Z) (g : Grants) : Grants :=
  with_registry g (live g) (filter (fun kv => now < ts_forget_at kv.2) (tombstones g)).

Lemma retained_ok conns held now g : registry_ok conns held g -> registry_ok conns held (retained now g).
Proof.
  intros Hok. constructor; cbn; try apply Hok.
  - intros id l Hl. apply map_lookup_filter_None. left. by eapply ok_disjoint.
  - pose proof (ok_capacity _ _ _ Hok).
    pose proof (map_size_filter (fun kv => now < ts_forget_at kv.2) (tombstones g)). lia.
  - intros id t [Ht _]%map_lookup_filter_Some. by eapply ok_tombstones.
  - intros l r Hr. apply (record_ok_ext g _ r r); [done..|]. by eapply ok_records.
Qed.

Definition retained_tombstone (now : Z) (g : Grants) (id : bytes) : option GrantTombstone :=
  match tombstones g !! id with
  | Some t => if now <? ts_forget_at t then Some t else None
  | None => None
  end.

Lemma retained_lookup now g id : tombstones (retained now g) !! id = retained_tombstone now g id.
Proof.
  cbn. unfold retained_tombstone. rewrite map_lookup_filter.
  destruct (tombstones g !! id) as [t|]; cbn; [|done].
  unfold guard. destruct (Z.ltb_spec now (ts_forget_at t)); destruct (decide _); (done || lia).
Qed.

(** Pruning removes exactly the expired records, remembers them for the
    tombstone period, and forgets the tombstones whose period is over. *)
Lemma prune_spec conns held now g : registry_ok conns held g ->
  let g' := prune_locked now g in
  registry_ok conns held g' /\ records_kept g g' /\ entries g' = entries g /\ pool g' = pool g /\
  forall id,
    live g' !! id = match live g !! id with
                    | Some l => if decide (is_expired_record now g l) then None else Some l
                    | None => None
                    end /\
    tombstones g' !! id =
      match live g !! id ≫= record_expires_at g with
      | Some x => if (x <=? now) && (now <? ts_forget_at (tombstone_of Expired x))
                  then Some (tombstone_of Expired x) else None
      | None => retained_tombstone now g id
      end.
Proof.
  intros Hok. cbv zeta. unfold prune_locked. fold (retained now g). cbv zeta.
  set (ids := (filter (fun kv => is_expired_record now (retained now g) kv.2)
                 (map_to_list (live (retained now g)))).*1).
  pose proof (retained_ok _ _ now _ Hok) as Hokr.
  destruct (expire_fold conns held now ids _ Hokr) as (Hok' & Hk & He & Hp & Hall).
  split_and!; [done|done|done|done|]. intros id. destruct (Hall id) as [-> ->].
  assert (forall l, live g !! id = Some l -> (id ∈ ids <-> is_expired_record now g l)) as Hin.
  { intros l Hl. unfold ids. rewrite list_elem_of_fmap. split.
    - intros ((id' & l') & E & Hf). cbn in E. subst id'.
      apply list_elem_of_filter in Hf as [Hx Hm]. apply elem_of_map_to_list in Hm.
      cbn in Hm, Hx. by simplify_eq.
    - intros Hx. exists (id, l). split; [done|]. apply list_elem_of_filter. split; [exact Hx|].
      by apply elem_of_map_to_list. }
  assert (live g !! id = None -> id ∉ ids) as Hnin.
  { intros Hl Hx. unfold ids in Hx. rewrite list_elem_of_fmap in Hx.
    destruct Hx as ((id' & l') & E & Hf). cbn in E. subst id'.
    apply list_elem_of_filter in Hf as [_ Hm]. apply elem_of_map_to_list in Hm. cbn in Hm.
    by rewrite Hl in Hm. }
  unfold tombstone_after. rewrite retained_lookup. change (live (retained now g)) with (live g).
  destruct (live g !! id) as [l|] eqn:Hl.
  - specialize (Hin l eq_refl). cbn [mbind option_bind].
    assert (retained_tombstone now g id = None) as Hno.
    { unfold retained_tombstone. by rewrite (ok_disjoint _ _ _ Hok _ _ Hl). }
    rewrite Hno. change (record_expires_at (retained now g) l) with (record_expires_at g l).
    destruct (ok_live _ _ _ Hok _ _ Hl) as (r & Hr & _).
    assert (record_expires_at g l = Some (gr_expires_at r)) as Hx
      by (unfold record_expires_at; by rewrite Hr).
    assert (is_expired_record now g l <-> gr_expires_at r <= now) as Hexp
      by (unfold is_expired_record; by rewrite Hx).
    destruct (decide (id ∈ ids)), (decide (is_expired_record now g l)); try tauto;
      (split; [done|]); rewrite !Hx; rewrite Hexp in *;
      destruct (Z.leb_spec (gr_expires_at r) now); (done || lia).
  - cbn. rewrite decide_False by auto. rewrite decide_False by auto. done.
Qed.

(** *** Handlers' [Arc]s *)

Definition hold (l : nat) (held : nat -> nat) : nat -> nat :=
  fun l' => if decide (l' = l) then Datatypes.S (held l') else held l'.
Definition let_go (l : nat) (held : nat -> nat) : nat -> nat :=
  fun l' => if decide (l' = l) then pred (held l') else held l'.

(** One more or one fewer [Arc] of [l] among the handlers. *)
Lemma restrong_ok conns held held' g g' l r n :
  registry_ok conns held g -> records g !! l = Some r ->
  live g' = live g -> tombstones g' = tombstones g -> entries g' = entries g ->
  records g' = <[l := with_strong r n]> (records g) ->
  (forall l', l' <> l -> held' l' = held l') ->
  (n + held l = gr_strong r + held' l)%nat ->
  work g' = conns + used (records g') ->
  registry_ok conns held' g'.
Proof.
  intros Hok Hr Elive Ets Eents Erecs Hheld Hn Hwork.
  pose proof (arc_records_lookup g g' l r n Hr Erecs) as Hback.
  constructor; rewrite ?Elive, ?Ets; try apply Hok; try done.
  - intros id l' Hl'. destruct (ok_live _ _ _ Hok _ _ Hl') as (r' & Hr' & Hid). rewrite Erecs.
    destruct (decide (l' = l)) as [->|].
    + rewrite list_lookup_insert_eq by (by eapply lookup_lt_Some). eexists. split; [done|].
      cbn. congruence.
    + rewrite list_lookup_insert_ne by done. eauto.
  - intros l' r' Hr'. destruct (Hback _ _ Hr') as (r0 & Hr0 & Hsame & Hrem & _).
    by eapply record_ok_ext, (ok_records _ _ _ Hok).
  - intros l' r' Hr'. destruct (Hback _ _ Hr') as (r0 & Hr0 & (Hg & _) & _ & ->).
    pose proof (ok_strong _ _ _ Hok _ _ Hr0) as Hs. unfold registered in *. rewrite Elive, Hg.
    destruct (decide (l' = l)) as [->|Hne]; [|by rewrite (Hheld l' Hne)].
    assert (r0 = r) as -> by congruence. lia.
  - intros l' Hl'. assert (l' <> l) as Hne.
    { intros ->. rewrite Erecs in Hl'. apply lookup_ge_None in Hl'. rewrite length_insert in Hl'.
      apply lookup_lt_Some in Hr. lia. }
    rewrite Hheld by done. apply (ok_held _ _ _ Hok).
    rewrite Erecs, list_lookup_insert_ne in Hl' by done. done.
Qed.

Lemma arc_clone_ok conns held g l r :
  registry_ok conns held g -> records g !! l = Some r -> gr_strong r <> 0%nat ->
  registry_ok conns (hold l held) (arc_clone l g).
Proof.
  intros Hok Hr Hs. destruct (arc_clone_registry l g) as (? & ? & ? & ?).
  destruct (arc_clone_records l g r Hr) as [Erecs Ework].
  eapply (restrong_ok conns held (hold l held) g); [done|exact Hr|done|done|done|exact Erecs|..].
  - intros l' Hne. unfold hold. by rewrite decide_False.
  - unfold hold. rewrite decide_True by done. lia.
  - rewrite Ework, Erecs, (ok_work _ _ _ Hok).
    pose proof (used_insert (records g) l r (with_strong r (Datatypes.S (gr_strong r))) Hr) as Hu.
    unfold in_use in Hu. cbn in Hu. destruct (gr_strong r); [done|]. cbn in Hu. lia.
Qed.

Lemma arc_drop_ok conns held g l :
  registry_ok conns held g -> held l <> 0%nat ->
  registry_ok conns (let_go l held) (arc_drop l g).
Proof.
  intros Hok Hh. destruct (records g !! l) as [r|] eqn:Hr.
  2:{ by apply (ok_held _ _ _ Hok) in Hr. }
  destruct (arc_drop_registry l g) as (? & ? & ? & ?).
  destruct (arc_drop_records l g r Hr) as [Erecs Ework].
  pose proof (ok_strong _ _ _ Hok _ _ Hr) as Hs.
  eapply (restrong_ok conns held (let_go l held) g); [done|exact Hr|done|done|done|exact Erecs|..].
  - intros l' Hne. unfold let_go. by rewrite decide_False.
  - unfold let_go. rewrite decide_True by done. lia.
  - rewrite Ework, Erecs, (ok_work _ _ _ Hok).
    pose proof (used_insert (records g) l r (with_strong r (pred (gr_strong r))) Hr) as Hu.
    unfold in_use in Hu. cbn in Hu.
    destruct (gr_strong r) as [|[|n]]; cbn in Hu |- *; destruct (decide _); lia.
Qed.

(** *** Lookup *)

(** What a lookup answers, from the state it finds. *)
Definition lookup_answer (g : Grants) (id : bytes) (now : Z) : GrantLookup :=
  match live g !! id with
  | Some l =>
      match record_expires_at g l with
      | Some x =>
          if now <? x then LookupLive l
          else if now <? ts_forget_at (tombstone_of Expired x) then LookupExpired
          else LookupUnknown
      | None => LookupUnknown
      end
  | None =>
      match tombstones g !! id with
      | Some t =>
          if now <? ts_forget_at t then
            if bool_decide (ts_kind t = Exhausted) && (now <? ts_expires_at t)
            then LookupExhausted else LookupExpired
          else LookupUnknown
      | None => LookupUnknown
      end
  end.

Lemma lookup_spec conns held id now g g' a :
  registry_ok conns held g -> lookup id now g = (g', a) ->
  a = lookup_answer g id now /\ entries g' = entries g /\
  match a with
  | LookupLive l =>
      registry_ok conns (hold l held) g' /\
      exists r, records g !! l = Some r /\ og_grant_id (gr_grant r) = id /\ now < gr_expires_at r
  | _ => registry_ok conns held g'
  end.
Proof.
  intros Hok. unfold lookup. destruct (prune_spec conns held now g Hok) as (Hok' & Hk & He & Hp & Hall).
  destruct (Hall id) as [El Et]. unfold lookup_answer.
  destruct (live g !! id) as [l|] eqn:Hl.
  - destruct (ok_live _ _ _ Hok _ _ Hl) as (r & Hr & Hid).
    cbn [mbind option_bind] in Et.
    assert (record_expires_at g l = Some (gr_expires_at r)) as Hx
      by (unfold record_expires_at; by rewrite Hr).
    rewrite Hx in *. assert (is_expired_record now g l <-> gr_expires_at r <= now) as Hexp
      by (unfold is_expired_record; by rewrite Hx).
    destruct (decide (is_expired_record now g l)) as [Hd|Hd]; rewrite El; rewrite Hexp in Hd.
    + intros [= <- <-]. rewrite Et. rewrite (proj2 (Z.leb_le (gr_expires_at r) now)),
        (proj2 (Z.ltb_ge now (gr_expires_at r))) by lia.
      cbn [andb]. destruct (now <? ts_forget_at _); [|done]. cbn. done.
    + intros [= <- <-]. rewrite (proj2 (Z.ltb_lt now (gr_expires_at r))) by lia.
      split; [done|]. split; [by rewrite <-He; destruct (arc_clone_registry l (prune_locked now g)) as (_ & _ & _ & ->)|].
      split; [|exists r; split_and!; [done..|lia]].
      assert (live (prune_locked now g) !! id = Some l) as Hl' by (by rewrite El).
      destruct (ok_live _ _ _ Hok' _ _ Hl') as (r' & Hr' & Hid').
      eapply arc_clone_ok; [done|exact Hr'|].
      rewrite (ok_strong _ _ _ Hok' _ _ Hr'). unfold registered.
      rewrite Hid', bool_decide_true by done. lia.
  - rewrite El. cbn [mbind option_bind] in Et. rewrite Et. unfold retained_tombstone.
    destruct (tombstones g !! id) as [t|]; [|by intros [= <- <-]].
    destruct (now <? ts_forget_at t); [|by intros [= <- <-]].
    intros [= <- <-]. split; [done|]. split; [done|]. by destruct (_ && _).
Qed.

(** *** The other operations *)

Lemma mark_terminal_ok conns held id l kind now g :
  registry_ok conns held g ->
  let g' := mark_terminal_if_same id l kind now g in
  registry_ok conns held g' /\ records_kept g g' /\ entries g' = entries g /\ pool g' = pool g /\
  live g' !! id <> Some l /\ forall id' l', live g' !! id' = Some l' -> live g !! id' = Some l'.
Proof.
  intros Hok. cbv zeta. unfold mark_terminal_if_same.
  destruct (prune_spec conns held now g Hok) as (Hok' & Hk & He & Hp & Hall).
  assert (forall id' l', live (prune_locked now g) !! id' = Some l' -> live g !! id' = Some l') as Hsub.
  { intros id' l'. destruct (Hall id') as [-> _]. destruct (live g !! id'); [|done].
    by destruct (decide _). }
  destruct (bool_decide_reflect (live (prune_locked now g) !! id = Some l)) as [Hl|Hl];
    [|by split_and!].
  destruct (ok_live _ _ _ Hok' _ _ Hl) as (r & Hr & _).
  unfold record_expires_at. rewrite Hr. cbn [fmap option_fmap option_map].
  fold (retire id l (<[id := tombstone_of kind (gr_expires_at r)]> (tombstones (prune_locked now g)))
          (prune_locked now g)).
  set (g1 := retire _ _ _ _).
  destruct (retire_maps id l (<[id := tombstone_of kind (gr_expires_at r)]>
    (tombstones (prune_locked now g))) (prune_locked now g)) as (El & _ & Ee & Epl).
  fold g1 in El, Ee, Epl. split_and!.
  - apply retire_ok; [done..|]. right. eexists. split; [apply tombstone_of_ok|done].
  - eapply records_kept_trans; [exact Hk|apply retire_kept].
  - congruence.
  - congruence.
  - rewrite El. by rewrite lookup_delete_eq.
  - intros id' l'. rewrite El. intros [_ Hl']%lookup_delete_Some. auto.
Qed.

(** Acquiring and releasing an idle guard. *)
Lemma idle_ok conns conns' held g : registry_ok conns held g -> 0 <= conns' ->
  registry_ok conns' held (with_records g (records g) (work g + (conns' - conns))).
Proof.
  intros [] Hc. constructor; try done; cbn.
  - intros l r Hr. apply (record_ok_ext g _ r r); [done..|eauto].
  - lia.
Qed.

Lemma idle_release_acquire g : idle_release (idle_acquire g) = g.
Proof.
  destruct g. unfold idle_release, idle_acquire, with_records. cbn. by rewrite Z.add_simpl_r.
Qed.

Lemma record_new_ok grant entry e now r :
  record_new grant entry e now = Ok r <->
  exists ttl, policy_ttl grant = Ok ttl /\
    id_profile_id (pe_identity e) = og_profile_id grant /\
    id_generation (pe_identity e) = og_profile_generation grant /\
    pe_profile e = og_profile_name grant /\ now + ttl <= INSTANT_MAX /\
    r = {| gr_grant := grant; gr_entry := entry; gr_remaining := og_budget grant;
           gr_expires_at := now + ttl; gr_strong := 1 |}.
Proof.
  unfold record_new. split.
  - intros Hn. checks.
    match goal with H : instant_add _ _ = Some _ |- _ => apply checked_add_some in H as [-> ?] end.
    eauto 10.
  - intros (ttl & Hp & H1' & H2' & H3' & Hmax & ->). rewrite Hp. cbn [rbind].
    rewrite ensure_pass by (by apply bool_decide_eq_true).
    rewrite ensure_pass by (by apply Z.eqb_eq).
    rewrite ensure_pass by (by apply bool_decide_eq_true).
    unfold instant_add. by rewrite (proj2 (checked_add_some _ _ _ _) (conj eq_refl Hmax)).
Qed.

(** A registration adds exactly one live record, at a fresh place. *)
Lemma insert_ok conns held grant entry e now g g' r :
  registry_ok conns held g -> grant_wf grant -> entries g !! entry = Some e ->
  insert grant entry e now g = (g', r) ->
  registry_ok conns held g' /\ entries g' = entries g /\ pool g' = pool g /\
  match r with
  | Ok _ =>
      exists record, record_new grant entry e now = Ok record /\
        records g' !! length (records g) = Some record /\
        live g' !! og_grant_id grant = Some (length (records g)) /\
        (forall l r', l <> length (records g) -> records g' !! l = Some r' ->
           exists r0, records g !! l = Some r0 /\ same_record r0 r' /\
             gr_remaining r' = gr_remaining r0) /\
        forall id' l', id' <> og_grant_id grant -> live g' !! id' = Some l' -> live g !! id' = Some l'
  | Err _ => records_kept g g' /\ forall id' l', live g' !! id' = Some l' -> live g !! id' = Some l'
  end.
Proof.
  intros Hok Hwf He. unfold insert.
  destruct (prune_spec conns held now g Hok) as (Hok' & Hk & Hents & Hp & Hall).
  set (g1 := prune_locked now g) in *. cbv zeta.
  assert (forall id' l', live g1 !! id' = Some l' -> live g !! id' = Some l') as Hsub.
  { intros id' l'. destruct (Hall id') as [-> _]. destruct (live g !! id'); [|done].
    by destruct (decide _). }
  destruct (Nat.ltb_spec (size (live g1) + size (tombstones g1)) GRANT_REGISTRY_LIMIT) as [Hcap|];
    cbn [negb]; [|by intros [= <- <-]].
  destruct (is_some (live g1 !! og_grant_id grant)) eqn:Hl; [by intros [= <- <-]|].
  destruct (is_some (tombstones g1 !! og_grant_id grant)) eqn:Ht; cbn [orb]; [by intros [= <- <-]|].
  destruct (record_new grant entry e now) as [record|err] eqn:Hrn.
  2:{ intros [= <- <-]. rewrite idle_release_acquire. by split_and!. }
  apply record_new_ok in Hrn as Hrec. destruct Hrec as (ttl & Hpol & E1 & E2 & E3 & Hmax & ->).
  set (record := {| gr_grant := grant |}) in *.
  intros [= <- <-]. unfold idle_acquire.
  cbn [records live tombstones pool entries work with_registry with_records].
  assert (length (records g1) = length (records g)) as Hlen by apply Hk.
  assert (live g1 !! og_grant_id grant = None) as Hnl by (destruct (live g1 !! og_grant_id grant); done).
  assert (tombstones g1 !! og_grant_id grant = None) as Hnt
    by (destruct (tombstones g1 !! og_grant_id grant); done).
  assert (forall id' l', live g1 !! id' = Some l' -> (l' < length (records g1))%nat) as Hlt.
  { intros id' l' Hl'. destruct (ok_live _ _ _ Hok' _ _ Hl') as (r' & Hr' & _).
    by eapply lookup_lt_Some. }
  split; [|split; [done|split; [done|exists record; split_and!]]].
  - constructor; cbn [records live tombstones pool entries work with_registry with_records].
    + intros id l [[<- <-]|[Hne Hl']]%lookup_insert_Some; [done|]. by eapply (ok_disjoint _ _ _ Hok').
    + intros id l [[<- <-]|[Hne Hl']]%lookup_insert_Some.
      * exists record. split; [|done]. by rewrite lookup_app_r, Nat.sub_diag by done.
      * destruct (ok_live _ _ _ Hok' _ _ Hl') as (r' & Hr' & Hid'). exists r'. split; [|done].
        by apply lookup_app_l_Some.
    + rewrite map_size_insert_None by done. lia.
    + apply (ok_tombstones _ _ _ Hok').
    + intros l r [Hr|[_ Hr]]%lookup_app_Some.
      * apply (record_ok_ext g1 _ r r); [done..|]. by eapply (ok_records _ _ _ Hok').
      * apply list_lookup_singleton_Some in Hr as [_ <-].
        constructor; cbn.
        -- done.
        -- destruct Hwf as (_ & Hb & _). lia.
        -- exists e. rewrite Hents. done.
    + intros l r [Hr|[Hge Hr]]%lookup_app_Some.
      * rewrite (ok_strong _ _ _ Hok' _ _ Hr). f_equal. unfold registered. cbn.
        destruct (decide (og_grant_id (gr_grant r) = og_grant_id grant)) as [E|Hne].
        -- rewrite E, lookup_insert_eq, Hnl. apply lookup_lt_Some in Hr.
           rewrite !bool_decide_false; [done|first [done|intros [= Ex]; lia]..].
        -- by rewrite lookup_insert_ne by done.
      * apply list_lookup_singleton_Some in Hr as [Hz <-]. unfold registered. cbn.
        assert (l = length (records g1)) as -> by lia.
        rewrite lookup_insert_eq, bool_decide_true by done.
        rewrite (ok_held _ _ _ Hok'); [done|]. by apply lookup_ge_None.
    + intros l Hl'. apply (ok_held _ _ _ Hok'). apply lookup_ge_None in Hl'.
      rewrite length_app in Hl'. apply lookup_ge_None. cbn in Hl'. lia.
    + rewrite used_app, (ok_work _ _ _ Hok'). assert (used [record] = 1) as -> by done. lia.
    + apply (ok_conns _ _ _ Hok').
  - done.
  - rewrite <-Hlen, lookup_app_r, Nat.sub_diag by done. done.
  - by rewrite lookup_insert_eq, Hlen.
  - intros l r' Hne Hr'. apply lookup_app_Some in Hr' as [Hr'|[Hge Hr']].
    + by apply Hk.
    + apply list_lookup_singleton_Some in Hr' as [Hz _]. lia.
  - intros id' l' Hne Hl'. rewrite lookup_insert_ne in Hl' by done. auto.
Qed.

(** ** Issuing *)

(** *** Sorting and removing duplicates *)

Lemma bytes_leb_antisym a b : str_le a b -> str_le b a -> a = b.
Proof.
  unfold str_le. revert b; induction a as [|x a IH]; intros [|y b]; cbn; try done.
  destruct (Z.ltb_spec (b8 x) (b8 y)), (Z.ltb_spec (b8 y) (b8 x)); try lia; try done.
  intros Ha Hb. assert (x = y) as -> by (apply b8_inj; lia). f_equal. auto.
Qed.

#[export] Instance str_le_trans : Transitive str_le.
Proof.
  unfold str_le. intros a. induction a as [|x a IH]; intros [|y b] [|z c]; cbn; try done.
  destruct (Z.ltb_spec (b8 x) (b8 y)), (Z.ltb_spec (b8 y) (b8 x)), (Z.ltb_spec (b8 y) (b8 z)),
    (Z.ltb_spec (b8 z) (b8 y)), (Z.ltb_spec (b8 x) (b8 z)), (Z.ltb_spec (b8 z) (b8 x));
    try lia; try done. apply IH.
Qed.

#[export] Instance str_le_total : Total str_le.
Proof.
  unfold str_le. intros a. induction a as [|x a IH]; intros [|y b]; cbn; auto.
  destruct (Z.ltb_spec (b8 x) (b8 y)), (Z.ltb_spec (b8 y) (b8 x)); auto.
Qed.

Lemma dedup_elem l x : x ∈ dedup l <-> x ∈ l.
Proof.
  induction l as [|a [|b l] IH]; [done|done|]. cbn [dedup] in *.
  destruct (decide (a = b)) as [->|]; rewrite ?elem_of_cons in *; rewrite IH; set_solver.
Qed.

Lemma dedup_NoDup l : StronglySorted str_le l -> NoDup (dedup l).
Proof.
  induction l as [|a [|b l] IH]; intros Hs; [constructor|by apply NoDup_singleton|].
  inversion Hs as [|? ? Hs' Hall]; subst. specialize (IH Hs'). cbn [dedup] in *.
  destruct (decide (a = b)) as [->|Hne]; [done|]. constructor; [|done].
  intros Hin. apply Hne. change (a ∈ dedup (b :: l)) in Hin. rewrite dedup_elem in Hin.
  inversion Hs' as [|? ? _ Hb]; subst. inversion Hall as [|? ? Hab _]; subst.
  apply elem_of_cons in Hin as [->|Hin]; [done|].
  apply bytes_leb_antisym; [done|]. rewrite Forall_forall in Hb. auto.
Qed.

Definition unique_kinds (ops : list str) : list str := dedup (merge_sort str_le ops).

Lemma unique_kinds_spec ops : NoDup (unique_kinds ops) /\
  forall k, k ∈ unique_kinds ops <-> k ∈ ops.
Proof.
  split.
  - apply dedup_NoDup. by apply StronglySorted_merge_sort; apply _.
  - intros k. unfold unique_kinds. rewrite dedup_elem. by rewrite merge_sort_Permutation.
Qed.

(** *** The pool *)

Definition pool_ok (g : Grants) : Prop :=
  forall id l, pool g !! id = Some l ->
    exists e, entries g !! l = Some e /\ id_profile_id (pe_identity e) = id.

Lemma registry_ok_pool conns held g p es :
  registry_ok conns held g -> entries g `prefix_of` es -> registry_ok conns held (with_pool g p es).
Proof.
  intros [] Hpre. constructor; try done; cbn.
  intros l r Hr. destruct (ok_records0 _ _ Hr) as [Hwf Hb (e & He & Hrest)]. constructor; try done.
  exists e. split; [|done]. cbn. by eapply prefix_lookup_Some.
Qed.

Lemma pool_entry_for_spec conns held id now g g' o :
  registry_ok conns held g -> pool_ok g -> pool_entry_for id now g = (g', o) ->
  registry_ok conns held g' /\ pool_ok g' /\ live g' = live g /\ records g' = records g /\
  entries g' = entries g /\ tombstones g' = tombstones g /\
  match o with
  | Some l => exists e, pool g !! id = Some l /\ entries g !! l = Some e /\
                id_profile_id (pe_identity e) = id /\ now < pe_expires_at e
  | None => True
  end.
Proof.
  intros Hok Hpool. unfold pool_entry_for.
  destruct (pool g !! id) as [l|] eqn:Hl; cbn [mbind option_bind].
  - destruct (Hpool _ _ Hl) as (e & He & Hid). rewrite He.
    destruct (Z.leb_spec (pe_expires_at e) now); intros [= <- <-].
    + split_and!; try done; [by apply registry_ok_pool| |by cbn; rewrite lookup_delete_eq].
      intros id' l' Hl'. cbn in Hl'. apply lookup_delete_Some in Hl' as [_ Hl']. by apply Hpool.
    + split_and!; try done. rewrite Hl. exists e. split_and!; (done || lia).
  - intros [= <- <-]. rewrite Hl. by split_and!.
Qed.

Section issuing.
Context `{Sha2, Hex, JsonSer PopPayload, JsonSer ProfileProofPayload, Base64, Ed25519, HmacSha2}.

(** What an issued grant rests on: the requester proved knowledge of the
    profile's call key for this very request, the profile is unlocked, and the
    grant is for that profile, its generation, and only grantable kinds. *)
Record issued_for (g : Grants) (p : V6RequestPrelude) (f : Frame) (now pool_now : Z)
    (grant : OperationGrant) (entry : nat) (e : ProfilePoolEntry) : Prop := {
  if_frame : exists ops budget ttl key,
    f = IssueGrant (og_profile_name grant) ops budget ttl key /\
    og_budget grant = budget /\ policy_ttl grant = Ok (from_secs ttl) /\
    b64_decode key = Some (og_holder_key grant) /\
    NoDup (og_operations grant) /\ forall k, k ∈ og_operations grant <-> k ∈ ops;
  if_profile : profile_name p = Some (og_profile_name grant) /\
    profile_id p = Some (og_profile_id grant);
  if_unlocked : pool g !! og_profile_id grant = Some entry /\ entries g !! entry = Some e /\
    pool_now < pe_expires_at e;
  if_entry : id_profile_id (pe_identity e) = og_profile_id grant /\
    id_generation (pe_identity e) = og_profile_generation grant /\
    pe_profile e = og_profile_name grant;
  if_proof : exists proof, profile_proof p = Some proof /\
    verify_profile_prelude_proof (pe_call_key e) proof p = Ok tt;
  if_kinds : Forall (fun k => k ∈ GRANTABLE_OPERATION_KINDS) (og_operations grant);
  if_wf : grant_wf grant;
}.

Lemma ebind_elift {S E A B} (x : result E A) (k : A -> eff S E B) s :
  ebind (elift x) k s = match x with Ok a => k a s | Err e => (s, Err e) end.
Proof. by destruct x. Qed.

(** The next lifted check of a run. *)
Tactic Notation "lifted" ident(E) "as" simple_intropattern(pat) :=
  rewrite ebind_elift;
  match goal with |- match ?x with _ => _ end = _ -> _ => destruct x as pat eqn:E end.

(** An issuance stops before the registry, or registers the grant it made. *)
Lemma issue_grant_run p f draw pool_now wall_now now g g' r :
  issue_grant p f draw pool_now wall_now now g = (g', r) ->
  (exists err, r = Err err /\
     (g' = g \/ exists id o, pool_entry_for id pool_now g = (g', o))) \/
  exists profile ops budget ttl key id entry e g1 proof key_bytes grant r1,
    f = IssueGrant profile ops budget ttl key /\
    profile_name p = Some profile /\ profile_id p = Some id /\
    pool_entry_for id pool_now g = (g1, Some entry) /\ entries g1 !! entry = Some e /\
    pe_profile e = profile /\ profile_proof p = Some proof /\
    verify_profile_prelude_proof (pe_call_key e) proof p = Ok tt /\
    Forall (fun k => k ∈ GRANTABLE_OPERATION_KINDS) (unique_kinds ops) /\
    b64_decode key = Some key_bytes /\
    new_with_ttl draw profile
      {| gpi_profile_id := id; gpi_generation := id_generation (pe_identity e) |}
      (unique_kinds ops) budget key_bytes wall_now (from_secs ttl) = Ok grant /\
    insert grant entry e now g1 = (g', r1) /\
    r = match r1 with Ok _ => Ok grant | Err err => Err err end.
Proof.
  unfold issue_grant.
  destruct f; try (by (intros [= <- <-]; left; eauto)).
  lifted E1 as [[]|]; [|intros [= <- <-]; left; eauto].
  lifted E2 as [id|]; [|intros [= <- <-]; left; eauto].
  unfold ebind at 1. cbv beta. destruct (pool_entry_for id pool_now g) as [g1 o] eqn:Hpf.
  cbv beta iota.
  assert (forall err, (g1, Err err) = (g', r) -> exists err, r = Err err /\
    (g' = g \/ exists id o, pool_entry_for id pool_now g = (g', o))) as Hstop
    by (intros err [= <- <-]; eauto 10).
  lifted E3 as [[entry e]|]; [|left; eauto].
  apply ok_or_ok in E3. destruct o as [entry'|]; [|done]. cbn [mbind option_bind] in E3.
  destruct (entries g1 !! entry') as [e'|] eqn:He; [|done]. injection E3 as -> ->.
  cbn [fst snd].
  lifted E4 as [[]|]; [|left; eauto].
  lifted E5 as [proof|]; [|left; eauto].
  lifted E6 as [[]|]; [|left; eauto]. cbv zeta.
  fold (unique_kinds operations).
  lifted E7 as [[]|]; [|left; eauto].
  lifted E8 as [key_bytes|]; [|left; eauto].
  lifted E9 as [[]|]; [|left; eauto].
  lifted E10 as [[]|]; [|left; eauto].
  lifted E11 as [grant|]; [|left; eauto].
  unfold ebind, eret. destruct (insert _ _ _ _ _) as [g2 r1] eqn:E12. intros Hr. right.
  checks.
  exists profile, operations, budget, ttl_secs, holder_key, id, entry, e, g1, proof, key_bytes,
    grant, r1.
  split_and!; try done.
  - apply Forall_forall. intros k Hk.
    match goal with H : forallb _ _ = true |- _ => rewrite forallb_forall in H; specialize (H k) end.
    eapply bool_decide_eq_true. apply E3. by apply list_elem_of_In.
  - destruct r1; by simplify_eq.
  - destruct r1; by simplify_eq.
Qed.

Lemma issue_grant_ok conns held p f draw pool_now wall_now now g g' r :
  registry_ok conns held g -> pool_ok g ->
  issue_grant p f draw pool_now wall_now now g = (g', r) ->
  registry_ok conns held g' /\ pool_ok g' /\ entries g' = entries g /\
  match r with
  | Ok grant => exists entry e record,
      issued_for g p f now pool_now grant entry e /\
      og_grant_id grant = draw /\
      records g' !! length (records g) = Some record /\
      record_new grant entry e now = Ok record /\
      live g' !! draw = Some (length (records g)) /\
      (forall l r', l <> length (records g) -> records g' !! l = Some r' ->
         exists r0, records g !! l = Some r0 /\ same_record r0 r' /\
           gr_remaining r' = gr_remaining r0) /\
      (forall id l, id <> draw -> live g' !! id = Some l -> live g !! id = Some l)
  | Err _ => records_kept g g' /\ forall id l, live g' !! id = Some l -> live g !! id = Some l
  end.
Proof.
  intros Hok Hpool [(err & -> & Hg)|Hrun]%issue_grant_run.
  - destruct Hg as [->|(id & o & Hpf)].
    + split_and!; try done. apply records_kept_refl.
    + apply (pool_entry_for_spec _ _ _ _ _ _ _ Hok Hpool) in Hpf
        as (? & ? & Hl & Hr & ? & _). rewrite Hl. split_and!; try done.
      split; [by rewrite Hr|]. intros l r'. rewrite Hr. by exists r'.
  - destruct Hrun as (profile & ops & budget & ttl & key & id & entry & e & g1 & proof & key_bytes &
      grant & r1 & -> & Hname & Hid & Hpf & He & Hprof & Hpp & Hv & Hkinds & Hkey & Hnew & Hins & ->).
    apply (pool_entry_for_spec _ _ _ _ _ _ _ Hok Hpool) in Hpf
      as (Hok1 & Hpool1 & Hl1 & Hr1 & He1 & Ht1 & (e0 & Hp0 & He0 & Hid0 & Hexp)).
    apply new_with_ttl_ok in Hnew
      as (Hwf & Hpol & <- & En & Ei & Eg & Eo & Eb & Ek & _ & _). cbn in Ei, Eg.
    rewrite He1 in He. assert (e0 = e) as -> by congruence.
    apply (insert_ok conns held grant entry e now g1) in Hins as (Hok2 & He2 & Hp2 & Hins);
      [|done|done|congruence].
    rewrite Hr1, Hl1 in Hins. split; [done|]. split.
    { intros id' l'. rewrite He2, Hp2. intros Hl'. by apply Hpool1. }
    split; [congruence|]. destruct r1 as [u|err].
    + destruct Hins as (record & Hrec & Hlook & Hlive & Hother & Hothers).
      exists entry, e, record. split; [|by split_and!].
      destruct (unique_kinds_spec ops) as [Hnd Hel].
      constructor; rewrite ?Eo, ?En, ?Ei, ?Eg; try done; [|by exists proof].
      rewrite Eb, Ek. exists ops, budget, ttl, key. by split_and!.
    + destruct Hins as [Hk Hlv]. split; [|done]. destruct Hk as [Hlen Hk].
      split; [by rewrite Hlen, Hr1|]. intros l r'. rewrite <-Hr1. apply Hk.
Qed.
End issuing.
