(* ===== verification/DaemonRelay.v ===== *)
(** * serctl_daemon: relaying an authorized request

    crates/serctl_daemon/src/daemon.rs, GrantAuditOperation, the operation arm
    of handle_global_conn and OperationContextKey::derive.  A handler runs as
    a sequence of atomic segments (what happens between two awaits, two lock
    acquisitions or two atomic accesses); a segment is a function of the
    daemon's shared state and of what the environment decided: the clocks
    read, whether a blocking write finished in time, whether a
    compare-exchange failed.  The system interleaves the segments of any
    number of handlers with unlocking, issuing, the lease reaper, aborts and
    detached audit writes. *)

From stdpp Require Import gmap sorting.
From S2P Require Import Prelude.
From S2P Require Import Bytes.
From S2P Require Import Text.
From S2P Require Import Crates.
From S2P Require Import IpcCrates.
From S2P Require Import Async.
From S2P Require Import Ledger.
From S2P Require Import IpcFrame.
From S2P Require Import V6.
From S2P Require Import Grant.
From S2P Require Import DaemonGrants.
#[local] Open Scope string_scope.
#[local] Open Scope list_scope.
#[local] Open Scope Z_scope.

(** ** The audit ledger, as the daemon uses it

    [append] of the ledger of a profile generation either adds the event or
    changes nothing. *)
Class AuditSink (L : Type) := {
  sink_append : ProfileIdentity -> AuditEvent -> L -> L * result string unit;
  sink_events : ProfileIdentity -> L -> list AuditEvent;
}.
Class AuditSinkLaws (L : Type) `{AuditSink L} : Prop := {
  sink_append_spec i e l l' r : sink_append i e l = (l', r) ->
    sink_events i l' = sink_events i l ++ (if is_ok r then [e] else []);
  sink_append_other i j e l : i <> j ->
    sink_events j (sink_append i e l).1 = sink_events j l;
}.

(** ** Shared state *)

(** [detached] are audit writes whose handler stopped waiting: the blocking
    worker may still run them. *)
Record Daemon (L : Type) := {
  grants : Grants;
  ledger : L;
  detached : list (ProfileIdentity * AuditEvent);
}.
Arguments grants {L}.
Arguments ledger {L}.
Arguments detached {L}.

Definition with_grants {L} (d : Daemon L) (g : Grants) : Daemon L :=
  {| grants := g; ledger := ledger d; detached := detached d |}.

(** [entry.quarantined.store(true, Release)] *)
Definition quarantine_entry (e : ProfilePoolEntry) : ProfilePoolEntry :=
  {| pe_identity := pe_identity e; pe_profile := pe_profile e; pe_call_key := pe_call_key e;
     pe_quarantined := true; pe_expires_at := pe_expires_at e |}.
Definition set_quarantined {L} (entry : nat) (d : Daemon L) : Daemon L :=
  with_grants d (with_pool (grants d) (pool (grants d))
                   (alter quarantine_entry entry (entries (grants d)))).

(** ** Audit operations *)

Inductive AuditState :=
  AUDIT_STATE_PENDING | AUDIT_STATE_FINALIZING | AUDIT_STATE_COMPLETE | AUDIT_STATE_FAILED.

Record GrantAuditOperation := {
  ga_entry : nat;                       (** its ledger and quarantine flag *)
  ga_profile : ProfileIdentity;
  ga_request_id : bytes;
  ga_operation_kind : str;
  ga_policy_digest : str;
  ga_intent_digest : str;
  ga_instance_id : bytes;
  ga_grant_id : bytes;
  ga_deadline : Z;
  ga_state : AuditState;
}.

Definition with_state (a : GrantAuditOperation) (s : AuditState) : GrantAuditOperation :=
  {| ga_entry := ga_entry a; ga_profile := ga_profile a; ga_request_id := ga_request_id a;
     ga_operation_kind := ga_operation_kind a; ga_policy_digest := ga_policy_digest a;
     ga_intent_digest := ga_intent_digest a; ga_instance_id := ga_instance_id a;
     ga_grant_id := ga_grant_id a; ga_deadline := ga_deadline a; ga_state := s |}.

Record AuditTerminal := {
  at_decision : AuditDecision;
  at_reason_code : str;
  at_result_material : bytes;
}.

(** How waiting for a blocking audit write ends: with the worker, at the
    deadline, or because the waiting future is dropped. *)
Inductive fate := OnTime | TimedOut | Dropped_.

Section relay.
Context {L : Type} `{AuditSink L}
  `{Sha2, HmacSha2, Hex, Base64, Ed25519, JsonSer PopPayload, JsonSer ProfileProofPayload}.
Notation State := (Daemon L).

(** *** Operation context identifiers *)

Record OperationContextBinding := {
  ocb_instance_id : bytes;
  ocb_grant_id : bytes;
  ocb_request_id : bytes;
  ocb_profile : ProfileIdentity;
  ocb_root_request_hash : bytes;
}.
Definition lp64 (v : bytes) : bytes := be64 (zlen v) ++ v.
Definition operation_context_message (b : OperationContextBinding)
    (transport_attempt_id object_id action : str) : bytes :=
  rs "serctl/operation-context/hmac-sha256/v1" ++ [x00] ++ ocb_instance_id b ++ ocb_grant_id b ++
  ocb_request_id b ++ id_profile_id (ocb_profile b) ++ be64 (id_generation (ocb_profile b)) ++
  ocb_root_request_hash b ++ lp64 transport_attempt_id ++ lp64 object_id ++ lp64 action.
Definition operation_context_derive (key : bytes) (b : OperationContextBinding)
    (transport_attempt_id object_id action : str) : result string OperationContextId :=
  OperationContextId_parse
    (hex_encode (hmac_sha256 key
       (operation_context_message b transport_attempt_id object_id action))).

(** [GrantAuditOperation::operation_context_id] *)
Definition operation_context_id (a : GrantAuditOperation) (key : bytes)
    (transport_attempt_id object_id action : str) : result string OperationContextId :=
  let* hash := ok_or (hex_decode (ga_intent_digest a)) "decode retained root request commitment" in
  ensure! zlen hash =? 32 or "retained root request commitment length changed" ;;
  operation_context_derive key
    {| ocb_instance_id := ga_instance_id a; ocb_grant_id := ga_grant_id a;
       ocb_request_id := ga_request_id a; ocb_profile := ga_profile a;
       ocb_root_request_hash := hash |} transport_attempt_id object_id action.

(** *** Events *)

Definition audit_new (r : GrantRecord) (e : ProfilePoolEntry) (p : V6RequestPrelude)
    (deadline : Z) (instance_id : bytes) : GrantAuditOperation :=
  {| ga_entry := gr_entry r; ga_profile := pe_identity e; ga_request_id := V6.request_id p;
     ga_operation_kind := V6.operation_kind p; ga_policy_digest := grant_policy_digest r;
     ga_intent_digest := hex_encode (root_request_hash p); ga_instance_id := instance_id;
     ga_grant_id := og_grant_id (gr_grant r); ga_deadline := deadline;
     ga_state := AUDIT_STATE_PENDING |}.

Definition audit_event (a : GrantAuditOperation) (now_ms : Z) (ph : AuditPhase)
    (dec : AuditDecision) (reason : str) (result_digest : option str) : AuditEvent :=
  {| event_profile_id := hex_encode (id_profile_id (ga_profile a));
     event_generation := id_generation (ga_profile a);
     Ledger.request_id := ga_request_id a;
     at_unix_ms := now_ms;
     Ledger.operation_kind := ga_operation_kind a;
     phase := ph;
     decision := dec;
     policy_digest := ga_policy_digest a;
     intent_digest := ga_intent_digest a;
     Ledger.result_digest := result_digest;
     reason_code := reason |}.

Definition intent_event (a : GrantAuditOperation) (now_ms : Z) : AuditEvent :=
  audit_event a now_ms Intent Pending (rs "intent.recorded") None.

Definition decision_label (d : AuditDecision) : bytes :=
  match d with
  | Allowed => rs "allowed" | Denied => rs "denied" | Succeeded => rs "succeeded"
  | Ledger.Failed => rs "failed" | Unknown => rs "unknown" | Pending => rs "pending"
  end.
Definition outcome_digest (a : GrantAuditOperation) (t : AuditTerminal) : str :=
  hex_encode (sha256 (rs "serctl/audit/grant-result/v1" ++ [x00] ++ ga_intent_digest a ++
    decision_label (at_decision t) ++ at_reason_code t ++ be64 (zlen (at_result_material t)) ++
    at_result_material t)).
Definition outcome_event (a : GrantAuditOperation) (now_ms : Z) (t : AuditTerminal) : AuditEvent :=
  audit_event a now_ms Outcome (at_decision t) (at_reason_code t) (Some (outcome_digest a t)).

(** *** Appending: [GrantAuditOperation::append]

    [None] when the waiting future was dropped. *)
Definition audit_append (a : GrantAuditOperation) (now : Z) (ft : fate) (e : AuditEvent)
    (d : State) : State * option (result string unit) :=
  if ga_deadline a <=? now then (d, Some (Err "authoritative audit persistence deadline expired"))
  else
    let detach := {| grants := grants d; ledger := ledger d;
                     detached := (ga_profile a, e) :: detached d |} in
    match ft with
    | OnTime =>
        let (l, r) := sink_append (ga_profile a) e (ledger d) in
        ({| grants := grants d; ledger := l; detached := detached d |}, Some r)
    | TimedOut => (detach, Some (Err "authoritative audit persistence exceeded its deadline"))
    | Dropped_ => (detach, None)
    end.

Definition record_intent (a : GrantAuditOperation) (now now_ms : Z) (ft : fate) (d : State)
  : State * option (result string unit) :=
  match audit_append a now ft (intent_event a now_ms) d with
  | (d', Some (Err e)) => (set_quarantined (ga_entry a) d', Some (Err e))
  | other => other
  end.

Definition record_outcome (a : GrantAuditOperation) (t : AuditTerminal) (now now_ms : Z)
    (ft : fate) (d : State) : GrantAuditOperation * State * option (result string unit) :=
  match ga_state a with
  | AUDIT_STATE_PENDING =>
      match audit_append a now ft (outcome_event a now_ms t) d with
      | (d', Some (Ok _)) => (with_state a AUDIT_STATE_COMPLETE, d', Some (Ok tt))
      | (d', Some (Err e)) =>
          (with_state a AUDIT_STATE_FAILED, set_quarantined (ga_entry a) d', Some (Err e))
      | (d', None) => (with_state a AUDIT_STATE_FINALIZING, d', None)
      end
  | AUDIT_STATE_COMPLETE => (a, d, Some (Ok tt))
  | AUDIT_STATE_FAILED => (a, d, Some (Err "authoritative audit outcome persistence failed"))
  | AUDIT_STATE_FINALIZING =>
      (a, d, Some (Err "authoritative audit outcome is already being finalized"))
  end.

Definition record_denied (a : GrantAuditOperation) (reason : str) (now now_ms : Z) (ft : fate)
    (d : State) : GrantAuditOperation * State * option (result string unit) :=
  record_outcome a {| at_decision := Denied; at_reason_code := reason; at_result_material := [] |}
    now now_ms ft d.

Definition finalize_unknown_if_pending (a : GrantAuditOperation) (now now_ms : Z) (ft : fate)
    (d : State) : GrantAuditOperation * State * option (result string unit) :=
  match ga_state a with
  | AUDIT_STATE_PENDING =>
      record_outcome a {| at_decision := Unknown;
                          at_reason_code := rs "dispatch.no_terminal_result";
                          at_result_material := [] |} now now_ms ft d
  | AUDIT_STATE_COMPLETE => (a, d, Some (Ok tt))
  | AUDIT_STATE_FAILED => (a, d, Some (Err "authoritative audit outcome persistence failed"))
  | AUDIT_STATE_FINALIZING =>
      (with_state a AUDIT_STATE_FAILED, set_quarantined (ga_entry a) d,
       Some (Err "authoritative audit outcome finalization was interrupted"))
  end.

(** *** Terminal responses *)

(** [hay.contains(needle)] *)
Fixpoint str_contains (needle hay : str) : bool :=
  bool_decide (take (length needle) hay = needle) ||
  match hay with [] => false | _ :: hay' => str_contains needle hay' end.

Definition terminal (dec : AuditDecision) (reason : string) (material : bytes) : AuditTerminal :=
  {| at_decision := dec; at_reason_code := rs reason; at_result_material := material |}.
Definition dispatch_succeeded (material : bytes) : option AuditTerminal :=
  Some (terminal Succeeded "dispatch.succeeded" material).

Definition terminal_for_frame (kind : str) (f : Frame) : option AuditTerminal :=
  let on k := bool_decide (kind = rs k) in
  match f with
  | Error msg =>
      let normalized := to_ascii_lowercase msg in
      if str_contains (rs "outcome unknown") normalized
         || str_contains (rs "outcome is unknown") normalized
         || str_contains (rs "may have reached remote") normalized
      then Some (terminal Unknown "dispatch.outcome_unknown" [])
      else Some (terminal Ledger.Failed "dispatch.failed" [])
  | ExecExit code _ _ =>
      if on "ssh.exec" then
        match code with
        | Some c => if c =? 0 then dispatch_succeeded (be_i32 0)
                    else Some (terminal Ledger.Failed "dispatch.remote_failure" (be_i32 c))
        | None => Some (terminal Unknown "dispatch.outcome_unknown" [])
        end
      else None
  | StatusInfo _ _ _ _ _ _ => if on "daemon.status" then dispatch_succeeded [] else None
  | ConnectionIdentityInfo _ => if on "ssh.connection-identity" then dispatch_succeeded [] else None
  | DirList _ _ _ _ => if on "sftp.list" then dispatch_succeeded [] else None
  | CreateDirAccepted _ _ => if on "sftp.write" then dispatch_succeeded [] else None
  | TransferStatusInfo _ => if on "transfer.status" then dispatch_succeeded [] else None
  | TransferCancelAccepted _ => if on "transfer.cancel" then dispatch_succeeded [] else None
  | ManagedTunnelOpened _ =>
      if on "forward.local/open" || on "forward.remote/open" || on "forward.dynamic/open"
      then dispatch_succeeded [] else None
  | ManagedTunnelStatusInfo _ => if on "forward.status" then dispatch_succeeded [] else None
  | TransferDone n => if on "transfer.write" then dispatch_succeeded (be64 n) else None
  | TransferProgressFrame p =>
      if on "transfer.read" then
        match progress_stage p with
        | Completed => dispatch_succeeded (be64 (confirmed_bytes p))
        | _ => None
        end
      else None
  | ManagedTunnelTerminal status =>
      if on "forward.cancel" then
        match status_stage status with
        | Closed => dispatch_succeeded []
        | TunnelStageUnknown => Some (terminal Unknown "dispatch.outcome_unknown" [])
        | _ => None
        end
      else None
  | _ => None
  end.

Definition audit_failure_frame : Frame :=
  Error (rs "operation outcome is unknown because authoritative audit persistence failed; profile quarantined").

(** [before_terminal_frame]: the frame to write instead, if any; the outer
    [None] when the write was dropped while it waited for the audit. *)
Definition before_terminal_frame (a : GrantAuditOperation) (f : Frame) (now now_ms : Z) (ft : fate)
    (d : State) : GrantAuditOperation * State * option (option Frame) :=
  match terminal_for_frame (ga_operation_kind a) f with
  | None => (a, d, Some None)
  | Some t =>
      match record_outcome a t now now_ms ft d with
      | (a', d', Some (Ok _)) => (a', d', Some None)
      | (a', d', Some (Err _)) => (a', d', Some (Some audit_failure_frame))
      | (a', d', None) => (a', d', None)
      end
  end.

Definition operation_allowed_while_quarantined (kind : str) : bool :=
  bool_decide (kind ∈ [rs "daemon.status"; rs "ssh.connection-identity"; rs "sftp.list";
                       rs "transfer.read"; rs "transfer.status"])
  || bool_decide (take 6 kind = rs "audit.").

Definition validate_grant_frame_binding (f : Frame) : result string unit :=
  match f with
  | Download _ _ None _ _ _ _ _ _ _ _ =>
      Err "grant-authorized downloads require a local-target commitment"
  | TransferCancel _ None =>
      Err "grant-authorized transfer cancellation requires an operation context id"
  | _ => Ok tt
  end.

Definition validate_connection_identity_binding (f : Frame) (i : ProfileIdentity)
  : result string unit :=
  match f with
  | ConnectionIdentity pid generation =>
      ensure (bool_decide (pid = id_profile_id i) && (generation =? id_generation i))
        "SSH connection identity request does not match the authorized profile generation"
  | _ => Ok tt
  end.

(** ** The handler

    The operation arm of [handle_global_conn].  [RefusedWith e] is an
    [ipc::Frame::Error] response that carries [e] (the audit operation is there
    when the intent is recorded already); [FailedWith e] closes the connection
    with the handler's error. *)
Inductive outcome :=
| RefusedWith (audit : option GrantAuditOperation) (e : string)
| FailedWith (e : string)
| Relayed (record : option nat) (audit : option GrantAuditOperation) (released : list Frame)
    (audit_finalization outcome_ : result string unit)
| Aborted.

Inductive pc :=
| PcStart
| PcValidate (record : nat)
| PcAuthorize (record : option nat) (entry : nat)
| PcIntent (record entry : nat) (audit : GrantAuditOperation)
| PcQuarantine (record : option nat) (entry : nat) (audit : option GrantAuditOperation)
    (deadline : Z)
| PcSpend (record entry : nat) (audit : GrantAuditOperation) (observed : option Z)
| PcExhaust (record entry : nat) (audit : GrantAuditOperation)
| PcRefuse (record entry : nat) (audit : GrantAuditOperation)
| PcDeny (record entry : nat) (audit : GrantAuditOperation)
| PcDispatch (record : option nat) (entry : nat) (audit : option GrantAuditOperation)
    (deadline : Z) (released : list Frame)
| PcFinalize (record : option nat) (audit : option GrantAuditOperation) (released : list Frame)
    (outcome_ : result string unit)
| PcDone (o : outcome).

(** The [Arc] of the grant record the handler holds. *)
Definition held_record (c : pc) : option nat :=
  match c with
  | PcValidate l | PcIntent l _ _ | PcSpend l _ _ _ | PcExhaust l _ _ | PcRefuse l _ _
  | PcDeny l _ _ => Some l
  | PcAuthorize o _ | PcQuarantine o _ _ _ | PcDispatch o _ _ _ _ | PcFinalize o _ _ _ => o
  | PcStart | PcDone _ => None
  end.

(** Finish: the handler's [Arc] of the record is dropped. *)
Definition finish (c : pc) (o : outcome) (d : State) : State * pc :=
  (match held_record c with
   | Some l => with_grants d (arc_drop l (grants d))
   | None => d
   end, PcDone o).

Section handler.
Context (p : V6RequestPrelude) (f : Frame) (instance_id : bytes).

Definition UNKNOWN_GRANT_ERROR : string :=
  "grant is not registered in this daemon instance; the daemon may have restarted, so reissue the grant".

Definition seg_start (now : Z) (d : State) : State * pc :=
  match V6.grant_id p with
  | Some id =>
      let (g, a) := lookup id now (grants d) in
      let d := with_grants d g in
      match a with
      | LookupLive l => (d, PcValidate l)
      | LookupExhausted => (d, PcDone (RefusedWith None "grant budget exhausted"))
      | LookupExpired => (d, PcDone (RefusedWith None "grant has expired"))
      | LookupUnknown => (d, PcDone (RefusedWith None UNKNOWN_GRANT_ERROR))
      end
  | None =>
      match V6.profile_id p with
      | Some id =>
          let (g, a) := pool_entry_for id now (grants d) in
          let d := with_grants d g in
          match a with
          | Some entry => (d, PcAuthorize None entry)
          | None => (d, PcDone (RefusedWith None "profile is locked: unlock it first"))
          end
      | None => (d, PcDone (RefusedWith None "profile id is required for this operation"))
      end
  end.

Definition seg_validate (l : nat) (check_now now_ms : Z) (d : State) : State * pc :=
  match records (grants d) !! l with
  | Some r =>
      match entries (grants d) !! gr_entry r with
      | Some e =>
          match validate_request r e p check_now now_ms with
          | Err err =>
              let d := match V6.grant_id p with
                       | Some id =>
                           if record_is_expired r check_now
                           then with_grants d
                                  (mark_terminal_if_same id l Expired check_now (grants d))
                           else d
                       | None => d
                       end in
              finish (PcValidate l) (RefusedWith None err) d
          | Ok _ =>
              match validate_grant_frame_binding f with
              | Err err => finish (PcValidate l) (RefusedWith None err) d
              | Ok _ => (d, PcAuthorize (Some l) (gr_entry r))
              end
          end
      | None => (d, PcValidate l)
      end
  | None => (d, PcValidate l)
  end.

(** From the resolved entry to the authorization deadline. *)
Definition authorize (r : option GrantRecord) (e : ProfilePoolEntry) (now wall_now : Z)
  : result string Z :=
  let* expected_profile := ok_or
    (match r with Some r => Some (og_profile_name (gr_grant r)) | None => V6.profile_name p end)
    "profile name is required for this operation" in
  ensure! bool_decide (pe_profile e = expected_profile)
    or "profile name does not match its profile id" ;;
  try! validate_connection_identity_binding f (pe_identity e) ;;
  try! match r with
       | Some _ => Ok tt
       | None =>
           let* proof := ok_or (V6.profile_proof p) "profile call proof is required" in
           verify_profile_prelude_proof (pe_call_key e) proof p
       end ;;
  let lease := match r with Some r => gr_expires_at r | None => pe_expires_at e end in
  let* deadline :=
    match r with
    | Some _ =>
        let* remaining_ms := ok_or (checked_sub (requested_deadline_unix_ms p) wall_now)
          "requested deadline has expired" in
        let* requested := ok_or (instant_add now (from_millis remaining_ms))
          "requested deadline exceeds the monotonic clock range" in
        Ok (Z.min lease requested)
    | None => Ok lease
    end in
  ensure! now <? deadline or "profile authorization lease expired" ;;
  Ok deadline.

Definition seg_authorize (l : option nat) (entry : nat) (now wall_now : Z) (d : State)
  : State * pc :=
  match entries (grants d) !! entry with
  | Some e =>
      match l with
      | Some l' =>
          match records (grants d) !! l' with
          | Some r =>
              match authorize (Some r) e now wall_now with
              | Err err => finish (PcAuthorize l entry) (FailedWith err) d
              | Ok deadline => (d, PcIntent l' entry (audit_new r e p deadline instance_id))
              end
          | None => (d, PcAuthorize l entry)
          end
      | None =>
          match authorize None e now wall_now with
          | Err err => finish (PcAuthorize l entry) (FailedWith err) d
          | Ok deadline => (d, PcQuarantine None entry None deadline)
          end
      end
  | None => (d, PcAuthorize l entry)
  end.

Definition seg_intent (l entry : nat) (a : GrantAuditOperation) (now now_ms : Z) (ft : fate)
    (d : State) : State * pc :=
  let c := PcIntent l entry a in
  match record_intent a now now_ms ft d with
  | (d', Some (Ok _)) => (d', PcQuarantine (Some l) entry (Some a) (ga_deadline a))
  | (d', Some (Err err)) => finish c (RefusedWith None err) d'
  | (d', None) => finish c Aborted d'
  end.

Definition AUDIT_UNAVAILABLE : string :=
  "profile audit is unavailable; operation denied and outcome unknown".

(** A denial recorded before the response [msg]. *)
Definition deny (c : pc) (a : GrantAuditOperation) (reason : str) (msg : string)
    (now now_ms : Z) (ft : fate) (d : State) : State * pc :=
  match record_denied a reason now now_ms ft d with
  | (a', d', Some (Ok _)) => finish c (RefusedWith (Some a') msg) d'
  | (a', d', Some (Err _)) => finish c (RefusedWith (Some a') AUDIT_UNAVAILABLE) d'
  | (_, d', None) => finish c Aborted d'
  end.

Definition seg_quarantine (l : option nat) (entry : nat) (a : option GrantAuditOperation)
    (deadline now now_ms : Z) (ft : fate) (d : State) : State * pc :=
  let c := PcQuarantine l entry a deadline in
  match entries (grants d) !! entry with
  | Some e =>
      if pe_quarantined e && negb (operation_allowed_while_quarantined (V6.operation_kind p)) then
        let msg := "profile is quarantined; mutation operations are disabled" in
        match a with
        | Some a' => deny c a' (rs "quarantine.mutation_denied") msg now now_ms ft d
        | None => finish c (RefusedWith None msg) d
        end
      else
        match l, a with
        | Some l', Some a' => (d, PcSpend l' entry a' None)
        | _, _ => (d, PcDispatch l entry a deadline [])
        end
  | None => (d, c)
  end.

(** [spend_budget]: [remaining.load], then [compare_exchange_weak] until it
    succeeds or the budget is zero.  [spurious]: the exchange fails although
    the value matches. *)
Definition seg_spend (l entry : nat) (a : GrantAuditOperation) (observed : option Z)
    (spurious : bool) (d : State) : State * pc :=
  match records (grants d) !! l with
  | Some r =>
      match observed with
      | None => (d, PcSpend l entry a (Some (gr_remaining r)))
      | Some n =>
          if n =? 0 then (d, PcRefuse l entry a)
          else if (gr_remaining r =? n) && negb spurious then
            let g := grants d in
            (with_grants d (with_records g (<[l := with_remaining r (n - 1)]> (records g)) (work g)),
             if n =? 1 then PcExhaust l entry a
             else PcDispatch (Some l) entry (Some a) (ga_deadline a) [])
          else (d, PcSpend l entry a (Some (gr_remaining r)))
      end
  | None => (d, PcSpend l entry a observed)
  end.

Definition mark_exhausted (l : nat) (now : Z) (d : State) : State :=
  match V6.grant_id p with
  | Some id => with_grants d (mark_terminal_if_same id l Exhausted now (grants d))
  | None => d
  end.

Definition seg_exhaust (l entry : nat) (a : GrantAuditOperation) (spend_now : Z) (d : State)
  : State * pc :=
  (mark_exhausted l spend_now d, PcDispatch (Some l) entry (Some a) (ga_deadline a) []).

Definition seg_refuse (l entry : nat) (a : GrantAuditOperation) (spend_now : Z) (d : State)
  : State * pc :=
  (mark_exhausted l spend_now d, PcDeny l entry a).

Definition seg_deny (l entry : nat) (a : GrantAuditOperation) (now now_ms : Z) (ft : fate)
    (d : State) : State * pc :=
  deny (PcDeny l entry a) a (rs "grant.budget_exhausted") "grant budget exhausted" now now_ms ft d.

(** The running operation writes a response; [wrote]: its deadline has not
    passed and the transport took the frame. *)
Definition seg_respond (l : option nat) (entry : nat) (a : option GrantAuditOperation)
    (deadline : Z) (released : list Frame) (response : Frame) (now now_ms : Z) (ft : fate)
    (wrote : bool) (d : State) : State * pc :=
  let release fr := if wrote then released ++ [fr] else released in
  match a with
  | None => (d, PcDispatch l entry None deadline (release response))
  | Some a =>
      match before_terminal_frame a response now now_ms ft d with
      | (a', d', Some None) => (d', PcDispatch l entry (Some a') deadline (release response))
      | (a', d', Some (Some replacement)) =>
          (d', PcDispatch l entry (Some a') deadline (release replacement))
      | (a', d', None) => (d', PcDispatch l entry (Some a') deadline released)
      end
  end.

(** [dispatch_root_request] returned [result]. *)
Definition seg_return (l : option nat) (a : option GrantAuditOperation) (released : list Frame)
    (result_ : result string unit) (d : State) : State * pc :=
  (d, PcFinalize l a released result_).

Definition seg_finalize (l : option nat) (a : option GrantAuditOperation) (released : list Frame)
    (result_ : result string unit) (now now_ms : Z) (ft : fate) (d : State) : State * pc :=
  let c := PcFinalize l a released result_ in
  match a with
  | None => finish c (Relayed l None released (Ok tt) result_) d
  | Some a =>
      match finalize_unknown_if_pending a now now_ms ft d with
      | (a', d', Some r) => finish c (Relayed l (Some a') released r result_) d'
      | (_, d', None) => finish c Aborted d'
      end
  end.

(** One segment of the handler, for some behaviour of its environment. *)
Inductive hstep : State -> pc -> State -> pc -> Prop :=
| h_start now d : hstep d PcStart (seg_start now d).1 (seg_start now d).2
| h_validate l now now_ms d :
    hstep d (PcValidate l) (seg_validate l now now_ms d).1 (seg_validate l now now_ms d).2
| h_authorize l entry now wall_now d :
    hstep d (PcAuthorize l entry)
      (seg_authorize l entry now wall_now d).1 (seg_authorize l entry now wall_now d).2
| h_intent l entry a now now_ms ft d :
    hstep d (PcIntent l entry a)
      (seg_intent l entry a now now_ms ft d).1 (seg_intent l entry a now now_ms ft d).2
| h_quarantine l entry a deadline now now_ms ft d :
    hstep d (PcQuarantine l entry a deadline)
      (seg_quarantine l entry a deadline now now_ms ft d).1
      (seg_quarantine l entry a deadline now now_ms ft d).2
| h_spend l entry a observed spurious d :
    hstep d (PcSpend l entry a observed)
      (seg_spend l entry a observed spurious d).1 (seg_spend l entry a observed spurious d).2
| h_exhaust l entry a now d :
    hstep d (PcExhaust l entry a) (seg_exhaust l entry a now d).1 (seg_exhaust l entry a now d).2
| h_refuse l entry a now d :
    hstep d (PcRefuse l entry a) (seg_refuse l entry a now d).1 (seg_refuse l entry a now d).2
| h_deny l entry a now now_ms ft d :
    hstep d (PcDeny l entry a)
      (seg_deny l entry a now now_ms ft d).1 (seg_deny l entry a now now_ms ft d).2
| h_respond l entry a deadline released response now now_ms ft wrote d :
    hstep d (PcDispatch l entry a deadline released)
      (seg_respond l entry a deadline released response now now_ms ft wrote d).1
      (seg_respond l entry a deadline released response now now_ms ft wrote d).2
| h_return l entry a deadline released r d :
    hstep d (PcDispatch l entry a deadline released)
      (seg_return l a released r d).1 (seg_return l a released r d).2
| h_finalize l a released r now now_ms ft d :
    hstep d (PcFinalize l a released r)
      (seg_finalize l a released r now now_ms ft d).1 (seg_finalize l a released r now now_ms ft d).2
(* the task is aborted between two segments *)
| h_abort c d : (forall o, c <> PcDone o) -> hstep d c (finish c Aborted d).1 (finish c Aborted d).2.
End handler.

(** ** The daemon *)

Record Handler := { h_prelude : V6RequestPrelude; h_frame : Frame; h_pc : pc }.

(** A claimed budget unit: which record, for which request. *)
Record Claim := {
  cl_record : nat;
  cl_prelude : V6RequestPrelude;
  cl_frame : Frame;
  cl_entry : nat;
  cl_audit : GrantAuditOperation;
}.

(** [sys_claims] is history: it records every claim and influences nothing. *)
Record Sys := {
  sys_daemon : State;
  sys_handlers : gmap nat Handler;
  sys_claims : list Claim;
}.

Definition with_daemon (s : Sys) (d : State) : Sys :=
  {| sys_daemon := d; sys_handlers := sys_handlers s; sys_claims := sys_claims s |}.

Definition claimed (h : Handler) (c' : pc) : list Claim :=
  let claim l entry a := [{| cl_record := l; cl_prelude := h_prelude h; cl_frame := h_frame h;
                             cl_entry := entry; cl_audit := a |}] in
  match h_pc h, c' with
  | PcSpend l entry a _, PcExhaust _ _ _ => claim l entry a
  | PcSpend l entry a _, PcDispatch _ _ _ _ _ => claim l entry a
  | _, _ => []
  end.

(** The kinds [handle_global_conn] serves itself. *)
Definition is_control_kind (kind : str) : bool :=
  bool_decide (kind ∈ [rs "daemon.unlock"; rs "daemon.list-profiles"; rs "daemon.issue-grant";
                       rs "daemon.shutdown"]).

(** One step of the daemon: an authenticated request arrives (the session
    layer has checked that it is of the prelude's kind), a handler runs a
    segment, a finished one leaves; a profile is unlocked; a grant is issued;
    the reaper prunes; a detached audit write runs, or never does. *)
Inductive sys_step (instance_id : bytes) : Sys -> Sys -> Prop :=
| s_accept tid p f s :
    sys_handlers s !! tid = None ->
    frame_kind f = V6.operation_kind p -> is_control_kind (frame_kind f) = false ->
    sys_step instance_id s
      {| sys_daemon := with_grants (sys_daemon s) (idle_acquire (grants (sys_daemon s)));
         sys_handlers := <[tid := {| h_prelude := p; h_frame := f; h_pc := PcStart |}]>
                           (sys_handlers s);
         sys_claims := sys_claims s |}
| s_run tid h d' c' s :
    sys_handlers s !! tid = Some h ->
    hstep (h_prelude h) (h_frame h) instance_id (sys_daemon s) (h_pc h) d' c' ->
    sys_step instance_id s
      {| sys_daemon := d';
         sys_handlers := <[tid := {| h_prelude := h_prelude h; h_frame := h_frame h;
                                     h_pc := c' |}]> (sys_handlers s);
         sys_claims := claimed h c' ++ sys_claims s |}
| s_leave tid h o s :
    sys_handlers s !! tid = Some h -> h_pc h = PcDone o ->
    sys_step instance_id s
      {| sys_daemon := with_grants (sys_daemon s) (idle_release (grants (sys_daemon s)));
         sys_handlers := delete tid (sys_handlers s);
         sys_claims := sys_claims s |}
| s_unlock e s :
    pe_quarantined e = false ->
    sys_step instance_id s (with_daemon s (with_grants (sys_daemon s)
      (pool_insert (id_profile_id (pe_identity e)) e (grants (sys_daemon s)))))
| s_issue p f draw pool_now wall_now now s :
    sys_step instance_id s (with_daemon s (with_grants (sys_daemon s)
      (issue_grant p f draw pool_now wall_now now (grants (sys_daemon s))).1))
| s_reap_pool now s :
    sys_step instance_id s (with_daemon s (with_grants (sys_daemon s)
      (pool_prune_expired now (grants (sys_daemon s)))))
| s_reap_grants now s :
    sys_step instance_id s (with_daemon s (with_grants (sys_daemon s)
      (grants_prune_expired now (grants (sys_daemon s)))))
| s_detached l1 i e l2 s :
    detached (sys_daemon s) = l1 ++ (i, e) :: l2 ->
    sys_step instance_id s (with_daemon s
      {| grants := grants (sys_daemon s);
         ledger := (sink_append i e (ledger (sys_daemon s))).1;
         detached := l1 ++ l2 |})
| s_cancelled l1 i e l2 s :
    detached (sys_daemon s) = l1 ++ (i, e) :: l2 ->
    sys_step instance_id s (with_daemon s
      {| grants := grants (sys_daemon s); ledger := ledger (sys_daemon s);
         detached := l1 ++ l2 |}).

(** The daemon as it starts, over some ledger. *)
Definition sys_init (l : L) : Sys :=
  {| sys_daemon := {| grants := {| pool := ∅; live := ∅; tombstones := ∅; records := [];
                                   entries := []; work := 0 |};
                      ledger := l; detached := [] |};
     sys_handlers := ∅; sys_claims := [] |}.
Definition reachable (instance_id : bytes) (l : L) : Sys -> Prop :=
  rtc (sys_step instance_id) (sys_init l).
End relay.
