(* ===== verification/DaemonRelayTheory.v ===== *)
(** * serctl_daemon: the grant relay, theorems

    For every interleaving of handlers, issuance, expiry and audit writes: a
    grant is never spent beyond its budget, every claimed unit belongs to a
    request the grant authorizes and whose intent is already in the audit
    ledger, and no terminal response is released before its outcome is. *)

From stdpp Require Import gmap sorting.
From S2P Require Import Prelude.
From S2P Require Import Bytes.
From S2P Require Import Text.
From S2P Require Import Crates.
From S2P Require Import IpcCrates.
From S2P Require Import Async.
From S2P Require Import Ledger.
From S2P Require Import IpcFrame.
From S2P Require Import V6.
From S2P Require Import Grant.
From S2P Require Import DaemonGrants.
From S2P Require Import DaemonGrantsTheory.
From S2P Require Import DaemonRelay.
#[local] Open Scope string_scope.
#[local] Open Scope list_scope.
#[local] Open Scope Z_scope.

Section theory.
Context {L : Type} `{AuditSink L, !AuditSinkLaws L}
  `{Sha2, HmacSha2, Hex, Base64, Ed25519, JsonSer PopPayload, JsonSer ProfileProofPayload}.
Notation State := (Daemon L).

(** ** What never changes *)

(** An entry as it was unlocked; its quarantine flag is only ever set. *)
Definition same_entry (e e' : ProfilePoolEntry) : Prop :=
  pe_identity e' = pe_identity e /\ pe_profile e' = pe_profile e /\
  pe_call_key e' = pe_call_key e /\ pe_expires_at e' = pe_expires_at e /\
  (pe_quarantined e = true -> pe_quarantined e' = true).

Record extends (d d' : State) : Prop := {
  ex_entries n e : entries (grants d) !! n = Some e ->
    exists e', entries (grants d') !! n = Some e' /\ same_entry e e';
  ex_records l r : records (grants d) !! l = Some r ->
    exists r', records (grants d') !! l = Some r' /\ same_record r r';
  ex_events i : sink_events i (ledger d) `prefix_of` sink_events i (ledger d');
}.

Lemma same_entry_refl e : same_entry e e.
Proof. by split_and!. Qed.
Lemma same_entry_trans a b c : same_entry a b -> same_entry b c -> same_entry a c.
Proof. intros (? & ? & ? & ? & ?) (? & ? & ? & ? & ?). split_and!; try congruence; auto. Qed.
Lemma same_record_trans a b c : same_record a b -> same_record b c -> same_record a c.
Proof. intros (? & ? & ?) (? & ? & ?). split_and!; congruence. Qed.

Lemma extends_refl d : extends d d.
Proof. constructor; eauto using same_entry_refl, same_record_refl. Qed.

Lemma extends_trans d1 d2 d3 : extends d1 d2 -> extends d2 d3 -> extends d1 d3.
Proof.
  intros [E1 R1 V1] [E2 R2 V2]. constructor.
  - intros n e He. destruct (E1 _ _ He) as (e1 & He1 & ?). destruct (E2 _ _ He1) as (e2 & ? & ?).
    exists e2. eauto using same_entry_trans.
  - intros l r Hr. destruct (R1 _ _ Hr) as (r1 & Hr1 & ?). destruct (R2 _ _ Hr1) as (r2 & ? & ?).
    exists r2. eauto using same_record_trans.
  - intros i. etrans; [apply V1|apply V2].
Qed.

(** The heaps of one state continued by those of another. *)
Definition grows (g g' : Grants) : Prop :=
  (forall n e, entries g !! n = Some e -> exists e', entries g' !! n = Some e' /\ same_entry e e') /\
  (forall l r, records g !! l = Some r -> exists r', records g' !! l = Some r' /\ same_record r r').

Lemma grows_refl g : grows g g.
Proof. split; eauto using same_entry_refl, same_record_refl. Qed.

Lemma grows_trans g1 g2 g3 : grows g1 g2 -> grows g2 g3 -> grows g1 g3.
Proof.
  intros [E1 R1] [E2 R2]. split.
  - intros n e He. destruct (E1 _ _ He) as (e1 & He1 & ?). destruct (E2 _ _ He1) as (e2 & ? & ?).
    exists e2. eauto using same_entry_trans.
  - intros l r Hr. destruct (R1 _ _ Hr) as (r1 & Hr1 & ?). destruct (R2 _ _ Hr1) as (r2 & ? & ?).
    exists r2. eauto using same_record_trans.
Qed.

Lemma grows_extends d g : grows (grants d) g -> extends d (with_grants d g).
Proof. intros [He Hr]. by constructor. Qed.

Lemma kept_lookup g g' l r : records_kept g g' -> records g !! l = Some r ->
  exists r', records g' !! l = Some r' /\ same_record r r' /\ gr_remaining r' = gr_remaining r.
Proof.
  intros [Hlen Hk] Hr. assert (is_Some (records g' !! l)) as [r' Hr'].
  { apply lookup_lt_is_Some_2. rewrite Hlen. by eapply lookup_lt_Some. }
  destruct (Hk _ _ Hr') as (r0 & Hr0 & Hs & Hrem). rewrite Hr in Hr0. injection Hr0 as <-.
  by exists r'.
Qed.

Lemma kept_grows g g' : records_kept g g' -> entries g' = entries g -> grows g g'.
Proof.
  intros Hk He. split.
  - intros n e Hn. exists e. rewrite He. auto using same_entry_refl.
  - intros l r Hr. destruct (kept_lookup _ _ _ _ Hk Hr) as (r' & ? & ? & _). eauto.
Qed.

Lemma arc_drop_kept l g : records_kept g (arc_drop l g).
Proof.
  destruct (records g !! l) as [r|] eqn:Hr.
  - destruct (arc_drop_records l g r Hr) as [Hrecs _]. split.
    + by rewrite Hrecs, length_insert.
    + intros l' r' Hr'. destruct (arc_records_lookup g _ l r _ Hr Hrecs _ _ Hr')
        as (r0 & ? & ? & ? & _). eauto.
  - unfold arc_drop. rewrite Hr. apply records_kept_refl.
Qed.

Lemma arc_clone_kept l g : records_kept g (arc_clone l g).
Proof.
  destruct (records g !! l) as [r|] eqn:Hr.
  - destruct (arc_clone_records l g r Hr) as [Hrecs _]. split.
    + by rewrite Hrecs, length_insert.
    + intros l' r' Hr'. destruct (arc_records_lookup g _ l r _ Hr Hrecs _ _ Hr')
        as (r0 & ? & ? & ? & _). eauto.
  - unfold arc_clone. rewrite Hr. apply records_kept_refl.
Qed.

(** ** The registry while handlers run *)

Lemma registry_ok_held conns held held' g :
  (forall l, held l = held' l) -> registry_ok conns held g -> registry_ok conns held' g.
Proof.
  intros E []. constructor; try done; intros; rewrite <-E; auto.
Qed.

Lemma quarantine_lookup (n n' : nat) (es : list ProfilePoolEntry) e : alter quarantine_entry n es !! n' = Some e ->
  exists e0, es !! n' = Some e0 /\ same_entry e0 e.
Proof.
  destruct (decide (n = n')) as [<-|Hne].
  - rewrite list_lookup_alter_eq. destruct (es !! n) as [e0|]; cbn; [|done]. intros [= <-].
    exists e0. by split_and!.
  - rewrite list_lookup_alter_ne by done. intros He. exists e. auto using same_entry_refl.
Qed.

Lemma quarantine_lookup_fwd (n n' : nat) (es : list ProfilePoolEntry) e : es !! n' = Some e ->
  exists e', alter quarantine_entry n es !! n' = Some e' /\ same_entry e e' /\
    (n' = n -> pe_quarantined e' = true).
Proof.
  intros He. destruct (decide (n = n')) as [<-|Hne].
  - rewrite list_lookup_alter_eq, He. cbn. eexists. by split_and!.
  - rewrite list_lookup_alter_ne by done. exists e. split_and!; [done|apply same_entry_refl|].
    by intros ->.
Qed.

Lemma registry_ok_quarantined conns held entry (d : State) :
  registry_ok conns held (grants d) -> registry_ok conns held (grants (set_quarantined entry d)).
Proof.
  intros [Hd Hlv Hcap Hts Hrec Hstr Hhld Hwk Hcn]. constructor; try done; cbn.
  intros l r Hr. destruct (Hrec _ _ Hr) as [Hwf Hb (e & He & Hi & Hg & Hp)].
  constructor; try done. cbn.
  destruct (quarantine_lookup_fwd entry _ _ _ He) as (e' & He' & (E1 & E2 & _) & _).
  exists e'. rewrite E1, E2. by split_and!.
Qed.

Lemma pool_ok_quarantined entry (d : State) :
  pool_ok (grants d) -> pool_ok (grants (set_quarantined entry d)).
Proof.
  intros Hp id l Hl. destruct (Hp id l Hl) as (e & He & Hid). cbn.
  destruct (quarantine_lookup_fwd entry _ _ _ He) as (e' & He' & (E1 & _) & _).
  exists e'. by rewrite E1.
Qed.

Lemma quarantined_extends entry (d : State) : extends d (set_quarantined entry d).
Proof.
  apply grows_extends. split; cbn; [|eauto using same_record_refl]. intros n e He.
  destruct (quarantine_lookup_fwd entry _ _ _ He) as (e' & He' & Hs & _). eauto.
Qed.

Lemma registry_ok_spent conns held g l r n :
  registry_ok conns held g -> records g !! l = Some r -> 0 <= n <= og_budget (gr_grant r) ->
  registry_ok conns held (with_records g (<[l := with_remaining r n]> (records g)) (work g)).
Proof.
  intros [Hd Hlv Hcap Hts Hrec Hstr Hhld Hwk Hcn] Hr Hn.
  assert (forall l' r', <[l := with_remaining r n]> (records g) !! l' = Some r' ->
    exists r0, records g !! l' = Some r0 /\ same_record r0 r' /\ gr_strong r' = gr_strong r0 /\
      (0 <= gr_remaining r' <= og_budget (gr_grant r'))) as Hback.
  { intros l' r' Hr'. destruct (decide (l' = l)) as [->|Hne].
    - rewrite list_lookup_insert_eq in Hr' by (by eapply lookup_lt_Some). injection Hr' as <-.
      by exists r.
    - rewrite list_lookup_insert_ne in Hr' by done. exists r'. split_and!; try done;
        apply (Hrec _ _ Hr'). }
  constructor; try done; cbn.
  - intros id l' Hl'. destruct (Hlv _ _ Hl') as (r' & Hr' & Hid).
    destruct (decide (l' = l)) as [->|Hne].
    + rewrite list_lookup_insert_eq by (by eapply lookup_lt_Some). eexists. split; [done|].
      cbn. congruence.
    + rewrite list_lookup_insert_ne by done. eauto.
  - intros l' r' Hr'. destruct (Hback _ _ Hr') as (r0 & Hr0 & (Hg & Hent & Hx) & _ & Hb).
    destruct (Hrec _ _ Hr0) as [Hwf _ He]. constructor; rewrite ?Hg, ?Hent; try done.
    by rewrite <-Hg.
  - intros l' r' Hr'. destruct (Hback _ _ Hr') as (r0 & Hr0 & (Hg & _) & -> & _).
    rewrite (Hstr _ _ Hr0). unfold registered. by rewrite Hg.
  - intros l' Hl'. apply Hhld. apply lookup_ge_None in Hl'. rewrite length_insert in Hl'.
    by apply lookup_ge_None.
  - pose proof (used_insert (records g) l r (with_remaining r n) Hr) as Hu.
    unfold in_use in Hu. cbn in Hu. rewrite Hwk. lia.
Qed.

(** ** Changes that spend nothing *)

(** The registry stays in order for the same [Arc]s, nothing already there is
    lost or altered, and no budget moves. *)
Definition benign (conns : Z) (held : nat -> nat) (d d' : State) : Prop :=
  registry_ok conns held (grants d) -> pool_ok (grants d) ->
  registry_ok conns held (grants d') /\ pool_ok (grants d') /\ extends d d' /\
  records_kept (grants d) (grants d').

Lemma benign_refl conns held d : benign conns held d d.
Proof. intros ? ?. split_and!; auto using extends_refl, records_kept_refl. Qed.

Lemma benign_trans conns held d1 d2 d3 :
  benign conns held d1 d2 -> benign conns held d2 d3 -> benign conns held d1 d3.
Proof.
  intros B1 B2 Hok Hp. destruct (B1 Hok Hp) as (Hok2 & Hp2 & E1 & K1).
  destruct (B2 Hok2 Hp2) as (? & ? & E2 & K2).
  split_and!; [done|done|by eapply extends_trans|by eapply records_kept_trans].
Qed.

Lemma benign_quarantined conns held entry d : benign conns held d (set_quarantined entry d).
Proof.
  intros ? ?. split_and!; [by apply registry_ok_quarantined|by apply pool_ok_quarantined
    |apply quarantined_extends|exact (records_kept_refl (grants d))].
Qed.

Lemma benign_ledger conns held (d d' : State) :
  grants d' = grants d ->
  (forall i, sink_events i (ledger d) `prefix_of` sink_events i (ledger d')) ->
  benign conns held d d'.
Proof.
  intros Eg Hev Hok Hp. rewrite Eg. split_and!; [done|done| |apply records_kept_refl].
  constructor; rewrite ?Eg; eauto using same_entry_refl, same_record_refl.
Qed.

Lemma benign_mark conns held id l kind now d :
  benign conns held d (with_grants d (mark_terminal_if_same id l kind now (grants d))).
Proof.
  intros Hok Hp. destruct (mark_terminal_ok conns held id l kind now _ Hok)
    as (Hok' & Hk & He & Hpl & _). cbn. split_and!; [done| |by apply grows_extends, kept_grows|done].
  intros id' l'. rewrite Hpl, He. apply Hp.
Qed.

Lemma sink_grows i j e (l l' : L) r : sink_append i e l = (l', r) ->
  sink_events j l `prefix_of` sink_events j l'.
Proof.
  intros Hs. destruct (decide (i = j)) as [<-|Hne].
  - apply sink_append_spec in Hs as ->. by apply prefix_app_r.
  - pose proof (sink_append_other i j e l Hne) as E. rewrite Hs in E. cbn in E. by rewrite E.
Qed.

Lemma audit_append_benign conns held a now ft e d d' r :
  audit_append a now ft e d = (d', r) -> benign conns held d d' /\ grants d' = grants d.
Proof.
  unfold audit_append. destruct (_ <=? _); [intros [= <- _]; split; [apply benign_refl|done]|].
  destruct ft.
  - destruct (sink_append _ _ _) as [l' r'] eqn:Hs. intros [= <- <-]. split; [|done].
    apply benign_ledger; [done|]. intros i. by eapply sink_grows.
  - intros [= <- _]. split; [by apply benign_ledger|done].
  - intros [= <- _]. split; [by apply benign_ledger|done].
Qed.

Lemma audit_append_ok a now ft e d d' u :
  audit_append a now ft e d = (d', Some (Ok u)) ->
  e ∈ sink_events (ga_profile a) (ledger d').
Proof.
  unfold audit_append. destruct (_ <=? _); [done|]. destruct ft; [|done|done].
  destruct (sink_append _ _ _) as [l' r'] eqn:Hs. intros [= <- ->]. cbn.
  apply sink_append_spec in Hs as ->. cbn. set_solver.
Qed.

Definition recorded (d : State) (a : GrantAuditOperation) : Prop :=
  exists now_ms, intent_event a now_ms ∈ sink_events (ga_profile a) (ledger d).
Definition outcome_recorded (d : State) (a : GrantAuditOperation) : Prop :=
  exists now_ms t, outcome_event a now_ms t ∈ sink_events (ga_profile a) (ledger d).
Definition is_quarantined (d : State) (entry : nat) : Prop :=
  exists e, entries (grants d) !! entry = Some e /\ pe_quarantined e = true.

(** What the audit state means. *)
Definition audit_consistent (d : State) (a : GrantAuditOperation) : Prop :=
  match ga_state a with
  | AUDIT_STATE_COMPLETE => outcome_recorded d a
  | AUDIT_STATE_FAILED => is_quarantined d (ga_entry a)
  | _ => True
  end.

Lemma set_quarantined_is entry (d : State) : is_Some (entries (grants d) !! entry) ->
  is_quarantined (set_quarantined entry d) entry.
Proof.
  intros [e He]. destruct (quarantine_lookup_fwd entry _ _ _ He) as (e' & He' & _ & Hq).
  exists e'. cbn. auto.
Qed.

(** Recording an intent: it is in the ledger, or the profile is quarantined. *)
Lemma record_intent_spec conns held a now now_ms ft d d' r :
  record_intent a now now_ms ft d = (d', r) ->
  benign conns held d d' /\ (forall u, r = Some (Ok u) -> recorded d' a).
Proof.
  unfold record_intent. destruct (audit_append _ _ _ _ _) as [d1 r1] eqn:Ha.
  pose proof (audit_append_benign conns held _ _ _ _ _ _ _ Ha) as [Hb _].
  destruct r1 as [[u|e]|]; intros [= <- <-]; (split; [|intros u' [=]]); try done.
  - exists now_ms. subst. by eapply audit_append_ok.
  - eapply benign_trans; [exact Hb|apply benign_quarantined].
Qed.

(** Recording an outcome, whatever the state it starts from. *)
Lemma record_outcome_spec conns held a t now now_ms ft d a' d' r :
  is_Some (entries (grants d) !! ga_entry a) -> audit_consistent d a ->
  record_outcome a t now now_ms ft d = (a', d', r) ->
  benign conns held d d' /\ (exists st, a' = with_state a st) /\ audit_consistent d' a' /\
  (ga_state a = AUDIT_STATE_COMPLETE -> ga_state a' = AUDIT_STATE_COMPLETE) /\
  (forall u, r = Some (Ok u) -> ga_state a' = AUDIT_STATE_COMPLETE) /\
  (forall e, r = Some (Err e) -> ga_state a' = AUDIT_STATE_FINALIZING \/
                                 ga_state a' = AUDIT_STATE_FAILED) /\
  (ga_state a = AUDIT_STATE_PENDING -> forall e, r = Some (Err e) ->
     ga_state a' = AUDIT_STATE_FAILED).
Proof.
  intros He Hc. unfold record_outcome. destruct (ga_state a) eqn:Hs.
  - destruct (audit_append _ _ _ _ _) as [d1 r1] eqn:Ha.
    pose proof (audit_append_benign conns held _ _ _ _ _ _ _ Ha) as [Hb Eg].
    destruct r1 as [[u|e]|]; intros [= <- <- <-].
    + split_and!; try done; eauto. exists now_ms, t. cbn. by eapply audit_append_ok.
    + split_and!; try done; eauto.
      * eapply benign_trans; [exact Hb|apply benign_quarantined].
      * unfold audit_consistent. cbn. apply set_quarantined_is. by rewrite Eg.
    + split_and!; try done; eauto.
  - intros [= <- <- <-]. split_and!; try done; [apply benign_refl|by exists (ga_state a); destruct a
      |auto].
  - intros [= <- <- <-]. split_and!; try done; [apply benign_refl|by exists (ga_state a); destruct a].
  - intros [= <- <- <-]. split_and!; try done; [apply benign_refl|by exists (ga_state a); destruct a
      |auto].
Qed.

(** ** What holds at each point of a handler *)

Section handler.
Context (p : V6RequestPrelude) (f : Frame) (instance_id : bytes).

(** The grant's own checks passed for this request, at some time. *)
Definition validated (r : GrantRecord) (e : ProfilePoolEntry) : Prop :=
  (exists now now_ms, validate_request r e p now now_ms = Ok tt) /\
  validate_grant_frame_binding f = Ok tt.

Definition names_record (d : State) (l : nat) : Prop :=
  exists r, records (grants d) !! l = Some r /\
    V6.grant_id p = Some (og_grant_id (gr_grant r)).

Definition granted (d : State) (l entry : nat) : Prop :=
  exists r e, records (grants d) !! l = Some r /\
    V6.grant_id p = Some (og_grant_id (gr_grant r)) /\ gr_entry r = entry /\
    entries (grants d) !! entry = Some e /\ validated r e.

(** The whole authorization of a relayed request, and the audit operation made
    for it. *)
Definition authorized (d : State) (l entry : nat) (a : GrantAuditOperation) : Prop :=
  exists r e now wall_now deadline st,
    records (grants d) !! l = Some r /\
    V6.grant_id p = Some (og_grant_id (gr_grant r)) /\ gr_entry r = entry /\
    entries (grants d) !! entry = Some e /\ validated r e /\
    authorize p f (Some r) e now wall_now = Ok deadline /\
    a = with_state (audit_new r e p deadline instance_id) st.

(** No terminal response is out unless its outcome is recorded. *)
Definition released_ok (a : GrantAuditOperation) (released : list Frame) : Prop :=
  Forall (fun fr => is_some (terminal_for_frame (ga_operation_kind a) fr) = true ->
            fr = audit_failure_frame \/ ga_state a = AUDIT_STATE_COMPLETE) released.

Definition settled (d : State) (a : GrantAuditOperation) : Prop :=
  (ga_state a = AUDIT_STATE_COMPLETE /\ outcome_recorded d a) \/
  (ga_state a = AUDIT_STATE_FAILED /\ is_quarantined d (ga_entry a)).

Definition pc_ok (d : State) (c : pc) : Prop :=
  match c with
  | PcStart => True
  | PcValidate l => names_record d l
  | PcAuthorize (Some l) entry => granted d l entry
  | PcAuthorize None _ | PcQuarantine None _ None _ | PcDispatch None _ None _ _
  | PcFinalize None None _ _ => V6.grant_id p = None
  | PcIntent l entry a => authorized d l entry a /\ ga_state a = AUDIT_STATE_PENDING
  | PcQuarantine (Some l) entry (Some a) _ | PcSpend l entry a _ | PcExhaust l entry a
  | PcRefuse l entry a | PcDeny l entry a =>
      authorized d l entry a /\ ga_state a = AUDIT_STATE_PENDING /\ recorded d a
  | PcDispatch (Some l) entry (Some a) _ released =>
      authorized d l entry a /\ recorded d a /\ audit_consistent d a /\ released_ok a released
  | PcFinalize (Some l) (Some a) released _ =>
      (exists entry, authorized d l entry a) /\ recorded d a /\ audit_consistent d a /\
      released_ok a released
  | PcQuarantine _ _ _ _ | PcDispatch _ _ _ _ _ | PcFinalize _ _ _ _ => False
  | PcDone (RefusedWith (Some a) _) =>
      (exists l entry, authorized d l entry a) /\ recorded d a /\ settled d a
  | PcDone (Relayed (Some l) (Some a) released fin _) =>
      (exists entry, authorized d l entry a) /\ recorded d a /\ settled d a /\
      released_ok a released /\ (is_ok fin = true <-> ga_state a = AUDIT_STATE_COMPLETE)
  | PcDone (Relayed None None _ _ _) => V6.grant_id p = None
  | PcDone (Relayed _ _ _ _ _) => False
  | PcDone _ => True
  end.

(** *** They survive what the others do *)

Lemma validate_request_same r r' e e' now now_ms :
  same_record r r' -> same_entry e e' ->
  validate_request r' e' p now now_ms = validate_request r e p now now_ms.
Proof. intros (Hg & _ & Hx) (E1 & E2 & _). unfold validate_request. by rewrite Hg, Hx, E1, E2. Qed.

Lemma validated_same r r' e e' : same_record r r' -> same_entry e e' ->
  validated r e -> validated r' e'.
Proof.
  intros Hr He [(now & now_ms & Hv) Hb]. split; [|done]. exists now, now_ms.
  by rewrite (validate_request_same r r' e e').
Qed.

Lemma authorize_same r r' e e' now wall_now :
  same_record r r' -> same_entry e e' ->
  authorize p f (Some r') e' now wall_now = authorize p f (Some r) e now wall_now.
Proof. intros (Hg & _ & Hx) (E1 & E2 & E3 & _). unfold authorize. by rewrite Hg, Hx, E1, E2. Qed.

Lemma audit_new_same r r' e e' dl : same_record r r' -> same_entry e e' ->
  audit_new r' e' p dl instance_id = audit_new r e p dl instance_id.
Proof.
  intros (Hg & Hn & _) (E1 & _). unfold audit_new, grant_policy_digest. by rewrite Hg, Hn, E1.
Qed.

Lemma unit_granted_mono d d' l entry : extends d d' -> granted d l entry -> granted d' l entry.
Proof.
  intros [Ex Rx _] (r & e & Hr & Hid & Hent & He & Hv).
  destruct (Rx _ _ Hr) as (r' & Hr' & Hsr), (Ex _ _ He) as (e' & He' & Hse).
  exists r', e'. pose proof (validated_same _ _ _ _ Hsr Hse Hv). destruct Hsr as (Eg & En & _).
  rewrite Eg, En. by split_and!.
Qed.

Lemma authorized_mono d d' l entry a :
  extends d d' -> authorized d l entry a -> authorized d' l entry a.
Proof.
  intros [Ex Rx _] (r & e & now & wn & dl & st & Hr & Hid & Hent & He & Hv & Ha & ->).
  destruct (Rx _ _ Hr) as (r' & Hr' & Hsr), (Ex _ _ He) as (e' & He' & Hse).
  exists r', e', now, wn, dl, st.
  rewrite (authorize_same r r' e e'), (audit_new_same r r' e e') by done.
  pose proof (validated_same _ _ _ _ Hsr Hse Hv). destruct Hsr as (Eg & En & _).
  rewrite Eg, En. by split_and!.
Qed.

Lemma recorded_mono d d' a : extends d d' -> recorded d a -> recorded d' a.
Proof.
  intros [_ _ Vx] (ms & Hin). exists ms. destruct (Vx (ga_profile a)) as [k ->]. set_solver.
Qed.
Lemma outcome_recorded_mono d d' a : extends d d' -> outcome_recorded d a -> outcome_recorded d' a.
Proof.
  intros [_ _ Vx] (ms & t & Hin). exists ms, t. destruct (Vx (ga_profile a)) as [k ->]. set_solver.
Qed.
Lemma is_quarantined_mono d d' n : extends d d' -> is_quarantined d n -> is_quarantined d' n.
Proof.
  intros [Ex _ _] (e & He & Hq). destruct (Ex _ _ He) as (e' & He' & (_ & _ & _ & _ & Hm)).
  exists e'. auto.
Qed.
Lemma audit_consistent_mono d d' a : extends d d' -> audit_consistent d a -> audit_consistent d' a.
Proof.
  unfold audit_consistent. destruct (ga_state a); eauto using outcome_recorded_mono, is_quarantined_mono.
Qed.
Lemma settled_mono d d' a : extends d d' -> settled d a -> settled d' a.
Proof.
  intros Hx [[? ?]|[? ?]]; [left|right]; eauto using outcome_recorded_mono, is_quarantined_mono.
Qed.

Lemma pc_ok_mono d d' c : extends d d' -> pc_ok d c -> pc_ok d' c.
Proof.
  intros Hx. pose proof (fun a => recorded_mono d d' a Hx). pose proof (fun a => settled_mono d d' a Hx).
  pose proof (fun a => audit_consistent_mono d d' a Hx).
  pose proof (fun l e a => authorized_mono d d' l e a Hx).
  destruct c as [|l|[l|] entry| |[l|] entry [a|] dl| | | | |[l|] entry [a|] dl rel
    |[l|] [a|] rel r|[[a|] e|e|[l|] [a|] rel fin o|]]; cbn; try done; try naive_solver.
  - intros (r & Hr & Hid). destruct (ex_records _ _ Hx _ _ Hr) as (r' & Hr' & Hs & _).
    exists r'. by rewrite Hs.
  - by apply unit_granted_mono.
Qed.

(** ** Segments *)

(** The handlers' [Arc]s after a handler went from [c] to [c']. *)
Definition rehold (c c' : pc) (held : nat -> nat) : nat -> nat :=
  match held_record c, held_record c' with
  | Some l, None => let_go l held
  | None, Some l => hold l held
  | _, _ => held
  end.

(** The record a budget unit of which was claimed between [c] and [c']. *)
Definition spent_by (c c' : pc) : option nat :=
  match c, c' with
  | PcSpend l _ _ _, PcExhaust _ _ _ => Some l
  | PcSpend l _ _ _, PcDispatch _ _ _ _ _ => Some l
  | _, _ => None
  end.

(** The record whose unit the handler has claimed. *)
Definition past_spend (c : pc) : option nat :=
  match c with
  | PcExhaust l _ _ | PcDispatch (Some l) _ _ _ _ | PcFinalize (Some l) _ _ _
  | PcDone (Relayed (Some l) _ _ _ _) => Some l
  | _ => None
  end.

Definition budget_moved (d d' : State) (who : option nat) : Prop :=
  forall l r', records (grants d') !! l = Some r' ->
    exists r, records (grants d) !! l = Some r /\
      gr_remaining r = gr_remaining r' + (if decide (who = Some l) then 1 else 0).

Record seg_ok (conns : Z) (held : nat -> nat) (d : State) (c : pc) (x : State * pc) : Prop := {
  so_registry : registry_ok conns (rehold c x.2 held) (grants x.1);
  so_pool : pool_ok (grants x.1);
  so_extends : extends d x.1;
  so_pc : pc_ok x.1 x.2;
  so_budget : budget_moved d x.1 (spent_by c x.2);
  so_held : held_record x.2 = held_record c \/ held_record c = None \/ held_record x.2 = None;
  so_past l : past_spend x.2 = Some l -> past_spend c = Some l \/ spent_by c x.2 = Some l;
}.

Lemma kept_unmoved d d' : records_kept (grants d) (grants d') -> budget_moved d d' None.
Proof.
  intros [_ Hk] l r' Hr'. destruct (Hk _ _ Hr') as (r & Hr & _ & E). exists r.
  rewrite decide_False by done. split; [done|lia].
Qed.

Section segments.
Context (conns : Z) (held : nat -> nat) (d : State) (c : pc).
Context (Hok : registry_ok conns held (grants d)) (Hpool : pool_ok (grants d))
  (Hpc : pc_ok d c) (Hheld : forall l, held_record c = Some l -> held l <> 0%nat).

Lemma seg_keep d' c' :
  benign conns held d d' -> held_record c = held_record c' -> spent_by c c' = None ->
  (forall l, past_spend c' = Some l -> past_spend c = Some l) ->
  (extends d d' -> pc_ok d' c') -> seg_ok conns held d c (d', c').
Proof.
  intros Hb Hh Hs Hpast Hc. destruct (Hb Hok Hpool) as (Hok' & Hpool' & Hx & Hk).
  constructor; cbn; auto.
  - unfold rehold. rewrite <-Hh. by destruct (held_record c).
  - rewrite Hs. by apply kept_unmoved.
Qed.

Lemma seg_finish d' o :
  benign conns held d d' -> (forall l, past_spend (PcDone o) = Some l -> past_spend c = Some l) ->
  (extends d d' -> pc_ok d' (PcDone o)) ->
  seg_ok conns held d c (finish c o d').
Proof.
  intros Hb Hpast Hc. destruct (Hb Hok Hpool) as (Hok' & Hpool' & Hx & Hk).
  assert (spent_by c (PcDone o) = None) as Hs by (by destruct c).
  unfold finish. destruct (held_record c) as [l|] eqn:Hh.
  - assert (extends d' (with_grants d' (arc_drop l (grants d')))) as Hx'.
    { apply grows_extends, kept_grows; [apply arc_drop_kept|].
      by destruct (arc_drop_registry l (grants d')) as (_ & _ & _ & ->). }
    constructor; cbn [fst snd].
    + unfold rehold. rewrite Hh. cbn. apply arc_drop_ok; auto.
    + intros id n. cbn. destruct (arc_drop_registry l (grants d')) as (_ & _ & -> & ->). apply Hpool'.
    + by eapply extends_trans.
    + eapply pc_ok_mono; [exact Hx'|auto].
    + rewrite Hs. apply kept_unmoved. eapply records_kept_trans; [exact Hk|apply arc_drop_kept].
    + by right; right.
    + auto.
  - constructor; cbn [fst snd]; auto.
    + unfold rehold. by rewrite Hh.
    + rewrite Hs. by apply kept_unmoved.
Qed.

(** A denial after the intent: settled either way. *)
Lemma seg_denied l entry a reason msg now now_ms ft :
  authorized d l entry a -> ga_state a = AUDIT_STATE_PENDING -> recorded d a ->
  seg_ok conns held d c (deny c a reason msg now now_ms ft d).
Proof.
  intros Hau Hst Hrec. unfold deny, record_denied.
  destruct (record_outcome _ _ _ _ _ _) as [[a' d'] r] eqn:Ho.
  assert (is_Some (entries (grants d) !! ga_entry a)) as Hent.
  { destruct Hau as (r0 & e & ? & ? & ? & ? & ? & ? & <- & He & _ & _ & ->). by exists e. }
  apply (record_outcome_spec conns held) in Ho
    as (Hb & (st & ->) & Hcons & _ & Hdone & _ & Hfail); [|done|by unfold audit_consistent; rewrite Hst].
  assert (extends d d' -> forall st', (exists l entry, authorized d' l entry (with_state a st')) /\
    recorded d' (with_state a st')) as Hrest.
  { intros Hx st'. split.
    - exists l, entry. destruct (authorized_mono _ _ _ _ _ Hx Hau)
        as (r0 & e & now' & wn & dl & st0 & ? & ? & ? & ? & ? & ? & ->).
      exists r0, e, now', wn, dl, st'. by split_and!.
    - exact (recorded_mono _ _ _ Hx Hrec). }
  destruct r as [[u|e]|]; apply seg_finish; try done; intros Hx; destruct (Hrest Hx st);
    cbn in Hdone, Hfail, Hcons |- *; (split; [done|split; [done|]]).
  - left. unfold audit_consistent in Hcons. cbn in Hcons. rewrite (Hdone u eq_refl) in *. done.
  - right. unfold audit_consistent in Hcons. cbn in Hcons.
    rewrite (Hfail Hst e eq_refl) in *. done.
Qed.
End segments.

(** *** One by one *)

Section steps.
Context (conns : Z) (held : nat -> nat) (d : State).
Context (Hok : registry_ok conns held (grants d)) (Hpool : pool_ok (grants d)).

Lemma benign_grants g : registry_ok conns held g -> pool_ok g -> grows (grants d) g ->
  records_kept (grants d) g -> benign conns held d (with_grants d g).
Proof. intros ? ? ? ? _ _. split_and!; auto using grows_extends. Qed.

Lemma seg_start_ok now : seg_ok conns held d PcStart (seg_start p now d).
Proof.
  unfold seg_start. destruct (V6.grant_id p) as [id|] eqn:Hid.
  - destruct (lookup id now (grants d)) as [g a] eqn:Hl.
    pose proof Hl as Hl'. unfold lookup in Hl'. cbv zeta in Hl'.
    destruct (prune_spec conns held now _ Hok) as (Hok' & Hk & He & Hp & _).
    assert (pool_ok (prune_locked now (grants d))) as Hpool'.
    { intros id' n. rewrite Hp, He. apply Hpool. }
    apply (lookup_spec conns held) in Hl as (_ & He' & Ha); [|done].
    destruct a as [l| | |].
    + destruct Ha as (Hokl & r & Hr & Hrid & Hlt).
      destruct (live (prune_locked now (grants d)) !! id) as [l'|].
      2:{ destruct (tombstones _ !! id); [destruct (_ && _)|]; discriminate Hl'. }
      injection Hl' as <- ->.
      assert (records_kept (grants d) (arc_clone l (prune_locked now (grants d)))) as Hk'
        by (eapply records_kept_trans; [exact Hk|apply arc_clone_kept]).
      constructor; cbn [fst snd].
      * exact Hokl.
      * intros id' n. cbn. destruct (arc_clone_registry l (prune_locked now (grants d)))
          as (_ & _ & -> & ->). apply Hpool'.
      * apply grows_extends, kept_grows; [done|].
        by destruct (arc_clone_registry l (prune_locked now (grants d))) as (_ & _ & _ & ->).
      * destruct (kept_lookup _ _ _ _ Hk' Hr) as (r' & Hr' & (Hg & _) & _).
        exists r'. by rewrite Hg, Hid, Hrid.
      * by apply kept_unmoved.
      * by right; left.
      * done.
    + destruct (live (prune_locked now (grants d)) !! id); [done|]. injection Hl' as <- _.
      apply seg_keep; try done. apply benign_grants; auto using kept_grows.
    + destruct (live (prune_locked now (grants d)) !! id); [done|]. injection Hl' as <- _.
      apply seg_keep; try done. apply benign_grants; auto using kept_grows.
    + destruct (live (prune_locked now (grants d)) !! id); [done|]. injection Hl' as <- _.
      apply seg_keep; try done. apply benign_grants; auto using kept_grows.
  - destruct (V6.profile_id p) as [id|]; [|by apply seg_keep; auto using benign_refl].
    destruct (pool_entry_for id now (grants d)) as [g o] eqn:Hpf.
    apply (pool_entry_for_spec conns held) in Hpf as (Hok' & Hp' & Hl & Hr & He & _); [|done..].
    assert (benign conns held d (with_grants d g)) as Hb.
    { assert (records_kept (grants d) g) as Hk.
      { split; [by rewrite Hr|]. intros l r. rewrite Hr. by exists r. }
      apply benign_grants; auto using kept_grows. }
    destruct o; by apply seg_keep.
Qed.

Lemma seg_validate_ok l now now_ms :
  names_record d l -> held l <> 0%nat ->
  seg_ok conns held d (PcValidate l) (seg_validate p f l now now_ms d).
Proof.
  intros Hn Hh. pose proof Hn as (r & Hr & Hid). unfold seg_validate. rewrite Hr.
  destruct (ro_entry _ _ (ok_records _ _ _ Hok _ _ Hr)) as (e & He & _). rewrite He.
  assert (forall l', held_record (PcValidate l) = Some l' -> held l' <> 0%nat) as Hhr by (by intros ? [= <-]).
  destruct (validate_request r e p now now_ms) as [[]|err] eqn:Hv.
  - destruct (validate_grant_frame_binding f) as [[]|err] eqn:Hb.
    + apply seg_keep; try done; auto using benign_refl. intros _. cbn. exists r, e.
      split_and!; try done. split; eauto.
    + apply seg_finish; try done; auto using benign_refl.
  - rewrite Hid. apply seg_finish; try done. destruct (record_is_expired r now); auto using benign_refl, benign_mark.
Qed.

Lemma seg_authorize_ok l entry now wall_now :
  pc_ok d (PcAuthorize l entry) -> (forall l', l = Some l' -> held l' <> 0%nat) ->
  seg_ok conns held d (PcAuthorize l entry) (seg_authorize p f instance_id l entry now wall_now d).
Proof.
  intros Hpc Hh. unfold seg_authorize. destruct l as [l|].
  - pose proof Hpc as (r & e & Hr & Hid & Hent & He & Hv). rewrite He, Hr.
    destruct (authorize p f (Some r) e now wall_now) as [deadline|err] eqn:Ha.
    + apply seg_keep; try done; auto using benign_refl. intros _. split; [|done].
      exists r, e, now, wall_now, deadline, AUDIT_STATE_PENDING. by split_and!.
    + apply seg_finish; try done; auto using benign_refl.
  - destruct (entries (grants d) !! entry) as [e|]; [|by apply seg_keep; auto using benign_refl].
    destruct (authorize p f None e now wall_now) as [deadline|err].
    + apply seg_keep; try done; auto using benign_refl.
    + apply seg_finish; try done; auto using benign_refl.
Qed.

Lemma seg_intent_ok l entry a now now_ms ft :
  pc_ok d (PcIntent l entry a) -> held l <> 0%nat ->
  seg_ok conns held d (PcIntent l entry a) (seg_intent l entry a now now_ms ft d).
Proof.
  intros Hpc Hh. unfold seg_intent.
  destruct (record_intent _ _ _ _ _) as [d' r] eqn:Hr.
  apply (record_intent_spec conns held) in Hr as [Hb Hrec].
  assert (forall l', held_record (PcIntent l entry a) = Some l' -> held l' <> 0%nat) as Hhr
    by (by intros ? [= <-]).
  destruct r as [[u|e]|]; [|by apply seg_finish..].
  apply seg_keep; try done. intros Hx. destruct Hpc as [Hau Hst]. cbn.
  split_and!; [by eapply authorized_mono|done|by eapply Hrec].
Qed.

Lemma seg_quarantine_ok l entry a deadline now now_ms ft :
  pc_ok d (PcQuarantine l entry a deadline) -> (forall l', l = Some l' -> held l' <> 0%nat) ->
  seg_ok conns held d (PcQuarantine l entry a deadline)
    (seg_quarantine p l entry a deadline now now_ms ft d).
Proof.
  intros Hpc Hh. unfold seg_quarantine.
  destruct (entries (grants d) !! entry) as [e|]; [|by apply seg_keep; auto using benign_refl].
  destruct (pe_quarantined e && _).
  - destruct a as [a|]; [|by apply seg_finish; auto using benign_refl].
    destruct l as [l|]; [|done]. destruct Hpc as (Hau & Hst & Hrec). by eapply seg_denied.
  - destruct l as [l|], a as [a|]; cbn in Hpc; try done.
    + apply seg_keep; try done; auto using benign_refl.
    + apply seg_keep; try done; auto using benign_refl.
Qed.

(** A successful exchange: one unit, and nothing else, changes hands. *)
Lemma seg_claim_ok l entry a n r c' :
  pc_ok d (PcSpend l entry a (Some n)) -> held l <> 0%nat ->
  records (grants d) !! l = Some r -> gr_remaining r = n -> n <> 0 ->
  c' = PcExhaust l entry a \/ c' = PcDispatch (Some l) entry (Some a) (ga_deadline a) [] ->
  seg_ok conns held d (PcSpend l entry a (Some n))
    (with_grants d (with_records (grants d)
       (<[l := with_remaining r (n - 1)]> (records (grants d))) (work (grants d))), c').
Proof.
  intros (Hau & Hst & Hrec) Hh Hr En Hn Hc'.
  pose proof (ro_budget _ _ (ok_records _ _ _ Hok _ _ Hr)) as Hb.
  set (d' := with_grants d _).
  assert (extends d d') as Hx.
  { apply grows_extends. split; cbn; [eauto using same_entry_refl|]. intros l' r' Hr'.
    destruct (decide (l' = l)) as [->|Hne].
    - rewrite list_lookup_insert_eq by (by eapply lookup_lt_Some). eexists. split; [done|].
      rewrite Hr in Hr'. by injection Hr' as <-.
    - rewrite list_lookup_insert_ne by done. eauto using same_record_refl. }
  constructor; cbn [fst snd].
  - unfold rehold. replace (held_record c') with (Some l) by (by destruct Hc' as [->| ->]).
    cbn. apply registry_ok_spent; [done|done|lia].
  - exact Hpool.
  - done.
  - pose proof (authorized_mono _ _ _ _ _ Hx Hau). pose proof (recorded_mono _ _ _ Hx Hrec).
    destruct Hc' as [->| ->]; cbn; [done|]. split_and!; try done.
    + unfold audit_consistent. by rewrite Hst.
    + constructor.
  - replace (spent_by _ c') with (Some l) by (by destruct Hc' as [->| ->]).
    intros l' r' Hr'. cbn in Hr'. destruct (decide (l' = l)) as [->|Hne].
    + rewrite list_lookup_insert_eq in Hr' by (by eapply lookup_lt_Some). injection Hr' as <-.
      exists r. rewrite decide_True by done. cbn. split; [done|lia].
    + rewrite list_lookup_insert_ne in Hr' by done. exists r'. rewrite decide_False by congruence.
      split; [done|lia].
  - left. by destruct Hc' as [->| ->].
  - intros l'. destruct Hc' as [->| ->]; cbn; auto.
Qed.

Lemma seg_spend_ok l entry a observed spurious :
  pc_ok d (PcSpend l entry a observed) -> held l <> 0%nat ->
  seg_ok conns held d (PcSpend l entry a observed) (seg_spend l entry a observed spurious d).
Proof.
  intros Hpc Hh. unfold seg_spend.
  assert (forall l', held_record (PcSpend l entry a observed) = Some l' -> held l' <> 0%nat) as Hhr
    by (by intros ? [= <-]).
  destruct (records (grants d) !! l) as [r|] eqn:Hr; [|by apply seg_keep; auto using benign_refl].
  destruct observed as [n|]; [|by apply seg_keep; auto using benign_refl].
  destruct (Z.eqb_spec n 0); [by apply seg_keep; auto using benign_refl|].
  destruct ((gr_remaining r =? n) && negb spurious) eqn:Hcas; [|by apply seg_keep; auto using benign_refl].
  apply andb_true_iff in Hcas as [Hcas%Z.eqb_eq _].
  apply seg_claim_ok; try done. destruct (n =? 1); auto.
Qed.

Lemma mark_exhausted_benign l now : benign conns held d (mark_exhausted p l now d).
Proof. unfold mark_exhausted. destruct (V6.grant_id p); auto using benign_mark, benign_refl. Qed.

Lemma seg_exhaust_ok l entry a now :
  pc_ok d (PcExhaust l entry a) -> held l <> 0%nat ->
  seg_ok conns held d (PcExhaust l entry a) (seg_exhaust p l entry a now d).
Proof.
  intros Hpc Hh. pose proof Hpc as (Hau & Hst & Hrec).
  assert (forall l', held_record (PcExhaust l entry a) = Some l' -> held l' <> 0%nat) as Hhr
    by (by intros ? [= <-]).
  apply seg_keep; try done; [apply mark_exhausted_benign|]. intros Hx. cbn.
  split_and!; [by eapply authorized_mono|by eapply recorded_mono| |constructor].
  unfold audit_consistent. by rewrite Hst.
Qed.

Lemma seg_refuse_ok l entry a now :
  pc_ok d (PcRefuse l entry a) -> held l <> 0%nat ->
  seg_ok conns held d (PcRefuse l entry a) (seg_refuse p l entry a now d).
Proof.
  intros Hpc Hh. pose proof Hpc as (Hau & Hst & Hrec).
  assert (forall l', held_record (PcRefuse l entry a) = Some l' -> held l' <> 0%nat) as Hhr
    by (by intros ? [= <-]).
  apply seg_keep; try done; [apply mark_exhausted_benign|]. intros Hx. cbn.
  split_and!; [by eapply authorized_mono|done|by eapply recorded_mono].
Qed.

Lemma authorized_entry l entry a : authorized d l entry a ->
  is_Some (entries (grants d) !! ga_entry a).
Proof. intros (r0 & e & ? & ? & ? & ? & ? & ? & <- & He & _ & _ & ->). by exists e. Qed.

Lemma authorized_state d' l entry a st :
  authorized d' l entry a -> authorized d' l entry (with_state a st).
Proof.
  intros (r0 & e & now' & wn & dl & st0 & ? & ? & ? & ? & ? & ? & ->).
  exists r0, e, now', wn, dl, st. by split_and!.
Qed.

Lemma released_ok_keep a a' released :
  ga_operation_kind a' = ga_operation_kind a ->
  (ga_state a = AUDIT_STATE_COMPLETE -> ga_state a' = AUDIT_STATE_COMPLETE) ->
  released_ok a released -> released_ok a' released.
Proof.
  unfold released_ok. intros -> Hst Hrel. eapply Forall_impl; [exact Hrel|]. cbn. naive_solver.
Qed.

Lemma released_ok_more a a' released fr :
  ga_operation_kind a' = ga_operation_kind a ->
  (ga_state a = AUDIT_STATE_COMPLETE -> ga_state a' = AUDIT_STATE_COMPLETE) ->
  released_ok a released ->
  (is_some (terminal_for_frame (ga_operation_kind a) fr) = true ->
     fr = audit_failure_frame \/ ga_state a' = AUDIT_STATE_COMPLETE) ->
  forall wrote : bool, released_ok a' (if wrote then released ++ [fr] else released).
Proof.
  intros Ek Hst Hrel Hfr wrote. pose proof (released_ok_keep a a' released Ek Hst Hrel) as Hrel'.
  destruct wrote; [|done]. apply Forall_app. split; [done|]. rewrite Ek. constructor; [exact Hfr|constructor].
Qed.

Lemma seg_respond_ok l entry a deadline released response now now_ms ft wrote :
  pc_ok d (PcDispatch l entry a deadline released) -> (forall l', l = Some l' -> held l' <> 0%nat) ->
  seg_ok conns held d (PcDispatch l entry a deadline released)
    (seg_respond l entry a deadline released response now now_ms ft wrote d).
Proof.
  intros Hpc Hh. unfold seg_respond. destruct a as [a|].
  2:{ destruct l; [done|]. apply seg_keep; try done; auto using benign_refl. }
  destruct l as [l|]; [|done]. pose proof Hpc as (Hau & Hrec & Hcons & Hrel).
  pose proof (authorized_entry _ _ _ Hau) as Hent.
  assert (forall l', held_record (PcDispatch (Some l) entry (Some a) deadline released) = Some l' ->
    held l' <> 0%nat) as Hhr by auto.
  unfold before_terminal_frame.
  destruct (terminal_for_frame (ga_operation_kind a) response) as [t|] eqn:Ht.
  2:{ apply seg_keep; auto using benign_refl. intros _. cbn. split_and!; try done.
      apply released_ok_more with a; auto. by rewrite Ht. }
  destruct (record_outcome a t now now_ms ft d) as [[a' d'] r] eqn:Ho.
  apply (record_outcome_spec conns held) in Ho
    as (Hb & (st & ->) & Hcons' & Hkeep & Hdone & _); [|done..].
  assert (forall rel, released_ok (with_state a st) rel -> extends d d' ->
    pc_ok d' (PcDispatch (Some l) entry (Some (with_state a st)) deadline rel)) as Hgo.
  { intros rel Hrel' Hx. cbn. split_and!; try done.
    - by apply authorized_state, (authorized_mono d).
    - exact (recorded_mono _ _ _ Hx Hrec). }
  destruct r as [[u|e]|]; (apply seg_keep; [done..|apply Hgo]).
  - apply released_ok_more with a; auto. intros _. right. by eapply Hdone.
  - apply released_ok_more with a; auto.
  - by apply released_ok_keep with a.
Qed.

Lemma seg_return_ok l entry a deadline released r :
  pc_ok d (PcDispatch l entry a deadline released) -> (forall l', l = Some l' -> held l' <> 0%nat) ->
  seg_ok conns held d (PcDispatch l entry a deadline released) (seg_return l a released r d).
Proof.
  intros Hpc Hh. apply seg_keep; try done; auto using benign_refl. intros _.
  destruct l, a; cbn in *; naive_solver.
Qed.

Lemma seg_finalize_ok l a released r now now_ms ft :
  pc_ok d (PcFinalize l a released r) -> (forall l', l = Some l' -> held l' <> 0%nat) ->
  seg_ok conns held d (PcFinalize l a released r) (seg_finalize l a released r now now_ms ft d).
Proof.
  intros Hpc Hh. unfold seg_finalize. destruct a as [a|].
  2:{ destruct l; [done|]. apply seg_finish; try done; auto using benign_refl. }
  destruct l as [l|]; [|done]. pose proof Hpc as ((entry & Hau) & Hrec & Hcons & Hrel).
  pose proof (authorized_entry _ _ _ Hau) as Hent.
  assert (forall d' st fin, extends d d' -> settled d' (with_state a st) ->
    (ga_state a = AUDIT_STATE_COMPLETE -> st = AUDIT_STATE_COMPLETE) ->
    (is_ok fin = true <-> st = AUDIT_STATE_COMPLETE) ->
    pc_ok d' (PcDone (Relayed (Some l) (Some (with_state a st)) released fin r))) as Hgo.
  { intros d' st fin Hx Hset Hst Hfin. cbn. split_and!; try done.
    - exists entry. by apply authorized_state, (authorized_mono d).
    - exact (recorded_mono _ _ _ Hx Hrec).
    - by apply released_ok_keep with a. }
  assert (forall st, ga_state a = st -> a = with_state a st) as Hself by (by destruct a; intros ? <-).
  unfold finalize_unknown_if_pending. unfold audit_consistent in Hcons.
  destruct (ga_state a) eqn:Hst.
  - destruct (record_outcome _ _ _ _ _ _) as [[a' d'] res] eqn:Ho.
    apply (record_outcome_spec conns held) in Ho
      as (Hb & (st & ->) & Hcons' & _ & Hdone & _ & Hfail);
      [|done|by unfold audit_consistent; rewrite Hst].
    unfold audit_consistent in Hcons'. cbn in Hcons', Hdone, Hfail.
    destruct res as [[[]|e]|]; apply seg_finish; try done; intros Hx; apply Hgo; try done.
    + left. rewrite (Hdone tt eq_refl) in *. done.
    + split; [|done]. intros _. by eapply Hdone.
    + right. rewrite (Hfail Hst e eq_refl) in *. done.
    + rewrite (Hfail Hst e eq_refl). done.
  - apply seg_finish; try done; [apply benign_quarantined|]. intros Hx. apply Hgo; try done.
    right. split; [done|]. by apply set_quarantined_is.
  - apply seg_finish; try done; auto using benign_refl. intros Hx.
    specialize (Hgo d AUDIT_STATE_COMPLETE (Ok tt) Hx). rewrite <-(Hself _ eq_refl) in Hgo.
    apply Hgo; try done. by left.
  - apply seg_finish; try done; auto using benign_refl. intros Hx.
    specialize (Hgo d AUDIT_STATE_FAILED
      (Err "authoritative audit outcome persistence failed") Hx).
    rewrite <-(Hself _ eq_refl) in Hgo. apply Hgo; try done. by right.
Qed.

Lemma seg_abort_ok c : pc_ok d c -> (forall l', held_record c = Some l' -> held l' <> 0%nat) ->
  seg_ok conns held d c (finish c Aborted d).
Proof. intros Hpc Hh. apply seg_finish; try done; auto using benign_refl. Qed.

End steps.

Lemma hstep_ok conns held d c d' c' :
  registry_ok conns held (grants d) -> pool_ok (grants d) ->
  pc_ok d c -> (forall l, held_record c = Some l -> held l <> 0%nat) ->
  hstep p f instance_id d c d' c' -> seg_ok conns held d c (d', c').
Proof.
  intros Hok Hpool Hpc Hh Hstep. destruct Hstep; rewrite <-surjective_pairing.
  - by apply seg_start_ok.
  - apply seg_validate_ok; auto.
  - apply seg_authorize_ok; auto.
  - apply seg_intent_ok; auto.
  - apply seg_quarantine_ok; auto.
  - apply seg_spend_ok; auto.
  - apply seg_exhaust_ok; auto.
  - apply seg_refuse_ok; auto.
  - destruct Hpc as (? & ? & ?). by apply seg_denied with l entry.
  - apply seg_respond_ok; auto.
  - apply seg_return_ok; auto.
  - apply seg_finalize_ok; auto.
  - by apply seg_abort_ok.
Qed.

End handler.

(** ** The daemon's invariant *)

(** How many handlers [sel] takes to [l]. *)
Definition holds (sel : pc -> option nat) (l : nat) (kv : nat * Handler) : Prop :=
  sel (h_pc kv.2) = Some l.
#[local] Instance holds_dec sel l kv : Decision (holds sel l kv).
Proof. unfold holds. apply _. Defined.
Definition holders (sel : pc -> option nat) (hs : gmap nat Handler) (l : nat) : nat :=
  size (filter (holds sel l) hs).
Notation held_by := (holders held_record).

Lemma holders_empty sel l : holders sel ∅ l = 0%nat.
Proof. unfold holders. by rewrite map_filter_empty, map_size_empty. Qed.

Lemma holders_insert sel hs tid h l : hs !! tid = None ->
  holders sel (<[tid := h]> hs) l =
    (holders sel hs l + if decide (sel (h_pc h) = Some l) then 1 else 0)%nat.
Proof.
  intros Hn. unfold holders. rewrite map_filter_insert. unfold holds at 1. cbn.
  destruct (decide (sel (h_pc h) = Some l)).
  - rewrite map_size_insert_None; [lia|]. apply map_lookup_filter_None. by left.
  - rewrite delete_id by done. lia.
Qed.

Lemma holders_delete sel hs tid h l : hs !! tid = Some h ->
  holders sel hs l = (holders sel (delete tid hs) l +
                      if decide (sel (h_pc h) = Some l) then 1 else 0)%nat.
Proof.
  intros Hs. rewrite <-(holders_insert sel (delete tid hs) tid h) by apply lookup_delete_eq.
  by rewrite insert_delete_id.
Qed.

(** A handler moves. *)
Lemma held_by_move hs tid h h' l : hs !! tid = Some h ->
  (held_record (h_pc h') = held_record (h_pc h) \/ held_record (h_pc h) = None \/
   held_record (h_pc h') = None) ->
  held_by (<[tid := h']> hs) l = rehold (h_pc h) (h_pc h') (held_by hs) l.
Proof.
  intros Hs Hcases. rewrite (holders_delete held_record (<[tid := h']> hs) tid h') by apply lookup_insert_eq.
  rewrite delete_insert_eq. pose proof (holders_delete held_record hs tid h l Hs) as Hd. revert Hd Hcases.
  unfold rehold, hold, let_go.
  destruct (held_record (h_pc h)) as [a|], (held_record (h_pc h')) as [b|]; intros Hd Hcases.
  - destruct Hcases as [[= ->]|[?|?]]; (done || lia).
  - destruct (decide (None = Some l)); [done|].
    destruct (decide (Some a = Some l)), (decide (l = a)); (congruence || lia).
  - destruct (decide (None = Some l)); [done|].
    destruct (decide (Some b = Some l)), (decide (l = b)); (congruence || lia).
  - lia.
Qed.

Definition claims_of (l : nat) (cls : list Claim) : Z :=
  Z.of_nat (length (List.filter (fun c => bool_decide (cl_record c = l)) cls)).

Lemma claims_of_app l cls cls' : claims_of l (cls ++ cls') = claims_of l cls + claims_of l cls'.
Proof. unfold claims_of. rewrite List.filter_app, length_app. lia. Qed.

Lemma claims_of_claimed l h c' :
  claims_of l (claimed h c') = if decide (spent_by (h_pc h) c' = Some l) then 1 else 0.
Proof.
  unfold claimed, spent_by, claims_of. destruct (h_pc h), c'; try done; cbn;
    (destruct (decide (record = l)) as [->|Hne];
     [rewrite bool_decide_true, decide_True by done; done
     |rewrite bool_decide_false, decide_False by congruence; done]).
Qed.

Record sys_ok (iid : bytes) (s : Sys) : Prop := {
  sy_registry : registry_ok (Z.of_nat (size (sys_handlers s))) (held_by (sys_handlers s))
                  (grants (sys_daemon s));
  sy_pool : pool_ok (grants (sys_daemon s));
  sy_handlers tid h : sys_handlers s !! tid = Some h ->
    pc_ok (h_prelude h) (h_frame h) iid (sys_daemon s) (h_pc h);
  sy_budget l r : records (grants (sys_daemon s)) !! l = Some r ->
    gr_remaining r + claims_of l (sys_claims s) = og_budget (gr_grant r);
  sy_past l : Z.of_nat (holders past_spend (sys_handlers s) l) <= claims_of l (sys_claims s);
  sy_claims cl : cl ∈ sys_claims s ->
    authorized (cl_prelude cl) (cl_frame cl) iid (sys_daemon s) (cl_record cl) (cl_entry cl)
      (cl_audit cl) /\ recorded (sys_daemon s) (cl_audit cl);
}.

Lemma same_budget g l r' (k k' : Z) :
  (forall r, records g !! l = Some r -> gr_remaining r + k = og_budget (gr_grant r)) ->
  (exists r, records g !! l = Some r /\ same_record r r' /\ gr_remaining r + k = gr_remaining r' + k') ->
  gr_remaining r' + k' = og_budget (gr_grant r').
Proof. intros Hb (r & Hr & (-> & _) & E). rewrite <-E. auto. Qed.

(** Steps of the environment that leave the handlers alone. *)
Lemma sys_ok_benign iid s d' :
  sys_ok iid s ->
  benign (Z.of_nat (size (sys_handlers s))) (held_by (sys_handlers s)) (sys_daemon s) d' ->
  sys_ok iid (with_daemon s d').
Proof.
  intros [Hreg Hpool Hh Hb Hpast Hcl] Hbn. destruct (Hbn Hreg Hpool) as (? & ? & Hx & Hk).
  constructor; cbn; try done.
  - intros tid h Hl. eapply pc_ok_mono; eauto.
  - intros l r' Hr'. destruct (proj2 Hk _ _ Hr') as (r & Hr & Hs & E).
    apply (same_budget (grants (sys_daemon s)) l r' (claims_of l (sys_claims s))); [auto|].
    exists r. split_and!; try done. lia.
  - intros cl Hin. destruct (Hcl _ Hin). eauto using authorized_mono, recorded_mono.
Qed.

Lemma entries_prefix_grows g g' :
  records g' = records g -> entries g `prefix_of` entries g' -> grows g g'.
Proof.
  intros Er Hpre. split.
  - intros n e He. exists e. split; [by eapply prefix_lookup_Some|apply same_entry_refl].
  - intros l r Hr. exists r. rewrite Er. auto using same_record_refl.
Qed.

Lemma records_eq_kept g g' : records g' = records g -> records_kept g g'.
Proof. intros E. split; [by rewrite E|]. intros l r. rewrite E. by exists r. Qed.

Lemma benign_unlock conns held d e : pe_quarantined e = false ->
  benign conns held d (with_grants d (pool_insert (id_profile_id (pe_identity e)) e (grants d))).
Proof.
  intros _ Hok Hp. assert (entries (grants d) `prefix_of` entries (grants d) ++ [e]) as Hpre
    by (by apply prefix_app_r).
  split_and!.
  - by apply registry_ok_pool.
  - intros id n. cbn. intros [[<- <-]|[_ Hl]]%lookup_insert_Some.
    + exists e. split; [|done]. by rewrite lookup_app_r, Nat.sub_diag by done.
    + destruct (Hp _ _ Hl) as (e' & He' & Hid). exists e'. split; [|done].
      by eapply prefix_lookup_Some.
  - by apply grows_extends, entries_prefix_grows.
  - by apply records_eq_kept.
Qed.

Lemma benign_reap_pool conns held d now :
  benign conns held d (with_grants d (pool_prune_expired now (grants d))).
Proof.
  intros Hok Hp. split_and!.
  - by apply registry_ok_pool.
  - intros id n. cbn. intros [Hl _]%map_lookup_filter_Some. by apply Hp.
  - by apply grows_extends, entries_prefix_grows.
  - by apply records_eq_kept.
Qed.

Lemma benign_reap_grants conns held d now :
  benign conns held d (with_grants d (grants_prune_expired now (grants d))).
Proof.
  intros Hok Hp. destruct (prune_spec conns held now _ Hok) as (Hok' & Hk & He & Hpl & _).
  split_and!; [done| |by apply grows_extends, kept_grows|done].
  intros id n. cbn. unfold grants_prune_expired. rewrite Hpl, He. apply Hp.
Qed.

Lemma idle_acquire_ok conns held g : registry_ok conns held g ->
  registry_ok (conns + 1) held (idle_acquire g).
Proof.
  intros Hok. pose proof (idle_ok conns (conns + 1) held g Hok) as Hi. unfold idle_acquire.
  replace (conns + 1 - conns) with 1 in Hi by lia. apply Hi.
  pose proof (ok_conns _ _ _ Hok). lia.
Qed.

Lemma idle_release_ok conns held g : registry_ok conns held g -> 1 <= conns ->
  registry_ok (conns - 1) held (idle_release g).
Proof.
  intros Hok Hc. pose proof (idle_ok conns (conns - 1) held g Hok ltac:(lia)) as Hi.
  unfold idle_release. replace (work g - 1) with (work g + (conns - 1 - conns)) by lia. exact Hi.
Qed.

Lemma sys_step_ok iid s s' : sys_ok iid s -> sys_step iid s s' -> sys_ok iid s'.
Proof.
  intros Hsys Hstep. pose proof Hsys as [Hreg Hpool Hh Hb Hpast Hcl]. destruct Hstep; cbn in *.
  - (* accept *)
    constructor; cbn.
    + rewrite map_size_insert_None by done.
      apply (registry_ok_held _ (held_by (sys_handlers s))).
      { intros l. rewrite holders_insert, decide_False by done. lia. }
      rewrite Nat2Z.inj_succ, <-Z.add_1_r. by apply idle_acquire_ok.
    + exact Hpool.
    + intros tid' h' [[<- <-]|[_ Hl]]%lookup_insert_Some; [done|]. by apply Hh in Hl.
    + exact Hb.
    + intros l. rewrite holders_insert, decide_False by done. specialize (Hpast l). lia.
    + exact Hcl.
  - (* a handler runs *)
    match goal with X : sys_handlers s !! tid = Some h, Y : hstep _ _ _ _ _ _ _ |- _ =>
      rename X into Hl; rename Y into Hrun end.
    apply (hstep_ok _ _ _ _ _ _ _ _ _ Hreg Hpool) in Hrun as [Hok' Hpool' Hx Hpc Hbud Hhold Hps];
      [|exact (Hh _ _ Hl)|]; cbn in *.
    2:{ intros l Hr. rewrite (holders_delete _ _ _ _ l Hl), decide_True by done. lia. }
    constructor; cbn.
    + rewrite map_size_insert_Some by done. eapply registry_ok_held; [|exact Hok'].
      intros l. symmetry. by apply held_by_move.
    + done.
    + intros tid' h' [[<- <-]|[_ Hl']]%lookup_insert_Some; [done|].
      eapply pc_ok_mono; [exact Hx|]. by apply Hh in Hl'.
    + intros l r' Hr'. destruct (Hbud _ _ Hr') as (r & Hr & E).
      destruct (ex_records _ _ Hx _ _ Hr) as (r1 & Hr1 & (Eg & _)).
      assert (r1 = r') as -> by congruence.
      rewrite claims_of_app, claims_of_claimed, Eg, <-(Hb _ _ Hr). lia.
    + intros l. rewrite claims_of_app, claims_of_claimed.
      rewrite (holders_delete past_spend (<[tid := _]> _) tid _ l (lookup_insert_eq _ _ _)).
      rewrite delete_insert_eq. specialize (Hpast l). specialize (Hps l).
      rewrite (holders_delete past_spend _ tid h l Hl) in Hpast. cbn.
      destruct (decide (past_spend c' = Some l)) as [E|], (decide (past_spend (h_pc h) = Some l)),
        (decide (spent_by (h_pc h) c' = Some l)); try lia. destruct (Hps E); done.
    + intros cl [Hin|Hin]%elem_of_app.
      * specialize (Hh _ _ Hl). unfold claimed in Hin.
        destruct (h_pc h), c'; try (by apply not_elem_of_nil in Hin);
          apply list_elem_of_singleton in Hin as ->; destruct Hh as (Ha & _ & Hr); cbn;
          eauto using authorized_mono, recorded_mono.
      * destruct (Hcl _ Hin). eauto using authorized_mono, recorded_mono.
  - (* a finished handler leaves *)
    match goal with X : sys_handlers s !! tid = Some h, Y : h_pc h = PcDone o |- _ =>
      rename X into Hl; rename Y into Hd end.
    assert (size (sys_handlers s) <> 0)%nat as Hnz.
    { intros E%map_size_empty_inv. by rewrite E in Hl. }
    constructor; cbn.
    + rewrite map_size_delete, Hl. apply (registry_ok_held _ (held_by (sys_handlers s))).
      { intros l. rewrite (holders_delete _ _ _ _ l Hl), Hd, decide_False by done. lia. }
      replace (Z.of_nat (pred (size (sys_handlers s))))
        with (Z.of_nat (size (sys_handlers s)) - 1) by lia.
      apply idle_release_ok; [done|lia].
    + exact Hpool.
    + intros tid' h' [_ Hl']%lookup_delete_Some. by apply Hh in Hl'.
    + exact Hb.
    + intros l. specialize (Hpast l). rewrite (holders_delete past_spend _ tid h l Hl) in Hpast. lia.
    + exact Hcl.
  - by apply sys_ok_benign, benign_unlock.
  - (* issuance *)
    destruct (issue_grant p f draw pool_now wall_now now (grants (sys_daemon s))) as [g r] eqn:Hi.
    apply (issue_grant_ok _ _ _ _ _ _ _ _ _ _ _ Hreg Hpool) in Hi as (Hok' & Hpool' & He & Hr).
    cbn. destruct r as [grant|err].
    + destruct Hr as (entry & e & record & _ & _ & Hnew & Hrec & _ & Hother & _).
      assert (extends (sys_daemon s) (with_grants (sys_daemon s) g)) as Hx.
      { apply grows_extends. split.
        - intros n e' He'. rewrite He. eauto using same_entry_refl.
        - intros l r Hl. assert (l <> length (records (grants (sys_daemon s)))) as Hne
            by (apply lookup_lt_Some in Hl; lia).
          assert (is_Some (records g !! l)) as [r' Hr'].
          { apply lookup_lt_is_Some_2. apply lookup_lt_Some in Hl, Hnew. lia. }
          destruct (Hother _ _ Hne Hr') as (r0 & Hr0 & Hs & _). rewrite Hl in Hr0.
          injection Hr0 as <-. eauto. }
      constructor; cbn; try done.
      * intros tid h Hl. eapply pc_ok_mono; eauto.
      * intros l r' Hl. destruct (decide (l = length (records (grants (sys_daemon s))))) as [->|Hne].
        -- rewrite Hnew in Hl. injection Hl as <-.
           assert (claims_of (length (records (grants (sys_daemon s)))) (sys_claims s) = 0) as ->.
           { unfold claims_of. destruct (List.filter _ _) as [|cl cls] eqn:Hf; [done|]. exfalso.
             assert (cl ∈ cl :: cls) as Hin by set_solver. rewrite <-Hf in Hin.
             apply list_elem_of_In, List.filter_In in Hin as [Hin Hc].
             apply bool_decide_eq_true in Hc. apply list_elem_of_In in Hin.
             destruct (Hcl _ Hin) as [(r0 & ? & ? & ? & ? & ? & Hr0 & _) _].
             rewrite Hc in Hr0. apply lookup_lt_Some in Hr0. lia. }
           apply record_new_ok in Hrec as (ttl & _ & _ & _ & _ & _ & ->). cbn. lia.
        -- destruct (Hother _ _ Hne Hl) as (r & Hr & Hs & E).
           apply (same_budget (grants (sys_daemon s)) l r' (claims_of l (sys_claims s))); [auto|].
           exists r. split_and!; try done. lia.
      * intros cl Hin. destruct (Hcl _ Hin). eauto using authorized_mono, recorded_mono.
    + destruct Hr as [Hk Hlv]. apply sys_ok_benign; [done|]. intros _ _.
      split_and!; [done|done|by apply grows_extends, kept_grows|done].
  - by apply sys_ok_benign, benign_reap_pool.
  - by apply sys_ok_benign, benign_reap_grants.
  - apply sys_ok_benign; [done|]. apply benign_ledger; [done|]. intros j. cbn.
    destruct (sink_append i e (ledger (sys_daemon s))) as [l' r] eqn:Hs. by eapply sink_grows.
  - apply sys_ok_benign; [done|]. by apply benign_ledger.
Qed.

Lemma sys_init_ok iid l : sys_ok iid (sys_init l).
Proof.
  constructor; cbn; try done.
  - constructor; cbn; try done; try (by intros ? ?; rewrite lookup_empty).
    rewrite !map_size_empty. unfold GRANT_REGISTRY_LIMIT. lia.
  - intros cl Hin. by apply not_elem_of_nil in Hin.
Qed.

Lemma reachable_sys_ok iid l s : reachable iid l s -> sys_ok iid s.
Proof.
  intros Hr. unfold reachable in Hr. remember (sys_init l) as s0 eqn:E.
  assert (sys_ok iid s0) as H0' by (subst; apply sys_init_ok). clear E.
  induction Hr; eauto using sys_step_ok.
Qed.

(** ** Properties *)

(** C1: budgets.  In every reachable state, for every grant ever issued, the
    units claimed so far and the remaining counter add up to the grant's
    budget, which is at most a thousand, and no more handlers are
    dispatching, or have dispatched, an operation under the grant than units
    were claimed: whatever the interleaving of the compare-exchange loops,
    expiry, aborts and audit failures, no unit is spent twice. *)
Theorem grant_budget_is_respected iid l0 s l r :
  reachable iid l0 s -> records (grants (sys_daemon s)) !! l = Some r ->
  claims_of l (sys_claims s) + gr_remaining r = og_budget (gr_grant r) /\
  0 <= gr_remaining r /\ og_budget (gr_grant r) <= GRANT_BUDGET_CAP /\
  Z.of_nat (holders past_spend (sys_handlers s) l) <= claims_of l (sys_claims s).
Proof.
  intros Hr%reachable_sys_ok Hl. pose proof (sy_budget _ _ Hr _ _ Hl).
  destruct (ok_records _ _ _ (sy_registry _ _ Hr) _ _ Hl) as [(_ & Hcap & _) Hb _].
  pose proof (sy_past _ _ Hr l). lia.
Qed.

Lemma validated_facts p f r e : validated p f r e ->
  og_expires_unix_ms (gr_grant r) >= requested_deadline_unix_ms p /\
  V6.operation_kind p ∈ og_operations (gr_grant r) /\
  V6.profile_name p = Some (og_profile_name (gr_grant r)) /\
  id_profile_id (pe_identity e) = og_profile_id (gr_grant r) /\
  id_generation (pe_identity e) = og_profile_generation (gr_grant r) /\
  pe_profile e = og_profile_name (gr_grant r) /\
  exists sig, pop_signature p = Some sig /\
    verify_prelude_pop (og_holder_key (gr_grant r)) sig p = Ok tt.
Proof.
  intros [(now & now_ms & Hv) _]. unfold validate_request in Hv. checks.
  match goal with Hc : covers _ _ = true |- _ => unfold covers in Hc;
    apply existsb_exists in Hc as (k & Hk & E%bool_decide_eq_true); subst k end.
  match goal with Hc : covers_profile _ _ = true |- _ => unfold covers_profile in Hc end.
  destruct (V6.profile_name p) as [n|]; [|done]. checks. subst n.
  split_and!; try done; [lia|by apply list_elem_of_In|eauto].
Qed.

Lemma authorize_deadline p f r e now wn dl : authorize p f (Some r) e now wn = Ok dl ->
  now < dl <= gr_expires_at r /\ validate_connection_identity_binding f (pe_identity e) = Ok tt.
Proof. unfold authorize. intros Ha. checks. split; [lia|done]. Qed.

(** C2: authority.  Every unit ever claimed was claimed for a request that
    names the grant, carries a proof of possession that verifies under the
    grant's holder key for this very prelude, is of a kind the grant lists and
    for the grant's profile, id and generation included, asks for a deadline
    within the grant's life, and is dispatched under a deadline no later than
    the grant's expiry; downloads and transfer cancellations carry their
    required commitment; and the authenticated intent of that request was
    already in the audit ledger of that profile generation. *)
Theorem claims_are_authorized iid l0 s cl :
  reachable iid l0 s -> cl ∈ sys_claims s ->
  exists r e, let p := cl_prelude cl in let a := cl_audit cl in
    records (grants (sys_daemon s)) !! cl_record cl = Some r /\
    entries (grants (sys_daemon s)) !! gr_entry r = Some e /\
    V6.grant_id p = Some (og_grant_id (gr_grant r)) /\
    (exists sig, pop_signature p = Some sig /\
       verify_prelude_pop (og_holder_key (gr_grant r)) sig p = Ok tt) /\
    V6.operation_kind p ∈ og_operations (gr_grant r) /\
    V6.profile_name p = Some (og_profile_name (gr_grant r)) /\
    id_profile_id (pe_identity e) = og_profile_id (gr_grant r) /\
    id_generation (pe_identity e) = og_profile_generation (gr_grant r) /\
    requested_deadline_unix_ms p <= og_expires_unix_ms (gr_grant r) /\
    ga_deadline a <= gr_expires_at r /\
    validate_grant_frame_binding (cl_frame cl) = Ok tt /\
    exists now_ms, audit_event a now_ms Intent Pending (rs "intent.recorded") None ∈
      sink_events (pe_identity e) (ledger (sys_daemon s)) /\
      ga_request_id a = V6.request_id p /\
      ga_intent_digest a = hex_encode (root_request_hash p).
Proof.
  intros Hr%reachable_sys_ok Hcl.
  destruct (sy_claims _ _ Hr _ Hcl)
    as [(r & e & now & wn & dl & st & Hl & Hid & Hent & He & Hv & Ha & Ea) (now_ms & Hin)].
  destruct (validated_facts _ _ _ _ Hv) as (? & ? & ? & ? & ? & ? & ?).
  apply authorize_deadline in Ha as [? _]. rewrite Ea in *. cbn in *. rewrite <-Hent in He.
  exists r, e. split_and!; try done; try lia; first [apply Hv|by exists now_ms].
Qed.

(** C6: audit.  While an operation runs under a grant, and after it ended,
    every terminal response it sent is either the audit-failure notice or was
    sent after its outcome was in the ledger.  A handler that recorded an
    intent and finished, other than by being aborted, has left the outcome in
    the ledger, or the profile is quarantined and, if the operation ran, its
    client is not told it succeeded. *)
Theorem outcomes_are_recorded iid l0 s tid h :
  reachable iid l0 s -> sys_handlers s !! tid = Some h ->
  match h_pc h with
  | PcDispatch (Some _) _ (Some a) _ released =>
      recorded (sys_daemon s) a /\
      (forall fr, fr ∈ released -> is_some (terminal_for_frame (ga_operation_kind a) fr) = true ->
         fr = audit_failure_frame \/ outcome_recorded (sys_daemon s) a)
  | PcDone (Relayed (Some _) (Some a) released fin _) =>
      recorded (sys_daemon s) a /\
      (forall fr, fr ∈ released -> is_some (terminal_for_frame (ga_operation_kind a) fr) = true ->
         fr = audit_failure_frame \/ outcome_recorded (sys_daemon s) a) /\
      (if is_ok fin then outcome_recorded (sys_daemon s) a
       else is_quarantined (sys_daemon s) (ga_entry a))
  | PcDone (RefusedWith (Some a) _) =>
      recorded (sys_daemon s) a /\
      (outcome_recorded (sys_daemon s) a \/ is_quarantined (sys_daemon s) (ga_entry a))
  | PcDone (Relayed (Some _) None _ _ _) | PcDone (Relayed None (Some _) _ _ _) => False
  | _ => True
  end.
Proof.
  intros Hr%reachable_sys_ok Hl. pose proof (sy_handlers _ _ Hr _ _ Hl) as Hpc.
  destruct (h_pc h) as [|l|[l|] entry| |[l|] entry [a|] dl| | | | |[l|] entry [a|] dl rel
    |[l|] [a|] rel r|[[a|] e|e|[l|] [a|] rel fin o|]]; cbn in Hpc; try done.
  - destruct Hpc as (_ & Hrec & Hcons & Hrel). split; [done|]. intros fr Hfr Ht.
    unfold released_ok in Hrel. rewrite Forall_forall in Hrel.
    destruct (Hrel _ Hfr Ht) as [?|Hst]; [by left|right].
    unfold audit_consistent in Hcons. by rewrite Hst in Hcons.
  - destruct Hpc as (_ & Hrec & [[_ ?]|[_ ?]]); auto.
  - destruct Hpc as (_ & Hrec & Hset & Hrel & Hfin). split_and!; [done|..].
    + intros fr Hfr Ht. unfold released_ok in Hrel. rewrite Forall_forall in Hrel.
      destruct (Hrel _ Hfr Ht) as [?|Hst]; [by left|right].
      destruct Hset as [[_ ?]|[? _]]; congruence.
    + destruct Hset as [[Hst ?]|[Hst ?]].
      * by rewrite (proj2 Hfin Hst).
      * destruct (is_ok fin) eqn:Ef; [|done]. rewrite (proj1 Hfin eq_refl) in Hst. done.
Qed.

(** The registry.  In every reachable state the live grants and the
    tombstones are at most 1024 and never share an id; every live entry is a
    record of its own id; and when the idle tracker reads zero there is no
    handler and no live grant, so an idle exit discards no capability. *)
Theorem registry_is_bounded iid l0 s :
  reachable iid l0 s ->
  let g := grants (sys_daemon s) in
  (size (live g) + size (tombstones g) <= 1024)%nat /\
  (forall id, ~ (is_Some (live g !! id) /\ is_Some (tombstones g !! id))) /\
  (forall id l, live g !! id = Some l ->
     exists r, records g !! l = Some r /\ og_grant_id (gr_grant r) = id) /\
  (is_idle g = true -> sys_handlers s = ∅ /\ live g = ∅).
Proof.
  intros Hr%reachable_sys_ok. cbv zeta. pose proof (sy_registry _ _ Hr) as Hok. split_and!.
  - apply (ok_capacity _ _ _ Hok).
  - intros id [[l Hl] [t Ht]]. rewrite (ok_disjoint _ _ _ Hok _ _ Hl) in Ht. done.
  - apply (ok_live _ _ _ Hok).
  - unfold is_idle. intros Hw%Z.eqb_eq. rewrite (ok_work _ _ _ Hok) in Hw.
    pose proof (used_nonneg (records (grants (sys_daemon s)))). split.
    + apply map_size_empty_inv. lia.
    + apply map_empty. intros id. destruct (live _ !! id) as [l|] eqn:Hl; [exfalso|done].
      destruct (ok_live _ _ _ Hok _ _ Hl) as (r & Hr' & Hid).
      assert (gr_strong r = 0%nat) as Hz by (eapply used_zero; [|done]; lia).
      rewrite (ok_strong _ _ _ Hok _ _ Hr') in Hz. unfold registered in Hz.
      rewrite Hid, bool_decide_true in Hz by done. lia.
Qed.

(** What a lookup of a grant answers, in every reachable state: the
    record itself while it is live and unexpired; then "exhausted" until the
    expiry of a grant whose budget was used up; then "expired" for a minute
    after the expiry; then nothing. *)
Theorem lookup_is_exact iid l0 s id now :
  reachable iid l0 s -> (lookup id now (grants (sys_daemon s))).2 =
  lookup_answer (grants (sys_daemon s)) id now.
Proof.
  intros Hr%reachable_sys_ok. destruct (lookup id now (grants (sys_daemon s))) as [g' a] eqn:Hl.
  by apply (lookup_spec _ _ _ _ _ _ _ (sy_registry _ _ Hr)) in Hl as [-> _].
Qed.

(** C38: issuance.  In every reachable state a grant is issued only on proof of
    the profile's call key for this very request, while the profile is
    unlocked, for that profile and its generation, for grantable kinds only
    (each once, exactly those asked for), with the budget and lifetime asked
    for; it is then live, unspent and bound to the unlocked entry, and no
    other registration is added.  A refusal registers nothing. *)
Theorem issuance_is_authorized iid l0 s p f draw pool_now wall_now now g' r :
  reachable iid l0 s ->
  issue_grant p f draw pool_now wall_now now (grants (sys_daemon s)) = (g', r) ->
  match r with
  | Ok grant => exists entry e record,
      issued_for (grants (sys_daemon s)) p f now pool_now grant entry e /\
      og_grant_id grant = draw /\
      (exists l, live g' !! draw = Some l /\ records g' !! l = Some record) /\
      gr_grant record = grant /\ gr_entry record = entry /\
      gr_remaining record = og_budget grant /\
      (exists ttl, policy_ttl grant = Ok ttl /\ gr_expires_at record = now + ttl) /\
      forall id l, id <> draw -> live g' !! id = Some l -> live (grants (sys_daemon s)) !! id = Some l
  | Err _ => forall id l, live g' !! id = Some l -> live (grants (sys_daemon s)) !! id = Some l
  end.
Proof.
  intros Hr%reachable_sys_ok Hi.
  apply (issue_grant_ok _ _ _ _ _ _ _ _ _ _ _ (sy_registry _ _ Hr) (sy_pool _ _ Hr)) in Hi
    as (_ & _ & _ & Hr'). destruct r as [grant|err]; [|apply Hr'].
  destruct Hr' as (entry & e & record & Hfor & Hd & Hnew & Hrec & Hlive & _ & Hothers).
  apply record_new_ok in Hrec as (ttl & Hp & _ & _ & _ & _ & ->).
  eexists entry, e, _. split_and!; eauto.
Qed.
End theory.
