(* ===== verification/DaemonRuns.v ===== *)
(** * serctl_daemon: the audit ledger behind the relay, and runs

    The authenticated ledger of serctl_core::audit keeps the contract the
    relay assumes of its audit sink; and concrete runs of the daemon, from
    unlocking a profile to the recorded outcome of a relayed command, which
    are the witnesses of the relay's theorems. *)

From stdpp Require Import gmap sorting.
From S2P Require Import Prelude.
From S2P Require Import Bytes.
From S2P Require Import Text.
From S2P Require Import Crates.
From S2P Require Import IpcCrates.
From S2P Require Import Async.
From S2P Require Import Ledger.
From S2P Require Import LedgerTheory.
From S2P Require Import LedgerProperties.
From S2P Require Import IpcFrame.
From S2P Require Import V6.
From S2P Require Import Grant.
From S2P Require Import DaemonGrants.
From S2P Require Import DaemonGrantsTheory.
From S2P Require Import DaemonRelay.
From S2P Require Import DaemonRelayTheory.
#[local] Open Scope string_scope.
#[local] Open Scope list_scope.
#[local] Open Scope Z_scope.

(** ** Executing the daemon *)
Section execution.
Context {L : Type} `{AuditSink L}
  `{Sha2, HmacSha2, Hex, Base64, Ed25519, JsonSer PopPayload, JsonSer ProfileProofPayload}.

(** What the environment decides in one segment. *)
Record env := {
  en_now : Z;
  en_now_ms : Z;
  en_fate : fate;
  en_spurious : bool;
  en_response : option Frame;
}.

Inductive move :=
| MAccept (tid : nat) (p : V6RequestPrelude) (f : Frame)
| MRun (tid : nat) (en : env)
| MUnlock (e : ProfilePoolEntry)
| MIssue (p : V6RequestPrelude) (f : Frame) (draw : bytes) (pool_now wall_now now : Z).

Definition segment (h : Handler) (iid : bytes) (en : env) (d : Daemon L) : Daemon L * pc :=
  let p := h_prelude h in let f := h_frame h in
  let now := en_now en in let now_ms := en_now_ms en in let ft := en_fate en in
  match h_pc h with
  | PcStart => seg_start p now d
  | PcValidate l => seg_validate p f l now now_ms d
  | PcAuthorize l entry => seg_authorize p f iid l entry now now_ms d
  | PcIntent l entry a => seg_intent l entry a now now_ms ft d
  | PcQuarantine l entry a dl => seg_quarantine p l entry a dl now now_ms ft d
  | PcSpend l entry a o => seg_spend l entry a o (en_spurious en) d
  | PcExhaust l entry a => seg_exhaust p l entry a now d
  | PcRefuse l entry a => seg_refuse p l entry a now d
  | PcDeny l entry a => seg_deny l entry a now now_ms ft d
  | PcDispatch l entry a dl released =>
      match en_response en with
      | Some fr => seg_respond l entry a dl released fr now now_ms ft true d
      | None => seg_return l a released (Ok tt) d
      end
  | PcFinalize l a released r => seg_finalize l a released r now now_ms ft d
  | PcDone o => (d, PcDone o)
  end.

Lemma segment_hstep h iid en d : (forall o, h_pc h <> PcDone o) ->
  hstep (h_prelude h) (h_frame h) iid d (h_pc h) (segment h iid en d).1 (segment h iid en d).2.
Proof.
  intros Hd. unfold segment. destruct (h_pc h); try constructor.
  - destruct (en_response en); constructor.
  - by destruct (Hd o).
Qed.

Definition is_done (c : pc) : bool := match c with PcDone _ => true | _ => false end.

(** A move; one that is not possible changes nothing. *)
Definition exec_move (iid : bytes) (m : move) (s : Sys) : Sys :=
  match m with
  | MAccept tid p f =>
      if is_some (sys_handlers s !! tid) || negb (bool_decide (frame_kind f = V6.operation_kind p))
         || is_control_kind (frame_kind f) then s
      else {| sys_daemon := with_grants (sys_daemon s) (idle_acquire (grants (sys_daemon s)));
              sys_handlers := <[tid := {| h_prelude := p; h_frame := f; h_pc := PcStart |}]>
                                (sys_handlers s);
              sys_claims := sys_claims s |}
  | MRun tid en =>
      match sys_handlers s !! tid with
      | Some h =>
          if is_done (h_pc h) then s
          else let (d', c') := segment h iid en (sys_daemon s) in
               {| sys_daemon := d';
                  sys_handlers := <[tid := {| h_prelude := h_prelude h; h_frame := h_frame h;
                                              h_pc := c' |}]> (sys_handlers s);
                  sys_claims := claimed h c' ++ sys_claims s |}
      | None => s
      end
  | MUnlock e =>
      if pe_quarantined e then s
      else with_daemon s (with_grants (sys_daemon s)
             (pool_insert (id_profile_id (pe_identity e)) e (grants (sys_daemon s))))
  | MIssue p f draw t1 t2 t3 =>
      with_daemon s (with_grants (sys_daemon s)
        (issue_grant p f draw t1 t2 t3 (grants (sys_daemon s))).1)
  end.

Fixpoint exec (iid : bytes) (ms : list move) (s : Sys) : Sys :=
  match ms with
  | [] => s
  | m :: ms' => exec iid ms' (exec_move iid m s)
  end.

Lemma exec_move_steps iid m s : rtc (sys_step iid) s (exec_move iid m s).
Proof.
  destruct m as [tid p f|tid en|e|p f draw t1 t2 t3]; cbn.
  - destruct (sys_handlers s !! tid) eqn:Hn; [done|]. cbn [is_some orb].
    case_bool_decide; [|done]. destruct (is_control_kind (frame_kind f)) eqn:Hc; [done|].
    by apply rtc_once, s_accept.
  - destruct (sys_handlers s !! tid) as [h|] eqn:Hl; [|done].
    destruct (is_done (h_pc h)) eqn:Hd; [done|].
    destruct (segment h iid en (sys_daemon s)) as [d' c'] eqn:Hs. apply rtc_once, s_run; [done|].
    pose proof (segment_hstep h iid en (sys_daemon s)) as Hstep. rewrite Hs in Hstep. apply Hstep.
    intros o E. by rewrite E in Hd.
  - destruct (pe_quarantined e) eqn:Hq; [done|]. by apply rtc_once, s_unlock.
  - by apply rtc_once, s_issue.
Qed.

Lemma exec_reachable iid ms l0 : reachable iid l0 (exec iid ms (sys_init l0)).
Proof.
  unfold reachable. generalize (sys_init l0). induction ms as [|m ms IH]; intros s; cbn; [done|].
  etrans; [apply exec_move_steps|apply IH].
Qed.
End execution.

(** ** The authenticated ledger is such a sink *)
Section ledger_sink.
Context `{!Sha2, !Sha2Laws, !HmacSha2, !HmacSha2Laws, !Hex, !HexLaws,
          !Json AuditEvent, !JsonLaws AuditEvent,
          !Json AuditRecord, !JsonLaws AuditRecord, !JsonLineLaws AuditRecord,
          !Json AuditCheckpoint, !JsonLaws AuditCheckpoint,
          !JsonSer UnsignedCheckpoint, !JsonSer MacInput, !CheckpointJsonLaws}.
(** The ledger of every profile generation, each over its own files. *)
Context (ledger_of : ProfileIdentity -> AuditLedger).

Definition ledgers : Type := ProfileIdentity -> World.

#[export] Instance ledger_sink : AuditSink ledgers := {|
  sink_append i e ws :=
    let (w, r) := Ledger.append (ledger_of i) e (ws i) in
    (fun j => if decide (j = i) then w else ws j,
     match r with Ok _ => Ok tt | Err s => Err s end);
  sink_events i ws := disk_events (disk (ws i));
|}.

Lemma ledger_sink_laws : (forall i, ledger_ok (ledger_of i)) -> AuditSinkLaws ledgers.
Proof.
  intros HL. split.
  - intros i e ws ws' r. cbn [sink_append sink_events ledger_sink].
    destruct (Ledger.append (ledger_of i) e (ws i)) as [w r0] eqn:Ha.
    intros [<- <-]%pair_equal_spec. rewrite decide_True by done.
    apply (append_effect _ _ _ _ _ (HL i)) in Ha. destruct r0 as [c|s]; cbn [is_ok].
    + apply Ha.
    + by rewrite Ha, app_nil_r.
  - intros i j e ws Hne. cbn [sink_append sink_events ledger_sink].
    destruct (Ledger.append (ledger_of i) e (ws i)) as [w r0]. cbn [fst].
    by rewrite decide_False by congruence.
Qed.

(** The relay's audit contract is met by the authenticated ledger: an
    append adds exactly its event or nothing to the events on disk, and
    touches no other profile generation's ledger. *)
Theorem ledger_is_audit_sink :
  (forall i, ledger_ok (ledger_of i)) -> AuditSinkLaws ledgers.
Proof. apply ledger_sink_laws. Qed.
End ledger_sink.

(** ** Runs *)
Module DaemonRuns.
Import StandIn IpcStandIn LedgerRuns.

Definition identity : ProfileIdentity :=
  {| id_profile_id := LedgerRuns.ledger.(Ledger.profile_id); id_generation := 1 |}.
Definition ledger_of (i : ProfileIdentity) : AuditLedger := LedgerRuns.ledger.
#[export] Instance sink : AuditSink ledgers := ledger_sink ledger_of.

Lemma ledgers_ok : forall i, ledger_ok (ledger_of i).
Proof. intros i. exact ledger_is_ok. Qed.

Lemma ledger_is_audit_sink_witness :
  @AuditSinkLaws (ledgers) sink.
Proof. apply (ledger_is_audit_sink ledger_of). exact ledgers_ok. Defined.

(** The runs below keep their audit trail in memory, under the same contract;
    [race_audited] repeats the race over the ledgers. *)
Definition trails : Type := list (ProfileIdentity * AuditEvent).
#[export] Instance trail_sink : AuditSink trails := {|
  sink_append i e l := (l ++ [(i, e)], Ok tt);
  sink_events i l := (filter (fun ie => ie.1 = i) l).*2;
|}.
#[export] Instance trail_sink_laws : AuditSinkLaws trails.
Proof.
  split.
  - intros i e l l' r [= <- <-]. cbn. by rewrite filter_app, filter_cons_True, fmap_app by done.
  - intros i j e l Hne. cbn.
    rewrite filter_app, filter_cons_False by (cbn; congruence). cbn. by rewrite app_nil_r.
Qed.

(** The owner of a profile and an agent. *)
Definition call_key : bytes := be_bytes 32 5.
Definition agent_key : @SigningKey poly_ed25519 := 9.
Definition grant_key : bytes := be_bytes 16 7.

Definition owner_request (proof : option str) : V6RequestPrelude :=
  {| protocol_version := 9; client_session_id := be_bytes 16 1; V6.request_id := be_bytes 16 2;
     V6.operation_kind := rs "daemon.issue-grant";
     V6.profile_id := Some (id_profile_id identity); V6.profile_name := Some (rs "prod");
     grant_id := None; pop_signature := None; profile_proof := proof;
     requested_deadline_unix_ms := 90000; root_request_hash := be_bytes 32 4 |}.
Definition agent_request (n : Z) (sig : option str) : V6RequestPrelude :=
  {| protocol_version := 9; client_session_id := be_bytes 16 1; V6.request_id := be_bytes 16 n;
     V6.operation_kind := rs "ssh.exec"; V6.profile_id := None;
     V6.profile_name := Some (rs "prod"); grant_id := Some grant_key; pop_signature := sig;
     profile_proof := None; requested_deadline_unix_ms := 50000;
     root_request_hash := be_bytes 32 3 |}.

#[export] Instance pop_json : JsonSer PopPayload :=
  table_json_ser [(pop_payload (agent_request 20 None), rs "twenty");
                  (pop_payload (agent_request 21 None), rs "twenty-one")].
#[export] Instance ProfileProofPayload_eq_dec : EqDecision ProfileProofPayload.
Proof. solve_decision. Defined.
#[export] Instance proof_json : JsonSer ProfileProofPayload :=
  table_json_ser [(profile_proof_payload (owner_request None), rs "owner")].

Definition ok_or_nil (r : result string str) : str := match r with Ok x => x | Err _ => [] end.
Definition owner_prelude : V6RequestPrelude := Eval vm_compute in
  owner_request (Some (ok_or_nil (profile_prelude_proof call_key (owner_request None)))).
Definition agent_prelude (n : Z) : V6RequestPrelude :=
  agent_request n (Some (ok_or_nil (sign_prelude_pop agent_key (agent_request n None)))).

(** One unit of budget for [ssh.exec] and one minute. *)
Definition issue_frame : Frame := Eval vm_compute in
  IssueGrant (rs "prod") [rs "ssh.exec"; rs "daemon.status"; rs "ssh.exec"] 1 60
    (b64_encode (verifying_key agent_key)).
Definition entry0 : ProfilePoolEntry :=
  {| pe_identity := identity; pe_profile := rs "prod"; pe_call_key := call_key;
     pe_quarantined := false; pe_expires_at := from_secs 1000 |}.
Definition instance0 : bytes := be_bytes 16 6.
Definition trails0 : trails := [].
Definition ledgers0 : ledgers := fun _ => LedgerRuns.fresh.

Definition unlocked : Sys (L := trails) := exec instance0 [MUnlock entry0] (sys_init trails0).
Definition issuing : move :=
  MIssue owner_prelude issue_frame grant_key (from_secs 1) 2000 (from_secs 2).

Definition quiet (t : Z) : env :=
  {| en_now := from_secs t; en_now_ms := 1000 * t; en_fate := OnTime; en_spurious := false;
     en_response := None |}.
Definition respond (t : Z) (f : Frame) : env :=
  {| en_now := from_secs t; en_now_ms := 1000 * t; en_fate := OnTime; en_spurious := false;
     en_response := Some f |}.

(** Both agents read the same last unit; the second one claims it. *)
Definition racing : list move :=
  [MUnlock entry0; issuing;
   MAccept 0 (agent_prelude 20) (Exec (rs "ls") 1000); MAccept 1 (agent_prelude 21) (Exec (rs "id") 1000)]
  ++ concat (replicate 6 [MRun 0 (quiet 3); MRun 1 (quiet 3)]) ++
  [MRun 1 (quiet 4);      (* the exchange *)
   MRun 0 (quiet 4);      (* the exchange fails; reloaded *)
   MRun 0 (quiet 4); MRun 0 (quiet 4); MRun 0 (quiet 4);
   MRun 1 (quiet 4);
   MRun 1 (respond 5 (ExecOut (rs "root"))); MRun 1 (respond 6 (ExecExit (Some 0) None 1));
   MRun 1 (quiet 7); MRun 1 (quiet 7)].
Definition raced : Sys (L := trails) := exec instance0 racing (sys_init trails0).

Lemma raced_reachable : reachable instance0 trails0 raced.
Proof. apply exec_reachable. Qed.

Definition summary (s : Sys (L := trails)) : list (option string) :=
  map (fun tid => match sys_handlers s !! tid with
                  | Some h => match h_pc h with
                              | PcDone (RefusedWith _ e) => Some e
                              | PcDone (FailedWith e) => Some e
                              | PcDone (Relayed _ _ _ (Ok _) (Ok _)) => Some "relayed"
                              | PcDone _ => Some "ended"
                              | PcStart => Some "start" | PcValidate _ => Some "validate"
                              | PcAuthorize _ _ => Some "authorize" | PcIntent _ _ _ => Some "intent"
                              | PcQuarantine _ _ _ _ => Some "quarantine"
                              | PcSpend _ _ _ _ => Some "spend" | PcExhaust _ _ _ => Some "exhaust"
                              | PcRefuse _ _ _ => Some "refuse" | PcDeny _ _ _ => Some "deny"
                              | PcDispatch _ _ _ _ _ => Some "dispatch"
                              | PcFinalize _ _ _ _ => Some "finalize"
                              end
                  | None => None
                  end) [0; 1]%nat.

Example race_lost : summary raced = [Some "grant budget exhausted"; Some "relayed"].
Proof. vm_compute. reflexivity. Qed.

(** The audit ledger afterwards: the generation record, both intents, one
    denial and one success. *)
Definition trail {L} `{AuditSink L} (s : Sys (L := L)) : list (AuditPhase * AuditDecision * str) :=
  map (fun e => (phase e, decision e, reason_code e))
    (sink_events identity (DaemonRelay.ledger (sys_daemon s))).
Example race_audited :
  let l := trail (exec instance0 racing (sys_init ledgers0)) in
  drop 1 l = trail raced /\ trail raced =
  [(Intent, Pending, rs "intent.recorded"); (Intent, Pending, rs "intent.recorded");
   (Outcome, Denied, rs "grant.budget_exhausted"); (Outcome, Succeeded, rs "dispatch.succeeded")].
Proof. vm_compute. split; reflexivity. Qed.

Definition no_record : GrantRecord :=
  {| gr_grant := {| og_grant_id := []; og_profile_name := []; og_profile_id := [];
                    og_profile_generation := 0; og_operations := []; og_budget := 0;
                    og_issued_unix_ms := 0; og_expires_unix_ms := 0; og_holder_key := [] |};
     gr_entry := 0; gr_remaining := 0; gr_expires_at := 0; gr_strong := 0 |}.
Definition record0 : GrantRecord := Eval vm_compute in
  default no_record (records (grants (sys_daemon raced)) !! 0%nat).

Lemma grant_budget_is_respected_witness :
  og_budget (gr_grant record0) = 1 /\ gr_remaining record0 = 0 /\
  claims_of 0 (sys_claims raced) + gr_remaining record0 = og_budget (gr_grant record0).
Proof.
  split; [reflexivity|]. split; [reflexivity|].
  apply (grant_budget_is_respected instance0 trails0 raced 0 record0).
  - exact raced_reachable.
  - vm_compute. reflexivity.
Defined.

Definition no_handler : Handler :=
  {| h_prelude := agent_request 0 None; h_frame := Ack; h_pc := PcStart |}.
Definition winner : Handler := Eval vm_compute in default no_handler (sys_handlers raced !! 1%nat).

Lemma claims_are_authorized_witness :
  exists r, length (sys_claims raced) = 1%nat /\
    forall cl, cl ∈ sys_claims raced -> exists e, r cl e /\
      V6.operation_kind (cl_prelude cl) ∈ og_operations (gr_grant e).
Proof.
  exists (fun cl e => records (grants (sys_daemon raced)) !! cl_record cl = Some e).
  split; [vm_compute; reflexivity|]. intros cl Hcl.
  destruct (claims_are_authorized instance0 trails0 raced cl raced_reachable Hcl)
    as (r & e & Hr & _ & _ & _ & Hk & _).
  exists r. split; [exact Hr|exact Hk].
Defined.

Lemma outcomes_are_recorded_witness :
  match h_pc winner with
  | PcDone (Relayed (Some _) (Some a) released (Ok _) _) =>
      length released = 2%nat /\ outcome_recorded (sys_daemon raced) a
  | _ => False
  end.
Proof.
  assert (sys_handlers raced !! 1%nat = Some winner) as Hl by (vm_compute; reflexivity).
  pose proof (outcomes_are_recorded instance0 trails0 raced 1 winner raced_reachable Hl) as Hw.
  split; [reflexivity|]. destruct Hw as (_ & _ & Hout). exact Hout.
Defined.

Lemma registry_is_bounded_witness :
  size (tombstones (grants (sys_daemon raced))) = 1%nat /\
  (size (live (grants (sys_daemon raced))) + size (tombstones (grants (sys_daemon raced))) <= 1024)%nat.
Proof.
  split; [vm_compute; reflexivity|].
  apply (registry_is_bounded instance0 trails0 raced). exact raced_reachable.
Defined.

Lemma lookup_is_exact_witness :
  (lookup grant_key (from_secs 30) (grants (sys_daemon raced))).2 = LookupExhausted /\
  (lookup grant_key (from_secs 90) (grants (sys_daemon raced))).2 = LookupExpired /\
  (lookup grant_key (from_secs 130) (grants (sys_daemon raced))).2 = LookupUnknown.
Proof.
  split; [|split].
  - etrans; [exact (lookup_is_exact instance0 trails0 raced grant_key (from_secs 30)
                      raced_reachable)|vm_compute; reflexivity].
  - etrans; [exact (lookup_is_exact instance0 trails0 raced grant_key (from_secs 90)
                      raced_reachable)|vm_compute; reflexivity].
  - etrans; [exact (lookup_is_exact instance0 trails0 raced grant_key (from_secs 130)
                      raced_reachable)|vm_compute; reflexivity].
Defined.

Definition issued : Grants * result string OperationGrant :=
  issue_grant owner_prelude issue_frame grant_key (from_secs 1) 2000 (from_secs 2)
    (grants (sys_daemon unlocked)).

Definition issued_grant : OperationGrant := Eval vm_compute in
  match issued.2 with Ok grant => grant | Err _ => gr_grant no_record end.
Definition issued_grants : Grants := Eval vm_compute in issued.1.

Lemma issuance_is_authorized_witness :
  og_operations issued_grant = [rs "daemon.status"; rs "ssh.exec"] /\
  og_grant_id issued_grant = grant_key /\
  exists l record, live issued_grants !! grant_key = Some l /\
    records issued_grants !! l = Some record /\ gr_remaining record = 1.
Proof.
  assert (issue_grant owner_prelude issue_frame grant_key (from_secs 1) 2000 (from_secs 2)
    (grants (sys_daemon unlocked)) = (issued_grants, Ok issued_grant)) as Hi
    by (vm_compute; reflexivity).
  destruct (issuance_is_authorized instance0 trails0 unlocked owner_prelude issue_frame
    grant_key (from_secs 1) 2000 (from_secs 2) issued_grants (Ok issued_grant)
    (exec_reachable _ _ _) Hi) as (entry & e & record & _ & Hid & (l & Hl & Hr) & _ & _ & Hrem & _).
  split; [reflexivity|]. split; [exact Hid|]. exists l, record. split; [exact Hl|].
  split; [exact Hr|]. rewrite Hrem. reflexivity.
Defined.
End DaemonRuns.
