(* ===== verification/Registry.v ===== *)
(** * serctl_daemon: registries of running and finished operations

    The transfer registry and the managed-tunnel registry of
    crates/serctl_daemon/src/daemon.rs keep their records by the same code:
    finished records are retained for a while, the oldest are evicted beyond
    fixed caps, and a record bound to an operation context is listed without
    that context only once.  This file has that code once, over the interface
    [Tracked] that both record types implement, with its theory. *)

From stdpp Require Import gmap sorting.
From S2P Require Import Prelude.
From S2P Require Import Bytes.
From S2P Require Import Text.
From S2P Require Import Async.
From S2P Require Import Ledger.
From S2P Require Import IpcFrame.
#[local] Open Scope string_scope.
#[local] Open Scope list_scope.
#[local] Open Scope Z_scope.

(** What the registries read of a record [R] of an owner [O] that shows its
    holder a [V]. *)
Class Tracked (O R V : Type) := {
  owner : R -> O;
  view : R -> V;
  finished_at : R -> option Z;
  finished_order : R -> option Z;
  context_discovered : R -> bool;
  discover : R -> R;                      (** [context_discovered = true] *)
  view_id : V -> str;
  view_context : V -> option OperationContextId;
}.
Class TrackedLaws (O R V : Type) `{Tracked O R V} : Prop := {
  discover_owner r : owner (discover r) = owner r;
  discover_view r : view (discover r) = view r;
  discover_finished r : finished_at (discover r) = finished_at r;
  discover_order r : finished_order (discover r) = finished_order r;
  discover_sets r : context_discovered (discover r) = true;
}.

Section registry.
Context {O R V : Type} `{EqDecision O} `{Tracked O R V}.
Implicit Types (m : gmap str R) (o : option O).

(** ** Retention *)

Definition retained (retention now : Z) (r : R) : bool :=
  match finished_at r with
  | Some finished => saturating_sub now finished <? retention
  | None => true
  end.

Definition prune_locked (retention now : Z) m : gmap str R :=
  filter (fun kv => retained retention now kv.2 = true) m.

Definition is_finished (r : R) : bool := is_some (finished_at r).
Definition owned_by o (r : R) : bool :=
  match o with Some o => bool_decide (owner r = o) | None => true end.
Definition candidate o (r : R) : bool := is_finished r && owned_by o r.
Definition is_active o (r : R) : bool := negb (is_finished r) && owned_by o r.

(** [Option<usize>] as [Ord] has it. *)
Definition order_ltb (a b : option Z) : bool :=
  match a, b with
  | Some a, Some b => a <? b
  | None, Some _ => true
  | _, None => false
  end.
(** [left.finished_order.cmp(..).then_with(|| left_id.cmp(right_id))] is not
    [Greater]. *)
Definition older (a b : str * R) : bool :=
  if order_ltb (finished_order a.2) (finished_order b.2) then true
  else if order_ltb (finished_order b.2) (finished_order a.2) then false
  else bytes_leb a.1 b.1.

Definition min_by (l : list (str * R)) : option (str * R) :=
  fold_left (fun best x =>
    match best with
    | Some b => Some (if older b x then b else x)
    | None => Some x
    end) l None.

Definition remove_oldest_finished o m : gmap str R * bool :=
  match min_by (filter (fun kv => candidate o kv.2 = true) (map_to_list m)) with
  | Some (id, _) => (delete id m, is_some (m !! id))
  | None => (m, false)
  end.

(** [values().filter(p).count()] *)
Definition count (p : R -> bool) m : Z := Z.of_nat (size (filter (fun kv => p kv.2 = true) m)).

(** The [while] loop; each round removes a record. *)
Fixpoint evict (fuel : nat) o (cap : Z) m : gmap str R :=
  match fuel with
  | 0%nat => m
  | S fuel =>
      if cap <? count (candidate o) m then
        let (m', removed) := remove_oldest_finished o m in
        if removed then evict fuel o cap m' else m'
      else m
  end.

Definition enforce_finished_caps (owner_cap global_cap : Z) (ow : O) m : gmap str R :=
  let m := evict (S (size m)) (Some ow) owner_cap m in
  evict (S (size m)) None global_cap m.

(** ** Listing *)

Definition selected (ow : O) (id : option str) (r : R) : bool :=
  bool_decide (owner r = ow) &&
  match id with Some id => bool_decide (id = view_id (view r)) | None => true end.

Section listing.
Context (mismatch undiscovered : string).

(** One record of the loop over [values_mut()]. *)
Definition visit (ctx : option OperationContextId) (enforce : bool) (r : R) : result string R :=
  match view_context (view r), ctx with
  | Some c, Some expected =>
      ensure! bool_decide (c = expected) or mismatch ;; Ok r
  | Some _, None =>
      if enforce then
        if context_discovered r then Err undiscovered else Ok (discover r)
      else Ok r
  | None, _ => Ok r
  end.

(** [ids] is the order in which the map is iterated. *)
Fixpoint visit_records (ow : O) (id : option str) (ctx : option OperationContextId)
    (enforce : bool) (ids : list str) : eff (gmap str R) string (list V) :=
  match ids with
  | [] => eret []
  | i :: ids =>
      let~ found := eget (fun m => m !! i) in
      match found with
      | Some r =>
          if selected ow id r then
            let~ r' := elift (visit ctx enforce r) in
            run~ emodify (fun m => <[i := r']> m) ;;
            let~ vs := visit_records ow id ctx enforce ids in
            eret (view r' :: vs)
          else visit_records ow id ctx enforce ids
      | None => visit_records ow id ctx enforce ids
      end
  end.

Definition view_le (a b : V) : Prop := bytes_leb (view_id a) (view_id b) = true.
#[export] Instance view_le_dec a b : Decision (view_le a b).
Proof. unfold view_le. apply _. Defined.

(** The listing after the pruning it begins with. *)
Definition list_pruned (encoded_len : list V -> result string Z) (ow : O)
    (id : option str) (ctx : option OperationContextId) (enforce : bool) (ids : list str)
  : eff (gmap str R) string (list V) :=
  let~ vs := visit_records ow id ctx enforce ids in
  let vs := merge_sort view_le vs in
  ensure~ negb (is_some ctx) || (zlen vs =? 1) or mismatch ;;
  run~ elift (encoded_len vs) ;;
  eret vs.

Definition list_records (retention now : Z) (encoded_len : list V -> result string Z) (ow : O)
    (id : option str) (ctx : option OperationContextId) (enforce : bool) (ids : list str)
  : eff (gmap str R) string (list V) :=
  run~ emodify (prune_locked retention now) ;;
  list_pruned encoded_len ow id ctx enforce ids.
End listing.

(** [ids] are the keys of the map in the order of an iteration over it. *)
Definition iteration m (ids : list str) : Prop :=
  NoDup ids /\ forall i, is_Some (m !! i) -> i ∈ ids.
End registry.
