(* ===== verification/RegistryTheory.v ===== *)
(** * Registries: theory

    Eviction removes exactly as many of the oldest finished records as the cap
    asks for; a listing shows exactly the selected records and marks those it
    showed without their context. *)

From stdpp Require Import gmap sorting.
From S2P Require Import Prelude.
From S2P Require Import Bytes.
From S2P Require Import Text.
From S2P Require Import Async.
From S2P Require Import Ledger.
From S2P Require Import IpcFrame.
From S2P Require Import DaemonGrants.
From S2P Require Import DaemonGrantsTheory.
From S2P Require Import Registry.
#[local] Open Scope string_scope.
#[local] Open Scope list_scope.
#[local] Open Scope Z_scope.

Section theory.
Context {O R V : Type} `{EqDecision O} `{Tracked O R V}.
Implicit Types (m : gmap str R) (o : option O).

(** ** The order of completion *)

Lemma order_ltb_spec a b : order_ltb a b = true <->
  match a, b with Some a, Some b => a < b | None, Some _ => True | _, None => False end.
Proof. destruct a, b; cbn; rewrite ?Z.ltb_lt; naive_solver. Qed.

Lemma older_total (a b : str * R) : older a b = true \/ older b a = true.
Proof.
  unfold older.
  destruct (order_ltb (finished_order a.2) (finished_order b.2)) eqn:Hab; [by left|].
  destruct (order_ltb (finished_order b.2) (finished_order a.2)) eqn:Hba; [by right|].
  destruct (str_le_total a.1 b.1); auto.
Qed.

Lemma older_trans (a b c : str * R) : older a b = true -> older b c = true -> older a c = true.
Proof.
  unfold older. intros Hab Hbc.
  assert (forall x y z : option Z, order_ltb x y = true -> order_ltb y z = true ->
            order_ltb x z = true) as Ht.
  { intros [x|] [y|] [z|]; cbn; try done. rewrite !Z.ltb_lt. lia. }
  assert (forall x y z : option Z, order_ltb y x = false -> order_ltb z y = false ->
            order_ltb z x = false) as Hn.
  { intros [x|] [y|] [z|]; cbn; try done. rewrite !Z.ltb_ge. lia. }
  assert (forall x y : option Z, order_ltb x y = false -> order_ltb y x = false -> x = y) as He.
  { intros [x|] [y|]; cbn; try done. rewrite !Z.ltb_ge. intros. f_equal. lia. }
  destruct (order_ltb (finished_order a.2) (finished_order b.2)) eqn:E1.
  - destruct (order_ltb (finished_order b.2) (finished_order c.2)) eqn:E2.
    + by rewrite (Ht _ _ _ E1 E2).
    + destruct (order_ltb (finished_order c.2) (finished_order b.2)) eqn:E3; [done|].
      by rewrite <-(He _ _ E2 E3), E1.
  - destruct (order_ltb (finished_order b.2) (finished_order a.2)) eqn:E2; [done|].
    rewrite (He _ _ E1 E2).
    destruct (order_ltb (finished_order b.2) (finished_order c.2)); [done|].
    destruct (order_ltb (finished_order c.2) (finished_order b.2)); [done|].
    by apply (str_le_trans _ b.1).
Qed.

Lemma older_refl (a : str * R) : older a a = true.
Proof. by destruct (older_total a a). Qed.

Lemma min_by_from (l : list (str * R)) b :
  exists x, fold_left (fun best x => match best with
                                     | Some b => Some (if older b x then b else x)
                                     | None => Some x
                                     end) l (Some b) = Some x /\
    (x = b \/ x ∈ l) /\ older x b = true /\ forall y, y ∈ l -> older x y = true.
Proof.
  revert b; induction l as [|a l IH]; intros b; cbn.
  - exists b. split; [done|]. split; [by left|]. split; [apply older_refl|].
    intros y Hy. by apply elem_of_nil in Hy.
  - destruct (older b a) eqn:Hba.
    + destruct (IH b) as (x & -> & Hx & Hxb & Hall). exists x. split; [done|].
      split; [destruct Hx; [by left|right; by constructor]|]. split; [done|].
      intros y [->|Hy]%elem_of_cons; [by apply (older_trans _ b)|auto].
    + destruct (IH a) as (x & -> & Hx & Hxa & Hall). exists x. split; [done|].
      destruct (older_total a b) as [Hab|?]; [|congruence].
      split; [right; destruct Hx as [->|?]; by constructor|].
      split; [by apply (older_trans _ a)|]. intros y [->|Hy]%elem_of_cons; auto.
Qed.

Lemma min_by_spec (l : list (str * R)) :
  match min_by l with
  | Some x => x ∈ l /\ forall y, y ∈ l -> older x y = true
  | None => l = []
  end.
Proof.
  unfold min_by. destruct l as [|a l]; [done|]. cbn.
  destruct (min_by_from l a) as (x & -> & Hx & Hxa & Hall). split.
  - destruct Hx as [->|?]; by constructor.
  - intros y [->|Hy]%elem_of_cons; auto.
Qed.

Lemma remove_oldest_spec o m m' removed :
  remove_oldest_finished o m = (m', removed) ->
  if removed then
    exists id r, m !! id = Some r /\ candidate o r = true /\ m' = delete id m /\
      forall id' r', m !! id' = Some r' -> candidate o r' = true -> older (id, r) (id', r') = true
  else m' = m /\ forall id r, m !! id = Some r -> candidate o r = false.
Proof.
  unfold remove_oldest_finished.
  pose proof (min_by_spec (filter (fun kv => candidate o kv.2 = true) (map_to_list m))) as Hmin.
  destruct (min_by _) as [[id r]|] eqn:E.
  - destruct Hmin as [Hin Hall]. apply list_elem_of_filter in Hin as [Hc Hin%elem_of_map_to_list].
    intros [= <- <-]. rewrite Hin. cbn. exists id, r. split_and!; try done.
    intros id' r' Hl Hc'. apply Hall, list_elem_of_filter. split; [done|].
    by apply elem_of_map_to_list.
  - intros [= <- <-]. split; [done|]. intros id r Hl.
    destruct (candidate o r) eqn:Hc; [|done].
    assert ((id, r) ∈ filter (fun kv => candidate o kv.2 = true) (map_to_list m)) as Hin.
    { apply list_elem_of_filter. split; [done|by apply elem_of_map_to_list]. }
    rewrite Hmin in Hin. by apply elem_of_nil in Hin.
Qed.

(** ** Counting *)

Lemma count_nonneg p m : 0 <= count p m.
Proof. unfold count. lia. Qed.

Lemma count_insert_new p m id r :
  m !! id = None -> count p (<[id := r]> m) = count p m + (if p r then 1 else 0).
Proof.
  intros Hn. unfold count. destruct (p r) eqn:Hp.
  - rewrite map_filter_insert_True by done. rewrite map_size_insert_None; [lia|].
    rewrite map_lookup_filter_None. by left.
  - rewrite map_filter_insert_False by (cbn; congruence). rewrite delete_id by done. lia.
Qed.

Lemma count_delete p m id r :
  m !! id = Some r -> count p (delete id m) = count p m - (if p r then 1 else 0).
Proof.
  intros Hl. rewrite <-(insert_delete_id m id r) at 2 by done.
  rewrite count_insert_new by apply lookup_delete_eq. lia.
Qed.

Lemma count_insert p m id r r' :
  m !! id = Some r ->
  count p (<[id := r']> m) = count p m + (if p r' then 1 else 0) - (if p r then 1 else 0).
Proof.
  intros Hl. rewrite <-insert_delete_eq. rewrite count_insert_new by apply lookup_delete_eq.
  rewrite (count_delete _ _ _ _ Hl). lia.
Qed.

Lemma count_le (p q : R -> bool) m m' :
  (forall i r, m !! i = Some r -> p r = true -> exists r', m' !! i = Some r' /\ q r' = true) ->
  count p m <= count q m'.
Proof.
  intros Hm. unfold count. apply inj_le. rewrite <-!(size_dom (D := gset str)).
  apply subseteq_size. intros i. rewrite !elem_of_dom. intros [r Hr].
  apply map_lookup_filter_Some in Hr as [Hr Hp]. destruct (Hm _ _ Hr Hp) as (r' & Hr' & Hq).
  exists r'. by apply map_lookup_filter_Some.
Qed.

Lemma count_mono p m m' : m ⊆ m' -> count p m <= count p m'.
Proof. intros Hs. apply count_le. intros i r Hr Hp. exists r. split; [by eapply lookup_weaken|done]. Qed.

(** ** Eviction *)

(** [m'] is [m] without some of the oldest finished records of [o]. *)
Record evicted o (cap : Z) m m' : Prop := {
  ev_sub : m' ⊆ m;
  ev_gone id r : m !! id = Some r -> m' !! id = None -> candidate o r = true;
  ev_oldest id r id' r' : m !! id = Some r -> m' !! id = None ->
    m' !! id' = Some r' -> candidate o r' = true -> older (id, r) (id', r') = true;
  ev_cap : count (candidate o) m' <= Z.max cap 0;
  ev_least : Z.min cap (count (candidate o) m) <= count (candidate o) m';
}.

Lemma evict_spec fuel o cap m :
  (size m < fuel)%nat -> evicted o cap m (evict fuel o cap m).
Proof.
  revert m; induction fuel as [|fuel IH]; intros m Hf; [lia|]. cbn.
  destruct (Z.ltb_spec cap (count (candidate o) m)) as [Hlt|Hle].
  2:{ split; [done|intros; congruence|intros; congruence|lia|lia]. }
  destruct (remove_oldest_finished o m) as [m' removed] eqn:Hr.
  apply remove_oldest_spec in Hr. destruct removed.
  - destruct Hr as (id & r & Hl & Hc & -> & Hold).
    assert (size (delete id m) < fuel)%nat as Hf'.
    { rewrite map_size_delete_Some by eauto. assert (size m <> 0%nat); [|lia].
      intros Hz%map_size_empty_inv. by rewrite Hz, lookup_empty in Hl. }
    destruct (IH _ Hf') as [Hsub Hgone Holdest Hcap Hleast].
    rewrite (count_delete _ _ _ _ Hl), Hc in Hleast.
    split; [|intros i x Hi Hn|intros i x i' x' Hi Hn Hi' Hc'|done|lia].
    + etrans; [exact Hsub|apply delete_subseteq].
    + destruct (decide (i = id)) as [->|Hne]; [congruence|].
      apply (Hgone i); [by rewrite lookup_delete_ne|done].
    + assert (delete id m !! i' = Some x') as Hd by (by eapply lookup_weaken).
      destruct (decide (i = id)) as [->|Hne].
      * replace x with r by congruence. apply Hold; [|done].
        apply lookup_delete_Some in Hd. apply Hd.
      * apply (Holdest i x); [by rewrite lookup_delete_ne|done..].
  - destruct Hr as [-> Hno].
    assert (count (candidate o) m = 0) as Hz.
    { unfold count. rewrite (proj2 (map_empty_filter _ _)); [by rewrite map_size_empty|].
      intros i x Hi. cbn. by rewrite (Hno _ _ Hi). }
    split; [done|intros; congruence|intros; congruence|lia|lia].
Qed.

Lemma enforce_finished_caps_spec owner_cap global_cap (ow : O) m :
  exists m1, evicted (Some ow) owner_cap m m1 /\
    evicted None global_cap m1 (enforce_finished_caps owner_cap global_cap ow m).
Proof.
  unfold enforce_finished_caps. eexists. split; apply evict_spec; lia.
Qed.

Lemma enforce_subseteq owner_cap global_cap (ow : O) m :
  enforce_finished_caps owner_cap global_cap ow m ⊆ m.
Proof.
  destruct (enforce_finished_caps_spec owner_cap global_cap ow m) as (m1 & H1 & H2).
  etrans; [apply H2|apply H1].
Qed.

Lemma enforce_gone owner_cap global_cap (ow : O) m id r :
  m !! id = Some r -> enforce_finished_caps owner_cap global_cap ow m !! id = None ->
  is_finished r = true.
Proof.
  destruct (enforce_finished_caps_spec owner_cap global_cap ow m) as (m1 & H1 & H2).
  intros Hl Hn.
  assert (forall o, candidate o r = true -> is_finished r = true) as Hc.
  { intros o Hc. unfold candidate in Hc. by apply andb_true_iff in Hc as [? _]. }
  destruct (m1 !! id) as [x|] eqn:Hx.
  - pose proof (lookup_weaken _ _ _ _ Hx (ev_sub _ _ _ _ H1)).
    apply (Hc None), (ev_gone _ _ _ _ H2 id); congruence.
  - apply (Hc (Some ow)), (ev_gone _ _ _ _ H1 id); done.
Qed.

Lemma enforce_count owner_cap global_cap (ow : O) m :
  0 <= owner_cap -> 0 <= global_cap ->
  let m' := enforce_finished_caps owner_cap global_cap ow m in
  count (candidate (Some ow)) m' <= owner_cap /\ count (candidate None) m' <= global_cap.
Proof.
  intros Ho Hg m'.
  destruct (enforce_finished_caps_spec owner_cap global_cap ow m) as (m1 & H1 & H2). fold m' in H2.
  pose proof (ev_cap _ _ _ _ H1). pose proof (ev_cap _ _ _ _ H2).
  pose proof (count_mono (candidate (Some ow)) _ _ (ev_sub _ _ _ _ H2)). lia.
Qed.

(** ** The newest record *)

Lemma count_pos p m id r : m !! id = Some r -> p r = true -> 0 < count p m.
Proof.
  intros Hl Hp. pose proof (count_delete p _ _ _ Hl) as Hd. rewrite Hp in Hd.
  pose proof (count_nonneg p (delete id m)). lia.
Qed.

Lemma count_pos_inv p m : 0 < count p m -> exists id r, m !! id = Some r /\ p r = true.
Proof.
  unfold count. intros Hc.
  destruct (map_choose (filter (fun kv => p kv.2 = true) m)) as (id & r & Hl).
  { intros He. rewrite He, map_size_empty in Hc. lia. }
  apply map_lookup_filter_Some in Hl. eauto.
Qed.

(** Every other finished record was finished before [r]. *)
Definition newest m (id : str) (r : R) : Prop :=
  m !! id = Some r /\ forall id' r', m !! id' = Some r' -> id' <> id -> is_finished r' = true ->
    order_ltb (finished_order r') (finished_order r) = true.

Lemma evict_newest o cap m m' id r : evicted o cap m m' -> 0 < cap -> newest m id r -> newest m' id r.
Proof.
  intros [Hsub Hgone Hold Hcap Hleast] Hc [Hl Hn]. split.
  - destruct (m' !! id) as [x|] eqn:Hx.
    { rewrite (lookup_weaken _ _ _ _ Hx Hsub) in Hl. done. }
    pose proof (Hgone _ _ Hl Hx) as Hr.
    assert (0 < count (candidate o) m') as Hpos by (pose proof (count_pos _ _ _ _ Hl Hr); lia).
    apply count_pos_inv in Hpos as (id' & r' & Hl' & Hc').
    assert (order_ltb (finished_order r') (finished_order r) = true) as Hlt.
    { apply (Hn id'); [by eapply lookup_weaken|congruence|].
      unfold candidate in Hc'. by apply andb_true_iff in Hc' as [? _]. }
    pose proof (Hold _ _ _ _ Hl Hx Hl' Hc') as Hle. unfold older in Hle. cbn in Hle.
    destruct (order_ltb (finished_order r) (finished_order r')) eqn:Hlt'.
    + rewrite order_ltb_spec in Hlt, Hlt'.
      destruct (finished_order r), (finished_order r'); (done || lia).
    + by rewrite Hlt in Hle.
  - intros id' r' Hl' Hne Hf. by eapply Hn; [eapply lookup_weaken|..].
Qed.

Lemma enforce_newest owner_cap global_cap (ow : O) m id r :
  0 < owner_cap -> 0 < global_cap -> newest m id r ->
  enforce_finished_caps owner_cap global_cap ow m !! id = Some r.
Proof.
  intros Ho Hg Hn. destruct (enforce_finished_caps_spec owner_cap global_cap ow m) as (m1 & H1 & H2).
  eapply evict_newest; [exact H2|done|]. by eapply evict_newest; [exact H1|..].
Qed.

(** ** Pruning *)

Lemma prune_lookup retention now m id :
  prune_locked retention now m !! id =
  r ← m !! id; if retained retention now r then Some r else None.
Proof.
  unfold prune_locked. destruct (m !! id) as [r|] eqn:Hl; cbn.
  - destruct (retained retention now r) eqn:Hr.
    + by apply map_lookup_filter_Some.
    + apply map_lookup_filter_None. right. intros r' Hl' Hr'. cbn in Hr'. congruence.
  - apply map_lookup_filter_None. by left.
Qed.

Lemma prune_subseteq retention now m : prune_locked retention now m ⊆ m.
Proof. apply map_filter_subseteq. Qed.

Lemma prune_gone retention now m id r :
  m !! id = Some r -> prune_locked retention now m !! id = None -> is_finished r = true.
Proof.
  rewrite prune_lookup. intros -> Hn. cbn in Hn.
  destruct (retained retention now r) eqn:Hr; [done|].
  unfold retained in Hr. unfold is_finished. by destruct (finished_at r).
Qed.

(** ** The caps *)

(** No more than so many active and finished records, in all and per owner. *)
Record within (active active_of done done_of : Z) m : Prop := {
  wi_active : count (is_active None) m <= active;
  wi_active_of ow : count (is_active (Some ow)) m <= active_of;
  wi_done : count (candidate None) m <= done;
  wi_done_of ow : count (candidate (Some ow)) m <= done_of;
}.

Section caps.
Context (active active_of done_ done_of : Z).
Notation within := (within active active_of done_ done_of).

Lemma within_mono m m' :
  (forall i x, m' !! i = Some x -> exists r, m !! i = Some r /\
     is_finished x = is_finished r /\ owner x = owner r) ->
  within m -> within m'.
Proof.
  intros Hm [H1 H2 H3 H4].
  assert (forall f, (forall x r, is_finished x = is_finished r -> owner x = owner r ->
            f x = f r) -> count f m' <= count f m) as Hc.
  { intros f Hf. apply count_le. intros i x Hx Hp. destruct (Hm i x Hx) as (r & Hr & He & Ho).
    exists r. split; [done|]. by rewrite <-(Hf x r). }
  assert (forall o x r, is_finished x = is_finished r -> owner x = owner r ->
            is_active o x = is_active o r /\ candidate o x = candidate o r) as Hf.
  { intros o x r He Ho. unfold is_active, candidate, owned_by. by rewrite He, Ho. }
  split; intros; (etrans; [apply Hc; intros; by apply Hf|]); auto.
Qed.

Lemma within_new m id r :
  within m -> m !! id = None -> is_finished r = false ->
  count (is_active None) m < active -> count (is_active (Some (owner r))) m < active_of ->
  within (<[id := r]> m).
Proof.
  intros [H1 H2 H3 H4] Hn Hf Hg Hp.
  split; intros; rewrite count_insert_new by done; unfold is_active at 2 || unfold candidate at 2;
    rewrite Hf; cbn.
  - lia.
  - case_bool_decide; [subst; lia|]. specialize (H2 ow). lia.
  - lia.
  - specialize (H4 ow). lia.
Qed.

Lemma within_finished (ow : O) m id r x :
  0 <= done_ -> 0 <= done_of ->
  within m -> m !! id = Some r -> is_finished x = true -> owner x = ow ->
  within (enforce_finished_caps done_of done_ ow (<[id := x]> m)).
Proof.
  intros Hz Hzo [H1 H2 H3 H4] Hr Hx Hp. set (t := <[id := x]> m).
  pose proof (enforce_subseteq done_of done_ ow t) as Hsub.
  pose proof (enforce_count done_of done_ ow t Hzo Hz) as [Hc Hg].
  assert (forall f, f x = false -> count f (enforce_finished_caps done_of done_ ow t) <= count f m) as Hf.
  { intros f Hf. etrans; [apply count_mono, Hsub|]. apply count_le.
    intros i y Hy Hfy. apply lookup_insert_Some in Hy as [[<- <-]|[_ Hy]]; [congruence|eauto]. }
  split; [|intros o| |intros o].
  - etrans; [apply Hf|done]. unfold is_active. by rewrite Hx.
  - etrans; [apply Hf|done]. unfold is_active. by rewrite Hx.
  - exact Hg.
  - destruct (decide (o = ow)) as [->|Hne]; [exact Hc|].
    etrans; [apply Hf|apply H4]. unfold candidate, owned_by.
    rewrite bool_decide_false by congruence. apply andb_false_r.
Qed.

Lemma within_prune retention now m : within m -> within (prune_locked retention now m).
Proof.
  apply within_mono. intros i x Hx. exists x. split; [|done].
  eapply lookup_weaken; [exact Hx|apply prune_subseteq].
Qed.
End caps.

(** ** Listing *)

Context `{!TrackedLaws O R V}.

(** What a listing leaves of the record at [i]. *)
Definition shown (ow : O) (id : option str) (ctx : option OperationContextId) (enforce : bool)
    (ids : list str) m m' (i : str) : Prop :=
  m' !! i = m !! i \/
  exists r, i ∈ ids /\ m !! i = Some r /\ selected ow id r = true /\
    is_Some (view_context (view r)) /\ ctx = None /\ enforce = true /\
    context_discovered r = false /\ m' !! i = Some (discover r).

Definition chosen (ow : O) (id : option str) m (i : str) : option R :=
  r ← m !! i; if selected ow id r then Some r else None.

Section listing.
Context (mismatch undiscovered : string) (ow : O) (id : option str)
  (ctx : option OperationContextId) (enforce : bool).
Notation visit := (visit mismatch undiscovered ctx enforce).
Notation visit_records := (visit_records mismatch undiscovered ow id ctx enforce).

Lemma visit_ok r r' :
  visit r = Ok r' ->
  (r' = r /\ (forall c d, view_context (view r) = Some c -> ctx = Some d -> c = d) /\
     (forall c, view_context (view r) = Some c -> ctx = None -> enforce = false)) \/
  (is_Some (view_context (view r)) /\ ctx = None /\ enforce = true /\
   context_discovered r = false /\ r' = discover r).
Proof.
  unfold Registry.visit. destruct (view_context (view r)) as [c|], ctx as [d|]; intros Hv; checks.
  - left. split_and!; [done|naive_solver|done].
  - destruct enforce; [destruct (context_discovered r) eqn:Hd; [done|]|]; injection Hv as <-.
    + right. split_and!; eauto.
    + left. done.
  - left. split_and!; naive_solver.
  - left. split_and!; naive_solver.
Qed.

Lemma visit_records_shown ids m m' res i :
  NoDup ids -> visit_records ids m = (m', res) -> shown ow id ctx enforce ids m m' i.
Proof.
  revert m m' res; induction ids as [|j ids IH]; intros m m' res Hnd; cbn.
  { intros [= <- _]. by left. }
  apply NoDup_cons in Hnd as [Hj Hnd].
  destruct (m !! j) as [r|] eqn:Hl.
  2:{ intros Hv. destruct (IH _ _ _ Hnd Hv) as [?|(r & ? & ?)]; [by left|].
      right. exists r. split; [by constructor|done]. }
  destruct (selected ow id r) eqn:Hs.
  2:{ intros Hv. destruct (IH _ _ _ Hnd Hv) as [?|(r' & ? & ?)]; [by left|].
      right. exists r'. split; [by constructor|done]. }
  unfold ebind at 1, elift at 1. destruct (visit r) as [r'|e] eqn:Hr; [|intros [= <- _]; by left].
  unfold ebind at 1, emodify at 1. unfold ebind.
  destruct (visit_records ids (<[j:=r']> m)) as [m1 [vs|e]] eqn:Hv; intros [= <- _].
  all: apply IH with (1 := Hnd) in Hv as [Hv|(x & Hi & Hm & Hx)].
  1,3: destruct (decide (i = j)) as [->|Hne];
    [|left; by rewrite Hv, lookup_insert_ne by congruence];
    rewrite lookup_insert_eq in Hv;
    destruct (visit_ok _ _ Hr) as [(-> & _)|(? & ? & ? & ? & ->)];
    [left; congruence|right; exists r; split_and!; try done; by constructor].
  all: destruct (decide (i = j)) as [->|Hne]; [done|];
    rewrite lookup_insert_ne in Hm by congruence; right; exists x; split; [by constructor|done].
Qed.

Lemma visit_records_views ids m m' vs :
  NoDup ids -> visit_records ids m = (m', Ok vs) ->
  vs = view <$> omap (chosen ow id m) ids /\
  forall i r, i ∈ ids -> chosen ow id m i = Some r ->
    (forall c d, view_context (view r) = Some c -> ctx = Some d -> c = d) /\
    (is_Some (view_context (view r)) -> ctx = None -> enforce = true ->
       context_discovered r = false /\ m' !! i = Some (discover r)).
Proof.
  revert m vs; induction ids as [|j ids IH]; intros m vs Hnd; cbn [Registry.visit_records].
  { intros [= <- <-]. split; [done|]. intros i r Hi. by apply elem_of_nil in Hi. }
  apply NoDup_cons in Hnd as [Hj Hnd].
  assert (forall x, chosen ow id m j = x -> omap (chosen ow id m) (j :: ids) =
            match x with Some r => r :: omap (chosen ow id m) ids
                       | None => omap (chosen ow id m) ids end) as Hcons by (cbn; by intros x ->).
  assert (chosen ow id m j = None -> visit_records ids m = (m', Ok vs) ->
          vs = view <$> omap (chosen ow id m) (j :: ids) /\
          forall i r, i ∈ j :: ids -> chosen ow id m i = Some r ->
            (forall c d, view_context (view r) = Some c -> ctx = Some d -> c = d) /\
            (is_Some (view_context (view r)) -> ctx = None -> enforce = true ->
               context_discovered r = false /\ m' !! i = Some (discover r))) as Hskip.
  { intros Hn [-> Hall]%IH; [|done]. rewrite (Hcons _ Hn). split; [done|].
    intros i x [->|Hi]%elem_of_cons; [congruence|by apply Hall]. }
  unfold ebind at 1, eget at 1. destruct (m !! j) as [r|] eqn:Hl.
  2:{ apply Hskip. unfold chosen. by rewrite Hl. }
  destruct (selected ow id r) eqn:Hs.
  2:{ apply Hskip. unfold chosen. by rewrite Hl; cbn; rewrite Hs. }
  assert (chosen ow id m j = Some r) as Hch by (unfold chosen; by rewrite Hl; cbn; rewrite Hs).
  rewrite (Hcons _ Hch). clear Hcons Hskip. intros Hrun. inv_eff.
  match goal with Hv : Registry.visit_records _ _ _ _ _ _ _ _ = _ |- _ => rename Hv into Hrec end.
  match goal with Hv : Registry.visit _ _ _ _ _ = _ |- _ => rename Hv into Hvis end.
  pose proof (visit_records_shown _ _ _ _ j Hnd Hrec) as Hsh.
  apply IH in Hrec as [-> Hall]; [|done].
  assert (forall i, i ∈ ids -> chosen ow id (<[j:=a]> m) i = chosen ow id m i) as Hext.
  { intros i Hi. unfold chosen. rewrite lookup_insert_ne; [done|]. by intros <-. }
  apply visit_ok in Hvis. split.
  - cbn. f_equal.
    + destruct Hvis as [(-> & _)|(_ & _ & _ & _ & ->)]; by rewrite ?discover_view.
    + f_equal. apply list_omap_ext, Forall_Forall2_diag, Forall_forall. exact Hext.
  - intros i x [->|Hi]%elem_of_cons Hx.
    + replace x with r in * by congruence. destruct Hvis as [(-> & Hc & He)|(Hc & Hn & He & Hd & ->)].
      * split; [done|]. intros [c Hc'] Hn Ht. rewrite (He _ Hc' Hn) in Ht. done.
      * split; [naive_solver|]. intros _ _ _. split; [done|].
        destruct Hsh as [->|(y & Hy & _)]; [apply lookup_insert_eq|done].
    + apply Hall; [done|]. by rewrite Hext.
Qed.
End listing.

Lemma iteration_sub m m' ids : m' ⊆ m -> iteration m ids -> iteration m' ids.
Proof.
  intros Hs [Hn Hi]. split; [done|]. intros i [r Hr]. apply Hi. exists r. by eapply lookup_weaken.
Qed.

Section listings.
Context (mismatch undiscovered : string) (len : list V -> result string Z) (ow : O)
  (id : option str) (ctx : option OperationContextId) (enforce : bool).

Lemma list_pruned_ok ids m m' vs :
  iteration m ids ->
  list_pruned mismatch undiscovered len ow id ctx enforce ids m = (m', Ok vs) ->
  (forall v, v ∈ vs <-> exists i r, m !! i = Some r /\ selected ow id r = true /\ v = view r) /\
  (is_some ctx = true -> zlen vs = 1) /\
  forall i r, m !! i = Some r -> selected ow id r = true ->
    (forall c d, view_context (view r) = Some c -> ctx = Some d -> c = d) /\
    (is_Some (view_context (view r)) -> ctx = None -> enforce = true ->
       context_discovered r = false /\ m' !! i = Some (discover r)).
Proof.
  intros [Hnd Hids] Hrun. unfold list_pruned in Hrun. inv_eff.
  match goal with Hv : visit_records _ _ _ _ _ _ _ _ = _ |- _ =>
    apply visit_records_views in Hv as [-> Hall]; [|done] end.
  split; [|split].
  - intros v. rewrite merge_sort_Permutation, list_elem_of_fmap.
    setoid_rewrite list_elem_of_omap. unfold chosen. split.
    + intros (r & -> & i & _ & Hi). exists i, r. destruct (m !! i) as [x|]; [|done]. cbn in Hi.
      destruct (selected ow id x) eqn:Hs; [|done]. by injection Hi as ->.
    + intros (i & r & Hi & Hs & ->). exists r. split; [done|]. exists i.
      split; [apply Hids; by exists r|]. rewrite Hi. cbn. by rewrite Hs.
  - intros Hc. match goal with Hl : negb _ || _ = true |- _ =>
      rewrite Hc in Hl; cbn in Hl; by apply Z.eqb_eq in Hl end.
  - intros i r Hi Hs. apply Hall; [apply Hids; by exists r|]. unfold chosen. rewrite Hi. cbn.
    by rewrite Hs.
Qed.

Lemma shown_within a b c d ids m m' :
  (forall i, shown ow id ctx enforce ids m m' i) -> within a b c d m -> within a b c d m'.
Proof.
  intros Hm. apply within_mono. intros i y Hy.
  destruct (Hm i) as [He|(x & _ & Hx & _ & _ & _ & _ & _ & Hd)]; [exists y; split; [by rewrite <-He|done]|].
  exists x. split; [done|]. rewrite Hy in Hd. injection Hd as ->.
  unfold is_finished. by rewrite discover_finished, discover_owner.
Qed.

Lemma list_pruned_shown ids m m' res i :
  NoDup ids ->
  list_pruned mismatch undiscovered len ow id ctx enforce ids m = (m', res) ->
  shown ow id ctx enforce ids m m' i.
Proof.
  intros Hnd. unfold list_pruned, ebind at 1.
  destruct (visit_records _ _ _ _ _ _ _ _) as [m1 [vs|e]] eqn:Hv;
    apply visit_records_shown with (i := i) in Hv; try done.
  - unfold ebind, elift, ensure. destruct (_ || _); [destruct (len _)|]; by intros [= <- _].
  - by intros [= <- _].
Qed.
End listings.

Lemma list_records_ok mismatch undiscovered retention now len (ow : O) id ctx enforce ids m m' vs :
  iteration m ids ->
  list_records mismatch undiscovered retention now len ow id ctx enforce ids m = (m', Ok vs) ->
  let p := prune_locked retention now m in
  (forall v, v ∈ vs <-> exists i r, p !! i = Some r /\ selected ow id r = true /\ v = view r) /\
  (is_some ctx = true -> zlen vs = 1) /\
  forall i r, p !! i = Some r -> selected ow id r = true ->
    (forall c d, view_context (view r) = Some c -> ctx = Some d -> c = d) /\
    (is_Some (view_context (view r)) -> ctx = None -> enforce = true ->
       context_discovered r = false /\ m' !! i = Some (discover r)).
Proof.
  intros Hit Hrun p. eapply list_pruned_ok; [|exact Hrun].
  eapply iteration_sub; [apply prune_subseteq|done].
Qed.

Lemma list_records_shown mismatch undiscovered retention now len (ow : O) id ctx enforce ids m m' res i :
  NoDup ids ->
  list_records mismatch undiscovered retention now len ow id ctx enforce ids m = (m', res) ->
  shown ow id ctx enforce ids (prune_locked retention now m) m' i.
Proof. intros Hnd. by apply list_pruned_shown. Qed.
End theory.
