(* ===== verification/DaemonTransfers.v ===== *)
(** * serctl_daemon: the transfer registry

    [TransferRegistry] of crates/serctl_daemon/src/daemon.rs: the progress of
    running and recently finished transfers, per profile.  The registry is
    behind one mutex, so every method is one step; a [TransferCancellation] is
    shared with the worker of its transfer, so the flags live in a store of
    their own and records hold their location. *)

From stdpp Require Import gmap sorting.
From S2P Require Import Prelude.
From S2P Require Import Bytes.
From S2P Require Import Text.
From S2P Require Import Crates.
From S2P Require Import IpcCrates.
From S2P Require Import Async.
From S2P Require Import IpcFrame.
From S2P Require Import IpcAuth.
From S2P Require Import Grant.
From S2P Require Import Registry.
#[local] Open Scope string_scope.
#[local] Open Scope list_scope.
#[local] Open Scope Z_scope.

Definition MAX_CONTROL_FRAME : Z := 16 * 1024.
Definition TRANSFER_RECORD_RETENTION : Z := from_secs (15 * 60).
Definition MAX_ACTIVE_TRANSFERS_PER_PROFILE : Z := 8.
Definition MAX_ACTIVE_TRANSFERS_GLOBAL : Z := 48.
Definition MAX_COMPLETED_TRANSFERS_PER_PROFILE : Z := 16.
Definition MAX_COMPLETED_TRANSFERS_GLOBAL : Z := 256.

(** [progress.transfer_id.as_str()] *)
Definition transfer_key (p : TransferProgress) : str := progress_transfer_id p.

Record TransferRecord := {
  tr_profile : str;
  tr_progress : TransferProgress;
  tr_cancellation : nat;                (** [Arc<TransferCancellation>] *)
  tr_finished_at : option Z;
  tr_finished_order : option Z;
  tr_context_discovered : bool;
}.

#[export] Instance transfer_tracked : Tracked str TransferRecord TransferProgress := {|
  owner := tr_profile;
  view := tr_progress;
  finished_at := tr_finished_at;
  finished_order := tr_finished_order;
  context_discovered := tr_context_discovered;
  discover r := {| tr_profile := tr_profile r; tr_progress := tr_progress r;
                   tr_cancellation := tr_cancellation r; tr_finished_at := tr_finished_at r;
                   tr_finished_order := tr_finished_order r; tr_context_discovered := true |};
  view_id := transfer_key;
  view_context := progress_context_id;
|}.
#[export] Instance transfer_tracked_laws : TrackedLaws str TransferRecord TransferProgress.
Proof. by split. Qed.

(** [cancellations] are the flags of all cancellations ever created. *)
Record TransferRegistry := {
  records : gmap str TransferRecord;
  next_finished_order : Z;
  cancellations : list bool;
}.

Definition registry_default : TransferRegistry :=
  {| records := ∅; next_finished_order := 0; cancellations := [] |}.

Definition with_records (rs : gmap str TransferRecord) (s : TransferRegistry) : TransferRegistry :=
  {| records := rs; next_finished_order := next_finished_order s;
     cancellations := cancellations s |}.
Definition put_record (id : str) (r : TransferRecord) (s : TransferRegistry) : TransferRegistry :=
  with_records (<[id := r]> (records s)) s.
Definition in_records {E A} (p : eff (gmap str TransferRecord) E A) : eff TransferRegistry E A :=
  zoom records with_records p.

Definition with_progress (r : TransferRecord) (p : TransferProgress) : TransferRecord :=
  {| tr_profile := tr_profile r; tr_progress := p; tr_cancellation := tr_cancellation r;
     tr_finished_at := tr_finished_at r; tr_finished_order := tr_finished_order r;
     tr_context_discovered := tr_context_discovered r |}.
Definition with_finished (r : TransferRecord) (at_ order : Z) : TransferRecord :=
  {| tr_profile := tr_profile r; tr_progress := tr_progress r;
     tr_cancellation := tr_cancellation r; tr_finished_at := Some at_;
     tr_finished_order := Some order; tr_context_discovered := tr_context_discovered r |}.
Definition with_revision (p : TransferProgress) (revision : Z) : TransferProgress :=
  {| progress_schema_version := progress_schema_version p; progress_event := progress_event p;
     progress_transfer_id := progress_transfer_id p; progress_context_id := progress_context_id p;
     progress_revision := revision; direction := direction p; progress_stage := progress_stage p;
     total_bytes := total_bytes p; confirmed_bytes := confirmed_bytes p;
     durable_bytes := durable_bytes p; window_bps := window_bps p; average_bps := average_bps p;
     eta_ms := eta_ms p; progress_backend := progress_backend p; chunk_bytes := chunk_bytes p;
     window_bytes := window_bytes p; progress_updated_unix_ms := progress_updated_unix_ms p |}.
(** [revision], [event] and [updated_unix_ms] as [cancel] sets them. *)
Definition with_cancel_requested (p : TransferProgress) (revision now_ms : Z) : TransferProgress :=
  {| progress_schema_version := progress_schema_version p;
     progress_event := rs "cancel_requested";
     progress_transfer_id := progress_transfer_id p; progress_context_id := progress_context_id p;
     progress_revision := revision; direction := direction p; progress_stage := progress_stage p;
     total_bytes := total_bytes p; confirmed_bytes := confirmed_bytes p;
     durable_bytes := durable_bytes p; window_bps := window_bps p; average_bps := average_bps p;
     eta_ms := eta_ms p; progress_backend := progress_backend p; chunk_bytes := chunk_bytes p;
     window_bytes := window_bytes p; progress_updated_unix_ms := now_ms |}.

(** [TransferCancellation::cancel] and [is_cancelled]. *)
Definition cancel_flag (l : nat) (s : TransferRegistry) : TransferRegistry :=
  {| records := records s; next_finished_order := next_finished_order s;
     cancellations := <[l := true]> (cancellations s) |}.
Definition is_cancelled (l : nat) (s : TransferRegistry) : bool := nth l (cancellations s) false.

(** The record that replaces [record]. *)
Definition replace_progress (record : TransferRecord) (profile : str) (p : TransferProgress)
  : result string TransferRecord :=
  ensure! bool_decide (tr_profile record = profile) or "transfer profile mismatch" ;;
  ensure! confirmed_bytes (tr_progress record) <=? confirmed_bytes p
    or "transfer confirmation moved backwards" ;;
  ensure! bool_decide (progress_context_id p = progress_context_id (tr_progress record))
    or "transfer operation context changed" ;;
  let* revision := ok_or (checked_add U64_MAX (progress_revision (tr_progress record)) 1)
    "transfer revision is exhausted" in
  Ok (with_progress record (with_revision p revision)).

(** [now] is the monotonic clock as the method reads it. *)
Definition begin (profile : str) (p : TransferProgress) (now : Z)
  : eff TransferRegistry string nat :=
  run~ elift (progress_validate p) ;;
  run~ in_records (emodify (prune_locked TRANSFER_RECORD_RETENTION now)) ;;
  let~ m := eget records in
  ensure~ count (is_active None) m <? MAX_ACTIVE_TRANSFERS_GLOBAL
    or "global active transfer capacity is exhausted" ;;
  ensure~ count (is_active (Some profile)) m <? MAX_ACTIVE_TRANSFERS_PER_PROFILE
    or "profile active transfer capacity is exhausted" ;;
  ensure~ negb (is_some (m !! transfer_key p)) or "transfer id is already registered" ;;
  let~ l := eget (fun s => length (cancellations s)) in
  run~ emodify (fun s =>
    {| records := <[transfer_key p :=
         {| tr_profile := profile; tr_progress := p; tr_cancellation := l;
            tr_finished_at := None; tr_finished_order := None;
            tr_context_discovered := false |}]> (records s);
       next_finished_order := next_finished_order s;
       cancellations := cancellations s ++ [false] |}) ;;
  eret l.

Definition update (profile : str) (p : TransferProgress) : eff TransferRegistry string unit :=
  run~ elift (progress_validate p) ;;
  let~ m := eget records in
  let~ record := elift (ok_or (m !! transfer_key p) "transfer is not registered") in
  let~ record' := elift (replace_progress record profile p) in
  emodify (put_record (transfer_key p) record').

Definition finish (profile : str) (p : TransferProgress) (now : Z)
  : eff TransferRegistry string unit :=
  run~ elift (progress_validate p) ;;
  run~ in_records (emodify (prune_locked TRANSFER_RECORD_RETENTION now)) ;;
  let~ finished_order := eget next_finished_order in
  let~ next := elift (ok_or (checked_add USIZE_MAX finished_order 1)
    "transfer completion order is exhausted") in
  run~ emodify (fun s => {| records := records s; next_finished_order := next;
                            cancellations := cancellations s |}) ;;
  let~ m := eget records in
  let~ record := elift (ok_or (m !! transfer_key p) "transfer is not registered") in
  let~ record' := elift (replace_progress record profile p) in
  run~ emodify (put_record (transfer_key p) (with_finished record' now finished_order)) ;;
  in_records (emodify (enforce_finished_caps MAX_COMPLETED_TRANSFERS_PER_PROFILE
    MAX_COMPLETED_TRANSFERS_GLOBAL profile)).

Section snapshots.
Context `{Json Frame, JsonWriter Frame}.

Definition snapshot_len (transfers : list TransferProgress) : result string Z :=
  map_err (fun _ => "transfer status snapshot exceeds the control-frame bound")
    (encoded_frame_len_limited (TransferStatusInfo transfers) (MAX_CONTROL_FRAME - 1)).

(** [ids] is the order in which the map of records is iterated. *)
Definition snapshots (profile : str) (transfer_id : option TransferId)
    (operation_context_id : option OperationContextId) (enforce_context_discovery : bool)
    (now : Z) (ids : list str) : eff TransferRegistry string (list TransferProgress) :=
  in_records (list_records
    "transfer operation context does not match this daemon instance and object"
    "transfer operation context is required after initial discovery"
    TRANSFER_RECORD_RETENTION now snapshot_len profile transfer_id operation_context_id
    enforce_context_discovery ids).
End snapshots.

Definition cancel (profile : str) (transfer_id : TransferId)
    (operation_context_id : option OperationContextId) (now_ms : Z)
  : eff TransferRegistry string TransferProgress :=
  let~ m := eget records in
  let~ record := elift (ok_or (m !! transfer_id) "transfer was not found for this profile") in
  ensure~ bool_decide (tr_profile record = profile)
    or "transfer was not found for this profile" ;;
  run~ elift (match operation_context_id with
              | Some expected =>
                  ensure (bool_decide (progress_context_id (tr_progress record) = Some expected))
                    "transfer operation context does not match this daemon instance and object"
              | None => Ok tt
              end) ;;
  ensure~ negb (is_finished record) or "transfer is no longer active" ;;
  run~ emodify (cancel_flag (tr_cancellation record)) ;;
  let~ revision := elift (ok_or (checked_add U64_MAX (progress_revision (tr_progress record)) 1)
    "transfer revision is exhausted") in
  let record' := with_progress record (with_cancel_requested (tr_progress record) revision now_ms) in
  run~ emodify (put_record transfer_id record') ;;
  eret (tr_progress record').

(** ** The registry in use

    A call of some method on behalf of a profile, whatever its arguments, the
    clocks and the iteration order, and whether it succeeds. *)
Inductive transfer_call `{Json Frame, JsonWriter Frame} (profile : str)
  : TransferRegistry -> TransferRegistry -> Prop :=
| call_begin p now s : transfer_call profile s (begin profile p now s).1
| call_update p s : transfer_call profile s (update profile p s).1
| call_finish p now s : transfer_call profile s (finish profile p now s).1
| call_snapshots id ctx enforce now ids s :
    NoDup ids -> transfer_call profile s (snapshots profile id ctx enforce now ids s).1
| call_cancel id ctx now_ms s : transfer_call profile s (cancel profile id ctx now_ms s).1.

Definition transfer_calls `{Json Frame, JsonWriter Frame} (s s' : TransferRegistry) : Prop :=
  rtc (fun s s' => exists profile, transfer_call profile s s') s s'.
