(* ===== verification/DaemonTransfersTheory.v ===== *)
(** * serctl_daemon: the transfer registry, theory

    Every method preserves the registry's invariant and advances its records
    only forwards; running transfers never disappear, the caps hold in every
    reachable state, and a profile's calls leave other profiles alone. *)

From Stdlib Require Import SpecFloat.
From stdpp Require Import gmap sorting.
From S2P Require Import Prelude.
From S2P Require Import Bytes.
From S2P Require Import Text.
From S2P Require Import Crates.
From S2P Require Import IpcCrates.
From S2P Require Import Async.
From S2P Require Import Ledger.
From S2P Require Import IpcFrame.
From S2P Require Import IpcAuth.
From S2P Require Import Grant.
From S2P Require Import Registry.
From S2P Require Import RegistryTheory.
From S2P Require Import DaemonTransfers.
#[local] Open Scope string_scope.
#[local] Open Scope list_scope.
#[local] Open Scope Z_scope.

Notation finished := (is_finished (R := TransferRecord)).
Notation running := (is_active (R := TransferRecord)).
Notation completed := (candidate (R := TransferRecord)).

(** ** How records change *)

Record evolves (r r' : TransferRecord) : Prop := {
  evo_profile : tr_profile r' = tr_profile r;
  evo_cancellation : tr_cancellation r' = tr_cancellation r;
  evo_id : transfer_key (tr_progress r') = transfer_key (tr_progress r);
  evo_context : progress_context_id (tr_progress r') = progress_context_id (tr_progress r);
  evo_confirmed : confirmed_bytes (tr_progress r) <= confirmed_bytes (tr_progress r');
  evo_revision : progress_revision (tr_progress r) <= progress_revision (tr_progress r');
  evo_change : progress_revision (tr_progress r') = progress_revision (tr_progress r) ->
    tr_progress r' = tr_progress r;
  evo_finished : finished r = true -> finished r' = true;
  evo_discovered : tr_context_discovered r = true -> tr_context_discovered r' = true;
}.

#[export] Instance evolves_refl : Reflexive evolves.
Proof. split; (done || lia). Qed.

#[export] Instance evolves_trans : Transitive evolves.
Proof.
  intros a b c [] []. split; try congruence; try lia; auto.
  intros He. rewrite evo_change1, evo_change0 by lia. done.
Qed.

(** What a call on behalf of [profile] may do to the registry. *)
Record advance (profile : str) (s s' : TransferRegistry) : Prop := {
  adv_length : (length (cancellations s) <= length (cancellations s'))%nat;
  adv_records id r' : records s' !! id = Some r' ->
    (exists r, records s !! id = Some r /\ evolves r r' /\ (r' = r \/ tr_profile r = profile)) \/
    ((length (cancellations s) <= tr_cancellation r')%nat /\ tr_profile r' = profile);
  adv_others id r : records s !! id = Some r -> tr_profile r <> profile ->
    records s' !! id = Some r \/ finished r = true;
  adv_flags l : is_cancelled l s = true -> is_cancelled l s' = true;
  adv_cancelled l : is_cancelled l s' = true -> (l < length (cancellations s))%nat ->
    is_cancelled l s = true \/
    exists id r, records s !! id = Some r /\ tr_cancellation r = l /\ tr_profile r = profile;
}.

(** A record of another profile is the same afterwards, or was finished and gave
    way to a transfer of this profile, if to any. *)
Lemma advance_others profile s s' id r :
  advance profile s s' -> records s !! id = Some r -> tr_profile r <> profile ->
  records s' !! id = Some r \/
  finished r = true /\ forall r', records s' !! id = Some r' ->
    tr_profile r' = profile /\ (length (cancellations s) <= tr_cancellation r')%nat.
Proof.
  intros Ha Hr Hne. destruct (adv_others _ _ _ Ha _ _ Hr Hne) as [?|Hf]; [by left|].
  destruct (records s' !! id) as [x|] eqn:Hx; [|by right].
  destruct (adv_records _ _ _ Ha _ _ Hx) as [(r0 & Hr0 & _ & Hs)|[Hl Hp]].
  - left. rewrite Hr in Hr0. injection Hr0 as <-. by destruct Hs as [->|].
  - right. split; [done|]. by intros r' [= <-].
Qed.

#[export] Instance advance_refl profile : Reflexive (advance profile).
Proof. intros s. split; eauto. intros id r Hr. left. exists r. split; [done|split; [reflexivity|by left]]. Qed.

#[export] Instance advance_trans profile : Transitive (advance profile).
Proof.
  intros s1 s2 s3 H1 H2. split.
  - etrans; [apply H1|apply H2].
  - intros id r3 Hr3. destruct (adv_records _ _ _ H2 _ _ Hr3) as [(r2 & Hr2 & He & Hp)|[Hl Hp]].
    + destruct (adv_records _ _ _ H1 _ _ Hr2) as [(r1 & Hr1 & He1 & Hp1)|[Hl Hp1]].
      * left. exists r1. split; [done|]. split; [by etrans|].
        pose proof (evo_profile _ _ He1). destruct Hp as [->|?], Hp1 as [->|?]; auto; right; congruence.
      * right. rewrite (evo_cancellation _ _ He), (evo_profile _ _ He). done.
    + right. split; [etrans; [apply H1|done]|done].
  - intros id r Hr Hne. destruct (adv_others _ _ _ H1 _ _ Hr Hne) as [Hr2|?]; [|by right].
    by apply (adv_others _ _ _ H2).
  - intros l Hl. by apply H2, H1.
  - intros l Hl Hlt. pose proof (adv_length _ _ _ H1).
    destruct (adv_cancelled _ _ _ H2 l Hl) as [?|(id & r2 & Hr2 & Hc & Hp)]; [lia|by apply H1|].
    destruct (adv_records _ _ _ H1 _ _ Hr2) as [(r1 & Hr1 & He1 & _)|[Hge _]]; [|lia].
    right. exists id, r1. rewrite <-(evo_cancellation _ _ He1), <-(evo_profile _ _ He1). done.
Qed.

(** The registry's invariant. *)
Record transfers_ok (s : TransferRegistry) : Prop := {
  ok_key id r : records s !! id = Some r -> transfer_key (tr_progress r) = id;
  ok_location id r : records s !! id = Some r ->
    (tr_cancellation r < length (cancellations s))%nat;
  ok_distinct id1 id2 r1 r2 : records s !! id1 = Some r1 -> records s !! id2 = Some r2 ->
    tr_cancellation r1 = tr_cancellation r2 -> id1 = id2;
  ok_order id r : records s !! id = Some r -> finished r = true ->
    exists order, tr_finished_order r = Some order /\ order < next_finished_order s;
}.

Definition effect (profile : str) (s s' : TransferRegistry) : Prop :=
  transfers_ok s -> transfers_ok s' /\ advance profile s s'.

#[export] Instance effect_trans profile : Transitive (effect profile).
Proof.
  intros s1 s2 s3 H12 H23 H1. destruct (H12 H1) as [H2 A12]. destruct (H23 H2) as [H3 A23].
  split; [done|by etrans].
Qed.

Lemma effect_refl profile s : effect profile s s.
Proof. intros Hs. by split. Qed.

(** *** The steps of the methods *)

Ltac same_record := left; eexists; split; [eauto|split; [reflexivity|by left]].

Lemma effect_pointwise profile m s :
  (forall i x, m !! i = Some x -> exists r, records s !! i = Some r /\
     (x = r \/ (tr_profile r = profile /\ evolves r x /\
        (finished x = true -> exists order, tr_finished_order x = Some order /\
           order < next_finished_order s)))) ->
  (forall i r, records s !! i = Some r ->
     m !! i = Some r \/ finished r = true \/ tr_profile r = profile) ->
  effect profile s (with_records m s).
Proof.
  intros Hm Hothers [Hk Hl Hd Ho].
  assert (forall i x, m !! i = Some x -> exists r, records s !! i = Some r /\ evolves r x /\
    (x = r \/ tr_profile r = profile)) as Hev.
  { intros i x (r & Hr & [->|(Hp & He & _)])%Hm; exists r; (split; [done|]).
    - split; [reflexivity|by left].
    - split; [done|by right]. }
  split; split; cbn; try done.
  - intros i x (r & Hr & He & _)%Hev. rewrite (evo_id _ _ He). by apply Hk.
  - intros i x (r & Hr & He & _)%Hev. rewrite (evo_cancellation _ _ He). by eapply Hl.
  - intros i1 i2 x1 x2 (r1 & Hr1 & He1 & _)%Hev (r2 & Hr2 & He2 & _)%Hev.
    rewrite (evo_cancellation _ _ He1), (evo_cancellation _ _ He2). by eapply Hd.
  - intros i x (r & Hr & [->|(_ & _ & Hord)])%Hm; [by eapply Ho|exact Hord].
  - intros i x Hx. left. by apply Hev.
  - intros i r [?|[?|?]]%Hothers Hne; auto.
  - intros l Hc _. by left.
Qed.

Lemma effect_shrink profile m s :
  m ⊆ records s ->
  (forall id r, records s !! id = Some r -> m !! id = None -> finished r = true) ->
  effect profile s (with_records m s).
Proof.
  intros Hsub Hgone. apply effect_pointwise.
  - intros i x Hx. exists x. split; [by eapply lookup_weaken|by left].
  - intros i r Hr. destruct (m !! i) as [x|] eqn:Hx; [left|right; left; eauto].
    rewrite (lookup_weaken _ _ _ _ Hx Hsub) in Hr. congruence.
Qed.

Lemma effect_put profile id r r' s :
  records s !! id = Some r -> evolves r r' -> tr_profile r = profile ->
  (finished r' = true -> exists order, tr_finished_order r' = Some order /\
     order < next_finished_order s) ->
  effect profile s (put_record id r' s).
Proof.
  intros Hr He Hp Hord. apply effect_pointwise.
  - intros i x [[<- <-]|[_ Hx]]%lookup_insert_Some; eauto 6.
  - intros i x Hx. destruct (decide (i = id)) as [->|Hne].
    + right; right. congruence.
    + left. by rewrite lookup_insert_ne.
Qed.

Lemma effect_new profile p s :
  records s !! transfer_key p = None ->
  effect profile s
    {| records := <[transfer_key p :=
         {| tr_profile := profile; tr_progress := p; tr_cancellation := length (cancellations s);
            tr_finished_at := None; tr_finished_order := None;
            tr_context_discovered := false |}]> (records s);
       next_finished_order := next_finished_order s;
       cancellations := cancellations s ++ [false] |}.
Proof.
  intros Hn [Hk Hl Hd Ho].
  set (fresh := {| tr_profile := profile |}).
  assert (forall i x, <[transfer_key p:=fresh]> (records s) !! i = Some x ->
    (i = transfer_key p /\ x = fresh) \/ records s !! i = Some x) as Hput.
  { intros i x. rewrite lookup_insert_Some. naive_solver. }
  split; split; cbn; rewrite ?length_app; cbn.
  - intros i x [[-> ->]|Hx]%Hput; [done|by apply Hk].
  - intros i x [[-> ->]|Hx]%Hput; cbn; [lia|]. apply Hl in Hx. lia.
  - intros i1 i2 x1 x2 [[-> ->]|Hx1]%Hput [[-> ->]|Hx2]%Hput; cbn; [done|..|by eapply Hd].
    + intros Hc. apply Hl in Hx2. lia.
    + intros Hc. apply Hl in Hx1. lia.
  - intros i x [[-> ->]|Hx]%Hput; [done|by eapply Ho].
  - lia.
  - intros i x [[-> ->]|Hx]%Hput; [right; cbn; auto|same_record].
  - intros i x Hx Hne. left. rewrite lookup_insert_ne; [done|]. intros <-. enough (Some x = None) by done. rewrite <-Hx. exact Hn.
  - unfold is_cancelled; cbn. intros l Hc. destruct (decide (l < length (cancellations s))%nat).
    + by rewrite app_nth1.
    + by rewrite nth_overflow in Hc by lia.
  - unfold is_cancelled; cbn. intros l Hc Hlt. left. by rewrite app_nth1 in Hc.
Qed.

Lemma effect_order profile next s :
  next_finished_order s <= next ->
  effect profile s {| records := records s; next_finished_order := next;
                      cancellations := cancellations s |}.
Proof.
  intros Hle [Hk Hl Hd Ho]. split; split; cbn; eauto.
  - intros id r Hr Hf. destruct (Ho _ _ Hr Hf) as (o & ? & ?). exists o. split; [done|lia].
  - intros id r Hr. same_record.
Qed.

Lemma cancel_flag_spec k s l :
  (k < length (cancellations s))%nat ->
  is_cancelled l (cancel_flag k s) = is_cancelled l s || bool_decide (l = k).
Proof.
  intros Hk. unfold is_cancelled. cbn. rewrite !nth_lookup.
  destruct (decide (l = k)) as [->|Hne].
  - rewrite list_lookup_insert_eq by done. by rewrite bool_decide_true, orb_true_r by done.
  - rewrite list_lookup_insert_ne by done. by rewrite bool_decide_false, orb_false_r by done.
Qed.

Lemma effect_flag profile id r s :
  records s !! id = Some r -> tr_profile r = profile ->
  effect profile s (cancel_flag (tr_cancellation r) s).
Proof.
  intros Hr Hp [Hk Hl Hd Ho].
  pose proof (fun l => cancel_flag_spec (tr_cancellation r) s l (Hl _ _ Hr)) as Hflag.
  split; split; cbn; rewrite ?length_insert; eauto.
  - intros i x Hx. same_record.
  - intros l Hc. specialize (Hflag l). unfold is_cancelled in *. cbn in Hflag.
    by rewrite Hflag, Hc.
  - intros l Hc _. change (is_cancelled l (cancel_flag (tr_cancellation r) s) = true) in Hc.
    rewrite Hflag in Hc. apply orb_true_iff in Hc as [?|Hb].
    + by left.
    + right. apply bool_decide_eq_true in Hb as ->. eauto.
Qed.

(** ** The methods *)

Lemma effect_prune profile now s :
  effect profile s (with_records (prune_locked TRANSFER_RECORD_RETENTION now (records s)) s).
Proof.
  apply effect_shrink; [apply prune_subseteq|]. intros id r Hr. by apply prune_gone.
Qed.

Lemma replace_progress_ok r profile p r' :
  replace_progress r profile p = Ok r' ->
  transfer_key p = transfer_key (tr_progress r) ->
  tr_profile r = profile /\ evolves r r' /\ finished r' = finished r /\
  tr_finished_order r' = tr_finished_order r /\
  tr_progress r' = with_revision p (progress_revision (tr_progress r) + 1).
Proof.
  unfold replace_progress. intros Hr Hid. checks.
  match goal with Hc : checked_add _ _ _ = Some _ |- _ => apply checked_add_some in Hc as [-> _] end.
  split; [done|]. split; [|done]. split; cbn; try done; lia.
Qed.

(** Take apart the run of a method, keeping the state it leaves on errors. *)
Lemma ebind_inv {S F A B} (p : eff S F A) (k : A -> eff S F B) s s' r :
  ebind p k s = (s', r) ->
  (exists a s1, p s = (s1, Ok a) /\ k a s1 = (s', r)) \/ (exists e, p s = (s', Err e) /\ r = Err e).
Proof. unfold ebind. destruct (p s) as [s1 [a|e]]; [eauto|]. intros [= -> <-]. eauto. Qed.

Lemma in_records_modify {F : Type} (f : gmap str TransferRecord -> gmap str TransferRecord) s s' r :
  in_records (E := F) (emodify f) s = (s', r) -> s' = with_records (f (records s)) s /\ r = Ok tt.
Proof. unfold in_records, zoom, emodify. by intros [= <- <-]. Qed.

Ltac method :=
  repeat match goal with
  | Hm : ebind _ _ _ = (_, _) |- _ =>
      apply ebind_inv in Hm as [(? & ? & ? & Hm)|(? & Hm & ->)]
  | Hm : elift _ _ = (_, _) |- _ => unfold elift in Hm; injection Hm as <- Hm
  | Hm : eget _ _ = (_, _) |- _ => unfold eget in Hm; injection Hm as <- Hm
  | Hm : emodify _ _ = (_, _) |- _ => unfold emodify in Hm; injection Hm as <- Hm
  | Hm : eret _ _ = (_, _) |- _ => unfold eret in Hm; injection Hm as <- Hm
  | Hm : in_records (emodify _) _ = (_, _) |- _ => apply in_records_modify in Hm as [-> Hm]
  end; checks; subst.

(** The states a run goes through. *)
Definition pruned (now : Z) (s : TransferRegistry) : TransferRegistry :=
  with_records (prune_locked TRANSFER_RECORD_RETENTION now (records s)) s.
Definition registered (profile : str) (p : TransferProgress) (s : TransferRegistry)
  : TransferRegistry :=
  {| records := <[transfer_key p :=
       {| tr_profile := profile; tr_progress := p; tr_cancellation := length (cancellations s);
          tr_finished_at := None; tr_finished_order := None;
          tr_context_discovered := false |}]> (records s);
     next_finished_order := next_finished_order s;
     cancellations := cancellations s ++ [false] |}.
Definition completing (s : TransferRegistry) : TransferRegistry :=
  {| records := records s; next_finished_order := next_finished_order s + 1;
     cancellations := cancellations s |}.
Definition enforced (profile : str) (s : TransferRegistry) : TransferRegistry :=
  with_records (enforce_finished_caps MAX_COMPLETED_TRANSFERS_PER_PROFILE
    MAX_COMPLETED_TRANSFERS_GLOBAL profile (records s)) s.

Lemma begin_inv profile p now s s' res :
  begin profile p now s = (s', res) ->
  (is_ok res = false /\ (s' = s \/ s' = pruned now s)) \/
  (progress_validate p = Ok tt /\ records (pruned now s) !! transfer_key p = None /\
   count (running None) (records (pruned now s)) < MAX_ACTIVE_TRANSFERS_GLOBAL /\
   count (running (Some profile)) (records (pruned now s)) < MAX_ACTIVE_TRANSFERS_PER_PROFILE /\
   res = Ok (length (cancellations s)) /\ s' = registered profile p (pruned now s)).
Proof.
  unfold begin. intros Hm.
  apply ebind_inv in Hm as [([] & s0 & Hm0 & Hm)|(e & Hm & ->)]; method; try (left; by auto).
  right. split_and!; try done. unfold pruned. by destruct (records _ !! _).
Qed.

Lemma update_inv profile p s s' res :
  update profile p s = (s', res) ->
  (is_ok res = false /\ s' = s) \/
  exists r r', records s !! transfer_key p = Some r /\ replace_progress r profile p = Ok r' /\
    res = Ok tt /\ s' = put_record (transfer_key p) r' s.
Proof. unfold update. intros Hm. method; try (left; by auto). right. eauto 6. Qed.

Lemma evolves_finished r r' now order : evolves r r' -> evolves r (with_finished r' now order).
Proof. by intros []. Qed.

Lemma effect_replace profile p r r' s :
  records s !! transfer_key p = Some r -> replace_progress r profile p = Ok r' ->
  effect profile s (put_record (transfer_key p) r' s) /\
  forall now order, order < next_finished_order s ->
    effect profile s (put_record (transfer_key p) (with_finished r' now order) s).
Proof.
  intros Hl Hr.
  assert (transfers_ok s -> tr_profile r = profile /\ evolves r r' /\ finished r' = finished r /\
    tr_finished_order r' = tr_finished_order r) as Hfacts.
  { intros Hs. pose proof (ok_key _ Hs _ _ Hl).
    apply replace_progress_ok in Hr as (? & ? & ? & ? & _); done. }
  split; [|intros now order Hlt]; intros Hs; destruct (Hfacts Hs) as (Hp & He & Hf & Ho).
  - apply (effect_put _ _ _ _ _ Hl He Hp); [|done]. rewrite Ho, Hf. by eapply (ok_order _ Hs).
  - apply (effect_put _ _ _ _ _ Hl (evolves_finished _ _ _ _ He) Hp); [|done]. eauto.
Qed.

Lemma effect_enforce profile s :
  effect profile s (with_records (enforce_finished_caps MAX_COMPLETED_TRANSFERS_PER_PROFILE
    MAX_COMPLETED_TRANSFERS_GLOBAL profile (records s)) s).
Proof.
  apply effect_shrink; [apply enforce_subseteq|]. intros id r. apply enforce_gone.
Qed.

Lemma finish_inv profile p now s s' res :
  finish profile p now s = (s', res) ->
  (is_ok res = false /\ (s' = s \/ s' = pruned now s \/ s' = completing (pruned now s))) \/
  exists r r', records (pruned now s) !! transfer_key p = Some r /\
    replace_progress r profile p = Ok r' /\ res = Ok tt /\
    s' = enforced profile (put_record (transfer_key p)
           (with_finished r' now (next_finished_order s)) (completing (pruned now s))).
Proof.
  unfold finish. intros Hm.
  apply ebind_inv in Hm as [([] & s0 & Hm0 & Hm)|(e & Hm & ->)]; method; try (left; by auto).
  all: match goal with Hc : checked_add _ _ _ = Some _ |- _ =>
    apply checked_add_some in Hc as [-> _] end; try (left; by auto).
  right. eauto 6.
Qed.

Lemma cancel_inv profile id ctx now_ms s s' res :
  cancel profile id ctx now_ms s = (s', res) ->
  (is_ok res = false /\ s' = s) \/
  exists r, records s !! id = Some r /\ tr_profile r = profile /\ finished r = false /\
    (forall c, ctx = Some c -> progress_context_id (tr_progress r) = Some c) /\
    let s1 := cancel_flag (tr_cancellation r) s in
    ((is_ok res = false /\ s' = s1) \/
     let p := with_cancel_requested (tr_progress r) (progress_revision (tr_progress r) + 1) now_ms in
     res = Ok p /\ s' = put_record id (with_progress r p) s1).
Proof.
  unfold cancel. intros Hm. method; try (left; by auto); right.
  all: eexists; split; [done|]; split; [done|]; split; [done|]; split;
    [intros c ->; checks; done|].
  - right. match goal with Hc : checked_add _ _ _ = Some _ |- _ =>
      apply checked_add_some in Hc as [-> _] end. done.
  - by left.
Qed.

Section calls.
Context `{Json Frame, JsonWriter Frame}.
Implicit Types (profile : str) (s : TransferRegistry).

Lemma snapshots_inv profile id ctx enforce now ids s s' res :
  NoDup ids -> snapshots profile id ctx enforce now ids s = (s', res) ->
  exists m, s' = with_records m s /\
    list_records
      "transfer operation context does not match this daemon instance and object"
      "transfer operation context is required after initial discovery"
      TRANSFER_RECORD_RETENTION now snapshot_len profile id ctx enforce ids (records s) = (m, res) /\
    forall i, shown profile id ctx enforce ids (records (pruned now s)) m i.
Proof.
  intros Hnd. unfold snapshots, in_records, zoom.
  destruct (list_records _ _ _ _ _ _ _ _ _ _ _) as [m r] eqn:Hl. intros [= <- <-].
  exists m. split_and!; [done..|]. intros i. by eapply list_records_shown in Hl.
Qed.

(** *** What they do *)

Lemma cancel_effect profile id r p s :
  records s !! id = Some r -> tr_profile r = profile -> finished r = false ->
  transfer_key p = transfer_key (tr_progress r) ->
  progress_context_id p = progress_context_id (tr_progress r) ->
  confirmed_bytes p = confirmed_bytes (tr_progress r) ->
  progress_revision p = progress_revision (tr_progress r) + 1 ->
  effect profile s (put_record id (with_progress r p) (cancel_flag (tr_cancellation r) s)).
Proof.
  intros Hr Hp Hf Hid Hc Hb Hv. etrans; [by eapply effect_flag|].
  eapply effect_put; [done| |done|].
  - split; cbn; try done; lia.
  - intros Hf'. change (finished r = true) in Hf'. congruence.
Qed.

Lemma effect_shown profile id ctx enforce ids m s :
  (forall i, shown profile id ctx enforce ids (records s) m i) -> effect profile s (with_records m s).
Proof.
  intros Hm Hs. apply effect_pointwise; [| |done].
  - intros i x Hx. destruct (Hm i) as [He|(r & _ & Hr & Hsel & _ & _ & _ & _ & Hd)].
    + exists x. split; [congruence|by left].
    + exists r. split; [done|right]. rewrite Hx in Hd. injection Hd as ->.
      apply andb_true_iff in Hsel as [Hsel _]. apply bool_decide_eq_true in Hsel.
      split; [done|]. split; [|exact (ok_order _ Hs _ _ Hr)]. split; (done || lia).
  - intros i r Hr. destruct (Hm i) as [->|(x & _ & Hx & Hsel & _)]; [by left|right; right].
    apply andb_true_iff in Hsel as [Hsel _]. apply bool_decide_eq_true in Hsel. cbn in Hsel. congruence.
Qed.

Lemma call_effect profile s s' : transfer_call profile s s' -> effect profile s s'.
Proof.
  intros [p now t|p t|p now t|id ctx enforce now ids t Hnd|id ctx now_ms t].
  - destruct (begin profile p now t) as [t' res] eqn:Hm. cbn.
    apply begin_inv in Hm as [(_ & [->| ->])|(_ & Hn & _ & _ & _ & ->)].
    + apply effect_refl.
    + apply effect_prune.
    + etrans; [apply effect_prune|]. by apply (effect_new _ _ (pruned now t)).
  - destruct (update profile p t) as [t' res] eqn:Hm. cbn.
    apply update_inv in Hm as [(_ & ->)|(r & r' & Hr & Hr' & _ & ->)]; [apply effect_refl|].
    by eapply effect_replace.
  - destruct (finish profile p now t) as [t' res] eqn:Hm. cbn.
    apply finish_inv in Hm as [(_ & [->|[->| ->]])|(x & x' & Hx & Hx' & _ & ->)].
    + apply effect_refl.
    + apply effect_prune.
    + etrans; [apply effect_prune|]. apply effect_order. lia.
    + etrans; [apply effect_prune|].
      etrans; [apply (effect_order _ (next_finished_order t + 1)); cbn; lia|].
      etrans; [|apply effect_enforce]. eapply effect_replace; [done..|]. cbn. lia.
  - destruct (snapshots _ _ _ _ _ _ t) as [t' res] eqn:Hm. cbn.
    apply snapshots_inv in Hm as (m & -> & _ & Hm); [|done].
    etrans; [apply (effect_prune _ now)|]. by eapply (effect_shown _ _ _ _ _ _ (pruned now t)).
  - destruct (cancel _ _ _ _ t) as [t' res] eqn:Hm. cbn.
    apply cancel_inv in Hm as [(_ & ->)|(r & Hr & Hp & Hf & _ & [(_ & ->)|(_ & ->)])].
    + apply effect_refl.
    + by eapply effect_flag.
    + by apply cancel_effect.
Qed.

Lemma running_pruned now s id r :
  records s !! id = Some r -> finished r = false -> records (pruned now s) !! id = Some r.
Proof.
  intros Hr Hf. cbn. rewrite prune_lookup, Hr. cbn. unfold retained.
  unfold is_finished in Hf. by destruct (finished_at r).
Qed.

Lemma put_keeps s id r i x x' :
  records s !! id = Some r -> records s !! i = Some x -> evolves x x' ->
  exists r', records (put_record i x' s) !! id = Some r' /\ evolves r r'.
Proof.
  intros Hr Hx He. cbn. destruct (decide (id = i)) as [->|Hne].
  - exists x'. rewrite lookup_insert_eq. by replace r with x by congruence.
  - exists r. rewrite lookup_insert_ne by done. by split.
Qed.

(** The record just finished is the newest one. *)
Lemma finished_newest now profile p r r' s :
  transfers_ok s -> records s !! transfer_key p = Some r -> replace_progress r profile p = Ok r' ->
  newest (records (put_record (transfer_key p) (with_finished r' now (next_finished_order s)) s))
    (transfer_key p) (with_finished r' now (next_finished_order s)).
Proof.
  intros Hs Hr Hr'. split; [apply lookup_insert_eq|].
  intros id x Hx Hne Hf. cbn in Hx. rewrite lookup_insert_ne in Hx by done.
  destruct (ok_order _ Hs _ _ Hx Hf) as (order & Ho & Hlt).
  apply order_ltb_spec. cbn. by rewrite Ho.
Qed.

Lemma enforced_keeps profile s id r :
  records s !! id = Some r -> finished r = false \/ newest (records s) id r ->
  records (enforced profile s) !! id = Some r.
Proof.
  intros Hr [Hf|Hn]; [|by apply enforce_newest].
  destruct (records (enforced profile s) !! id) as [x|] eqn:Hx.
  - rewrite <-Hr. symmetry. eapply lookup_weaken; [exact Hx|apply (enforce_subseteq _ _ profile)].
  - pose proof (enforce_gone _ _ _ _ _ _ Hr Hx). congruence.
Qed.

(** A running transfer keeps its record. *)
Lemma call_keeps profile s s' id r :
  transfers_ok s -> transfer_call profile s s' ->
  records s !! id = Some r -> finished r = false ->
  exists r', records s' !! id = Some r' /\ evolves r r'.
Proof.
  intros Hs Hc. revert Hs.
  destruct Hc as [p now s|p s|p now s|id' ctx enforce now ids s Hnd|id' ctx now_ms s];
    intros Hs Hr Hf; pose proof (fun now => running_pruned now _ _ _ Hr Hf) as Hpr.
  - destruct (begin profile p now s) as [t' res] eqn:Hm. cbn.
    apply begin_inv in Hm as [(_ & [->| ->])|(_ & Hn & _ & _ & _ & ->)]; [exists r; split; [exact Hr || exact (Hpr now)|done]..|].
    exists r. cbn. rewrite lookup_insert_ne; [split; [apply Hpr|done]|]. intros <-. by rewrite Hpr in Hn.
  - destruct (update profile p s) as [t' res] eqn:Hm. cbn.
    apply update_inv in Hm as [(_ & ->)|(x & x' & Hx & Hx' & _ & ->)]; [by exists r|].
    eapply put_keeps; [done..|].
    by apply replace_progress_ok in Hx' as (_ & ? & _); [|symmetry; apply (ok_key _ Hs)].
  - destruct (finish profile p now s) as [t' res] eqn:Hm. cbn.
    apply finish_inv in Hm as [(_ & [->|[->| ->]])|(x & x' & Hx & Hx' & _ & ->)]; [exists r; split; [exact Hr || exact (Hpr now)|done]..|].
    assert (transfers_ok (pruned now s)) as Hs' by apply (effect_prune profile now _ Hs).
    pose proof (finished_newest now _ _ _ _ _ Hs' Hx Hx') as Hnew.
    apply replace_progress_ok in Hx' as (_ & Hev & _); [|symmetry; apply (ok_key _ Hs' _ _ Hx)].
    apply (evolves_finished _ _ now (next_finished_order s)) in Hev.
    destruct (put_keeps _ _ _ _ _ _ (Hpr now) Hx Hev) as (r' & Hr' & He).
    exists r'. split; [|exact He]. apply enforced_keeps; [exact Hr'|].
    destruct (decide (id = transfer_key p)) as [->|Hne].
    + right. replace r' with (with_finished x' now (next_finished_order s)); [exact Hnew|].
      cbn in Hr'. rewrite lookup_insert_eq in Hr'. by injection Hr'.
    + left. cbn in Hr'. rewrite lookup_insert_ne in Hr' by done.
      pose proof (Hpr now) as Hp. cbn in Hp. congruence.
  - destruct (snapshots _ _ _ _ _ _ s) as [t' res] eqn:Hm. cbn.
    apply snapshots_inv in Hm as (m & -> & _ & Hm); [|done]. cbn.
    destruct (Hm id) as [->|(x & _ & Hx & _ & _ & _ & _ & _ & ->)].
    + exists r. split; [apply Hpr|done].
    + exists (discover x). split; [done|]. rewrite Hpr in Hx. injection Hx as ->.
      split; (done || lia).
  - destruct (cancel _ _ _ _ s) as [t' res] eqn:Hm. cbn.
    apply cancel_inv in Hm as [(_ & ->)|(x & Hx & Hp & Hxf & _ & [(_ & ->)|(_ & ->)])]; [exists r; split; [exact Hr || exact (Hpr now)|done]..|].
    eapply (put_keeps (cancel_flag _ s)); [exact Hr|exact Hx|].
    split; cbn; try done; lia.
Qed.


(** ** The caps *)

Definition bounded s : Prop :=
  within MAX_ACTIVE_TRANSFERS_GLOBAL MAX_ACTIVE_TRANSFERS_PER_PROFILE
    MAX_COMPLETED_TRANSFERS_GLOBAL MAX_COMPLETED_TRANSFERS_PER_PROFILE (records s).

Lemma call_bounded profile s s' :
  transfers_ok s -> transfer_call profile s s' -> bounded s -> bounded s'.
Proof.
  intros Hs Hc. revert Hs. unfold bounded.
  assert (forall now s, bounded s -> bounded (pruned now s)) as Hprune
    by (intros now t; apply within_prune).
  destruct Hc as [p now s|p s|p now s|id' ctx enforce now ids s Hnd|id' ctx now_ms s]; intros Hs Hb.
  - destruct (begin profile p now s) as [t' res] eqn:Hm. cbn.
    apply begin_inv in Hm as [(_ & [->| ->])|(_ & Hn & ? & ? & _ & ->)]; [done|by apply Hprune|].
    apply within_new; auto. by apply Hprune.
  - destruct (update profile p s) as [t' res] eqn:Hm. cbn.
    apply update_inv in Hm as [(_ & ->)|(x & x' & Hx & Hx' & _ & ->)]; [done|].
    apply replace_progress_ok in Hx' as (_ & Hev & Hf & _); [|symmetry; apply (ok_key _ Hs _ _ Hx)].
    revert Hb. apply within_mono. cbn. intros i y [[<- <-]|[_ Hy]]%lookup_insert_Some; [|by exists y].
    exists x. split; [done|]. split; [done|apply (evo_profile _ _ Hev)].
  - destruct (finish profile p now s) as [t' res] eqn:Hm. cbn. apply (Hprune now) in Hb as Hbp.
    apply finish_inv in Hm as [(_ & [->|[->| ->]])|(x & x' & Hx & Hx' & _ & ->)]; [done|done|done|].
    assert (transfers_ok (pruned now s)) as Hs' by apply (effect_prune profile now _ Hs).
    apply replace_progress_ok in Hx' as (Hp & Hev & _); [|symmetry; apply (ok_key _ Hs' _ _ Hx)].
    eapply within_finished; [done|done|exact Hbp|exact Hx|done|].
    cbn. by rewrite (evo_profile _ _ Hev).
  - destruct (snapshots _ _ _ _ _ _ s) as [t' res] eqn:Hm. cbn.
    apply snapshots_inv in Hm as (m & -> & _ & Hm); [|done].
    eapply shown_within; [exact Hm|by apply Hprune].
  - destruct (cancel _ _ _ _ s) as [t' res] eqn:Hm. cbn.
    apply cancel_inv in Hm as [(_ & ->)|(x & Hx & Hp & Hxf & _ & [(_ & ->)|(_ & ->)])]; [done|done|].
    revert Hb. apply within_mono. cbn. intros i y [[<- <-]|[_ Hy]]%lookup_insert_Some; by eexists.
Qed.

(** *** Reachable registries *)

#[export] Instance transfer_calls_preorder : PreOrder transfer_calls.
Proof. apply rtc_po. Qed.

Lemma transfers_reachable_ok s : transfer_calls registry_default s -> transfers_ok s /\ bounded s.
Proof.
  revert s. apply (rtc_ind_r (fun s => transfers_ok s /\ bounded s)).
  - split; split; cbn; try done; intros; by vm_compute.
  - intros s1 s2 _ [profile Hc] [IHo IHb].
    split; [by eapply (call_effect _ _ _ Hc)|by eapply call_bounded].
Qed.

(** What any sequence of calls does to the records and flags. *)
Record progresses s s' : Prop := {
  prog_length : (length (cancellations s) <= length (cancellations s'))%nat;
  prog_records id r' : records s' !! id = Some r' ->
    (exists r, records s !! id = Some r /\ evolves r r') \/
    (length (cancellations s) <= tr_cancellation r')%nat;
  prog_flags l : is_cancelled l s = true -> is_cancelled l s' = true;
}.

Lemma advance_progresses profile s s' : advance profile s s' -> progresses s s'.
Proof.
  intros [Hl Hr _ Hf _]. split; [done| |done].
  intros id r' [(r & ? & ? & _)|[? _]]%Hr; eauto.
Qed.

#[export] Instance progresses_trans : Transitive progresses.
Proof.
  intros s1 s2 s3 H1 H2. split.
  - etrans; [apply H1|apply H2].
  - intros id r3 [(r2 & Hr2 & He2)|Hl]%(prog_records _ _ H2).
    + apply (prog_records _ _ H1) in Hr2 as [(r1 & Hr1 & He1)|Hl].
      * left. exists r1. split; [done|by etrans].
      * right. by rewrite (evo_cancellation _ _ He2).
    + right. etrans; [apply H1|done].
  - intros l Hl. by apply H2, H1.
Qed.

Lemma calls_progress s s' : transfers_ok s -> transfer_calls s s' -> transfers_ok s' /\ progresses s s'.
Proof.
  intros Hs Hc. induction Hc as [|s s1 s2 [profile Hc] _ IH].
  - split; [done|]. split; eauto. intros id r Hr. left. exists r. by split.
  - destruct (call_effect _ _ _ Hc Hs) as [H1 Ha]. destruct (IH H1) as [H2 Hp].
    split; [done|]. etrans; [by eapply advance_progresses|done].
Qed.

(** ** Properties *)

(** However the registry is used, it never holds more running transfers
    than 48 in all and 8 per profile, nor more finished ones than 256 in all
    and 16 per profile. *)
Theorem transfers_are_bounded s :
  transfer_calls registry_default s ->
  count (running None) (records s) <= 48 /\ count (completed None) (records s) <= 256 /\
  forall profile, count (running (Some profile)) (records s) <= 8 /\
    count (completed (Some profile)) (records s) <= 16.
Proof.
  intros [_ [H1 H2 H3 H4]]%transfers_reachable_ok. split; [exact H1|]. split; [exact H3|].
  intros profile. split; [apply H2|apply H4].
Qed.

(** Records only move forwards.  Between two reachable states the record
    of a registered transfer keeps its profile and context, its confirmed bytes
    and revision never decrease, its progress changes only with a greater
    revision, and it does not become unfinished or undiscovered; cancellations
    are never taken back.  No call drops a running transfer, and finishing one
    keeps its final record whatever is evicted for it. *)
Theorem transfers_evolve s s' :
  transfer_calls registry_default s -> transfer_calls s s' ->
  progresses s s' /\
  (forall profile s'' id r, transfer_call profile s' s'' -> records s' !! id = Some r ->
     finished r = false -> exists r', records s'' !! id = Some r' /\ evolves r r') /\
  (forall profile p now s'', finish profile p now s' = (s'', Ok tt) ->
     exists r r', records s' !! transfer_key p = Some r /\ tr_profile r = profile /\
       records s'' !! transfer_key p = Some r' /\ tr_finished_at r' = Some now /\
       tr_progress r' = with_revision p (progress_revision (tr_progress r) + 1)).
Proof.
  intros [Hs _]%transfers_reachable_ok Hc. destruct (calls_progress _ _ Hs Hc) as [Hs' Hp].
  split; [done|]. split; [intros; by eapply call_keeps|].
  intros profile p now s'' [(He & _)|(x & x' & Hx & Hx' & _ & ->)]%finish_inv; [done|].
  destruct (effect_prune profile now _ Hs') as [Hs2 _].
  pose proof (finished_newest now _ _ _ _ _ Hs2 Hx Hx') as Hnew.
  apply replace_progress_ok in Hx' as (Hprof & _ & _ & _ & Hpr);
    [|symmetry; apply (ok_key _ Hs2 _ _ Hx)].
  exists x, (with_finished x' now (next_finished_order s')). split_and!; try done.
  - eapply lookup_weaken; [exact Hx|apply prune_subseteq].
  - apply enforced_keeps; [apply lookup_insert_eq|by right].
Qed.

(** C39: A call made for one profile leaves every record of another profile as it
    is, or drops it, which it does only to a finished one; under the id of a
    dropped record there is afterwards none, or that of a transfer the caller
    registered in this call.  It sets no cancellation flag but those of
    its own profile's transfers; a listing shows only transfers of its profile,
    with their progress as recorded; and a successful cancellation sets the flag
    of the running transfer it names, which its profile owns, and no other. *)
Theorem transfers_are_isolated profile s s' :
  transfer_calls registry_default s -> transfer_call profile s s' ->
  (forall id r, records s !! id = Some r -> tr_profile r <> profile ->
     records s' !! id = Some r \/
     finished r = true /\ forall r', records s' !! id = Some r' ->
       tr_profile r' = profile /\ (length (cancellations s) <= tr_cancellation r')%nat) /\
  (forall l, is_cancelled l s' = true -> is_cancelled l s = false ->
     (l < length (cancellations s))%nat ->
     exists id r, records s !! id = Some r /\ tr_cancellation r = l /\ tr_profile r = profile) /\
  (forall id ctx enforce now ids t vs, iteration (records s) ids ->
     snapshots profile id ctx enforce now ids s = (t, Ok vs) ->
     forall v, v ∈ vs -> exists i r, records s !! i = Some r /\ tr_profile r = profile /\
       v = tr_progress r) /\
  (forall id ctx now_ms t p, cancel profile id ctx now_ms s = (t, Ok p) ->
     exists r, records s !! id = Some r /\ tr_profile r = profile /\ finished r = false /\
       forall l, is_cancelled l t = is_cancelled l s || bool_decide (l = tr_cancellation r)).
Proof.
  intros [Hs _]%transfers_reachable_ok Hc. destruct (call_effect _ _ _ Hc Hs) as [_ Ha].
  split; [|split; [|split]].
  - intros id r Hr Hne. by eapply advance_others.
  - intros l Hl Hn Hlt. destruct (adv_cancelled _ _ _ Ha l Hl Hlt); [congruence|done].
  - intros id ctx enforce now ids t vs Hit Hm v Hv.
    apply snapshots_inv in Hm as (m & _ & Hl & _); [|apply Hit].
    apply list_records_ok in Hl as [Hl _]; [|done]. apply Hl in Hv as (i & r & Hr & Hsel & ->).
    exists i, r. split; [eapply lookup_weaken; [exact Hr|apply prune_subseteq]|].
    apply andb_true_iff in Hsel as [Hsel _]. by apply bool_decide_eq_true in Hsel.
  - intros id ctx now_ms t p [[He _]|(r & Hr & Hp & Hf & _ & [[He _]|[_ ->]])]%cancel_inv; [done|done|].
    exists r. split_and!; [done..|]. intros l. eapply cancel_flag_spec, (ok_location _ Hs), Hr.
Qed.

(** When discovery is enforced, a transfer bound to an operation context
    is listed without naming that context at most once: once it was, any later
    such listing shows under its id at most a transfer registered since. *)
Theorem context_is_discovered_once s s1 s2 s3 profile id id' now now' ids ids' vs vs' v v' c :
  transfer_calls registry_default s -> iteration (records s) ids ->
  snapshots profile id None true now ids s = (s1, Ok vs) ->
  v ∈ vs -> progress_context_id v = Some c ->
  transfer_calls s1 s2 -> iteration (records s2) ids' ->
  snapshots profile id' None true now' ids' s2 = (s3, Ok vs') ->
  v' ∈ vs' -> transfer_key v' = transfer_key v ->
  exists r', records s2 !! transfer_key v = Some r' /\ tr_progress r' = v' /\
    (length (cancellations s1) <= tr_cancellation r')%nat.
Proof.
  intros [Hs _]%transfers_reachable_ok Hit Hm Hv Hc Hcalls Hit' Hm' Hv' Hk.
  assert (transfers_ok s1) as Hs1.
  { eapply (call_effect profile s s1); [|done].
    replace s1 with (snapshots profile id None true now ids s).1 by (by rewrite Hm).
    apply call_snapshots, Hit. }
  destruct (calls_progress _ _ Hs1 Hcalls) as [Hs2 Hp].
  apply snapshots_inv in Hm as (m & -> & Hl & _); [|apply Hit].
  apply list_records_ok in Hl as (Hin & _ & Hd); [|done].
  apply Hin in Hv as (i & r & Hr & Hsel & ->). apply (Hd _ _ Hr) in Hsel as [_ Hdisc].
  destruct Hdisc as [_ Hmi]; [by exists c|done..|].
  apply snapshots_inv in Hm' as (m' & _ & Hl' & _); [|apply Hit'].
  apply list_records_ok in Hl' as (Hin' & _ & Hd'); [|done].
  apply Hin' in Hv' as (i' & r' & Hr' & Hsel' & ->). apply (Hd' _ _ Hr') in Hsel' as [_ Hdisc'].
  assert (records s2 !! i' = Some r') as Hr2 by (eapply lookup_weaken; [exact Hr'|apply prune_subseteq]).
  assert (records s !! i = Some r) as Hrs by (eapply lookup_weaken; [exact Hr|apply prune_subseteq]).
  pose proof (ok_key _ Hs2 _ _ Hr2) as Hk2. pose proof (ok_key _ Hs _ _ Hrs) as Hks. cbn in *.
  exists r'. replace (transfer_key (tr_progress r)) with i' by congruence. split; [done|]. split; [done|].
  apply (prog_records _ _ Hp) in Hr2 as [(r1 & Hr1 & He)|Hl]; [exfalso|done].
  cbn in Hr1. replace i' with i in Hr1 by congruence. rewrite Hmi in Hr1. injection Hr1 as <-.
  destruct Hdisc' as [Hf _]; [|done..|].
  - exists c. rewrite (evo_context _ _ He). done.
  - rewrite (evo_discovered _ _ He) in Hf; done.
Qed.
End calls.

(** ** Runs *)
Module TransferRuns.

#[local] Instance listing_json : Json Frame := {|
  to_vec f := match f with TransferStatusInfo l => Some (concat (transfer_key <$> l)) | _ => Some [] end;
  from_slice _ := None;
|}.
#[local] Instance listing_writer : JsonWriter Frame := fun f =>
  match f with TransferStatusInfo l => Some (transfer_key <$> l) | _ => Some [] end.

Definition alice : str := rs "alice".
Definition bob : str := rs "bob".
Definition context : OperationContextId := rs "context".
Definition step_of (id : str) (confirmed : Z) : TransferProgress :=
  {| progress_schema_version := TRANSFER_PROGRESS_SCHEMA_VERSION; progress_event := rs "chunk";
     progress_transfer_id := id; progress_context_id := Some context; progress_revision := 1;
     direction := Push; progress_stage := Transferring; total_bytes := 100;
     confirmed_bytes := confirmed; durable_bytes := 0; window_bps := S754_zero false;
     average_bps := S754_zero false; eta_ms := None; progress_backend := BackendNative;
     chunk_bytes := 10; window_bytes := 20; progress_updated_unix_ms := 0 |}.
Definition id_a : str := rs "a".
Definition id_b : str := rs "b".

Definition begun : TransferRegistry :=
  (begin bob (step_of id_b 0) 2 (begin alice (step_of id_a 0) 1 registry_default).1).1.
Definition listed : TransferRegistry := (snapshots alice None None true 3 [id_b; id_a] begun).1.
Definition cancelled : TransferRegistry := (cancel alice id_a None 4 listed).1.

Lemma begun_reachable : transfer_calls registry_default begun.
Proof. eapply rtc_l; [exists alice; apply call_begin|]. apply rtc_once. exists bob. apply call_begin. Qed.
Lemma listed_reachable : transfer_calls begun listed.
Proof.
  apply rtc_once. exists alice. apply call_snapshots.
  apply (bool_decide_unpack (NoDup [id_b; id_a])). by vm_compute.
Qed.
Lemma cancelled_reachable : transfer_calls listed cancelled.
Proof. apply rtc_once. exists alice. apply call_cancel. Qed.
Lemma cancelled_from_default : transfer_calls registry_default cancelled.
Proof.
  etrans; [apply begun_reachable|].
  etrans; [apply listed_reachable|apply cancelled_reachable].
Qed.

(** Alice's transfer ends, its record expires, and its id is used again. *)
Definition ended : TransferRegistry := (finish alice (step_of id_a 60) 5 cancelled).1.
Definition much_later : Z := 10 + TRANSFER_RECORD_RETENTION.
Definition again : TransferRegistry := (begin alice (step_of id_a 0) much_later ended).1.

Lemma again_reachable : transfer_calls listed again.
Proof.
  eapply rtc_l; [exists alice; apply call_cancel|].
  eapply rtc_l; [exists alice; apply call_finish|].
  apply rtc_once. exists alice. apply call_begin.
Qed.

Lemma records_iterated (s : TransferRegistry) ids :
  bool_decide (NoDup ids) = true -> bool_decide (dom (records s) = list_to_set ids) = true ->
  iteration (records s) ids.
Proof.
  intros Hn%bool_decide_eq_true Hd%bool_decide_eq_true. split; [done|].
  intros i Hi%elem_of_dom. rewrite Hd in Hi. by apply elem_of_list_to_set in Hi.
Qed.

Lemma transfers_are_bounded_witness :
  transfer_calls registry_default cancelled /\
  count (running None) (records cancelled) = 2 /\
  count (running (Some alice)) (records cancelled) <= 8.
Proof.
  split; [apply cancelled_from_default|]. split; [by vm_compute|].
  destruct (transfers_are_bounded cancelled cancelled_from_default) as (_ & _ & Hp).
  exact (proj1 (Hp alice)).
Defined.

Lemma transfers_evolve_witness :
  finish alice (step_of id_a 60) 5 cancelled = (ended, Ok tt) /\
  progresses begun cancelled /\
  let p := step_of id_a 60 in
  exists r r', records cancelled !! transfer_key p = Some r /\ tr_profile r = alice /\
    records ended !! transfer_key p = Some r' /\ tr_finished_at r' = Some 5 /\
    tr_progress r' = with_revision p (progress_revision (tr_progress r) + 1).
Proof.
  assert (finish alice (step_of id_a 60) 5 cancelled = (ended, Ok tt)) as Hf by (by vm_compute).
  split; [exact Hf|].
  assert (transfer_calls begun cancelled) as Hc
    by (etrans; [apply listed_reachable|apply cancelled_reachable]).
  destruct (transfers_evolve begun cancelled begun_reachable Hc) as (Hp & _ & Hfin).
  split; [exact Hp|]. exact (Hfin alice (step_of id_a 60) 5 ended Hf).
Defined.

Lemma transfers_are_isolated_witness :
  transfer_call alice listed cancelled /\
  (exists r, records listed !! id_b = Some r /\ tr_profile r = bob /\
     (records cancelled !! id_b = Some r \/
      finished r = true /\ forall r', records cancelled !! id_b = Some r' ->
        tr_profile r' = alice /\ (length (cancellations listed) <= tr_cancellation r')%nat)) /\
  exists p, cancel alice id_a None 4 listed = (cancelled, Ok p) /\
    exists r, records listed !! id_a = Some r /\ tr_profile r = alice /\ finished r = false /\
      forall l, is_cancelled l cancelled = is_cancelled l listed || bool_decide (l = tr_cancellation r).
Proof.
  assert (transfer_calls registry_default listed) as Hr
    by (etrans; [apply begun_reachable|apply listed_reachable]).
  assert (transfer_call alice listed cancelled) as Hc by apply call_cancel.
  destruct (transfers_are_isolated alice listed cancelled Hr Hc) as (Ho & _ & _ & Hx).
  split; [exact Hc|]. split.
  - destruct (records listed !! id_b) as [r|] eqn:Hb; [|by vm_compute in Hb].
    assert (tr_profile r = bob) as Hp by (vm_compute in Hb; by injection Hb as <-).
    exists r. split; [done|]. split; [exact Hp|]. apply Ho; [exact Hb|by rewrite Hp].
  - destruct (cancel alice id_a None 4 listed) as [t [p|e]] eqn:Hcan.
    + exists p. assert (t = cancelled) as -> by (unfold cancelled; by rewrite Hcan).
      split; [done|]. exact (Hx id_a None 4 cancelled p Hcan).
    + exfalso. apply (f_equal snd) in Hcan. by vm_compute in Hcan.
Defined.

Lemma context_is_discovered_once_witness :
  let v := step_of id_a 0 in
  snapshots alice None None true 3 [id_b; id_a] begun = (listed, Ok [v]) /\
  snapshots alice None None true much_later [id_a; id_b] listed = (listed,
    Err "transfer operation context is required after initial discovery") /\
  exists t, snapshots alice None None true much_later [id_a; id_b] again = (t, Ok [v]) /\
  exists r', records again !! id_a = Some r' /\ tr_progress r' = v /\
    (length (cancellations listed) <= tr_cancellation r')%nat.
Proof.
  assert (snapshots alice None None true 3 [id_b; id_a] begun = (listed, Ok [step_of id_a 0])) as H1
    by (by vm_compute).
  split; [exact H1|]. split; [by vm_compute|].
  eexists. assert (snapshots alice None None true much_later [id_a; id_b] again =
    ((snapshots alice None None true much_later [id_a; id_b] again).1, Ok [step_of id_a 0])) as H2
    by (by vm_compute).
  split; [exact H2|].
  refine (context_is_discovered_once begun listed again _ alice None None 3 much_later
    [id_b; id_a] [id_a; id_b] [step_of id_a 0] [step_of id_a 0] (step_of id_a 0) (step_of id_a 0)
    context begun_reachable _ H1 _ _ again_reachable _ H2 _ _).
  - by apply records_iterated; vm_compute.
  - by apply list_elem_of_singleton.
  - done.
  - by apply records_iterated; vm_compute.
  - by apply list_elem_of_singleton.
  - done.
Defined.
End TransferRuns.
