(* ===== verification/DaemonTunnels.v ===== *)
(** * serctl_daemon: managed tunnels

    [ManagedTunnelRegistry] of crates/serctl_daemon/src/daemon.rs: the tunnels
    that outlive the request that opened them.  The registry is behind one
    mutex, so every method is one step of it; [cancel_and_wait] and
    [shutdown_all] wait between such steps and are machines whose steps
    interleave with everybody else's.  What records share with others lives in
    stores of the registry's state: cancellation tokens (with the tunnel's
    worker), completions (with those who wait for the tunnel's end) and the
    count of the idle tracker. *)

From stdpp Require Import gmap sorting.
From S2P Require Import Prelude.
From S2P Require Import Bytes.
From S2P Require Import Text.
From S2P Require Import Crates.
From S2P Require Import IpcCrates.
From S2P Require Import Async.
From S2P Require Import IpcFrame.
From S2P Require Import IpcAuth.
From S2P Require Import Grant.
From S2P Require Import Registry.
From S2P Require Import DaemonTransfers.
#[local] Open Scope string_scope.
#[local] Open Scope list_scope.
#[local] Open Scope Z_scope.

Definition MANAGED_TUNNEL_RECORD_RETENTION : Z := from_secs (15 * 60).
Definition MAX_ACTIVE_MANAGED_TUNNELS_PER_PROFILE : Z := 8.
Definition MAX_ACTIVE_MANAGED_TUNNELS_GLOBAL : Z := 32.
Definition MAX_COMPLETED_MANAGED_TUNNELS_PER_PROFILE : Z := 16.
Definition MAX_COMPLETED_MANAGED_TUNNELS_GLOBAL : Z := 128.
Definition MANAGED_TUNNEL_CANCEL_TIMEOUT : Z := from_secs 4.

#[export] Instance tunnel_stage_eq : EqDecision TunnelStage.
Proof. solve_decision. Defined.
#[export] Instance tunnel_mode_eq : EqDecision TunnelMode.
Proof. solve_decision. Defined.

(** ** State *)

Record ManagedTunnelOwner := { mo_profile_id : bytes; mo_generation : Z }.
#[export] Instance owner_eq : EqDecision ManagedTunnelOwner.
Proof. solve_decision. Defined.

(** [mt_idle_guard]: the record holds an [IdleGuard]; [mt_profile_entry]: the
    pool entry it keeps alive. *)
Record ManagedTunnelRecord := {
  mt_owner : ManagedTunnelOwner;
  mt_status : TunnelStatus;
  mt_cancellation : nat;                (** [CancellationToken] *)
  mt_completion : nat;                  (** [Arc<Notify>] *)
  mt_finished_at : option Z;
  mt_finished_order : option Z;
  mt_context_discovered : bool;
  mt_idle_guard : bool;
  mt_profile_entry : option nat;
}.

#[export] Instance tunnel_tracked : Tracked ManagedTunnelOwner ManagedTunnelRecord TunnelStatus := {|
  owner := mt_owner;
  view := mt_status;
  finished_at := mt_finished_at;
  finished_order := mt_finished_order;
  context_discovered := mt_context_discovered;
  discover r := {| mt_owner := mt_owner r; mt_status := mt_status r;
                   mt_cancellation := mt_cancellation r; mt_completion := mt_completion r;
                   mt_finished_at := mt_finished_at r; mt_finished_order := mt_finished_order r;
                   mt_context_discovered := true; mt_idle_guard := mt_idle_guard r;
                   mt_profile_entry := mt_profile_entry r |};
  view_id := status_tunnel_id;
  view_context := status_context_id;
|}.
#[export] Instance tunnel_tracked_laws :
  TrackedLaws ManagedTunnelOwner ManagedTunnelRecord TunnelStatus.
Proof. by split. Qed.

(** [notifications]: how often [notify_waiters] was called on each completion;
    [idle_work]: [IdleTracker::work]. *)
Record ManagedTunnelRegistry := {
  tunnels : gmap str ManagedTunnelRecord;
  next_order : Z;
  cancelled_tokens : gset nat;
  notifications : list nat;
  idle_work : Z;
}.

Definition tunnels_default : ManagedTunnelRegistry :=
  {| tunnels := ∅; next_order := 0; cancelled_tokens := ∅; notifications := []; idle_work := 0 |}.

Definition with_tunnels (m : gmap str ManagedTunnelRecord) (s : ManagedTunnelRegistry)
  : ManagedTunnelRegistry :=
  {| tunnels := m; next_order := next_order s; cancelled_tokens := cancelled_tokens s;
     notifications := notifications s; idle_work := idle_work s |}.
Definition put_tunnel (id : str) (r : ManagedTunnelRecord) (s : ManagedTunnelRegistry)
  : ManagedTunnelRegistry := with_tunnels (<[id := r]> (tunnels s)) s.
Definition idle_drop (n : Z) (s : ManagedTunnelRegistry) : ManagedTunnelRegistry :=
  {| tunnels := tunnels s; next_order := next_order s; cancelled_tokens := cancelled_tokens s;
     notifications := notifications s; idle_work := idle_work s - n |}.
Definition cancel_token (t : nat) (s : ManagedTunnelRegistry) : ManagedTunnelRegistry :=
  {| tunnels := tunnels s; next_order := next_order s;
     cancelled_tokens := {[t]} ∪ cancelled_tokens s;
     notifications := notifications s; idle_work := idle_work s |}.
Definition notify_waiters (c : nat) (s : ManagedTunnelRegistry) : ManagedTunnelRegistry :=
  {| tunnels := tunnels s; next_order := next_order s; cancelled_tokens := cancelled_tokens s;
     notifications := alter S c (notifications s); idle_work := idle_work s |}.
Definition notified (c : nat) (s : ManagedTunnelRegistry) : nat := nth c (notifications s) 0%nat.

(** Records removed by [f] are dropped, with the guards they hold. *)
Definition removing (f : gmap str ManagedTunnelRecord -> gmap str ManagedTunnelRecord)
    (s : ManagedTunnelRegistry) : ManagedTunnelRegistry :=
  idle_drop (count mt_idle_guard (tunnels s) - count mt_idle_guard (f (tunnels s)))
    (with_tunnels (f (tunnels s)) s).

Definition with_status (r : ManagedTunnelRecord) (st : TunnelStatus) : ManagedTunnelRecord :=
  {| mt_owner := mt_owner r; mt_status := st; mt_cancellation := mt_cancellation r;
     mt_completion := mt_completion r; mt_finished_at := mt_finished_at r;
     mt_finished_order := mt_finished_order r; mt_context_discovered := mt_context_discovered r;
     mt_idle_guard := mt_idle_guard r; mt_profile_entry := mt_profile_entry r |}.
(** [_idle_guard.take()] included. *)
Definition with_end (r : ManagedTunnelRecord) (now order : Z) : ManagedTunnelRecord :=
  {| mt_owner := mt_owner r; mt_status := mt_status r; mt_cancellation := mt_cancellation r;
     mt_completion := mt_completion r; mt_finished_at := Some now;
     mt_finished_order := Some order; mt_context_discovered := mt_context_discovered r;
     mt_idle_guard := false; mt_profile_entry := mt_profile_entry r |}.
Definition at_stage (st : TunnelStatus) (stage : TunnelStage) (now_ms : Z) : TunnelStatus :=
  {| status_schema_version := status_schema_version st; status_tunnel_id := status_tunnel_id st;
     status_profile_id := status_profile_id st;
     status_profile_generation := status_profile_generation st; status_mode := status_mode st;
     status_bind_host := status_bind_host st; status_bind_port := status_bind_port st;
     status_target_host := status_target_host st; status_target_port := status_target_port st;
     status_deadline_unix_ms := status_deadline_unix_ms st; status_stage := stage;
     status_updated_unix_ms := now_ms; status_context_id := status_context_id st;
     status_revision := status_revision st |}.
Definition at_revision (st : TunnelStatus) (revision : Z) : TunnelStatus :=
  {| status_schema_version := status_schema_version st; status_tunnel_id := status_tunnel_id st;
     status_profile_id := status_profile_id st;
     status_profile_generation := status_profile_generation st; status_mode := status_mode st;
     status_bind_host := status_bind_host st; status_bind_port := status_bind_port st;
     status_target_host := status_target_host st; status_target_port := status_target_port st;
     status_deadline_unix_ms := status_deadline_unix_ms st; status_stage := status_stage st;
     status_updated_unix_ms := status_updated_unix_ms st;
     status_context_id := status_context_id st; status_revision := revision |}.

(** [if .. operation_context_id.is_some() { revision.checked_add(1)? }] *)
Definition bump_revision (r : ManagedTunnelRecord) : result string ManagedTunnelRecord :=
  if is_some (status_context_id (mt_status r)) then
    let* revision := ok_or (checked_add U64_MAX (status_revision (mt_status r)) 1)
      "managed tunnel revision is exhausted" in
    Ok (with_status r (at_revision (mt_status r) revision))
  else Ok r.

Definition terminal (stage : TunnelStage) : bool :=
  match stage with Closed | TunnelStageUnknown => true | _ => false end.

(** ** Operations *)

(** [IdleTracker::acquire]; [begin] is handed the guard. *)
Definition idle_take (s : ManagedTunnelRegistry) : ManagedTunnelRegistry := idle_drop (-1) s.

(** On an error the guard is dropped with the other arguments. *)
Definition dropping_guard {A} (p : eff ManagedTunnelRegistry string A)
  : eff ManagedTunnelRegistry string A :=
  fun s => match p s with
           | (s', Ok a) => (s', Ok a)
           | (s', Err e) => (idle_drop 1 s', Err e)
           end.

Section registry.
Context `{Hex}.

Definition begin_tunnel (ow : ManagedTunnelOwner) (status : TunnelStatus) (cancellation : nat)
    (profile_entry : option nat) (now : Z) : eff ManagedTunnelRegistry string nat :=
  dropping_guard (
  run~ elift (tunnel_status_validate status) ;;
  ensure~ bool_decide (status_profile_id status = hex_encode (mo_profile_id ow))
          && (status_profile_generation status =? mo_generation ow)
    or "tunnel status identity does not match its owner" ;;
  ensure~ bool_decide (status_stage status = TunnelStageReady)
    or "new tunnel must enter the registry ready" ;;
  run~ emodify (removing (prune_locked MANAGED_TUNNEL_RECORD_RETENTION now)) ;;
  let~ m := eget tunnels in
  ensure~ count (is_active None) m <? MAX_ACTIVE_MANAGED_TUNNELS_GLOBAL
    or "global active tunnel capacity is exhausted" ;;
  ensure~ count (is_active (Some ow)) m <? MAX_ACTIVE_MANAGED_TUNNELS_PER_PROFILE
    or "profile active tunnel capacity is exhausted" ;;
  ensure~ negb (is_some (m !! status_tunnel_id status)) or "tunnel id is already registered" ;;
  let~ c := eget (fun s => length (notifications s)) in
  run~ emodify (fun s =>
    {| tunnels := <[status_tunnel_id status :=
         {| mt_owner := ow; mt_status := status; mt_cancellation := cancellation;
            mt_completion := c; mt_finished_at := None; mt_finished_order := None;
            mt_context_discovered := false; mt_idle_guard := true;
            mt_profile_entry := profile_entry |}]> (tunnels s);
       next_order := next_order s; cancelled_tokens := cancelled_tokens s;
       notifications := notifications s ++ [0%nat]; idle_work := idle_work s |}) ;;
  eret c).

Definition finish_worker (ow : ManagedTunnelOwner) (tunnel_id : TunnelId) (stage : TunnelStage)
    (now now_ms : Z) : eff ManagedTunnelRegistry string unit :=
  ensure~ terminal stage or "managed tunnel terminal stage is invalid" ;;
  run~ emodify (removing (prune_locked MANAGED_TUNNEL_RECORD_RETENTION now)) ;;
  let~ finished_order := eget next_order in
  let~ next := elift (ok_or (checked_add USIZE_MAX finished_order 1)
    "managed tunnel completion order is exhausted") in
  run~ emodify (fun s => {| tunnels := tunnels s; next_order := next;
                            cancelled_tokens := cancelled_tokens s;
                            notifications := notifications s; idle_work := idle_work s |}) ;;
  let~ m := eget tunnels in
  let~ record := elift (ok_or (m !! tunnel_id) "tunnel is not registered") in
  ensure~ bool_decide (mt_owner record = ow) or "tunnel was not found for this profile" ;;
  if is_finished record then eret tt
  else
    let record := with_status record (at_stage (mt_status record) stage now_ms) in
    run~ emodify (put_tunnel tunnel_id record) ;;
    let~ record := elift (bump_revision record) in
    run~ emodify (put_tunnel tunnel_id (with_end record now finished_order)) ;;
    run~ emodify (idle_drop (if mt_idle_guard record then 1 else 0)) ;;
    run~ emodify (removing (enforce_finished_caps MAX_COMPLETED_MANAGED_TUNNELS_PER_PROFILE
      MAX_COMPLETED_MANAGED_TUNNELS_GLOBAL ow)) ;;
    emodify (notify_waiters (mt_completion record)).

Context `{Json Frame, JsonWriter Frame}.

Definition tunnel_snapshot_len (l : list TunnelStatus) : result string Z :=
  map_err (fun _ => "managed tunnel status snapshot exceeds the control-frame bound")
    (encoded_frame_len_limited (ManagedTunnelStatusInfo l) (MAX_CONTROL_FRAME - 1)).

Definition tunnel_snapshots (ow : ManagedTunnelOwner) (tunnel_id : option TunnelId)
    (operation_context_id : option OperationContextId) (enforce_context_discovery : bool)
    (now : Z) (ids : list str) : eff ManagedTunnelRegistry string (list TunnelStatus) :=
  run~ emodify (removing (prune_locked MANAGED_TUNNEL_RECORD_RETENTION now)) ;;
  zoom tunnels with_tunnels (list_pruned
    "managed tunnel operation context does not match this daemon instance and object"
    "managed tunnel operation context is required after initial discovery"
    tunnel_snapshot_len ow tunnel_id operation_context_id enforce_context_discovery ids).

Definition request_cancel (ow : ManagedTunnelOwner) (tunnel_id : TunnelId)
    (operation_context_id : option OperationContextId) (now_ms : Z)
  : eff ManagedTunnelRegistry string (TunnelStatus * nat) :=
  let~ m := eget tunnels in
  let~ record := elift (ok_or (m !! tunnel_id) "tunnel was not found for this profile") in
  ensure~ bool_decide (mt_owner record = ow) or "tunnel was not found for this profile" ;;
  run~ elift (match status_context_id (mt_status record), operation_context_id with
    | Some c, Some expected =>
        ensure (bool_decide (c = expected))
          "managed tunnel operation context does not match this daemon instance and object"
    | Some _, None => Err "managed tunnel operation context is required for cancellation"
    | None, _ => Ok tt
    end) ;;
  if negb (is_finished record) && negb (bool_decide (status_stage (mt_status record) = Cancelling))
  then
    let record := with_status record (at_stage (mt_status record) Cancelling now_ms) in
    run~ emodify (put_tunnel tunnel_id record) ;;
    let~ record := elift (bump_revision record) in
    run~ emodify (put_tunnel tunnel_id record) ;;
    run~ emodify (cancel_token (mt_cancellation record)) ;;
    eret (mt_status record, mt_completion record)
  else eret (mt_status record, mt_completion record).

(** ** Waiting for the end of a tunnel

    [cancel_and_wait] between its suspension points and lock acquisitions.  A
    [Notified] future receives the notifications sent after it was created, so
    [WSleep c e] has the number [e] of notifications sent by then. *)
Inductive wait_pc :=
| WRequest
| WLoop (c : nat)
| WLook (c e : nat)
| WSleep (c e : nat)
| WExpired
| WFinal
| WDone (r : result string TunnelStatus).

Section waiting.
Context (ow : ManagedTunnelOwner) (tunnel_id : TunnelId)
  (operation_context_id : option OperationContextId).

(** [.into_iter().next().context(..)] *)
Definition first_snapshot (now : Z) (ids : list str)
  : eff ManagedTunnelRegistry string TunnelStatus :=
  let~ l := tunnel_snapshots ow (Some tunnel_id) operation_context_id false now ids in
  elift (ok_or (head l) "tunnel was not found for this profile").

Definition wait_request (now_ms : Z) (s : ManagedTunnelRegistry)
  : ManagedTunnelRegistry * wait_pc :=
  match request_cancel ow tunnel_id operation_context_id now_ms s with
  | (s, Ok (initial, completion)) =>
      (s, if terminal (status_stage initial) then WDone (Ok initial) else WLoop completion)
  | (s, Err e) => (s, WDone (Err e))
  end.
Definition wait_look (c e : nat) (now : Z) (ids : list str) (s : ManagedTunnelRegistry)
  : ManagedTunnelRegistry * wait_pc :=
  match first_snapshot now ids s with
  | (s, Ok current) =>
      (s, if terminal (status_stage current) then WDone (Ok current) else WSleep c e)
  | (s, Err err) => (s, WDone (Err err))
  end.
Definition wait_expire (now now_ms : Z) (s : ManagedTunnelRegistry)
  : ManagedTunnelRegistry * wait_pc :=
  match finish_worker ow tunnel_id TunnelStageUnknown now now_ms s with
  | (s, Ok _) => (s, WFinal)
  | (s, Err e) => (s, WDone (Err e))
  end.
Definition wait_final (now : Z) (ids : list str) (s : ManagedTunnelRegistry)
  : ManagedTunnelRegistry * wait_pc :=
  let (s, r) := first_snapshot now ids s in (s, WDone r).

(** [timeout_at] polls the notification before the timer. *)
Inductive wait_step (deadline : Z)
  : ManagedTunnelRegistry -> wait_pc -> ManagedTunnelRegistry -> wait_pc -> Prop :=
| ws_request now_ms s :
    wait_step deadline s WRequest (wait_request now_ms s).1 (wait_request now_ms s).2
| ws_arm c s : wait_step deadline s (WLoop c) s (WLook c (notified c s))
| ws_look c e now ids s : iteration (tunnels s) ids ->
    wait_step deadline s (WLook c e) (wait_look c e now ids s).1 (wait_look c e now ids s).2
| ws_wake c e s : (e < notified c s)%nat -> wait_step deadline s (WSleep c e) s (WLoop c)
| ws_timeout c e now s : (notified c s <= e)%nat -> deadline <= now ->
    wait_step deadline s (WSleep c e) s WExpired
| ws_expire now now_ms s :
    wait_step deadline s WExpired (wait_expire now now_ms s).1 (wait_expire now now_ms s).2
| ws_final now ids s : iteration (tunnels s) ids ->
    wait_step deadline s WFinal (wait_final now ids s).1 (wait_final now ids s).2.
End waiting.

(** ** Shutting down *)

Definition job : Type := ManagedTunnelOwner * TunnelId * option OperationContextId.

(** The loop over the running records, in the order of the iteration; [clock]
    is what [now_unix_ms] returns for each. *)
Definition cancelling (r : ManagedTunnelRecord) (now_ms : Z) : ManagedTunnelRecord :=
  let st := at_stage (mt_status r) Cancelling now_ms in
  with_status r (if is_some (status_context_id st)
                 then at_revision st (saturating_add U64_MAX (status_revision st) 1) else st).
Fixpoint mark_running (clock : str -> Z) (ids : list str) (s : ManagedTunnelRegistry)
  : ManagedTunnelRegistry * list job :=
  match ids with
  | [] => (s, [])
  | id :: ids =>
      match tunnels s !! id with
      | Some r =>
          if is_finished r then mark_running clock ids s
          else
            let r := cancelling r (clock id) in
            let s := cancel_token (mt_cancellation r) (put_tunnel id r s) in
            let (s, jobs) := mark_running clock ids s in
            (s, (mt_owner r, status_tunnel_id (mt_status r), status_context_id (mt_status r)) :: jobs)
      | None => mark_running clock ids s
      end
  end.
Definition shutdown_mark (clock : str -> Z) (now : Z) (ids : list str) (s : ManagedTunnelRegistry)
  : ManagedTunnelRegistry * list job :=
  mark_running clock ids (removing (prune_locked MANAGED_TUNNEL_RECORD_RETENTION now) s).

Inductive shutdown_pc :=
| SMark
| SWait (j : job) (pc : wait_pc) (rest : list job)
| SFinish (j : job) (rest : list job)
| SDone.

Definition next_job (rest : list job) : shutdown_pc :=
  match rest with j :: rest => SWait j WRequest rest | [] => SDone end.

(** [shutdown_all] *)
Inductive shutdown_step (deadline : Z)
  : ManagedTunnelRegistry -> shutdown_pc -> ManagedTunnelRegistry -> shutdown_pc -> Prop :=
| sd_mark clock now ids s : iteration (tunnels s) ids ->
    shutdown_step deadline s SMark (shutdown_mark clock now ids s).1
      (next_job (shutdown_mark clock now ids s).2)
| sd_wait ow id ctx pc rest s s' pc' :
    wait_step ow id ctx deadline s pc s' pc' ->
    shutdown_step deadline s (SWait (ow, id, ctx) pc rest) s' (SWait (ow, id, ctx) pc' rest)
| sd_waited j st rest s :
    shutdown_step deadline s (SWait j (WDone (Ok st)) rest) s (next_job rest)
| sd_failed j e rest s :
    shutdown_step deadline s (SWait j (WDone (Err e)) rest) s (SFinish j rest)
| sd_finish ow id ctx rest now now_ms s :
    shutdown_step deadline s (SFinish (ow, id, ctx) rest)
      (finish_worker ow id TunnelStageUnknown now now_ms s).1 (next_job rest).

(** ** The worker of a tunnel

    [spawn_managed_tunnel_worker]: how [tunnel.wait()] ends is up to the SSH
    connection. *)
Inductive worker_pc := WkRunning | WkStopping | WkEnded (ok : bool) | WkDone.
Definition end_stage (ok : bool) : TunnelStage := if ok then Closed else TunnelStageUnknown.

Inductive worker_step (ow : ManagedTunnelOwner) (id : TunnelId) (token : nat) (deadline : Z)
  : ManagedTunnelRegistry -> worker_pc -> ManagedTunnelRegistry -> worker_pc -> Prop :=
| wk_ended ok s : worker_step ow id token deadline s WkRunning s (WkEnded ok)
| wk_deadline now s : deadline <= now ->
    worker_step ow id token deadline s WkRunning (cancel_token token s) WkStopping
| wk_shutdown s : worker_step ow id token deadline s WkRunning (cancel_token token s) WkStopping
| wk_stopped ok s : worker_step ow id token deadline s WkStopping s (WkEnded ok)
| wk_finish ok now now_ms s :
    worker_step ow id token deadline s (WkEnded ok)
      (finish_worker ow id (end_stage ok) now now_ms s).1 WkDone.

(** ** What can happen to the registry

    One step of anybody: a call on behalf of a profile, a worker's
    cancellation, the marking of a shutdown.  The steps of the machines above
    are among them.  The revision of a status is a [u64]. *)
Inductive tunnel_call : ManagedTunnelRegistry -> ManagedTunnelRegistry -> Prop :=
| tc_begin ow st token entry now s : status_revision st <= U64_MAX ->
    tunnel_call s (begin_tunnel ow st token entry now (idle_take s)).1
| tc_finish ow id stage now now_ms s :
    tunnel_call s (finish_worker ow id stage now now_ms s).1
| tc_snapshots ow id ctx enforce now ids s : iteration (tunnels s) ids ->
    tunnel_call s (tunnel_snapshots ow id ctx enforce now ids s).1
| tc_cancel ow id ctx now_ms s : tunnel_call s (request_cancel ow id ctx now_ms s).1
| tc_token t s : tunnel_call s (cancel_token t s)
| tc_mark clock now ids s : iteration (tunnels s) ids ->
    tunnel_call s (shutdown_mark clock now ids s).1.

Definition tunnel_calls : ManagedTunnelRegistry -> ManagedTunnelRegistry -> Prop := rtc tunnel_call.

(** [cancel_and_wait] among other callers, with the number of its own steps. *)
Inductive waiting (ow : ManagedTunnelOwner) (id : TunnelId) (ctx : option OperationContextId)
    (deadline : Z) (s0 : ManagedTunnelRegistry)
  : nat -> ManagedTunnelRegistry -> wait_pc -> Prop :=
| wt_start : waiting ow id ctx deadline s0 0 s0 WRequest
| wt_others n s s' pc : waiting ow id ctx deadline s0 n s pc -> tunnel_call s s' ->
    waiting ow id ctx deadline s0 n s' pc
| wt_own n s pc s' pc' : waiting ow id ctx deadline s0 n s pc ->
    wait_step ow id ctx deadline s pc s' pc' ->
    waiting ow id ctx deadline s0 (S n) s' pc'.

(** [shutdown_all] among other callers. *)
Inductive shutting_down (deadline : Z) (s0 : ManagedTunnelRegistry)
  : ManagedTunnelRegistry -> shutdown_pc -> Prop :=
| sh_start : shutting_down deadline s0 s0 SMark
| sh_others s s' pc : shutting_down deadline s0 s pc -> tunnel_call s s' ->
    shutting_down deadline s0 s' pc
| sh_own s pc s' pc' : shutting_down deadline s0 s pc ->
    shutdown_step deadline s pc s' pc' -> shutting_down deadline s0 s' pc'.
End registry.

(** ** The status of a new tunnel *)

Definition managed_tunnel_status `{Hex} (ow : ManagedTunnelOwner) (tunnel_id : TunnelId)
    (spec : TunnelSpec) (ready : TunnelReady) (deadline_unix_ms : Z)
    (operation_context_id : option OperationContextId) (now_ms : Z) : result string TunnelStatus :=
  ensure! bool_decide (ready_mode ready = spec_mode spec)
    or "SSH tunnel readiness mode does not match the request" ;;
  let target_host :=
    match spec_mode spec with Local_ | Remote_ => Some (rs "127.0.0.1") | Dynamic_ => None end in
  let status :=
    {| status_schema_version := TUNNEL_STATUS_SCHEMA_VERSION; status_tunnel_id := tunnel_id;
       status_profile_id := hex_encode (mo_profile_id ow);
       status_profile_generation := mo_generation ow; status_mode := ready_mode ready;
       status_bind_host := ready_bind_host ready; status_bind_port := ready_bind_port ready;
       status_target_host := target_host; status_target_port := spec_target_port spec;
       status_deadline_unix_ms := deadline_unix_ms; status_stage := TunnelStageReady;
       status_updated_unix_ms := now_ms; status_context_id := operation_context_id;
       status_revision := if is_some operation_context_id then 1 else 0 |} in
  try! tunnel_status_validate status ;;
  Ok status.

Definition resolved_sftp_backend (requested : TransferBackend) : result string TransferBackend :=
  match requested with
  | BackendAuto => Ok BackendSftpFallback
  | BackendSftp | BackendSftpFallback => Ok BackendSftp
  | BackendNative => Err "native transfer helper is unavailable; use --backend auto or sftp"
  end.
