(* ===== verification/DaemonTunnelsTheory.v ===== *)
(** * serctl_daemon: managed tunnels, theory

    The registry's invariant ties each record to what it shares: a running
    tunnel holds an idle guard and has not been announced, a finished one has
    released its guard and its waiters were notified exactly once.  From this
    follow the life cycle of tunnels, that [cancel_and_wait] ends within a few
    steps of its own and reports terminal stages only, and what a shutdown
    leaves behind. *)

From stdpp Require Import gmap sorting.
From S2P Require Import Prelude.
From S2P Require Import Bytes.
From S2P Require Import Text.
From S2P Require Import Crates.
From S2P Require Import IpcCrates.
From S2P Require Import Async.
From S2P Require Import IpcFrame.
From S2P Require Import IpcAuth.
From S2P Require Import Grant.
From S2P Require Import Registry.
From S2P Require Import RegistryTheory.
From S2P Require Import DaemonTransfers.
From S2P Require Import DaemonTransfersTheory.
From S2P Require Import DaemonTunnels.
#[local] Open Scope string_scope.
#[local] Open Scope list_scope.
#[local] Open Scope Z_scope.

Notation closed := (is_finished (R := ManagedTunnelRecord)).
Notation open := (is_active (R := ManagedTunnelRecord)).
Notation stage_of r := (status_stage (mt_status r)).
Notation revision_of r := (status_revision (mt_status r)).
Notation context_of r := (status_context_id (mt_status r)).

(** ** How records change *)

Definition rank (stage : TunnelStage) : nat :=
  match stage with TunnelStageReady => 0 | Cancelling => 1 | Closed | TunnelStageUnknown => 2 end.

(** No greater revision is left for a context-bound tunnel. *)
Definition exhausted (r : ManagedTunnelRecord) : Prop :=
  is_some (context_of r) = true /\ U64_MAX <= revision_of r.

Record lives_on (r r' : ManagedTunnelRecord) : Prop := {
  lo_owner : mt_owner r' = mt_owner r;
  lo_cancellation : mt_cancellation r' = mt_cancellation r;
  lo_completion : mt_completion r' = mt_completion r;
  lo_id : status_tunnel_id (mt_status r') = status_tunnel_id (mt_status r);
  lo_context : context_of r' = context_of r;
  lo_revision : revision_of r <= revision_of r';
  lo_final : closed r = true -> mt_status r' = mt_status r /\
    mt_finished_at r' = mt_finished_at r /\ mt_finished_order r' = mt_finished_order r;
  lo_stage : (rank (stage_of r) <= rank (stage_of r'))%nat \/ exhausted r';
  lo_change : mt_status r' = mt_status r \/ is_some (context_of r) = false \/
    revision_of r < revision_of r' \/ exhausted r';
  lo_unbound : is_some (context_of r) = false -> revision_of r' = revision_of r;
}.

Lemma exhausted_mono r r' :
  context_of r' = context_of r -> revision_of r <= revision_of r' -> exhausted r -> exhausted r'.
Proof. intros Hc Hr [? ?]. split; [by rewrite Hc|lia]. Qed.

#[export] Instance lives_on_refl : Reflexive lives_on.
Proof. split; auto; lia. Qed.

#[export] Instance lives_on_trans : Transitive lives_on.
Proof.
  intros a b c [] []. split; try congruence; try lia.
  - intros Hf. destruct (lo_final0 Hf) as (Hs & Hat & Ho).
    destruct lo_final1 as (? & ? & ?); [|split_and!; congruence].
    unfold is_finished in *. cbn in *. by rewrite Hat.
  - destruct lo_stage1; [|by right]. destruct lo_stage0; [left; lia|right].
    by eapply exhausted_mono.
  - destruct lo_change1 as [He|[?|[?|?]]]; [|right; left; congruence|right; right; left; lia|by auto].
    destruct lo_change0 as [?|[?|[?|?]]]; [left; congruence|by auto|right; right; left; lia|].
    right; right; right. by eapply exhausted_mono.
  - intros Hn. rewrite lo_unbound1, lo_unbound0; [done|done|congruence].
Qed.

(** ** The invariant *)

Record tunnels_ok (s : ManagedTunnelRegistry) : Prop := {
  tok_id id r : tunnels s !! id = Some r -> status_tunnel_id (mt_status r) = id;
  tok_completion id r : tunnels s !! id = Some r ->
    (mt_completion r < length (notifications s))%nat;
  tok_distinct id1 id2 r1 r2 : tunnels s !! id1 = Some r1 -> tunnels s !! id2 = Some r2 ->
    mt_completion r1 = mt_completion r2 -> id1 = id2;
  tok_notified id r : tunnels s !! id = Some r ->
    notified (mt_completion r) s = if closed r then 1%nat else 0%nat;
  tok_once c : (notified c s <= 1)%nat;
  tok_guard id r : tunnels s !! id = Some r -> mt_idle_guard r = negb (closed r);
  tok_order id r : tunnels s !! id = Some r -> closed r = true ->
    exists order, mt_finished_order r = Some order /\ order < next_order s;
  tok_ended id r : tunnels s !! id = Some r -> closed r = true -> terminal (stage_of r) = true;
  tok_running id r : tunnels s !! id = Some r -> closed r = false ->
    terminal (stage_of r) = false \/ exhausted r;
  tok_cancelling id r : tunnels s !! id = Some r -> stage_of r = Cancelling ->
    mt_cancellation r ∈ cancelled_tokens s \/ exhausted r;
  tok_u64 id r : tunnels s !! id = Some r -> revision_of r <= U64_MAX;
  tok_idle : idle_work s = count (open None) (tunnels s);
}.

Record tunnels_advance (s s' : ManagedTunnelRegistry) : Prop := {
  ta_length : (length (notifications s) <= length (notifications s'))%nat;
  ta_records id r' : tunnels s' !! id = Some r' ->
    (exists r, tunnels s !! id = Some r /\ lives_on r r') \/
    (length (notifications s) <= mt_completion r')%nat;
  ta_notified c : (notified c s <= notified c s')%nat;
  ta_tokens : cancelled_tokens s ⊆ cancelled_tokens s';
  ta_order : next_order s <= next_order s';
}.

#[export] Instance tunnels_advance_preorder : PreOrder tunnels_advance.
Proof.
  split.
  - intros s. split; auto; [|lia]. intros id r Hr. left. by exists r.
  - intros s1 s2 s3 [L1 R1 N1 T1 O1] [L2 R2 N2 T2 O2].
    split; [lia| |intros c; etrans; auto|by etrans|lia].
    intros id r3 [(r2 & [(r1 & Hr1 & H1)|Hl]%R1 & H2)|Hl]%R2.
    + left. exists r1. split; [done|by etrans].
    + right. by rewrite (lo_completion _ _ H2).
    + right. lia.
Qed.

Definition tunnel_effect (s s' : ManagedTunnelRegistry) : Prop :=
  tunnels_ok s -> tunnels_ok s' /\ tunnels_advance s s'.

#[export] Instance tunnel_effect_preorder : PreOrder tunnel_effect.
Proof.
  split; [by split|]. intros s1 s2 s3 H12 H23 H1. destruct (H12 H1) as [H2 A12].
  destruct (H23 H2) as [H3 A23]. split; [done|by etrans].
Qed.

(** *** The steps of the methods *)

(** Taking finished records away. *)
Lemma effect_remove f s :
  f (tunnels s) ⊆ tunnels s ->
  (forall id r, tunnels s !! id = Some r -> f (tunnels s) !! id = None -> closed r = true) ->
  tunnel_effect s (removing f s).
Proof.
  intros Hsub Hgone Hs. set (m := f (tunnels s)) in *.
  assert (forall id r, m !! id = Some r -> tunnels s !! id = Some r) as Hw.
  { intros id r Hr. by eapply lookup_weaken. }
  assert (forall p, (forall id r, tunnels s !! id = Some r -> closed r = true -> p r = false) ->
            count p m = count p (tunnels s)) as Hcount.
  { intros p Hp. apply Z.le_antisymm; [by apply count_mono|]. apply count_le.
    intros i r Hr Hpr. exists r. split; [|done]. destruct (m !! i) as [x|] eqn:Hx.
    - rewrite <-Hr. symmetry. by apply Hw.
    - rewrite (Hp _ _ Hr) in Hpr; [done|by eapply Hgone]. }
  assert (idle_work (removing f s) = idle_work s) as Hidle.
  { cbn. fold m. rewrite (Hcount mt_idle_guard); [lia|].
    intros id r Hr Hc. by rewrite (tok_guard _ Hs _ _ Hr), Hc. }
  destruct Hs as [Hi Hc Hd Hn Ho Hg Hor He Hr Hca Hu Hid].
  split; split; cbn; fold m; eauto.
  - change (idle_work (removing f s) = count (open None) m). rewrite Hidle, Hid, Hcount; [done|].
    intros id r _ Hcl. unfold is_active. by rewrite Hcl.
  - intros id r Hr'. left. exists r. split; [by apply Hw|done].
  - lia.
Qed.

Lemma effect_tunnel_prune now s :
  tunnel_effect s (removing (prune_locked MANAGED_TUNNEL_RECORD_RETENTION now) s).
Proof. apply effect_remove; [apply prune_subseteq|]. intros id r. apply prune_gone. Qed.

Lemma effect_tunnel_enforce ow s :
  tunnel_effect s (removing (enforce_finished_caps MAX_COMPLETED_MANAGED_TUNNELS_PER_PROFILE
    MAX_COMPLETED_MANAGED_TUNNELS_GLOBAL ow) s).
Proof. apply effect_remove; [apply enforce_subseteq|]. intros id r. apply enforce_gone. Qed.

Lemma lookup_put id r s i x :
  tunnels (put_tunnel id r s) !! i = Some x ->
  (i = id /\ x = r) \/ (i <> id /\ tunnels s !! i = Some x).
Proof. cbn. rewrite lookup_insert_Some. naive_solver. Qed.

(** Changing records without finishing them. *)
Record change (s : ManagedTunnelRegistry) (r r' : ManagedTunnelRecord) : Prop := {
  ch_lives : lives_on r r';
  ch_closed : closed r' = closed r;
  ch_guard : mt_idle_guard r' = mt_idle_guard r;
  ch_order : mt_finished_order r' = mt_finished_order r;
  ch_running : closed r = false -> terminal (stage_of r) = false \/ exhausted r ->
    terminal (stage_of r') = false \/ exhausted r';
  ch_cancelling : stage_of r' = Cancelling -> closed r = false -> stage_of r = Cancelling \/
    mt_cancellation r ∈ cancelled_tokens s \/ exhausted r';
  ch_u64 : revision_of r <= U64_MAX -> revision_of r' <= U64_MAX;
}.

Lemma change_refl s r : change s r r.
Proof. split; auto. reflexivity. Qed.

Lemma effect_changes m s :
  (forall i x, m !! i = Some x -> exists r, tunnels s !! i = Some r /\ change s r x) ->
  (forall i, is_Some (tunnels s !! i) -> is_Some (m !! i)) ->
  tunnel_effect s (with_tunnels m s).
Proof.
  intros Hm Hdom Hs.
  assert (forall i x r, m !! i = Some x -> tunnels s !! i = Some r -> change s r x) as Hch.
  { intros i x r Hx Hr. destruct (Hm i x Hx) as (r' & Hr' & Hc).
    replace r with r' by congruence. done. }
  split; split; try exact (tok_once _ Hs); cbn; try done.
  - intros i x (r & Hr & [Hl _ _ _ _ _ _])%Hm. rewrite (lo_id _ _ Hl). by apply (tok_id _ Hs).
  - intros i x (r & Hr & [Hl _ _ _ _ _ _])%Hm. rewrite (lo_completion _ _ Hl).
    by eapply (tok_completion _ Hs).
  - intros i1 i2 x1 x2 (r1 & Hr1 & [Hl1 _ _ _ _ _ _])%Hm (r2 & Hr2 & [Hl2 _ _ _ _ _ _])%Hm.
    rewrite (lo_completion _ _ Hl1), (lo_completion _ _ Hl2). by eapply (tok_distinct _ Hs).
  - intros i x (r & Hr & [Hl Hc _ _ _ _ _])%Hm. rewrite (lo_completion _ _ Hl), Hc.
    by eapply (tok_notified _ Hs).
  - intros i x (r & Hr & [_ Hc Hg _ _ _ _])%Hm. rewrite Hc, Hg. by eapply (tok_guard _ Hs).
  - intros i x (r & Hr & [_ Hc _ Ho _ _ _])%Hm. rewrite Hc, Ho. by eapply (tok_order _ Hs).
  - intros i x (r & Hr & [Hl Hc _ _ _ _ _])%Hm. rewrite Hc. intros Hcl.
    destruct (lo_final _ _ Hl Hcl) as (-> & _). by eapply (tok_ended _ Hs).
  - intros i x (r & Hr & [_ Hc _ _ Ht _ _])%Hm. rewrite Hc. intros Hcl.
    apply Ht; [done|]. by eapply (tok_running _ Hs).
  - intros i x (r & Hr & [Hl Hc _ _ _ Hca _])%Hm Hst. rewrite (lo_cancellation _ _ Hl).
    destruct (closed r) eqn:Hcl.
    + destruct (lo_final _ _ Hl Hcl) as (He & _). rewrite He in Hst.
      pose proof (tok_ended _ Hs _ _ Hr Hcl) as Ht. by rewrite Hst in Ht.
    + destruct (Hca Hst eq_refl) as [Hst'|[?|?]]; auto.
      destruct (tok_cancelling _ Hs _ _ Hr Hst') as [?|He]; [by left|right].
      eapply exhausted_mono; [..|exact He]; apply Hl.
  - intros i x (r & Hr & [_ _ _ _ _ _ Hu])%Hm. apply Hu. by eapply (tok_u64 _ Hs).
  - rewrite (tok_idle _ Hs). apply Z.le_antisymm; apply count_le; intros i r Hr Hop.
    + destruct (Hdom i ltac:(by eexists)) as [x Hx]. exists x. split; [done|].
      unfold is_active in *. by rewrite (ch_closed _ _ _ (Hch _ _ _ Hx Hr)).
    + destruct (Hm _ _ Hr) as (r' & Hr' & Hc). exists r'. split; [done|].
      unfold is_active in *. by rewrite (ch_closed _ _ _ Hc) in Hop.
  - intros i x (r & Hr & [Hl _ _ _ _ _ _])%Hm. left. by exists r.
Qed.

Lemma effect_change id r r' s :
  tunnels s !! id = Some r -> change s r r' -> tunnel_effect s (put_tunnel id r' s).
Proof.
  intros Hr Hc. apply effect_changes.
  - intros i x [[-> ->]|[_ Hx]]%lookup_put; [by exists r|]. exists x. split; [done|apply change_refl].
  - intros i [x Hx]. destruct (decide (i = id)) as [->|Hne].
    + exists r'. apply lookup_insert_eq.
    + exists x. by rewrite lookup_insert_ne.
Qed.

(** The order of completion counts on, tokens are cancelled. *)
Definition counting_on (s : ManagedTunnelRegistry) : ManagedTunnelRegistry :=
  {| tunnels := tunnels s; next_order := next_order s + 1; cancelled_tokens := cancelled_tokens s;
     notifications := notifications s; idle_work := idle_work s |}.

Lemma effect_counting s : tunnel_effect s (counting_on s).
Proof.
  intros [Hi Hc Hd Hn Ho Hg Hor He Hr Hca Hu Hid]. split; split; cbn; eauto.
  - intros id r Hl Hf. destruct (Hor _ _ Hl Hf) as (o & ? & ?). exists o. split; [done|lia].
  - intros id r Hl. left. exists r. by split.
  - lia.
Qed.

Lemma effect_token t s : tunnel_effect s (cancel_token t s).
Proof.
  intros [Hi Hc Hd Hn Ho Hg Hor He Hr Hca Hu Hid]. split; split; cbn; eauto.
  - intros id r Hl Hst. destruct (Hca _ _ Hl Hst); [left; set_solver|by right].
  - intros id r Hl. left. exists r. by split.
  - set_solver.
  - lia.
Qed.

(** A record enters the registry. *)
Definition new_tunnel (ow : ManagedTunnelOwner) (st : TunnelStatus) (token : nat)
    (entry : option nat) (c : nat) : ManagedTunnelRecord :=
  {| mt_owner := ow; mt_status := st; mt_cancellation := token; mt_completion := c;
     mt_finished_at := None; mt_finished_order := None; mt_context_discovered := false;
     mt_idle_guard := true; mt_profile_entry := entry |}.
Definition opened (ow : ManagedTunnelOwner) (st : TunnelStatus) (token : nat) (entry : option nat)
    (s : ManagedTunnelRegistry) : ManagedTunnelRegistry :=
  {| tunnels := <[status_tunnel_id st :=
       new_tunnel ow st token entry (length (notifications s))]> (tunnels s);
     next_order := next_order s; cancelled_tokens := cancelled_tokens s;
     notifications := notifications s ++ [0%nat]; idle_work := idle_work s + 1 |}.

Lemma nth_snoc_zero (l : list nat) c : nth c (l ++ [0%nat]) 0%nat = nth c l 0%nat.
Proof.
  destruct (decide (c < length l)%nat); [by rewrite app_nth1|].
  rewrite app_nth2, (nth_overflow l) by lia. by destruct (c - length l)%nat as [|[|]].
Qed.

Lemma effect_opened ow st token entry s :
  tunnels s !! status_tunnel_id st = None -> status_stage st = TunnelStageReady ->
  status_revision st <= U64_MAX ->
  tunnel_effect s (opened ow st token entry s).
Proof.
  intros Hnew Hst Hu Hs.
  assert (forall i x, tunnels (opened ow st token entry s) !! i = Some x ->
    (i = status_tunnel_id st /\ x = new_tunnel ow st token entry (length (notifications s))) \/
    tunnels s !! i = Some x) as Hput.
  { intros i x. cbn. rewrite lookup_insert_Some. naive_solver. }
  assert (forall c, notified c (opened ow st token entry s) = notified c s) as Hnot
    by (intros c; apply nth_snoc_zero).
  pose proof (tok_completion _ Hs) as Hlt.
  split; split; cbn -[opened].
  - intros i x [[-> ->]|Hx]%Hput; [done|by apply (tok_id _ Hs)].
  - cbn [opened notifications]. rewrite length_app; cbn.
    intros i x [[-> ->]|Hx]%Hput; cbn; [lia|]. apply Hlt in Hx. lia.
  - intros i1 i2 x1 x2 [[-> ->]|Hx1]%Hput [[-> ->]|Hx2]%Hput; cbn; [done|..|by eapply (tok_distinct _ Hs)];
      intros Heq; [apply Hlt in Hx2|apply Hlt in Hx1]; lia.
  - intros i x [[-> ->]|Hx]%Hput; rewrite Hnot; [|by eapply (tok_notified _ Hs)].
    unfold notified. by rewrite nth_overflow.
  - intros c. rewrite Hnot. apply (tok_once _ Hs).
  - intros i x [[-> ->]|Hx]%Hput; [done|by eapply (tok_guard _ Hs)].
  - intros i x [[-> ->]|Hx]%Hput; [done|by eapply (tok_order _ Hs)].
  - intros i x [[-> ->]|Hx]%Hput; [done|by eapply (tok_ended _ Hs)].
  - intros i x [[-> ->]|Hx]%Hput; [left; cbn; by rewrite Hst|by eapply (tok_running _ Hs)].
  - intros i x [[-> ->]|Hx]%Hput; [cbn; by rewrite Hst|by eapply (tok_cancelling _ Hs)].
  - intros i x [[-> ->]|Hx]%Hput; [done|by eapply (tok_u64 _ Hs)].
  - cbn. rewrite (tok_idle _ Hs), count_insert_new by done. done.
  - cbn. rewrite length_app. lia.
  - intros i x [[-> ->]|Hx]%Hput; [by right|left; by exists x].
  - intros c. by rewrite Hnot.
  - done.
  - cbn; lia.
Qed.

(** A tunnel ends: its record is final, its guard released, its waiters told. *)
Definition ended (id : str) (r : ManagedTunnelRecord) (now order : Z) (s : ManagedTunnelRegistry)
  : ManagedTunnelRegistry :=
  notify_waiters (mt_completion r) (idle_drop 1 (put_tunnel id (with_end r now order) s)).

Lemma notified_again c k s t :
  notifications t = alter S k (notifications s) -> (k < length (notifications s))%nat ->
  notified c t = if decide (c = k) then S (notified c s) else notified c s.
Proof.
  intros Ht Hk. unfold notified. rewrite Ht, !nth_lookup. destruct (decide (c = k)) as [->|Hne].
  - rewrite list_lookup_alter_eq. destruct (lookup_lt_is_Some_2 _ _ Hk) as [x ->]. done.
  - by rewrite list_lookup_alter_ne by done.
Qed.

Lemma effect_ended id r0 r now order s :
  tunnels s !! id = Some r0 -> closed r0 = false -> lives_on r0 r ->
  terminal (stage_of r) = true -> revision_of r <= U64_MAX -> order < next_order s ->
  tunnel_effect s (ended id r now order s).
Proof.
  intros Hr Hcl Hl Hterm Hu Hlt Hs. set (t := ended id r now order s).
  assert (forall i x, tunnels t !! i = Some x ->
    (i = id /\ x = with_end r now order) \/ (i <> id /\ tunnels s !! i = Some x)) as Hput.
  { intros i x. apply lookup_put. }
  pose proof (lo_completion _ _ Hl) as Hc. pose proof (tok_completion _ Hs _ _ Hr) as Hlen.
  pose proof (tok_notified _ Hs _ _ Hr) as Hzero. rewrite Hcl in Hzero.
  assert (forall c, notified c t =
    if decide (c = mt_completion r0) then 1%nat else notified c s) as Hnot.
  { intros c. rewrite (notified_again c (mt_completion r0) s t); [|cbn; by rewrite Hc|done].
    destruct (decide _) as [->|]; [by rewrite Hzero|done]. }
  split; split; cbn -[t].
  - intros i x [[-> ->]|[_ Hx]]%Hput; [cbn; rewrite (lo_id _ _ Hl)|]; by apply (tok_id _ Hs).
  - cbn. rewrite length_alter. intros i x [[-> ->]|[_ Hx]]%Hput; [cbn; by rewrite Hc|].
    by eapply (tok_completion _ Hs).
  - intros i1 i2 x1 x2 [[-> ->]|[? Hx1]]%Hput [[-> ->]|[? Hx2]]%Hput;
      [done|..|by eapply (tok_distinct _ Hs)]; cbn; rewrite Hc; intros He;
      by (eapply (tok_distinct _ Hs) + (symmetry; eapply (tok_distinct _ Hs))).
  - intros i x [[-> ->]|[Hne Hx]]%Hput; rewrite Hnot.
    + cbn. by rewrite Hc, decide_True.
    + rewrite decide_False; [by eapply (tok_notified _ Hs)|].
      intros He. apply Hne. by eapply (tok_distinct _ Hs).
  - intros c. rewrite Hnot. destruct (decide _); [done|apply (tok_once _ Hs)].
  - intros i x [[-> ->]|[_ Hx]]%Hput; [done|by eapply (tok_guard _ Hs)].
  - intros i x [[-> ->]|[_ Hx]]%Hput; [by exists order|by eapply (tok_order _ Hs)].
  - intros i x [[-> ->]|[_ Hx]]%Hput; [done|by eapply (tok_ended _ Hs)].
  - intros i x [[-> ->]|[_ Hx]]%Hput; [done|by eapply (tok_running _ Hs)].
  - intros i x [[-> ->]|[_ Hx]]%Hput; [|by eapply (tok_cancelling _ Hs)].
    intros He. cbn in He. by rewrite He in Hterm.
  - intros i x [[-> ->]|[_ Hx]]%Hput; [done|by eapply (tok_u64 _ Hs)].
  - cbn. rewrite (tok_idle _ Hs), (count_insert _ _ _ _ _ Hr). unfold is_active at 3 4.
    rewrite Hcl. cbn. lia.
  - cbn. by rewrite length_alter.
  - intros i x [[-> ->]|[_ Hx]]%Hput; left; [exists r0; split; [done|]|by exists x].
    destruct Hl. split; cbn; try done. intros Hf. congruence.
  - intros c. rewrite Hnot. destruct (decide _) as [->|]; [by rewrite Hzero; lia|done].
  - done.
  - cbn. lia.
Qed.

(** ** The methods *)

Definition staged (r : ManagedTunnelRecord) (stage : TunnelStage) (now_ms revision : Z)
  : ManagedTunnelRecord :=
  with_status r (at_revision (at_stage (mt_status r) stage now_ms) revision).

Lemma staged_lives r stage now_ms n :
  closed r = false -> revision_of r <= n ->
  (rank (stage_of r) <= rank stage)%nat \/ (is_some (context_of r) = true /\ U64_MAX <= n) ->
  (is_some (context_of r) = true -> revision_of r < n \/ U64_MAX <= n) ->
  (is_some (context_of r) = false -> n = revision_of r) ->
  lives_on r (staged r stage now_ms n).
Proof.
  intros Hcl Hn Hrank Hctx Hun. split; try done.
  - intros Hc. congruence.
  - right. cbn. unfold exhausted. cbn. destruct (is_some (context_of r)); [right|by left].
    destruct (Hctx eq_refl); [by left|right; by split].
Qed.

Lemma at_revision_same r stage now_ms :
  with_status r (at_stage (mt_status r) stage now_ms) = staged r stage now_ms (revision_of r).
Proof. done. Qed.

Lemma bump_staged r stage now_ms res :
  bump_revision (with_status r (at_stage (mt_status r) stage now_ms)) = res ->
  match res with
  | Ok r' => let n := revision_of r + if is_some (context_of r) then 1 else 0 in
      r' = staged r stage now_ms n /\ (revision_of r <= U64_MAX -> n <= U64_MAX)
  | Err e => e = "managed tunnel revision is exhausted" /\ exhausted r
  end.
Proof.
  intros <-. unfold bump_revision. cbn. destruct (is_some (context_of r)) eqn:Hc.
  - destruct (checked_add _ _ _) as [n|] eqn:Ha; cbn.
    + apply checked_add_some in Ha as [-> ?]. done.
    + apply checked_add_none in Ha. split; [done|]. split; [done|lia].
  - by rewrite Z.add_0_r, <-at_revision_same.
Qed.

Definition tunnels_pruned (now : Z) (s : ManagedTunnelRegistry) : ManagedTunnelRegistry :=
  removing (prune_locked MANAGED_TUNNEL_RECORD_RETENTION now) s.
Definition tunnels_enforced (ow : ManagedTunnelOwner) (s : ManagedTunnelRegistry)
  : ManagedTunnelRegistry :=
  removing (enforce_finished_caps MAX_COMPLETED_MANAGED_TUNNELS_PER_PROFILE
    MAX_COMPLETED_MANAGED_TUNNELS_GLOBAL ow) s.

Lemma open_pruned now s id r :
  tunnels s !! id = Some r -> closed r = false -> tunnels (tunnels_pruned now s) !! id = Some r.
Proof.
  intros Hr Hf. cbn. rewrite prune_lookup, Hr. cbn. unfold retained.
  unfold is_finished in Hf. by destruct (finished_at r).
Qed.

Lemma pruned_lookup now s id r :
  tunnels (tunnels_pruned now s) !! id = Some r -> tunnels s !! id = Some r.
Proof. intros Hr. eapply lookup_weaken; [exact Hr|apply prune_subseteq]. Qed.

Lemma open_enforced ow s id r :
  tunnels s !! id = Some r -> closed r = false -> tunnels (tunnels_enforced ow s) !! id = Some r.
Proof.
  intros Hr Hf. destruct (tunnels (tunnels_enforced ow s) !! id) as [x|] eqn:Hx.
  - rewrite <-Hr. symmetry. eapply lookup_weaken; [exact Hx|].
    apply (enforce_subseteq _ _ ow).
  - pose proof (enforce_gone _ _ _ _ _ _ Hr Hx). congruence.
Qed.

Section methods.
Context `{Hex}.

Lemma ok_or_err {E A} (o : option A) (e e' : E) : ok_or o e = Err e' -> o = None.
Proof. by destruct o. Qed.

Lemma finish_worker_inv ow id stage now now_ms s s' res :
  tunnels_ok s -> finish_worker ow id stage now now_ms s = (s', res) ->
  let p := tunnels_pruned now s in
  (is_ok res = false /\
   ((s' = s /\ terminal stage = false) \/ (s' = p /\ USIZE_MAX <= next_order s) \/
    (s' = counting_on p /\ forall r, tunnels p !! id = Some r -> mt_owner r <> ow))) \/
  exists r, tunnels p !! id = Some r /\ mt_owner r = ow /\ terminal stage = true /\
    ((closed r = true /\ res = Ok tt /\ s' = counting_on p) \/
     (closed r = false /\
      ((is_ok res = false /\ exhausted r /\
        s' = put_tunnel id (staged r stage now_ms (revision_of r)) (counting_on p)) \/
       let r' := staged r stage now_ms (revision_of r + if is_some (context_of r) then 1 else 0) in
       res = Ok tt /\ revision_of r' <= U64_MAX /\
       s' = tunnels_enforced ow (ended id r' now (next_order s) (counting_on p))))).
Proof.
  intros Hs Hm. unfold finish_worker in Hm.
  destruct (terminal stage) eqn:Hst;
    [|injection Hm as <- <-; left; split; [done|]; left; by split].
  apply ebind_inv in Hm as [(u & s0 & Hm0 & Hm)|(e & Hm & ->)]; method; try done.
  all: repeat match goal with
       | Hc : ok_or _ _ = Err _ |- _ => apply ok_or_err in Hc
       | Hc : ensure _ _ = Err _ |- _ => apply ensure_err in Hc as [Hc _]; checks
       | Hc : checked_add _ _ _ = Some _ |- _ => apply checked_add_some in Hc as [-> _]
       | Hc : checked_add _ _ _ = None |- _ => apply checked_add_none in Hc;
           change (USIZE_MAX < next_order s + 1) in Hc
       end.
  all: try (left; split; [done|]; right; left; split; [done|lia]).
  all: try (left; split; [done|]; right; right; split; [done|]; intros r Hr; cbn in *; congruence).
  right. eexists. split; [done|]. split; [done|]. split; [done|].
  match goal with Hl : tunnels _ !! id = Some ?x |- _ =>
    pose proof (tok_guard _ Hs _ _ (pruned_lookup now _ _ _ Hl)) as Hg;
    pose proof (tok_u64 _ Hs _ _ (pruned_lookup now _ _ _ Hl)) as Hu; clear Hl;
    destruct (closed x) eqn:Hcl end; method; [by left|right; split; [done|]..].
  - right. match goal with Hb : bump_revision _ = _ |- _ => apply bump_staged in Hb as [-> Hn] end.
    split; [done|]. split; [by apply Hn|]. unfold ended, put_tunnel. cbn -[enforce_finished_caps insert]. rewrite insert_insert_eq.
    cbn in Hg. rewrite Hg. done.
  - left. match goal with Hb : bump_revision _ = _ |- _ => apply bump_staged in Hb as [-> Hx] end.
    done.
Qed.

Lemma idle_drop_take s : idle_drop 1 (idle_take s) = s.
Proof. destruct s. unfold idle_drop, idle_take. cbn. f_equal. lia. Qed.

Lemma removing_take f s : removing f (idle_take s) = idle_take (removing f s).
Proof. unfold removing, idle_take, idle_drop. cbn. f_equal. lia. Qed.

Lemma dropping_guard_inv {A} (p : eff ManagedTunnelRegistry string A) s s' r :
  dropping_guard p s = (s', r) ->
  (exists a, p s = (s', Ok a) /\ r = Ok a) \/
  (exists e t, p s = (t, Err e) /\ r = Err e /\ s' = idle_drop 1 t).
Proof. unfold dropping_guard. destruct (p s) as [t [a|e]]; intros [= <- <-]; eauto 6. Qed.

Lemma begin_tunnel_inv ow st token entry now s s' res :
  begin_tunnel ow st token entry now (idle_take s) = (s', res) ->
  (is_ok res = false /\ (s' = s \/ s' = tunnels_pruned now s)) \/
  (tunnel_status_validate st = Ok tt /\ status_profile_id st = hex_encode (mo_profile_id ow) /\
   status_profile_generation st = mo_generation ow /\ status_stage st = TunnelStageReady /\
   let p := tunnels_pruned now s in
   tunnels p !! status_tunnel_id st = None /\
   count (open None) (tunnels p) < MAX_ACTIVE_MANAGED_TUNNELS_GLOBAL /\
   count (open (Some ow)) (tunnels p) < MAX_ACTIVE_MANAGED_TUNNELS_PER_PROFILE /\
   res = Ok (length (notifications s)) /\ s' = opened ow st token entry p).
Proof.
  unfold begin_tunnel. intros [(c & Hm & ->)|(e & t & Hm & -> & ->)]%dropping_guard_inv.
  - right. inv_eff. rewrite removing_take in *. split_and!; try done.
    by destruct (tunnels _ !! _).
  - left. method; rewrite ?removing_take, ?idle_drop_take; auto.
Qed.

Lemma request_cancel_inv ow id ctx now_ms s s' res :
  request_cancel ow id ctx now_ms s = (s', res) ->
  (is_ok res = false /\ s' = s) \/
  exists r, tunnels s !! id = Some r /\ mt_owner r = ow /\
    (forall c, context_of r = Some c -> ctx = Some c) /\
    ((res = Ok (mt_status r, mt_completion r) /\ s' = s /\
      (closed r = true \/ stage_of r = Cancelling)) \/
     (closed r = false /\ stage_of r <> Cancelling /\
      ((is_ok res = false /\ exhausted r /\
        s' = put_tunnel id (staged r Cancelling now_ms (revision_of r)) s) \/
       let r' := staged r Cancelling now_ms
         (revision_of r + if is_some (context_of r) then 1 else 0) in
       res = Ok (mt_status r', mt_completion r) /\
       (revision_of r <= U64_MAX -> revision_of r' <= U64_MAX) /\
       s' = cancel_token (mt_cancellation r) (put_tunnel id r' s)))).
Proof.
  unfold request_cancel. intros Hm.
  apply ebind_inv in Hm as [(m & s0 & Hm0 & Hm)|(e & Hm & ->)]; method; try (left; by auto).
  right. eexists. split; [done|]. split; [done|]. split.
  { intros c Hc. rewrite Hc in *. destruct ctx; checks; congruence. }
  destruct (negb _ && negb _) eqn:Hb; checks; method.
  - right. split; [done|]. split; [done|]. right.
    match goal with Hb : bump_revision _ = _ |- _ => apply bump_staged in Hb as [-> Hn] end.
    split; [done|]. split; [done|].
    unfold cancel_token, put_tunnel, with_tunnels. cbn -[insert]. by rewrite insert_insert_eq.
  - right. split; [done|]. split; [done|]. left.
    match goal with Hb : bump_revision _ = _ |- _ => apply bump_staged in Hb as [-> Hx] end. done.
  - left. split; [done|]. split; [done|]. apply andb_false_iff in Hb as [Hb|Hb]; checks; auto.
Qed.

Lemma nonterminal_rank stage : terminal stage = false <-> (rank stage <= 1)%nat.
Proof. destruct stage; cbn; split; (done || lia). Qed.

(** A step to another stage, with all the revision that is left. *)
Lemma change_staged s r stage now_ms n :
  closed r = false -> revision_of r <= n <= U64_MAX ->
  terminal (stage_of r) = false \/ exhausted r ->
  (is_some (context_of r) = true -> revision_of r < n \/ U64_MAX <= n) ->
  (is_some (context_of r) = false -> n = revision_of r) ->
  terminal stage = false \/ exhausted (staged r stage now_ms n) ->
  (rank (stage_of r) <= 1 -> rank (stage_of r) <= rank stage)%nat \/ exhausted (staged r stage now_ms n) ->
  (stage = Cancelling ->
     mt_cancellation r ∈ cancelled_tokens s \/ exhausted (staged r stage now_ms n)) ->
  change s r (staged r stage now_ms n).
Proof.
  intros Hcl Hn Hrun Hctx Hun Hterm Hrank Hcanc. split; try done.
  - apply staged_lives; [done|lia| |done|done]. destruct Hrun as [Hrun|[? ?]]; [|right; split; [done|lia]].
    destruct Hrank as [Hrank|[? ?]]; [left|right; by split]. by apply Hrank, nonterminal_rank.
  - intros He _. right. by apply Hcanc.
  - intros _. apply Hn.
Qed.

Lemma effect_stuck id r stage now_ms s :
  tunnels s !! id = Some r -> closed r = false -> exhausted r ->
  tunnel_effect s (put_tunnel id (staged r stage now_ms (revision_of r)) s).
Proof.
  intros Hr Hcl [Hx Hn] Hs. pose proof (tok_u64 _ Hs _ _ Hr).
  revert Hs. eapply effect_change; [exact Hr|].
  assert (exhausted (staged r stage now_ms (revision_of r))) as He by (by split).
  apply change_staged; auto; try lia; by right.
Qed.

Lemma effect_cancelling id r now_ms n s :
  tunnels s !! id = Some r -> closed r = false -> revision_of r <= n <= U64_MAX ->
  (is_some (context_of r) = true -> revision_of r < n \/ U64_MAX <= n) ->
  (is_some (context_of r) = false -> n = revision_of r) ->
  tunnel_effect s (cancel_token (mt_cancellation r) (put_tunnel id (staged r Cancelling now_ms n) s)).
Proof.
  intros Hr Hcl Hn Hctx Hun Hs. pose proof (tok_running _ Hs _ _ Hr Hcl) as Hrun. revert Hs.
  change (tunnel_effect s (put_tunnel id (staged r Cancelling now_ms n)
    (cancel_token (mt_cancellation r) s))).
  etrans; [apply effect_token|]. eapply effect_change; [exact Hr|].
  apply change_staged; auto. left. set_solver.
Qed.

Context `{Json Frame, JsonWriter Frame}.

Lemma tunnel_snapshots_inv ow id ctx enforce now ids s s' res :
  iteration (tunnels s) ids -> tunnel_snapshots ow id ctx enforce now ids s = (s', res) ->
  let p := tunnels_pruned now s in
  exists m, s' = with_tunnels m p /\ iteration (tunnels p) ids /\
    list_pruned
      "managed tunnel operation context does not match this daemon instance and object"
      "managed tunnel operation context is required after initial discovery"
      tunnel_snapshot_len ow id ctx enforce ids (tunnels p) = (m, res) /\
    forall i, shown ow id ctx enforce ids (tunnels p) m i.
Proof.
  intros Hit Hm p. assert (iteration (tunnels p) ids) as Hit'
    by (eapply iteration_sub; [apply prune_subseteq|exact Hit]).
  unfold tunnel_snapshots, zoom in Hm.
  apply ebind_inv in Hm as [(x & s0 & Hm0 & Hm)|(e & Hm & ->)]; method.
  destruct (list_pruned _ _ _ _ _ _ _ _ _) as [m r] eqn:Hl. injection Hm as <- <-.
  exists m. split; [done|]. split; [done|]. split; [done|].
  intros i. eapply list_pruned_shown; [apply Hit|exact Hl].
Qed.

Lemma effect_tunnels_shown ow id ctx enforce ids m s :
  (forall i, shown ow id ctx enforce ids (tunnels s) m i) -> tunnel_effect s (with_tunnels m s).
Proof.
  intros Hm. apply effect_changes.
  - intros i x Hx. destruct (Hm i) as [He|(r & _ & Hr & _ & _ & _ & _ & _ & Hd)].
    + exists x. split; [congruence|apply change_refl].
    + exists r. split; [done|]. rewrite Hx in Hd. injection Hd as ->.
      split; auto. split; auto. done.
  - intros i Hi. destruct (Hm i) as [->|(r & _ & _ & _ & _ & _ & _ & _ & ->)]; [done|by eexists].
Qed.

Lemma mark_running_spec clock ids s s' jobs :
  tunnels_ok s -> mark_running clock ids s = (s', jobs) ->
  (tunnels_ok s' /\ tunnels_advance s s') /\
  forall id r, id ∈ ids -> tunnels s !! id = Some r -> closed r = false ->
    (mt_owner r, id, context_of r) ∈ jobs.
Proof.
  revert s s' jobs; induction ids as [|i ids IH]; intros s s' jobs Hs; cbn.
  { intros [= <- <-]. split; [by split|]. intros id r Hi. by apply elem_of_nil in Hi. }
  destruct (tunnels s !! i) as [x|] eqn:Hx; [destruct (closed x) eqn:Hcl|].
  - intros Hm. destruct (IH _ _ _ Hs Hm) as [He Hj]. split; [done|].
    intros id r [->|Hi]%elem_of_cons Hr Hc; [congruence|by apply Hj].
  - match goal with |- context [mark_running clock ids ?t] => set (s1 := t) end.
    assert (tunnel_effect s s1) as Hstep.
    { pose proof (tok_u64 _ Hs _ _ Hx). unfold s1, cancelling.
      destruct (is_some (context_of x)) eqn:Hc; cbn; rewrite Hc.
      - apply (effect_cancelling i x (clock i) (saturating_add U64_MAX (revision_of x) 1)); auto;
          unfold saturating_add; (lia || congruence).
      - apply (effect_cancelling i x (clock i) (revision_of x)); auto; [lia|]. by rewrite Hc. }
    destruct (Hstep Hs) as [Hs1 Ha]. destruct (mark_running clock ids s1) as [s2 js] eqn:Hm.
    destruct (IH _ _ _ Hs1 Hm) as [[Hs2 Ha2] Hj]. intros [= <- <-].
    split; [split; [done|by etrans]|].
    assert ((mt_owner x, i, context_of x) =
      (mt_owner (cancelling x (clock i)), status_tunnel_id (mt_status (cancelling x (clock i))),
       context_of (cancelling x (clock i)))) as Hjob.
    { unfold cancelling. rewrite <-(tok_id _ Hs _ _ Hx). cbn. by destruct (is_some _). }
    intros id r [->|Hi]%elem_of_cons Hr Hc.
    + replace r with x by congruence. rewrite Hjob. by left.
    + destruct (decide (id = i)) as [->|Hne].
      * replace r with x by congruence. rewrite Hjob. by left.
      * right. apply Hj; [done| |done]. unfold s1. cbn. by rewrite lookup_insert_ne.
  - intros Hm. destruct (IH _ _ _ Hs Hm) as [He Hj]. split; [done|].
    intros id r [->|Hi]%elem_of_cons Hr Hc; [congruence|by apply Hj].
Qed.

(** *** Any call *)

Lemma finish_worker_effect ow id stage now now_ms s s' res :
  finish_worker ow id stage now now_ms s = (s', res) -> tunnel_effect s s'.
Proof.
  intros Hm Hs. pose proof (finish_worker_inv _ _ _ _ _ _ _ _ Hs Hm) as Hcases. revert Hs.
  change (tunnel_effect s s'). set (p := tunnels_pruned now s) in *.
  assert (tunnel_effect s p) as Hp by apply effect_tunnel_prune.
  assert (tunnel_effect s (counting_on p)) as Hc by (etrans; [exact Hp|apply effect_counting]).
  destruct Hcases as [(_ & [(-> & _)|[(-> & _)|(-> & _)]])|
    (r & Hr & Ho & Hst & [(_ & _ & ->)|(Hcl & [(_ & Hx & ->)|(_ & Hu & ->)])])];
    [reflexivity|done|done|done|..].
  - etrans; [exact Hc|]. by apply effect_stuck.
  - etrans; [exact Hc|]. etrans; [|apply effect_tunnel_enforce].
    eapply effect_ended; [exact Hr|done| |done|done|cbn; lia].
    apply staged_lives; [done|destruct (is_some _); lia| |intros ->; left; lia|intros ->; lia].
    left. destruct stage; [done..| |]; destruct (stage_of r); cbn; lia.
Qed.

Lemma request_cancel_effect ow id ctx now_ms s s' res :
  request_cancel ow id ctx now_ms s = (s', res) -> tunnel_effect s s'.
Proof.
  intros [(_ & ->)|(r & Hr & _ & _ & [(_ & -> & _)|(Hcl & Hst & [(_ & Hx & ->)|(_ & Hu & ->)])])]%request_cancel_inv;
    [reflexivity|reflexivity|by apply effect_stuck|].
  intros Hs. specialize (Hu (tok_u64 _ Hs _ _ Hr)). revert Hs.
  apply effect_cancelling; [done|done|destruct (is_some _); cbn in Hu; lia|intros ->; left; lia|intros ->; lia].
Qed.

Lemma tunnel_call_effect s s' : tunnel_call s s' -> tunnel_effect s s'.
Proof.
  intros [ow st token entry now t Hu|ow id stage now now_ms t|ow id ctx enforce now ids t Hit
         |ow id ctx now_ms t|k t|clock now ids t Hit].
  - destruct (begin_tunnel _ _ _ _ _ _) as [t' res] eqn:Hm. cbn.
    apply begin_tunnel_inv in Hm as [(_ & [->| ->])|(_ & _ & _ & Hst & Hn & _ & _ & _ & ->)].
    + reflexivity.
    + apply effect_tunnel_prune.
    + etrans; [apply (effect_tunnel_prune now)|]. by apply effect_opened.
  - destruct (finish_worker _ _ _ _ _ t) as [t' res] eqn:Hm. by apply finish_worker_effect in Hm.
  - destruct (tunnel_snapshots _ _ _ _ _ _ t) as [t' res] eqn:Hm. cbn.
    apply tunnel_snapshots_inv in Hm as (m & -> & _ & _ & Hm); [|done].
    etrans; [apply (effect_tunnel_prune now)|]. by eapply effect_tunnels_shown.
  - destruct (request_cancel _ _ _ _ t) as [t' res] eqn:Hm. by apply request_cancel_effect in Hm.
  - apply effect_token.
  - unfold shutdown_mark. destruct (mark_running _ _ _) as [t' jobs] eqn:Hm. cbn.
    etrans; [apply (effect_tunnel_prune now)|]. intros Hs. by apply (mark_running_spec _ _ _ _ _ Hs Hm).
Qed.

#[export] Instance tunnel_calls_preorder : PreOrder tunnel_calls.
Proof. apply rtc_po. Qed.

Lemma tunnel_calls_effect s s' : tunnel_calls s s' -> tunnel_effect s s'.
Proof. induction 1; [reflexivity|etrans; [by apply tunnel_call_effect|done]]. Qed.

Lemma default_ok : tunnels_ok tunnels_default.
Proof. split; cbn; try done. intros c. unfold notified. cbn. by destruct c; lia. Qed.

Lemma reachable_tunnels s : tunnel_calls tunnels_default s -> tunnels_ok s.
Proof. intros Hs. apply (tunnel_calls_effect _ _ Hs), default_ok. Qed.
End methods.
