(* ===== verification/DaemonTunnelsProperties.v ===== *)
(** * serctl_daemon: managed tunnels, properties

    The life cycle of tunnels in every reachable registry, their caps, and the
    two waiting operations among arbitrary other callers: [cancel_and_wait]
    takes a bounded number of steps of its own, misses no notification and
    reports terminal stages; [shutdown_all] leaves no tunnel running that it
    found running. *)

From Stdlib Require Import Lia.
From stdpp Require Import gmap sorting.
From S2P Require Import Prelude.
From S2P Require Import Bytes.
From S2P Require Import Text.
From S2P Require Import Crates.
From S2P Require Import IpcCrates.
From S2P Require Import Async.
From S2P Require Import IpcFrame.
From S2P Require Import IpcAuth.
From S2P Require Import Grant.
From S2P Require Import Registry.
From S2P Require Import RegistryTheory.
From S2P Require Import DaemonTransfers.
From S2P Require Import DaemonTransfersTheory.
From S2P Require Import DaemonTunnels.
From S2P Require Import DaemonTunnelsTheory.
#[local] Open Scope string_scope.
#[local] Open Scope list_scope.
#[local] Open Scope Z_scope.

Section properties.
Context `{Hex, Json Frame, JsonWriter Frame}.

(** ** The caps *)

Notation tunnels_within s :=
  (within MAX_ACTIVE_MANAGED_TUNNELS_GLOBAL MAX_ACTIVE_MANAGED_TUNNELS_PER_PROFILE
     MAX_COMPLETED_MANAGED_TUNNELS_GLOBAL MAX_COMPLETED_MANAGED_TUNNELS_PER_PROFILE (tunnels s)).

Lemma within_change s id r r' :
  tunnels s !! id = Some r -> closed r' = closed r -> mt_owner r' = mt_owner r ->
  tunnels_within s -> tunnels_within (put_tunnel id r' s).
Proof.
  intros Hr Hc Ho. apply within_mono. intros i x [[-> ->]|[_ Hx]]%lookup_put; [|by exists x].
  by exists r.
Qed.

Lemma finish_worker_within ow id stage now now_ms s s' res :
  tunnels_ok s -> finish_worker ow id stage now now_ms s = (s', res) ->
  tunnels_within s -> tunnels_within s'.
Proof.
  intros Hs Hm Hw. assert (tunnels_within (tunnels_pruned now s)) as Hp by by apply within_prune.
  apply finish_worker_inv in Hm as [(_ & [(-> & _)|[(-> & _)|(-> & _)]])|
    (r & Hr & Ho & Hst & [(_ & _ & ->)|(Hcl & [(_ & Hx & ->)|(_ & Hu & ->)])])]; try done.
  - by eapply (within_change (counting_on (tunnels_pruned now s))).
  - by eapply within_finished; [done|done|exact Hp|exact Hr|..].
Qed.

Lemma mark_running_within clock ids s :
  tunnels_within s -> tunnels_within (mark_running clock ids s).1.
Proof.
  revert s; induction ids as [|i ids IH]; intros s Hw; [done|]. cbn.
  destruct (tunnels s !! i) as [x|] eqn:Hx; [destruct (closed x) eqn:Hc|]; [by apply IH| |by apply IH].
  match goal with |- context [mark_running clock ids ?t] => specialize (IH t) end.
  destruct (mark_running _ _ _). apply IH. by eapply (within_change s).
Qed.

Lemma tunnel_call_within s s' :
  tunnels_ok s -> tunnel_call s s' -> tunnels_within s -> tunnels_within s'.
Proof.
  intros Hs Hc. revert Hs.
  assert (forall now s, tunnels_within s -> tunnels_within (tunnels_pruned now s)) as Hprune
    by (intros now t; apply within_prune).
  destruct Hc as [ow st token entry now t Hu|ow id stage now now_ms t|ow id ctx enforce now ids t Hit
         |ow id ctx now_ms t|k t|clock now ids t Hit]; intros Hs Hw.
  - destruct (begin_tunnel _ _ _ _ _ _) as [t' res] eqn:Hm. cbn.
    apply begin_tunnel_inv in Hm as [(_ & [->| ->])|(_ & _ & _ & Hst & Hn & ? & ? & _ & ->)];
      [done|by apply Hprune|]. by apply within_new; [apply Hprune|..].
  - destruct (finish_worker _ _ _ _ _ t) as [t' res] eqn:Hm. by eapply finish_worker_within in Hm.
  - destruct (tunnel_snapshots _ _ _ _ _ _ t) as [t' res] eqn:Hm. cbn.
    apply tunnel_snapshots_inv in Hm as (m & -> & _ & _ & Hm); [|done].
    eapply shown_within; [exact Hm|by apply Hprune].
  - destruct (request_cancel _ _ _ _ t) as [t' res] eqn:Hm. cbn.
    apply request_cancel_inv in Hm as
      [(_ & ->)|(r & Hr & _ & _ & [(_ & -> & _)|(Hcl & _ & [(_ & _ & ->)|(_ & _ & ->)])])]; try done;
      by eapply within_change.
  - done.
  - by apply mark_running_within, Hprune.
Qed.

(** However the registry is used, it never holds more running tunnels
    than 32 in all and 8 per profile generation, nor more finished ones than
    128 in all and 16 per profile generation; and exactly the running ones keep
    the daemon from its idle exit. *)
Theorem tunnels_are_bounded s :
  tunnel_calls tunnels_default s ->
  count (open None) (tunnels s) <= 32 /\ count (candidate None) (tunnels s) <= 128 /\
  (forall ow, count (open (Some ow)) (tunnels s) <= 8 /\ count (candidate (Some ow)) (tunnels s) <= 16) /\
  idle_work s = count (open None) (tunnels s).
Proof.
  intros Hs.
  assert (tunnels_ok s /\ tunnels_within s) as [Hok [Ha Hao Hd Hdo]].
  { revert s Hs. apply (rtc_ind_r (fun s => tunnels_ok s /\ tunnels_within s)).
    - split; [apply default_ok|]. by split; intros; vm_compute.
    - intros s1 s2 _ Hc [IHo IHw]. split; [by apply (tunnel_call_effect _ _ Hc)|].
      by eapply tunnel_call_within. }
  split; [exact Ha|]. split; [exact Hd|]. split; [|apply (tok_idle _ Hok)].
  intros ow. split; [apply Hao|apply Hdo].
Qed.

(** C26: The life of a tunnel.  Between two reachable states its record keeps
    its owner, context, token and completion, and a finished record is final.
    The revision of a tunnel with an operation context never goes down, and
    every change of its status raises it; that of a tunnel without one never
    changes, whatever its status does.  A finished record has a terminal stage,
    has released the daemon and notified its completion once; a running one
    holds the daemon and has not.  And unless the tunnel has an operation context whose
    64-bit revision is used up ([exhausted], which also is the one escape of the
    rule that a change raises the revision): its stage never goes back, that of
    a running one is not terminal, and one that is being cancelled has its
    cancellation token set. *)
Theorem tunnels_live_and_end s s' :
  tunnel_calls tunnels_default s -> tunnel_calls s s' ->
  tunnels_advance s s' /\
  forall id r, tunnels s' !! id = Some r ->
    (closed r = true -> terminal (stage_of r) = true /\ mt_idle_guard r = false /\
       notified (mt_completion r) s' = 1%nat) /\
    (closed r = false -> mt_idle_guard r = true /\ notified (mt_completion r) s' = 0%nat /\
       (terminal (stage_of r) = false \/ exhausted r)) /\
    (stage_of r = Cancelling -> mt_cancellation r ∈ cancelled_tokens s' \/ exhausted r).
Proof.
  intros Hs Hc. apply reachable_tunnels in Hs.
  destruct (tunnel_calls_effect _ _ Hc Hs) as [Hs' Ha]. split; [done|].
  intros id r Hr. pose proof (tok_guard _ Hs' _ _ Hr) as Hg. pose proof (tok_notified _ Hs' _ _ Hr) as Hn.
  split; [|split].
  - intros Hcl. rewrite Hcl in Hg, Hn. split_and!; [by eapply tok_ended|done..].
  - intros Hcl. rewrite Hcl in Hg, Hn. split_and!; [done..|by eapply tok_running].
  - by eapply tok_cancelling.
Qed.

(** ** Waiting for the end *)

(** What later states say about a completion. *)
Definition bound_to (ow : ManagedTunnelOwner) (id : str) (c : nat) (s : ManagedTunnelRegistry)
  : Prop :=
  (c < length (notifications s))%nat /\
  forall i r, tunnels s !! i = Some r -> mt_completion r = c ->
    i = id /\ mt_owner r = ow /\ ((1 <= rank (stage_of r))%nat \/ exhausted r).
Definition gone (c : nat) (s : ManagedTunnelRegistry) : Prop :=
  forall i r, tunnels s !! i = Some r -> mt_completion r <> c.

Lemma old_record s s' c i r :
  tunnels_advance s s' -> (c < length (notifications s))%nat ->
  tunnels s' !! i = Some r -> mt_completion r = c ->
  exists r0, tunnels s !! i = Some r0 /\ mt_completion r0 = c /\ lives_on r0 r.
Proof.
  intros Ha Hc Hr He. destruct (ta_records _ _ Ha _ _ Hr) as [(r0 & Hr0 & Hl)|Hge]; [|lia].
  exists r0. split; [done|]. split; [|done]. by rewrite <-(lo_completion _ _ Hl).
Qed.

Lemma bound_to_advance ow id c s s' : tunnels_advance s s' -> bound_to ow id c s -> bound_to ow id c s'.
Proof.
  intros Ha [Hc Hb]. split; [pose proof (ta_length _ _ Ha); lia|].
  intros i r Hr He. destruct (old_record _ _ _ _ _ Ha Hc Hr He) as (r0 & Hr0 & He0 & Hl).
  destruct (Hb _ _ Hr0 He0) as (-> & <- & Hrank). split; [done|]. split; [apply Hl|].
  destruct Hrank as [?|Hx]; [destruct (lo_stage _ _ Hl); [left; lia|by right]|right].
  eapply exhausted_mono; [..|exact Hx]; apply Hl.
Qed.

Lemma gone_advance c s s' :
  tunnels_advance s s' -> (c < length (notifications s))%nat -> gone c s -> gone c s'.
Proof.
  intros Ha Hc Hg i r Hr He. destruct (old_record _ _ _ _ _ Ha Hc Hr He) as (r0 & Hr0 & He0 & _).
  by apply (Hg i r0).
Qed.

Lemma bound_to_record ow id s r :
  tunnels_ok s -> tunnels s !! id = Some r -> mt_owner r = ow ->
  (1 <= rank (stage_of r))%nat -> bound_to ow id (mt_completion r) s.
Proof.
  intros Hs Hr Ho Hrank. split; [by eapply tok_completion|]. intros i x Hx He.
  assert (i = id) as -> by (by eapply (tok_distinct _ Hs)). split; [done|].
  replace x with r by congruence. auto.
Qed.

Section waiter.
Context (ow : ManagedTunnelOwner) (id : TunnelId) (ctx : option OperationContextId) (deadline : Z).

Lemma first_snapshot_inv now ids s s' res :
  tunnels_ok s -> iteration (tunnels s) ids -> first_snapshot ow id ctx now ids s = (s', res) ->
  tunnel_calls s s' /\
  forall st, res = Ok st -> exists r, tunnels s' !! id = Some r /\ mt_owner r = ow /\ mt_status r = st.
Proof.
  intros Hs Hit Hm.
  destruct (tunnel_snapshots ow (Some id) ctx false now ids s) as [t l] eqn:Hl.
  assert (tunnel_calls s t) as Hc.
  { replace t with (tunnel_snapshots ow (Some id) ctx false now ids s).1 by (by rewrite Hl).
    by apply rtc_once, tc_snapshots. }
  unfold first_snapshot, ebind in Hm. rewrite Hl in Hm.
  destruct l as [l|e]; [|injection Hm as <- <-; by split].
  injection Hm as <- <-. split; [done|]. intros st Hst. apply ok_or_ok in Hst.
  apply tunnel_snapshots_inv in Hl as (m & -> & Hitp & Hl & Hm); [|done].
  apply list_pruned_ok in Hl as [Hin _]; [|done].
  destruct l as [|x l]; [done|]. injection Hst as ->.
  destruct (proj1 (Hin st) ltac:(by left)) as (i & r & Hr & Hsel & ->).
  apply andb_true_iff in Hsel as [Ho Hi]. apply bool_decide_eq_true in Ho, Hi.
  apply pruned_lookup in Hr as Hr0. pose proof (tok_id _ Hs _ _ Hr0) as Hid. cbn in Ho, Hi.
  exists r. split; [|done]. replace id with i by congruence. change (m !! i = Some r).
  destruct (Hm i) as [->|(y & _ & _ & _ & _ & _ & He & _)]; [exact Hr|done].
Qed.

(** The registry part of every step is a call, or nothing. *)
Lemma wait_step_calls s pc s' pc' :
  tunnels_ok s -> wait_step ow id ctx deadline s pc s' pc' -> tunnel_calls s s'.
Proof.
  intros Hs Hw. revert Hs.
  destruct Hw as [now_ms s|c s|c e now ids s Hit|c e s He|c e now s He Hd|now now_ms s|now ids s Hit];
    intros Hs; try reflexivity.
  - apply rtc_once. replace (wait_request ow id ctx now_ms s).1
      with (request_cancel ow id ctx now_ms s).1; [apply tc_cancel|].
    unfold wait_request. by destruct (request_cancel _ _ _ _ s) as [t [[st c]|e]].
  - unfold wait_look. destruct (first_snapshot _ _ _ _ _ s) as [t res] eqn:Hm.
    apply first_snapshot_inv in Hm as [Hc _]; [|done..]. by destruct res.
  - apply rtc_once. replace (wait_expire ow id now now_ms s).1
      with (finish_worker ow id TunnelStageUnknown now now_ms s).1; [apply tc_finish|].
    unfold wait_expire. by destruct (finish_worker _ _ _ _ _ s) as [t [u|e]].
  - unfold wait_final. destruct (first_snapshot _ _ _ _ _ s) as [t res] eqn:Hm.
    by apply first_snapshot_inv in Hm as [Hc _].
Qed.

(** A status read from the tunnel, or from one registered under its id since. *)
Definition reported (s0 s : ManagedTunnelRegistry) (st : TunnelStatus) : Prop :=
  exists s1 r, tunnel_calls s0 s1 /\ tunnel_calls s1 s /\ tunnels s1 !! id = Some r /\
    mt_owner r = ow /\ mt_status r = st /\
    (terminal (status_stage st) = true \/ (length (notifications s0) <= mt_completion r)%nat).

Definition wait_inv (s0 s : ManagedTunnelRegistry) (pc : wait_pc) : Prop :=
  match pc with
  | WRequest | WExpired | WDone (Err _) => True
  | WLoop c => bound_to ow id c s
  | WLook c e => bound_to ow id c s /\ (e <= notified c s)%nat
  | WSleep c e => bound_to ow id c s /\ (e <= notified c s)%nat /\ (e = 0%nat \/ gone c s)
  | WFinal => forall r, tunnels s !! id = Some r ->
      closed r = true \/ (length (notifications s0) <= mt_completion r)%nat
  | WDone (Ok st) => reported s0 s st
  end.

(** An upper bound on the steps still to come. *)
Definition cost (s : ManagedTunnelRegistry) (pc : wait_pc) : nat :=
  match pc with
  | WRequest => 9
  | WLoop c => if decide (notified c s = 0%nat) then 8 else 5
  | WLook _ e => if decide (e = 0%nat) then 7 else 4
  | WSleep _ e => if decide (e = 0%nat) then 6 else 3
  | WExpired => 2
  | WFinal => 1
  | WDone _ => 0
  end.

Lemma wait_inv_call s0 s s' pc :
  tunnels_ok s -> tunnels_advance s0 s -> tunnel_calls s s' -> wait_inv s0 s pc ->
  wait_inv s0 s' pc /\ (cost s' pc <= cost s pc)%nat.
Proof.
  intros Hs H0s Hc Hw. destruct (tunnel_calls_effect _ _ Hc Hs) as [Hs' Ha].
  pose proof (ta_notified _ _ Ha) as Hn. pose proof (ta_length _ _ H0s) as Hlen.
  destruct pc as [|c|c e|c e| | |[st|err]]; cbn in *; try (split; [done|lia]).
  - split; [by eapply bound_to_advance|]. specialize (Hn c). repeat destruct (decide _); lia.
  - split; [|lia]. destruct Hw as [Hb He]. split; [by eapply bound_to_advance|].
    specialize (Hn c). lia.
  - split; [|lia]. destruct Hw as (Hb & He & Hg). split; [by eapply bound_to_advance|].
    split; [specialize (Hn c); lia|]. destruct Hg as [?|Hg]; [by left|right].
    eapply gone_advance; [done|apply Hb|done].
  - split; [|lia]. intros r' Hr'. destruct (ta_records _ _ Ha _ _ Hr') as [(r & Hr & Hl)|Hge].
    + destruct (Hw r Hr) as [Hcl|?]; [left|right; by rewrite (lo_completion _ _ Hl)].
      destruct (lo_final _ _ Hl Hcl) as (_ & Hf & _). unfold is_finished in *. cbn in *. by rewrite Hf.
    + right. lia.
  - split; [|lia]. destruct Hw as (s1 & r & H1' & H2' & Hr). exists s1, r. split; [done|].
    split; [by etrans|done].
Qed.

Lemma finish_worker_final stage now now_ms s s' :
  tunnels_ok s -> finish_worker ow id stage now now_ms s = (s', Ok tt) ->
  forall r, tunnels s' !! id = Some r -> closed r = true.
Proof.
  intros Hs Hm. apply finish_worker_inv in Hm as [(He & _)|
    (r & Hr & Ho & Hst & [(Hcl & _ & ->)|(Hcl & [(He & _)|(_ & Hu & ->)])])]; try done.
  - intros x Hx. cbn in *. congruence.
  - intros x Hx. eapply lookup_weaken in Hx; [|apply (enforce_subseteq _ _ ow)].
    apply lookup_put in Hx as [[_ ->]|[? _]]; done.
Qed.

Lemma wait_inv_step s0 s pc s' pc' :
  tunnels_ok s -> tunnel_calls s0 s -> tunnels_advance s0 s -> wait_inv s0 s pc ->
  wait_step ow id ctx deadline s pc s' pc' ->
  wait_inv s0 s' pc' /\ (cost s' pc' < cost s pc)%nat.
Proof.
  intros Hs H0s H0a Hw Hst. pose proof (wait_step_calls _ _ _ _ Hs Hst) as Hcalls.
  destruct (tunnel_calls_effect _ _ Hcalls Hs) as [Hs' Ha]. revert Hs H0s H0a Hw Hcalls Hs' Ha.
  destruct Hst as [now_ms s|c s|c e now ids s Hit|c e s He|c e now s He Hd|now now_ms s|now ids s Hit];
    intros Hs H0s H0a Hw Hcalls Hs' Ha.
  - unfold wait_request in *. destruct (request_cancel _ _ _ _ s) as [t [[st c]|e]] eqn:Hm;
      cbn in *; [|split; [done|lia]].
    apply request_cancel_inv in Hm as [(He & _)|
      (r & Hr & Ho & _ & [([= -> ->] & -> & Hst)|(Hcl & Hst & [(He & _)|([= -> ->] & _ & ->)])])]; try done.
    + destruct (terminal _) eqn:Ht; cbn; [split; [|lia]|].
      * exists s, r. split; [done|]. split; [reflexivity|]. auto.
      * split; [|destruct (decide _); lia]. apply bound_to_record; [done..|].
        destruct Hst as [Hcl|Hst]; [|by rewrite Hst].
        by rewrite (tok_ended _ Hs _ _ Hr Hcl) in Ht.
    + cbn. split; [|destruct (decide _); lia]. set (r' := staged _ _ _ _) in *.
      apply (bound_to_record ow id _ r'); [done|apply lookup_insert_eq|done|cbn; lia].
  - cbn in *. split; [by split|]. repeat destruct (decide _); lia.
  - unfold wait_look in *. destruct (first_snapshot _ _ _ _ _ s) as [t [st|err]] eqn:Hm; cbn in *;
      [|split; [done|destruct (decide _); lia]].
    apply first_snapshot_inv in Hm as [_ Hm]; [|done..].
    destruct (Hm _ eq_refl) as (r & Hr & Ho & <-). destruct Hw as [Hb Hle].
    destruct (terminal _) eqn:Ht; cbn.
    + split; [|destruct (decide _); lia]. exists t, r. split; [by etrans|]. split; [reflexivity|]. auto.
    + split; [|destruct (decide _); lia]. split; [by eapply bound_to_advance|].
      split; [pose proof (ta_notified _ _ Ha c); lia|].
      destruct (decide (e = 0%nat)) as [?|He]; [by left|right].
      intros i x Hx Hc. pose proof (bound_to_advance _ _ _ _ _ Ha Hb) as [_ Hb'].
      destruct (Hb' _ _ Hx Hc) as (-> & _). assert (x = r) as -> by (enough (Some x = Some r) by congruence; rewrite <-Hx; exact Hr).
      pose proof (tok_notified _ Hs' _ _ Hr) as Hnot. rewrite Hc in Hnot.
      pose proof (ta_notified _ _ Ha c). destruct (closed r) eqn:Hcl; [|lia].
      pose proof (tok_ended _ Hs' _ _ Hr Hcl). congruence.
  - cbn in *. destruct Hw as (Hb & _ & _). pose proof (tok_once _ Hs c). split; [done|].
    repeat destruct (decide _); lia.
  - cbn in *. split; [done|]. destruct (decide _); lia.
  - unfold wait_expire in *. destruct (finish_worker _ _ _ _ _ s) as [t [[]|e]] eqn:Hm;
      cbn [fst snd wait_inv cost] in *; [|split; [done|lia]]. split; [|lia]. intros r Hr. left. eapply finish_worker_final; [exact Hs|exact Hm|exact Hr].
  - unfold wait_final in *. destruct (first_snapshot _ _ _ _ _ s) as [t [st|err]] eqn:Hm; cbn in *;
      [|split; [done|lia]]. split; [|lia].
    apply first_snapshot_inv in Hm as [_ Hm]; [|done..].
    destruct (Hm _ eq_refl) as (r & Hr & Ho & <-). exists t, r. split; [by etrans|].
    split; [reflexivity|]. split; [done|]. split; [done|]. split; [done|].
    destruct (proj1 (wait_inv_call s0 s t WFinal Hs H0a Hcalls Hw) r Hr) as [Hcl|?]; [left|by right].
    by eapply tok_ended.
Qed.

Lemma waiting_inv n s0 s pc :
  tunnels_ok s0 -> waiting ow id ctx deadline s0 n s pc ->
  tunnels_ok s /\ tunnels_advance s0 s /\ tunnel_calls s0 s /\ wait_inv s0 s pc /\
  (n + cost s pc <= 9)%nat.
Proof.
  intros H0s Hw. induction Hw as [|n s s' pc Hw (Hs & Ha & Hc & Hi & Hn) Hcall
                                  |n s pc s' pc' Hw (Hs & Ha & Hc & Hi & Hn) Hstep].
  - split_and!; done.
  - apply rtc_once in Hcall. destruct (tunnel_calls_effect _ _ Hcall Hs) as [Hs' Ha'].
    destruct (wait_inv_call s0 s s' pc Hs Ha Hcall Hi) as [Hi' Hn'].
    split_and!; [done|by etrans|by etrans|done|lia].
  - pose proof (wait_step_calls _ _ _ _ Hs Hstep) as Hcall.
    destruct (tunnel_calls_effect _ _ Hcall Hs) as [Hs' Ha'].
    destruct (wait_inv_step s0 s pc s' pc' Hs Hc Ha Hi Hstep) as [Hi' Hn'].
    split_and!; [done|by etrans|by etrans|done|lia].
Qed.

Lemma iteration_exists (m : gmap str ManagedTunnelRecord) : exists ids, iteration m ids.
Proof.
  exists (map_to_list m).*1. split; [apply NoDup_fst_map_to_list|].
  intros i [r Hr]. apply list_elem_of_fmap. exists (i, r). split; [done|]. by apply elem_of_map_to_list.
Qed.

Lemma wait_step_exists s pc :
  match pc with WDone _ => True | _ => exists s' pc', wait_step ow id ctx deadline s pc s' pc' end.
Proof.
  destruct (iteration_exists (tunnels s)) as [ids Hids].
  destruct pc as [|c|c e|c e| | |r]; try done.
  - eexists _, _. by apply (ws_request _ _ _ _ 0).
  - eexists _, _. apply ws_arm.
  - eexists _, _. by apply (ws_look _ _ _ _ _ _ 0 ids).
  - destruct (decide (e < notified c s)%nat); eexists _, _; [by apply ws_wake|].
    apply (ws_timeout _ _ _ _ _ _ deadline); lia.
  - eexists _, _. by apply (ws_expire _ _ _ _ 0 0).
  - eexists _, _. by apply (ws_final _ _ _ _ 0 ids).
Qed.
End waiter.

(** C25: Cancelling a tunnel and waiting for its end terminates, whatever other
    callers do: it takes at most nine steps of its own, each of which is
    possible at the latest when the deadline has passed.  While it sleeps the
    tunnel has been asked to stop, and its end wakes it: no notification is
    lost. *)
Theorem cancellation_terminates ow id ctx deadline s0 n s pc :
  tunnel_calls tunnels_default s0 -> waiting ow id ctx deadline s0 n s pc ->
  (n <= 9)%nat /\
  match pc with
  | WDone _ => True
  | _ => exists s' pc', wait_step ow id ctx deadline s pc s' pc'
  end /\
  (forall c e i r, pc = WSleep c e -> tunnels s !! i = Some r -> mt_completion r = c ->
     (closed r = true -> wait_step ow id ctx deadline s pc s (WLoop c)) /\
     (closed r = false -> mt_cancellation r ∈ cancelled_tokens s \/ exhausted r)).
Proof.
  intros H0s%reachable_tunnels Hw. apply waiting_inv in Hw as (Hs & _ & _ & Hi & Hn); [|done].
  split; [lia|]. split; [apply wait_step_exists|].
  intros c e i r -> Hr Hc. destruct Hi as ([_ Hb] & He & Hg). split.
  - intros Hcl. apply ws_wake. destruct Hg as [->|Hg]; [|by destruct (Hg _ _ Hr)].
    pose proof (tok_notified _ Hs _ _ Hr) as Hnot. rewrite Hc, Hcl in Hnot. lia.
  - intros Hcl. destruct (Hb _ _ Hr Hc) as (_ & _ & [Hrank|?]); [|by right].
    destruct (tok_running _ Hs _ _ Hr Hcl) as [Ht|?]; [|by right].
    apply (tok_cancelling _ Hs _ _ Hr). destruct (stage_of r); cbn in *; (done || lia).
Qed.

(** When it reports a status, that status was read from the caller's own
    tunnel and says that it is closed or unknown, unless another tunnel was
    registered under the same id in the meantime. *)
Theorem cancellation_reports_the_end ow id ctx deadline s0 n s st :
  tunnel_calls tunnels_default s0 -> waiting ow id ctx deadline s0 n s (WDone (Ok st)) ->
  exists s1 r, tunnel_calls s0 s1 /\ tunnel_calls s1 s /\ tunnels s1 !! id = Some r /\
    mt_owner r = ow /\ mt_status r = st /\
    (terminal (status_stage st) = true \/ (length (notifications s0) <= mt_completion r)%nat).
Proof.
  intros H0s%reachable_tunnels Hw. by apply waiting_inv in Hw as (_ & _ & _ & Hi & _).
Qed.

(** ** Shutting down *)

(** The tunnel of record [r] is not running any more, as far as counters last. *)
Definition settled (id : str) (r : ManagedTunnelRecord) (s : ManagedTunnelRegistry) : Prop :=
  forall r', tunnels s !! id = Some r' -> mt_completion r' = mt_completion r ->
    closed r' = true \/ exhausted r' \/ USIZE_MAX <= next_order s.

Lemma settled_advance id r s s' :
  tunnels_advance s s' -> (mt_completion r < length (notifications s))%nat ->
  settled id r s -> settled id r s'.
Proof.
  intros Ha Hc Hs r' Hr' He. destruct (old_record _ _ _ _ _ Ha Hc Hr' He) as (r0 & Hr0 & He0 & Hl).
  destruct (Hs _ Hr0 He0) as [Hcl|[Hx|Ho]].
  - left. destruct (lo_final _ _ Hl Hcl) as (_ & Hf & _). unfold is_finished in *. cbn in *. by rewrite Hf.
  - right; left. eapply exhausted_mono; [..|exact Hx]; apply Hl.
  - right; right. pose proof (ta_order _ _ Ha). lia.
Qed.

Lemma reported_settled ow id r s0 s st :
  tunnels_ok s0 -> (mt_completion r < length (notifications s0))%nat ->
  reported ow id s0 s st -> settled id r s.
Proof.
  intros Hs0 Hc (s1 & r1 & H01 & H1s & Hr1 & _ & <- & Hend).
  destruct (tunnel_calls_effect _ _ H01 Hs0) as [Hs1 Ha1].
  destruct (tunnel_calls_effect _ _ H1s Hs1) as [_ Ha].
  pose proof (ta_length _ _ Ha1). apply (settled_advance _ _ _ _ Ha); [lia|].
  intros r' Hr' He. pose proof (eq_trans (eq_sym Hr1) Hr') as [= <-].
  destruct Hend as [Hend|?]; [|lia]. destruct (closed r1) eqn:Hcl; [by left|right; left].
  destruct (tok_running _ Hs1 _ _ Hr1 Hcl); [congruence|done].
Qed.

Lemma finish_settles r id now now_ms s s' res :
  tunnels_ok s ->
  (forall r', tunnels s !! id = Some r' -> mt_completion r' = mt_completion r -> mt_owner r' = mt_owner r) ->
  finish_worker (mt_owner r) id TunnelStageUnknown now now_ms s = (s', res) -> settled id r s'.
Proof.
  intros Hs Hown Hm. destruct res as [[]|e].
  { intros r' Hr' _. left. eapply finish_worker_final; [exact Hs|exact Hm|exact Hr']. }
  apply finish_worker_inv in Hm as [(_ & [(_ & Hst)|[(-> & Hord)|(-> & Hne)]])|
    (x & Hx & _ & _ & [(_ & Hres & _)|(_ & [(_ & Hexh & ->)|(Hres & _)])])]; try done.
  - intros r' _ _. right; right. exact Hord.
  - intros r' Hr' He. exfalso. apply (Hne r' Hr'), Hown; [exact (pruned_lookup now s id r' Hr')|done].
  - intros r' [[_ ->]|[? _]]%lookup_put _; [|done]. right; left. by destruct Hexh.
Qed.

Definition jobs_of (pc : shutdown_pc) : list job :=
  match pc with
  | SWait j _ rest | SFinish j rest => j :: rest
  | SMark | SDone => []
  end.

Lemma jobs_next rest : jobs_of (next_job rest) = rest.
Proof. by destruct rest. Qed.

Definition shutdown_inv (deadline : Z) (s0 s : ManagedTunnelRegistry) (pc : shutdown_pc) : Prop :=
  match pc with
  | SMark => True
  | _ => forall id r, tunnels s0 !! id = Some r -> closed r = false ->
           settled id r s \/ (mt_owner r, id, context_of r) ∈ jobs_of pc
  end /\
  match pc with
  | SWait (ow, id, ctx) wpc _ => exists sw n,
      tunnels_ok sw /\ tunnels_advance s0 sw /\ waiting ow id ctx deadline sw n s wpc
  | _ => True
  end.

Lemma shutdown_next deadline s0 s rest :
  tunnels_ok s -> tunnels_advance s0 s ->
  (forall id r, tunnels s0 !! id = Some r -> closed r = false ->
     settled id r s \/ (mt_owner r, id, context_of r) ∈ rest) ->
  shutdown_inv deadline s0 s (next_job rest).
Proof.
  intros Hs Ha Hall. split.
  - destruct rest; cbn; intros id r Hr Hc; by apply Hall.
  - destruct rest as [|[[ow id] ctx] rest]; [done|]. exists s, 0%nat. split_and!; [done..|constructor].
Qed.

Lemma shutdown_calls deadline s pc s' pc' :
  tunnels_ok s -> shutdown_step deadline s pc s' pc' -> tunnel_calls s s'.
Proof.
  intros Hs Hst. destruct Hst as [clock now ids s Hit|ow id ctx pc rest s s' pc' Hw|j st rest s
                                 |j e rest s|ow id ctx rest now now_ms s]; try reflexivity.
  - by apply rtc_once, tc_mark.
  - by eapply wait_step_calls.
  - apply rtc_once, tc_finish.
Qed.

Lemma shutdown_inv_call deadline s0 s s' pc :
  tunnels_ok s0 -> tunnels_ok s -> tunnels_advance s0 s -> tunnel_call s s' ->
  shutdown_inv deadline s0 s pc -> shutdown_inv deadline s0 s' pc.
Proof.
  intros Hs0 Hs Ha Hc [Hall Hw]. destruct (tunnel_call_effect _ _ Hc Hs) as [_ Ha'].
  assert (forall l : list job, (forall id r, tunnels s0 !! id = Some r -> closed r = false ->
            settled id r s \/ (mt_owner r, id, context_of r) ∈ l) ->
          forall id r, tunnels s0 !! id = Some r -> closed r = false ->
            settled id r s' \/ (mt_owner r, id, context_of r) ∈ l) as Hmono.
  { intros l Hl id r Hr Hcl. destruct (Hl _ _ Hr Hcl) as [Hset|?]; [left|by right].
    eapply settled_advance; [exact Ha'| |exact Hset].
    pose proof (tok_completion _ Hs0 _ _ Hr). pose proof (ta_length _ _ Ha). lia. }
  split; [destruct pc; cbn in *; try done; by apply Hmono|].
  destruct pc as [|[[ow id] ctx] wpc rest|j rest|]; [done| |done..].
  destruct Hw as (sw & n & ? & ? & Hw). exists sw, n. split_and!; [done..|by eapply wt_others].
Qed.

Lemma shutdown_marks deadline s0 s clock now ids :
  tunnels_ok s0 -> tunnels_ok s -> tunnels_advance s0 s -> iteration (tunnels s) ids ->
  shutdown_inv deadline s0 (shutdown_mark clock now ids s).1
    (next_job (shutdown_mark clock now ids s).2).
Proof.
  intros Hs0 Hs Ha [_ Hids]. unfold shutdown_mark.
  destruct (effect_tunnel_prune now s Hs) as [Hp Hap].
  destruct (mark_running clock ids _) as [t jobs] eqn:Hm. cbn [fst snd].
  destruct (mark_running_spec _ _ _ _ _ Hp Hm) as [[Ht Hat] Hjobs].
  assert (tunnels_advance s t) as Hst by (by etrans).
  apply shutdown_next; [done|by etrans|]. intros id r Hr Hcl.
  pose proof (tok_completion _ Hs0 _ _ Hr) as Hc. pose proof (ta_length _ _ Ha) as Hlen.
  assert ((exists x, tunnels s !! id = Some x /\ mt_completion x = mt_completion r /\
    closed x = false) \/ settled id r s) as [(x & Hx & He & Hxc)|Hset].
  { destruct (tunnels s !! id) as [x|] eqn:Hx; [|right; intros x Hx'; by rewrite Hx in Hx'].
    destruct (decide (mt_completion x = mt_completion r)); [|right; intros y Hy; naive_solver].
    destruct (closed x) eqn:Hxc; [right; intros y Hy _; left; naive_solver|left; eauto]. }
  - right. destruct (old_record _ _ _ _ _ Ha Hc Hx He) as (r0 & Hr0 & _ & Hl).
    replace r0 with r in Hl by congruence. rewrite <-(lo_owner _ _ Hl), <-(lo_context _ _ Hl).
    apply Hjobs; [apply Hids; by exists x|by apply open_pruned|done].
  - left. apply (settled_advance _ _ s); [done|lia|done].
Qed.

Lemma shutdown_inv_step deadline s0 s pc s' pc' :
  tunnels_ok s0 -> tunnels_ok s -> tunnels_advance s0 s ->
  shutdown_step deadline s pc s' pc' -> shutdown_inv deadline s0 s pc ->
  shutdown_inv deadline s0 s' pc'.
Proof.
  intros Hs0 Hs Ha Hst. pose proof (shutdown_calls _ _ _ _ _ Hs Hst) as Hcalls.
  destruct (tunnel_calls_effect _ _ Hcalls Hs) as [Hs' Ha']. revert Hs Ha Hcalls Hs' Ha'.
  assert (forall id r, tunnels s0 !! id = Some r -> forall s, tunnels_advance s0 s ->
    (mt_completion r < length (notifications s))%nat) as Hlen.
  { intros id r Hr t Ha0. pose proof (tok_completion _ Hs0 _ _ Hr).
    pose proof (ta_length _ _ Ha0). lia. }
  destruct Hst as [clock now ids s Hit|ow id ctx pc rest s s' pc' Hw|j st rest s
                  |j e rest s|ow id ctx rest now now_ms s]; intros Hs Ha Hcalls Hs' Ha' [Hall Hwait].
  - by apply shutdown_marks.
  - split.
    + intros i r Hr Hcl. destruct (Hall i r Hr Hcl) as [Hset|?]; [left|by right].
      eapply settled_advance; [exact Ha'|by eapply Hlen|done].
    + destruct Hwait as (sw & n & ? & ? & Hwt). exists sw, (S n). split_and!; [done..|by eapply wt_own].
  - destruct j as [[ow id] ctx]. apply shutdown_next; [done..|].
    destruct Hwait as (sw & n & Hsw & Hasw & Hwt).
    apply waiting_inv in Hwt as (_ & _ & _ & Hrep & _); [|done].
    intros i r Hr Hcl. destruct (Hall i r Hr Hcl) as [?|[Hj|?]%elem_of_cons]; auto.
    left. injection Hj as <- <- <-. eapply reported_settled; [exact Hsw|by eapply Hlen|exact Hrep].
  - split; [exact Hall|done].
  - apply shutdown_next; [done|by etrans|]. intros i r Hr Hcl.
    destruct (Hall i r Hr Hcl) as [Hset|[Hj|?]%elem_of_cons]; auto; left.
    + eapply settled_advance; [exact Ha'|by eapply Hlen|done].
    + injection Hj as <- <- <-.
      destruct (finish_worker _ _ _ _ _ s) as [t res] eqn:Hm. eapply finish_settles; [exact Hs| |exact Hm].
      intros r' Hr' He. destruct (old_record _ _ _ _ _ Ha (tok_completion _ Hs0 _ _ Hr) Hr' He)
        as (r0 & Hr0 & _ & Hl). replace r with r0 by congruence. apply Hl.
Qed.

(** C27: When a shutdown of all tunnels has gone through, every tunnel that was
    running when it was called is finished or forgotten, whatever other callers
    did meanwhile (unless one of the 64-bit counters is used up); and until
    then the shutdown can always take a step once its deadline has passed. *)
Theorem shutdown_ends_all_tunnels deadline s0 s pc :
  tunnel_calls tunnels_default s0 -> shutting_down deadline s0 s pc ->
  (pc = SDone -> forall id r, tunnels s0 !! id = Some r -> closed r = false ->
     forall r', tunnels s !! id = Some r' -> mt_completion r' = mt_completion r ->
       closed r' = true \/ exhausted r' \/ USIZE_MAX <= next_order s) /\
  (pc <> SDone -> exists s' pc', shutdown_step deadline s pc s' pc').
Proof.
  intros Hs0%reachable_tunnels Hsd.
  assert (tunnels_ok s /\ tunnels_advance s0 s /\ shutdown_inv deadline s0 s pc) as (Hs & Ha & Hall & _).
  { induction Hsd as [|s s' pc Hsd (Hs & Ha & Hi) Hcall|s pc s' pc' Hsd (Hs & Ha & Hi) Hstep].
    - split; [done|]. split; [done|by split].
    - destruct (tunnel_call_effect _ _ Hcall Hs) as [Hs' Ha'].
      split; [done|]. split; [by etrans|exact (shutdown_inv_call _ _ _ _ _ Hs0 Hs Ha Hcall Hi)].
    - destruct (tunnel_calls_effect _ _ (shutdown_calls _ _ _ _ _ Hs Hstep) Hs) as [Hs' Ha'].
      split; [done|]. split; [by etrans|exact (shutdown_inv_step _ _ _ _ _ _ Hs0 Hs Ha Hstep Hi)]. }
  split.
  - intros -> id r Hr Hcl. destruct (Hall id r Hr Hcl) as [Hset|Hin]; [exact Hset|].
    by apply elem_of_nil in Hin.
  - intros Hne. destruct (iteration_exists (tunnels s)) as [ids Hids].
    destruct pc as [|[[ow id] ctx] wpc rest|[[ow id] ctx] rest|]; [..|done].
    + eexists _, _. by apply (sd_mark _ (fun _ => 0) 0 ids).
    + pose proof (wait_step_exists ow id ctx deadline s wpc) as Hw.
      destruct wpc as [| | | | | |[st|e]]; try (destruct Hw as (s' & pc' & Hw);
        eexists _, _; by apply sd_wait).
      * eexists _, _. apply sd_waited.
      * eexists _, _. apply sd_failed.
    + eexists _, _. apply (sd_finish _ _ _ _ _ 0 0).
Qed.
End properties.

(** ** Opening and cancelling *)
Section opening.
Context `{Hex}.

(** The status made for a tunnel that came up is one the registry accepts. *)
Lemma managed_tunnel_status_registers ow id spec ready deadline ctx now_ms st token entry now s :
  managed_tunnel_status ow id spec ready deadline ctx now_ms = Ok st ->
  let p := tunnels_pruned now s in
  tunnels p !! id = None ->
  count (open None) (tunnels p) < MAX_ACTIVE_MANAGED_TUNNELS_GLOBAL ->
  count (open (Some ow)) (tunnels p) < MAX_ACTIVE_MANAGED_TUNNELS_PER_PROFILE ->
  begin_tunnel ow st token entry now (idle_take s) =
    (opened ow st token entry p, Ok (length (notifications s))).
Proof.
  intros Hst p Hn Hg Ho.
  assert (tunnel_status_validate st = Ok tt /\ status_profile_id st = hex_encode (mo_profile_id ow) /\
    status_profile_generation st = mo_generation ow /\ status_stage st = TunnelStageReady /\
    status_tunnel_id st = id) as (Hv & Hid & Hgen & Hstage & Hkey).
  { unfold managed_tunnel_status in Hst. destruct (bool_decide _); [|done]. cbn [ensure] in Hst.
    destruct (tunnel_status_validate _) as [[]|e] eqn:Hv; [|done]. by injection Hst as <-. }
  destruct (begin_tunnel ow st token entry now (idle_take s)) as [s' res] eqn:Hm.
  apply begin_tunnel_inv in Hm as Hc. destruct Hc as [[He _]|(_ & _ & _ & _ & _ & _ & _ & -> & ->)]; [|done].
  exfalso. unfold begin_tunnel, dropping_guard, ebind, elift, emodify, eget, eret in Hm.
  rewrite Hv, Hid, Hgen, Hstage, !bool_decide_true, Z.eqb_refl in Hm by done. cbn [andb ensure] in Hm.
  rewrite removing_take in Hm. fold (tunnels_pruned now s) in Hm. fold p in Hm.
  change (tunnels (idle_take p)) with (tunnels p) in Hm. apply Z.ltb_lt in Hg, Ho.
  rewrite Hg, Ho in Hm. cbn [ensure] in Hm. rewrite Hkey, Hn in Hm.
  cbn in Hm. injection Hm as <- <-. done.
Qed.

(** A context-bound tunnel is cancelled only by naming its context. *)
Lemma cancel_needs_the_context ow id ctx now_ms s r c :
  tunnels s !! id = Some r -> context_of r = Some c -> ctx <> Some c ->
  exists e, request_cancel ow id ctx now_ms s = (s, Err e).
Proof.
  intros Hr Hc Hne. destruct (request_cancel ow id ctx now_ms s) as [s' [x|e]] eqn:Hm;
    apply request_cancel_inv in Hm as [[He ->]|(r' & Hr' & _ & Hctx & _)]; eauto; try done;
    (exfalso; apply Hne, Hctx; congruence).
Qed.

(** A tunnel whose revision is used up cannot be cancelled: the refused request
    leaves it marked as being cancelled, so that the next one succeeds without
    setting the token. *)
Lemma exhausted_cancel_is_lost ow (id : TunnelId) c now_ms s r :
  tunnels s !! id = Some r -> mt_owner r = ow -> context_of r = Some c -> closed r = false ->
  stage_of r = TunnelStageReady -> revision_of r = U64_MAX ->
  let s1 := put_tunnel id (staged r Cancelling now_ms U64_MAX) s in
  request_cancel ow id (Some c) now_ms s = (s1, Err "managed tunnel revision is exhausted") /\
  cancelled_tokens s1 = cancelled_tokens s /\
  exists st, request_cancel ow id (Some c) now_ms s1 = (s1, Ok st).
Proof.
  intros Hr Ho Hc Hcl Hst Hrev s1. split; [|split; [done|]].
  - unfold request_cancel, ebind, eget, elift, emodify, eret. rewrite Hr. cbn [ok_or].
    rewrite bool_decide_true by exact Ho. rewrite Hc. cbn [ensure]. rewrite bool_decide_true by done.
    rewrite Hcl, Hst. cbn [negb andb]. rewrite bool_decide_false by done. cbn [negb ensure].
    unfold bump_revision. cbn -[checked_add U64_MAX put_tunnel]. rewrite Hc, Hrev. cbn [is_some].
    assert (checked_add U64_MAX U64_MAX 1 = None) as -> by reflexivity.
    cbn [ok_or]. unfold s1. by rewrite <-Hrev.
  - eexists. unfold request_cancel, ebind, eget, elift, eret.
    assert (tunnels s1 !! id = Some (staged r Cancelling now_ms U64_MAX)) as -> by apply lookup_insert_eq.
    cbn [ok_or]. rewrite bool_decide_true by exact Ho. cbn -[s1]. rewrite Hc.
    rewrite bool_decide_true by done. cbn -[s1].
    rewrite andb_false_r. reflexivity.
Qed.
End opening.

(** ** Runs *)
Module TunnelRuns.
Import StandIn.

#[local] Instance status_json : Json Frame := {|
  to_vec f := match f with
              | ManagedTunnelStatusInfo l => Some (concat (status_tunnel_id <$> l))
              | _ => Some []
              end;
  from_slice _ := None;
|}.
#[local] Instance status_writer : JsonWriter Frame := fun f =>
  match f with ManagedTunnelStatusInfo l => Some (status_tunnel_id <$> l) | _ => Some [] end.

Definition alice : ManagedTunnelOwner :=
  {| mo_profile_id := rs "sixteen bytes id"; mo_generation := 3 |}.
Definition tunnel : TunnelId := concat (replicate 16 (rs "ab")).
Definition ctx : OperationContextId := rs "context".
Definition spec : TunnelSpec :=
  {| spec_mode := Local_; spec_bind_port := 0; spec_target_port := 80; spec_max_connections := 4 |}.
Definition ready : TunnelReady :=
  {| ready_mode := Local_; ready_bind_host := rs "127.0.0.1"; ready_bind_port := 4000 |}.
Definition status : TunnelStatus :=
  {| status_schema_version := TUNNEL_STATUS_SCHEMA_VERSION; status_tunnel_id := tunnel;
     status_profile_id := hex_encode (mo_profile_id alice); status_profile_generation := 3;
     status_mode := Local_; status_bind_host := rs "127.0.0.1"; status_bind_port := 4000;
     status_target_host := Some (rs "127.0.0.1"); status_target_port := 80;
     status_deadline_unix_ms := 1000; status_stage := TunnelStageReady;
     status_updated_unix_ms := 5; status_context_id := Some ctx; status_revision := 1 |}.

Lemma status_made : managed_tunnel_status alice tunnel spec ready 1000 (Some ctx) 5 = Ok status.
Proof. by vm_compute. Qed.

Definition up : ManagedTunnelRegistry := (begin_tunnel alice status 0 None 1 (idle_take tunnels_default)).1.

Lemma up_reachable : tunnel_calls tunnels_default up.
Proof. apply rtc_once, tc_begin. by vm_compute. Qed.

Lemma up_running : count (open None) (tunnels up) = 1.
Proof. by vm_compute. Qed.

(** The owner cancels and sleeps; the worker ends the tunnel; the owner wakes. *)
Definition stopping : ManagedTunnelRegistry := (wait_request alice tunnel (Some ctx) 6 up).1.
Definition looked : ManagedTunnelRegistry := (wait_look alice tunnel (Some ctx) 0 0 7 [tunnel] stopping).1.
Definition stopped : ManagedTunnelRegistry := (finish_worker alice tunnel Closed 8 8 looked).1.
Definition told : ManagedTunnelRegistry := (wait_look alice tunnel (Some ctx) 0 1 9 [tunnel] stopped).1.

Definition deadline : Z := 100.

Lemma iterated s : bool_decide (dom (tunnels s) = {[tunnel]}) = true -> iteration (tunnels s) [tunnel].
Proof.
  intros Hd%bool_decide_eq_true. split; [apply NoDup_singleton|].
  intros i Hi%elem_of_dom. rewrite Hd in Hi. apply elem_of_singleton in Hi as ->. by left.
Qed.

Lemma asleep : waiting alice tunnel (Some ctx) deadline up 3 looked (WSleep 0 0).
Proof.
  eapply wt_own; [eapply wt_own; [eapply wt_own; [apply wt_start|]|]|].
  - replace (WLoop 0) with (wait_request alice tunnel (Some ctx) 6 up).2 by (by vm_compute).
    apply (ws_request _ _ _ _ 6).
  - replace (WLook 0 0) with (WLook 0 (notified 0 stopping)) by (by vm_compute). apply ws_arm.
  - replace (WSleep 0 0) with (wait_look alice tunnel (Some ctx) 0 0 7 [tunnel] stopping).2
      by (by vm_compute).
    apply ws_look. apply iterated. by vm_compute.
Qed.

Lemma asleep_stopped : waiting alice tunnel (Some ctx) deadline up 3 stopped (WSleep 0 0).
Proof. eapply wt_others; [exact asleep|]. unfold stopped. apply tc_finish. Qed.

Lemma notified_stopped : notified 0 stopped = 1%nat.
Proof. by vm_compute. Qed.

Lemma woken : waiting alice tunnel (Some ctx) deadline up 5 stopped (WLook 0 1).
Proof.
  apply (wt_own _ _ _ _ _ 4 stopped (WLoop 0)).
  - apply (wt_own _ _ _ _ _ 3 stopped (WSleep 0 0)); [exact asleep_stopped|].
    apply ws_wake. rewrite notified_stopped. lia.
  - rewrite <-notified_stopped. apply ws_arm.
Qed.

Definition final : TunnelStatus := at_revision (at_stage status Closed 8) 3.

Lemma done_waiting : waiting alice tunnel (Some ctx) deadline up 6 told (WDone (Ok final)).
Proof.
  apply (wt_own _ _ _ _ _ 5 stopped (WLook 0 1)); [exact woken|].
  replace (WDone (Ok final)) with (wait_look alice tunnel (Some ctx) 0 1 9 [tunnel] stopped).2
    by (by vm_compute).
  apply ws_look. apply iterated. by vm_compute.
Qed.

Lemma tunnels_are_bounded_witness :
  tunnel_calls tunnels_default up /\ count (open None) (tunnels up) = 1 /\ idle_work up = 1.
Proof.
  split; [exact up_reachable|]. split; [exact up_running|].
  destruct (tunnels_are_bounded up up_reachable) as (_ & _ & _ & Hidle).
  rewrite Hidle. exact up_running.
Defined.

Lemma calls_to_stopped : tunnel_calls up stopped.
Proof.
  destruct (waiting_inv alice tunnel (Some ctx) deadline 3 up stopped (WSleep 0 0)) as (_ & _ & Hc & _);
    [exact (reachable_tunnels _ up_reachable)|exact asleep_stopped|exact Hc].
Qed.

Lemma tunnels_live_and_end_witness :
  (exists r, tunnels up !! tunnel = Some r /\ stage_of r = TunnelStageReady) /\
  (exists r, tunnels stopped !! tunnel = Some r /\ closed r = true /\ stage_of r = Closed /\
     mt_idle_guard r = false /\ notified (mt_completion r) stopped = 1%nat) /\
  tunnels_advance up stopped.
Proof.
  destruct (tunnels_live_and_end up stopped up_reachable calls_to_stopped) as [Ha Hall].
  split; [|split; [|exact Ha]].
  - destruct (tunnels up !! tunnel) as [r|] eqn:Hr; [|by vm_compute in Hr].
    exists r. split; [exact eq_refl|]. vm_compute in Hr. by injection Hr as <-.
  - destruct (tunnels stopped !! tunnel) as [r|] eqn:Hr; [|by vm_compute in Hr].
    assert (closed r = true /\ stage_of r = Closed) as [Hcl Hst]
      by (vm_compute in Hr; by injection Hr as <-).
    destruct (Hall tunnel r Hr) as [Hend _]. destruct (Hend Hcl) as (_ & Hg & Hn).
    exists r. exact (conj eq_refl (conj Hcl (conj Hst (conj Hg Hn)))).
Defined.

Lemma cancellation_terminates_witness :
  waiting alice tunnel (Some ctx) deadline up 3 stopped (WSleep 0 0) /\
  wait_step alice tunnel (Some ctx) deadline stopped (WSleep 0 0) stopped (WLoop 0).
Proof.
  split; [exact asleep_stopped|].
  destruct (cancellation_terminates alice tunnel (Some ctx) deadline up 3 stopped (WSleep 0 0)
    up_reachable asleep_stopped) as (_ & _ & Hwake).
  destruct (tunnels stopped !! tunnel) as [r|] eqn:Hr; [|by vm_compute in Hr].
  destruct (Hwake 0%nat 0%nat tunnel r eq_refl Hr) as [Hw _];
    [vm_compute in Hr; by injection Hr as <-|].
  apply Hw. vm_compute in Hr. by injection Hr as <-.
Defined.

Lemma cancellation_reports_the_end_witness :
  waiting alice tunnel (Some ctx) deadline up 6 told (WDone (Ok final)) /\
  exists s1 r, tunnels s1 !! tunnel = Some r /\ mt_owner r = alice /\ mt_status r = final.
Proof.
  split; [exact done_waiting|].
  destruct (cancellation_reports_the_end alice tunnel (Some ctx) deadline up 6 told final
    up_reachable done_waiting) as (s1 & r & _ & _ & Hr & Ho & Hst & _).
  exists s1, r. exact (conj Hr (conj Ho Hst)).
Defined.

(** A shutdown whose deadline passes before the worker has ended the tunnel. *)
Definition marked : ManagedTunnelRegistry := (shutdown_mark (fun _ => 6) 6 [tunnel] up).1.
Definition asked : ManagedTunnelRegistry := (wait_request alice tunnel (Some ctx) 7 marked).1.
Definition seen : ManagedTunnelRegistry := (wait_look alice tunnel (Some ctx) 0 0 8 [tunnel] asked).1.
Definition given_up : ManagedTunnelRegistry := (wait_expire alice tunnel 101 101 seen).1.
Definition down : ManagedTunnelRegistry := (wait_final alice tunnel (Some ctx) 102 [tunnel] given_up).1.
Definition lost : TunnelStatus := at_revision (at_stage status TunnelStageUnknown 101) 3.

Definition job_of_tunnel : job := (alice, tunnel, Some ctx).

Lemma own_step s wpc s' wpc' :
  shutting_down deadline up s (SWait job_of_tunnel wpc []) ->
  wait_step alice tunnel (Some ctx) deadline s wpc s' wpc' ->
  shutting_down deadline up s' (SWait job_of_tunnel wpc' []).
Proof. intros Hs Hw. eapply sh_own; [exact Hs|]. by apply sd_wait. Qed.

Lemma marked_run : shutting_down deadline up marked (SWait job_of_tunnel WRequest []).
Proof.
  eapply sh_own; [apply sh_start|].
  replace (SWait job_of_tunnel WRequest []) with
    (next_job (shutdown_mark (fun _ => 6) 6 [tunnel] up).2) by (by vm_compute).
  apply sd_mark. apply iterated. by vm_compute.
Qed.

Lemma sleeping_run : shutting_down deadline up seen (SWait job_of_tunnel (WSleep 0 0) []).
Proof.
  apply (own_step asked (WLook 0 0)); [apply (own_step asked (WLoop 0));
    [apply (own_step marked WRequest); [exact marked_run|]|]|].
  - replace (WLoop 0) with (wait_request alice tunnel (Some ctx) 7 marked).2 by (by vm_compute).
    apply (ws_request _ _ _ _ 7).
  - replace (WLook 0 0) with (WLook 0 (notified 0 asked)) by (by vm_compute). apply ws_arm.
  - replace (WSleep 0 0) with (wait_look alice tunnel (Some ctx) 0 0 8 [tunnel] asked).2
      by (by vm_compute).
    apply ws_look. apply iterated. by vm_compute.
Qed.

Lemma down_run : shutting_down deadline up down SDone.
Proof.
  apply (sh_own deadline up down (SWait job_of_tunnel (WDone (Ok lost)) []) down SDone);
    [|exact (sd_waited deadline job_of_tunnel lost [] down)].
  apply (own_step given_up WFinal); [apply (own_step seen WExpired);
    [apply (own_step seen (WSleep 0 0)); [exact sleeping_run|]|]|].
  - apply (ws_timeout _ _ _ _ _ _ 101); [|unfold deadline; lia].
    assert (notified 0 seen = 0%nat) as -> by (by vm_compute). lia.
  - replace WFinal with (wait_expire alice tunnel 101 101 seen).2 by (by vm_compute).
    apply (ws_expire _ _ _ _ 101 101).
  - replace (WDone (Ok lost)) with (wait_final alice tunnel (Some ctx) 102 [tunnel] given_up).2
      by (by vm_compute).
    apply ws_final. apply iterated. by vm_compute.
Qed.

Lemma up_record : exists r, tunnels up !! tunnel = Some r /\ closed r = false /\ mt_completion r = 0%nat.
Proof. eexists. split; [vm_compute; reflexivity|]. by split. Qed.
Lemma down_record : exists r, tunnels down !! tunnel = Some r /\ mt_completion r = 0%nat.
Proof. eexists. split; [vm_compute; reflexivity|]. done. Qed.

Lemma shutdown_ends_all_tunnels_witness :
  shutting_down deadline up down SDone /\
  exists r r', tunnels up !! tunnel = Some r /\ closed r = false /\
    tunnels down !! tunnel = Some r' /\
    (closed r' = true \/ exhausted r' \/ USIZE_MAX <= next_order down).
Proof.
  split; [exact down_run|].
  destruct (shutdown_ends_all_tunnels deadline up down SDone up_reachable down_run) as [Hall _].
  destruct up_record as (r & Hr & Hcl & Hc). destruct down_record as (r' & Hr' & Hc').
  exists r, r'. split; [exact Hr|]. split; [exact Hcl|]. split; [exact Hr'|].
  exact (Hall eq_refl tunnel r Hr Hcl r' Hr' (eq_trans Hc' (eq_sym Hc))).
Defined.
End TunnelRuns.
