(* ===== verification/Posix.v ===== *)
(** * Files, directories and descriptors

    The file system calls of crates/serctl_xfer and crates/serctl_jobs go
    through the Rust standard library to a POSIX kernel.  This file gives the
    calls a meaning that can be run: a [World] of inodes, directories and open
    descriptors, and [exec], one call on it.  What the caller cannot control is
    a [choice] made for each call: what other processes did before it, whether
    it fails and how far it got, how many bytes a read returns.

    Durability: an inode remembers the prefix of its data known to be on disk
    ([i_stable]) and whether all of it is ([i_clean]); a directory remembers
    the contents it had since it was last synced ([d_older]).  After a power
    loss ([crash]) a file that was not synced keeps that prefix and anything
    may follow it, and each name of a directory has, on its own, any value it
    had since the last sync.  Inode numbers are not reused.  Permission bits
    are recorded and read back; refusals by the kernel are failures the choice
    makes.  Symbolic links are followed only where a path is given by the
    user, and then by [paths]. *)

From stdpp Require Import gmap.
From S2P Require Import Prelude.
From S2P Require Import Bytes.
From S2P Require Import Text.
#[local] Open Scope string_scope.
#[local] Open Scope list_scope.
#[local] Open Scope Z_scope.

(** ** The world *)

Inductive kind := KFile | KDir | KSymlink | KOther.
#[export] Instance kind_eq_dec : EqDecision kind.
Proof. solve_decision. Defined.

Record Inode := {
  i_kind : kind;
  i_uid : Z;
  i_mode : Z;        (** permission bits *)
  i_nlink : Z;
  i_mtime : Z;
  i_data : bytes;
  i_stable : bytes;  (** what a crash leaves at least *)
  i_clean : bool;    (** all of [i_data] is on disk *)
}.

Record Dir := {
  d_entries : gmap str Z;
  d_older : list (gmap str Z);  (** since the last sync of the directory *)
}.

Record Handle := {
  h_ino : Z;
  h_pos : Z;
}.

(** [std::io::ErrorKind], as far as it is looked at. *)
Inductive errno := ENOENT | EEXIST | EWOULDBLOCK | EOTHER (code : Z).
#[export] Instance errno_eq_dec : EqDecision errno.
Proof. solve_decision. Defined.

(** What [std::io::Error] prints for an error number. *)
Class Strerror := strerror : errno -> str.

Record World := {
  euid : Z;
  umask : Z;
  device : Z;
  clock : Z;
  paths : gmap str Z;    (** what the paths users give name now *)
  inodes : gmap Z Inode;
  next_ino : Z;
  dirs : gmap Z Dir;
  handles : gmap Z Handle;
  next_fd : Z;
}.

Inductive path :=
| Given (p : str)                    (** a path as the user gave it *)
| ProcFd (fd : Z)                    (** /proc/self/fd/<fd> *)
| Entry (dirfd : Z) (name : str)     (** a name in the directory of a descriptor *)
| Under (dir : str) (name : str).    (** a name in a directory given by its path *)

(** [std::fs::Metadata] with the Unix extensions. *)
Record Metadata := {
  m_kind : kind;
  m_uid : Z;
  m_mode : Z;
  m_nlink : Z;
  m_len : Z;
  m_mtime : Z;
  m_dev : Z;
  m_ino : Z;
}.

(** ** Updates *)

Definition with_inodes (f : gmap Z Inode -> gmap Z Inode) (w : World) : World :=
  {| euid := euid w; umask := umask w; device := device w; clock := clock w; paths := paths w;
     inodes := f (inodes w); next_ino := next_ino w; dirs := dirs w;
     handles := handles w; next_fd := next_fd w |}.
Definition with_dirs (f : gmap Z Dir -> gmap Z Dir) (w : World) : World :=
  {| euid := euid w; umask := umask w; device := device w; clock := clock w; paths := paths w;
     inodes := inodes w; next_ino := next_ino w; dirs := f (dirs w);
     handles := handles w; next_fd := next_fd w |}.
Definition with_handles (f : gmap Z Handle -> gmap Z Handle) (w : World) : World :=
  {| euid := euid w; umask := umask w; device := device w; clock := clock w; paths := paths w;
     inodes := inodes w; next_ino := next_ino w; dirs := dirs w;
     handles := f (handles w); next_fd := next_fd w |}.

Definition on_inode (i : Z) (f : Inode -> Inode) : World -> World := with_inodes (alter f i).
Definition on_handle (fd : Z) (f : Handle -> Handle) : World -> World := with_handles (alter f fd).

Definition with_nlink (d : Z) (x : Inode) : Inode :=
  {| i_kind := i_kind x; i_uid := i_uid x; i_mode := i_mode x; i_nlink := i_nlink x + d;
     i_mtime := i_mtime x; i_data := i_data x; i_stable := i_stable x; i_clean := i_clean x |}.
Definition with_mode (mode : Z) (x : Inode) : Inode :=
  {| i_kind := i_kind x; i_uid := i_uid x; i_mode := mode; i_nlink := i_nlink x;
     i_mtime := i_mtime x; i_data := i_data x; i_stable := i_stable x; i_clean := i_clean x |}.
(** New data of which the first [keep] bytes are as they were. *)
Definition with_data (now : Z) (data : bytes) (keep : nat) (x : Inode) : Inode :=
  {| i_kind := i_kind x; i_uid := i_uid x; i_mode := i_mode x; i_nlink := i_nlink x;
     i_mtime := now; i_data := data; i_stable := take keep (i_stable x); i_clean := false |}.
Definition synced (x : Inode) : Inode :=
  {| i_kind := i_kind x; i_uid := i_uid x; i_mode := i_mode x; i_nlink := i_nlink x;
     i_mtime := i_mtime x; i_data := i_data x; i_stable := i_data x; i_clean := true |}.
Definition at_pos (pos : Z) (h : Handle) : Handle := {| h_ino := h_ino h; h_pos := pos |}.

(** A change of the names of a directory. *)
Definition rename_in (d : Z) (f : gmap str Z -> gmap str Z) : World -> World :=
  with_dirs (alter (fun x => {| d_entries := f (d_entries x);
                                d_older := d_entries x :: d_older x |}) d).
Definition sync_dir (d : Z) : World -> World :=
  with_dirs (alter (fun x => {| d_entries := d_entries x; d_older := [] |}) d).

(** A new inode, with its number. *)
Definition alloc (x : Inode) (w : World) : Z * World :=
  (next_ino w,
   {| euid := euid w; umask := umask w; device := device w; clock := clock w; paths := paths w;
      inodes := <[next_ino w := x]> (inodes w); next_ino := next_ino w + 1; dirs := dirs w;
      handles := handles w; next_fd := next_fd w |}).
(** A new descriptor for an inode. *)
Definition descriptor (i : Z) (w : World) : Z * World :=
  (next_fd w,
   {| euid := euid w; umask := umask w; device := device w; clock := clock w; paths := paths w;
      inodes := inodes w; next_ino := next_ino w; dirs := dirs w;
      handles := <[next_fd w := {| h_ino := i; h_pos := 0 |}]> (handles w);
      next_fd := next_fd w + 1 |}).

(** ** Lookups *)

Definition ino_of (w : World) (fd : Z) : option Z := h_ino <$> handles w !! fd.
Definition entry (w : World) (d : Z) (n : str) : option Z :=
  dirs w !! d ≫= fun x => d_entries x !! n.
Definition resolve (w : World) (p : path) : option Z :=
  match p with
  | Given s => paths w !! s
  | ProcFd fd => ino_of w fd
  | Entry fd n => ino_of w fd ≫= fun d => entry w d n
  | Under dir n => paths w !! dir ≫= fun d => entry w d n
  end.
(** The directory in which a path names an entry. *)
Definition place (w : World) (p : path) : option (Z * str) :=
  match p with
  | Entry fd n => (fun d => (d, n)) <$> ino_of w fd
  | Under dir n => (fun d => (d, n)) <$> paths w !! dir
  | _ => None
  end.

Definition metadata_of (w : World) (i : Z) (x : Inode) : Metadata :=
  {| m_kind := i_kind x; m_uid := i_uid x; m_mode := i_mode x; m_nlink := i_nlink x;
     m_len := zlen (i_data x); m_mtime := i_mtime x; m_dev := device w; m_ino := i |}.

(** ** Calls *)

(** [std::fs::OpenOptions] for an existing file. *)
Record OpenFlags := { o_nofollow : bool; o_directory : bool }.

Inductive call :=
| Geteuid
| Open (p : path) (flags : OpenFlags)
| CreateNew (p : path) (mode : Z)           (** [create_new(true)]: O_CREAT | O_EXCL *)
| MetadataOf (fd : Z)                       (** [File::metadata] *)
| SymlinkMetadata (p : path)
| SetPermissions (fd : Z) (mode : Z)
| Flock (fd : Z)                            (** LOCK_EX | LOCK_NB *)
| Read (fd : Z) (n : Z)                     (** into a buffer of [n] bytes *)
| ReadToEnd (fd : Z) (limit : Z)            (** [take(limit).read_to_end] *)
| WriteAll (fd : Z) (bs : bytes)
| SetLen (fd : Z) (n : Z)
| Seek (fd : Z) (pos : Z)                   (** [SeekFrom::Start] *)
| StreamPosition (fd : Z)
| Sync (fd : Z)                             (** [sync_all], [sync_data] *)
| Link (fd : Z) (dst : path)                (** linkat of /proc/self/fd/<fd> *)
| HardLink (src dst : path)
| RemoveFile (p : path)
| AtomicOpen (p : path)                     (** [AtomicWriteFile::open] *)
| AtomicCommit (fd : Z) (p : path).         (** [AtomicWriteFile::commit] *)

Definition res (c : call) : Type :=
  match c with
  | Geteuid => Z
  | Open _ _ | CreateNew _ _ | AtomicOpen _ | StreamPosition _ => result errno Z
  | MetadataOf _ | SymlinkMetadata _ => result errno Metadata
  | Read _ _ | ReadToEnd _ _ => result errno bytes
  | SetPermissions _ _ | Flock _ | WriteAll _ _ | SetLen _ _ | Seek _ _ | Sync _
  | Link _ _ | HardLink _ _ | RemoveFile _ | AtomicCommit _ _ => result errno unit
  end.

(** What the caller does not control about one call.  A failure the choice
    makes says nothing about the names in a directory: it is never "not found"
    or "exists". *)
Record choice := {
  env : World -> World;            (** what others do before the call *)
  fault : option (Z * Z);          (** the call fails with that error number, after
                                       that much of its work *)
  amount : Z;                      (** how many bytes a read returns, if it can *)
}.
Definition no_choice : choice := {| env := fun w => w; fault := None; amount := 2 ^ 64 |}.

Definition EBADF : errno := EOTHER 9.
Definition ENOTDIR : errno := EOTHER 20.
Definition EISDIR : errno := EOTHER 21.
Definition ELOOP : errno := EOTHER 40.

(** [bs] written over [data] at [pos]; a gap reads as zeros. *)
Definition splice (data : bytes) (pos : nat) (bs : bytes) : bytes :=
  take pos data ++ replicate (pos - length data) x00 ++ bs ++ drop (pos + length bs) data.
(** [data] cut or filled up to [n] bytes. *)
Definition resized (data : bytes) (n : nat) : bytes :=
  take n data ++ replicate (n - length data) x00.

Definition open_checks (flags : OpenFlags) (k : kind) : result errno unit :=
  match k with
  | KSymlink => Err ELOOP
  | KDir => Ok tt
  | KFile | KOther => if o_directory flags then Err ENOTDIR else Ok tt
  end.

Definition new_inode (w : World) (mode : Z) (links : Z) : Inode :=
  {| i_kind := KFile; i_uid := euid w; i_mode := Z.land mode (Z.lnot (umask w));
     i_nlink := links; i_mtime := clock w; i_data := []; i_stable := []; i_clean := false |}.

Definition do_open (p : path) (flags : OpenFlags) (w : World) : result errno Z * World :=
  match resolve w p with
  | Some i =>
      match inodes w !! i with
      | Some x =>
          match open_checks flags (i_kind x) with
          | Ok _ => let (fd, w') := descriptor i w in (Ok fd, w')
          | Err e => (Err e, w)
          end
      | None => (Err ENOENT, w)
      end
  | None => (Err ENOENT, w)
  end.

Definition do_create (p : path) (mode : Z) (w : World) : result errno Z * World :=
  match place w p with
  | Some (d, n) =>
      if bool_decide (is_Some (entry w d n)) then (Err EEXIST, w)
      else match dirs w !! d with
           | Some _ =>
               let (i, w1) := alloc (new_inode w mode 1) w in
               let (fd, w2) := descriptor i (rename_in d (insert n i) w1) in
               (Ok fd, w2)
           | None => (Err ENOTDIR, w)
           end
  | None => (Err ENOENT, w)
  end.

(** An operation on the inode of a descriptor. *)
Definition with_file {A} (fd : Z) (w : World) (f : Handle -> Inode -> result errno A * World)
  : result errno A * World :=
  match handles w !! fd with
  | Some h => match inodes w !! h_ino h with
              | Some x => f h x
              | None => (Err EBADF, w)
              end
  | None => (Err EBADF, w)
  end.

Definition do_read (fd n amount : Z) (w : World) : result errno bytes * World :=
  with_file fd w (fun h x =>
    let rest := drop (Z.to_nat (h_pos h)) (i_data x) in
    let k := Z.max 1 (Z.min amount n) in
    let got := take (Z.to_nat (Z.min n k)) rest in
    (Ok got, on_handle fd (at_pos (h_pos h + zlen got)) w)).

Definition do_write (fd : Z) (bs : bytes) (w : World) : result errno unit * World :=
  with_file fd w (fun h x =>
    let pos := Z.to_nat (h_pos h) in
    (Ok tt, on_handle fd (at_pos (h_pos h + zlen bs))
              (on_inode (h_ino h)
                 (with_data (clock w) (splice (i_data x) pos bs) pos) w))).

Definition do_set_len (fd n : Z) (w : World) : result errno unit * World :=
  with_file fd w (fun h x =>
    (Ok tt, on_inode (h_ino h)
              (with_data (clock w) (resized (i_data x) (Z.to_nat n)) (Z.to_nat n)) w)).

Definition do_sync (fd : Z) (w : World) : result errno unit * World :=
  with_file fd w (fun h x =>
    (Ok tt, match i_kind x with
            | KDir => sync_dir (h_ino h) w
            | _ => on_inode (h_ino h) synced w
            end)).

(** A new name for an inode; an existing name is never replaced. *)
Definition do_link (i : option Z) (dst : path) (w : World) : result errno unit * World :=
  match i, place w dst with
  | Some i, Some (d, n) =>
      match inodes w !! i, dirs w !! d with
      | Some x, Some _ =>
          if bool_decide (is_Some (entry w d n)) then (Err EEXIST, w)
          else if i_nlink x <=? 0 then (Err ENOENT, w)
          else (Ok tt, rename_in d (insert n i) (on_inode i (with_nlink 1) w))
      | _, _ => (Err ENOENT, w)
      end
  | _, _ => (Err ENOENT, w)
  end.

Definition do_remove (p : path) (w : World) : result errno unit * World :=
  match place w p with
  | Some (d, n) =>
      match entry w d n with
      | Some i =>
          if bool_decide (i_kind <$> inodes w !! i = Some KDir) then (Err EISDIR, w)
          else (Ok tt, rename_in d (delete n) (on_inode i (with_nlink (-1)) w))
      | None => (Err ENOENT, w)
      end
  | None => (Err ENOENT, w)
  end.

(** The temporary file of an [AtomicWriteFile] is an inode without a name. *)
Definition do_atomic_open (p : path) (w : World) : result errno Z * World :=
  match place w p with
  | Some _ => let (i, w1) := alloc (new_inode w 438 0) w in (* 0o666 *)
              let (fd, w2) := descriptor i w1 in (Ok fd, w2)
  | None => (Err ENOENT, w)
  end.

(** Its commit syncs it and renames it over the name. *)
Definition do_atomic_commit (fd : Z) (p : path) (w : World) : result errno unit * World :=
  with_file fd w (fun h x =>
    match place w p with
    | Some (d, n) =>
        match dirs w !! d with
        | Some _ =>
            let w1 := match entry w d n with
                      | Some old => on_inode old (with_nlink (-1)) w
                      | None => w
                      end in
            (Ok tt, rename_in d (insert n (h_ino h))
                      (on_inode (h_ino h) (fun x => with_nlink 1 (synced x)) w1))
        | None => (Err ENOTDIR, w)
        end
    | None => (Err ENOENT, w)
    end).

(** A call that succeeds. *)
Definition perform (c : call) (amount : Z) (w : World) : res c * World :=
  match c with
  | Geteuid => (euid w, w)
  | Open p flags => do_open p flags w
  | CreateNew p mode => do_create p mode w
  | MetadataOf fd => with_file fd w (fun h x => (Ok (metadata_of w (h_ino h) x), w))
  | SymlinkMetadata p =>
      (match resolve w p ≫= fun i => (fun x => metadata_of w i x) <$> inodes w !! i with
       | Some m => Ok m
       | None => Err ENOENT
       end, w)
  | SetPermissions fd mode =>
      with_file fd w (fun h x => (Ok tt, on_inode (h_ino h) (with_mode mode) w))
  | Flock fd => with_file fd w (fun _ _ => (Ok tt, w))
  | Read fd n => do_read fd n amount w
  | ReadToEnd fd limit => do_read fd limit limit w
  | WriteAll fd bs => do_write fd bs w
  | SetLen fd n => do_set_len fd n w
  | Seek fd pos => with_file fd w (fun _ _ => (Ok tt, on_handle fd (at_pos pos) w))
  | StreamPosition fd => with_file fd w (fun h _ => (Ok (h_pos h), w))
  | Sync fd => do_sync fd w
  | Link fd dst => do_link (ino_of w fd) dst w
  | HardLink src dst => do_link (resolve w src) dst w
  | RemoveFile p => do_remove p w
  | AtomicOpen p => do_atomic_open p w
  | AtomicCommit fd p => do_atomic_commit fd p w
  end.

(** A call that fails after [n] units of its work: a write has written [n]
    bytes, a commit has replaced the name unless [n] is 0; the others have
    changed nothing. *)
Definition abandon (c : call) (n : Z) (w : World) : World :=
  match c with
  | WriteAll fd bs => (do_write fd (take (Z.to_nat n) bs) w).2
  | AtomicCommit fd p => if n <=? 0 then w else (do_atomic_commit fd p w).2
  | _ => w
  end.

Definition EAGAIN : Z := 11.
Definition failed (c : call) (code : Z) : option (res c) :=
  match c with
  | Geteuid => None
  | Flock _ => Some (Err (if code =? EAGAIN then EWOULDBLOCK else EOTHER code))
  | Open _ _ | CreateNew _ _ | AtomicOpen _ | StreamPosition _
  | MetadataOf _ | SymlinkMetadata _ | Read _ _ | ReadToEnd _ _
  | SetPermissions _ _ | WriteAll _ _ | SetLen _ _ | Seek _ _ | Sync _
  | Link _ _ | HardLink _ _ | RemoveFile _ | AtomicCommit _ _ => Some (Err (EOTHER code))
  end.

Definition exec (c : call) (ch : choice) (w : World) : res c * World :=
  match fault ch with
  | Some (code, n) =>
      match failed c code with
      | Some r => (r, abandon c n w)
      | None => perform c (amount ch) w
      end
  | None => perform c (amount ch) w
  end.

(** ** Power loss *)

(** The contents of a directory at some moment since its last sync. *)
Definition possible (x : Dir) : list (gmap str Z) := d_entries x :: d_older x.

Definition crash_inode (x y : Inode) : Prop :=
  i_kind y = i_kind x /\ i_clean y = true /\ i_stable y = i_data y /\
  (if i_clean x then i_data y = i_data x /\ i_uid y = i_uid x /\ i_mode y = i_mode x
   else exists tail, i_data y = i_stable x ++ tail).
Definition crash_dir (x y : Dir) : Prop :=
  d_older y = [] /\
  forall n, exists m, m ∈ possible x /\ d_entries y !! n = m !! n.

Definition crash (w w' : World) : Prop :=
  device w' = device w /\ next_ino w = next_ino w' /\ handles w' = ∅ /\
  (forall i, match inodes w !! i, inodes w' !! i with
             | Some x, Some y => crash_inode x y
             | None, None => True
             | _, _ => False
             end) /\
  (forall d, match dirs w !! d, dirs w' !! d with
             | Some x, Some y => crash_dir x y
             | None, None => True
             | _, _ => False
             end).
