(* ===== verification/Program.v ===== *)
(** * Programs that call the system, and reasoning about their runs

    A function that does I/O is a [prog]: a tree that is a result, or a call
    and what to do with its answer.  [run] executes one on a state, a list of
    choices saying what the outside does at each call; when the choices are
    used up the program has been cut off there.  A loop whose bound is not in
    the data is written with fuel; running out of it is [Spin].

    [wp] is the weakest precondition for programs that share their state with
    others: before each call the others may have changed the state within
    [rely], and the call itself must respect [guar].  The trace of a run is
    the list of state changes its own calls made, the last one first.
    [wp_run] relates it to [run]: it speaks of runs that are cut off as well,
    and [Spin] never happens.

    [anyhow::Error] is the chain of its messages, the outermost first, with
    the types that [Error::is] finds in it. *)

From S2P Require Import Prelude.
From S2P Require Import Bytes.
From S2P Require Import Text.
#[local] Open Scope string_scope.
#[local] Open Scope list_scope.
#[local] Open Scope Z_scope.

(** ** Programs *)

Inductive prog (C : Type) (R : C -> Type) (A : Type) : Type :=
| Ret (a : A)
| Spin
| Call (c : C) (k : R c -> prog C R A).
Arguments Ret {C R A} a.
Arguments Spin {C R A}.
Arguments Call {C R A} c k.

Fixpoint pbind {C R A B} (p : prog C R A) (k : A -> prog C R B) : prog C R B :=
  match p with
  | Ret a => k a
  | Spin => Spin
  | Call c k' => Call c (fun r => pbind (k' r) k)
  end.

(** [p?] followed by the rest. *)
Definition rpbind {C R E A B} (p : prog C R (result E A)) (k : A -> prog C R (result E B))
  : prog C R (result E B) :=
  pbind p (fun r => match r with
                    | Ok a => k a
                    | Err e => Ret (Err e)
                    end).

(** [p.map_err(f)], and the [with_context] family. *)
Definition pmap_err {C R E F A} (f : E -> F) (p : prog C R (result E A))
  : prog C R (result F A) :=
  pbind p (fun r => Ret (map_err f r)).

Declare Scope prog_scope.
Delimit Scope prog_scope with prog.
#[global] Open Scope prog_scope.

Notation "'let#' x ':=' p 'in' k" := (pbind p (fun x => k))
  (at level 10, x pattern, p at level 200, k at level 200) : prog_scope.
Notation "'let?' x ':=' p 'in' k" := (rpbind p (fun x => k))
  (at level 10, x pattern, p at level 200, k at level 200) : prog_scope.
Notation "'run?' p ;; k" := (rpbind p (fun _ => k))
  (at level 10, p at level 99, k at level 200) : prog_scope.
Notation "'ensure?' b 'or' e ;; k" := (rpbind (Ret (ensure b e)) (fun _ => k))
  (at level 10, b at level 99, e at level 99, k at level 200) : prog_scope.

(** ** Loops *)

(** At most [n] iterations of a loop body, which continues with [inl] or
    leaves the loop with [inr]. *)
Fixpoint iterations {C R X A} (n : positive) (body : X -> prog C R (X + A)) (x : X)
  : prog C R (X + A) :=
  match n with
  | xH => body x
  | xO n => let# r := iterations n body x in
            match r with inl x => iterations n body x | inr a => Ret (inr a) end
  | xI n => let# r := body x in
            match r with
            | inl x => let# r := iterations n body x in
                       match r with inl x => iterations n body x | inr a => Ret (inr a) end
            | inr a => Ret (inr a)
            end
  end.

Definition ploop {C R X A} (fuel : positive) (body : X -> prog C R (X + A)) (x : X) : prog C R A :=
  let# r := iterations fuel body x in
  match r with inl _ => Spin | inr a => Ret a end.

(** A loop in a function that may fail. *)
Definition rloop {C R E X A} (fuel : positive) (body : X -> prog C R (result E (X + A))) (x : X)
  : prog C R (result E A) :=
  ploop fuel (fun x => let# r := body x in
                       match r with
                       | Ok (inl x) => Ret (inl x)
                       | Ok (inr a) => Ret (inr (Ok a))
                       | Err e => Ret (inr (Err e))
                       end) x.

(** ** The calls of a program *)

Fixpoint only {C R A} (P : C -> Prop) (p : prog C R A) : Prop :=
  match p with
  | Call c k => P c /\ forall r, only P (k r)
  | _ => True
  end.

Lemma only_mono {C R A} (P P' : C -> Prop) (p : prog C R A) :
  (forall c, P c -> P' c) -> only P p -> only P' p.
Proof. intros HP Hp. induction p as [a| |c k IH]; simpl in *; naive_solver. Qed.
Lemma only_pbind {C R A B} P (p : prog C R A) (k : A -> prog C R B) :
  only P p -> (forall a, only P (k a)) -> only P (pbind p k).
Proof. intros Hp Hk. induction p as [a| |c k' IH]; simpl in *; [done|done|]. naive_solver. Qed.
Lemma only_rpbind {C R E A B} P (p : prog C R (result E A)) (k : A -> prog C R (result E B)) :
  only P p -> (forall a, only P (k a)) -> only P (rpbind p k).
Proof. intros Hp Hk. apply only_pbind; [done|]. by intros [a|e]. Qed.
Lemma only_pmap_err {C R E F A} P (f : E -> F) (p : prog C R (result E A)) :
  only P p -> only P (pmap_err f p).
Proof. intros Hp. by apply only_pbind. Qed.
Lemma only_call {C R} (P : C -> Prop) c : P c -> only P (@Call C R (R c) c Ret).
Proof. by split. Qed.

(** ** [anyhow::Error] *)

(** The error types of serctl_xfer that are tested for, and the I/O error of
    the kind [NotFound], for which serctl_remote tests. *)
Inductive etype :=
| CommitOutcomeUnknown | CommitNotApplied | CleanupIncomplete | TransferBusy | NotFound.
#[export] Instance etype_eq_dec : EqDecision etype.
Proof. solve_decision. Defined.

Record anyhow := {
  e_types : list etype;
  e_chain : list str;
}.

(** [bail!] / [anyhow!]. *)
Definition msg (s : str) : anyhow := {| e_types := []; e_chain := [s] |}.
(** [.context(s)], with a text. *)
Definition context (s : str) (e : anyhow) : anyhow :=
  {| e_types := e_types e; e_chain := s :: e_chain e |}.
(** [error.is::<T>()]. *)
Definition is_a (t : etype) (e : anyhow) : bool := bool_decide (t ∈ e_types e).
(** [error.to_string()] and [format!("{error:#}")]. *)
Definition to_string (e : anyhow) : str := default [] (head (e_chain e)).
Fixpoint alternate (chain : list str) : str :=
  match chain with
  | [] => []
  | [s] => s
  | s :: l => s ++ rs ": " ++ alternate l
  end.

(** ** Decimal numbers, for the descriptors in /proc paths *)

Fixpoint decimal_digits (fuel : nat) (n : Z) (acc : str) : str :=
  match fuel with
  | O => acc
  | S fuel =>
      let acc := byte_of_Z (48 + n mod 10) :: acc in
      if n <? 10 then acc else decimal_digits fuel (n / 10) acc
  end.
(** [n.to_string()] for [0 <= n < 2^64]. *)
Definition decimal (n : Z) : str := decimal_digits 20 n [].

(** ** Running *)

Section run.
Context {C : Type} {R : C -> Type} {S Ch : Type}.
Context (exec : forall c : C, Ch -> S -> R c * S) (others : Ch -> S -> S).

(** The changes made, last first, the state left, and the result unless the
    run was cut off. *)
Fixpoint run {A} (p : prog C R A) (chs : list Ch) (s : S) (tr : list (S * S))
  : list (S * S) * S * option A :=
  match p, chs with
  | Ret a, _ => (tr, s, Some a)
  | Spin, _ | Call _ _, [] => (tr, s, None)
  | Call c k, ch :: chs =>
      let s1 := others ch s in
      let (r, s2) := exec c ch s1 in
      run (k r) chs s2 ((s1, s2) :: tr)
  end.

Context (rely guar : S -> S -> Prop).

Fixpoint wp {A} (p : prog C R A) (Q : A -> S -> list (S * S) -> Prop) (s : S)
    (tr : list (S * S)) : Prop :=
  match p with
  | Ret a => Q a s tr
  | Spin => False
  | Call c k =>
      forall s1 ch, rely s s1 ->
      guar s1 (exec c ch s1).2 /\
      wp (k (exec c ch s1).1) Q (exec c ch s1).2 ((s1, (exec c ch s1).2) :: tr)
  end.

Lemma wp_mono {A} (p : prog C R A) (Q Q' : A -> S -> list (S * S) -> Prop) s tr :
  wp p Q s tr -> (forall a s tr, Q a s tr -> Q' a s tr) -> wp p Q' s tr.
Proof.
  intros Hp HQ. revert s tr Hp. induction p as [a| |c k IH]; intros s tr; simpl; [by eauto|done|].
  intros Hp s1 ch Hr. destruct (Hp s1 ch Hr). eauto.
Qed.

Lemma wp_ret {A} (a : A) (Q : A -> S -> list (S * S) -> Prop) s tr : Q a s tr -> wp (Ret a) Q s tr.
Proof. done. Qed.

Lemma wp_pbind {A B} (p : prog C R A) (k : A -> prog C R B) Q s tr :
  wp p (fun a => wp (k a) Q) s tr -> wp (pbind p k) Q s tr.
Proof.
  revert s tr. induction p as [a| |c k' IH]; intros s tr; simpl; [done|done|].
  intros Hp s1 ch Hr. destruct (Hp s1 ch Hr). eauto.
Qed.

Lemma wp_pbind_inv {A B} (p : prog C R A) (k : A -> prog C R B) Q s tr :
  wp (pbind p k) Q s tr -> wp p (fun a => wp (k a) Q) s tr.
Proof.
  revert s tr. induction p as [a| |c k' IH]; intros s tr; simpl; [done|done|].
  intros Hp s1 ch Hr. destruct (Hp s1 ch Hr). eauto.
Qed.

(** Both branches of [p?]. *)
Lemma wp_rpbind {E A B} (p : prog C R (result E A)) (k : A -> prog C R (result E B)) Q s tr :
  wp p (fun r s tr => match r with
                      | Ok a => wp (k a) Q s tr
                      | Err e => Q (Err e) s tr
                      end) s tr ->
  wp (rpbind p k) Q s tr.
Proof. intros Hp. apply wp_pbind. eapply wp_mono; [exact Hp|]. by intros [a|e] ??. Qed.

Lemma wp_pmap_err {E F A} (f : E -> F) (p : prog C R (result E A)) Q s tr :
  wp p (fun r => Q (map_err f r)) s tr -> wp (pmap_err f p) Q s tr.
Proof. intros Hp. apply wp_pbind. eapply wp_mono; [exact Hp|]. done. Qed.

Lemma wp_pure {E A B} (r : result E A) (k : A -> prog C R (result E B)) Q s tr :
  (forall a, r = Ok a -> wp (k a) Q s tr) -> (forall e, r = Err e -> Q (Err e) s tr) ->
  wp (rpbind (Ret r) k) Q s tr.
Proof. intros H1 H2. unfold rpbind, pbind. destruct r; simpl; auto. Qed.

Lemma wp_ensure {E A} b (e : E) (k : unit -> prog C R (result E A)) Q s tr :
  (b = true -> wp (k tt) Q s tr) -> (b = false -> Q (Err e) s tr) ->
  wp (rpbind (Ret (ensure b e)) k) Q s tr.
Proof. intros H1 H2. unfold rpbind, pbind. destruct b; simpl; auto. Qed.

(** A loop with an invariant and a measure ends within its fuel. *)
Lemma wp_iterations {X A} n (body : X -> prog C R (X + A)) (I : X -> S -> list (S * S) -> Prop)
    (m : X -> Z) (Q : A -> S -> list (S * S) -> Prop) x s tr :
  (forall x s tr, I x s tr ->
     wp (body x) (fun r s tr => match r with
                                | inl x' => I x' s tr /\ m x' < m x
                                | inr a => Q a s tr
                                end) s tr) ->
  I x s tr ->
  wp (iterations n body x) (fun r s tr => match r with
                                          | inl x' => I x' s tr /\ m x' <= m x - Zpos n
                                          | inr a => Q a s tr
                                          end) s tr.
Proof.
  intros Hbody. revert x s tr. induction n as [n IH|n IH|]; intros x s tr Hx; simpl.
  - apply wp_pbind. eapply wp_mono; [by apply Hbody|]. intros [x1|a] s1 tr1; [|done].
    intros [H1 Hm1]. apply wp_pbind. eapply wp_mono; [by apply IH|]. intros [x2|a] s2 tr2; [|done].
    intros [H2 Hm2]. eapply wp_mono; [by apply IH|]. intros [x3|a] s3 tr3; [|done].
    intros [H3 Hm3]. split; [done|lia].
  - apply wp_pbind. eapply wp_mono; [by apply IH|]. intros [x2|a] s2 tr2; [|done].
    intros [H2 Hm2]. eapply wp_mono; [by apply IH|]. intros [x3|a] s3 tr3; [|done].
    intros [H3 Hm3]. split; [done|lia].
  - eapply wp_mono; [by apply Hbody|]. intros [x1|a] s1 tr1; [|done]. intros [? ?]. split; [done|lia].
Qed.

Lemma wp_ploop {X A} fuel (body : X -> prog C R (X + A)) (I : X -> S -> list (S * S) -> Prop)
    (m : X -> Z) (Q : A -> S -> list (S * S) -> Prop) x s tr :
  (forall x s tr, I x s tr ->
     0 <= m x /\
     wp (body x) (fun r s tr => match r with
                                | inl x' => I x' s tr /\ m x' < m x
                                | inr a => Q a s tr
                                end) s tr) ->
  I x s tr -> m x < Zpos fuel ->
  wp (ploop fuel body x) Q s tr.
Proof.
  intros Hbody Hx Hm. apply wp_pbind. eapply wp_mono.
  { apply (wp_iterations fuel body I m Q); [|exact Hx]. intros ??? H. by apply Hbody. }
  intros [x'|a] s' tr'; [|done]. intros [H' Hm']. destruct (Hbody _ _ _ H'). lia.
Qed.

Lemma wp_rloop {E X A} fuel (body : X -> prog C R (result E (X + A)))
    (I : X -> S -> list (S * S) -> Prop) (m : X -> Z) (Q : result E A -> S -> list (S * S) -> Prop)
    x s tr :
  (forall x s tr, I x s tr ->
     0 <= m x /\
     wp (body x) (fun r s tr => match r with
                                | Ok (inl x') => I x' s tr /\ m x' < m x
                                | Ok (inr a) => Q (Ok a) s tr
                                | Err e => Q (Err e) s tr
                                end) s tr) ->
  I x s tr -> m x < Zpos fuel ->
  wp (rloop fuel body x) Q s tr.
Proof.
  intros Hbody Hx Hm. apply (wp_ploop _ _ I m); [|done|done].
  intros x' s' tr' Hx'. destruct (Hbody _ _ _ Hx') as [H0 Hb]. split; [done|].
  apply wp_pbind. eapply wp_mono; [exact Hb|]. by intros [[?|?]|?] ??.
Qed.

(** What holds of every change a run makes, cut off or not, and of its end. *)
Lemma wp_run {A} (p : prog C R A) Q chs s tr :
  Forall (fun ch => forall s, rely s (others ch s)) chs ->
  wp p Q s tr -> Forall (fun c => guar c.1 c.2) tr ->
  let '(tr', s', o) := run p chs s tr in
  Forall (fun c => guar c.1 c.2) tr' /\
  (forall a, o = Some a -> Q a s' tr').
Proof.
  intros Hc. revert s tr. induction Hc as [|ch chs Hch Hc IH] in p |- *; intros s tr Hp Htr.
  - destruct p; simpl in *; split; try done; by intros ? [= <-].
  - destruct p as [a| |c k]; simpl in *; [split; [done|by intros ? [= <-]]|done|].
    destruct (Hp _ ch (Hch s)) as [Hg Hk].
    destruct (exec c ch (others ch s)) as [r s2] eqn:He; simpl in *.
    apply (IH (k r)); [done|]. by constructor.
Qed.

(** An invariant that the others keep, and every change within [guar]. *)
Lemma wp_run_invariant {A} (I : S -> Prop) (p : prog C R A) Q chs s tr :
  Forall (fun ch => forall s, rely s (others ch s) /\ (I s -> I (others ch s))) chs ->
  (forall s1 s2, I s1 -> guar s1 s2 -> I s2) ->
  wp p Q s tr -> I s -> I (run p chs s tr).1.2.
Proof.
  intros Hc Hg. revert s tr. induction Hc as [|ch chs Hch Hc IH] in p |- *; intros s tr Hp Hs.
  - by destruct p.
  - destruct p as [a| |c k]; simpl in *; [done|done|]. destruct (Hch s) as [Hr Hi].
    destruct (Hp _ ch Hr) as [Hgs Hk]. specialize (Hg _ _ (Hi Hs) Hgs).
    destruct (exec c ch (others ch s)) as [r s2] eqn:He; simpl in *. by apply (IH (k r)).
Qed.

(** Runs end: with enough choices there is a result. *)
Lemma wp_ends {A} (p : prog C R A) Q s tr (chs : nat -> Ch) :
  (forall n s, rely s (others (chs n) s)) -> wp p Q s tr ->
  exists n, forall m, (n <= m)%nat -> exists a, (run p (map chs (seq 0 m)) s tr).2 = Some a.
Proof.
  intros Hc. assert (forall k n, forall s, rely s (others (chs (k + n)%nat) s)) as Hc' by auto.
  clear Hc. enough (forall k, (forall n s, rely s (others (chs (k + n)%nat) s)) -> wp p Q s tr ->
    exists n, forall m, (n <= m)%nat -> exists a, (run p (map chs (seq k m)) s tr).2 = Some a)
    as He by (apply He; auto). clear Hc'.
  revert s tr. induction p as [a| |c k' IH]; intros s tr k Hc Hp; simpl in *; [|done|].
  - exists 0%nat. intros m _. exists a. by destruct (map chs (seq k m)).
  - set (s1 := others (chs k) s).
    destruct (Hp s1 (chs k)) as [_ Hk]; [specialize (Hc 0%nat s); by rewrite Nat.add_0_r in Hc|].
    destruct (IH _ _ _ (Datatypes.S k) ltac:(intros n s'; specialize (Hc (Datatypes.S n) s');
      by rewrite Nat.add_succ_r in Hc) Hk) as [n Hn].
    exists (Datatypes.S n). intros m Hm. destruct m as [|m]; [lia|]. simpl.
    destruct (Hn m) as [a Ha]; [lia|]. exists a. fold s1.
    by destruct (exec c (chs k) s1) as [r s2].
Qed.

(** Two postconditions. *)
Lemma wp_conj {A} (p : prog C R A) (Q Q' : A -> S -> list (S * S) -> Prop) s tr :
  wp p Q s tr -> wp p Q' s tr -> wp p (fun a s tr => Q a s tr /\ Q' a s tr) s tr.
Proof.
  revert s tr. induction p as [a| |c k IH]; intros s tr; simpl; [done|done|].
  intros H1 H2 s1 ch Hr. destruct (H1 s1 ch Hr), (H2 s1 ch Hr). auto.
Qed.

(** ** Partial correctness

    The same for programs whose loops may go on for ever: a run that is out of
    fuel is cut off.  What holds of all moments is put into [guar]; [allowed]
    limits what the outside may answer. *)
Context (allowed : Ch -> Prop).

Fixpoint wlp {A} (p : prog C R A) (Q : A -> S -> Prop) (s : S) : Prop :=
  match p with
  | Ret a => Q a s
  | Spin => True
  | Call c k =>
      forall s1 ch, rely s s1 -> allowed ch ->
      guar s1 (exec c ch s1).2 /\ wlp (k (exec c ch s1).1) Q (exec c ch s1).2
  end.

Lemma wlp_mono {A} (p : prog C R A) (Q Q' : A -> S -> Prop) s :
  wlp p Q s -> (forall a s, Q a s -> Q' a s) -> wlp p Q' s.
Proof.
  intros Hp HQ. revert s Hp. induction p as [a| |c k IH]; intros s; simpl; [by eauto|done|].
  intros Hp s1 ch Hr Ha. destruct (Hp s1 ch Hr Ha). eauto.
Qed.

Lemma wlp_trivial {A} (p : prog C R A) (Q : A -> S -> Prop) s :
  (forall s1 s2, guar s1 s2) -> (forall a s, Q a s) -> wlp p Q s.
Proof. intros Hg HQ. revert s. induction p as [a| |c k IH]; intros s; simpl; auto. Qed.

Lemma wlp_pbind {A B} (p : prog C R A) (k : A -> prog C R B) Q s :
  wlp p (fun a => wlp (k a) Q) s -> wlp (pbind p k) Q s.
Proof.
  revert s. induction p as [a| |c k' IH]; intros s; simpl; [done|done|].
  intros Hp s1 ch Hr Ha. destruct (Hp s1 ch Hr Ha). eauto.
Qed.

Lemma wlp_rpbind {E A B} (p : prog C R (result E A)) (k : A -> prog C R (result E B)) Q s :
  wlp p (fun r s => match r with
                    | Ok a => wlp (k a) Q s
                    | Err e => Q (Err e) s
                    end) s ->
  wlp (rpbind p k) Q s.
Proof. intros Hp. apply wlp_pbind. eapply wlp_mono; [exact Hp|]. by intros [a|e] ?. Qed.

Lemma wlp_pmap_err {E F A} (f : E -> F) (p : prog C R (result E A)) Q s :
  wlp p (fun r => Q (map_err f r)) s -> wlp (pmap_err f p) Q s.
Proof. intros Hp. apply wlp_pbind. eapply wlp_mono; [exact Hp|]. done. Qed.

Lemma wlp_pure {E A B} (r : result E A) (k : A -> prog C R (result E B)) Q s :
  (forall a, r = Ok a -> wlp (k a) Q s) -> (forall e, r = Err e -> Q (Err e) s) ->
  wlp (rpbind (Ret r) k) Q s.
Proof. intros H1 H2. unfold rpbind, pbind. destruct r; simpl; auto. Qed.

(** A loop keeps its invariant. *)
Lemma wlp_iterations {X A} n (body : X -> prog C R (X + A)) (I : X -> S -> Prop)
    (Q : A -> S -> Prop) x s :
  (forall x s, I x s -> wlp (body x) (fun r s => match r with inl x' => I x' s | inr a => Q a s end) s) ->
  I x s ->
  wlp (iterations n body x) (fun r s => match r with inl x' => I x' s | inr a => Q a s end) s.
Proof.
  intros Hbody. revert x s. induction n as [n IH|n IH|]; intros x s Hx; simpl.
  - apply wlp_pbind. eapply wlp_mono; [by apply Hbody|]. intros [x1|a] s1; [|done].
    intros H1. apply wlp_pbind. eapply wlp_mono; [by apply IH|]. intros [x2|a] s2; [|done].
    intros H2. by apply IH.
  - apply wlp_pbind. eapply wlp_mono; [by apply IH|]. intros [x2|a] s2; [|done].
    intros H2. by apply IH.
  - by apply Hbody.
Qed.

Lemma wlp_ploop {X A} fuel (body : X -> prog C R (X + A)) (I : X -> S -> Prop)
    (Q : A -> S -> Prop) x s :
  (forall x s, I x s -> wlp (body x) (fun r s => match r with inl x' => I x' s | inr a => Q a s end) s) ->
  I x s -> wlp (ploop fuel body x) Q s.
Proof.
  intros Hbody Hx. apply wlp_pbind. eapply wlp_mono; [by apply wlp_iterations|]. by intros [x'|a] s'.
Qed.

Lemma wlp_rloop {E X A} fuel (body : X -> prog C R (result E (X + A))) (I : X -> S -> Prop)
    (Q : result E A -> S -> Prop) x s :
  (forall x s, I x s ->
     wlp (body x) (fun r s => match r with
                              | Ok (inl x') => I x' s
                              | Ok (inr a) => Q (Ok a) s
                              | Err e => Q (Err e) s
                              end) s) ->
  I x s -> wlp (rloop fuel body x) Q s.
Proof.
  intros Hbody Hx. apply (wlp_ploop _ _ I); [|done].
  intros x' s' Hx'. apply wlp_pbind. eapply wlp_mono; [by apply Hbody|]. by intros [[?|?]|?] ?.
Qed.

(** An invariant [I] that the others keep, and every change within [guar];
    [J] is one that every call keeps. *)
Lemma wlp_run {A} (I J : S -> Prop) (p : prog C R A) Q chs s tr :
  Forall (fun ch => allowed ch /\
    forall s, J s -> rely s (others ch s) /\ J (others ch s) /\ (I s -> I (others ch s))) chs ->
  (forall c ch s, J s -> J (exec c ch s).2) ->
  (forall s1 s2, I s1 -> guar s1 s2 -> I s2) ->
  wlp p Q s -> I s -> J s ->
  I (run p chs s tr).1.2 /\ (forall a, (run p chs s tr).2 = Some a -> Q a (run p chs s tr).1.2).
Proof.
  intros Hc Hj Hg. revert s tr. induction Hc as [|ch chs Hch Hc IH] in p |- *; intros s tr Hp Hs HJ.
  - destruct p; simpl in *; split; try done; by intros ? [= <-].
  - destruct p as [a| |c k]; simpl in *; [split; [done|by intros ? [= <-]]|done|].
    destruct Hch as [Ha Hch]. destruct (Hch s HJ) as (Hr & HJ1 & Hi).
    destruct (Hp _ ch Hr Ha) as [Hgs Hk]. specialize (Hg _ _ (Hi Hs) Hgs).
    specialize (Hj c ch _ HJ1).
    destruct (exec c ch (others ch s)) as [r s2] eqn:He; simpl in *. by apply (IH (k r)).
Qed.
End run.

#[global] Arguments wp : simpl never.
#[global] Arguments wlp : simpl never.
