(* ===== verification/Xfer.v ===== *)
(** * serctl-xfer: files of the native transfer helper

    crates/serctl_xfer/src/main.rs on Linux: the errors the helper tells
    apart, its calls, the lock of a transfer, the resume sidecar, private
    files, and the no-replace commit.  [XferServe] holds the protocol on top.

    A path in the pinned parent directory (/proc/self/fd/N/name) is the
    descriptor and the name.  A digest under computation is the bytes hashed
    so far.  Descriptors are not closed in the model, which nothing here
    depends on but the release of the lock at the end of a request.  The
    asynchronous file operations of tokio are their blocking counterparts. *)

From S2P Require Import Prelude.
From S2P Require Import Bytes.
From S2P Require Import Text.
From S2P Require Import Codec.
From S2P Require Import Crates.
From S2P Require Import TransferProtocol.
From S2P Require Import Posix.
From S2P Require Import Program.
#[local] Open Scope string_scope.
#[local] Open Scope list_scope.
#[local] Open Scope Z_scope.

(** ** Paths: [std::path::Path] *)

Definition slash : byte := "/"%byte.
Definition skipped (piece : str) : bool := is_empty piece || bool_decide (piece = rs ".").

(** The pieces of a path, last first, without its trailing empty and [.]
    components; the first piece stays. *)
Fixpoint trimmed (pieces : list str) : list str :=
  match pieces with
  | piece :: (_ :: _) as rest => if skipped piece then trimmed rest else pieces
  | _ => pieces
  end.

Definition pieces_of (p : str) : list str := trimmed (rev (split_on slash p)).

(** [Path::file_name], and [Path::parent] of a path that has one. *)
Definition path_file_name (p : str) : option str :=
  match pieces_of p with
  | piece :: _ =>
      if skipped piece || bool_decide (piece = rs "..") then None else Some piece
  | [] => None
  end.
Definition path_parent (p : str) : str :=
  match trimmed (tail (pieces_of p)) with
  | [[]] => [slash]
  | pieces => join_with slash (rev pieces)
  end.

Definition proc_fd (fd : Z) : str := rs "/proc/self/fd/" ++ decimal fd.
(** [path.display()], and [file_name], [parent] of the paths in use. *)
Definition display (p : path) : str :=
  match p with
  | Given s => s
  | ProcFd fd => proc_fd fd
  | Entry fd n => proc_fd fd ++ slash :: n
  | Under dir n => dir ++ slash :: n
  end.

(** ** Calls *)

Inductive xcall :=
| File (c : call)
| ReadFrame
| Send (f : Frame).

Definition xres (c : xcall) : Type :=
  match c with
  | File c => res c
  | ReadFrame => result (errno + string) (option Frame)
  | Send _ => result errno unit
  end.

Notation xprog := (prog xcall xres).
(** A fallible function of the helper. *)
Notation io A := (xprog (result anyhow A)).

(** Formatting: [{}] is the argument in between. *)
Definition fmt (a : string) (x : str) (b : string) : str := rs a ++ x ++ rs b.
Definition fmt_path (a : string) (p : path) : str := fmt a (display p) "".

Section calls.
Context `{Strerror}.

Definition io_error (e : errno) : anyhow := msg (strerror e).

Definition sys (c : call) : xprog (res c) := @Call xcall xres (res c) (File c) Ret.
(** A call whose error is converted to [anyhow::Error] by [?]. *)
Definition os {A} (p : xprog (result errno A)) : io A := pmap_err io_error p.
Definition bail {A} (s : string) : io A := Ret (Err (msg (rs s))).
Definition checked {A} (r : result string A) : io A := Ret (map_err (fun s => msg (rs s)) r).
(** [.with_context(s)]. *)
Definition within {A} (s : str) (p : io A) : io A := pmap_err (context s) p.
Definition ok {A} (a : A) : io A := Ret (Ok a).
End calls.

(** ** Errors *)

(** [anyhow::Error::new] of the helper's error types. *)
Definition CommitOutcomeUnknown_new (source : anyhow) : anyhow :=
  {| e_types := [CommitOutcomeUnknown];
     e_chain := fmt "native upload commit outcome unknown: " (to_string source) "" :: e_chain source |}.
Definition CommitNotApplied_new (source : anyhow) : anyhow :=
  {| e_types := [CommitNotApplied];
     e_chain := fmt "native upload no-replace commit was not applied: " (to_string source) ""
                  :: e_chain source |}.
Definition cleanup_text (s : str) : str := fmt "native transfer cleanup incomplete: " s "".
Definition CleanupIncomplete_new (s : str) : anyhow :=
  {| e_types := [CleanupIncomplete]; e_chain := [cleanup_text s] |}.
(** [error.context(CleanupIncomplete(s))]. *)
Definition CleanupIncomplete_context (s : str) (e : anyhow) : anyhow :=
  {| e_types := CleanupIncomplete :: e_types e; e_chain := cleanup_text s :: e_chain e |}.
Definition TransferBusy_new : anyhow :=
  {| e_types := [TransferBusy];
     e_chain := [rs "native transfer is already active for this intent"] |}.
Definition print_chain (e : anyhow) : str := alternate (e_chain e).

Definition normalize_post_commit_result (r : result anyhow unit) (commit_applied : bool)
  : result anyhow unit :=
  match r with
  | Err error =>
      if commit_applied && is_a CleanupIncomplete error then Err error
      else if commit_applied then Err (CommitOutcomeUnknown_new error)
      else Err error
  | Ok _ => r
  end.

Definition reconcile_initial_sidecar_failure (sidecar_error : anyhow)
    (cleanup : result anyhow unit) (cleanup_kind : string) : result anyhow unit :=
  match cleanup with
  | Ok _ => Err sidecar_error
  | Err cleanup_error =>
      Err (CleanupIncomplete_new
        (fmt "initial resume sidecar persistence failed: " (print_chain sidecar_error)
           "; identity-verified " ++
         rs cleanup_kind ++ rs " cleanup failed: " ++ print_chain cleanup_error))
  end.

(** ** Constants *)

Definition NATIVE_TRANSFER_LOCK_SCHEMA : Z := 1.
Definition MAX_NATIVE_TRANSFER_LOCK_BYTES : Z := 4096.
Definition RESUME_SIDECAR_SCHEMA : Z := 2.
Definition MAX_RESUME_SIDECAR_BYTES : Z := 16 * 1024.
Definition DEFAULT_CHUNK_BYTES : Z := 256 * 1024.

(** Permission bits: 0o022, 0o077, 0o600, 0o777 and S_ISVTX. *)
Definition GROUP_OTHER_WRITE : Z := 18.
Definition GROUP_OTHER : Z := 63.
Definition OWNER_RW : Z := 384.
Definition ALL_RWX : Z := 511.
Definition S_ISVTX : Z := 512.

(** ** Data *)

Record NativeTransferLockRecord := {
  lk_schema : Z;
  lk_transfer_id : str;
  lk_resume_token_hash : str;
  lk_intent_sha256 : str;
}.
#[export] Instance NativeTransferLockRecord_eq_dec : EqDecision NativeTransferLockRecord.
Proof. solve_decision. Defined.

Inductive ResumeSidecarState := Receiving | Committed.
#[export] Instance ResumeSidecarState_eq_dec : EqDecision ResumeSidecarState.
Proof. solve_decision. Defined.

Record FileIdentity := { fi_device : Z; fi_inode : Z }.
#[export] Instance FileIdentity_eq_dec : EqDecision FileIdentity.
Proof. solve_decision. Defined.

Record ResumeSidecar := {
  sc_schema : Z;
  sc_transfer_id : str;
  sc_size : Z;
  sc_sha256 : str;
  sc_resume_token_hash : str;
  sc_durable_offset : Z;
  sc_file_device : Z;
  sc_file_inode : Z;
  sc_state : ResumeSidecarState;
}.
#[export] Instance ResumeSidecar_eq_dec : EqDecision ResumeSidecar.
Proof. solve_decision. Defined.

(** What identifies the upload a sidecar belongs to. *)
Record Upload := {
  up_transfer_id : str;
  up_size : Z;
  up_sha256 : str;
  up_resume_token_hash : str;
}.

Definition file_identity (m : Metadata) : FileIdentity :=
  {| fi_device := m_dev m; fi_inode := m_ino m |}.

(** ** The lock of a transfer *)

Section xfer.
Context `{Strerror} `{Sha2} `{Hex}.
Context `{Json NativeTransferLockRecord} `{Json ResumeSidecar}.

Definition lock_domain : bytes := rs "serctl-native-transfer-lock-v1" ++ [x00].

Definition lock_field (field : str) : bytes := be64 (zlen field) ++ field.

Definition lock_intent (transfer_id resume_token_hash target_name sha256 : str) (size : Z) : bytes :=
  lock_domain ++
  List.concat (map lock_field [transfer_id; resume_token_hash; target_name; sha256]) ++ be64 size.

Definition NativeTransferLockRecord_new (target : str) (transfer_id : str) (size : Z)
    (sha : str) (resume_token_hash : str) : result anyhow NativeTransferLockRecord :=
  let* target_name := ok_or (path_file_name target)
    (msg (rs "native target file name is not UTF-8")) in
  Ok {| lk_schema := NATIVE_TRANSFER_LOCK_SCHEMA; lk_transfer_id := transfer_id;
        lk_resume_token_hash := resume_token_hash;
        lk_intent_sha256 :=
          hex_encode (sha256 (lock_intent transfer_id resume_token_hash target_name sha size)) |}.

Definition encode_native_transfer_lock_record (record : NativeTransferLockRecord)
  : result anyhow bytes :=
  let* bytes := ok_or (to_vec record) (msg (rs "serialize native transfer lock record")) in
  ensure! negb (is_empty bytes) && (zlen bytes <=? MAX_NATIVE_TRANSFER_LOCK_BYTES)
    or msg (rs "native transfer lock record is empty or too large") ;;
  Ok bytes.

Definition decode_native_transfer_lock_record (bytes : bytes) (expected : NativeTransferLockRecord)
  : result anyhow unit :=
  ensure! negb (is_empty bytes) && (zlen bytes <=? MAX_NATIVE_TRANSFER_LOCK_BYTES)
    or msg (rs "native transfer lock record is empty or too large") ;;
  let* actual := ok_or (from_slice bytes) (msg (rs "parse native transfer lock record")) in
  let* encoded := encode_native_transfer_lock_record actual in
  ensure! bool_decide (encoded = bytes)
    or msg (rs "native transfer lock record is not canonical") ;;
  ensure! bool_decide (actual = expected) or msg (rs "native transfer lock intent mismatch") ;;
  Ok tt.

Record NativeTransferGuard := {
  g_parent : Z;
  g_lock : Z;
  g_pinned_target : path;
  g_lock_path : path;
  g_original_parent : str;
  g_parent_identity : FileIdentity;
  g_lock_identity : FileIdentity;
}.

Definition dir_flags : OpenFlags := {| o_nofollow := true; o_directory := true |}.
Definition file_flags : OpenFlags := {| o_nofollow := true; o_directory := false |}.
Definition follow_flags : OpenFlags := {| o_nofollow := false; o_directory := false |}.

Definition validate_native_transfer_lock_metadata (file : Z) : io unit :=
  let? metadata := os (sys (MetadataOf file)) in
  ensure? bool_decide (m_kind metadata = KFile)
    or msg (rs "native transfer lock is not a regular file") ;;
  let# uid := sys Geteuid in
  ensure? m_uid metadata =? uid
    or msg (rs "native transfer lock belongs to another user") ;;
  ensure? Z.land (m_mode metadata) ALL_RWX =? OWNER_RW
    or msg (rs "native transfer lock permissions are not 0600") ;;
  ensure? m_nlink metadata =? 1
    or msg (rs "native transfer lock has unexpected hard links") ;;
  ok tt.

Definition ensure_still_bound (g : NativeTransferGuard) : io unit :=
  let? held := os (sys (MetadataOf (g_lock g))) in
  ensure? (m_nlink held =? 1) && bool_decide (file_identity held = g_lock_identity g)
    or msg (rs "native transfer lock inode was unlinked or rebound") ;;
  let? parent := os (sys (MetadataOf (g_parent g))) in
  ensure? bool_decide (file_identity parent = g_parent_identity g)
    or msg (rs "pinned native target parent identity changed") ;;
  let? rebound := within (rs "reopen native transfer lock binding")
    (os (sys (Open (g_lock_path g) file_flags))) in
  run? validate_native_transfer_lock_metadata rebound ;;
  let? metadata := os (sys (MetadataOf rebound)) in
  ensure? bool_decide (file_identity metadata = g_lock_identity g)
    or msg (rs "native transfer lock basename was replaced") ;;
  ok tt.

Definition ensure_original_parent_bound (g : NativeTransferGuard) : io unit :=
  let? current := within (rs "reopen original native target parent")
    (os (sys (Open (Given (g_original_parent g)) dir_flags))) in
  let? metadata := os (sys (MetadataOf current)) in
  ensure? bool_decide (file_identity metadata = g_parent_identity g)
    or msg (rs "original native target parent was rebound") ;;
  ok tt.

(** The directory of the target, opened and checked. *)
Definition pin_parent (original_parent : str) : io (Z * FileIdentity) :=
  let? parent := within (fmt "open pinned native target parent " original_parent "")
    (os (sys (Open (Given original_parent) dir_flags))) in
  let? metadata := os (sys (MetadataOf parent)) in
  ensure? bool_decide (m_kind metadata = KDir)
    or msg (rs "native target parent is not a directory") ;;
  let# effective_uid := sys Geteuid in
  ensure? (m_uid metadata =? effective_uid) || (m_uid metadata =? 0)
    or msg (rs "native target parent belongs to an untrusted user") ;;
  let mode := m_mode metadata in
  let writable_by_others := negb (Z.land mode GROUP_OTHER_WRITE =? 0) in
  let sticky := negb (Z.land mode S_ISVTX =? 0) in
  ensure? negb writable_by_others || sticky
    or msg (rs "native target parent permits untrusted directory-entry replacement") ;;
  let parent_identity := file_identity metadata in
  let? pinned_probe := within (rs "open pinned native target parent through procfs")
    (os (sys (Open (ProcFd parent) follow_flags))) in
  let? probed := os (sys (MetadataOf pinned_probe)) in
  ensure? bool_decide (file_identity probed = parent_identity)
    or msg (rs "pinned native target parent identity mismatch") ;;
  ok (parent, parent_identity).

(** The lock file, created or opened; whether it was created. *)
Definition open_lock (lock_path : path) : io (Z * bool) :=
  let# created := sys (CreateNew lock_path OWNER_RW) in
  match created with
  | Ok file => ok (file, true)
  | Err EEXIST =>
      let? file := within (fmt_path "open existing native transfer lock " lock_path)
        (os (sys (Open lock_path file_flags))) in
      ok (file, false)
  | Err error =>
      Ret (Err (context (fmt_path "create native transfer lock " lock_path) (io_error error)))
  end.

(** The record of a lock that was just created. *)
Definition write_lock_record (lock parent : Z) (expected : NativeTransferLockRecord) : io unit :=
  let? bytes := Ret (encode_native_transfer_lock_record expected) in
  run? within (rs "write native transfer lock record") (os (sys (WriteAll lock bytes))) ;;
  run? within (rs "sync native transfer lock record") (os (sys (Sync lock))) ;;
  within (rs "sync native transfer lock parent") (os (sys (Sync parent))).

(** The record of a lock that was there. *)
Definition read_lock_record (lock : Z) (expected : NativeTransferLockRecord) : io unit :=
  let? metadata := os (sys (MetadataOf lock)) in
  let length := m_len metadata in
  ensure? in_range 1 MAX_NATIVE_TRANSFER_LOCK_BYTES length
    or msg (rs "native transfer lock record is empty or too large") ;;
  let? bytes := os (sys (ReadToEnd lock (MAX_NATIVE_TRANSFER_LOCK_BYTES + 1))) in
  ensure? zlen bytes =? length
    or msg (rs "native transfer lock record changed while reading") ;;
  let? position := os (sys (StreamPosition lock)) in
  ensure? position =? length
    or msg (rs "native transfer lock cursor did not consume the complete record") ;;
  Ret (decode_native_transfer_lock_record bytes expected).

Definition lock_name (transfer_id : str) : str := rs ".serctl-native-lock-" ++ transfer_id.

(** [target.parent()], "." if there is none or it is empty. *)
Definition original_parent_of (target : str) : str :=
  match path_file_name target with
  | Some _ => if is_empty (path_parent target) then rs "." else path_parent target
  | None => rs "."
  end.

(** The lock, held: its file checked, locked and matched with the upload. *)
Definition hold_lock (parent : Z) (parent_identity : FileIdentity) (pinned_target lock_path : path)
    (original_parent : str) (expected_record : NativeTransferLockRecord) (lock : Z) (created : bool)
  : io NativeTransferGuard :=
  run? (if created then os (sys (SetPermissions lock OWNER_RW)) else ok tt) ;;
  run? validate_native_transfer_lock_metadata lock ;;
  let# locked := sys (Flock lock) in
  run? match locked with
       | Ok _ => ok tt
       | Err EWOULDBLOCK => Ret (Err TransferBusy_new)
       | Err error => Ret (Err (context (rs "acquire native transfer lock") (io_error error)))
       end ;;
  run? validate_native_transfer_lock_metadata lock ;;
  run? (if created then write_lock_record lock parent expected_record
        else read_lock_record lock expected_record) ;;
  let? metadata := os (sys (MetadataOf lock)) in
  let g := {| g_parent := parent; g_lock := lock; g_pinned_target := pinned_target;
              g_lock_path := lock_path; g_original_parent := original_parent;
              g_parent_identity := parent_identity;
              g_lock_identity := file_identity metadata |} in
  run? ensure_still_bound g ;;
  ok g.

(** [NativeTransferGuard::acquire]. *)
Definition acquire (target : str) (transfer_id : str) (size : Z) (sha : str)
    (resume_token_hash : str) : io NativeTransferGuard :=
  let original_parent := original_parent_of target in
  let? target_name := Ret (ok_or (path_file_name target)
    (msg (rs "native target must have a file name"))) in
  let? (parent, parent_identity) := pin_parent original_parent in
  let pinned_target := Entry parent target_name in
  let lock_path := Entry parent (lock_name transfer_id) in
  let? expected_record :=
    Ret (NativeTransferLockRecord_new target transfer_id size sha resume_token_hash) in
  let? (lock, created) := open_lock lock_path in
  hold_lock parent parent_identity pinned_target lock_path original_parent expected_record
    lock created.

(** ** Private files *)

Definition path_entry_exists (p : path) : io bool :=
  let# r := sys (SymlinkMetadata p) in
  match r with
  | Ok _ => ok true
  | Err ENOENT => ok false
  | Err error => Ret (Err (context (fmt_path "inspect native transfer path " p) (io_error error)))
  end.

Definition create_new_private_file (p : path) (kind : string) : io Z :=
  within (fmt "create native " (rs kind) " " ++ display p) (os (sys (CreateNew p OWNER_RW))).

Definition create_new_private (p : path) : io Z := create_new_private_file p "partial".

(** [writable] asks the kernel for more; what it refuses is its choice. *)
Definition open_existing_private (p : path) (writable : bool) : io Z :=
  let? file := within (fmt_path "open owned native transfer file " p) (os (sys (Open p file_flags))) in
  let? metadata := os (sys (MetadataOf file)) in
  ensure? bool_decide (m_kind metadata = KFile)
    or msg (rs "owned native transfer path is not a regular file") ;;
  ensure? Z.land (m_mode metadata) GROUP_OTHER =? 0
    or msg (rs "owned native transfer file is accessible to another user") ;;
  let# uid := sys Geteuid in
  ensure? m_uid metadata =? uid
    or msg (rs "owned native transfer file belongs to another user") ;;
  ok file.

Definition open_owned_partial (p : path) : io Z := open_existing_private p true.

(** The directory that holds a pinned path. *)
Definition parent_of (p : path) : option path :=
  match p with Entry fd _ => Some (ProcFd fd) | _ => None end.

Definition sync_parent (target : path) : io unit :=
  let? parent := Ret (ok_or (parent_of target)
    (msg (rs "native target has no parent directory"))) in
  let? dir := within (fmt_path "open native target parent " parent)
    (os (sys (Open parent follow_flags))) in
  within (rs "sync native target parent") (os (sys (Sync dir))).

Definition remove_owned_private_file (p : path) (expected_identity : FileIdentity) (kind : string)
  : io unit :=
  let? file := open_owned_partial p in
  let? metadata := os (sys (MetadataOf file)) in
  ensure? bool_decide (file_identity metadata = expected_identity)
    or msg (fmt "refusing to remove a replaced native " (rs kind) "") ;;
  run? within (fmt "remove owned native " (rs kind) " " ++ display p) (os (sys (RemoveFile p))) ;;
  within (fmt "sync removed native " (rs kind) " parent") (sync_parent p).

Definition remove_owned_partial (p : path) (expected_identity : FileIdentity) : io unit :=
  remove_owned_private_file p expected_identity "partial".

(** Reading exactly [until] bytes into the digest: [add] is how the number of
    bytes grows. *)
Definition hash_step (file until : Z) (ended : string) (add : Z -> Z -> result anyhow Z)
    (st : bytes * Z) : io ((bytes * Z) + bytes) :=
  let '(hasher, hashed) := st in
  if hashed <? until then
    let remaining := Z.min (until - hashed) DEFAULT_CHUNK_BYTES in
    let? read := os (sys (Read file remaining)) in
    ensure? negb (is_empty read) or msg (rs ended) ;;
    let? hashed := Ret (add hashed (zlen read)) in
    ok (inl (hasher ++ read, hashed))
  else ok (inr hasher).

(** Every read returns at least a byte. *)
Definition size_fuel (size : Z) : positive := Z.to_pos (size + 2).

Definition hash_loop (file until : Z) (ended : string) (add : Z -> Z -> result anyhow Z) : io bytes :=
  rloop (size_fuel until) (hash_step file until ended add) ([], 0).

Definition hash_file_exact (file size : Z) : io str :=
  run? os (sys (Seek file 0)) ;;
  let? hasher := hash_loop file size "owned native transfer file ended early"
    (fun a b => ok_or (checked_add U64_MAX a b)
                  (msg (rs "owned native transfer hash length overflow"))) in
  let? more := os (sys (Read file 1)) in
  ensure? is_empty more or msg (rs "owned native transfer file grew while hashing") ;;
  ok (hex_encode (sha256 hasher)).

Definition validate_owned_file_identity (file : Z) (expected_identity : FileIdentity)
    (expected_size : Z) : io unit :=
  let? metadata := os (sys (MetadataOf file)) in
  ensure? bool_decide (m_kind metadata = KFile)
    or msg (rs "owned native transfer file is not regular") ;;
  ensure? Z.land (m_mode metadata) GROUP_OTHER =? 0
    or msg (rs "owned native transfer file is accessible to another user") ;;
  let# uid := sys Geteuid in
  ensure? m_uid metadata =? uid
    or msg (rs "owned native transfer file belongs to another user") ;;
  ensure? bool_decide (file_identity metadata = expected_identity)
    or msg (rs "owned native transfer file identity changed") ;;
  ensure? m_len metadata =? expected_size
    or msg (rs "owned native transfer file length changed") ;;
  ok tt.

Definition open_native_source (source : str) : io Z :=
  let? file := os (sys (Open (Given source) follow_flags)) in
  let? metadata := os (sys (MetadataOf file)) in
  ensure? bool_decide (m_kind metadata = KFile)
    or msg (rs "native source is not a regular file") ;;
  ok file.

(** ** The resume sidecar *)

Definition ResumeSidecar_new (up : Upload) (durable_offset : Z) (identity : FileIdentity)
    (state : ResumeSidecarState) : ResumeSidecar :=
  {| sc_schema := RESUME_SIDECAR_SCHEMA; sc_transfer_id := up_transfer_id up;
     sc_size := up_size up; sc_sha256 := up_sha256 up;
     sc_resume_token_hash := up_resume_token_hash up; sc_durable_offset := durable_offset;
     sc_file_device := fi_device identity; sc_file_inode := fi_inode identity;
     sc_state := state |}.

Definition sidecar_validate (self : ResumeSidecar) (up : Upload) (identity : FileIdentity)
  : result anyhow unit :=
  ensure! sc_schema self =? RESUME_SIDECAR_SCHEMA
    or msg (rs "unsupported resume sidecar schema") ;;
  ensure! bool_decide (sc_transfer_id self = up_transfer_id up)
    or msg (rs "resume transfer id mismatch") ;;
  ensure! sc_size self =? up_size up or msg (rs "resume source size mismatch") ;;
  ensure! bool_decide (sc_sha256 self = up_sha256 up)
    or msg (rs "resume source SHA-256 mismatch") ;;
  ensure! bool_decide (sc_resume_token_hash self = up_resume_token_hash up)
    or msg (rs "resume ownership token mismatch") ;;
  ensure! sc_durable_offset self <=? up_size up
    or msg (rs "resume durable offset exceeds source size") ;;
  ensure! (sc_file_device self =? fi_device identity) && (sc_file_inode self =? fi_inode identity)
    or msg (rs "resume partial identity mismatch") ;;
  if bool_decide (sc_state self = Committed) then
    ensure! sc_durable_offset self =? up_size up
      or msg (rs "committed resume receipt is not fully durable") ;;
    Ok tt
  else Ok tt.

Definition with_state (self : ResumeSidecar) (state : ResumeSidecarState) : ResumeSidecar :=
  {| sc_schema := sc_schema self; sc_transfer_id := sc_transfer_id self; sc_size := sc_size self;
     sc_sha256 := sc_sha256 self; sc_resume_token_hash := sc_resume_token_hash self;
     sc_durable_offset := sc_durable_offset self; sc_file_device := sc_file_device self;
     sc_file_inode := sc_file_inode self; sc_state := state |}.

Definition append_name (p : path) (suffix : str) : path :=
  match p with
  | Given s => Given (s ++ suffix)
  | ProcFd fd => Given (proc_fd fd ++ suffix)
  | Entry fd n => Entry fd (n ++ suffix)
  | Under dir n => Under dir (n ++ suffix)
  end.

Definition native_sidecar_path (partial : path) : path := append_name partial (rs ".json").

(** Of a pinned target. *)
Definition native_partial_path (target : path) (transfer_id : str) : result anyhow path :=
  match target with
  | Entry fd n => Ok (Entry fd (n ++ rs ".serctl-native-part-" ++ transfer_id))
  | _ => Err (msg (rs "native transfer target must have a file name"))
  end.

Definition read_resume_sidecar (p : path) : io ResumeSidecar :=
  let? file := open_existing_private p false in
  let? metadata := os (sys (MetadataOf file)) in
  let length := m_len metadata in
  ensure? in_range 1 MAX_RESUME_SIDECAR_BYTES length
    or msg (rs "resume sidecar is empty or too large") ;;
  let? bytes := os (sys (ReadToEnd file (MAX_RESUME_SIDECAR_BYTES + 1))) in
  ensure? zlen bytes =? length or msg (rs "resume sidecar changed while reading") ;;
  Ret (ok_or (from_slice bytes) (msg (rs "parse resume sidecar"))).

Definition encode_resume_sidecar (state : ResumeSidecar) : result anyhow bytes :=
  let* bytes := ok_or (to_vec state) (msg (rs "serialize resume sidecar")) in
  ensure! zlen bytes <=? MAX_RESUME_SIDECAR_BYTES
    or msg (rs "resume sidecar is too large") ;;
  Ok bytes.

(** The write of a sidecar that was just created. *)
Definition persist_sidecar (file : Z) (p : path) (bytes : bytes) : io unit :=
  run? within (rs "write initial resume sidecar") (os (sys (WriteAll file bytes))) ;;
  run? within (rs "sync initial resume sidecar") (os (sys (Sync file))) ;;
  within (rs "sync initial resume sidecar parent") (sync_parent p).

Definition create_resume_sidecar (p : path) (state : ResumeSidecar) : io unit :=
  let? bytes := Ret (encode_resume_sidecar state) in
  let? file := create_new_private_file p "resume sidecar" in
  let? metadata := os (sys (MetadataOf file)) in
  let identity := file_identity metadata in
  let# persistence := persist_sidecar file p bytes in
  match persistence with
  | Ok _ => ok tt
  | Err error =>
      let# cleanup := remove_owned_private_file p identity "resume sidecar" in
      Ret (reconcile_initial_sidecar_failure error cleanup "resume sidecar")
  end.

Definition replace_resume_sidecar_unchecked (p : path) (state : ResumeSidecar) : io unit :=
  let? bytes := Ret (encode_resume_sidecar state) in
  let? file := within (fmt_path "open resume sidecar temporary for " p)
    (os (sys (AtomicOpen p))) in
  run? os (sys (SetPermissions file OWNER_RW)) ;;
  run? os (sys (WriteAll file bytes)) ;;
  within (fmt_path "commit resume sidecar " p) (os (sys (AtomicCommit file p))).

Definition replace_verified_resume_sidecar (p : path) (up : Upload)
    (expected_identity : FileIdentity) (expected_durable : Z)
    (expected_state : ResumeSidecarState) (next : ResumeSidecar) : io unit :=
  let? current := read_resume_sidecar p in
  run? Ret (sidecar_validate current up expected_identity) ;;
  ensure? (sc_durable_offset current =? expected_durable)
          && bool_decide (sc_state current = expected_state)
    or msg (rs "resume sidecar changed before its verified update") ;;
  replace_resume_sidecar_unchecked p next.

Definition remove_owned_sidecar (p : path) (up : Upload) (expected_identity : FileIdentity)
  : io unit :=
  let? state := read_resume_sidecar p in
  run? Ret (sidecar_validate state up expected_identity) ;;
  run? within (fmt_path "remove owned native sidecar " p) (os (sys (RemoveFile p))) ;;
  within (rs "sync removed native sidecar parent") (sync_parent p).

(** ** Cleaning up a failed upload *)

(** The text of a failure, if it is one. *)
Definition failure (r : result anyhow unit) : list str :=
  match r with Ok _ => [] | Err e => [to_string e] end.

(** Back to the durable prefix, for a later resume. *)
Definition truncate_to_durable (partial : path) (expected_identity : FileIdentity) (durable : Z)
  : xprog (list str) :=
  let# opened := open_owned_partial partial in
  match opened with
  | Ok file =>
      let# metadata := sys (MetadataOf file) in
      match map_err strerror metadata with
      | Ok m =>
          if bool_decide (file_identity m = expected_identity) then
            let# cut := sys (SetLen file durable) in
            match map_err strerror cut with
            | Err error => Ret [fmt "truncate owned partial: " error ""]
            | Ok _ =>
                let# synced := sys (Sync file) in
                match map_err strerror synced with
                | Err error => Ret [fmt "sync truncated owned partial: " error ""]
                | Ok _ => Ret []
                end
            end
          else Ret [rs "refusing to truncate a replaced native partial"]
      | Err error => Ret [fmt "inspect owned partial: " error ""]
      end
  | Err error => Ret [to_string error]
  end.

Fixpoint join_failures (l : list str) : str :=
  match l with
  | [] => []
  | [s] => s
  | s :: l => s ++ rs "; " ++ join_failures l
  end.

Definition cleanup_failed_upload (partial sidecar : path) (up : Upload)
    (expected_identity : FileIdentity) (durable : Z) (resume committed : bool) : io unit :=
  let# failures :=
    if committed || negb resume then
      let# removed := remove_owned_partial partial expected_identity in
      if negb resume then
        let# removed' := remove_owned_sidecar sidecar up expected_identity in
        Ret (failure removed ++ failure removed')
      else Ret (failure removed)
    else truncate_to_durable partial expected_identity durable in
  ensure? is_empty failures or msg (join_failures failures) ;;
  ok tt.

(** ** The no-replace commit *)

Record PreparedNoReplaceCommit := {
  pc_parent : Z;
  pc_target_name : str;
  pc_source_fd : Z;
  pc_expected_identity : FileIdentity;
  pc_expected_size : Z;
}.

Definition prepare_commit (file : Z) (target : path) (expected_identity : FileIdentity)
    (expected_size : Z) : io PreparedNoReplaceCommit :=
  let? (fd, target_name) := Ret (match target with
    | Entry fd n => Ok (fd, n)
    | _ => Err (msg (rs "native upload commit target is not bound to a pinned parent descriptor"))
    end) in
  ensure? negb (contains_byte x00 target_name)
    or msg (rs "native target file name contains NUL") ;;
  let? parent := within (fmt_path "open pinned native target parent " (ProcFd fd))
    (os (sys (Open (ProcFd fd) {| o_nofollow := false; o_directory := true |}))) in
  let? metadata := os (sys (MetadataOf parent)) in
  ensure? bool_decide (m_kind metadata = KDir)
    or msg (rs "native target parent is not a directory") ;;
  let mode := m_mode metadata in
  let writable_by_others := negb (Z.land mode GROUP_OTHER_WRITE =? 0) in
  let sticky := negb (Z.land mode S_ISVTX =? 0) in
  let# effective_uid := sys Geteuid in
  ensure? negb writable_by_others
          || (sticky && ((m_uid metadata =? 0) || (m_uid metadata =? effective_uid)))
    or msg (rs "native target parent permits untrusted directory-entry replacement") ;;
  run? validate_owned_file_identity file expected_identity expected_size ;;
  let? source_probe := within (rs "open descriptor-bound native commit source through procfs")
    (os (sys (Open (ProcFd file) follow_flags))) in
  let? probed := os (sys (MetadataOf source_probe)) in
  ensure? bool_decide (file_identity probed = expected_identity)
    or msg (rs "descriptor-bound native commit source identity mismatch") ;;
  ok {| pc_parent := parent; pc_target_name := target_name; pc_source_fd := file;
        pc_expected_identity := expected_identity; pc_expected_size := expected_size |}.

Definition open_committed_target (c : PreparedNoReplaceCommit) : io Z :=
  let? file := within (rs "open descriptor-bound committed native target")
    (os (sys (Open (Entry (pc_parent c) (pc_target_name c)) file_flags))) in
  run? validate_owned_file_identity file (pc_expected_identity c) (pc_expected_size c) ;;
  ok file.

(** Everything after a successful link. *)
Definition confirm_link (c : PreparedNoReplaceCommit) : io unit :=
  let? first := open_committed_target c in
  run? within (rs "sync pinned native target parent") (os (sys (Sync (pc_parent c)))) ;;
  let? second := open_committed_target c in
  let? m1 := os (sys (MetadataOf first)) in
  let? m2 := os (sys (MetadataOf second)) in
  ensure? bool_decide (file_identity m1 = file_identity m2)
    or msg (rs "native target directory entry changed during commit") ;;
  ok tt.

Definition commit (c : PreparedNoReplaceCommit) : io unit :=
  let# linked := sys (Link (pc_source_fd c) (Entry (pc_parent c) (pc_target_name c))) in
  match linked with
  | Err error =>
      Ret (Err (CommitNotApplied_new
        (context (rs "descriptor-bound no-replace native commit") (io_error error))))
  | Ok _ => confirm_link c
  end.

End xfer.
