(* ===== verification/XferServe.v ===== *)
(** * serctl-xfer: serving uploads and downloads

    crates/serctl_xfer/src/main.rs: the identity of the helper, the handshake,
    [serve_push] and [serve_pull].  A session reads frames from [incoming] and
    the frames it has written completely are in [sent]. *)

From S2P Require Import Prelude.
From S2P Require Import Bytes.
From S2P Require Import Text.
From S2P Require Import Codec.
From S2P Require Import Crates.
From S2P Require Import TransferProtocol.
From S2P Require Import Posix.
From S2P Require Import Program.
From S2P Require Import Xfer.
#[local] Open Scope string_scope.
#[local] Open Scope list_scope.
#[local] Open Scope Z_scope.

Record Session := {
  files : World;
  incoming : bytes;
  sent : list Frame;
}.

Definition with_files (s : Session) (w : World) : Session :=
  {| files := w; incoming := incoming s; sent := sent s |}.

(** The state of [serve_push] that its cleanup looks at. *)
Record Locals := {
  owned : bool;
  owned_identity : option FileIdentity;
  commit_applied : bool;
  durable : Z;
}.

(** A part of [serve_push] that may change it and may fail. *)
Notation push A := (Locals -> xprog (Locals * result anyhow A)).

Definition pret {A} (a : A) : push A := fun l => Ret (l, Ok a).
Definition pfail {A} (e : anyhow) : push A := fun l => Ret (l, Err e).
Definition up {A} (p : io A) : push A := fun l => let# r := p in Ret (l, r).
Definition put (f : Locals -> Locals) : push unit := fun l => Ret (f l, Ok tt).
Definition get {A} (f : Locals -> A) : push A := fun l => Ret (l, Ok (f l)).
Definition push_bind {A B} (p : push A) (k : A -> push B) : push B :=
  fun l => let# (l, r) := p l in
           match r with
           | Ok a => k a l
           | Err e => Ret (l, Err e)
           end.
Definition push_loop {X A} (fuel : positive) (body : X -> push (X + A)) (x : X) : push A :=
  fun l => ploop fuel (fun '(x, l) =>
             let# (l, r) := body x l in
             match r with
             | Ok (inl x) => Ret (inl (x, l))
             | Ok (inr a) => Ret (inr (l, Ok a))
             | Err e => Ret (inr (l, Err e))
             end) (x, l).

Notation "'let&' x ':=' p 'in' k" := (push_bind p (fun x => k))
  (at level 10, x pattern, p at level 200, k at level 200) : prog_scope.
Notation "'run&' p ;; k" := (push_bind p (fun _ => k))
  (at level 10, p at level 99, k at level 200) : prog_scope.
Notation "'ensure&' b 'or' e ;; k" := (push_bind (up (Ret (ensure b e))) (fun _ => k))
  (at level 10, b at level 99, e at level 99, k at level 200) : prog_scope.

Section serve.
Context `{Strerror} `{Sha2} `{Hex} `{Json Control}.
Context `{Json NativeTransferLockRecord} `{Json ResumeSidecar}.

(** ** The transport *)

(** The files are [exec]; reading a frame consumes its bytes, and a frame that
    is written is written whole or fails. *)
Definition xexec (c : xcall) (ch : choice) (s : Session) : xres c * Session :=
  match c with
  | File c => let (r, w) := exec c ch (files s) in (r, with_files s w)
  | ReadFrame =>
      match fault ch with
      | Some (code, _) => (Err (inl (EOTHER code)), s)
      | None =>
          match read_frame (incoming s) with
          | Ok (f, rest) => (Ok f, {| files := files s; incoming := rest; sent := sent s |})
          | Err e => (Err (inr e), s)
          end
      end
  | Send f =>
      match fault ch with
      | Some (code, _) => (Err (EOTHER code), s)
      | None => (Ok tt, {| files := files s; incoming := incoming s; sent := sent s ++ [f] |})
      end
  end.

Definition read_frame_io : io (option Frame) :=
  let# r := @Call xcall xres (xres ReadFrame) ReadFrame Ret in
  Ret (map_err (fun e => match e with inl e => io_error e | inr s => msg (rs s) end) r).

Definition send (f : Frame) : io unit := os (@Call xcall xres (xres (Send f)) (Send f) Ret).

Definition write_control_io (c : Control) : io unit :=
  run? checked (write_control c) ;; send (FControl c).
Definition write_handshake_control_io (c : Control) (sender : HandshakePeer) : io unit :=
  run? checked (write_handshake_control c sender) ;; send (FControl c).
Definition write_data_io (d : DataFrame) : io unit :=
  run? checked (write_data d) ;; send (FData d).

(** ** The identity of the running helper *)

Section identity.
(** CARGO_PKG_VERSION and SERCTL_BUILD_COMMIT. *)
Context (pkg_version build_commit : str).

Definition xfer_version_line : str :=
  fmt "serctl-xfer " pkg_version " (git " ++ build_commit ++
  rs "; transfer protocol v" ++ decimal VERSION ++ rs ")".

Definition IMAGE_BUFFER : Z := 64 * 1024.

Definition image_step (reader : Z) (st : bytes * Z) : io ((bytes * Z) + (bytes * Z)) :=
  let '(hasher, copied) := st in
  let? read := within (rs "hash native helper self-image") (os (sys (Read reader IMAGE_BUFFER))) in
  if is_empty read then ok (inr (hasher, copied))
  else
    let? copied := Ret (ok_or (checked_add U64_MAX copied (zlen read))
      (msg (rs "native helper self-image size overflow"))) in
    ensure? copied <=? MAX_HELPER_BINARY_BYTES
      or msg (rs "native helper self-image exceeds its size bound") ;;
    ok (inl (hasher ++ read, copied)).

Definition helper_runtime_identity_from_reader (reader binary_size : Z) : io HelperRuntimeIdentity :=
  ensure? in_range 1 MAX_HELPER_BINARY_BYTES binary_size
    or msg (rs "native helper self-image size is invalid") ;;
  let? (hasher, copied) :=
    rloop (size_fuel MAX_HELPER_BINARY_BYTES) (image_step reader) ([], 0) in
  ensure? copied =? binary_size
    or msg (rs "native helper self-image changed while it was hashed") ;;
  let identity := {| name := HELPER_BINARY_NAME; binary_size := binary_size;
                     identity_sha256 := hex_encode (sha256 hasher);
                     version := xfer_version_line |} in
  run? checked (identity_validate identity) ;;
  ok identity.

Definition helper_runtime_identity_from_file (file : Z) : io HelperRuntimeIdentity :=
  let? metadata := within (rs "read native helper self-image metadata")
    (os (sys (MetadataOf file))) in
  ensure? bool_decide (m_kind metadata = KFile)
    or msg (rs "native helper self-image is not a regular file") ;;
  helper_runtime_identity_from_reader file (m_len metadata).

Definition helper_runtime_identity : io HelperRuntimeIdentity :=
  let? file := within (rs "open native helper self-image")
    (os (sys (Open (Given (rs "/proc/self/exe")) follow_flags))) in
  helper_runtime_identity_from_file file.
End identity.

(** ** Downloads *)

(** A path of the client. *)
Definition path_ok (p : str) : bool :=
  negb (is_empty p) && (zlen p <=? 4096) && negb (contains_byte x00 p).

(** The pass over the whole source: everything read, the prefix of it before
    the requested offset, and how much was read. *)
Definition source_step (file chunk offset : Z) (st : bytes * bytes * Z)
  : io ((bytes * bytes * Z) + (bytes * bytes * Z)) :=
  let '(hasher, sent_hasher, hashed) := st in
  let? read := os (sys (Read file chunk)) in
  if is_empty read then ok (inr (hasher, sent_hasher, hashed))
  else
    let sent_hasher :=
      if hashed <? offset
      then sent_hasher ++ take (Z.to_nat (Z.min (offset - hashed) (zlen read))) read
      else sent_hasher in
    let? hashed' := Ret (ok_or (checked_add U64_MAX hashed (zlen read))
      (msg (rs "native pull hash byte count overflow"))) in
    ok (inl (hasher ++ read, sent_hasher, hashed')).

(** One chunk sent and its acknowledgement. *)
Definition pull_step (file : Z) (transfer_id : bytes) (chunk window : Z)
    (st : bytes * Z * Z) : io ((bytes * Z * Z) + (bytes * Z)) :=
  let '(sent_hasher, confirmed, durable) := st in
  let? read := os (sys (Read file chunk)) in
  if is_empty read then ok (inr (sent_hasher, confirmed))
  else
    let? data := checked (data_new transfer_id confirmed read) in
    run? write_data_io data ;;
    let sent_hasher := sent_hasher ++ read in
    let? next := Ret (ok_or (checked_add U64_MAX confirmed (zlen read))
      (msg (rs "native pull offset overflow"))) in
    let? frame := read_frame_io in
    match frame with
    | Some (FControl (Ack confirmed_offset durable_offset receiver_window)) =>
        if (confirmed_offset =? next) && (durable <=? durable_offset)
           && (durable_offset <=? confirmed_offset) && (chunk <=? receiver_window)
           && (receiver_window <=? window)
        then ok (inl (sent_hasher, next, durable_offset))
        else bail "native pull acknowledgement mismatch"
    | Some (FControl Cancel) => bail "transfer cancelled"
    | _ => bail "native pull acknowledgement mismatch"
    end.

Definition U64_FUEL : positive := Z.to_pos (U64_MAX + 2).

Definition serve_pull (transfer_id source : str) (offset chunk window : Z) : io unit :=
  ensure? path_ok source or msg (rs "invalid source path") ;;
  let? transfer_id_bytes := checked (parse_transfer_id transfer_id) in
  let? source_file := within (fmt "open native source " source "") (open_native_source source) in
  let? before := within (fmt "inspect native source " source "")
    (os (sys (MetadataOf source_file))) in
  ensure? bool_decide (m_kind before = KFile)
    or msg (rs "native source is not a regular file") ;;
  let size := m_len before in
  ensure? offset <=? size or msg (rs "native pull offset exceeds source size") ;;
  let? (hasher, sent_hasher, hashed) :=
    rloop U64_FUEL (source_step source_file chunk offset) ([], [], 0) in
  ensure? hashed =? size or msg (rs "native source changed while hashing") ;;
  let? after := os (sys (MetadataOf source_file)) in
  ensure? m_len after =? size or msg (rs "native source changed while hashing") ;;
  ensure? m_mtime before =? m_mtime after or msg (rs "native source changed while hashing") ;;
  let sha := hex_encode (sha256 hasher) in
  run? os (sys (Seek source_file offset)) ;;
  run? write_control_io (PullReady chunk window size sha offset) ;;
  let? (sent_hasher, confirmed) :=
    rloop U64_FUEL (pull_step source_file transfer_id_bytes chunk window)
      (sent_hasher, offset, offset) in
  ensure? confirmed =? size or msg (rs "native source changed while reading") ;;
  ensure? bool_decide (hex_encode (sha256 sent_hasher) = sha)
    or msg (rs "native source changed after its identity was announced") ;;
  let? final_metadata := os (sys (MetadataOf source_file)) in
  ensure? m_len final_metadata =? size or msg (rs "native source changed while reading") ;;
  ensure? m_mtime before =? m_mtime final_metadata
    or msg (rs "native source changed while reading") ;;
  write_control_io (Completed size sha).

(** ** Uploads *)

Record PushRequest := {
  rq_transfer_id : str;
  rq_target : str;
  rq_size : Z;
  rq_expected_sha256 : str;
  rq_resume_token : str;
  rq_resume : bool;
  rq_chunk : Z;
  rq_window : Z;
}.

Definition init_locals : Locals :=
  {| owned := false; owned_identity := None; commit_applied := false; durable := 0 |}.
Definition set_owned (b : bool) (l : Locals) : Locals :=
  {| owned := b; owned_identity := owned_identity l; commit_applied := commit_applied l;
     durable := durable l |}.
Definition set_owned_identity (i : FileIdentity) (l : Locals) : Locals :=
  {| owned := owned l; owned_identity := Some i; commit_applied := commit_applied l;
     durable := durable l |}.
Definition set_commit_applied (l : Locals) : Locals :=
  {| owned := owned l; owned_identity := owned_identity l; commit_applied := true;
     durable := durable l |}.
Definition set_durable (d : Z) (l : Locals) : Locals :=
  {| owned := owned l; owned_identity := owned_identity l; commit_applied := commit_applied l;
     durable := d |}.

Section push.
(** What [serve_push] has computed before its state machine starts. *)
Context (g : NativeTransferGuard) (rq : PushRequest) (up_ : Upload) (transfer_id_bytes : bytes).
Context (target partial sidecar : path).

Definition the_sidecar (durable_offset : Z) (identity : FileIdentity) (state : ResumeSidecarState)
  : ResumeSidecar := ResumeSidecar_new up_ durable_offset identity state.

(** [.map_err(|error| CleanupIncomplete(format!("...: {error:#}")))]. *)
Definition as_cleanup (prefix : str) (p : io unit) : io unit :=
  pmap_err (fun error => CleanupIncomplete_new (prefix ++ rs ": " ++ print_chain error)) p.

(** The client of a recovered upload confirms, and learns that it is complete. *)
Definition confirm_recovered : push unit :=
  run& up (write_control_io (Ready (rq_chunk rq) (rq_window rq) (rq_size rq))) ;;
  let& frame := up read_frame_io in
  run& up (match frame with
           | Some (FControl Commit) => ok tt
           | Some (FControl Cancel) => bail "transfer cancelled"
           | Some _ => bail "unexpected frame while recovering native commit receipt"
           | None => bail "native transfer client disconnected during receipt recovery"
           end) ;;
  run& up (ensure_still_bound g) ;;
  run& up (ensure_original_parent_bound g) ;;
  up (write_control_io (Completed (rq_size rq) (rq_expected_sha256 rq))).

(** The destination was verified: its entry is made durable, the receipt is
    promoted and a partial that was kept as evidence is removed. *)
Definition settle_recovered (state : ResumeSidecar) (target_identity : FileIdentity) : push unit :=
  run& up (ensure_still_bound g) ;;
  run& up (ensure_original_parent_bound g) ;;
  run& up (within (rs "sync recovered native target parent") (sync_parent target)) ;;
  let committed := with_state state Committed in
  run& up (ensure_still_bound g) ;;
  run& up (as_cleanup (rs "persist recovered native commit receipt")
    (replace_verified_resume_sidecar sidecar up_ target_identity (sc_durable_offset state)
       (sc_state state) committed)) ;;
  let& residue := up (path_entry_exists partial) in
  run& (if residue : bool then
          run& up (ensure_still_bound g) ;;
          up (as_cleanup (fmt_path "recovered committed partial " partial)
                (remove_owned_partial partial target_identity))
        else pret tt) ;;
  confirm_recovered.

(** The destination exists: only the upload that committed it goes on. *)
Definition recover_committed : push unit :=
  ensure& rq_resume rq
    or msg (rs "destination already exists and this request has no resume proof") ;;
  let& state := up (within (rs "destination exists without a readable commit receipt")
                      (read_resume_sidecar sidecar)) in
  let& target_file := up (open_existing_private target false) in
  let& metadata := up (os (sys (MetadataOf target_file))) in
  let target_identity := file_identity metadata in
  run& up (Ret (sidecar_validate state up_ target_identity)) ;;
  ensure& sc_durable_offset state =? rq_size rq
    or msg (rs "destination exists without a fully durable commit receipt") ;;
  let& actual := up (hash_file_exact target_file (rq_size rq)) in
  ensure& bool_decide (actual = rq_expected_sha256 rq)
    or msg (rs "committed destination no longer matches its receipt") ;;
  run& put set_commit_applied ;;
  settle_recovered state target_identity.

(** The pass over the durable prefix of a resumed partial; [hashed += read]
    stays at most [durable]. *)
Definition hash_prefix (file prefix : Z) : io bytes :=
  hash_loop file prefix "native resume partial ended before durable offset"
    (fun a b => Ok (a + b)).

(** The partial of an earlier request, cut to its durable prefix. *)
Definition continue_upload : push (Z * FileIdentity * bytes) :=
  let& state := up (read_resume_sidecar sidecar) in
  let& file := up (open_owned_partial partial) in
  let& metadata := up (os (sys (MetadataOf file))) in
  let identity := file_identity metadata in
  run& up (Ret (sidecar_validate state up_ identity)) ;;
  ensure& bool_decide (sc_state state = Receiving)
    or msg (rs "committed receipt exists but its destination is missing") ;;
  run& put (set_durable (sc_durable_offset state)) ;;
  let durable := sc_durable_offset state in
  let length := m_len metadata in
  ensure& (durable <=? length) && (length <=? rq_size rq)
    or msg (rs "native resume partial length is inconsistent") ;;
  run& (if negb (length =? durable) then
          run& up (ensure_still_bound g) ;;
          run& up (within (rs "truncate owned partial to its durable prefix")
                     (os (sys (SetLen file durable)))) ;;
          up (within (rs "sync truncated owned partial") (os (sys (Sync file))))
        else pret tt) ;;
  run& up (os (sys (Seek file 0))) ;;
  let& hasher := up (hash_prefix file durable) in
  run& up (os (sys (Seek file durable))) ;;
  pret (file, identity, hasher).

(** A new partial with its first sidecar. *)
Definition start_upload : push (Z * FileIdentity * bytes) :=
  run& up (ensure_still_bound g) ;;
  let& file := up (create_new_private partial) in
  run& put (set_owned true) ;;
  let& metadata := up (os (sys (MetadataOf file))) in
  let identity := file_identity metadata in
  let state := the_sidecar 0 identity Receiving in
  run& up (ensure_still_bound g) ;;
  let& created := up (let# r := create_resume_sidecar sidecar state in ok r) in
  match created with
  | Err error =>
      let& cleanup := up (let# r := (run? ensure_still_bound g ;;
                                     remove_owned_partial partial identity) in ok r) in
      up (Ret (match reconcile_initial_sidecar_failure error cleanup "partial" with
               | Ok _ => Ok (file, identity, [])
               | Err e => Err e
               end))
  | Ok _ => pret (file, identity, [])
  end.

(** The sidecar after [durable_offset] bytes were synced. *)
Definition record_durable (identity : FileIdentity) (previous_durable durable_offset : Z)
    (state : ResumeSidecarState) : io unit :=
  replace_verified_resume_sidecar sidecar up_ identity previous_durable Receiving
    (the_sidecar durable_offset identity state).

(** A data frame: checked, written, made durable once per window, confirmed. *)
Definition receive_data (file : Z) (identity : FileIdentity) (data : DataFrame)
    (st : bytes * Z) : push (bytes * Z) :=
  let '(hasher, confirmed) := st in
  ensure& bool_decide (transfer_id data = transfer_id_bytes)
    or msg (rs "transfer id mismatch") ;;
  ensure& offset data =? confirmed
    or msg (rs "native transfer offset gap, replay, or reordering") ;;
  ensure& zlen (payload data) <=? rq_chunk rq
    or msg (rs "native transfer chunk exceeds the negotiated size") ;;
  let& next := up (Ret (ok_or (checked_add U64_MAX confirmed (zlen (payload data)))
    (msg (rs "native transfer size overflow")))) in
  ensure& next <=? rq_size rq or msg (rs "native transfer exceeded declared size") ;;
  run& up (ensure_still_bound g) ;;
  run& up (os (sys (WriteAll file (payload data)))) ;;
  let hasher := hasher ++ payload data in
  let confirmed := next in
  let& previous_durable := get durable in
  run& (if rq_window rq <=? saturating_sub confirmed previous_durable then
          run& up (ensure_still_bound g) ;;
          run& up (os (sys (Sync file))) ;;
          run& put (set_durable confirmed) ;;
          run& up (ensure_still_bound g) ;;
          up (record_durable identity previous_durable confirmed Receiving)
        else pret tt) ;;
  let& d := get durable in
  run& up (write_control_io (Ack confirmed d (rq_window rq))) ;;
  pret (hasher, confirmed).

Definition receive_step (file : Z) (identity : FileIdentity) (st : bytes * Z)
  : push ((bytes * Z) + (bytes * Z)) :=
  let& frame := up read_frame_io in
  match frame with
  | Some (FData data) => let& st := receive_data file identity data st in pret (inl st)
  | Some (FControl Commit) => pret (inr st)
  | Some (FControl Cancel) => up (bail "transfer cancelled")
  | Some _ => up (bail "unexpected native transfer frame")
  | None => up (bail "native transfer client disconnected")
  end.

(** Every data frame brings at least a byte. *)
Definition receive (file : Z) (identity : FileIdentity) (st : bytes * Z) : push (bytes * Z) :=
  push_loop (size_fuel (rq_size rq - snd st)) (receive_step file identity) st.

(** What is on disk is read again, before it is linked. *)
Definition verify_on_disk (file : Z) (identity : FileIdentity) : push str :=
  run& up (validate_owned_file_identity file identity (rq_size rq)) ;;
  let& actual_sha256 := up (hash_file_exact file (rq_size rq)) in
  ensure& bool_decide (actual_sha256 = rq_expected_sha256 rq)
    or msg (rs "native transfer on-disk SHA-256 mismatch") ;;
  run& up (validate_owned_file_identity file identity (rq_size rq)) ;;
  run& up (ensure_still_bound g) ;;
  run& up (ensure_original_parent_bound g) ;;
  pret actual_sha256.

(** Everything was received: make it durable and verify what is on disk. *)
Definition verify_received (file : Z) (identity : FileIdentity) (hasher : bytes) (confirmed : Z)
  : push str :=
  ensure& confirmed =? rq_size rq or msg (rs "native transfer size mismatch") ;;
  let streamed_sha256 := hex_encode (sha256 hasher) in
  ensure& bool_decide (streamed_sha256 = rq_expected_sha256 rq)
    or msg (rs "native transfer SHA-256 mismatch") ;;
  run& up (ensure_still_bound g) ;;
  run& up (os (sys (Sync file))) ;;
  let& previous_durable := get durable in
  run& put (set_durable (rq_size rq)) ;;
  run& up (ensure_still_bound g) ;;
  run& up (record_durable identity previous_durable (rq_size rq) Receiving) ;;
  verify_on_disk file identity.

(** The link, and the receipts and names that are cleaned up after it. *)
Definition commit_upload (file : Z) (identity : FileIdentity) : push unit :=
  let& prepared := up (prepare_commit file target identity (rq_size rq)) in
  run& up (pmap_err (fun error => if is_a CommitNotApplied error then error
                                  else CommitOutcomeUnknown_new error) (commit prepared)) ;;
  run& put set_commit_applied ;;
  run& up (ensure_still_bound g) ;;
  run& up (ensure_original_parent_bound g) ;;
  let& d := get durable in
  run& (if rq_resume rq then
          run& up (ensure_still_bound g) ;;
          up (as_cleanup (rs "persist native commit receipt")
                (record_durable identity d d Committed))
        else pret tt) ;;
  run& up (ensure_still_bound g) ;;
  run& up (as_cleanup (fmt_path "committed partial " partial)
             (remove_owned_partial partial identity)) ;;
  run& (if negb (rq_resume rq) then
          run& up (ensure_still_bound g) ;;
          up (as_cleanup (fmt_path "committed sidecar " sidecar)
                (remove_owned_sidecar sidecar up_ identity))
        else pret tt) ;;
  put (set_owned false).

(** The [async] block of [serve_push]. *)
Definition push_block : push unit :=
  let& exists_ := up (path_entry_exists target) in
  if exists_ : bool then recover_committed
  else
    let& has_sidecar := (if rq_resume rq then up (path_entry_exists sidecar) else pret false) in
    let& (file, identity, hasher) :=
      (if has_sidecar : bool then continue_upload else start_upload) in
    run& put (set_owned true) ;;
    run& put (set_owned_identity identity) ;;
    let& d := get durable in
    run& up (write_control_io (Ready (rq_chunk rq) (rq_window rq) d)) ;;
    let& (hasher, confirmed) := receive file identity (hasher, d) in
    let& actual_sha256 := verify_received file identity hasher confirmed in
    run& commit_upload file identity ;;
    run& up (ensure_still_bound g) ;;
    run& up (ensure_original_parent_bound g) ;;
    up (write_control_io (Completed (rq_size rq) actual_sha256)).

(** What follows the block: the outcome of a commit is never reported as a
    plain failure, and what is left of a failed upload is cleaned up, unless it
    is the evidence of a commit whose outcome is unknown. *)
Definition push_epilogue (l : Locals) (result : result anyhow unit) : io unit :=
  let preserve_uncertain_commit_evidence :=
    negb (commit_applied l) &&
    match result with Err error => is_a CommitOutcomeUnknown error | Ok _ => false end in
  let result := normalize_post_commit_result result (commit_applied l) in
  match result with
  | Err error =>
      if owned l && negb preserve_uncertain_commit_evidence then
        let# cleanup :=
          match owned_identity l with
          | Some identity =>
              run? ensure_still_bound g ;;
              cleanup_failed_upload partial sidecar up_ identity (durable l) (rq_resume rq)
                (commit_applied l)
          | None => ok tt
          end in
        match cleanup with
        | Err cleanup_error =>
            Ret (Err (CleanupIncomplete_context (to_string cleanup_error) error))
        | Ok _ => Ret (Err error)
        end
      else Ret (Err error)
  | Ok _ => ok tt
  end.
End push.

Definition serve_push (rq : PushRequest) : io unit :=
  ensure? path_ok (rq_target rq) or msg (rs "invalid target path") ;;
  ensure? is_lower_hex (rq_expected_sha256 rq) 32 or msg (rs "invalid expected SHA-256") ;;
  let? transfer_id_bytes := checked (parse_transfer_id (rq_transfer_id rq)) in
  let? resume_token_bytes := Ret (ok_or (hex_decode (rq_resume_token rq))
    (msg (rs "decode resume token"))) in
  ensure? zlen resume_token_bytes =? 32 or msg (rs "resume token must decode to 32 bytes") ;;
  let resume_token_hash := hex_encode (sha256 resume_token_bytes) in
  let up_ := {| up_transfer_id := rq_transfer_id rq; up_size := rq_size rq;
                up_sha256 := rq_expected_sha256 rq; up_resume_token_hash := resume_token_hash |} in
  let? g := acquire (rq_target rq) (rq_transfer_id rq) (rq_size rq) (rq_expected_sha256 rq)
              resume_token_hash in
  let target := g_pinned_target g in
  let? partial := Ret (native_partial_path target (rq_transfer_id rq)) in
  let sidecar := native_sidecar_path partial in
  let# (l, result) :=
    push_block g rq up_ transfer_id_bytes target partial sidecar init_locals in
  push_epilogue g rq up_ partial sidecar l result.

(** ** The session *)

Definition negotiate (client_hello : Control) : io (Z * Z) :=
  match client_hello with
  | Hello version max_chunk max_window _ sha fsync no_replace =>
      if version =? VERSION then
        ensure? sha && fsync && no_replace or msg (rs "client omitted required native features") ;;
        let chunk := Z.min max_chunk DEFAULT_CHUNK_BYTES in
        let window := Z.min max_window MAX_WINDOW_BYTES in
        ensure? (0 <? chunk) && (chunk <=? window)
          or msg (rs "client sent invalid native transfer limits") ;;
        ok (chunk, window)
      else bail "client did not complete the native transfer handshake"
  | _ => bail "client did not complete the native transfer handshake"
  end.

Definition helper_hello (identity : HelperRuntimeIdentity) : Control :=
  HelperHello VERSION DEFAULT_CHUNK_BYTES MAX_WINDOW_BYTES true true true true identity.

Definition serve_inner (identity : HelperRuntimeIdentity) : io unit :=
  run? write_handshake_control_io (helper_hello identity) Helper ;;
  let? first := read_frame_io in
  let? client_hello := (match first with
    | Some (FControl control) => ok control
    | _ => bail "client did not complete the native transfer handshake"
    end) in
  run? checked (validate_handshake_sender client_hello Client) ;;
  let? (chunk, window) := negotiate client_hello in
  let? second := read_frame_io in
  match second with
  | Some (FControl (BeginPush id target size sha resume_token resume)) =>
      ensure? is_lower_hex resume_token 32
        or msg (rs "resume token must contain 64 lowercase hex characters") ;;
      serve_push {| rq_transfer_id := id; rq_target := target; rq_size := size;
                    rq_expected_sha256 := sha; rq_resume_token := resume_token;
                    rq_resume := resume; rq_chunk := chunk; rq_window := window |}
  | Some (FControl (BeginPull id source offset)) => serve_pull id source offset chunk window
  | _ => bail "client did not send a native transfer root request"
  end.

Definition error_code (error : anyhow) : str :=
  if is_a CommitOutcomeUnknown error then rs "outcome_unknown"
  else if is_a CleanupIncomplete error then rs "cleanup_incomplete"
  else if is_a TransferBusy error then rs "transfer_busy"
  else rs "transfer_failed".

Definition error_frame (error : anyhow) : Control :=
  Error (error_code error) (to_string error) (is_a CommitOutcomeUnknown error).

Definition serve (pkg_version build_commit : str) : io unit :=
  let? identity := helper_runtime_identity pkg_version build_commit in
  let# result := serve_inner identity in
  match result with
  | Err error =>
      let# _ := write_control_io (error_frame error) in
      Ret (Err error)
  | Ok _ => ok tt
  end.

End serve.
