(* ===== verification/PosixTheory.v ===== *)
(** * What a call changes

    Which names, inodes and descriptors a call of [Posix] can affect:
    [touches] is the directory entry a call may change, [writes] the inode
    whose data it may change.  Everything else is kept. *)

From stdpp Require Import gmap.
From S2P Require Import Prelude.
From S2P Require Import Bytes.
From S2P Require Import Text.
From S2P Require Import Posix.
#[local] Open Scope string_scope.
#[local] Open Scope list_scope.
#[local] Open Scope Z_scope.

(** The directory entry a call may change, and the inode it may write. *)
Definition touches (c : call) (w : World) : option (Z * str) :=
  match c with
  | CreateNew p _ | Link _ p | HardLink _ p | RemoveFile p | AtomicCommit _ p => place w p
  | _ => None
  end.
Definition writes (c : call) (w : World) : option Z :=
  match c with
  | WriteAll fd _ | SetLen fd _ => ino_of w fd
  | _ => None
  end.

(** The data of an inode is kept, and as durable as it was. *)
Record keeps (x y : Inode) : Prop := {
  keeps_kind : i_kind y = i_kind x;
  keeps_data : i_data y = i_data x;
  keeps_clean : i_clean x = true -> i_clean y = true;
}.
#[export] Instance keeps_preorder : PreOrder keeps.
Proof. split; [split; auto|]. intros x y z [] []. split; [congruence|congruence|auto]. Qed.

(** Numbers not yet given out are unused. *)
Record bounded (w : World) : Prop := {
  bounded_inodes i x : inodes w !! i = Some x -> i < next_ino w;
  bounded_handles fd h : handles w !! fd = Some h -> fd < next_fd w /\ is_Some (inodes w !! h_ino h);
}.

(** The change a single call makes. *)
Record changes (touched : option (Z * str)) (written : option Z) (w w' : World) : Prop := {
  ch_const : euid w' = euid w /\ device w' = device w /\ umask w' = umask w /\ paths w' = paths w;
  ch_next : next_ino w <= next_ino w' /\ next_fd w <= next_fd w';
  ch_handles fd h : handles w !! fd = Some h -> fd < next_fd w ->
    exists h', handles w' !! fd = Some h' /\ h_ino h' = h_ino h;
  ch_handles_new fd h : handles w' !! fd = Some h -> handles w !! fd = None ->
    next_fd w <= fd < next_fd w' /\ is_Some (inodes w' !! h_ino h);
  ch_inodes i x : inodes w !! i = Some x -> i < next_ino w -> written <> Some i ->
    exists x', inodes w' !! i = Some x' /\ keeps x x';
  ch_inodes_some i : is_Some (inodes w !! i) -> is_Some (inodes w' !! i);
  ch_inodes_new i : is_Some (inodes w' !! i) -> inodes w !! i = None ->
    next_ino w <= i < next_ino w';
  ch_entry d n : touched <> Some (d, n) -> entry w' d n = entry w d n;
  ch_dirs d : match dirs w !! d, dirs w' !! d with
              | Some x, Some y => forall m n, m ∈ d_older y -> touched <> Some (d, n) ->
                  exists m0, m0 ∈ possible x /\ m !! n = m0 !! n
              | None, None => True
              | _, _ => False
              end;
}.

Lemma changes_refl touched written w : changes touched written w w.
Proof.
  split; [done|lia| | | | | |done|].
  - eauto.
  - intros fd h H1 H2. congruence.
  - intros i x Hi _ _. eexists; split; [done|reflexivity].
  - done.
  - intros i [x Hi]. congruence.
  - intros d. destruct (dirs w !! d) as [x|]; [|done]. intros m n Hm _.
    exists m. split; [by apply list_elem_of_further|done].
Qed.

Lemma changes_trans touched written w1 w2 w3 :
  changes touched written w1 w2 -> changes touched written w2 w3 ->
  changes touched written w1 w3.
Proof.
  intros H12 H23. split.
  - destruct (ch_const _ _ _ _ H12) as (? & ? & ? & ?), (ch_const _ _ _ _ H23) as (? & ? & ? & ?).
    split_and!; congruence.
  - pose proof (ch_next _ _ _ _ H12). pose proof (ch_next _ _ _ _ H23). lia.
  - intros fd h Hh Hlt. destruct (ch_handles _ _ _ _ H12 fd h Hh Hlt) as (h2 & Hh2 & <-).
    apply (ch_handles _ _ _ _ H23); [done|]. pose proof (ch_next _ _ _ _ H12). lia.
  - intros fd h Hh Hn. pose proof (ch_next _ _ _ _ H12). pose proof (ch_next _ _ _ _ H23).
    destruct (handles w2 !! fd) as [h2|] eqn:Hh2.
    + destruct (ch_handles_new _ _ _ _ H12 fd h2 Hh2 Hn) as [Hb Hi2].
      destruct (ch_handles _ _ _ _ H23 fd h2 Hh2) as (h3 & Hh3 & He); [lia|]. split; [lia|].
      rewrite Hh3 in Hh. injection Hh as ->. rewrite He. by apply (ch_inodes_some _ _ _ _ H23).
    + destruct (ch_handles_new _ _ _ _ H23 fd h Hh Hh2). split; [lia|done].
  - intros i x Hi Hlt Hw. destruct (ch_inodes _ _ _ _ H12 i x Hi Hlt Hw) as (x2 & Hi2 & Hk2).
    destruct (ch_inodes _ _ _ _ H23 i x2 Hi2) as (x3 & Hi3 & Hk3); [|done|].
    { pose proof (ch_next _ _ _ _ H12). lia. }
    exists x3. split; [done|]. by transitivity x2.
  - intros i Hi. by apply (ch_inodes_some _ _ _ _ H23), (ch_inodes_some _ _ _ _ H12).
  - intros i Hi Hn. pose proof (ch_next _ _ _ _ H12). pose proof (ch_next _ _ _ _ H23).
    destruct (inodes w2 !! i) as [x2|] eqn:Hi2.
    + pose proof (ch_inodes_new _ _ _ _ H12 i (mk_is_Some _ _ Hi2) Hn). lia.
    + pose proof (ch_inodes_new _ _ _ _ H23 i Hi Hi2). lia.
  - intros d n Ht. rewrite (ch_entry _ _ _ _ H23), (ch_entry _ _ _ _ H12); done.
  - intros d. pose proof (ch_dirs _ _ _ _ H12 d) as H1. pose proof (ch_dirs _ _ _ _ H23 d) as H2.
    destruct (dirs w1 !! d) as [x|] eqn:E1, (dirs w2 !! d) as [y|] eqn:E2,
      (dirs w3 !! d) as [z|] eqn:E3; try done.
    intros m n Hm Ht. destruct (H2 m n Hm Ht) as (m1 & [->|Hm1]%elem_of_cons & ->).
    + exists (d_entries x). split; [by left|].
      pose proof (ch_entry _ _ _ _ H12 d n Ht) as He. unfold entry in He.
      by rewrite E1, E2 in He.
    + destruct (H1 m1 n Hm1 Ht) as (m0 & Hm0 & ->). by exists m0.
Qed.

Lemma changes_weaken touched written w w' :
  changes None None w w' -> changes touched written w w'.
Proof.
  intros H. split; try apply H.
  - intros i x Hi Hlt _. by apply (ch_inodes _ _ _ _ H).
  - intros d n _. by apply (ch_entry _ _ _ _ H).
  - intros d. pose proof (ch_dirs _ _ _ _ H d) as Hd.
    destruct (dirs w !! d), (dirs w' !! d); try done. intros m n Hm _. by apply Hd.
Qed.

(** ** The elementary updates *)

Lemma changes_inode written i f w :
  written = Some i \/ (forall x, inodes w !! i = Some x -> keeps x (f x)) ->
  changes None written w (on_inode i f w).
Proof.
  intros Hf. split; try done; simpl; try lia.
  - eauto.
  - intros fd h H1 H2. congruence.
  - intros j x Hj _ Hw. rewrite lookup_alter. case_decide as Hij.
    + subst j. rewrite Hj. eexists; split; [done|]. destruct Hf as [Hf|Hf]; [congruence|by apply Hf].
    + exists x. split; [done|reflexivity].
  - intros j Hj. rewrite lookup_alter. case_decide; [subst|done]. by apply fmap_is_Some.
  - intros j Hj Hn. rewrite lookup_alter in Hj. case_decide; [subst|].
    + rewrite Hn in Hj. by destruct Hj.
    + rewrite Hn in Hj. by destruct Hj.
  - intros d. destruct (dirs w !! d); [|done]. intros m n Hm _.
    exists m. split; [by right|done].
Qed.

Lemma changes_handle fd f w :
  (forall h, h_ino (f h) = h_ino h) -> changes None None w (on_handle fd f w).
Proof.
  intros Hf. split; try done; simpl; try lia.
  - intros fd' h Hh _. rewrite lookup_alter. case_decide; [subst|eauto].
    rewrite Hh. eexists; split; [done|apply Hf].
  - intros fd' h Hh Hn. rewrite lookup_alter in Hh. case_decide; [subst|]; by rewrite Hn in Hh.
  - intros j x Hj _ _. exists x. split; [done|reflexivity].
  - intros i Hs Hn. rewrite Hn in Hs. by destruct Hs.
  - intros d. destruct (dirs w !! d); [|done]. intros m n Hm _. exists m. split; [by right|done].
Qed.

Lemma changes_rename d n f w :
  (forall m n', n' <> n -> f m !! n' = m !! n') ->
  changes (Some (d, n)) None w (rename_in d f w).
Proof.
  intros Hf. split; try done; simpl; try lia.
  - eauto.
  - intros fd h H1 H2. congruence.
  - intros j x Hj _ _. exists x. split; [done|reflexivity].
  - intros i [x Hi]. congruence.
  - intros d' n' Hn. unfold entry. simpl. rewrite lookup_alter. case_decide; [subst|done].
    destruct (dirs w !! d') as [x|]; [|done]. simpl. apply Hf. congruence.
  - intros d'. rewrite lookup_alter. case_decide; [subst|].
    + destruct (dirs w !! d') as [x|]; [|done]. simpl. intros m n' Hm _. by exists m.
    + destruct (dirs w !! d') as [x|]; [|done]. intros m n' Hm _. exists m. split; [by right|done].
Qed.

Lemma changes_sync_dir d w : changes None None w (sync_dir d w).
Proof.
  split; try done; simpl; try lia.
  - eauto.
  - intros fd h H1 H2. congruence.
  - intros j x Hj _ _. exists x. split; [done|reflexivity].
  - intros i [x Hi]. congruence.
  - intros d' n' _. unfold entry. simpl. rewrite lookup_alter. case_decide; [subst|done].
    by destruct (dirs w !! d').
  - intros d'. rewrite lookup_alter. case_decide; [subst|].
    + destruct (dirs w !! d') as [x|]; [|done]. simpl. intros m n Hm. by apply elem_of_nil in Hm.
    + destruct (dirs w !! d') as [x|]; [|done]. intros m n' Hm _. exists m. split; [by right|done].
Qed.

Lemma changes_alloc x w : changes None None w (alloc x w).2.
Proof.
  split; try done; simpl; try lia.
  - eauto.
  - intros fd h H1 H2. congruence.
  - intros j y Hj Hlt _. exists y. rewrite lookup_insert_ne by lia. split; [done|reflexivity].
  - intros j Hj. rewrite lookup_insert. by case_decide.
  - intros j Hj Hn. rewrite lookup_insert in Hj. case_decide; [lia|]. rewrite Hn in Hj. by destruct Hj.
  - intros d. destruct (dirs w !! d); [|done]. intros m n Hm _. exists m. split; [by right|done].
Qed.

Lemma changes_descriptor i w :
  is_Some (inodes w !! i) -> changes None None w (descriptor i w).2.
Proof.
  intros Hi. split; try done; simpl; try lia.
  - intros fd h Hh Hlt. rewrite lookup_insert_ne by lia. eauto.
  - intros fd h Hh Hn. rewrite lookup_insert in Hh. case_decide; [|congruence].
    injection Hh as <-. simpl. split; [lia|done].
  - intros j y Hj _ _. exists y. split; [done|reflexivity].
  - intros j [y Hj]. congruence.
  - intros d. destruct (dirs w !! d); [|done]. intros m n Hm _. exists m. split; [by right|done].
Qed.

(** ** Calls *)

Ltac unchanged := apply changes_refl.

Lemma changes_touch touched written w w' :
  changes touched None w w' -> changes touched written w w'.
Proof.
  intros H. split; try apply H. intros i x Hi Hlt _. by apply (ch_inodes _ _ _ _ H).
Qed.

Lemma changes_write touched written w w' :
  changes None written w w' -> changes touched written w w'.
Proof.
  intros H. split; try apply H.
  - intros d n _. by apply (ch_entry _ _ _ _ H).
  - intros d. pose proof (ch_dirs _ _ _ _ H d) as Hd.
    destruct (dirs w !! d), (dirs w' !! d); try done. intros m n Hm _. by apply Hd.
Qed.

Lemma keeps_nlink d x : keeps x (with_nlink d x).
Proof. by split. Qed.
Lemma keeps_mode m x : keeps x (with_mode m x).
Proof. by split. Qed.
Lemma keeps_synced x : keeps x (synced x).
Proof. by split. Qed.

Lemma open_changes p flags w : changes None None w (do_open p flags w).2.
Proof.
  unfold do_open. destruct (resolve w p) as [i|]; [|unchanged].
  destruct (inodes w !! i) as [x|] eqn:Hi; [|unchanged].
  destruct (open_checks flags (i_kind x)); [|unchanged].
  apply (changes_descriptor i w). eauto.
Qed.

Lemma create_changes p mode w : changes (place w p) None w (do_create p mode w).2.
Proof.
  unfold do_create. destruct (place w p) as [[d n]|]; [|unchanged].
  case_bool_decide; [unchanged|]. destruct (dirs w !! d) as [x|]; [|unchanged].
  cbn [alloc descriptor fst snd].
  set (w1 := (alloc (new_inode w mode 1) w).2).
  apply (changes_trans _ _ _ w1); [apply changes_weaken, changes_alloc|].
  apply (changes_trans _ _ _ (rename_in d (insert n (next_ino w)) w1)).
  { apply changes_rename. intros m n' Hn. by rewrite lookup_insert_ne. }
  apply changes_weaken.
  apply (changes_descriptor (next_ino w) (rename_in d (insert n (next_ino w)) w1)).
  simpl. rewrite lookup_insert_eq. eauto.
Qed.

Lemma file_changes {A} touched written fd w (f : Handle -> Inode -> result errno A * World) :
  (forall h x, handles w !! fd = Some h -> inodes w !! h_ino h = Some x ->
     changes touched written w (f h x).2) ->
  changes touched written w (with_file fd w f).2.
Proof.
  intros Hf. unfold with_file. destruct (handles w !! fd) as [h|] eqn:Hh; [|unchanged].
  destruct (inodes w !! h_ino h) eqn:Hi; [|unchanged]. by apply Hf.
Qed.

Lemma read_changes fd n a w : changes None None w (do_read fd n a w).2.
Proof. apply file_changes. intros h x _ _. by apply changes_handle. Qed.

Lemma write_changes fd bs w : changes None (ino_of w fd) w (do_write fd bs w).2.
Proof.
  apply file_changes. intros h x Hh _. unfold ino_of. rewrite Hh. simpl.
  eapply changes_trans; [apply changes_inode; by left|].
  by apply changes_weaken, changes_handle.
Qed.

Lemma set_len_changes fd n w : changes None (ino_of w fd) w (do_set_len fd n w).2.
Proof.
  apply file_changes. intros h x Hh _. unfold ino_of. rewrite Hh. simpl.
  apply changes_inode. by left.
Qed.

Lemma sync_changes fd w : changes None None w (do_sync fd w).2.
Proof.
  apply file_changes. intros h x _ _. simpl. destruct (i_kind x); try apply changes_sync_dir;
    apply changes_inode; right; intros; apply keeps_synced.
Qed.

Lemma link_changes i dst w : changes (place w dst) None w (do_link i dst w).2.
Proof.
  unfold do_link. destruct i as [i|]; [|unchanged].
  destruct (place w dst) as [[d n]|]; [|unchanged].
  destruct (inodes w !! i) as [x|]; [|unchanged].
  destruct (dirs w !! d) as [y|]; [|unchanged].
  case_bool_decide; [unchanged|]. destruct (_ <=? _); [unchanged|]. simpl.
  eapply changes_trans.
  { apply changes_weaken, (changes_inode None i (with_nlink 1)). right. intros. apply keeps_nlink. }
  apply changes_rename. intros m n' Hn. by rewrite lookup_insert_ne.
Qed.

Lemma remove_changes p w : changes (place w p) None w (do_remove p w).2.
Proof.
  unfold do_remove. destruct (place w p) as [[d n]|]; [|unchanged].
  destruct (entry w d n) as [i|]; [|unchanged]. case_bool_decide; [unchanged|]. simpl.
  eapply changes_trans.
  { apply changes_weaken, (changes_inode None i (with_nlink (-1))). right. intros. apply keeps_nlink. }
  apply changes_rename. intros m n' Hn. by rewrite lookup_delete_ne.
Qed.

Lemma atomic_open_changes p w : changes None None w (do_atomic_open p w).2.
Proof.
  unfold do_atomic_open. destruct (place w p); [|unchanged].
  cbn [alloc descriptor fst snd]. set (w1 := (alloc (new_inode w 438 0) w).2).
  apply (changes_trans _ _ _ w1); [apply changes_alloc|].
  apply (changes_descriptor (next_ino w) w1). simpl. rewrite lookup_insert_eq. eauto.
Qed.

Lemma atomic_commit_changes fd p w : changes (place w p) None w (do_atomic_commit fd p w).2.
Proof.
  apply file_changes. intros h x _ _. destruct (place w p) as [[d n]|]; [|unchanged].
  destruct (dirs w !! d) as [y|]; [|unchanged].
  set (w1 := match entry w d n with Some old => on_inode old (with_nlink (-1)) w | None => w end).
  assert (changes None None w w1) as H1.
  { unfold w1. destruct (entry w d n); [|unchanged].
    apply changes_inode. right. intros. apply keeps_nlink. }
  eapply changes_trans; [apply changes_weaken, H1|].
  eapply changes_trans.
  { apply changes_weaken, (changes_inode None (h_ino h) (fun x => with_nlink 1 (synced x))).
    right. intros. transitivity (synced x0); [apply keeps_synced|apply keeps_nlink]. }
  apply changes_rename. intros m n' Hn. by rewrite lookup_insert_ne.
Qed.

Lemma perform_changes c a w : changes (touches c w) (writes c w) w (perform c a w).2.
Proof.
  destruct c; simpl; try unchanged.
  - apply open_changes.
  - apply create_changes.
  - apply file_changes. intros. unchanged.
  - apply file_changes. intros. simpl. apply changes_inode. right. intros. apply keeps_mode.
  - apply file_changes. intros. unchanged.
  - apply read_changes.
  - apply read_changes.
  - apply write_changes.
  - apply set_len_changes.
  - apply file_changes. intros. by apply changes_handle.
  - apply file_changes. intros. unchanged.
  - apply sync_changes.
  - apply link_changes.
  - apply link_changes.
  - apply remove_changes.
  - apply atomic_open_changes.
  - apply atomic_commit_changes.
Qed.

Lemma exec_changes c ch w : changes (touches c w) (writes c w) w (exec c ch w).2.
Proof.
  unfold exec. destruct (fault ch) as [[code n]|]; [|apply perform_changes].
  destruct (failed c code); [|apply perform_changes].
  destruct c; simpl; try unchanged.
  - apply write_changes.
  - destruct (n <=? 0); [unchanged|]. apply atomic_commit_changes.
Qed.

Lemma changes_bounded touched written w w' :
  changes touched written w w' -> bounded w -> bounded w'.
Proof.
  intros H [Hi Hh]. pose proof (ch_next _ _ _ _ H). split.
  - intros i x Hx. destruct (inodes w !! i) as [y|] eqn:E.
    + pose proof (Hi i y E). lia.
    + pose proof (ch_inodes_new _ _ _ _ H i (mk_is_Some _ _ Hx) E). lia.
  - intros fd h Hx. destruct (handles w !! fd) as [h0|] eqn:E.
    + destruct (Hh fd h0 E) as [Hlt Hs]. destruct (ch_handles _ _ _ _ H fd h0 E Hlt) as (h' & E' & He).
      rewrite Hx in E'. injection E' as <-. split; [lia|]. rewrite He.
      by apply (ch_inodes_some _ _ _ _ H).
    + destruct (ch_handles_new _ _ _ _ H fd h Hx E). split; [lia|done].
Qed.

Lemma changes_ino_of touched written w w' fd i :
  changes touched written w w' -> bounded w -> ino_of w fd = Some i -> ino_of w' fd = Some i.
Proof.
  intros H [_ Hh] (h & E & ->)%fmap_Some. destruct (Hh fd h E) as [Hlt _].
  destruct (ch_handles _ _ _ _ H fd h E Hlt) as (h' & E' & He).
  unfold ino_of. rewrite E'. simpl. by rewrite He.
Qed.

(** ** The worst that a power loss can do: only what was synced is left *)

Definition lost_inode (x : Inode) : Inode :=
  if i_clean x then synced x
  else {| i_kind := i_kind x; i_uid := i_uid x; i_mode := i_mode x; i_nlink := i_nlink x;
          i_mtime := i_mtime x; i_data := i_stable x; i_stable := i_stable x; i_clean := true |}.
Definition lost_dir (x : Dir) : Dir :=
  {| d_entries := default (d_entries x) (last (d_older x)); d_older := [] |}.
Definition power_loss (w : World) : World :=
  {| euid := euid w; umask := umask w; device := device w; clock := clock w; paths := paths w;
     inodes := lost_inode <$> inodes w; next_ino := next_ino w; dirs := lost_dir <$> dirs w;
     handles := ∅; next_fd := next_fd w |}.

Lemma power_loss_crash w : crash w (power_loss w).
Proof.
  split_and!; try done; intros k; simpl; rewrite lookup_fmap.
  - destruct (inodes w !! k) as [x|]; [|done]. unfold lost_inode, crash_inode. simpl.
    destruct (i_clean x); [done|]. split_and!; [done..|]. exists []. by rewrite app_nil_r.
  - destruct (dirs w !! k) as [x|]; [|done]. split; [done|]. intros n.
    exists (default (d_entries x) (last (d_older x))). split; [|done].
    destruct (last (d_older x)) as [m|] eqn:E; [right|by left].
    by apply last_Some_elem_of in E.
Qed.
