(* ===== verification/XferTheory.v ===== *)
(** * Uploads: what others may do, and what a step of the helper may do

    An upload works on four names of the directory it pinned: its target, its
    partial, its sidecar and its lock.  [rely] is what the theorems assume of
    everybody else while it runs: they leave the partial, the sidecar, the
    lock and open files alone, which is what the lock is for, and neither
    replace nor change a target that exists; they may create the target, and
    do as they like with everything else.  [guar] is what every call of the
    upload respects in return.  [ev] is what stays true from one moment to a
    later one as long as the upload does not link its target; [tame] programs
    make only calls for which that is evident from the call. *)

From stdpp Require Import gmap.
From S2P Require Import Prelude.
From S2P Require Import Bytes.
From S2P Require Import Text.
From S2P Require Import Codec.
From S2P Require Import Crates.
From S2P Require Import TransferProtocol.
From S2P Require Import Posix.
From S2P Require Import PosixTheory.
From S2P Require Import Program.
From S2P Require Import Xfer.
From S2P Require Import XferServe.
#[local] Open Scope string_scope.
#[local] Open Scope list_scope.
#[local] Open Scope Z_scope.

(** The directory of an upload, the path it was given by, and its names. *)
Record Names := {
  n_dir : Z;
  n_parent : str;
  n_target : str;
  n_partial : str;
  n_sidecar : str;
  n_lock : str;
}.

(** The target has names of its own. *)
Record distinct (N : Names) : Prop := {
  d_tp : n_target N <> n_partial N;
  d_ts : n_target N <> n_sidecar N;
  d_tl : n_target N <> n_lock N;
  d_ps : n_partial N <> n_sidecar N;
}.

Section upload.
Context (N : Names) (good : Inode -> Prop).
Notation D := (n_dir N).
Notation tgt := (n_target N).

Definition own_names : list str := [n_partial N; n_sidecar N; n_lock N].
Definition opened (w : World) (i : Z) : Prop := exists fd, ino_of w fd = Some i.
Definition held (w : World) (i : Z) : Prop :=
  opened w i \/ exists n, n ∈ tgt :: own_names /\ entry w D n = Some i.

(** The target was absent, or what it is now, since the last sync. *)
Definition settled (w : World) : Prop :=
  forall x m, dirs w !! D = Some x -> m ∈ d_older x -> m !! tgt = None \/ m !! tgt = d_entries x !! tgt.
(** It is what it is now in every state a crash can leave. *)
Definition durable_target (w : World) (i : Z) : Prop :=
  exists x, dirs w !! D = Some x /\ forall m, m ∈ possible x -> m !! tgt = Some i.
(** The partial is not the target. *)
Definition apart (w : World) : Prop :=
  forall i, entry w D (n_partial N) = Some i -> entry w D tgt <> Some i.

Record Wf (w : World) : Prop := {
  wf_bounded : bounded w;
  wf_target i : entry w D tgt = Some i -> is_Some (inodes w !! i);
  wf_settled : settled w;
}.

Record rely (w w' : World) : Prop := {
  rl_const : euid w' = euid w /\ device w' = device w /\ umask w' = umask w;
  rl_handles : handles w' = handles w /\ next_fd w' = next_fd w;
  rl_next : next_ino w <= next_ino w';
  rl_bounded : bounded w -> bounded w';
  rl_inodes i : held w i -> inodes w' !! i = inodes w !! i;
  rl_names n : n ∈ own_names -> entry w' D n = entry w D n;
  rl_target : entry w' D tgt = entry w D tgt \/
    entry w D tgt = None /\
    exists j, entry w' D tgt = Some j /\ ~ held w j /\ is_Some (inodes w' !! j);
  rl_dir : match dirs w !! D, dirs w' !! D with
           | Some x, Some y => forall m, m ∈ d_older y ->
               m !! tgt = d_entries y !! tgt \/ exists m0, m0 ∈ possible x /\ m !! tgt = m0 !! tgt
           | None, None => True
           | _, _ => False
           end;
  rl_paths : (forall fd, ino_of w fd <> Some D) -> paths w' !! n_parent N = paths w !! n_parent N;
}.

(** What each call of the upload respects: names are changed only if they are
    its own, or by putting a [good] inode where the target was absent; and the
    data of the target is never changed. *)
Record guar (w w' : World) : Prop := {
  gu_names d n : entry w' d n = entry w d n \/
    (d = D /\ n ∈ own_names) \/
    (d = D /\ n = tgt /\ entry w d n = None /\
     exists i x, entry w' d n = Some i /\ inodes w' !! i = Some x /\ good x);
  gu_target i x : entry w D tgt = Some i -> inodes w !! i = Some x ->
    exists x', inodes w' !! i = Some x' /\ keeps x x';
  gu_wf : Wf w -> Wf w';
}.

(** From one moment to a later one; the inodes in [X] may be written. *)
Record ev (X : Z -> Prop) (w w' : World) : Prop := {
  ev_wf : Wf w';
  ev_device : device w' = device w;
  ev_next : next_ino w <= next_ino w';
  ev_ino fd i : ino_of w fd = Some i -> ino_of w' fd = Some i;
  ev_keep i x : inodes w !! i = Some x -> opened w i \/ entry w D tgt = Some i -> ~ X i ->
    exists x', inodes w' !! i = Some x' /\ keeps x x';
  ev_target i : entry w D tgt = Some i -> entry w' D tgt = Some i;
  ev_other i : opened w i -> entry w D tgt <> Some i -> entry w' D tgt <> Some i;
  ev_apart : apart w -> apart w';
  ev_durable i : durable_target w i -> durable_target w' i;
}.

Lemma ev_refl X w : Wf w -> ev X w w.
Proof. intros H. split; try done. intros i x Hi _ _. exists x. split; [done|reflexivity]. Qed.

Lemma ev_opened X w w' i : ev X w w' -> opened w i -> opened w' i.
Proof. intros H [fd Hfd]. exists fd. by apply (ev_ino _ _ _ H). Qed.

Lemma ev_trans X w1 w2 w3 : ev X w1 w2 -> ev X w2 w3 -> ev X w1 w3.
Proof.
  intros H12 H23. split.
  - apply H23.
  - rewrite (ev_device _ _ _ H23). apply H12.
  - pose proof (ev_next _ _ _ H12). pose proof (ev_next _ _ _ H23). lia.
  - intros fd i Hi. by apply (ev_ino _ _ _ H23), (ev_ino _ _ _ H12).
  - intros i x Hi Ho Hx. destruct (ev_keep _ _ _ H12 i x Hi Ho Hx) as (x2 & Hi2 & Hk2).
    destruct (ev_keep _ _ _ H23 i x2 Hi2) as (x3 & Hi3 & Hk3); [|done|].
    { destruct Ho as [Ho|Ho]; [left; by eapply ev_opened|right; by apply (ev_target _ _ _ H12)]. }
    exists x3. split; [done|by transitivity x2].
  - intros i Hi. by apply (ev_target _ _ _ H23), (ev_target _ _ _ H12).
  - intros i Ho Hn. apply (ev_other _ _ _ H23); [by eapply ev_opened|by apply (ev_other _ _ _ H12)].
  - intros Ha. by apply (ev_apart _ _ _ H23), (ev_apart _ _ _ H12).
  - intros i Hd. by apply (ev_durable _ _ _ H23), (ev_durable _ _ _ H12).
Qed.

Lemma ev_mono (X Y : Z -> Prop) w w' : (forall i, X i -> Y i) -> ev X w w' -> ev Y w w'.
Proof. intros HXY H. split; try apply H. intros i x Hi Ho Hy. apply (ev_keep _ _ _ H); auto. Qed.

(** Inodes made later do not count. *)
Lemma ev_fresh (X : Z -> Prop) w w' :
  Wf w -> ev (fun j => X j \/ next_ino w <= j) w w' -> ev X w w'.
Proof.
  intros Hw H. split; try apply H. intros i x Hi Ho Hx. apply (ev_keep _ _ _ H); [done|done|].
  intros [?|?]; [done|]. pose proof (bounded_inodes _ (wf_bounded _ Hw) i x Hi). lia.
Qed.

Lemma opened_exists w i : Wf w -> opened w i -> is_Some (inodes w !! i).
Proof.
  intros Hw (fd & (h & Hh & ->)%fmap_Some). by destruct (bounded_handles _ (wf_bounded _ Hw) fd h Hh).
Qed.

Lemma rely_ino_of w w' fd : rely w w' -> ino_of w' fd = ino_of w fd.
Proof. intros H. unfold ino_of. by destruct (rl_handles _ _ H) as [-> _]. Qed.

Lemma rely_ev X w w' : Wf w -> rely w w' -> ev X w w'.
Proof.
  intros Hw H. pose proof (rl_target _ _ H) as Ht.
  assert (forall i, entry w D tgt = Some i -> entry w' D tgt = Some i) as Hsome.
  { intros i Hi. destruct Ht as [->|[Hn _]]; congruence. }
  assert (settled w') as Hset.
  { intros y m Hy Hm. pose proof (rl_dir _ _ H) as Hd. rewrite Hy in Hd.
    destruct (dirs w !! D) as [x|] eqn:Hx; [|done].
    destruct (Hd m Hm) as [?|(m0 & Hm0 & ->)]; [by right|].
    assert (d_entries x !! tgt = None \/ d_entries y !! tgt = d_entries x !! tgt) as Hxy.
    { unfold entry in Ht, Hsome. rewrite Hx, Hy in Ht. simpl in Ht.
      destruct Ht as [Ht|[Ht _]]; [by right|by left]. }
    apply elem_of_cons in Hm0 as [->|Hm0].
    - destruct Hxy as [?|<-]; [by left|by right].
    - destruct (wf_settled _ Hw x m0 Hx Hm0) as [?| ->]; [by left|].
      destruct Hxy as [?|<-]; [by left|by right]. }
  split.
  - split; [apply (rl_bounded _ _ H), Hw| |done]. intros i Hi.
    destruct Ht as [Ht|(_ & j & Hj & _ & Hs)]; [|congruence].
    rewrite Ht in Hi. rewrite (rl_inodes _ _ H); [by apply Hw|].
    right. exists tgt. split; [by left|done].
  - apply H.
  - apply H.
  - intros fd i. by rewrite (rely_ino_of w w').
  - intros i x Hi Ho _. exists x. split; [|reflexivity]. rewrite (rl_inodes _ _ H); [done|].
    destruct Ho as [Ho|Ho]; [by left|right; exists tgt; split; [by left|done]].
  - done.
  - intros i Ho Hn. destruct Ht as [->|(_ & j & Hj & Hh & _)]; [done|]. rewrite Hj.
    intros [= ->]. apply Hh. by left.
  - intros Ha i Hi. rewrite (rl_names _ _ H) in Hi by by left.
    destruct Ht as [->|(_ & j & Hj & Hh & _)]; [by apply Ha|]. rewrite Hj.
    intros [= ->]. apply Hh. right. exists (n_partial N). split; [by right; left|done].
  - intros i (x & Hx & Hp). pose proof (rl_dir _ _ H) as Hd. rewrite Hx in Hd.
    destruct (dirs w' !! D) as [y|] eqn:Hy; [|done]. exists y. split; [done|].
    assert (d_entries y !! tgt = Some i) as Hyi.
    { assert (entry w D tgt = Some i) as He%Hsome.
      { unfold entry. rewrite Hx. apply Hp. by left. }
      unfold entry in He. by rewrite Hy in He. }
    intros m [->|Hm]%elem_of_cons; [done|].
    destruct (Hd m Hm) as [->|(m0 & Hm0 & ->)]; [done|by apply Hp].
Qed.

(** ** Steps of the upload *)

Context (Hd : distinct N).

Lemma target_not_own n : n ∈ own_names -> n <> tgt.
Proof. destruct Hd. unfold own_names. set_solver. Qed.

(** A call that touches only the upload's own names and writes only inodes of
    [X] that are not the target's. *)
Record plain (X : Z -> Prop) (w w' : World) : Prop := {
  pl_guar : guar w w';
  pl_same : entry w' D tgt = entry w D tgt;
  pl_ev : ev X w w';
}.

Lemma plain_step X w w' touched written :
  Wf w -> changes touched written w w' ->
  (forall d n, touched = Some (d, n) -> d = D /\ n ∈ own_names) ->
  (forall i, written = Some i -> X i /\ entry w D tgt <> Some i) ->
  (apart w -> apart w') -> plain X w w'.
Proof.
  intros Hw H Ht Hwr Hap.
  assert (touched <> Some (D, tgt)) as Hnt.
  { intros E. destruct (Ht _ _ E) as [_ Hin]. by apply (target_not_own tgt). }
  assert (entry w' D tgt = entry w D tgt) as Hsame by by apply (ch_entry _ _ _ _ H).
  assert (forall i x, entry w D tgt = Some i -> inodes w !! i = Some x ->
    exists x', inodes w' !! i = Some x' /\ keeps x x') as Hkt.
  { intros i x Hi Hx. apply (ch_inodes _ _ _ _ H); [done|by eapply bounded_inodes; [apply Hw|]|].
    intros E. by destruct (Hwr i E). }
  assert (ev X w w') as Hev.
  { pose proof (ch_dirs _ _ _ _ H D) as Hdir.
    split; [split| | | | | | | |].
    - eapply changes_bounded; [done|apply Hw].
    - intros i. rewrite Hsame. intros Hi. by apply (ch_inodes_some _ _ _ _ H), Hw.
    - intros y m Hy Hm. rewrite Hy in Hdir. destruct (dirs w !! D) as [x|] eqn:Hx; [|done].
      unfold entry in Hsame. rewrite Hx, Hy in Hsame. simpl in Hsame. rewrite Hsame.
      destruct (Hdir m tgt Hm Hnt) as (m0 & [->|Hm0]%elem_of_cons & ->); [by right|].
      by apply (wf_settled _ Hw).
    - apply (ch_const _ _ _ _ H).
    - apply (ch_next _ _ _ _ H).
    - intros fd i. apply (changes_ino_of _ _ _ _ _ _ H), Hw.
    - intros i x Hi Ho Hx. apply (ch_inodes _ _ _ _ H); [done|by eapply bounded_inodes; [apply Hw|]|].
      intros E. by destruct (Hwr i E).
    - by rewrite Hsame.
    - by rewrite Hsame.
    - done.
    - intros i (x & Hx & Hp). rewrite Hx in Hdir.
      destruct (dirs w' !! D) as [y|] eqn:Hy; [|done]. exists y. split; [done|].
      unfold entry in Hsame. rewrite Hx, Hy in Hsame. simpl in Hsame.
      intros m [->|Hm]%elem_of_cons; [rewrite Hsame; apply Hp; by left|].
      destruct (Hdir m tgt Hm Hnt) as (m0 & Hm0 & ->). by apply Hp. }
  split; [|done|done]. split; [|done|intros _; apply Hev].
  intros d n. destruct (decide (touched = Some (d, n))) as [E|E].
  - right. left. by apply Ht.
  - left. by apply (ch_entry _ _ _ _ H).
Qed.

(** What a call makes of the partial's name. *)
Lemma create_entry q mode w d n i :
  entry (do_create q mode w).2 d n = Some i -> entry w d n = Some i \/ i = next_ino w.
Proof.
  unfold do_create. destruct (place w q) as [[d' n']|]; [|by left].
  case_bool_decide; [by left|]. destruct (dirs w !! d') as [x|] eqn:Hx; [|by left].
  unfold entry. simpl. rewrite lookup_alter. case_decide; [subst|by left].
  rewrite Hx. simpl. rewrite lookup_insert. case_decide; [intros [= <-]; by right|by left].
Qed.

Lemma remove_entry q w d n i :
  entry (do_remove q w).2 d n = Some i -> entry w d n = Some i.
Proof.
  unfold do_remove. destruct (place w q) as [[d' n']|]; [|done].
  destruct (entry w d' n') as [j|]; [|done]. case_bool_decide; [done|].
  unfold entry. simpl. rewrite lookup_alter. case_decide; [subst|done].
  destruct (dirs w !! d) as [x|]; [|done]. simpl. rewrite lookup_delete.
  by case_decide.
Qed.

(** Calls that are plain whatever the state, given the descriptors [F] of the
    directory. *)
Definition own_path (F : Z -> Prop) (names : list str) (q : path) : Prop :=
  match q with Entry fd n => F fd /\ n ∈ names | _ => False end.
Definition tame_call (F : Z -> Prop) (c : xcall) : Prop :=
  match c with
  | File (WriteAll _ _) | File (SetLen _ _) | File (Link _ _) | File (HardLink _ _) => False
  | File (CreateNew q _) | File (RemoveFile q) => own_path F own_names q
  | File (AtomicCommit _ q) => own_path F [n_sidecar N] q
  | Send (FControl (Completed _ _)) => False
  | _ => True
  end.

Definition pins (F : Z -> Prop) (w : World) : Prop := forall fd, F fd -> ino_of w fd = Some D.

Lemma own_path_place F names q w :
  pins F w -> own_path F names q -> exists n, place w q = Some (D, n) /\ n ∈ names.
Proof.
  intros HF. destruct q as [| |fd n|]; simpl; try done. intros [Hfd Hn].
  rewrite (HF fd Hfd). eauto.
Qed.

Lemma sidecar_own : n_sidecar N ∈ own_names.
Proof. right. by left. Qed.

Lemma apart_same w w' :
  entry w' D (n_partial N) = entry w D (n_partial N) -> entry w' D tgt = entry w D tgt ->
  apart w -> apart w'.
Proof. intros Hp Ht Ha i. rewrite Hp, Ht. apply Ha. Qed.

Lemma untouched_apart touched written w w' :
  changes touched written w w' ->
  touched <> Some (D, tgt) -> touched <> Some (D, n_partial N) -> apart w -> apart w'.
Proof. intros H Ht Hp. apply apart_same; by apply (ch_entry _ _ _ _ H). Qed.

Lemma file_step X F c ch w :
  Wf w -> pins F w -> tame_call F (File c) -> plain X w (exec c ch w).2.
Proof.
  intros Hw HF Hc. pose proof (exec_changes c ch w) as H.
  assert (writes c w = None) as Hno by by destruct c.
  eapply plain_step; [done|done| |by rewrite Hno|].
  - intros d n Ht. destruct c; try done; simpl in Hc, Ht;
      destruct (own_path_place F _ _ w HF Hc) as (n' & Hp & Hn); rewrite Hp in Ht;
      injection Ht as <- <-; split; try done.
    apply list_elem_of_singleton in Hn as ->. apply sidecar_own.
  - intros Ha. destruct (decide (touches c w = Some (D, n_partial N))) as [E|E].
    + (* only by creating or removing it *)
      destruct Hd. destruct c; try done; simpl in Hc, E;
        destruct (own_path_place F _ _ w HF Hc) as (n' & Hp & Hn).
      * intros i. unfold exec. destruct (fault ch) as [[code n]|]; simpl.
        { apply Ha. }
        intros [Hi| ->]%create_entry.
        { rewrite (ch_entry _ _ _ _ (create_changes p mode w) D tgt) by (rewrite E; congruence).
          by apply Ha. }
        rewrite (ch_entry _ _ _ _ (create_changes p mode w) D tgt) by (rewrite E; congruence).
        intros Ht. destruct (wf_target _ Hw _ Ht) as [x Hx].
        pose proof (bounded_inodes _ (wf_bounded _ Hw) _ _ Hx). lia.
      * intros i Hi. rewrite (ch_entry _ _ _ _ H D tgt) by (simpl; rewrite E; congruence).
        apply Ha. revert Hi. unfold exec. destruct (fault ch) as [[code n]|]; simpl; [done|].
        apply remove_entry.
      * apply list_elem_of_singleton in Hn as ->. congruence.
    + eapply untouched_apart; [exact H| |done|done]. intros Ht. destruct c; try done; simpl in Hc, Ht;
        destruct (own_path_place F _ _ w HF Hc) as (n' & Hp & Hn); rewrite Hp in Ht;
        injection Ht as ->; [by apply (target_not_own tgt)..|].
      apply list_elem_of_singleton in Hn. destruct Hd. congruence.
Qed.

(** ** Sessions *)

Context `{Strerror} `{Sha2} `{Hex} `{Json Control}.
Context `{Json NativeTransferLockRecord} `{Json ResumeSidecar}.

Definition srely (s s' : Session) : Prop := rely (files s) (files s') /\ sent s' = sent s.
Definition sguar (s s' : Session) : Prop := guar (files s) (files s').
Notation trace := (list (Session * Session)).
Notation wpx := (wp xexec srely sguar).

Definition not_completed (f : Frame) : Prop := forall n h, f <> FControl (Completed n h).
(** The steps of a trace that left the target's name alone. *)
Definition kept_target (c : Session * Session) : Prop :=
  entry (files c.2) D tgt = entry (files c.1) D tgt.

(** From one moment of a run to a later one, with no [Completed] sent and the
    target not linked in between. *)
Record sev (X : Z -> Prop) (s : Session) (tr : trace) (s' : Session) (tr' : trace) : Prop := {
  se_ev : ev X (files s) (files s');
  se_sent : exists l, sent s' = sent s ++ l /\ Forall not_completed l;
  se_trace : exists l, tr' = l ++ tr /\ Forall kept_target l;
}.

Lemma sev_refl X s tr : Wf (files s) -> sev X s tr s tr.
Proof.
  intros Hw. split; [by apply ev_refl|exists []; by rewrite app_nil_r|by exists []].
Qed.

Lemma sev_trans X s1 tr1 s2 tr2 s3 tr3 :
  sev X s1 tr1 s2 tr2 -> sev X s2 tr2 s3 tr3 -> sev X s1 tr1 s3 tr3.
Proof.
  intros [He1 (l1 & Hs1 & Hn1) (t1 & -> & Ht1)] [He2 (l2 & Hs2 & Hn2) (t2 & -> & Ht2)]. split.
  - by eapply ev_trans.
  - exists (l1 ++ l2). rewrite Hs2, Hs1, app_assoc. split; [done|by apply Forall_app].
  - exists (t2 ++ t1). rewrite app_assoc. split; [done|by apply Forall_app].
Qed.

Lemma sev_mono (X Y : Z -> Prop) s tr s' tr' :
  (forall i, X i -> Y i) -> sev X s tr s' tr' -> sev Y s tr s' tr'.
Proof. intros HXY [He ? ?]. split; [by eapply ev_mono|done|done]. Qed.

Lemma sev_fresh (X : Z -> Prop) s tr s' tr' :
  Wf (files s) -> sev (fun j => X j \/ next_ino (files s) <= j) s tr s' tr' -> sev X s tr s' tr'.
Proof. intros Hw [He ? ?]. split; [by apply ev_fresh|done|done]. Qed.

Lemma sev_wf X s tr s' tr' : sev X s tr s' tr' -> Wf (files s').
Proof. intros H'. apply (ev_wf _ _ _ (se_ev _ _ _ _ _ H')). Qed.

Lemma sev_pins X F s tr s' tr' :
  sev X s tr s' tr' -> pins F (files s) -> pins F (files s').
Proof. intros H' HF fd Hfd. apply (ev_ino _ _ _ (se_ev _ _ _ _ _ H')). by apply HF. Qed.

Lemma sev_last X s tr s1 s2 : sev X s tr s2 ((s1, s2) :: tr) -> kept_target (s1, s2).
Proof.
  intros He. destruct (se_trace _ _ _ _ _ He) as (l & Hl & Hf). destruct l as [|x l].
  - apply (f_equal length) in Hl. simpl in Hl. lia.
  - injection Hl as <- _. by inversion Hf.
Qed.

(** One plain call, after others had their turn. *)
Lemma plain_sev X s s1 s2 tr :
  Wf (files s) -> srely s s1 ->
  (exists l, sent s2 = sent s1 ++ l /\ Forall not_completed l) ->
  plain X (files s1) (files s2) ->
  sguar s1 s2 /\ sev X s tr s2 ((s1, s2) :: tr).
Proof.
  intros Hw [Hr Hs] (l & Hl & Hn) [Hg Hsame He]. split; [done|]. split.
  - eapply ev_trans; [by apply rely_ev|done].
  - exists l. by rewrite Hl, Hs.
  - exists [(s1, s2)]. split; [done|]. by repeat constructor.
Qed.

Lemma plain_refl X w : Wf w -> plain X w w.
Proof.
  intros Hw. split; [|done|by apply ev_refl]. split; [by left| |done].
  intros i x _ Hx. exists x. split; [done|reflexivity].
Qed.

Lemma tame_step X F c ch s s1 tr :
  Wf (files s) -> pins F (files s) -> srely s s1 -> tame_call F c ->
  sguar s1 (xexec c ch s1).2 /\ sev X s tr (xexec c ch s1).2 ((s1, (xexec c ch s1).2) :: tr).
Proof.
  intros Hw HF Hr Hc.
  assert (Wf (files s1)) as Hw1 by apply (ev_wf _ _ _ (rely_ev (fun _ => False) _ _ Hw (proj1 Hr))).
  assert (pins F (files s1)) as HF1.
  { intros fd Hfd. rewrite (rely_ino_of (files s)) by apply Hr. by apply HF. }
  apply plain_sev; [done|done| |].
  - destruct c as [c| |f]; simpl.
    + destruct (exec c ch (files s1)). exists []. simpl. by rewrite app_nil_r.
    + destruct (fault ch) as [[code n]|]; [|destruct (read_frame (incoming s1)) as [[f rest]|e]];
        exists []; simpl; by rewrite app_nil_r.
    + destruct (fault ch) as [[code n]|]; simpl.
      * exists []. by rewrite app_nil_r.
      * exists [f]. split; [done|]. constructor; [|done]. intros n h ->. done.
  - destruct c as [c| |f]; simpl.
    + pose proof (file_step X F c ch (files s1) Hw1 HF1 Hc) as Hp.
      by destruct (exec c ch (files s1)).
    + destruct (fault ch) as [[code n]|]; [|destruct (read_frame (incoming s1)) as [[f rest]|e]];
        by apply plain_refl.
    + destruct (fault ch) as [[code n]|]; by apply plain_refl.
Qed.

(** ** Tame programs *)

Fixpoint tame {A} (F : Z -> Prop) (p : xprog A) (Q : A -> Prop) : Prop :=
  match p with
  | Ret a => Q a
  | Spin => False
  | Call c k => tame_call F c /\ forall r, tame F (k r) Q
  end.

Lemma wp_tame {A} X F (p : xprog A) (Q : A -> Prop) s tr :
  Wf (files s) -> pins F (files s) -> tame F p Q ->
  wpx p (fun a s' tr' => Q a /\ sev X s tr s' tr') s tr.
Proof.
  revert s tr. induction p as [a| |c k IH]; intros s tr Hw HF; simpl.
  - intros HQ. split; [done|by apply sev_refl].
  - done.
  - intros [Hc Hk] s1 ch Hr.
    destruct (tame_step X F c ch s s1 tr Hw HF Hr Hc) as [Hg He].
    split; [done|]. eapply wp_mono; [apply IH|].
    + by eapply sev_wf.
    + by eapply sev_pins.
    + apply Hk.
    + intros a s' tr' [HQ He']. split; [done|by eapply sev_trans].
Qed.

Lemma tame_mono {A} F (p : xprog A) (Q Q' : A -> Prop) :
  tame F p Q -> (forall a, Q a -> Q' a) -> tame F p Q'.
Proof.
  intros Hp HQ. induction p as [a| |c k IH]; simpl in *; [auto|done|].
  destruct Hp as [Hc Hk]. split; [done|]. intros r. apply IH, Hk.
Qed.

Lemma tame_pbind {A B} F (p : xprog A) (k : A -> xprog B) Q :
  tame F p (fun a => tame F (k a) Q) -> tame F (pbind p k) Q.
Proof.
  induction p as [a| |c k' IH]; simpl; [done|done|].
  intros [Hc Hk]. split; [done|]. intros r. apply IH, Hk.
Qed.

Lemma tame_rpbind {E A B} F (p : xprog (result E A)) (k : A -> xprog (result E B)) Q :
  tame F p (fun r => match r with Ok a => tame F (k a) Q | Err e => Q (Err e) end) ->
  tame F (rpbind p k) Q.
Proof. intros Hp. apply tame_pbind. eapply tame_mono; [exact Hp|]. by intros [a|e]. Qed.

(** Without a postcondition. *)
Notation calm F p := (tame F p (fun _ => True)).

Lemma calm_ret {A} F (a : A) : calm F (Ret a : xprog A).
Proof. done. Qed.
Lemma calm_pbind {A B} F (p : xprog A) (k : A -> xprog B) :
  calm F p -> (forall a, calm F (k a)) -> calm F (pbind p k).
Proof. intros Hp Hk. apply tame_pbind. eapply tame_mono; [exact Hp|]. auto. Qed.
Lemma calm_rpbind {E A B} F (p : xprog (result E A)) (k : A -> xprog (result E B)) :
  calm F p -> (forall a, calm F (k a)) -> calm F (rpbind p k).
Proof. intros Hp Hk. apply tame_rpbind. eapply tame_mono; [exact Hp|]. intros [a|e]; auto. Qed.
Lemma calm_map_err {E E' A} F (f : E -> E') (p : xprog (result E A)) :
  calm F p -> calm F (pmap_err f p).
Proof. intros Hp. by apply calm_pbind. Qed.
Lemma calm_sys F c : tame_call F (File c) -> calm F (sys c).
Proof. done. Qed.

End upload.

Create HintDb calm discriminated.
#[export] Hint Extern 1 (own_path _ _ _) => assumption : calm.

Ltac calm_step :=
  match goal with
  | |- True => exact I
  | |- own_path _ _ _ => assumption
  | |- tame _ _ (Ret _) _ => exact I
  | |- tame _ _ (ok _) _ => exact I
  | |- tame _ _ (bail _) _ => exact I
  | |- tame _ _ (checked _) _ => exact I
  | |- tame _ _ (rpbind _ _) _ => apply calm_rpbind; [|intros ?]
  | |- tame _ _ (pbind _ _) _ => apply calm_pbind; [|intros ?]
  | |- tame _ _ (pmap_err _ _) _ => apply calm_map_err
  | |- tame _ _ (within _ _) _ => apply calm_map_err
  | |- tame _ _ (os _) _ => apply calm_map_err
  | |- tame _ _ (as_cleanup _ _) _ => apply calm_map_err
  | |- tame _ _ (sys _) _ => apply calm_sys; simpl
  | |- tame _ _ (let '(_, _) := ?x in _) _ => destruct x
  | |- tame _ _ (match ?x with _ => _ end) _ => destruct x
  | |- tame _ _ _ _ => solve [auto with calm]
  end.
Ltac calm_tac := repeat calm_step.


Section upload_programs.
Context (N : Names) (good : Inode -> Prop) (Hd : distinct N).
Context `{Strerror} `{Sha2} `{Hex} `{Json Control}.
Context `{Json NativeTransferLockRecord} `{Json ResumeSidecar}.
Notation D := (n_dir N).
Notation tgt := (n_target N).
Notation trace := (list (Session * Session)).
Notation wpx := (wp xexec (srely N) (sguar N good)).
Notation tame := (tame N).
Notation calm F p := (tame F p (fun _ => True)).
Notation sev := (sev N).
Notation ev := (ev N).
Notation pins := (pins N).
Notation Wf := (Wf N).
Notation rely := (rely N).
Notation srely := (srely N).
Notation sguar := (sguar N good).
Notation own_names := (own_names N).
Notation plain := (plain N good).

Lemma calm_still_bound F g : calm F (ensure_still_bound g).
Proof. unfold ensure_still_bound, validate_native_transfer_lock_metadata. calm_tac. Qed.
Lemma calm_parent_bound F g : calm F (ensure_original_parent_bound g).
Proof. unfold ensure_original_parent_bound. calm_tac. Qed.
Lemma calm_exists F q : calm F (path_entry_exists q).
Proof. unfold path_entry_exists. calm_tac. Qed.
Lemma calm_open_private F q b : calm F (open_existing_private q b).
Proof. unfold open_existing_private. calm_tac. Qed.
Lemma calm_read_sidecar F q : calm F (read_resume_sidecar q).
Proof. unfold read_resume_sidecar. pose proof calm_open_private. calm_tac. Qed.
Lemma calm_sync_parent F q : calm F (sync_parent q).
Proof. unfold sync_parent. calm_tac. Qed.
Lemma calm_validate_owned F file i n : calm F (validate_owned_file_identity file i n).
Proof. unfold validate_owned_file_identity. calm_tac. Qed.
#[local] Hint Resolve calm_still_bound calm_parent_bound calm_exists calm_open_private
  calm_read_sidecar calm_sync_parent calm_validate_owned : calm.

Lemma calm_open_partial F q : calm F (open_owned_partial q).
Proof. unfold open_owned_partial. auto with calm. Qed.
#[local] Hint Resolve calm_open_partial : calm.

Lemma calm_remove_file F q i k : own_path F own_names q -> calm F (remove_owned_private_file q i k).
Proof. intros Hq. unfold remove_owned_private_file. calm_tac. Qed.
#[local] Hint Resolve calm_remove_file : calm.

Lemma calm_remove_partial F q i : own_path F own_names q -> calm F (remove_owned_partial q i).
Proof. intros Hq. unfold remove_owned_partial. auto with calm. Qed.
Lemma calm_remove_sidecar F q u i : own_path F own_names q -> calm F (remove_owned_sidecar q u i).
Proof. intros Hq. unfold remove_owned_sidecar. calm_tac. Qed.
Lemma calm_read_frame F : calm F read_frame_io.
Proof. by split. Qed.
Lemma calm_send F c : not_completed (FControl c) -> calm F (write_control_io c).
Proof.
  intros Hc. unfold write_control_io, send. calm_step; [calm_tac|]. apply calm_map_err.
  split; [|done]. destruct c; try done. by apply (Hc size sha256).
Qed.
Lemma calm_prepare F file q i n : calm F (prepare_commit file q i n).
Proof. unfold prepare_commit. calm_tac. Qed.
Lemma calm_open_committed F c : calm F (open_committed_target c).
Proof. unfold open_committed_target. calm_tac. Qed.
#[local] Hint Resolve calm_remove_partial calm_remove_sidecar calm_read_frame calm_send
  calm_prepare calm_open_committed : calm.

(** The hashing loop grows by at least a byte per read. *)
Lemma tame_iterations {X A} F n (body : X -> xprog (X + A)) (m : X -> Z) (I : X -> Prop) :
  (forall x, I x -> tame F (body x) (fun r => match r with
                                   | inl x' => I x' /\ m x' < m x | inr _ => True end)) ->
  forall x, I x -> tame F (iterations n body x) (fun r => match r with
                                   | inl x' => I x' /\ m x' <= m x - Zpos n | inr _ => True end).
Proof.
  intros Hb. induction n as [n IH|n IH|]; intros x Hx; simpl.
  - apply tame_pbind. eapply tame_mono; [by apply Hb|]. intros [x1|a]; [|done]. intros [K1 Hm1].
    apply tame_pbind. eapply tame_mono; [by apply IH|]. intros [x2|a]; [|done]. intros [K2 Hm2].
    eapply tame_mono; [by apply IH|]. intros [x3|a]; [|done]. intros [K3 Hm3]. split; [done|lia].
  - apply tame_pbind. eapply tame_mono; [by apply IH|]. intros [x2|a]; [|done]. intros [K2 Hm2].
    eapply tame_mono; [by apply IH|]. intros [x3|a]; [|done]. intros [K3 Hm3]. split; [done|lia].
  - eapply tame_mono; [by apply Hb|]. intros [x1|a]; [|done]. intros [? ?]. split; [done|lia].
Qed.

Lemma calm_rloop {E X A} F fuel (body : X -> xprog (result E (X + A))) (m : X -> Z) (I : X -> Prop) x :
  (forall x, I x -> 0 <= m x /\
     tame F (body x) (fun r => match r with Ok (inl x') => I x' /\ m x' < m x | _ => True end)) ->
  I x -> m x < Zpos fuel -> calm F (rloop fuel body x).
Proof.
  intros Hb Hx Hm. apply tame_pbind. eapply tame_mono.
  { apply (tame_iterations F fuel _ m I); [|exact Hx]. intros x' Hx'. apply tame_pbind.
    eapply tame_mono; [by apply Hb|]. intros [[x1|a]|e]; done. }
  intros [x'|r]; [|done]. intros [Hx' Hm']. destruct (Hb x' Hx') as [? _]. lia.
Qed.

Lemma calm_hash_prefix F file n : calm F (hash_prefix file n).
Proof.
  unfold hash_prefix, hash_loop, size_fuel.
  apply (calm_rloop F _ _ (fun st => Z.max 0 (n - st.2)) (fun st => 0 <= st.2)); simpl; [|lia|lia].
  intros [h k] Hk. simpl in *. split; [lia|]. unfold hash_step. destruct (Z.ltb_spec k n); [|done].
  apply tame_rpbind. split; [done|]. intros [bs|e]; [|done]. simpl.
  destruct (is_empty bs) eqn:He; simpl; [done|]. apply is_empty_false in He.
  destruct bs as [|b bs]; [done|]. rewrite zlen_cons. pose proof (zlen_nonneg bs). lia.
Qed.

(** ** Programs that write *)

(** A program that keeps everything but the inodes in [X], from any moment. *)
Definition evolves {A} (X F : Z -> Prop) (p : xprog A) : Prop :=
  forall s tr, Wf (files s) -> pins F (files s) ->
  wpx p (fun _ s' tr' => sev X s tr s' tr') s tr.

Lemma calm_evolves {A} X F (p : xprog A) : calm F p -> evolves X F p.
Proof.
  intros Hp s tr Hw HF. eapply wp_mono; [by apply (wp_tame N good Hd X F)|]. by intros a s' tr' [_ ?].
Qed.

Lemma evolves_use {A} X F (p : xprog A) (Q : A -> Session -> trace -> Prop) s tr :
  evolves X F p -> Wf (files s) -> pins F (files s) ->
  (forall a s' tr', sev X s tr s' tr' -> Q a s' tr') -> wpx p Q s tr.
Proof. intros Hp Hw HF HQ. eapply wp_mono; [by apply Hp|]. intros a s' tr' He. by apply HQ. Qed.

Lemma evolves_pbind {A B} X F (p : xprog A) (k : A -> xprog B) :
  evolves X F p -> (forall a, evolves X F (k a)) -> evolves X F (pbind p k).
Proof.
  intros Hp Hk s tr Hw HF. apply wp_pbind. apply (evolves_use X F); [done..|].
  intros a s' tr' He. apply (evolves_use X F); [apply Hk|by eapply sev_wf|by eapply sev_pins|].
  intros b s2 tr2 He2. by eapply sev_trans.
Qed.

Lemma evolves_rpbind {E A B} X F (p : xprog (result E A)) (k : A -> xprog (result E B)) :
  evolves X F p -> (forall a, evolves X F (k a)) -> evolves X F (rpbind p k).
Proof.
  intros Hp Hk. apply evolves_pbind; [done|]. intros [a|e]; [done|]. by apply calm_evolves.
Qed.

Lemma evolves_map_err {E E' A} X F (f : E -> E') (p : xprog (result E A)) :
  evolves X F p -> evolves X F (pmap_err f p).
Proof. intros Hp. apply evolves_pbind; [done|]. intros a. by apply calm_evolves. Qed.

Lemma evolves_mono {A} (X Y : Z -> Prop) F (p : xprog A) :
  (forall i, X i -> Y i) -> evolves X F p -> evolves Y F p.
Proof.
  intros HXY Hp s tr Hw HF. eapply wp_mono; [by apply Hp|]. intros a s' tr' He.
  by eapply sev_mono.
Qed.

(** A write through a descriptor of an inode of [X] that is not the target's. *)
Lemma write_step X fd c ch s s1 tr j :
  (exists bs, c = WriteAll fd bs) \/ (exists n, c = SetLen fd n) ->
  Wf (files s) -> srely s s1 -> ino_of (files s) fd = Some j -> X j ->
  entry (files s) D tgt <> Some j ->
  sguar s1 (xexec (File c) ch s1).2 /\
  sev X s tr (xexec (File c) ch s1).2 ((s1, (xexec (File c) ch s1).2) :: tr).
Proof.
  intros Hc Hw Hr Hj Hx Hn. pose proof (rely_ev N X _ _ Hw (proj1 Hr)) as He.
  assert (entry (files s1) D tgt <> Some j) as Hn1.
  { apply (ev_other _ _ _ _ He); [|done]. by exists fd. }
  pose proof (ev_ino _ _ _ _ He fd j Hj) as Hj1.
  apply (plain_sev N good); [done|done| |]; simpl.
  - destruct (exec c ch (files s1)). exists []. simpl. by rewrite app_nil_r.
  - pose proof (exec_changes c ch (files s1)) as Hch.
    assert (plain X (files s1) (exec c ch (files s1)).2) as Hp.
    { eapply (plain_step N good Hd); [apply He|exact Hch| | |].
      - intros d n. by destruct Hc as [[bs ->]|[n' ->]].
      - intros i Hi. assert (writes c (files s1) = ino_of (files s1) fd) as Hwr
          by by destruct Hc as [[bs ->]|[n' ->]].
        rewrite Hwr, Hj1 in Hi. by injection Hi as <-.
      - apply (untouched_apart N _ _ _ _ Hch); by destruct Hc as [[bs ->]|[n' ->]]. }
    by destruct (exec c ch (files s1)).
Qed.

Lemma wp_write X fd c j (Q : res c -> Session -> trace -> Prop) s tr :
  (exists bs, c = WriteAll fd bs) \/ (exists n, c = SetLen fd n) ->
  Wf (files s) -> ino_of (files s) fd = Some j -> X j -> entry (files s) D tgt <> Some j ->
  (forall r s' tr', sev X s tr s' tr' -> Q r s' tr') ->
  wpx (sys c) Q s tr.
Proof.
  intros Hc Hw Hj Hx Hn HQ s1 ch Hr.
  destruct (write_step X fd c ch s s1 tr j Hc Hw Hr Hj Hx Hn) as [Hg He].
  split; [exact Hg|]. apply HQ. exact He.
Qed.

(** A new file, by its own name or without one: a new inode. *)
Definition newborn (w w' : World) (fd : Z) : Prop :=
  exists j, ino_of w' fd = Some j /\ next_ino w <= j /\ entry w' D tgt <> Some j.

Lemma made_newborn w w1 w2 (r : result errno Z) :
  Wf w -> rely w w1 -> entry w2 D tgt = entry w1 D tgt ->
  (exists q mode, do_create q mode w1 = (r, w2)) \/ (exists q, do_atomic_open q w1 = (r, w2)) ->
  forall fd, r = Ok fd -> newborn w w2 fd.
Proof.
  intros Hw Hr Hsame Hc fd ->. pose proof (rely_ev N (fun _ => False) _ _ Hw Hr) as He.
  assert (ino_of w2 fd = Some (next_ino w1)) as Hi.
  { destruct Hc as [(q & mode & Hdo)|(q & Hdo)].
    - unfold do_create in Hdo. destruct (place w1 q) as [[d n]|]; [|done].
      case_bool_decide; [done|]. destruct (dirs w1 !! d); [|done].
      cbn in Hdo. injection Hdo as <- <-. unfold ino_of. simpl. by rewrite lookup_insert_eq.
    - unfold do_atomic_open in Hdo. destruct (place w1 q); [|done].
      cbn in Hdo. injection Hdo as <- <-. unfold ino_of. simpl. by rewrite lookup_insert_eq. }
  exists (next_ino w1). split; [done|]. split; [apply (ev_next _ _ _ _ He)|].
  rewrite Hsame. intros Ht. pose proof (ev_wf _ _ _ _ He) as Hw1.
  destruct (wf_target _ _ Hw1 _ Ht) as [x Hx].
  pose proof (bounded_inodes _ (wf_bounded _ _ Hw1) _ _ Hx). lia.
Qed.

Lemma wp_create X F q mode (Q : result errno Z -> Session -> trace -> Prop) s tr :
  Wf (files s) -> pins F (files s) -> own_path F own_names q ->
  (forall r s' tr', sev X s tr s' tr' ->
     (forall fd, r = Ok fd -> newborn (files s) (files s') fd) -> Q r s' tr') ->
  wpx (sys (CreateNew q mode)) Q s tr.
Proof.
  intros Hw HF Hq HQ s1 ch Hr.
  destruct (tame_step N good Hd X F (File (CreateNew q mode)) ch s s1 tr Hw HF Hr Hq) as [Hg He].
  split; [exact Hg|]. apply HQ; [exact He|]. intros fd Hfd.
  assert (kept_target N (s1, (xexec (File (CreateNew q mode)) ch s1).2)) as Hk
    by by eapply sev_last.
  unfold kept_target in Hk. simpl in Hk, Hfd |- *. unfold exec in Hk, Hfd |- *.
  destruct (fault ch) as [[code n]|]; simpl in Hk, Hfd |- *; [done|].
  destruct (do_create q mode (files s1)) as [r w2] eqn:Hdo. simpl in Hk, Hfd |- *.
  eapply (made_newborn _ (files s1) w2 r); [done|apply Hr|done|left; by exists q, mode|done].
Qed.

Lemma wp_atomic_open X F q (Q : result errno Z -> Session -> trace -> Prop) s tr :
  Wf (files s) -> pins F (files s) ->
  (forall r s' tr', sev X s tr s' tr' ->
     (forall fd, r = Ok fd -> newborn (files s) (files s') fd) -> Q r s' tr') ->
  wpx (sys (AtomicOpen q)) Q s tr.
Proof.
  intros Hw HF HQ s1 ch Hr.
  destruct (tame_step N good Hd X F (File (AtomicOpen q)) ch s s1 tr Hw HF Hr I) as [Hg He].
  split; [exact Hg|]. apply HQ; [exact He|]. intros fd Hfd.
  assert (kept_target N (s1, (xexec (File (AtomicOpen q)) ch s1).2)) as Hk
    by by eapply sev_last.
  unfold kept_target in Hk. simpl in Hk, Hfd |- *. unfold exec in Hk, Hfd |- *.
  destruct (fault ch) as [[code n]|]; simpl in Hk, Hfd |- *; [done|].
  destruct (do_atomic_open q (files s1)) as [r w2] eqn:Hdo. simpl in Hk, Hfd |- *.
  eapply (made_newborn _ (files s1) w2 r); [done|apply Hr|done|right; by exists q|done].
Qed.

Notation since X s := (fun j => X j \/ next_ino (files s) <= j).

(** Writes to a file made since [s]. *)
Lemma wp_write_new X s0 tr0 s tr fd c (Q : res c -> Session -> trace -> Prop) :
  (exists bs, c = WriteAll fd bs) \/ (exists n, c = SetLen fd n) ->
  sev (since X s0) s0 tr0 s tr -> newborn (files s0) (files s) fd ->
  (forall r s' tr', sev (since X s0) s0 tr0 s' tr' -> Q r s' tr') ->
  wpx (sys c) Q s tr.
Proof.
  intros Hc He (j & Hj & Hn & Ht) HQ.
  apply (wp_write (since X s0) fd c j); [done|by eapply sev_wf|done|by right|done|].
  intros r s' tr' He'. apply HQ. by eapply sev_trans.
Qed.

Lemma newborn_kept X s0 s tr s' tr' fd :
  newborn (files s0) (files s) fd -> sev X s tr s' tr' -> newborn (files s0) (files s') fd.
Proof.
  intros (j & Hj & Hn & Ht) He. exists j. pose proof (se_ev _ _ _ _ _ _ He) as Hev.
  split_and!; [by apply (ev_ino _ _ _ _ Hev)|done|]. apply (ev_other _ _ _ _ Hev); [by exists fd|done].
Qed.

(** To prove that a program evolves, its own new files do not count. *)
Lemma evolves_since {A} X F (p : xprog A) :
  (forall s tr, Wf (files s) -> pins F (files s) ->
     wpx p (fun _ s' tr' => sev (since X s) s tr s' tr') s tr) ->
  evolves X F p.
Proof.
  intros Hp s tr Hw HF. eapply wp_mono; [by apply Hp|]. intros a s' tr' He. by apply sev_fresh.
Qed.

(** A calm rest, after what happened since [s0]. *)
Lemma calm_rest {A} X F (p : xprog A) s0 tr0 s tr :
  calm F p -> sev X s0 tr0 s tr -> pins F (files s0) ->
  wpx p (fun _ s' tr' => sev X s0 tr0 s' tr') s tr.
Proof.
  intros Hp He HF. apply (evolves_use X F); [by apply calm_evolves|by eapply sev_wf|by eapply sev_pins|].
  intros a s' tr' He'. by eapply sev_trans.
Qed.

Lemma evolves_replace X F q st :
  own_path F [n_sidecar N] q -> evolves X F (replace_resume_sidecar_unchecked q st).
Proof.
  intros Hq. apply evolves_since. intros s tr Hw HF. unfold replace_resume_sidecar_unchecked.
  apply wp_pure; [intros bs _|intros e _; by apply sev_refl].
  apply wp_rpbind. do 2 apply wp_pmap_err. apply (wp_atomic_open (since X s) F); [done|done|].
  intros [fd|e] s1 tr1 He Hn; [|done]. specialize (Hn fd eq_refl).
  apply wp_rpbind. apply (evolves_use (since X s) F);
    [apply calm_evolves; by calm_tac|by eapply sev_wf|by eapply sev_pins|].
  intros [u|e] s2 tr2 Hk; [|by eapply sev_trans].
  assert (sev (since X s) s tr s2 tr2) as He2 by by eapply sev_trans.
  pose proof (newborn_kept _ _ _ _ _ _ _ Hn Hk) as Hn2.
  apply wp_rpbind, wp_pmap_err. eapply (wp_write_new X s tr); [left; by exists bs|done|done|].
  intros [u'|e] s3 tr3 He3; [|done].
  apply (calm_rest (since X s) F); [by calm_tac|done|done].
Qed.

(** One step of a proof that everything since [s] is kept: a calm part first. *)
Lemma calm_first {A B} X F (p : xprog A) (k : A -> xprog B) Q s0 tr0 s tr :
  calm F p -> sev X s0 tr0 s tr -> pins F (files s0) ->
  (forall a s' tr', sev X s0 tr0 s' tr' -> sev X s tr s' tr' -> wpx (k a) Q s' tr') ->
  wpx (pbind p k) Q s tr.
Proof.
  intros Hp He HF HQ. apply wp_pbind.
  apply (evolves_use X F); [by apply calm_evolves|by eapply sev_wf|by eapply sev_pins|].
  intros a s' tr' He'. apply HQ; [by eapply sev_trans|done].
Qed.

Lemma calm_first_ok {E A B} X F (p : xprog (result E A)) (k : A -> xprog (result E B))
    (Q : result E B -> Session -> trace -> Prop) s0 tr0 s tr :
  calm F p -> sev X s0 tr0 s tr -> pins F (files s0) ->
  (forall e s' tr', sev X s0 tr0 s' tr' -> Q (Err e) s' tr') ->
  (forall a s' tr', sev X s0 tr0 s' tr' -> sev X s tr s' tr' -> wpx (k a) Q s' tr') ->
  wpx (rpbind p k) Q s tr.
Proof.
  intros Hp He HF Herr HQ. eapply calm_first; [done..|]. intros [a|e] s' tr' He1 He2; [by apply HQ|].
  by apply Herr.
Qed.

Lemma evolves_create_sidecar X F q st :
  own_path F own_names q -> evolves X F (create_resume_sidecar q st).
Proof.
  intros Hq. apply evolves_since. intros s tr Hw HF. unfold create_resume_sidecar.
  apply wp_pure; [intros bs _|intros e _; by apply sev_refl].
  apply wp_rpbind. do 2 apply wp_pmap_err. apply (wp_create (since X s) F); [done..|].
  intros [fd|e] s1 tr1 He Hn; [|done]. specialize (Hn fd eq_refl).
  apply (calm_first_ok (since X s) F _ _ _ s tr); [by calm_tac|done|done|done|].
  intros m s2 tr2 He2 Hk. pose proof (newborn_kept _ _ _ _ _ _ _ Hn Hk) as Hn2.
  apply wp_pbind. unfold persist_sidecar. apply wp_rpbind. do 2 apply wp_pmap_err.
  eapply (wp_write_new X s tr); [left; by exists bs|done|done|].
  assert (forall (r : result anyhow unit) s' tr', sev (since X s) s tr s' tr' ->
    wpx (match r with
         | Ok _ => ok tt
         | Err error =>
             let# cleanup := remove_owned_private_file q (file_identity m) "resume sidecar" in
             Ret (reconcile_initial_sidecar_failure error cleanup "resume sidecar")
         end) (fun _ s'' tr'' => sev (since X s) s tr s'' tr'') s' tr') as Hend.
  { intros r s' tr' He'. apply (calm_rest (since X s) F); [|done|done]. calm_tac. }
  intros [u|e] s3 tr3 He3; [|exact (Hend (Err _) _ _ He3)].
  eapply wp_mono; [apply (calm_rest (since X s) F _ s tr); [calm_tac|exact He3|exact HF]|].
  intros r s4 tr4 He4. by apply Hend.
Qed.

Lemma evolves_replace_verified X F q u i d st next :
  own_path F [n_sidecar N] q -> evolves X F (replace_verified_resume_sidecar q u i d st next).
Proof.
  intros Hq. unfold replace_verified_resume_sidecar.
  apply evolves_rpbind; [apply calm_evolves; auto with calm|]. intros current.
  apply evolves_rpbind; [by apply calm_evolves|]. intros _.
  apply evolves_rpbind; [by apply calm_evolves|]. intros _. by apply evolves_replace.
Qed.
End upload_programs.

#[export] Hint Resolve calm_still_bound calm_parent_bound calm_exists calm_open_private
  calm_read_sidecar calm_sync_parent calm_validate_owned calm_open_partial calm_remove_file
  calm_remove_partial calm_remove_sidecar calm_read_frame calm_send calm_prepare
  calm_open_committed calm_hash_prefix : calm.
