(* ===== verification/XferCalls.v ===== *)
(** * Uploads: what the calls of the helper tell it

    For the calls whose answers an upload relies on, what an answer says about
    the files: metadata, opened names, absent targets, syncs, and the digest of
    a file read to its end. *)

From stdpp Require Import gmap.
From S2P Require Import Prelude.
From S2P Require Import Bytes.
From S2P Require Import Text.
From S2P Require Import Codec.
From S2P Require Import Crates.
From S2P Require Import TransferProtocol.
From S2P Require Import Posix.
From S2P Require Import PosixTheory.
From S2P Require Import Program.
From S2P Require Import Xfer.
From S2P Require Import XferServe.
From S2P Require Import XferTheory.
#[local] Open Scope string_scope.
#[local] Open Scope list_scope.
#[local] Open Scope Z_scope.

Section calls.
Context (N : Names) (good : Inode -> Prop) (Hd : distinct N).
Context `{Strerror} `{Sha2} `{Hex} `{Json Control}.
Context `{Json NativeTransferLockRecord} `{Json ResumeSidecar}.
Notation D := (n_dir N).
Notation tgt := (n_target N).
Notation trace := (list (Session * Session)).
Notation wpx := (wp xexec (srely N) (sguar N good)).
Notation sev := (sev N).

(** An answer to one call that is plain whatever the state. *)
Lemma wp_answer X c (Q : res c -> Session -> trace -> Prop) s tr :
  tame_call N (fun _ => False) (File c) -> Wf N (files s) ->
  (forall w1 ch, rely N (files s) w1 ->
     let (r, w2) := exec c ch w1 in
     forall s' tr', files s' = w2 -> sev X s tr s' tr' -> Q r s' tr') ->
  wpx (sys c) Q s tr.
Proof.
  intros Hc Hw HQ s1 ch Hr.
  destruct (tame_step N good Hd X (fun _ => False) (File c) ch s s1 tr Hw) as [Hg He];
    [by intros ? []|done|done|].
  split; [exact Hg|]. specialize (HQ (files s1) ch (proj1 Hr)). simpl in *.
  destruct (exec c ch (files s1)) as [r w2]. by apply HQ.
Qed.

Lemma wp_metadata X fd (Q : result errno Metadata -> Session -> trace -> Prop) s tr :
  Wf N (files s) ->
  (forall r s' tr', sev X s tr s' tr' ->
     (forall m, r = Ok m -> exists i x, ino_of (files s') fd = Some i /\
        inodes (files s') !! i = Some x /\ m = metadata_of (files s') i x) -> Q r s' tr') ->
  wpx (sys (MetadataOf fd)) Q s tr.
Proof.
  intros Hw HQ. apply (wp_answer X (MetadataOf fd)); [done|done|]. intros w1 ch Hr.
  unfold exec. destruct (fault ch) as [[code n]|]; simpl.
  { intros s' tr' Hf He. by apply HQ. }
  unfold with_file. destruct (handles w1 !! fd) as [h|] eqn:Hh; cycle 1.
  { intros s' tr' Hf He. by apply HQ. }
  destruct (inodes w1 !! h_ino h) as [x|] eqn:Hx; intros s' tr' Hf He; apply HQ; try done.
  intros m [= <-]. exists (h_ino h), x. rewrite Hf. unfold ino_of. by rewrite Hh.
Qed.

(** The identity of an open file. *)
Lemma wp_identity X fd i (Q : result errno Metadata -> Session -> trace -> Prop) s tr :
  Wf N (files s) -> ino_of (files s) fd = Some i ->
  (forall r s' tr', sev X s tr s' tr' ->
     (forall m, r = Ok m -> exists x, inodes (files s') !! i = Some x /\
        m = metadata_of (files s') i x) -> Q r s' tr') ->
  wpx (sys (MetadataOf fd)) Q s tr.
Proof.
  intros Hw Hi HQ. apply (wp_metadata X); [done|]. intros r s' tr' He Hm. apply HQ; [done|].
  intros m Hr. destruct (Hm m Hr) as (j & x & Hj & Hx & ->).
  rewrite (ev_ino _ _ _ _ (se_ev _ _ _ _ _ _ He) fd i Hi) in Hj. injection Hj as <-. by exists x.
Qed.

(** What an opened name of the directory was at that moment. *)
Lemma wp_open_entry X fd n flags (Q : result errno Z -> Session -> trace -> Prop) s tr :
  Wf N (files s) -> ino_of (files s) fd = Some D ->
  (forall r s' tr', sev X s tr s' tr' ->
     (forall f, r = Ok f -> exists i, ino_of (files s') f = Some i /\
        entry (files s') D n = Some i) -> Q r s' tr') ->
  wpx (sys (Open (Entry fd n) flags)) Q s tr.
Proof.
  intros Hw Hfd HQ. apply (wp_answer X (Open (Entry fd n) flags)); [done|done|]. intros w1 ch Hr.
  pose proof (rely_ino_of N _ _ fd Hr) as Hfd1. rewrite Hfd in Hfd1.
  unfold exec. destruct (fault ch) as [[code m]|]; simpl.
  { intros s' tr' Hf He. by apply HQ. }
  unfold do_open. simpl. rewrite Hfd1. simpl.
  destruct (entry w1 D n) as [i|] eqn:Hi; cycle 1.
  { intros s' tr' Hf He. by apply HQ. }
  destruct (inodes w1 !! i) as [x|] eqn:Hx; cycle 1.
  { intros s' tr' Hf He. by apply HQ. }
  destruct (open_checks flags (i_kind x)) as [u|e]; cycle 1.
  { intros s' tr' Hf He. by apply HQ. }
  intros s' tr' Hf He. apply HQ; [done|]. intros f [= <-]. exists i. rewrite Hf.
  unfold ino_of. simpl. rewrite lookup_insert_eq. done.
Qed.

(** Opening a descriptor again gives the same inode. *)
Lemma wp_open_fd X fd i flags (Q : result errno Z -> Session -> trace -> Prop) s tr :
  Wf N (files s) -> ino_of (files s) fd = Some i ->
  (forall r s' tr', sev X s tr s' tr' ->
     (forall f, r = Ok f -> ino_of (files s') f = Some i) -> Q r s' tr') ->
  wpx (sys (Open (ProcFd fd) flags)) Q s tr.
Proof.
  intros Hw Hfd HQ. apply (wp_answer X (Open (ProcFd fd) flags)); [done|done|]. intros w1 ch Hr.
  pose proof (rely_ino_of N _ _ fd Hr) as Hfd1. rewrite Hfd in Hfd1.
  unfold exec. destruct (fault ch) as [[code m]|]; simpl.
  { intros s' tr' Hf He. by apply HQ. }
  unfold do_open. simpl. rewrite Hfd1.
  destruct (inodes w1 !! i) as [x|] eqn:Hx; cycle 1.
  { intros s' tr' Hf He. by apply HQ. }
  destruct (open_checks flags (i_kind x)) as [u|e]; cycle 1.
  { intros s' tr' Hf He. by apply HQ. }
  intros s' tr' Hf He. apply HQ; [done|]. intros f [= <-]. rewrite Hf.
  unfold ino_of. simpl. by rewrite lookup_insert_eq.
Qed.

(** The target was found to be absent. *)
Lemma wp_target_exists X fd (Q : result anyhow bool -> Session -> trace -> Prop) s tr :
  Wf N (files s) -> ino_of (files s) fd = Some D ->
  (forall r s' tr', sev X s tr s' tr' ->
     (r = Ok false -> entry (files s') D tgt = None) -> Q r s' tr') ->
  wpx (path_entry_exists (Entry fd tgt)) Q s tr.
Proof.
  intros Hw Hfd HQ. unfold path_entry_exists. apply wp_pbind.
  apply (wp_answer X (SymlinkMetadata (Entry fd tgt))); [done|done|]. intros w1 ch Hr.
  pose proof (rely_ev N X _ _ Hw Hr) as He1.
  pose proof (rely_ino_of N _ _ fd Hr) as Hfd1. rewrite Hfd in Hfd1.
  unfold exec. destruct (fault ch) as [[code m]|]; simpl.
  { intros s' tr' Hf He. by apply HQ. }
  rewrite Hfd1. simpl. destruct (entry w1 D tgt) as [i|] eqn:Hi; simpl; cycle 1.
  { intros s' tr' Hf He. apply HQ; [done|]. intros _. by rewrite Hf. }
  destruct (wf_target _ _ (ev_wf _ _ _ _ He1) i Hi) as [x Hx]. rewrite Hx.
  intros s' tr' Hf He. by apply HQ.
Qed.

(** A synced file is clean; a synced directory is settled for good. *)
Lemma wp_sync X fd i (Q : result errno unit -> Session -> trace -> Prop) s tr :
  Wf N (files s) -> ino_of (files s) fd = Some i ->
  (forall r s' tr', sev X s tr s' tr' ->
     (r = Ok tt -> exists x, inodes (files s') !! i = Some x /\ (i_kind x <> KDir -> i_clean x = true) /\
        (i_kind x = KDir -> i = D -> forall j, entry (files s') D tgt = Some j ->
           durable_target N (files s') j)) -> Q r s' tr') ->
  wpx (sys (Sync fd)) Q s tr.
Proof.
  intros Hw Hfd HQ. apply (wp_answer X (Sync fd)); [done|done|]. intros w1 ch Hr.
  pose proof (rely_ino_of N _ _ fd Hr) as Hfd1. rewrite Hfd in Hfd1.
  unfold exec. destruct (fault ch) as [[code m]|]; simpl.
  { intros s' tr' Hf He. by apply HQ. }
  unfold do_sync, with_file. apply fmap_Some in Hfd1 as (h & Hh & ->). rewrite Hh.
  destruct (inodes w1 !! h_ino h) as [x|] eqn:Hx; cycle 1.
  { intros s' tr' Hf He. by apply HQ. }
  intros s' tr' Hf He. apply HQ; [done|]. intros _. destruct (i_kind x) eqn:Hk; rewrite Hf; simpl.
  - exists (synced x). rewrite lookup_alter_eq, Hx. simpl. rewrite Hk. done.
  - exists x. rewrite Hx, Hk. split_and!; [done|done|]. intros _ -> j Hj.
    unfold entry in Hj. simpl in Hj. unfold durable_target. simpl. rewrite lookup_alter_eq in Hj |- *.
    destruct (dirs w1 !! D) as [y|]; [|done]. eexists. split; [done|]. simpl in *.
    intros m [->|Hm]%elem_of_cons; [done|]. by apply elem_of_nil in Hm.
  - exists (synced x). rewrite lookup_alter_eq, Hx. simpl. rewrite Hk. done.
  - exists (synced x). rewrite lookup_alter_eq, Hx. simpl. rewrite Hk. done.
Qed.

(** ** Reading a file *)

(** An open file at a position, with its data. *)
Definition reading (w : World) (fd i pos : Z) (data : bytes) : Prop :=
  exists h x, handles w !! fd = Some h /\ h_ino h = i /\ h_pos h = pos /\
              inodes w !! i = Some x /\ i_data x = data.

Lemma reading_rely w w' fd i pos data :
  rely N w w' -> reading w fd i pos data -> reading w' fd i pos data.
Proof.
  intros Hr (h & x & Hh & Hi & Hp & Hx & Hdt). destruct (rl_handles _ _ _ Hr) as [E _].
  exists h, x. rewrite E. split_and!; try done. rewrite (rl_inodes _ _ _ Hr); [done|].
  left. exists fd. unfold ino_of. by rewrite Hh, <- Hi.
Qed.

Lemma wp_seek X fd i pos (Q : result errno unit -> Session -> trace -> Prop) s tr :
  Wf N (files s) -> ino_of (files s) fd = Some i ->
  (forall r s' tr', sev X s tr s' tr' ->
     (r = Ok tt -> exists data, reading (files s') fd i pos data) -> Q r s' tr') ->
  wpx (sys (Seek fd pos)) Q s tr.
Proof.
  intros Hw Hfd HQ. apply (wp_answer X (Seek fd pos)); [done|done|]. intros w1 ch Hr.
  pose proof (rely_ino_of N _ _ fd Hr) as Hfd1. rewrite Hfd in Hfd1.
  unfold exec. destruct (fault ch) as [[code m]|]; simpl.
  { intros s' tr' Hf He. by apply HQ. }
  unfold with_file. apply fmap_Some in Hfd1 as (h & Hh & ->). rewrite Hh.
  destruct (inodes w1 !! h_ino h) as [x|] eqn:Hx; cycle 1.
  { intros s' tr' Hf He. by apply HQ. }
  intros s' tr' Hf He. apply HQ; [done|]. intros _. exists (i_data x), (at_pos pos h), x.
  rewrite Hf. simpl. rewrite lookup_alter_eq, Hh. done.
Qed.

Lemma read_prefix (n : Z) (m : nat) (l : bytes) :
  0 < n -> (0 < m)%nat -> Z.of_nat m <= n ->
  let bs := take m l in zlen bs <= n /\ bs = take (length bs) l /\ (bs = [] -> l = []).
Proof.
  intros Hn Hm Hmn bs. subst bs. unfold zlen. rewrite length_take. split; [lia|]. split.
  - destruct (decide (m <= length l)%nat); [f_equal; lia|].
    rewrite take_ge by lia. rewrite take_ge; [done|lia].
  - destruct m; [lia|]. by destruct l.
Qed.

Lemma wp_read X fd n i pos data (Q : result errno bytes -> Session -> trace -> Prop) s tr :
  Wf N (files s) -> reading (files s) fd i pos data -> 0 < n ->
  (forall r s' tr', sev X s tr s' tr' ->
     (forall bs, r = Ok bs ->
        reading (files s') fd i (pos + zlen bs) data /\ zlen bs <= n /\
        bs = take (length bs) (drop (Z.to_nat pos) data) /\
        (bs = [] -> drop (Z.to_nat pos) data = [])) -> Q r s' tr') ->
  wpx (sys (Read fd n)) Q s tr.
Proof.
  intros Hw Hrd Hn HQ. apply (wp_answer X (Read fd n)); [done|done|]. intros w1 ch Hr.
  destruct (reading_rely _ _ _ _ _ _ Hr Hrd) as (h & x & Hh & Hi & Hp & Hx & Hdt).
  unfold exec. destruct (fault ch) as [[code m]|]; simpl.
  { intros s' tr' Hf He. by apply HQ. }
  unfold do_read, with_file. rewrite Hh, Hi, Hx.
  intros s' tr' Hf He. apply HQ; [done|]. intros bs [= <-].
  set (got := take _ _). assert (zlen got <= n /\ got = take (length got) (drop (Z.to_nat pos) data) /\
    (got = [] -> drop (Z.to_nat pos) data = [])) as Hgot.
  { unfold got. rewrite Hdt, Hp. apply read_prefix; lia. }
  split; [|exact Hgot]. exists (at_pos (h_pos h + zlen got) h), x. rewrite Hf. simpl.
  rewrite lookup_alter_eq, Hh. simpl. rewrite <- Hp. done.
Qed.

Lemma wp_hash_exact X file size i (Q : result anyhow str -> Session -> trace -> Prop) s tr :
  Wf N (files s) -> ino_of (files s) file = Some i -> 0 <= size ->
  (forall r s' tr', sev X s tr s' tr' ->
     (forall h, r = Ok h -> exists x, inodes (files s') !! i = Some x /\
        zlen (i_data x) = size /\ h = hex_encode (sha256 (i_data x))) -> Q r s' tr') ->
  wpx (hash_file_exact file size) Q s tr.
Proof.
  intros Hw Hi Hs HQ. unfold hash_file_exact. apply wp_rpbind, wp_pmap_err.
  apply (wp_seek X file i 0); [done|done|]. intros [[]|e] s1 tr1 He1 Hrd; [|by apply HQ].
  destruct (Hrd eq_refl) as [data Hrd1]. clear Hrd.
  apply wp_rpbind. unfold hash_loop.
  apply (wp_rloop _ _ _ _ _ (fun st s' tr' => sev X s tr s' tr' /\
    reading (files s') file i st.2 data /\ st.1 = take (Z.to_nat st.2) data /\
    0 <= st.2 <= size /\ st.2 <= zlen data) (fun st => size - st.2)); cbn [fst snd].
  - clear s1 tr1 He1 Hrd1. intros [hasher hashed] s1 tr1 (He1 & Hrd & Hh & Hb & Hl).
    cbn [fst snd] in *. split; [lia|]. unfold hash_step. destruct (Z.ltb_spec hashed size).
    + apply wp_rpbind, wp_pmap_err.
      apply (wp_read X _ _ i hashed data); [by eapply sev_wf|done|unfold DEFAULT_CHUNK_BYTES; lia|].
      intros [bs|e] s2 tr2 He2 Hbs; [|apply HQ; [by eapply sev_trans|done]].
      destruct (Hbs bs eq_refl) as (Hrd2 & Hn & Ht & Hemp). clear Hbs. cbn [map_err].
      apply wp_ensure; intros Hne; [|apply HQ; [by eapply sev_trans|done]].
      apply negb_true_iff, is_empty_false in Hne.
      assert (0 < zlen bs) as Hpos by (destruct bs; [done|rewrite zlen_cons; pose proof (zlen_nonneg bs); lia]).
      assert (hashed + zlen bs <= zlen data) as Hle.
      { assert (length bs <= length data - Z.to_nat hashed)%nat.
        { rewrite <- length_drop. rewrite Ht at 1. rewrite length_take. lia. }
        unfold zlen in *. lia. }
      apply wp_pure; [|intros ??; apply HQ; [by eapply sev_trans|done]].
      intros k Hk. apply ok_or_ok, checked_add_some in Hk as [-> _].
      split; [split_and!|simpl; lia]; simpl.
      * by eapply sev_trans.
      * done.
      * replace (Z.to_nat (hashed + zlen bs)) with (Z.to_nat hashed + length bs)%nat
          by (unfold zlen; lia).
        by rewrite Hh, <- take_take_drop, <- Ht.
      * lia.
      * lia.
      * done.
    + assert (hashed = size) as -> by lia. apply wp_ret.
      apply wp_rpbind, wp_pmap_err.
      apply (wp_read X _ _ i size data); [by eapply sev_wf|done|lia|].
      intros [bs|e] s2 tr2 He2 Hbs; [|apply HQ; [by eapply sev_trans|done]].
      destruct (Hbs bs eq_refl) as (Hrd2 & Hn & Ht & Hemp). clear Hbs. cbn [map_err].
      apply wp_ensure; intros Hne; [|apply HQ; [by eapply sev_trans|done]].
      apply is_empty_true in Hne. specialize (Hemp Hne). apply HQ; [by eapply sev_trans|].
      intros h [= <-]. destruct Hrd2 as (hd & x & Hhd & Hhi & _ & Hx & Hdt).
      assert (zlen data = size) as Hlen.
      { apply (f_equal length) in Hemp. rewrite length_drop in Hemp. unfold zlen in *. simpl in Hemp. lia. }
      exists x. rewrite Hdt. split_and!; [done|done|]. rewrite Hh, take_ge; [done|].
      unfold zlen in Hlen. lia.
  - split_and!; [done|done|done|lia|lia|apply zlen_nonneg].
  - unfold size_fuel. lia.
Qed.
End calls.
