(* ===== verification/XferPush.v ===== *)
(** * Uploads: the state machine of [serve_push]

    What [serve_push] leaves behind on every path through it, for any answers
    of the file system and any interference within [rely]. *)

From stdpp Require Import gmap.
From S2P Require Import Prelude.
From S2P Require Import Bytes.
From S2P Require Import Text.
From S2P Require Import Codec.
From S2P Require Import Crates.
From S2P Require Import TransferProtocol.
From S2P Require Import Posix.
From S2P Require Import PosixTheory.
From S2P Require Import Program.
From S2P Require Import Xfer.
From S2P Require Import XferServe.
From S2P Require Import XferTheory.
From S2P Require Import XferCalls.
#[local] Open Scope string_scope.
#[local] Open Scope list_scope.
#[local] Open Scope Z_scope.

(** The file an upload promises, and the one it links: synced. *)
Definition content `{Sha2, Hex} (rq : PushRequest) (x : Inode) : Prop :=
  zlen (i_data x) = rq_size rq /\ hex_encode (sha256 (i_data x)) = rq_expected_sha256 rq.
Definition complete `{Sha2, Hex} (rq : PushRequest) (x : Inode) : Prop :=
  i_clean x = true /\ content rq x.

Section push.
Context (N : Names) (Hd : distinct N).
Context `{Strerror} `{Sha2} `{Hex} `{Json Control}.
Context `{Json NativeTransferLockRecord} `{Json ResumeSidecar}.
Context (rq : PushRequest).
Notation D := (n_dir N).
Notation tgt := (n_target N).
Notation good := (complete rq).
Notation trace := (list (Session * Session)).
Notation wpx := (wp xexec (srely N) (sguar N good)).
Notation sev := (sev N).
Notation none := (fun _ : Z => False).
Notation any := (fun _ : Z => True).

Lemma content_keeps x y : keeps x y -> content rq x -> content rq y.
Proof. intros [_ E _] [Hl Hh]. split; by rewrite E. Qed.
Lemma complete_keeps x y : keeps x y -> good x -> good y.
Proof. intros Hk [Hc Hx]. split; [by apply (keeps_clean _ _ Hk)|by eapply content_keeps]. Qed.

(** ** Parts of the state machine *)

Lemma wp_push_bind {A B} (p : push A) (k : A -> push B) Q l s tr :
  wpx (p l) (fun x s' tr' => match x.2 with
                             | Ok a => wpx (k a x.1) Q s' tr'
                             | Err e => Q (x.1, Err e) s' tr'
                             end) s tr ->
  wpx (push_bind p k l) Q s tr.
Proof. intros Hp. apply wp_pbind. eapply wp_mono; [exact Hp|]. by intros [l' [a|e]] ??. Qed.

Lemma wp_up {A} (p : io A) (Q : Locals * result anyhow A -> Session -> trace -> Prop) l s tr :
  wpx p (fun r => Q (l, r)) s tr -> wpx (up p l) Q s tr.
Proof. intros Hp. apply wp_pbind. eapply wp_mono; [exact Hp|]. done. Qed.

Lemma wp_put {B} f (k : unit -> push B) Q l s tr :
  wpx (k tt (f l)) Q s tr -> wpx (push_bind (put f) k l) Q s tr.
Proof. done. Qed.

Lemma wp_get {A B} (f : Locals -> A) (k : A -> push B) Q l s tr :
  wpx (k (f l) l) Q s tr -> wpx (push_bind (get f) k l) Q s tr.
Proof. done. Qed.

Lemma wp_push_pure {A B} (r : result anyhow A) (k : A -> push B) Q l s tr :
  (forall a, r = Ok a -> wpx (k a l) Q s tr) -> (forall e, r = Err e -> Q (l, Err e) s tr) ->
  wpx (push_bind (up (Ret r)) k l) Q s tr.
Proof. intros H6 H7. destruct r; [by apply H6|by apply H7]. Qed.

Lemma wp_push_ensure {B} b (e : anyhow) (k : unit -> push B) Q l s tr :
  (b = true -> wpx (k tt l) Q s tr) -> (b = false -> Q (l, Err e) s tr) ->
  wpx (push_bind (up (Ret (ensure b e))) k l) Q s tr.
Proof.
  intros H6 H7. apply wp_push_pure; [intros [] E|intros e' E].
  - apply H6. by apply ensure_ok in E.
  - apply ensure_err in E as [E ->]. by apply H7.
Qed.

(** A part that evolves, since a moment [s0] earlier on. *)
Lemma push_part {A B} X F (p : io A) (k : A -> push B) Q l s0 tr0 s tr :
  evolves N good X F p -> sev X s0 tr0 s tr -> pins N F (files s0) ->
  (forall e s' tr', sev X s0 tr0 s' tr' -> Q (l, Err e) s' tr') ->
  (forall a s' tr', sev X s0 tr0 s' tr' -> sev X s tr s' tr' -> wpx (k a l) Q s' tr') ->
  wpx (push_bind (up p) k l) Q s tr.
Proof.
  intros Hp He HF Herr Hok. apply wp_push_bind, wp_up.
  apply (evolves_use N good X F); [done|by eapply sev_wf|by eapply sev_pins|].
  intros [a|e] s' tr' He'; simpl; [apply Hok|apply Herr]; try done; by eapply sev_trans.
Qed.

Lemma push_calm {A B} X F (p : io A) (k : A -> push B) Q l s0 tr0 s tr :
  tame N F p (fun _ => True) -> sev X s0 tr0 s tr -> pins N F (files s0) ->
  (forall e s' tr', sev X s0 tr0 s' tr' -> Q (l, Err e) s' tr') ->
  (forall a s' tr', sev X s0 tr0 s' tr' -> sev X s tr s' tr' -> wpx (k a l) Q s' tr') ->
  wpx (push_bind (up p) k l) Q s tr.
Proof. intros Hp. apply push_part. by apply calm_evolves. Qed.

(** ** The link *)

(** The directory, open and a directory. *)
Definition dir_open (w : World) (fd : Z) : Prop :=
  ino_of w fd = Some D /\ exists x, inodes w !! D = Some x /\ i_kind x = KDir.

Lemma dir_open_ev X w w' fd : ~ X D -> ev N X w w' -> dir_open w fd -> dir_open w' fd.
Proof.
  intros HX He [Hfd (x & Hx & Hk)]. split; [by apply (ev_ino _ _ _ _ He)|].
  destruct (ev_keep _ _ _ _ He D x Hx) as (x' & Hx' & Hkp); [left; by exists fd|done|].
  exists x'. split; [done|]. by rewrite (keeps_kind _ _ Hkp).
Qed.

(** What the target is after it was linked: the inode [i], complete. *)
Definition holds_target (P : Inode -> Prop) (w : World) (i : Z) : Prop :=
  entry w D tgt = Some i /\ exists x, inodes w !! i = Some x /\ P x.

Lemma holds_target_ev X (P : Inode -> Prop) w w' i :
  (forall x y, keeps x y -> P x -> P y) -> ~ X i ->
  ev N X w w' -> holds_target P w i -> holds_target P w' i.
Proof.
  intros HP HX He [Ht (x & Hx & Hp)]. split; [by apply (ev_target _ _ _ _ He)|].
  destruct (ev_keep _ _ _ _ He i x Hx) as (x' & Hx' & Hk); [by right|done|]. eauto.
Qed.

(** From before the link to after it. *)
Record linked (s s' : Session) (i : Z) : Prop := {
  ln_wf : Wf N (files s');
  ln_device : device (files s') = device (files s);
  ln_ino fd j : ino_of (files s) fd = Some j -> ino_of (files s') fd = Some j;
  ln_dir fd : dir_open (files s) fd -> dir_open (files s') fd;
  ln_target : holds_target good (files s') i;
  ln_sent : sent s' = sent s;
}.

Lemma wp_link file pfd i (Q : result errno unit -> Session -> trace -> Prop) s tr :
  Wf N (files s) -> ino_of (files s) file = Some i -> dir_open (files s) pfd ->
  (exists x, inodes (files s) !! i = Some x /\ good x) ->
  (forall e s' tr', sev none s tr s' tr' -> Q (Err e) s' tr') ->
  (forall s' c, linked s s' i -> sguar N good c.1 c.2 -> Q (Ok tt) s' (c :: tr)) ->
  wpx (sys (Link file (Entry pfd tgt))) Q s tr.
Proof.
  intros Hw Hf [Hp Hdir] (x & Hx & Hgood) Herr Hok s1 ch [Hr Hs].
  pose proof (rely_ev N none _ _ Hw Hr) as He1.
  pose proof (rely_ino_of N _ _ file Hr) as Hf1. rewrite Hf in Hf1.
  pose proof (rely_ino_of N _ _ pfd Hr) as Hp1. rewrite Hp in Hp1.
  assert (inodes (files s1) !! i = Some x) as Hx1.
  { rewrite (rl_inodes _ _ _ Hr); [done|]. left. by exists file. }
  assert (dir_open (files s1) pfd) as Hd1 by (eapply dir_open_ev; [|exact He1|done]; intros HF; exact HF).
  assert (forall e, sguar N good s1 s1 /\ Q (Err e) s1 ((s1, s1) :: tr)) as Hsame.
  { intros e. destruct (plain_sev N good none s s1 s1 tr Hw (conj Hr Hs)) as [Hg He].
    - exists []. by rewrite app_nil_r.
    - apply plain_refl, He1.
    - split; [done|by apply Herr]. }
  simpl. unfold exec. destruct (fault ch) as [[code n]|]; simpl.
  { destruct s1; apply Hsame. }
  unfold do_link. simpl. rewrite Hf1, Hp1. simpl. rewrite Hx1.
  destruct (dirs (files s1) !! D) as [y|] eqn:Hy; [|destruct s1; apply Hsame].
  case_bool_decide as Hex; [destruct s1; apply Hsame|].
  destruct (i_nlink x <=? 0); [destruct s1; apply Hsame|]. simpl.
  assert (entry (files s1) D tgt = None) as Hnone.
  { destruct (entry (files s1) D tgt); [|done]. exfalso. apply Hex. eauto. }
  set (w2 := rename_in D (insert tgt i) (on_inode i (with_nlink 1) (files s1))).
  assert (changes (Some (D, tgt)) None (files s1) w2) as Hch.
  { eapply changes_trans.
    - apply changes_weaken, (changes_inode None i (with_nlink 1)). right. intros. apply keeps_nlink.
    - apply changes_rename. intros m n' Hn. by rewrite lookup_insert_ne. }
  assert (dirs w2 !! D = Some {| d_entries := <[tgt := i]> (d_entries y);
                                 d_older := d_entries y :: d_older y |}) as Hy2.
  { unfold w2. simpl. by rewrite lookup_alter_eq, Hy. }
  assert (entry w2 D tgt = Some i) as Ht2.
  { unfold entry. rewrite Hy2. simpl. by rewrite lookup_insert_eq. }
  assert (inodes w2 !! i = Some (with_nlink 1 x)) as Hi2.
  { unfold w2. simpl. by rewrite lookup_alter_eq, Hx1. }
  pose proof (ev_wf _ _ _ _ He1) as Hw1.
  assert (Wf N w2) as Hw2.
  { split.
    - eapply changes_bounded; [exact Hch|apply Hw1].
    - intros j. rewrite Ht2. intros [= <-]. eauto.
    - intros z m. rewrite Hy2. intros [= <-]. simpl.
      assert (d_entries y !! tgt = None) as Hyn by (unfold entry in Hnone; by rewrite Hy in Hnone).
      intros [->|Hm]%elem_of_cons; [by left|]. left.
      destruct (wf_settled _ _ Hw1 y m Hy Hm) as [?|E]; [done|]. by rewrite E. }
  assert (sguar N good s1 (with_files s1 w2)) as Hg.
  { split; simpl; [| |done].
    - intros d n. destruct (decide (d = D /\ n = tgt)) as [[-> ->]|Hne].
      + right. right. split_and!; [done..|]. exists i, (with_nlink 1 x).
        split_and!; [done|done|]. by eapply complete_keeps; [apply keeps_nlink|].
      + left. apply (ch_entry _ _ _ _ Hch). intros [= E1 E2]. by apply Hne.
    - intros j z Hj. congruence. }
  split; [exact Hg|]. apply Hok; [|exact Hg]. split; simpl.
  - exact Hw2.
  - apply (rl_const _ _ _ Hr).
  - intros fd j Hj. apply (changes_ino_of _ _ _ _ _ _ Hch); [apply Hw1|].
    by rewrite (rely_ino_of N _ _ fd Hr).
  - intros fd Hfd. assert (dir_open (files s1) fd) as [Hi1 (z & Hz & Hk)] by (eapply dir_open_ev; [|exact He1|done]; intros HF; exact HF).
    split; [apply (changes_ino_of _ _ _ _ _ _ Hch); [apply Hw1|done]|].
    destruct (ch_inodes _ _ _ _ Hch D z Hz) as (z' & Hz' & Hkp); [|done|].
    { by eapply bounded_inodes; [apply Hw1|]. }
    exists z'. split; [done|]. by rewrite (keeps_kind _ _ Hkp).
  - split; [done|]. exists (with_nlink 1 x). split; [done|].
    by eapply complete_keeps; [apply keeps_nlink|].
  - done.
Qed.

(** ** Outcomes *)

(** What a run has done to the session, the target left aside. *)
Record moved (s s' : Session) : Prop := {
  mv_wf : Wf N (files s');
  mv_ino fd j : ino_of (files s) fd = Some j -> ino_of (files s') fd = Some j;
  mv_sent : exists l, sent s' = sent s ++ l /\ Forall not_completed l;
}.

Lemma sev_moved X s tr s' tr' : sev X s tr s' tr' -> moved s s'.
Proof. intros [He Hs _]. split; [apply He|apply (ev_ino _ _ _ _ He)|done]. Qed.

Lemma moved_sev X s s1 tr1 s2 tr2 : moved s s1 -> sev X s1 tr1 s2 tr2 -> moved s s2.
Proof.
  intros [_ Hi (l & Hl & Hn)] [He (l' & Hl' & Hn') _]. split; [apply He| |].
  - intros fd j Hj. by apply (ev_ino _ _ _ _ He), Hi.
  - exists (l ++ l'). rewrite Hl', Hl, app_assoc. split; [done|by apply Forall_app].
Qed.

Lemma moved_linked s s1 s2 i : moved s s1 -> linked s1 s2 i -> moved s s2.
Proof.
  intros [_ Hi (l & Hl & Hn)] Hk. split; [apply Hk| |].
  - intros fd j Hj. by apply (ln_ino _ _ _ Hk), Hi.
  - exists l. rewrite (ln_sent _ _ _ Hk). done.
Qed.

(** No step since [tr] changed the target's name. *)
Definition untouched (tr tr' : trace) : Prop :=
  exists l, tr' = l ++ tr /\ Forall (kept_target N) l.

(** [Completed] was sent, for a target that holds the content for good; synced
    if it is this run that linked it. *)
Definition finished (s : Session) (tr : trace) (s' : Session) (tr' : trace) : Prop :=
  exists l i, sent s' = sent s ++ l ++ [FControl (Completed (rq_size rq) (rq_expected_sha256 rq))] /\
    Forall not_completed l /\ durable_target N (files s') i /\ holds_target (content rq) (files s') i /\
    (untouched tr tr' \/ holds_target good (files s') i).

(** The identity recorded as owned is of an open file that is not the target. *)
Definition own_file (w : World) (id : FileIdentity) : Prop :=
  exists f i, ino_of w f = Some i /\ fi_inode id = i /\ entry w D tgt <> Some i.

Lemma own_file_ev X w w' id : ev N X w w' -> own_file w id -> own_file w' id.
Proof.
  intros He (f & i & Hf & Hi & Ht). exists f, i. split_and!; [by apply (ev_ino _ _ _ _ He)|done|].
  apply (ev_other _ _ _ _ He); [by exists f|done].
Qed.

Definition fresh_locals (w : World) (l : Locals) : Prop :=
  commit_applied l = false /\ forall id, owned_identity l = Some id -> own_file w id.

(** The three ways the state machine ends. *)
Definition outcome (s : Session) (tr : trace) (x : Locals * result anyhow unit)
    (s' : Session) (tr' : trace) : Prop :=
  let '(l, r) := x in
  (fresh_locals (files s') l /\ (exists e, r = Err e) /\ sev any s tr s' tr') \/
  (commit_applied l = false /\ (exists e, r = Err e /\ is_a CommitOutcomeUnknown e = true) /\
   moved s s') \/
  (commit_applied l = true /\
   match r with Ok _ => finished s tr s' tr' | Err _ => moved s s' end).

(** ** Answers about the target *)

Context (g : NativeTransferGuard).
Notation pfd := (g_parent g).
Notation F := (fun fd => fd = pfd).

Lemma pins_open w : dir_open w pfd -> pins N F w.
Proof. intros [Hp _] fd ->. done. Qed.

Definition holds_file (P : Inode -> Prop) (w : World) (i : Z) : Prop :=
  exists x, inodes w !! i = Some x /\ P x.

Lemma holds_file_sev (P : Inode -> Prop) s tr s' tr' i :
  (forall x y, keeps x y -> P x -> P y) -> opened (files s) i ->
  sev none s tr s' tr' -> holds_file P (files s) i -> holds_file P (files s') i.
Proof.
  intros HP Ho He (x & Hx & Hp).
  destruct (ev_keep _ _ _ _ (se_ev _ _ _ _ _ _ He) i x Hx) as (x' & Hx' & Hk);
    [by left|intros HF; exact HF|]. exists x'. eauto.
Qed.

Lemma wp_open_private n b (Q : result anyhow Z -> Session -> trace -> Prop) s tr :
  Wf N (files s) -> dir_open (files s) pfd ->
  (forall r s' tr', sev none s tr s' tr' ->
     (forall f, r = Ok f -> exists s1 tr1 i, sev none s tr s1 tr1 /\ sev none s1 tr1 s' tr' /\
        ino_of (files s1) f = Some i /\ entry (files s1) D n = Some i /\
        holds_file (fun x => i_kind x = KFile) (files s') i) -> Q r s' tr') ->
  wpx (open_existing_private (Entry pfd n) b) Q s tr.
Proof.
  intros Hw Hdir HQ. unfold open_existing_private. apply wp_rpbind. do 2 apply wp_pmap_err.
  apply (wp_open_entry N good Hd none); [done|apply Hdir|].
  intros [f|e] s1 tr1 He1 Hf; [|by apply HQ]. destruct (Hf f eq_refl) as (i & Hi & Hn).
  cbn [map_err]. apply wp_rpbind, wp_pmap_err.
  apply (wp_identity N good Hd none f i); [by eapply sev_wf|done|].
  intros [m|e] s2 tr2 He2 Hm; [|apply HQ; [by eapply sev_trans|done]].
  destruct (Hm m eq_refl) as (x & Hx & ->). cbn [map_err]. clear Hf Hm.
  assert (sev none s tr s2 tr2) as He02 by by eapply sev_trans.
  apply wp_ensure; [|intros _; by apply HQ]. intros Hk%bool_decide_eq_true.
  eapply wp_mono; [apply (wp_tame N good Hd none (fun _ => False) _ (fun r => forall f', r = Ok f' -> f' = f))|].
  - by eapply sev_wf.
  - by intros ? [].
  - simpl. destruct (_ =? _); simpl; [|done]. split; [done|]. intros uid.
    destruct (_ =? _); simpl; [|done]. by intros ? [= <-].
  - intros r s' tr' [Hr He]. apply HQ; [by eapply sev_trans|]. intros f' ->. rewrite (Hr f' eq_refl).
    exists s1, tr1, i. split_and!; [done|by eapply sev_trans|done|done|].
    eapply (holds_file_sev _ s2 tr2); [| |exact He|by exists x].
    + intros y z Hyz Hy. by rewrite (keeps_kind _ _ Hyz).
    + exists f. by apply (ev_ino _ _ _ _ (se_ev _ _ _ _ _ _ He2)).
Qed.

Lemma wp_sync_parent X n i (Q : result anyhow unit -> Session -> trace -> Prop) s tr :
  ~ X D -> Wf N (files s) -> dir_open (files s) pfd -> entry (files s) D tgt = Some i ->
  (forall r s' tr', sev X s tr s' tr' -> (r = Ok tt -> durable_target N (files s') i) -> Q r s' tr') ->
  wpx (sync_parent (Entry pfd n)) Q s tr.
Proof.
  intros HX Hw Hdir Ht HQ. unfold sync_parent. apply wp_pure; [|done].
  intros parent [= <-]. apply wp_rpbind. do 2 apply wp_pmap_err.
  apply (wp_open_fd N good Hd X pfd D); [done|apply Hdir|].
  intros [f|e] s1 tr1 He1 Hf; [|by apply HQ]. specialize (Hf f eq_refl).
  do 2 apply wp_pmap_err. pose proof (se_ev _ _ _ _ _ _ He1) as Hev.
  destruct (dir_open_ev _ _ _ _ HX Hev Hdir) as [_ (x & Hx & Hk)].
  apply (wp_sync N good Hd X f D); [by eapply sev_wf|done|].
  intros r s2 tr2 He2 Hr. apply HQ; [by eapply sev_trans|]. intros Hok.
  destruct r as [[]|]; [|done]. destruct (Hr eq_refl) as (x2 & Hx2 & _ & Hdur).
  pose proof (se_ev _ _ _ _ _ _ He2) as Hev2.
  destruct (ev_keep _ _ _ _ Hev2 D x Hx) as (x3 & Hx3 & Hk3); [left; by exists f|done|].
  apply Hdur; [|done|].
  - rewrite Hx3 in Hx2. injection Hx2 as <-. by rewrite (keeps_kind _ _ Hk3).
  - by apply (ev_target _ _ _ _ Hev2), (ev_target _ _ _ _ Hev).
Qed.

(** The last frame. *)
Lemma wp_send_completed (Q : result anyhow unit -> Session -> trace -> Prop) s tr :
  let f := Completed (rq_size rq) (rq_expected_sha256 rq) in
  Wf N (files s) ->
  (forall e s' tr', sev none s tr s' tr' -> Q (Err e) s' tr') ->
  (forall s' c, ev N none (files s) (files s') -> kept_target N c ->
     sent s' = sent s ++ [FControl f] -> Q (Ok tt) s' (c :: tr)) ->
  wpx (write_control_io f) Q s tr.
Proof.
  intros f Hw Herr Hok. unfold write_control_io.
  destruct (write_control f) as [bs|e]; cycle 1.
  { apply wp_ret, Herr. by apply sev_refl. }
  unfold checked. apply wp_pure; [|done]. intros _ _. unfold send. apply wp_pmap_err.
  intros s1 ch [Hr Hs]. pose proof (rely_ev N none _ _ Hw Hr) as He1.
  destruct (plain_sev N good none s s1 s1 tr Hw (conj Hr Hs)) as [Hg He].
  { exists []. by rewrite app_nil_r. }
  { apply plain_refl, He1. }
  unfold xexec. destruct (fault ch) as [[code n]|]; simpl.
  - split; [exact Hg|]. by apply Herr.
  - split; [exact Hg|]. apply Hok; simpl; [done|done|by rewrite Hs].
Qed.

Context (Hsize : 0 <= rq_size rq).
Notation target := (Entry pfd tgt).
Notation partial := (Entry pfd (n_partial N)).
Notation sidecar := (Entry pfd (n_sidecar N)).

Lemma partial_own : own_path F (own_names N) partial.
Proof. split; [done|by left]. Qed.
Lemma sidecar_is_own : own_path F (own_names N) sidecar.
Proof. split; [done|right; by left]. Qed.
Lemma sidecar_only : own_path F [n_sidecar N] sidecar.
Proof. split; [done|by left]. Qed.
#[local] Hint Resolve partial_own sidecar_is_own sidecar_only : calm.

Lemma fail_plain l s0 tr0 e s tr X :
  commit_applied l = false -> owned_identity l = None -> sev X s0 tr0 s tr ->
  outcome s0 tr0 (l, Err e) s tr.
Proof.
  intros Hc Ho He. left. split_and!; [split; [done|by rewrite Ho]|by exists e|].
  by eapply sev_mono; [|exact He].
Qed.

Lemma fail_committed l s0 tr0 e s tr :
  commit_applied l = true -> moved s0 s -> outcome s0 tr0 (l, Err e) s tr.
Proof. intros Hc He. right. right. by split. Qed.

Lemma calm_recv_match F' (frame : option Frame) (a b c : string) :
  tame N F' (match frame with
         | Some (FControl Commit) => ok tt
         | Some (FControl Cancel) => bail a
         | Some _ => bail b
         | None => bail c
         end) (fun _ => True).
Proof. destruct frame as [[[]|]|]; done. Qed.
#[local] Hint Resolve calm_recv_match : calm.

(** The end of an upload whose target is there: checks, then [Completed]. *)
Lemma wp_finish l i s0 tr0 s tr :
  commit_applied l = true -> moved s0 s -> Wf N (files s) -> dir_open (files s) pfd ->
  durable_target N (files s) i -> holds_target (content rq) (files s) i ->
  (untouched tr0 tr \/ holds_target good (files s) i) ->
  wpx ((run& up (ensure_still_bound g) ;;
        run& up (ensure_original_parent_bound g) ;;
        up (write_control_io (Completed (rq_size rq) (rq_expected_sha256 rq)))) l)
    (outcome s0 tr0) s tr.
Proof.
  intros Hc Hmv Hw Hdir Hdur Hcon Hor.
  assert (forall e s' tr', sev none s tr s' tr' -> outcome s0 tr0 (l, Err e) s' tr') as Herr.
  { intros e s' tr' He. apply fail_committed; [done|by eapply moved_sev]. }
  eapply (push_calm none F); [auto with calm|by apply sev_refl|by apply pins_open|exact Herr|].
  intros [] s1 tr1 He1 _.
  eapply (push_calm none F); [auto with calm|exact He1|by apply pins_open|exact Herr|].
  intros [] s2 tr2 He2 _. apply wp_up, wp_send_completed; [by eapply sev_wf| |].
  - intros e s3 tr3 He3. apply Herr. by eapply sev_trans.
  - intros s3 c He3 Hk Hs3. right. right. split; [done|].
    assert (ev N none (files s) (files s3)) as He by (eapply ev_trans; [apply He2|exact He3]).
    destruct (sev_moved _ _ _ _ _ He2) as [_ _ (l2 & Hl2 & Hn2)], Hmv as [_ _ (l1 & Hl1 & Hn1)].
    exists (l1 ++ l2), i. rewrite Hs3, Hl2, Hl1, !app_assoc.
    split_and!; [done|by apply Forall_app|by apply (ev_durable _ _ _ _ He)| |].
    + eapply holds_target_ev; [apply content_keeps| |exact He|done]. intros Hx; exact Hx.
    + destruct Hor as [(t1 & Ht1 & Hf1)|Hgd].
      * left. destruct (se_trace _ _ _ _ _ _ He2) as (t2 & Ht2 & Hf2).
        exists (c :: t2 ++ t1). rewrite Ht2, Ht1. simpl. rewrite <- app_assoc.
        split; [done|]. constructor; [done|by apply Forall_app].
      * right. eapply holds_target_ev; [apply complete_keeps| |exact He|done]. intros Hx; exact Hx.
Qed.

Lemma holds_dir X s tr s' tr' fd :
  ~ X D -> sev X s tr s' tr' -> dir_open (files s) fd -> dir_open (files s') fd.
Proof. intros HX He. by eapply dir_open_ev; [|apply He]. Qed.

Lemma holds_content X s tr s' tr' i :
  ~ X i -> sev X s tr s' tr' -> holds_target (content rq) (files s) i ->
  holds_target (content rq) (files s') i.
Proof. intros HX He. eapply holds_target_ev; [apply content_keeps|done|apply He]. Qed.

Lemma no_inode (i : Z) : ~ none i.
Proof. intros HF; exact HF. Qed.

(** What was true since a moment of the run still is. *)
Ltac kept :=
  match goal with
  | _ => done
  | Hk : dir_open (files ?s) _ |- pins _ _ (files ?s) => by apply pins_open
  | He : XferTheory.sev _ _ _ _ ?s _ |- Wf _ (files ?s) => exact (sev_wf _ _ _ _ _ _ He)
  | He : XferTheory.sev _ _ ?s _ ?s' _, Hk : dir_open (files ?s) _ |- pins _ _ (files ?s') =>
      apply pins_open; refine (holds_dir _ _ _ _ _ _ _ He Hk); let K := fresh in intros K; exact K
  | He : XferTheory.sev _ _ ?s _ ?s' _, Hk : dir_open (files ?s) _ |- dir_open (files ?s') _ =>
      refine (holds_dir _ _ _ _ _ _ _ He Hk); let K := fresh in intros K; exact K
  | He : XferTheory.sev _ _ ?s _ ?s' _, Hk : holds_target (content _) (files ?s) _
      |- holds_target (content _) (files ?s') _ =>
      refine (holds_content _ _ _ _ _ _ _ He Hk); let K := fresh in intros K; exact K
  | He : XferTheory.sev _ _ ?s _ ?s' _ |- moved ?s ?s' => exact (sev_moved _ _ _ _ _ He)
  | |- XferTheory.sev _ _ _ _ _ _ => eapply sev_trans; eassumption
  end.

(** After the recovered target was verified, since [s0]. *)
Lemma wp_confirm_recovered l i s0 tr0 s tr :
  commit_applied l = true -> sev none s0 tr0 s tr -> dir_open (files s) pfd ->
  durable_target N (files s) i -> holds_target (content rq) (files s) i ->
  wpx (confirm_recovered g rq l) (outcome s0 tr0) s tr.
Proof.
  intros Hc He Hdir Hdur Hcon. pose proof (sev_refl N none s tr (sev_wf _ _ _ _ _ _ He)) as He0.
  assert (forall e s' tr', sev none s tr s' tr' -> outcome s0 tr0 (l, Err e) s' tr') as Hf.
  { intros e s' tr' He'. apply fail_committed; [done|]. eapply sev_moved. by eapply sev_trans. }
  unfold confirm_recovered.
  eapply (push_calm none F); [apply calm_send; by intros ??|exact He0|kept|exact Hf|].
  intros [] s1 tr1 He1 _.
  eapply (push_calm none F); [auto with calm|exact He1|kept|exact Hf|]. intros frame s2 tr2 He2 _.
  eapply (push_calm none F); [auto with calm|exact He2|kept|exact Hf|]. intros [] s3 tr3 He3 _.
  assert (sev none s0 tr0 s3 tr3) as He03 by by eapply sev_trans.
  apply (wp_finish l i); [done|by eapply sev_moved|kept|kept| |kept|].
  - by apply (ev_durable _ _ _ _ (se_ev _ _ _ _ _ _ He3)).
  - left. apply (se_trace _ _ _ _ _ _ He03).
Qed.

Lemma wp_settle_recovered u st id l i s0 tr0 s tr :
  commit_applied l = true -> sev none s0 tr0 s tr -> dir_open (files s) pfd ->
  holds_target (content rq) (files s) i ->
  wpx (settle_recovered g rq u target partial sidecar st id l) (outcome s0 tr0) s tr.
Proof.
  intros Hc He Hdir Hcon. pose proof (sev_refl N none s tr (sev_wf _ _ _ _ _ _ He)) as He0.
  assert (forall e s' tr', sev none s tr s' tr' -> outcome s0 tr0 (l, Err e) s' tr') as Hf.
  { intros e s' tr' He'. apply fail_committed; [done|]. eapply sev_moved. by eapply sev_trans. }
  unfold settle_recovered.
  eapply (push_calm none F); [auto with calm|exact He0|kept|exact Hf|]. intros [] s1 tr1 He1 _.
  eapply (push_calm none F); [auto with calm|exact He1|kept|exact Hf|]. intros [] s2 tr2 He2 _.
  apply wp_push_bind, wp_up, wp_pmap_err.
  assert (holds_target (content rq) (files s2) i) as [Ht2 _] by kept.
  apply (wp_sync_parent none _ i); [by apply (no_inode D)|kept|kept|done|].
  intros [[]|e] s3 tr3 Hk3 Hdur; [|apply Hf; by eapply sev_trans]. cbn [fst snd map_err].
  specialize (Hdur eq_refl). assert (sev none s tr s3 tr3) as He3 by by eapply sev_trans.
  eapply (push_calm none F); [auto with calm|exact He3|kept|exact Hf|]. intros [] s4 tr4 He4 Hk4.
  eapply (push_part none F).
  { apply (evolves_map_err N good Hd), (evolves_replace_verified N good Hd), sidecar_only. }
  1: exact He4. 1: kept. 1: exact Hf. intros [] s5 tr5 He5 Hk5.
  eapply (push_calm none F); [auto with calm|exact He5|kept|exact Hf|]. intros residue s6 tr6 He6 Hk6.
  assert (forall s' tr', sev none s6 tr6 s' tr' -> wpx (confirm_recovered g rq l) (outcome s0 tr0) s' tr') as Hrest.
  { intros s' tr' He'. assert (sev none s tr s' tr') as Hes by by eapply sev_trans.
    apply (wp_confirm_recovered l i); [done|by eapply sev_trans|kept| |kept].
    assert (sev none s3 tr3 s' tr') as Hk.
    { eapply sev_trans; [exact Hk4|]. eapply sev_trans; [exact Hk5|]. by eapply sev_trans. }
    by apply (ev_durable _ _ _ _ (se_ev _ _ _ _ _ _ Hk)). }
  apply wp_push_bind. destruct residue; [|apply Hrest, sev_refl; kept].
  eapply (push_calm none F); [auto with calm|exact He6|kept|intros e s' tr' He'; by apply Hf|].
  intros [] s7 tr7 He7 Hk7. apply wp_up.
  apply (evolves_use N good none F); [|kept|kept|].
  { apply calm_evolves, calm_map_err, calm_remove_partial, partial_own. exact Hd. }
  intros [[]|e] s8 tr8 Hk8; cbn [fst snd]; [apply Hrest|apply Hf]; by eapply sev_trans.
Qed.

Lemma wp_recover u s0 tr0 s tr :
  sev none s0 tr0 s tr -> dir_open (files s) pfd ->
  wpx (recover_committed g rq u target partial sidecar init_locals) (outcome s0 tr0) s tr.
Proof.
  intros He Hdir. pose proof (sev_refl N none s tr (sev_wf _ _ _ _ _ _ He)) as He0.
  assert (forall e s' tr', sev none s tr s' tr' -> outcome s0 tr0 (init_locals, Err e) s' tr') as Hf.
  { intros e s' tr' He'. eapply fail_plain; [done..|]. by eapply sev_trans. }
  unfold recover_committed. apply wp_push_ensure; [intros _|intros _; by apply Hf].
  eapply (push_calm none F); [calm_tac; auto with calm|exact He0|kept|exact Hf|].
  intros state s1 tr1 He1 _. apply wp_push_bind, wp_up.
  apply wp_open_private; [kept|kept|].
  intros [f|e] s2 tr2 Hk2 Ho; [|apply Hf; by eapply sev_trans]. cbn [fst snd].
  destruct (Ho f eq_refl) as (sm & trm & i & Hkm & Hkm2 & Hfm & Htm & _). clear Ho.
  assert (sev none s tr s2 tr2) as He2 by by eapply sev_trans.
  pose proof (ev_ino _ _ _ _ (se_ev _ _ _ _ _ _ Hkm2) f i Hfm) as Hf2.
  pose proof (ev_target _ _ _ _ (se_ev _ _ _ _ _ _ Hkm2) i Htm) as Ht2.
  eapply (push_calm none F); [by calm_tac|exact He2|kept|exact Hf|]. intros m s3 tr3 He3 Hk3.
  apply wp_push_pure; [intros _ _|intros e _; by apply Hf].
  apply wp_push_ensure; [intros _|intros _; by apply Hf].
  apply wp_push_bind, wp_up. pose proof (ev_ino _ _ _ _ (se_ev _ _ _ _ _ _ Hk3) f i Hf2) as Hf3.
  pose proof (ev_target _ _ _ _ (se_ev _ _ _ _ _ _ Hk3) i Ht2) as Ht3.
  apply (wp_hash_exact N good Hd none f (rq_size rq) i); [kept|done|done|].
  intros [h|e] s4 tr4 Hk4 Hh; [|apply Hf; by eapply sev_trans]. cbn [fst snd].
  destruct (Hh h eq_refl) as (x4 & Hx4 & Hlen & ->). clear Hh.
  assert (sev none s tr s4 tr4) as He4 by by eapply sev_trans.
  pose proof (ev_target _ _ _ _ (se_ev _ _ _ _ _ _ Hk4) i Ht3) as Ht4.
  apply wp_push_ensure; [intros Heq|intros _; by apply Hf]. apply bool_decide_eq_true in Heq.
  apply wp_put, (wp_settle_recovered _ _ _ _ i); [done|by eapply sev_trans|kept|].
  split; [done|by exists x4].
Qed.

(** ** The file that is uploaded *)

Lemma wp_push_assoc {A B C} (p : push A) (k : A -> push B) (k' : B -> push C) Q l s tr :
  wpx (push_bind p (fun a => push_bind (k a) k') l) Q s tr ->
  wpx (push_bind (push_bind p k) k' l) Q s tr.
Proof.
  intros Hp. unfold push_bind in *. apply wp_pbind_inv in Hp. apply wp_pbind, wp_pbind.
  eapply wp_mono; [exact Hp|]. intros [l' [a|e]] s' tr' H'; [by apply wp_pbind_inv in H'|exact H'].
Qed.

(** The file [file] is inode [i], which is neither the target nor the
    directory, and [identity] is its identity. *)
Record own_upload (w : World) (file : Z) (identity : FileIdentity) (i : Z) : Prop := {
  ow_ino : ino_of w file = Some i;
  ow_identity : fi_inode identity = i;
  ow_target : entry w D tgt <> Some i;
  ow_dir : i <> D;
}.

Lemma own_upload_ev X w w' file identity i :
  ev N X w w' -> own_upload w file identity i -> own_upload w' file identity i.
Proof.
  intros He [Ho Hi Ht Hn]. split; [by apply (ev_ino _ _ _ _ He)|done| |done].
  apply (ev_other _ _ _ _ He); [by exists file|done].
Qed.

(** While the file is received, since [s0]. *)
Record stage (i file : Z) (identity : FileIdentity) (l : Locals) (s0 : Session) (tr0 : trace)
    (s : Session) (tr : trace) : Prop := {
  sg_commit : commit_applied l = false;
  sg_identity id : owned_identity l = Some id -> id = identity;
  sg_own : own_upload (files s) file identity i;
  sg_dir : dir_open (files s) pfd;
  sg_sev : sev any s0 tr0 s tr;
}.
Notation own i := (fun j : Z => j = i).

Lemma sev_any X s tr s' tr' : sev X s tr s' tr' -> sev any s tr s' tr'.
Proof. by apply sev_mono. Qed.

Lemma stage_keep i file id l s0 tr0 s tr s' tr' :
  stage i file id l s0 tr0 s tr -> sev (own i) s tr s' tr' -> stage i file id l s0 tr0 s' tr'.
Proof.
  intros [Hc Hi Ho Hdr Hs] He. pose proof (se_ev _ _ _ _ _ _ He) as Hev. split; [done|done| | |].
  - by eapply own_upload_ev.
  - eapply dir_open_ev; [|exact Hev|done]. intros E. by apply (ow_dir _ _ _ _ Ho).
  - by eapply sev_trans; [|eapply sev_any].
Qed.

Lemma stage_wf i file id l s0 tr0 s tr : stage i file id l s0 tr0 s tr -> Wf N (files s).
Proof. intros Hs. apply (sev_wf _ _ _ _ _ _ (sg_sev _ _ _ _ _ _ _ _ Hs)). Qed.

Lemma stage_fail i file id l s0 tr0 s tr e :
  stage i file id l s0 tr0 s tr -> outcome s0 tr0 (l, Err e) s tr.
Proof.
  intros [Hc Hi Ho Hdr Hs]. left. split_and!; [split; [done|]|by exists e|done].
  intros id' ->%Hi. exists file, i. split_and!; apply Ho.
Qed.

Lemma stage_durable i file id l s0 tr0 s tr d :
  stage i file id l s0 tr0 s tr -> stage i file id (set_durable d l) s0 tr0 s tr.
Proof. by intros []. Qed.

Section staged.
Context (i file : Z) (id : FileIdentity) (s0 : Session) (tr0 : trace).
Notation staged := (fun l s tr => stage i file id l s0 tr0 s tr).
Context {B : Type} (Q : Locals * result anyhow B -> Session -> trace -> Prop).
Context (Hfails : forall l e s tr, staged l s tr -> Q (l, Err e) s tr).

(** A part of that time. *)
Lemma stage_part {A} X l s tr (p : io A) (k : A -> push B) :
  evolves N good X F p -> (forall j, X j -> j = i) -> staged l s tr ->
  (forall a s' tr', staged l s' tr' -> sev X s tr s' tr' -> wpx (k a l) Q s' tr') ->
  wpx (push_bind (up p) k l) Q s tr.
Proof.
  intros Hp HX Hs Hk. eapply (push_part X F _ _ _ _ s tr); [exact Hp| | | |].
  - exact (sev_refl _ _ _ _ (stage_wf _ _ _ _ _ _ _ _ Hs)).
  - apply pins_open, Hs.
  - intros e s' tr' He. eapply Hfails, stage_keep; [exact Hs|].
    eapply sev_mono; [exact HX|exact He].
  - intros a s' tr' He _. apply Hk; [|done]. eapply stage_keep; [exact Hs|].
    eapply sev_mono; [exact HX|exact He].
Qed.

Lemma stage_calm {A} l s tr (p : io A) (k : A -> push B) :
  tame N F p (fun _ => True) -> staged l s tr ->
  (forall a s' tr', staged l s' tr' -> sev none s tr s' tr' -> wpx (k a l) Q s' tr') ->
  wpx (push_bind (up p) k l) Q s tr.
Proof. intros Hp. apply stage_part; [by apply calm_evolves|done]. Qed.

Lemma stage_ensure l s tr b (e : anyhow) (k : unit -> push B) :
  staged l s tr -> (b = true -> wpx (k tt l) Q s tr) ->
  wpx (push_bind (up (Ret (ensure b e))) k l) Q s tr.
Proof. intros Hs Hk. apply wp_push_ensure; [done|]. intros _. by apply Hfails. Qed.

(** A write to the file. *)
Definition writes_to {A} (p : io A) : Prop := forall s tr,
  Wf N (files s) -> ino_of (files s) file = Some i -> entry (files s) D tgt <> Some i ->
  wpx p (fun _ s' tr' => sev (own i) s tr s' tr') s tr.

Lemma writes_all bs : writes_to (os (sys (WriteAll file bs))).
Proof.
  intros s tr Hw Hi Ht. apply wp_pmap_err.
  by apply (wp_write N good Hd (own i) file (WriteAll file bs) i); eauto.
Qed.
Lemma writes_len n : writes_to (os (sys (SetLen file n))).
Proof.
  intros s tr Hw Hi Ht. apply wp_pmap_err.
  by apply (wp_write N good Hd (own i) file (SetLen file n) i); eauto.
Qed.
Lemma writes_map_err {A} f (p : io A) : writes_to p -> writes_to (pmap_err f p).
Proof. intros Hp s tr Hw Hi Ht. apply wp_pmap_err. eapply wp_mono; [by apply Hp|]. done. Qed.

Lemma stage_write l s tr (p : io unit) (k : unit -> push B) :
  writes_to p -> staged l s tr ->
  (forall u s' tr', staged l s' tr' -> wpx (k u l) Q s' tr') ->
  wpx (push_bind (up p) k l) Q s tr.
Proof.
  intros Hp Hs Hk. apply wp_push_bind, wp_up. eapply wp_mono.
  { apply Hp; [exact (stage_wf _ _ _ _ _ _ _ _ Hs)|apply Hs|apply Hs]. }
  intros [a|e] s' tr' He; pose proof (stage_keep _ _ _ _ _ _ _ _ _ _ Hs He) as Hs'; simpl;
    [by apply Hk|by apply Hfails].
Qed.

(** A part whose answer says something about the files. *)
Lemma stage_answer {A} (R : A -> World -> Prop) l s tr (p : io A) (k : A -> push B) :
  wpx p (fun r s' tr' => sev none s tr s' tr' /\ forall a, r = Ok a -> R a (files s')) s tr ->
  staged l s tr ->
  (forall a s' tr', staged l s' tr' -> sev none s tr s' tr' -> R a (files s') ->
     wpx (k a l) Q s' tr') ->
  wpx (push_bind (up p) k l) Q s tr.
Proof.
  intros Hp Hs Hk. apply wp_push_bind, wp_up. eapply wp_mono; [exact Hp|].
  intros r s' tr' [He Hr]. assert (staged l s' tr') as Hs'.
  { eapply stage_keep; [exact Hs|]. by eapply sev_mono; [|exact He]. }
  destruct r as [a|e]; cbn [fst snd]; [apply Hk; auto|by apply Hfails].
Qed.

(** A frame: a data frame carries at least a byte. *)
Lemma read_frame_data (bs rest : bytes) d :
  read_frame bs = Ok (Some (FData d), rest) -> 0 < zlen (payload d).
Proof.
  destruct bs as [|b bs]; [done|]. cbn [read_frame]. unfold read_frame_body. intros Hr.
  apply bind_ok in Hr as ([kd len] & st & Hh & Hr). apply read_header_inv in Hh as (Hlen & _ & _).
  destruct (kd =? _); [|destruct (kd =? _); [|done]].
  - apply read_control_body_inv in Hr as (c & body & Hc & _); [done|lia].
  - apply read_data_body_inv in Hr as (d' & [= ->] & _ & Hv & _).
    apply data_validate_ok in Hv as [Hne _]. destruct (payload d') as [|b' bs']; [done|].
    rewrite zlen_cons. pose proof (zlen_nonneg bs'). lia.
Qed.

Lemma stage_read_frame l s tr (k : option Frame -> push B) :
  staged l s tr ->
  (forall f s' tr', staged l s' tr' -> (forall d, f = Some (FData d) -> 0 < zlen (payload d)) ->
     wpx (k f l) Q s' tr') ->
  wpx (push_bind (up read_frame_io) k l) Q s tr.
Proof.
  intros Hs Hk. apply wp_push_bind, wp_up, wp_pbind. intros s1 ch Hr.
  destruct (tame_step N good Hd (own i) F ReadFrame ch s s1 tr) as [Hg He];
    [exact (stage_wf _ _ _ _ _ _ _ _ Hs)|apply pins_open, Hs|done|done|].
  split; [exact Hg|]. pose proof (stage_keep _ _ _ _ _ _ _ _ _ _ Hs He) as Hs'.
  destruct (xexec ReadFrame ch s1) as [r s2] eqn:Hx. cbn [fst snd] in *.
  apply wp_ret. cbn [fst snd]. apply wp_ret. cbn [fst snd]. destruct r as [f|e]; [|by apply Hfails].
  apply Hk; [done|]. intros d ->. revert Hx. simpl. destruct (fault ch) as [[code n]|]; [done|].
  destruct (read_frame (incoming s1)) as [[f rest]|e] eqn:E; [|done].
  intros [= -> _]. by eapply read_frame_data.
Qed.
End staged.

(** ** Receiving *)

Context (u : Upload) (tid : bytes).

Lemma evolves_record X id d d' st :
  evolves N good X F (record_durable u sidecar id d d' st).
Proof. apply (evolves_replace_verified N good Hd), sidecar_only. Qed.

(** A data frame moves the offset on, by at least a byte. *)
Lemma wp_receive_data {B} i file id s0 tr0 (Q : Locals * result anyhow B -> Session -> trace -> Prop)
    data st k l s tr :
  (forall l e s tr, stage i file id l s0 tr0 s tr -> Q (l, Err e) s tr) ->
  stage i file id l s0 tr0 s tr -> 0 < zlen (payload data) ->
  (forall hc l s tr, snd st < snd hc <= rq_size rq -> stage i file id l s0 tr0 s tr ->
     wpx (k hc l) Q s tr) ->
  wpx (push_bind (receive_data g rq u tid sidecar file id data st) k l) Q s tr.
Proof.
  intros HQ Hs Hpos Hk. destruct st as [h c]. unfold receive_data.
  do 3 (apply wp_push_assoc; eapply stage_ensure; [exact HQ|exact Hs|intros _]).
  apply wp_push_assoc, wp_push_pure; [|intros e _; by apply HQ].
  intros next Hn. apply ok_or_ok, checked_add_some in Hn as [-> _].
  apply wp_push_assoc. eapply stage_ensure; [exact HQ|exact Hs|intros Hle].
  apply wp_push_assoc. eapply stage_calm; [exact HQ|auto with calm|exact Hs|]. intros _ s1 tr1 H1s _.
  apply wp_push_assoc. eapply stage_write; [exact HQ|apply writes_all|exact H1s|]. intros _ s2 tr2 H2s.
  apply wp_push_assoc, wp_get.
  assert (forall l s tr, stage i file id l s0 tr0 s tr ->
    wpx (push_bind (push_bind (get durable) (fun d => push_bind
      (up (write_control_io (Ack (c + zlen (payload data)) d (rq_window rq))))
      (fun _ => pret (h ++ payload data, c + zlen (payload data))))) k l) Q s tr) as Hend.
  { intros l' s' tr' Hs'. apply wp_push_assoc, wp_get, wp_push_assoc.
    eapply stage_calm; [exact HQ|apply calm_send; by intros ??|exact Hs'|]. intros _ s'' tr'' Hs'' _.
    apply (Hk (h ++ payload data, c + zlen (payload data))); [|done]. simpl. lia. }
  apply wp_push_assoc. destruct (_ <=? saturating_sub _ _); [|by apply Hend].
  apply wp_push_assoc. eapply stage_calm; [exact HQ|auto with calm|exact H2s|]. intros _ s3 tr3 H3s _.
  apply wp_push_assoc. eapply stage_calm; [exact HQ|by calm_tac|exact H3s|]. intros _ s4 tr4 H4s _.
  apply wp_push_assoc, wp_put. apply (stage_durable _ _ _ _ _ _ _ _ (c + zlen (payload data))) in H4s.
  apply wp_push_assoc. eapply stage_calm; [exact HQ|auto with calm|exact H4s|]. intros _ s5 tr5 H5s _.
  eapply stage_part; [exact HQ|apply (evolves_record none)|done|exact H5s|]. intros _ s6 tr6 H6s _.
  by apply Hend.
Qed.

Lemma wp_receive i file id l st (k : bytes * Z -> push unit) s0 tr0 s tr :
  stage i file id l s0 tr0 s tr -> snd st <= rq_size rq ->
  (forall hc l s tr, stage i file id l s0 tr0 s tr -> wpx (k hc l) (outcome s0 tr0) s tr) ->
  wpx (push_bind (receive g rq u tid sidecar file id st) k l) (outcome s0 tr0) s tr.
Proof.
  intros Hs Hst Hk. apply wp_push_bind. unfold receive, push_loop.
  apply (wp_ploop _ _ _ _ _ (fun x s tr => snd x.1 <= rq_size rq /\ stage i file id x.2 s0 tr0 s tr)
    (fun x => rq_size rq - snd x.1)); [|done|cbn [fst snd]; unfold size_fuel; lia].
  clear s tr l st Hs Hst. intros [st l] s tr [Hst Hs]. cbn [fst snd] in *. split; [lia|].
  apply wp_pbind.
  set (Q := fun (x : Locals * result anyhow ((bytes * Z) + (bytes * Z))) s tr =>
    match x.2 with
    | Ok (inl st') => snd st < snd st' <= rq_size rq /\ stage i file id x.1 s0 tr0 s tr
    | Ok (inr st') => stage i file id x.1 s0 tr0 s tr
    | Err _ => stage i file id x.1 s0 tr0 s tr
    end).
  apply (wp_mono _ _ _ _ Q); cycle 1.
  { intros [l' [[st'|st']|e]] s' tr'; unfold Q; cbn [fst snd];
      intros Hs'; apply wp_ret.
    - destruct Hs' as [Hm Hs']. split; [split; [apply Hm|done]|cbn [fst snd]; lia].
    - by apply Hk.
    - by eapply stage_fail. }
  unfold receive_step. assert (forall l e s tr, stage i file id l s0 tr0 s tr -> Q (l, Err e) s tr) as HQ by done.
  eapply stage_read_frame; [exact HQ|exact Hs|]. intros [[c|d]|] s1 tr1 H1s Hd1; cycle 1.
  - eapply wp_receive_data; [exact HQ|exact H1s|by apply Hd1|]. intros hc l' s' tr' Hc' Hs'. by split.
  - exact H1s.
  - destruct c; exact H1s.
Qed.

(** ** Verifying and linking *)

Lemma stage_opened i file id l s0 tr0 s tr : stage i file id l s0 tr0 s tr -> opened (files s) i.
Proof. intros Hs. exists file. apply Hs. Qed.

Lemma wp_validate file id n i (Q : result anyhow unit -> Session -> trace -> Prop) s tr :
  Wf N (files s) -> ino_of (files s) file = Some i ->
  (forall r s' tr', sev none s tr s' tr' ->
     (r = Ok tt -> holds_file (fun x => i_kind x = KFile) (files s') i) -> Q r s' tr') ->
  wpx (validate_owned_file_identity file id n) Q s tr.
Proof.
  intros Hw Hi HQ. unfold validate_owned_file_identity. apply wp_rpbind, wp_pmap_err.
  apply (wp_identity N good Hd none file i); [done|done|].
  intros [m|e] s1 tr1 He1 Hm; [|by apply HQ]. destruct (Hm m eq_refl) as (x & Hx & ->). cbn [map_err].
  apply wp_ensure; [|intros _; by apply HQ]. intros Hk%bool_decide_eq_true.
  eapply wp_mono; [eapply (wp_tame N good Hd none (fun _ => False) _ (fun _ => True))|].
  - by eapply sev_wf.
  - by intros ? [].
  - calm_tac.
  - intros r s' tr' [_ He]. apply HQ; [by eapply sev_trans|]. intros _.
    eapply (holds_file_sev _ s1 tr1); [|by exists file; apply (ev_ino _ _ _ _ (se_ev _ _ _ _ _ _ He1))|exact He|].
    + intros y z Hyz Hy. by rewrite (keeps_kind _ _ Hyz).
    + by exists x.
Qed.

Definition synced_file (x : Inode) : Prop := i_kind x <> KDir -> i_clean x = true.

Lemma synced_keeps x y : keeps x y -> synced_file x -> synced_file y.
Proof. intros [Hk _ Hc] Hs Hy. apply Hc, Hs. by rewrite <- Hk. Qed.

Lemma wp_verify_on_disk i file id l (k : str -> push unit) s0 tr0 s tr :
  stage i file id l s0 tr0 s tr -> holds_file synced_file (files s) i ->
  (forall l s tr, stage i file id l s0 tr0 s tr -> holds_file good (files s) i ->
     wpx (k (rq_expected_sha256 rq) l) (outcome s0 tr0) s tr) ->
  wpx (push_bind (verify_on_disk g rq file id) k l) (outcome s0 tr0) s tr.
Proof.
  intros Hs Hsync Hk. assert (forall l e s tr, stage i file id l s0 tr0 s tr -> outcome s0 tr0 (l, Err e) s tr)
    as HQ by (intros; by eapply stage_fail).
  unfold verify_on_disk. apply wp_push_assoc.
  apply (stage_answer i file id s0 tr0 _ HQ (fun _ w => holds_file (fun x => i_kind x = KFile) w i) l);
    [|exact Hs|].
  { apply (wp_validate _ _ _ i); [eapply stage_wf; exact Hs|apply Hs|]. intros r s' tr' He Hr.
    split; [exact He|]. by intros [] ->; apply Hr. }
  intros _ s5 tr5 H5s Hk5 Hfile. apply wp_push_assoc.
  apply (stage_answer i file id s0 tr0 _ HQ (fun h w => holds_file (fun x =>
    zlen (i_data x) = rq_size rq /\ h = hex_encode (sha256 (i_data x))) w i) l); [|exact H5s|].
  { apply (wp_hash_exact N good Hd none file (rq_size rq) i);
      [eapply stage_wf; exact H5s|apply H5s|done|].
    intros r s' tr' He Hr. split; [exact He|]. exact Hr. }
  intros h s6 tr6 H6s Hk6 Hhash.
  assert (sev none s tr s6 tr6) as Hk06 by by eapply sev_trans.
  apply (holds_file_sev _ _ _ _ _ _ synced_keeps (stage_opened _ _ _ _ _ _ _ _ Hs) Hk06) in Hsync.
  apply (holds_file_sev _ _ _ _ _ _ (fun x y Hxy Hx => eq_trans (keeps_kind _ _ Hxy) Hx)
    (stage_opened _ _ _ _ _ _ _ _ H5s) Hk6) in Hfile.
  apply wp_push_assoc. eapply stage_ensure; [exact HQ|exact H6s|]. intros Heq%bool_decide_eq_true.
  assert (holds_file good (files s6) i) as Hgood.
  { destruct Hsync as (x & Hx & Hc), Hfile as (x' & Hx' & Hkd), Hhash as (x'' & Hx'' & Hl & Hh).
    rewrite Hx in Hx', Hx''. injection Hx' as <-. injection Hx'' as <-. exists x.
    split; [done|]. split; [apply Hc; congruence|]. split; congruence. }
  apply wp_push_assoc. eapply stage_calm; [exact HQ|auto with calm|exact H6s|]. intros _ s7 tr7 H7s Hk7.
  apply wp_push_assoc. eapply stage_calm; [exact HQ|auto with calm|exact H7s|]. intros _ s8 tr8 H8s Hk8.
  apply wp_push_assoc. eapply stage_calm; [exact HQ|auto with calm|exact H8s|]. intros _ s9 tr9 H9s Hk9.
  rewrite Heq. apply Hk; [exact H9s|].
  eapply (holds_file_sev _ s6 tr6); [apply complete_keeps|eapply stage_opened; exact H6s| |exact Hgood].
  eapply sev_trans; [exact Hk7|]. by eapply sev_trans.
Qed.

Lemma wp_verify i file id l hasher confirmed (k : str -> push unit) s0 tr0 s tr :
  stage i file id l s0 tr0 s tr ->
  (forall l s tr, stage i file id l s0 tr0 s tr -> holds_file good (files s) i ->
     wpx (k (rq_expected_sha256 rq) l) (outcome s0 tr0) s tr) ->
  wpx (push_bind (verify_received g rq u sidecar file id hasher confirmed) k l) (outcome s0 tr0) s tr.
Proof.
  intros Hs Hk. assert (forall l e s tr, stage i file id l s0 tr0 s tr -> outcome s0 tr0 (l, Err e) s tr)
    as HQ by (intros; by eapply stage_fail).
  unfold verify_received. do 2 (apply wp_push_assoc; eapply stage_ensure; [exact HQ|exact Hs|intros _]).
  apply wp_push_assoc. eapply stage_calm; [exact HQ|auto with calm|exact Hs|]. intros _ s1 tr1 H1s _.
  apply wp_push_assoc.
  apply (stage_answer i file id s0 tr0 _ HQ (fun _ w => holds_file synced_file w i) l); [|exact H1s|].
  { apply wp_pmap_err, (wp_sync N good Hd none file i); [eapply stage_wf; exact H1s|apply H1s|].
    intros r s' tr' He Hr. split; [exact He|]. intros [] Hok. destruct r as [[]|]; [|done].
    destruct (Hr eq_refl) as (x & Hx & Hc & _). by exists x. }
  intros _ s2 tr2 H2s _ Hsync. apply wp_push_assoc, wp_get, wp_push_assoc, wp_put.
  apply (stage_durable _ _ _ _ _ _ _ _ (rq_size rq)) in H2s.
  apply wp_push_assoc. eapply stage_calm; [exact HQ|auto with calm|exact H2s|]. intros _ s3 tr3 H3s Hk3.
  apply wp_push_assoc. eapply stage_part; [exact HQ|apply (evolves_record none)|done|exact H3s|].
  intros _ s4 tr4 H4s Hk4. apply (wp_verify_on_disk i); [exact H4s| |exact Hk].
  eapply (holds_file_sev _ s2 tr2); [exact synced_keeps|eapply stage_opened; exact H2s| |exact Hsync].
  by eapply sev_trans.
Qed.

(** Programs that only fail or answer with [Q]. *)
Lemma tame_rest {A B} F' (p : io A) (k : A -> io B) (Q : B -> Prop) :
  tame N F' p (fun _ => True) ->
  (forall a, tame N F' (k a) (fun r => forall b, r = Ok b -> Q b)) ->
  tame N F' (rpbind p k) (fun r => forall b, r = Ok b -> Q b).
Proof.
  intros Hp Hk. apply tame_rpbind. eapply tame_mono; [exact Hp|]. intros [a|e] _; [apply Hk|done].
Qed.

(** What [prepare_commit] answers: the same file, the target's name, and the
    directory. *)
Definition prepared_for (file : Z) (c : PreparedNoReplaceCommit) : Prop :=
  pc_source_fd c = file /\ pc_target_name c = tgt.

Lemma wp_prepare file id n (Q : result anyhow PreparedNoReplaceCommit -> Session -> trace -> Prop) s tr :
  Wf N (files s) -> dir_open (files s) pfd ->
  (forall r s' tr', sev none s tr s' tr' ->
     (forall c, r = Ok c -> prepared_for file c /\ dir_open (files s') (pc_parent c)) -> Q r s' tr') ->
  wpx (prepare_commit file target id n) Q s tr.
Proof.
  intros Hw Hdir HQ. unfold prepare_commit. apply wp_pure; [|done]. intros [fd tn] [= <- <-].
  apply wp_ensure; [intros _|intros _; apply HQ; [by apply sev_refl|done]].
  apply wp_rpbind. do 2 apply wp_pmap_err.
  apply (wp_open_fd N good Hd none pfd D); [done|apply Hdir|].
  intros [f|e] s1 tr1 He1 Hf; [|by apply HQ]. specialize (Hf f eq_refl). cbn [map_err].
  apply wp_rpbind, wp_pmap_err. apply (wp_identity N good Hd none f D); [by eapply sev_wf|done|].
  intros [m|e] s2 tr2 He2 Hm; [|apply HQ; [by eapply sev_trans|done]].
  destruct (Hm m eq_refl) as (x & Hx & ->). cbn [map_err]. clear Hm.
  assert (sev none s tr s2 tr2) as He by by eapply sev_trans.
  apply wp_ensure; [|intros _; by apply HQ]. intros Hk%bool_decide_eq_true.
  assert (dir_open (files s2) f) as Hdir2.
  { split; [by apply (ev_ino _ _ _ _ (se_ev _ _ _ _ _ _ He2))|by exists x]. }
  eapply wp_mono; [eapply (wp_tame N good Hd none (fun _ => False) _
    (fun r => forall c, r = Ok c -> prepared_for file c /\ pc_parent c = f))|].
  - by eapply sev_wf.
  - by intros ? [].
  - apply tame_pbind. split; [done|]. intros uid. apply tame_rest; [calm_tac|intros _].
    apply tame_rest; [auto with calm|intros _]. apply tame_rest; [calm_tac|intros probe].
    apply tame_rest; [by calm_tac|intros probed]. apply tame_rest; [calm_tac|intros _].
    by intros c [= <-].
  - intros r s' tr' [Hr He']. apply HQ; [by eapply sev_trans|]. intros c ->.
    destruct (Hr c eq_refl) as [Hc ->]. split; [done|]. kept.
Qed.

(** Errors of none of the helper's types. *)
Definition untyped {A} (r : result anyhow A) : Prop := forall e, r = Err e -> e_types e = [].

Lemma untyped_rpbind {A B} F' (p : io A) (k : A -> io B) :
  tame N F' p untyped -> (forall a, tame N F' (k a) untyped) -> tame N F' (rpbind p k) untyped.
Proof.
  intros Hp Hk. apply tame_rpbind. eapply tame_mono; [exact Hp|]. intros [a|e]; [intros _; apply Hk|].
  intros He e' [= <-]. by apply He.
Qed.
Lemma untyped_os {A} F' (p : xprog (result errno A)) :
  tame N F' p (fun _ => True) -> tame N F' (os p) untyped.
Proof.
  intros Hp. apply tame_pbind. eapply tame_mono; [exact Hp|]. intros [a|e] _; by intros ? [= <-].
Qed.
Lemma untyped_within {A} F' t (p : io A) : tame N F' p untyped -> tame N F' (within t p) untyped.
Proof.
  intros Hp. apply tame_pbind. eapply tame_mono; [exact Hp|]. intros [a|e] He; [done|].
  intros ? [= <-]. by apply (He e).
Qed.
Lemma untyped_ensure F' b t : tame N F' (Ret (ensure b (msg t))) untyped.
Proof. simpl. destruct b; [done|]. by intros ? [= <-]. Qed.

Lemma tame_euid {A} F' (k : Z -> xprog A) (Q : A -> Prop) :
  (forall uid, tame N F' (k uid) Q) -> tame N F' (pbind (sys Geteuid) k) Q.
Proof. intros Hk. apply tame_pbind. by split. Qed.

Ltac untyped_tac := repeat match goal with
  | |- tame _ _ (rpbind _ _) _ => apply untyped_rpbind; [|intros ?]
  | |- tame _ _ (within _ _) _ => apply untyped_within
  | |- tame _ _ (os _) _ => apply untyped_os
  | |- tame _ _ (Ret (ensure _ _)) _ => apply untyped_ensure
  | |- tame _ _ (pbind (sys Geteuid) _) _ => apply tame_euid; intros ?
  | |- tame _ _ (sys _) _ => by split
  | |- tame _ _ (ok _) _ => by intros ? [=]
  end.

Lemma untyped_validate F' file id n : tame N F' (validate_owned_file_identity file id n) untyped.
Proof. unfold validate_owned_file_identity. untyped_tac. Qed.
Lemma untyped_open_committed F' c : tame N F' (open_committed_target c) untyped.
Proof. pose proof untyped_validate. unfold open_committed_target. untyped_tac. apply H5. Qed.

(** After a successful link: the entry is synced, or the answer is an error. *)
Lemma wp_confirm_link c i (Q : result anyhow unit -> Session -> trace -> Prop) s tr :
  Wf N (files s) -> dir_open (files s) (pc_parent c) -> entry (files s) D tgt = Some i ->
  (forall r s' tr', sev none s tr s' tr' -> untyped r -> (r = Ok tt -> durable_target N (files s') i) ->
     Q r s' tr') ->
  wpx (confirm_link c) Q s tr.
Proof.
  intros Hw Hdir Ht HQ. unfold confirm_link. apply wp_rpbind.
  eapply wp_mono; [apply (wp_tame N good Hd none (fun _ => False) _ untyped);
    [done|by intros ? []|apply untyped_open_committed]|].
  intros [f1|e] s1 tr1 [Hu1 He1]; [|apply HQ; [done| |done]; intros ? [= <-]; by apply Hu1].
  apply wp_rpbind. do 2 apply wp_pmap_err.
  assert (dir_open (files s1) (pc_parent c)) as [Hp1 (x & Hx & Hk)] by kept.
  apply (wp_sync N good Hd none (pc_parent c) D); [by eapply sev_wf|done|].
  intros [[]|e] s2 tr2 He2 Hr; [|apply HQ; [by eapply sev_trans|by intros ? [= <-]|done]].
  cbn [map_err]. destruct (Hr eq_refl) as (x2 & Hx2 & _ & Hdur). clear Hr.
  assert (sev none s tr s2 tr2) as He02 by by eapply sev_trans.
  assert (durable_target N (files s2) i) as Hd2.
  { pose proof (se_ev _ _ _ _ _ _ He2) as Hev2.
    destruct (ev_keep _ _ _ _ Hev2 D x Hx) as (x3 & Hx3 & Hk3);
      [left; by exists (pc_parent c)|intros HF'; exact HF'|].
    apply Hdur; [|done|by apply (ev_target _ _ _ _ (se_ev _ _ _ _ _ _ He02))].
    rewrite Hx3 in Hx2. injection Hx2 as <-. by rewrite (keeps_kind _ _ Hk3). }
  eapply wp_mono; [eapply (wp_tame N good Hd none (fun _ => False) _ untyped)|].
  - by eapply sev_wf.
  - by intros ? [].
  - pose proof untyped_open_committed. untyped_tac. apply H5.
  - intros r s' tr' [Hu He']. apply HQ; [by eapply sev_trans|done|]. intros _.
    by apply (ev_durable _ _ _ _ (se_ev _ _ _ _ _ _ He')).
Qed.

(** ** After the link *)

(** The target was linked by this run and its entry synced. *)
Record applied (i : Z) (l : Locals) (s0 : Session) (s : Session) : Prop := {
  ap_commit : commit_applied l = true;
  ap_moved : moved s0 s;
  ap_dir : dir_open (files s) pfd;
  ap_durable : durable_target N (files s) i;
  ap_target : holds_target good (files s) i;
}.

Lemma applied_keep i l s0 s tr s' tr' : applied i l s0 s -> sev none s tr s' tr' -> applied i l s0 s'.
Proof.
  intros [Hc Hm Hdir Hdur Ht] He. pose proof (se_ev _ _ _ _ _ _ He) as Hev. split; [done| | | |].
  - by eapply moved_sev.
  - kept.
  - by apply (ev_durable _ _ _ _ Hev).
  - eapply holds_target_ev; [apply complete_keeps| |exact Hev|done]. intros HF; exact HF.
Qed.

Lemma applied_part {A} i l s0 tr0 s tr (p : io A) (k : A -> push unit) :
  evolves N good none F p -> applied i l s0 s ->
  (forall a s' tr', applied i l s0 s' -> wpx (k a l) (outcome s0 tr0) s' tr') ->
  wpx (push_bind (up p) k l) (outcome s0 tr0) s tr.
Proof.
  intros Hp Ha Hk. pose proof (ap_moved _ _ _ _ Ha) as Hm.
  eapply (push_part none F _ _ _ _ s tr); [exact Hp| | | |].
  - apply sev_refl, Hm.
  - apply pins_open, Ha.
  - intros e s' tr' He. pose proof (applied_keep _ _ _ _ _ _ _ Ha He) as Ha'.
    apply fail_committed; apply Ha'.
  - intros a s' tr' He _. by eapply Hk, applied_keep.
Qed.

Lemma applied_calm {A} i l s0 tr0 s tr (p : io A) (k : A -> push unit) :
  tame N F p (fun _ => True) -> applied i l s0 s ->
  (forall a s' tr', applied i l s0 s' -> wpx (k a l) (outcome s0 tr0) s' tr') ->
  wpx (push_bind (up p) k l) (outcome s0 tr0) s tr.
Proof. intros Hp. apply applied_part. by apply calm_evolves. Qed.

(** The link itself, with what [commit] answers. *)
Lemma wp_commit i file id l c (k : unit -> push unit) s0 tr0 s tr :
  stage i file id l s0 tr0 s tr -> holds_file good (files s) i ->
  prepared_for file c -> dir_open (files s) (pc_parent c) ->
  (forall s tr, applied i (set_commit_applied l) s0 s -> wpx (k tt l) (outcome s0 tr0) s tr) ->
  wpx (push_bind (up (pmap_err (fun error => if is_a CommitNotApplied error then error
                                  else CommitOutcomeUnknown_new error) (commit c))) k l)
    (outcome s0 tr0) s tr.
Proof.
  intros Hs Hgood [Hsrc Hname] Hpc Hk. apply wp_push_bind, wp_up, wp_pmap_err. unfold commit.
  rewrite Hsrc, Hname. apply wp_pbind.
  apply (wp_link file (pc_parent c) i); [eapply stage_wf; exact Hs|apply Hs|exact Hpc|exact Hgood| |].
  { intros e s1 tr1 He. apply wp_ret. cbn. eapply stage_fail, stage_keep; [exact Hs|].
    eapply sev_mono; [|exact He]. by intros j []. }
  intros s1 ch Hl _. assert (moved s0 s1) as Hm.
  { eapply moved_linked; [|exact Hl]. exact (sev_moved _ _ _ _ _ (sg_sev _ _ _ _ _ _ _ _ Hs)). }
  apply (wp_confirm_link c i); [apply Hl|apply (ln_dir _ _ _ Hl), Hpc|apply (ln_target _ _ _ Hl)|].
  intros [[]|e] s2 tr2 He2 Hu Hdur.
  - apply Hk. pose proof (se_ev _ _ _ _ _ _ He2) as Hev. split; [done|by eapply moved_sev| | |].
    + assert (dir_open (files s1) pfd) as Hd1 by (apply (ln_dir _ _ _ Hl), Hs). kept.
    + by apply Hdur.
    + eapply holds_target_ev; [apply complete_keeps| |exact Hev|apply Hl]. intros HF; exact HF.
  - cbn [map_err fst snd]. assert (is_a CommitNotApplied e = false) as ->.
    { unfold is_a. by rewrite (Hu e eq_refl). }
    right. left. split_and!; [apply Hs|by eexists|by eapply moved_sev].
Qed.

(** The end of a normal upload. *)
Definition push_end : push unit :=
  run& up (ensure_still_bound g) ;;
  run& up (ensure_original_parent_bound g) ;;
  up (write_control_io (Completed (rq_size rq) (rq_expected_sha256 rq))).

Lemma wp_push_end i l s0 tr0 s tr :
  applied i l s0 s -> wpx (push_end l) (outcome s0 tr0) s tr.
Proof.
  intros [Hc Hm Hdir Hdur [Ht (x & Hx & Hg)]].
  eapply wp_finish; [done|done|apply Hm|done|exact Hdur| |right].
  - split; [done|]. exists x. split; [done|apply Hg].
  - split; [done|by exists x].
Qed.

Lemma wp_commit_upload i file id l s0 tr0 s tr :
  stage i file id l s0 tr0 s tr -> holds_file good (files s) i ->
  wpx (push_bind (commit_upload g rq u target partial sidecar file id) (fun _ => push_end) l)
    (outcome s0 tr0) s tr.
Proof.
  intros Hs Hgood. assert (forall l e s tr, stage i file id l s0 tr0 s tr -> outcome s0 tr0 (l, Err e) s tr)
    as HQ by (intros; by eapply stage_fail).
  unfold commit_upload. apply wp_push_assoc.
  apply (stage_answer i file id s0 tr0 _ HQ
    (fun c w => prepared_for file c /\ dir_open w (pc_parent c)) l); [|exact Hs|].
  { apply wp_prepare; [eapply stage_wf; exact Hs|apply Hs|]. intros r s' tr' He Hr. split; [exact He|exact Hr]. }
  intros c s1 tr1 H1s Hk1 [Hpc Hdc].
  assert (holds_file good (files s1) i) as Hg1.
  { eapply (holds_file_sev _ s tr); [apply complete_keeps|eapply stage_opened; exact Hs|exact Hk1|done]. }
  apply wp_push_assoc. apply (wp_commit i file id l c); [exact H1s|exact Hg1|exact Hpc|exact Hdc|].
  clear s tr Hs Hgood s1 tr1 H1s Hk1 Hdc Hg1. intros s tr Ha. apply wp_push_assoc, wp_put.
  apply wp_push_assoc. eapply applied_calm; [auto with calm|exact Ha|]. intros _ s1 tr1 Ha1.
  apply wp_push_assoc. eapply applied_calm; [auto with calm|exact Ha1|]. intros _ s2 tr2 Ha2.
  apply wp_push_assoc, wp_get, wp_push_assoc.
  match goal with |- wpx (push_bind _ ?rest _) _ _ _ => set (k := rest) end.
  assert (forall s tr, applied i (set_commit_applied l) s0 s ->
    wpx (k tt (set_commit_applied l)) (outcome s0 tr0) s tr) as Hrest.
  { clear s tr Ha s1 tr1 Ha1 s2 tr2 Ha2. intros s tr Ha. subst k. cbn beta.
    apply wp_push_assoc. eapply applied_calm; [auto with calm|exact Ha|]. intros _ s1 tr1 Ha1.
    apply wp_push_assoc. eapply applied_calm; [apply calm_map_err; auto with calm|exact Ha1|].
    intros _ s2 tr2 Ha2. apply wp_push_assoc.
    destruct (negb _); [apply wp_push_assoc|].
    - eapply applied_calm; [auto with calm|exact Ha2|]. intros _ s3 tr3 Ha3.
      eapply applied_calm; [apply calm_map_err; auto with calm|exact Ha3|]. intros _ s4 tr4 Ha4.
      apply wp_put, (wp_push_end i). by destruct Ha4.
    - apply wp_put, (wp_push_end i). by destruct Ha2. }
  destruct (rq_resume rq); [|by apply Hrest]. apply wp_push_assoc.
  eapply applied_calm; [auto with calm|exact Ha2|]. intros _ s3 tr3 Ha3.
  eapply applied_part; [apply (evolves_map_err N good Hd), evolves_record|exact Ha3|].
  intros [] s4 tr4 Ha4. by apply Hrest.
Qed.

(** ** The partial: a new one, or that of an earlier request *)

(** Before a file is owned. *)
Record ready (l : Locals) (s0 : Session) (tr0 : trace) (s : Session) (tr : trace) : Prop := {
  rd_commit : commit_applied l = false;
  rd_identity : owned_identity l = None;
  rd_durable : durable l = 0;
  rd_dir : dir_open (files s) pfd;
  rd_sev : sev none s0 tr0 s tr;
}.

Lemma ready_wf l s0 tr0 s tr : ready l s0 tr0 s tr -> Wf N (files s).
Proof. intros Hr. exact (sev_wf _ _ _ _ _ _ (rd_sev _ _ _ _ _ Hr)). Qed.

Lemma ready_keep l s0 tr0 s tr s' tr' :
  ready l s0 tr0 s tr -> sev none s tr s' tr' -> ready l s0 tr0 s' tr'.
Proof. intros [Hc Hi Hz Hdir Hs] He. split; [done|done|done|kept|by eapply sev_trans]. Qed.

Lemma ready_fail l s0 tr0 s tr e : ready l s0 tr0 s tr -> outcome s0 tr0 (l, Err e) s tr.
Proof. intros [Hc Hi _ _ Hs]. by eapply fail_plain. Qed.

Lemma ready_calm {A} l s0 tr0 s tr (p : io A) (k : A -> push unit) :
  tame N F p (fun _ => True) -> ready l s0 tr0 s tr ->
  (forall a s' tr', ready l s0 tr0 s' tr' -> sev none s tr s' tr' ->
     wpx (k a l) (outcome s0 tr0) s' tr') ->
  wpx (push_bind (up p) k l) (outcome s0 tr0) s tr.
Proof.
  intros Hp Hs Hk. eapply (push_calm none F _ _ _ _ s tr); [exact Hp| | | |].
  - exact (sev_refl _ _ _ _ (ready_wf _ _ _ _ _ Hs)).
  - apply pins_open, Hs.
  - intros e s' tr' He. by eapply ready_fail, ready_keep.
  - intros a s' tr' He _. apply Hk; [by eapply ready_keep|done].
Qed.

Lemma ready_ensure l s0 tr0 s tr b e (k : unit -> push unit) :
  ready l s0 tr0 s tr -> (b = true -> wpx (k tt l) (outcome s0 tr0) s tr) ->
  wpx (push_bind (up (Ret (ensure b e))) k l) (outcome s0 tr0) s tr.
Proof. intros Hs Hk. apply wp_push_ensure; [done|]. intros _. by apply ready_fail. Qed.

(** The file and what is recorded of it. *)
Lemma ready_stage l l' s0 tr0 s tr s' tr' file id i :
  ready l s0 tr0 s tr -> sev none s tr s' tr' -> commit_applied l' = false ->
  owned_identity l' = None -> own_upload (files s') file id i -> stage i file id l' s0 tr0 s' tr'.
Proof.
  intros Hr He Hc Hi Ho. split; [done|by rewrite Hi|done| |].
  - apply (rd_dir _ _ _ _ _ (ready_keep _ _ _ _ _ _ _ Hr He)).
  - by eapply sev_any, ready_keep.
Qed.

Lemma stage_identity i file id id' l s0 tr0 s tr :
  stage i file id l s0 tr0 s tr -> owned_identity l = None -> fi_inode id' = i ->
  stage i file id' l s0 tr0 s tr.
Proof. intros [Hc _ [Hf _ Ht Hn] Hdir Hs] Ho Hi. split; [done|by rewrite Ho|by split|done|done]. Qed.

Lemma stage_metadata i file id l s0 tr0 s tr (k : Metadata -> push unit) :
  stage i file id l s0 tr0 s tr -> owned_identity l = None ->
  (forall m s' tr', stage i file (file_identity m) l s0 tr0 s' tr' ->
     wpx (k m l) (outcome s0 tr0) s' tr') ->
  wpx (push_bind (up (os (sys (MetadataOf file)))) k l) (outcome s0 tr0) s tr.
Proof.
  intros Hs Ho Hk. assert (forall l e s tr, stage i file id l s0 tr0 s tr -> outcome s0 tr0 (l, Err e) s tr)
    as HQ by (intros; by eapply stage_fail).
  apply (stage_answer i file id s0 tr0 _ HQ (fun m w => m_ino m = i) l); [|exact Hs|].
  { apply wp_pmap_err, (wp_identity N good Hd none file i); [eapply stage_wf; exact Hs|apply Hs|].
    intros r s' tr' He Hm. split; [exact He|]. intros m Hr. destruct r as [m'|]; [|done].
    injection Hr as <-. by destruct (Hm m' eq_refl) as (x & _ & ->). }
  intros m s' tr' Hs' _ Hm. apply Hk. by eapply stage_identity.
Qed.

Definition continues (k : Z * FileIdentity * bytes -> push unit) s0 tr0 : Prop :=
  forall i file id h l s tr, stage i file id l s0 tr0 s tr -> durable l <= rq_size rq ->
    wpx (k (file, id, h) l) (outcome s0 tr0) s tr.

Lemma wp_start l (k : Z * FileIdentity * bytes -> push unit) s0 tr0 s tr :
  ready l s0 tr0 s tr -> continues k s0 tr0 ->
  wpx (push_bind (start_upload g u partial sidecar) k l) (outcome s0 tr0) s tr.
Proof.
  intros Hs Hk. unfold start_upload.
  apply wp_push_assoc. eapply ready_calm; [auto with calm|exact Hs|]. intros _ s1 tr1 H1s _.
  apply wp_push_assoc, wp_push_bind, wp_up. do 2 apply wp_pmap_err.
  apply (wp_create N good Hd none F); [by eapply ready_wf|apply pins_open, H1s|auto with calm|].
  intros [fd|e] s2 tr2 He2 Hnew; [|by eapply ready_fail, ready_keep]. cbn [map_err fst snd].
  destruct (Hnew fd eq_refl) as (i & Hi & Hnext & Ht). clear Hnew.
  assert (i <> D) as HiD.
  { destruct (rd_dir _ _ _ _ _ H1s) as [_ (x & Hx & _)]. intros ->.
    pose proof (bounded_inodes _ (wf_bounded _ _ (ready_wf _ _ _ _ _ H1s)) _ _ Hx). lia. }
  apply wp_push_assoc, wp_put.
  assert (stage i fd {| fi_device := 0; fi_inode := i |} (set_owned true l) s0 tr0 s2 tr2) as H2s.
  { eapply ready_stage; [exact H1s|exact He2|apply Hs|apply Hs|by split]. }
  apply wp_push_assoc. eapply stage_metadata; [exact H2s|apply Hs|]. clear H2s He2. intros m s3 tr3 H3s.
  set (id := file_identity m) in *. set (l' := set_owned true l) in *.
  assert (durable l' <= rq_size rq) as Hdur by (simpl; rewrite (rd_durable _ _ _ _ _ Hs); lia).
  assert (forall l e s tr, stage i fd id l s0 tr0 s tr -> outcome s0 tr0 (l, Err e) s tr)
    as HQ by (intros; by eapply stage_fail).
  apply wp_push_assoc. eapply stage_calm; [exact HQ|auto with calm|exact H3s|]. intros _ s4 tr4 H4s _.
  apply wp_push_assoc. eapply stage_part; [exact HQ| | |exact H4s|].
  { apply (evolves_pbind N good none); [apply (evolves_create_sidecar N good Hd); auto with calm|].
    intros r. by apply calm_evolves. }
  { done. }
  intros [[]|e] s5 tr5 H5s _; [by eapply Hk|].
  apply wp_push_assoc. eapply stage_calm; [exact HQ|by calm_tac|exact H5s|]. intros cleanup s6 tr6 H6s _.
  apply wp_push_pure; [|intros e' _; by apply HQ]. intros a Ha.
  destruct (reconcile_initial_sidecar_failure _ _ _); [|done]. injection Ha as <-. by eapply Hk.
Qed.

Context (Hu : up_size u = rq_size rq).

Lemma wp_continue l (k : Z * FileIdentity * bytes -> push unit) s0 tr0 s tr :
  ready l s0 tr0 s tr -> apart N (files s) -> continues k s0 tr0 ->
  wpx (push_bind (continue_upload g rq u partial sidecar) k l) (outcome s0 tr0) s tr.
Proof.
  intros Hs Hap Hk. unfold continue_upload.
  apply wp_push_assoc. eapply ready_calm; [auto with calm|exact Hs|]. intros state s1 tr1 H1s Hk1.
  apply wp_push_assoc, wp_push_bind, wp_up. unfold open_owned_partial.
  apply wp_open_private; [by eapply ready_wf|apply H1s|].
  intros [file|e] s2 tr2 He2 Hf; [|by eapply ready_fail, ready_keep]. cbn [fst snd].
  destruct (Hf file eq_refl) as (sm & trm & i & Hem & Hem2 & Him & Hpm & (x & Hx & Hkd)). clear Hf.
  assert (own_upload (files s2) file {| fi_device := 0; fi_inode := i |} i) as Hown.
  { eapply own_upload_ev; [apply (se_ev _ _ _ _ _ _ Hem2)|]. split; [done|done| |].
    - apply (ev_apart _ _ _ _ (se_ev _ _ _ _ _ _ Hem)); [|done].
      by apply (ev_apart _ _ _ _ (se_ev _ _ _ _ _ _ Hk1)).
    - intros ->. destruct (rd_dir _ _ _ _ _ (ready_keep _ _ _ _ _ _ _ H1s He2)) as [_ (y & Hy & Hyd)].
      congruence. }
  assert (stage i file {| fi_device := 0; fi_inode := i |} l s0 tr0 s2 tr2) as H2s.
  { eapply ready_stage; [exact H1s|exact He2|apply Hs|apply Hs|exact Hown]. }
  apply wp_push_assoc. eapply stage_metadata; [exact H2s|apply Hs|]. clear H2s Hown. intros m s3 tr3 H3s.
  set (id := file_identity m) in *.
  assert (forall l e s tr, stage i file id l s0 tr0 s tr -> outcome s0 tr0 (l, Err e) s tr)
    as HQ by (intros; by eapply stage_fail).
  apply wp_push_assoc, wp_push_pure; [intros _ _|intros e _; by apply HQ].
  apply wp_push_assoc. eapply stage_ensure; [exact HQ|exact H3s|intros _].
  apply wp_push_assoc, wp_put. apply (stage_durable _ _ _ _ _ _ _ _ (sc_durable_offset state)) in H3s.
  apply wp_push_assoc. eapply stage_ensure; [exact HQ|exact H3s|]. intros Hle%andb_true_iff.
  assert (durable (set_durable (sc_durable_offset state) l) <= rq_size rq) as Hdur by (simpl; lia).
  set (l' := set_durable (sc_durable_offset state) l) in *. apply wp_push_assoc.
  match goal with |- wpx (push_bind _ ?rest _) _ _ _ => set (r := rest) end.
  assert (forall s tr, stage i file id l' s0 tr0 s tr -> wpx (r tt l') (outcome s0 tr0) s tr) as Hrest.
  { clear s tr Hs Hap s1 tr1 H1s Hk1 s2 tr2 He2 sm trm Hem Hem2 Him Hpm Hx s3 tr3 H3s.
    intros s tr Hs. subst r. cbn beta.
    apply wp_push_assoc. eapply stage_calm; [exact HQ|by calm_tac|exact Hs|]. intros _ s1 tr1 H1s _.
    apply wp_push_assoc. eapply stage_calm; [exact HQ|auto with calm|exact H1s|]. intros h s2 tr2 H2s _.
    apply wp_push_assoc. eapply stage_calm; [exact HQ|by calm_tac|exact H2s|]. intros _ s3 tr3 H3s _.
    by eapply Hk. }
  destruct (negb _); [|by apply Hrest].
  apply wp_push_assoc. eapply stage_calm; [exact HQ|auto with calm|exact H3s|]. intros _ s4 tr4 H4s _.
  apply wp_push_assoc. eapply stage_write; [exact HQ|apply writes_map_err, writes_len|exact H4s|].
  intros _ s5 tr5 H5s.
  eapply stage_calm; [exact HQ|by calm_tac|exact H5s|]. intros [] s6 tr6 H6s _. by apply Hrest.
Qed.

(** ** The state machine *)

Lemma stage_owned i file id l s0 tr0 s tr :
  stage i file id l s0 tr0 s tr -> stage i file id (set_owned_identity id (set_owned true l)) s0 tr0 s tr.
Proof. intros []. split; [done| |done..]. by intros id' [= <-]. Qed.

(** From the recorded file to the end. *)
Lemma wp_upload s0 tr0 :
  continues (fun '(file, identity, hasher) =>
    run& put (set_owned true) ;;
    run& put (set_owned_identity identity) ;;
    let& d := get durable in
    run& up (write_control_io (Ready (rq_chunk rq) (rq_window rq) d)) ;;
    let& (hasher, confirmed) := receive g rq u tid sidecar file identity (hasher, d) in
    let& actual_sha256 := verify_received g rq u sidecar file identity hasher confirmed in
    run& commit_upload g rq u target partial sidecar file identity ;;
    run& up (ensure_still_bound g) ;;
    run& up (ensure_original_parent_bound g) ;;
    up (write_control_io (Completed (rq_size rq) actual_sha256))) s0 tr0.
Proof.
  intros i file id h l s tr Hs Hdur. apply wp_put, wp_put, wp_get. apply stage_owned in Hs.
  assert (forall l e s tr, stage i file id l s0 tr0 s tr -> outcome s0 tr0 (l, Err e) s tr)
    as HQ by (intros; by eapply stage_fail).
  eapply stage_calm; [exact HQ|apply calm_send; by intros ??|exact Hs|]. intros _ s1 tr1 H1s _.
  apply (wp_receive i); [exact H1s|exact Hdur|]. intros [h' confirmed] l2 s2 tr2 H2s.
  apply (wp_verify i); [exact H2s|]. intros l3 s3 tr3 H3s Hg.
  by apply (wp_commit_upload i).
Qed.

Lemma absent_apart w : entry w D tgt = None -> apart N w.
Proof. intros Ht i _. by rewrite Ht. Qed.

Lemma wp_push_block s0 tr0 :
  Wf N (files s0) -> dir_open (files s0) pfd ->
  wpx (push_block g rq u tid target partial sidecar init_locals) (outcome s0 tr0) s0 tr0.
Proof.
  intros Hw Hdir. assert (ready init_locals s0 tr0 s0 tr0) as Hs by (split; [done..|by apply sev_refl]).
  unfold push_block. apply wp_push_bind, wp_up.
  apply (wp_target_exists N good Hd none); [done|apply Hdir|].
  intros [[]|e] s1 tr1 He1 Hno; cbn [fst snd]; [|specialize (Hno eq_refl)|by eapply ready_fail, ready_keep].
  { apply (wp_recover u s0 tr0); [exact He1|kept]. }
  pose proof (ready_keep _ _ _ _ _ _ _ Hs He1) as H1s. apply absent_apart in Hno.
  assert (forall (b : bool) s tr, ready init_locals s0 tr0 s tr -> apart N (files s) ->
    wpx (push_bind (if b then continue_upload g rq u partial sidecar else start_upload g u partial sidecar)
      (fun '(file, identity, hasher) =>
         run& put (set_owned true) ;;
         run& put (set_owned_identity identity) ;;
         let& d := get durable in
         run& up (write_control_io (Ready (rq_chunk rq) (rq_window rq) d)) ;;
         let& (hasher, confirmed) := receive g rq u tid sidecar file identity (hasher, d) in
         let& actual_sha256 := verify_received g rq u sidecar file identity hasher confirmed in
         run& commit_upload g rq u target partial sidecar file identity ;;
         run& up (ensure_still_bound g) ;;
         run& up (ensure_original_parent_bound g) ;;
         up (write_control_io (Completed (rq_size rq) actual_sha256))) init_locals) (outcome s0 tr0) s tr)
    as Hrest.
  { intros b s tr Hr Ha. destruct b; [apply wp_continue|apply wp_start]; try done; apply wp_upload. }
  destruct (rq_resume rq).
  - eapply ready_calm; [auto with calm|exact H1s|]. intros b s2 tr2 H2s Hk2. apply Hrest; [done|].
    by apply (ev_apart _ _ _ _ (se_ev _ _ _ _ _ _ Hk2)).
  - by apply (Hrest false).
Qed.

(** ** After the state machine *)

(** Only the file that is owned is cut, never the target. *)
Lemma wp_truncate id d s tr :
  Wf N (files s) -> own_file (files s) id -> pins N F (files s) ->
  wpx (truncate_to_durable partial id d) (fun _ s' tr' => sev any s tr s' tr') s tr.
Proof.
  intros Hw Hown HF. unfold truncate_to_durable.
  eapply (calm_first N good Hd any F); [auto with calm|by apply sev_refl|exact HF|].
  intros [f|e] s1 tr1 He1 _; [|done]. apply wp_pbind.
  apply (wp_metadata N good Hd any); [by eapply sev_wf|]. intros r s2 tr2 He2 Hm.
  assert (sev any s tr s2 tr2) as He02 by by eapply sev_trans.
  destruct r as [m|e]; cbn [map_err]; [|by apply wp_ret].
  destruct (Hm m eq_refl) as (i & x & Hi & Hx & ->). clear Hm.
  destruct (bool_decide _) eqn:Hid; [|by apply wp_ret]. apply bool_decide_eq_true in Hid.
  pose proof (own_file_ev any _ _ id (se_ev _ _ _ _ _ _ He02) Hown) as (f0 & i0 & _ & Hi0 & Ht).
  assert (i0 = i) as -> by (rewrite <- Hi0, <- Hid; done).
  apply wp_pbind. apply (wp_write N good Hd any f (SetLen f d) i); [by eauto|by eapply sev_wf|done|done|done|].
  intros r s3 tr3 He3. assert (sev any s tr s3 tr3) as He03 by by eapply sev_trans.
  destruct (map_err strerror r); [|by apply wp_ret].
  eapply (calm_first N good Hd any F); [by calm_tac|exact He03|exact HF|].
  intros r' s4 tr4 He4 _. destruct (map_err strerror r'); by apply wp_ret.
Qed.

(** Cleaning up changes the target in no case. *)
Lemma wp_cleanup id d resume committed s tr :
  Wf N (files s) -> (committed || negb resume = false -> own_file (files s) id) -> pins N F (files s) ->
  wpx (run? ensure_still_bound g ;;
       cleanup_failed_upload partial sidecar u id d resume committed)
    (fun _ s' tr' => sev any s tr s' tr') s tr.
Proof.
  intros Hw Hown HF.
  eapply (calm_first_ok N good Hd any F); [auto with calm|by apply sev_refl|exact HF|done|].
  intros _ s1 tr1 He1 _. unfold cleanup_failed_upload.
  destruct (committed || negb resume) eqn:Hc.
  - apply (calm_rest N good Hd any F); [|done|done]. calm_tac; auto with calm.
  - apply wp_pbind. eapply wp_mono.
    { apply wp_truncate; [by eapply sev_wf| |by eapply sev_pins].
      eapply own_file_ev; [apply (se_ev _ _ _ _ _ _ He1)|by apply Hown]. }
    intros l s2 tr2 He2. assert (sev any s tr s2 tr2) as He02 by by eapply sev_trans.
    apply wp_ensure; intros _; [by apply wp_ret|done].
Qed.

(** How an upload ends for whoever asked for it. *)
Definition reported (s0 : Session) (tr0 : trace) (r : result anyhow unit) (s : Session) (tr : trace)
  : Prop :=
  match r with
  | Ok _ => finished s0 tr0 s tr
  | Err e => sev any s0 tr0 s tr \/
             (is_a CommitOutcomeUnknown e || is_a CleanupIncomplete e = true) /\ moved s0 s
  end.

Lemma is_a_context t e x : is_a t x = true -> is_a t (CleanupIncomplete_context e x) = true.
Proof.
  unfold is_a. rewrite !bool_decide_eq_true. simpl. intros Ht. by right.
Qed.

Definition cleaned (l : Locals) : io unit :=
  match owned_identity l with
  | Some identity =>
      run? ensure_still_bound g ;;
      cleanup_failed_upload partial sidecar u identity (durable l) (rq_resume rq) (commit_applied l)
  | None => ok tt
  end.

Lemma wp_cleaned l s tr :
  Wf N (files s) -> (commit_applied l = false -> fresh_locals (files s) l) -> pins N F (files s) ->
  wpx (cleaned l) (fun _ s' tr' => sev any s tr s' tr') s tr.
Proof.
  intros Hw Hl HF. unfold cleaned. destruct (owned_identity l) as [id|] eqn:Hid; cycle 1.
  { apply wp_ret. by apply sev_refl. }
  apply wp_cleanup; [done| |done]. intros [Hc _]%orb_false_iff. by apply (Hl Hc).
Qed.

Lemma wp_push_epilogue l r s0 tr0 s tr :
  outcome s0 tr0 (l, r) s tr -> pins N F (files s0) ->
  wpx (push_epilogue g rq u partial sidecar l r) (reported s0 tr0) s tr.
Proof.
  intros Ho HF. unfold push_epilogue. fold (cleaned l).
  assert (forall (e : anyhow) (b : bool),
    Wf N (files s) -> (commit_applied l = false -> fresh_locals (files s) l) -> pins N F (files s) ->
    (forall e' s' tr', sev any s tr s' tr' -> e' = e \/ (exists t, e' = CleanupIncomplete_context t e) ->
       reported s0 tr0 (Err e') s' tr') ->
    wpx (if b then let# cleanup := cleaned l in
                   match cleanup with
                   | Ok _ => Ret (Err e)
                   | Err x => Ret (Err (CleanupIncomplete_context (to_string x) e))
                   end
         else Ret (Err e)) (reported s0 tr0) s tr) as Hclean.
  { intros e b Hw Hl HFs HR. destruct b; [|apply wp_ret, HR; [by apply sev_refl|by left]].
    apply wp_pbind. eapply wp_mono; [by apply wp_cleaned|].
    intros [[]|x] s' tr' He'; apply wp_ret, HR; eauto. }
  destruct Ho as [(Hl & [e ->] & He)|[(Hc & [e [-> Hu']] & Hm)|[Hc Hr]]].
  - rewrite (proj1 Hl). simpl. apply Hclean; [by eapply sev_wf|done|by eapply sev_pins|].
    intros e' s' tr' He' _. left. by eapply sev_trans.
  - rewrite Hc, Hu'. simpl. rewrite andb_false_r. apply wp_ret. right. by rewrite Hu'.
  - rewrite Hc. simpl. destruct r as [[]|e]; [by apply wp_ret|]. cbn [normalize_post_commit_result andb].
    set (e0 := if is_a CleanupIncomplete e then e else CommitOutcomeUnknown_new e).
    assert (is_a CommitOutcomeUnknown e0 || is_a CleanupIncomplete e0 = true) as Hty.
    { subst e0. destruct (is_a CleanupIncomplete e) eqn:E; [rewrite E; apply orb_true_r|done]. }
    replace (if is_a CleanupIncomplete e then Err e else Err (CommitOutcomeUnknown_new e))
      with (Err e0 : result anyhow unit) by (subst e0; by destruct (is_a CleanupIncomplete e)).
    apply Hclean; [apply Hr|by rewrite Hc| |].
    { intros fd Hfd. apply (mv_ino _ _ Hr). by apply HF. }
    intros e' s' tr' He' Hor. right. split; [|by eapply moved_sev].
    destruct Hor as [->|[t ->]]; [done|].
    apply orb_true_iff in Hty as [?|?]; apply orb_true_iff; [left|right]; by apply is_a_context.
Qed.

End push.
