(* ===== verification/XferUpload.v ===== *)
(** * Uploads: the whole of [serve_push]

    The names of an upload follow from its request; [acquire] pins their
    directory; and [serve_push] ends as [reported] says. *)

From stdpp Require Import gmap.
From S2P Require Import Prelude.
From S2P Require Import Bytes.
From S2P Require Import Text.
From S2P Require Import Codec.
From S2P Require Import Crates.
From S2P Require Import TransferProtocol.
From S2P Require Import Posix.
From S2P Require Import PosixTheory.
From S2P Require Import Program.
From S2P Require Import Xfer.
From S2P Require Import XferServe.
From S2P Require Import XferTheory.
From S2P Require Import XferCalls.
From S2P Require Import XferPush.
#[local] Open Scope string_scope.
#[local] Open Scope list_scope.
#[local] Open Scope Z_scope.

(** The names of an upload to the directory [dir]. *)
Definition target_name (rq : PushRequest) : str := default [] (path_file_name (rq_target rq)).
Definition partial_name (rq : PushRequest) : str :=
  target_name rq ++ rs ".serctl-native-part-" ++ rq_transfer_id rq.
Definition names (dir : Z) (rq : PushRequest) : Names :=
  {| n_dir := dir; n_parent := original_parent_of (rq_target rq); n_target := target_name rq;
     n_partial := partial_name rq; n_sidecar := partial_name rq ++ rs ".json";
     n_lock := lock_name (rq_transfer_id rq) |}.

(** A longer name is another name. *)
Lemma longer_name (a b : str) : b <> [] -> a <> a ++ b.
Proof.
  intros Hb E. apply (f_equal length) in E. rewrite length_app in E. destruct b; [done|]. simpl in E. lia.
Qed.

Lemma names_distinct dir rq :
  target_name rq <> lock_name (rq_transfer_id rq) -> distinct (names dir rq).
Proof.
  intros Hl. split; simpl; [| |done|]; unfold partial_name.
  - by apply longer_name.
  - rewrite <- app_assoc. by apply longer_name.
  - by apply longer_name.
Qed.

Section upload.
Context (D : Z) (rq : PushRequest).
Notation N := (names D rq).
Context (Hd : distinct N).
Context `{Strerror} `{Sha2} `{Hex} `{Json Control}.
Context `{Json NativeTransferLockRecord} `{Json ResumeSidecar}.
Notation good := (complete rq).
Notation trace := (list (Session * Session)).
Notation wpx := (wp xexec (srely N) (sguar N good)).
Notation sev := (sev N).
Notation none := (fun _ : Z => False).
Notation since s := (fun j => False \/ next_ino (files s) <= j).

(** ** [acquire] *)

(** The directory, by the path it was given by, as long as nobody here has it
    open. *)
Lemma wp_open_parent (Q : result errno Z -> Session -> trace -> Prop) s tr :
  Wf N (files s) -> paths (files s) !! n_parent N = Some D ->
  (forall fd, ino_of (files s) fd <> Some D) ->
  (forall r s' tr', sev none s tr s' tr' ->
     (forall f, r = Ok f -> ino_of (files s') f = Some D) -> Q r s' tr') ->
  wpx (sys (Open (Given (n_parent N)) dir_flags)) Q s tr.
Proof.
  intros Hw Hp Hno HQ. apply (wp_answer N good Hd none (Open (Given (n_parent N)) dir_flags)); [done|done|].
  intros w1 ch Hr. pose proof (rl_paths _ _ _ Hr Hno) as Hp1. rewrite Hp in Hp1.
  unfold exec. destruct (fault ch) as [[code m]|]; simpl.
  { intros s' tr' Hf He. by apply HQ. }
  unfold do_open. simpl in Hp1 |- *. rewrite Hp1.
  destruct (inodes w1 !! D) as [x|] eqn:Hx; cycle 1.
  { intros s' tr' Hf He. by apply HQ. }
  destruct (open_checks dir_flags (i_kind x)) as [u|e]; cycle 1.
  { intros s' tr' Hf He. by apply HQ. }
  intros s' tr' Hf He. apply HQ; [done|]. intros f [= <-]. rewrite Hf.
  unfold ino_of. simpl. by rewrite lookup_insert_eq.
Qed.

Lemma wp_pin_parent (Q : result anyhow (Z * FileIdentity) -> Session -> trace -> Prop) s tr :
  Wf N (files s) -> paths (files s) !! n_parent N = Some D ->
  (forall fd, ino_of (files s) fd <> Some D) ->
  (forall r s' tr', sev none s tr s' tr' ->
     (forall p, r = Ok p -> dir_open N (files s') p.1) -> Q r s' tr') ->
  wpx (pin_parent (n_parent N)) Q s tr.
Proof.
  intros Hw Hp Hno HQ. unfold pin_parent. apply wp_rpbind. do 2 apply wp_pmap_err.
  apply wp_open_parent; [done..|]. intros [f|e] s1 tr1 He1 Hf; [|by apply HQ].
  specialize (Hf f eq_refl). cbn [map_err]. apply wp_rpbind, wp_pmap_err.
  apply (wp_identity N good Hd none f D); [by eapply sev_wf|done|].
  intros [m|e] s2 tr2 He2 Hm; [|apply HQ; [by eapply sev_trans|done]]. cbn [map_err].
  destruct (Hm m eq_refl) as (x & Hx & ->). clear Hm.
  assert (sev none s tr s2 tr2) as He by by eapply sev_trans.
  apply wp_ensure; [|intros _; by apply HQ]. intros Hk%bool_decide_eq_true.
  assert (dir_open N (files s2) f) as Hdir2.
  { split; [by apply (ev_ino _ _ _ _ (se_ev _ _ _ _ _ _ He2))|by exists x]. }
  eapply wp_mono; [eapply (wp_tame N good Hd none (fun _ => False) _
    (fun r => forall p, r = Ok p -> p.1 = f))|].
  - by eapply sev_wf.
  - by intros ? [].
  - apply tame_pbind. split; [done|]. intros uid. do 2 (apply tame_rest; [calm_tac|intros _]).
    apply tame_rest; [calm_tac|intros probe]. apply tame_rest; [by calm_tac|intros probed].
    apply tame_rest; [calm_tac|intros _]. by intros p [= <-].
  - intros r s' tr' [Hr He']. apply HQ; [by eapply sev_trans|]. intros p ->.
    rewrite (Hr p eq_refl). eapply dir_open_ev; [|apply (se_ev _ _ _ _ _ _ He')|exact Hdir2].
    intros HF; exact HF.
Qed.

(** A lock that was created is new. *)
Lemma wp_open_lock parent (Q : result anyhow (Z * bool) -> Session -> trace -> Prop) s0 tr0 s tr :
  sev none s0 tr0 s tr -> ino_of (files s) parent = Some D ->
  (forall r s' tr', sev none s0 tr0 s' tr' -> sev none s tr s' tr' ->
     (forall lock, r = Ok (lock, true) -> newborn N (files s0) (files s') lock) -> Q r s' tr') ->
  wpx (open_lock (Entry parent (n_lock N))) Q s tr.
Proof.
  intros He Hp HQ. unfold open_lock. apply wp_pbind.
  apply (wp_create N good Hd none (fun fd => fd = parent)); [by eapply sev_wf|by intros fd ->| |].
  { split; [done|]. right. right. by left. }
  intros r s1 tr1 He1 Hn. assert (sev none s0 tr0 s1 tr1) as He01 by by eapply sev_trans.
  destruct r as [file|e].
  - apply wp_ret, HQ; [done|done|]. intros lock [= <-]. destruct (Hn file eq_refl) as (j & Hj & Hnext & Ht).
    exists j. split_and!; [done| |done]. pose proof (ev_next _ _ _ _ (se_ev _ _ _ _ _ _ He)). lia.
  - assert (wpx (let? file := within (fmt_path "open existing native transfer lock " (Entry parent (n_lock N)))
                   (os (sys (Open (Entry parent (n_lock N)) file_flags))) in ok (file, false)) Q s1 tr1) as Hopen.
    { eapply wp_mono; [eapply (wp_tame N good Hd none (fun _ => False) _
        (fun r => forall lock, r <> Ok (lock, true)))|].
      + by eapply sev_wf.
      + by intros ? [].
      + apply tame_rpbind. eapply tame_mono; [calm_tac|]. intros [f|e'] _; by intros ? [=].
      + intros r s' tr' [Hr He']. apply HQ; [by eapply sev_trans..|]. intros lock ->. by destruct (Hr lock). }
    destruct e; try exact Hopen; apply wp_ret, HQ; done.
Qed.

Notation newer s := (fun j : Z => next_ino (files s) <= j).

Lemma wp_write_lock lock parent r s0 s1 tr1 s tr :
  sev (newer s0) s1 tr1 s tr -> newborn N (files s0) (files s) lock ->
  wpx (write_lock_record lock parent r) (fun _ s' tr' => sev (newer s0) s1 tr1 s' tr') s tr.
Proof.
  intros He (j & Hj & Hn & Ht). unfold write_lock_record. apply wp_pure; [intros bs _|done].
  apply wp_rpbind. do 2 apply wp_pmap_err.
  apply (wp_write N good Hd (newer s0) lock (WriteAll lock bs) j); [by eauto|by eapply sev_wf|done|done|done|].
  intros [u|e] s2 tr2 He2; [|by eapply sev_trans].
  apply (calm_rest N good Hd _ none); [by calm_tac|by eapply sev_trans|by intros ? []].
Qed.

Lemma calm_validate_lock F file : tame N F (validate_native_transfer_lock_metadata file) (fun _ => True).
Proof. unfold validate_native_transfer_lock_metadata. calm_tac. Qed.
Lemma calm_read_lock F file r : tame N F (read_lock_record file r) (fun _ => True).
Proof. unfold read_lock_record. calm_tac. Qed.
#[local] Hint Resolve calm_validate_lock calm_read_lock : calm.

Lemma wp_hold_lock parent pid q lp op r lock created s0 s tr :
  Wf N (files s) -> (created = true -> newborn N (files s0) (files s) lock) ->
  wpx (hold_lock parent pid q lp op r lock created)
    (fun o s' tr' => sev (newer s0) s tr s' tr' /\
       forall g, o = Ok g -> g_parent g = parent /\ g_pinned_target g = q) s tr.
Proof.
  intros Hw Hn. pose proof (sev_refl N (newer s0) s tr Hw) as Hs.
  assert (pins N none (files s)) as HF by by intros ? [].
  unfold hold_lock.
  eapply (calm_first_ok N good Hd (newer s0) none); [calm_tac|exact Hs|exact HF|by intros|].
  intros _ s1 tr1 He1 _.
  eapply (calm_first_ok N good Hd (newer s0) none); [auto with calm|exact He1|exact HF|by intros|].
  intros _ s2 tr2 He2 _.
  eapply (calm_first N good Hd (newer s0) none); [by calm_tac|exact He2|exact HF|].
  intros locked s3 tr3 He3 _.
  eapply (calm_first_ok N good Hd (newer s0) none); [calm_tac|exact He3|exact HF|by intros|].
  intros _ s4 tr4 He4 _.
  eapply (calm_first_ok N good Hd (newer s0) none); [auto with calm|exact He4|exact HF|by intros|].
  intros _ s5 tr5 He5 _. apply wp_rpbind.
  assert (wpx (if created then write_lock_record lock parent r else read_lock_record lock r)
    (fun _ s' tr' => sev (newer s0) s tr s' tr') s5 tr5) as Hrec.
  { destruct created.
    - apply wp_write_lock; [exact He5|]. eapply newborn_kept; [by apply Hn|exact He5].
    - apply (calm_rest N good Hd (newer s0) none); [auto with calm|exact He5|exact HF]. }
  eapply wp_mono; [exact Hrec|]. intros [u|e] s6 tr6 He6; [|done].
  eapply (calm_first_ok N good Hd (newer s0) none); [by calm_tac|exact He6|exact HF|by intros|].
  intros m s7 tr7 He7 _.
  eapply (calm_first_ok N good Hd (newer s0) none); [auto with calm|exact He7|exact HF|by intros|].
  intros _ s8 tr8 He8 _. apply wp_ret. split; [exact He8|]. by intros g [= <-].
Qed.

Context (Htarget : is_Some (path_file_name (rq_target rq))).

(** The directory is there, by its path, and not open. *)
Record at_parent (w : World) : Prop := {
  at_path : paths w !! n_parent N = Some D;
  at_inode : is_Some (inodes w !! D);
  at_closed fd : ino_of w fd <> Some D;
}.

Lemma wp_acquire id size sha h (Q : result anyhow NativeTransferGuard -> Session -> trace -> Prop) s tr :
  id = rq_transfer_id rq -> Wf N (files s) -> at_parent (files s) ->
  (forall r s' tr', sev none s tr s' tr' ->
     (forall g, r = Ok g -> dir_open N (files s') (g_parent g) /\
        g_pinned_target g = Entry (g_parent g) (target_name rq)) -> Q r s' tr') ->
  wpx (acquire (rq_target rq) id size sha h) Q s tr.
Proof.
  intros -> Hw [Hp [xd HD] Hno] HQ. unfold acquire.
  destruct Htarget as [name Hname]. rewrite Hname. apply wp_pure; [|done]. intros tn [= <-].
  apply wp_rpbind, wp_pin_parent; [done..|].
  intros [[parent pid]|e] s1 tr1 He1 Hdir; [|by apply HQ]. specialize (Hdir _ eq_refl). cbn [fst] in Hdir.
  apply wp_pure; [intros r _|intros e _; by apply HQ].
  apply wp_rpbind. apply (wp_open_lock _ _ s tr); [exact He1|apply Hdir|].
  intros [[lock created]|e] s2 tr2 He2 Hk2 Hnew; [|by apply HQ].
  assert (name = target_name rq) as -> by (unfold target_name; by rewrite Hname).
  eapply wp_mono; [eapply (wp_hold_lock parent pid (Entry parent (target_name rq)) _ _ r lock created s)|].
  - by eapply sev_wf.
  - intros ->. by apply Hnew.
  - intros o s' tr' [He Ho]. apply HQ.
    + apply sev_fresh; [done|]. eapply sev_trans; [|eapply sev_mono; [|exact He]].
      * eapply sev_mono; [|exact He2]. by left.
      * by right.
    + intros g ->. destruct (Ho g eq_refl) as [-> ->]. split; [|done].
      eapply dir_open_ev; [|apply (se_ev _ _ _ _ _ _ He)|].
      * pose proof (bounded_inodes _ (wf_bounded _ _ Hw) _ _ HD). simpl. lia.
      * eapply dir_open_ev; [|apply (se_ev _ _ _ _ _ _ Hk2)|exact Hdir]. intros HF; exact HF.
Qed.

(** ** [serve_push] *)

Lemma sev_sent X s tr s' tr' :
  sev X s tr s' tr' -> exists l, sent s' = sent s ++ l /\ Forall not_completed l.
Proof. by intros []. Qed.

(** A report counts from earlier on as well. *)
Lemma reported_since s0 tr0 s1 tr1 r s tr :
  sev none s0 tr0 s1 tr1 -> reported N rq s1 tr1 r s tr -> reported N rq s0 tr0 r s tr.
Proof.
  intros He. destruct (se_sent _ _ _ _ _ _ He) as (l0 & Hl0 & Hn0).
  destruct (se_trace _ _ _ _ _ _ He) as (t0 & Ht0 & Hk0). destruct r as [[]|e]; simpl.
  - intros (l & i & Hl & Hn & Hdur & Hcon & Hor). exists (l0 ++ l), i.
    rewrite Hl, Hl0, !app_assoc. split_and!; [done|by apply Forall_app|done|done|].
    destruct Hor as [(t & -> & Hk)|Hg]; [left|by right]. exists (t ++ t0).
    rewrite Ht0, app_assoc. split; [done|by apply Forall_app].
  - intros [He'|[Hty Hm]]; [left|right].
    + eapply sev_trans; [|exact He']. by eapply sev_mono; [|exact He].
    + split; [done|]. destruct Hm as [Hw Hi (l & Hl & Hn)]. split; [done| |].
      * intros fd j Hj. by apply Hi, (ev_ino _ _ _ _ (se_ev _ _ _ _ _ _ He)).
      * exists (l0 ++ l). rewrite Hl, Hl0, app_assoc. split; [done|by apply Forall_app].
Qed.

Context (Hsize : 0 <= rq_size rq).

Lemma wp_serve_push s tr :
  Wf N (files s) -> at_parent (files s) ->
  wpx (serve_push rq) (reported N rq s tr) s tr.
Proof.
  intros Hw Hp. pose proof (sev_refl N (fun _ => True) s tr Hw) as Hs.
  assert (forall e s' tr', sev none s tr s' tr' -> reported N rq s tr (Err e) s' tr') as Hf.
  { intros e s' tr' He. left. by eapply sev_mono; [|exact He]. }
  pose proof (sev_refl N none s tr Hw) as Hs0.
  unfold serve_push. do 2 (apply wp_ensure; [intros _|intros _; by apply Hf]).
  apply wp_pure; [intros tid _|intros e _; by apply Hf].
  apply wp_pure; [intros token _|intros e _; by apply Hf].
  apply wp_ensure; [intros _|intros _; by apply Hf].
  apply wp_rpbind, wp_acquire; [done..|]. intros [g|e] s1 tr1 He1 Hg; [|by apply Hf].
  destruct (Hg g eq_refl) as [Hdir Hpin]. rewrite Hpin. apply wp_pure; [|done].
  intros q [= <-]. apply wp_pbind. eapply wp_mono.
  { apply (wp_push_block N Hd rq g Hsize). { by eapply sev_wf. } { exact Hdir. } }
  intros [l r] s2 tr2 Ho. eapply wp_mono.
  { apply (wp_push_epilogue N Hd rq g); [exact Ho|by intros fd ->; apply Hdir]. }
  intros r' s3 tr3. by apply reported_since.
Qed.
End upload.
