(* ===== verification/XferProperties.v ===== *)
(** * Uploads: what [serve_push] guarantees

    The theorems are about [upload_run]: [serve_push] with any answers of the
    file system, with others working on the same files before every call as
    far as [respects] allows them to, and cut off after as many calls as there
    are choices.  [history] is what any number of attempts at one upload,
    exits and power losses can leave. *)

From stdpp Require Import gmap.
From S2P Require Import Prelude.
From S2P Require Import Bytes.
From S2P Require Import Text.
From S2P Require Import Codec.
From S2P Require Import Crates.
From S2P Require Import TransferProtocol.
From S2P Require Import Posix.
From S2P Require Import PosixTheory.
From S2P Require Import Program.
From S2P Require Import Xfer.
From S2P Require Import XferServe.
From S2P Require Import XferTheory.
From S2P Require Import XferPush.
From S2P Require Import XferUpload.
#[local] Open Scope string_scope.
#[local] Open Scope list_scope.
#[local] Open Scope Z_scope.

(** The others have their turn. *)
Definition others (ch : choice) (s : Session) : Session := with_files s (env ch (files s)).

(** They leave the names of the upload alone, apart from creating its target,
    and neither replace nor change a target that exists. *)
Definition respects (D : Z) (rq : PushRequest) (ch : choice) : Prop :=
  forall w, rely (names D rq) w (env ch w).

(** An upload to the directory [D] that is about to start. *)
Record setting (D : Z) (rq : PushRequest) (w : World) : Prop := {
  st_name : is_Some (path_file_name (rq_target rq));
  st_lock : target_name rq <> lock_name (rq_transfer_id rq);
  st_size : 0 <= rq_size rq;
  st_wf : Wf (names D rq) w;
  st_parent : at_parent D rq w;
}.

(** One step and the target: unchanged, or linked where there was none, to an
    inode that is synced, as long as announced, and of the announced digest;
    its data stays as it is; and of the other names only the upload's own
    change. *)
Definition target_step `{Sha2, Hex} (D : Z) (rq : PushRequest) (w w' : World) : Prop :=
  (entry w' D (target_name rq) = entry w D (target_name rq) \/
   entry w D (target_name rq) = None /\
   exists i x, entry w' D (target_name rq) = Some i /\ inodes w' !! i = Some x /\
     i_clean x = true /\ zlen (i_data x) = rq_size rq /\
     hex_encode (sha256 (i_data x)) = rq_expected_sha256 rq) /\
  (forall i x, entry w D (target_name rq) = Some i -> inodes w !! i = Some x ->
     exists x', inodes w' !! i = Some x' /\ i_data x' = i_data x) /\
  (forall d n, ~ (d = D /\ n ∈ target_name rq :: own_names (names D rq)) -> entry w' d n = entry w d n).

Section properties.
Context `{Strerror} `{Sha2} `{Hex} `{Json Control}.
Context `{Json NativeTransferLockRecord} `{Json ResumeSidecar}.

Definition upload_run (rq : PushRequest) (chs : list choice) (s : Session)
  : list (Session * Session) * Session * option (result anyhow unit) :=
  run xexec others (serve_push rq) chs s [].

Lemma respects_srely D rq chs :
  Forall (respects D rq) chs ->
  Forall (fun ch => forall s, srely (names D rq) s (others ch s)) chs.
Proof. intros Hc. eapply Forall_impl; [exact Hc|]. intros ch Hch s. split; [apply Hch|done]. Qed.

Lemma setting_wp D rq s :
  setting D rq (files s) ->
  wp xexec (srely (names D rq)) (sguar (names D rq) (complete rq)) (serve_push rq)
    (reported (names D rq) rq s []) s [].
Proof. intros [Hn Hl Hz Hw Hp]. apply wp_serve_push; try done. by apply names_distinct. Qed.

Lemma setting_run D rq chs s tr s' o :
  setting D rq (files s) -> Forall (respects D rq) chs -> upload_run rq chs s = (tr, s', o) ->
  Forall (fun c => sguar (names D rq) (complete rq) c.1 c.2) tr /\
  (forall r, o = Some r -> reported (names D rq) rq s [] r s' tr).
Proof.
  intros Hs Hc Hrun.
  pose proof (wp_run xexec others _ _ (serve_push rq) _ chs s [] (respects_srely _ _ _ Hc)
    (setting_wp _ _ _ Hs) (Forall_nil_2 _)) as Hr.
  unfold upload_run in Hrun. by rewrite Hrun in Hr.
Qed.

Lemma guar_target_step D rq w w' :
  target_name rq <> lock_name (rq_transfer_id rq) ->
  guar (names D rq) (complete rq) w w' -> target_step D rq w w'.
Proof.
  intros Hl [Hn Ht _]. split_and!.
  - destruct (Hn D (target_name rq)) as [?|[[_ Hin]|(_ & _ & Hno & i & x & Hi & Hx & Hg)]]; [by left| |].
    + by destruct (target_not_own _ (names_distinct D rq Hl) _ Hin).
    + right. split; [done|]. destruct Hg as [? [? ?]]. by exists i, x.
  - intros i x Hi Hx. destruct (Ht i x Hi Hx) as (x' & Hx' & Hk). exists x'. by destruct Hk.
  - intros d n Hne. destruct (Hn d n) as [?|[[-> Hin]|(-> & -> & _)]]; [done| |].
    + destruct Hne. split; [done|]. by right.
    + destruct Hne. split; [done|]. by left.
Qed.

(** C14: At no call of an upload, whether it runs to its end or is cut off, and
    whatever the file system answers, is a target replaced or its data
    changed: the target appears only as a file that is synced and has the
    announced size and digest, and no names but the upload's own are touched. *)
Theorem upload_never_replaces_target (D : Z) (rq : PushRequest) (chs : list choice) (s : Session) :
  setting D rq (files s) -> Forall (respects D rq) chs ->
  Forall (fun c => target_step D rq (files c.1) (files c.2)) (upload_run rq chs s).1.1.
Proof.
  intros Hs Hc. destruct (upload_run rq chs s) as [[tr s'] o] eqn:Hrun.
  destruct (setting_run _ _ _ _ _ _ _ Hs Hc Hrun) as [Hg _]. eapply Forall_impl; [exact Hg|].
  intros c. apply guar_target_step, Hs.
Qed.

(** C4: An upload that succeeds has sent [Completed], once and last, and its
    target is a file of the announced size and digest whose entry no power
    loss can undo; the data is synced if this run linked it. *)
Theorem completed_upload_is_durable (D : Z) (rq : PushRequest) (chs : list choice) (s : Session)
    tr s' :
  setting D rq (files s) -> Forall (respects D rq) chs ->
  upload_run rq chs s = (tr, s', Some (Ok tt)) ->
  exists l i x,
    sent s' = sent s ++ l ++ [FControl (Completed (rq_size rq) (rq_expected_sha256 rq))] /\
    Forall not_completed l /\ durable_target (names D rq) (files s') i /\
    inodes (files s') !! i = Some x /\ content rq x /\
    (i_clean x = true \/ Forall (kept_target (names D rq)) tr).
Proof.
  intros Hs Hc Hrun. destruct (setting_run _ _ _ _ _ _ _ Hs Hc Hrun) as [_ Hr].
  destruct (Hr _ eq_refl) as (l & i & Hl & Hn & Hdur & [_ (x & Hx & Hcon)] & Hor).
  exists l, i, x. split_and!; try done. destruct Hor as [(t & -> & Hk)|[_ (x' & Hx' & [Hclean _])]].
  - right. by rewrite app_nil_r.
  - left. congruence.
Qed.

(** C15: An upload that fails with a code other than "outcome_unknown" and
    "cleanup_incomplete" has at none of its calls changed the target's entry;
    and [Completed] is never sent by an upload that fails. *)
Theorem failed_upload_changes_nothing (D : Z) (rq : PushRequest) (chs : list choice) (s : Session)
    tr s' e :
  setting D rq (files s) -> Forall (respects D rq) chs ->
  upload_run rq chs s = (tr, s', Some (Err e)) ->
  (exists l, sent s' = sent s ++ l /\ Forall not_completed l) /\
  (error_code e <> rs "outcome_unknown" -> error_code e <> rs "cleanup_incomplete" ->
   Forall (kept_target (names D rq)) tr).
Proof.
  intros Hs Hc Hrun. destruct (setting_run _ _ _ _ _ _ _ Hs Hc Hrun) as [_ Hr].
  destruct (Hr _ eq_refl) as [He|[Hty [_ _ Hsent]]].
  - split; [by eapply sev_sent|]. intros _ _. destruct (se_trace _ _ _ _ _ _ He) as (t & -> & Hk).
    by rewrite app_nil_r.
  - split; [done|]. unfold error_code. apply orb_true_iff in Hty as [->|Hty]; [done|].
    rewrite Hty. by destruct (is_a CommitOutcomeUnknown e).
Qed.

(** C28: An upload ends: whatever the answers, after finitely many calls there
    is a result. *)
Theorem upload_terminates (D : Z) (rq : PushRequest) (s : Session) (chs : nat -> choice) :
  setting D rq (files s) -> (forall n, respects D rq (chs n)) ->
  exists n, forall m, (n <= m)%nat -> exists r, (upload_run rq (map chs (seq 0 m)) s).2 = Some r.
Proof.
  intros Hs Hc.
  eapply (wp_ends xexec others (srely (names D rq))); [|by apply setting_wp].
  intros n s1. split; [apply Hc|done].
Qed.

(** ** Any number of attempts *)

(** Another request of the same upload: for the same target, with the same
    content and id. *)
Definition same_upload (rq rq' : PushRequest) : Prop :=
  rq_target rq' = rq_target rq /\ rq_transfer_id rq' = rq_transfer_id rq /\
  rq_size rq' = rq_size rq /\ rq_expected_sha256 rq' = rq_expected_sha256 rq.

(** The others do not create the target either. *)
Definition quiet (D : Z) (rq : PushRequest) (ch : choice) : Prop :=
  respects D rq ch /\
  forall w, entry (env ch w) D (target_name rq) = entry w D (target_name rq).

(** A process that exits gives up its descriptors. *)
Definition exited (w : World) : World := with_handles (fun _ => ∅) w.

(** What attempts at an upload, each cut off at any call or not, exits and
    power losses can make of a world in which the target was absent, as far as
    a power loss can tell. *)
Inductive history (D : Z) (rq : PushRequest) : World -> Prop :=
| history_start w :
    Wf (names D rq) w -> entry w D (target_name rq) = None -> history D rq w
| history_attempt w rq' s chs :
    history D rq w -> same_upload rq rq' -> files s = w -> setting D rq' w ->
    Forall (quiet D rq') chs -> history D rq (files (upload_run rq' chs s).1.2)
| history_exit w : history D rq w -> history D rq (exited w)
| history_crash w w' : history D rq w -> crash w w' -> history D rq w'.

(** The target is absent, or complete. *)
Record all_or_nothing (D : Z) (rq : PushRequest) (w : World) : Prop := {
  an_wf : Wf (names D rq) w;
  an_target i : entry w D (target_name rq) = Some i -> exists x, inodes w !! i = Some x /\ complete rq x;
}.

Lemma names_same D rq rq' : same_upload rq rq' -> names D rq' = names D rq.
Proof. intros (Ht & Hi & _). unfold names, target_name, partial_name, target_name. by rewrite Ht, Hi. Qed.

Lemma all_or_nothing_same D rq rq' w :
  same_upload rq rq' -> all_or_nothing D rq' w <-> all_or_nothing D rq w.
Proof.
  intros Hs. pose proof (names_same D _ _ Hs) as Hn. destruct Hs as (Ht & _ & Hz & Hh).
  assert (forall x, complete rq' x <-> complete rq x) as Hc.
  { intros x. unfold complete, content. by rewrite Hz, Hh. }
  unfold target_name in *. split; intros [Hw Hg]; split; try by rewrite ?Hn in *.
  - intros i Hi. destruct (Hg i) as (x & Hx & Hx'); [by unfold target_name; rewrite Ht|].
    exists x. by rewrite <- Hc.
  - intros i Hi. unfold target_name in Hi. rewrite Ht in Hi. destruct (Hg i Hi) as (x & Hx & Hx').
    exists x. by rewrite Hc.
Qed.

Lemma all_or_nothing_guar D rq w w' :
  distinct (names D rq) ->
  all_or_nothing D rq w -> guar (names D rq) (complete rq) w w' -> all_or_nothing D rq w'.
Proof.
  intros Hd [Hw Hg] [Hn Ht Hwf]. split; [by apply Hwf|]. intros i Hi.
  destruct (Hn D (target_name rq)) as [E|[[_ Hin]|(_ & _ & _ & j & x & Hj & Hx & Hgood)]].
  - rewrite E in Hi. destruct (Hg i Hi) as (x & Hx & Hgood). destruct (Ht i x Hi Hx) as (x' & Hx' & Hk).
    exists x'. split; [done|]. by eapply complete_keeps.
  - by destruct (target_not_own _ Hd _ Hin).
  - assert (j = i) as -> by congruence. eauto.
Qed.

Lemma all_or_nothing_quiet D rq ch w :
  quiet D rq ch -> all_or_nothing D rq w -> all_or_nothing D rq (env ch w).
Proof.
  intros [Hr Hq] [Hw Hg]. pose proof (rely_ev (names D rq) (fun _ => False) w _ Hw (Hr w)) as He.
  split; [apply He|]. intros i. rewrite Hq. intros Hi. destruct (Hg i Hi) as (x & Hx & Hgood).
  exists x. split; [|done]. rewrite (rl_inodes _ _ _ (Hr w)); [done|].
  right. exists (target_name rq). split; [by left|done].
Qed.

Lemma all_or_nothing_exit D rq w : all_or_nothing D rq w -> all_or_nothing D rq (exited w).
Proof.
  intros [[[Hi Hh] Ht Hs] Hg]. split; [|done]. split; [|done|done]. by split.
Qed.

Lemma all_or_nothing_crash D rq w w' : all_or_nothing D rq w -> crash w w' -> all_or_nothing D rq w'.
Proof.
  intros [[[Hb _] Ht Hs] Hg] (_ & Hnext & Hh & Hin & Hdirs).
  assert (forall i, entry w' D (target_name rq) = Some i -> entry w D (target_name rq) = Some i) as Hback.
  { intros i. unfold entry. specialize (Hdirs D).
    destruct (dirs w !! D) as [x|] eqn:Hx, (dirs w' !! D) as [y|] eqn:Hy; try done. simpl.
    destruct Hdirs as [_ Hn]. destruct (Hn (target_name rq)) as (m & [->|Hm]%elem_of_cons & ->); [done|].
    destruct (Hs x m Hx Hm) as [E|E]; simpl in E; by rewrite E. }
  assert (forall i x, inodes w !! i = Some x -> exists y, inodes w' !! i = Some y /\ crash_inode x y) as Hfw.
  { intros i x Hx. specialize (Hin i). rewrite Hx in Hin. destruct (inodes w' !! i) as [y|]; [eauto|done]. }
  split; [split; [split| |]|].
  - intros i y Hy. specialize (Hin i). rewrite Hy in Hin. rewrite <- Hnext.
    destruct (inodes w !! i) as [x|] eqn:Hx; [|done]. by apply (Hb i x).
  - intros fd h. by rewrite Hh.
  - intros i Hi%Hback%Ht. destruct Hi as [x Hx]. destruct (Hfw i x Hx) as (y & Hy & _). by exists y.
  - intros y m Hy Hm. simpl in Hy. specialize (Hdirs D). rewrite Hy in Hdirs.
    destruct (dirs w !! D); [|done]. destruct Hdirs as [E _]. rewrite E in Hm. by apply elem_of_nil in Hm.
  - intros i Hi%Hback. destruct (Hg i Hi) as (x & Hx & Hc & Hl & Hsha).
    destruct (Hfw i x Hx) as (y & Hy & _ & Hcy & _ & Hdata). rewrite Hc in Hdata. destruct Hdata as [Hd _].
    exists y. split; [done|]. split; [done|]. unfold content. by rewrite Hd.
Qed.

Lemma history_all_or_nothing D rq w :
  target_name rq <> lock_name (rq_transfer_id rq) -> history D rq w -> all_or_nothing D rq w.
Proof.
  intros Hl. induction 1 as [w Hw Hn|w rq' s chs _ IH Hsame Hf Hset Hq|w _ IH|w w' _ IH Hc].
  - split; [done|]. by rewrite Hn.
  - apply (all_or_nothing_same D rq rq'); [done|]. subst w.
    pose proof (names_distinct D rq' (st_lock _ _ _ Hset)) as Hd.
    refine (wp_run_invariant xexec others _ _ (fun s => all_or_nothing D rq' (files s)) _ _ chs s [] _ _
      (setting_wp _ _ _ Hset) _).
    + eapply Forall_impl; [exact Hq|]. intros ch Hch s'. split; [split; [apply Hch|done]|].
      by apply all_or_nothing_quiet.
    + intros s1 s2 Hs1 Hg. by eapply all_or_nothing_guar.
    + by apply (all_or_nothing_same D rq rq').
  - by apply all_or_nothing_exit.
  - by eapply all_or_nothing_crash.
Qed.

(** C3: After any number of attempts at an upload, each cut off anywhere, with
    the process gone and the power lost in between, a target that was absent
    at first is absent, or a file with exactly the announced content. *)
Theorem uploads_are_all_or_nothing (D : Z) (rq : PushRequest) (w : World) :
  target_name rq <> lock_name (rq_transfer_id rq) -> history D rq w ->
  entry w D (target_name rq) = None \/
  exists i x, entry w D (target_name rq) = Some i /\ inodes w !! i = Some x /\
    zlen (i_data x) = rq_size rq /\ hex_encode (sha256 (i_data x)) = rq_expected_sha256 rq.
Proof.
  intros Hl Hh. destruct (history_all_or_nothing _ _ _ Hl Hh) as [_ Hg].
  destruct (entry w D (target_name rq)) as [i|]; [right|by left].
  destruct (Hg i eq_refl) as (x & Hx & _ & Hz & Hsha). by exists i, x.
Qed.
End properties.

(** ** Runs *)

Module XferRuns.
Import StandIn.

(** An upload of "hello world" to /d/f, in chunks of at most 8 bytes. *)
Definition id_bytes : bytes := replicate 16 x01.
Definition id : str := hex_encode id_bytes.
Definition body : bytes := rs "hello world".
Definition body_sha : str := hex_encode (sha256 body).
Definition request (resume : bool) : PushRequest :=
  {| rq_transfer_id := id; rq_target := rs "/d/f"; rq_size := 11; rq_expected_sha256 := body_sha;
     rq_resume_token := hex_encode (replicate 32 x02); rq_resume := resume;
     rq_chunk := 8; rq_window := 8 |}.

Definition control_table : list (Control * bytes) :=
  [(Commit, rs "{commit}"); (Cancel, rs "{cancel}");
   (Ready 8 8 0, rs "{ready 0}"); (Ready 8 8 8, rs "{ready 8}"); (Ready 8 8 11, rs "{ready 11}");
   (Ack 8 8 8, rs "{ack 8}"); (Ack 11 8 8, rs "{ack 11}"); (Completed 11 body_sha, rs "{completed}")].
#[local] Instance control_json : Json Control := table_json control_table.

#[local] Instance lock_json : Json NativeTransferLockRecord :=
  fields_json
    (fun l => [be64 (lk_schema l); lk_transfer_id l; lk_resume_token_hash l; lk_intent_sha256 l])
    (fun l => match l with
              | [a; b; c; d] => Some {| lk_schema := of_be a; lk_transfer_id := b;
                                        lk_resume_token_hash := c; lk_intent_sha256 := d |}
              | _ => None
              end)
    (fun _ => true).

#[local] Instance sidecar_json : Json ResumeSidecar :=
  fields_json
    (fun s => [be64 (sc_schema s); sc_transfer_id s; be64 (sc_size s); sc_sha256 s;
               sc_resume_token_hash s; be64 (sc_durable_offset s); be64 (sc_file_device s);
               be64 (sc_file_inode s); if sc_state s then [x00] else [x01]])
    (fun l => match l with
              | [a; b; c; d; e; f; g; h; i] =>
                  Some {| sc_schema := of_be a; sc_transfer_id := b; sc_size := of_be c; sc_sha256 := d;
                          sc_resume_token_hash := e; sc_durable_offset := of_be f;
                          sc_file_device := of_be g; sc_file_inode := of_be h;
                          sc_state := if bool_decide (i = [x00]) then Receiving else Committed |}
              | _ => None
              end)
    (fun _ => true).

#[local] Instance strerror_text : Strerror := fun _ => rs "os error".

Definition chunk (off : Z) (p : bytes) : bytes :=
  match write_data {| transfer_id := id_bytes; offset := off; chunk_sha256 := sha256 p; payload := p |} with
  | Ok bs => bs
  | Err _ => []
  end.
Definition commit_bytes : bytes := match write_control Commit with Ok bs => bs | Err _ => [] end.
(** What an honest client sends. *)
Definition honest : bytes := chunk 0 (rs "hello wo") ++ chunk 8 (rs "rld") ++ commit_bytes.

(** The directory /d, empty. *)
Definition empty_dir : World :=
  {| euid := 1000; umask := 18; device := 7; clock := 5; paths := {[ rs "/d" := 2 ]};
     inodes := {[ 2 := {| i_kind := KDir; i_uid := 1000; i_mode := 493; i_nlink := 2; i_mtime := 0;
                          i_data := []; i_stable := []; i_clean := true |} ]};
     next_ino := 10; dirs := {[ 2 := {| d_entries := ∅; d_older := [] |} ]};
     handles := ∅; next_fd := 3 |}.
Definition session (w : World) (bs : bytes) : Session := {| files := w; incoming := bs; sent := [] |}.

Lemma undisturbed_rely N w : rely N w w.
Proof.
  split; try done; try by left. destruct (dirs w !! n_dir N); [|done].
  intros m Hm. right. exists m. split; [by right|done].
Qed.

Lemma undisturbed n b : Forall (respects 2 (request b)) (replicate n no_choice).
Proof. apply Forall_replicate. intros w. apply undisturbed_rely. Qed.

Lemma empty_wf N : n_dir N = 2 -> Wf N empty_dir.
Proof.
  intros HD. split; [split| |].
  - intros i x. simpl. intros [<- _]%lookup_singleton_Some. done.
  - intros fd h. simpl. by rewrite lookup_empty.
  - intros i. rewrite HD. by vm_compute.
  - intros x m. rewrite HD. simpl. intros [_ <-]%lookup_singleton_Some Hm. by apply elem_of_nil in Hm.
Qed.

Lemma parent_setting b w :
  Wf (names 2 (request b)) w -> paths w !! rs "/d" = Some 2 -> is_Some (inodes w !! 2) ->
  handles w = ∅ -> setting 2 (request b) w.
Proof.
  intros Hw Hp Hi Hh. split; [by eexists|by vm_compute|done|done|]. split; [exact Hp|done|].
  intros fd. unfold ino_of. by rewrite Hh, lookup_empty.
Qed.

Lemma empty_setting b : setting 2 (request b) empty_dir.
Proof. apply parent_setting; [by apply empty_wf|done|by eexists|done]. Qed.

(** An honest upload, from the first call to the last, and cut off in the
    middle. *)
Lemma upload_never_replaces_target_witness :
  setting 2 (request true) empty_dir /\
  length (upload_run (request true) (replicate 400 no_choice) (session empty_dir honest)).1.1 = 185%nat /\
  Forall (fun c => target_step 2 (request true) (files c.1) (files c.2))
    (upload_run (request true) (replicate 400 no_choice) (session empty_dir honest)).1.1 /\
  Forall (fun c => target_step 2 (request true) (files c.1) (files c.2))
    (upload_run (request true) (replicate 150 no_choice) (session empty_dir honest)).1.1.
Proof.
  split; [apply empty_setting|]. split; [by vm_compute|]. split.
  - exact (upload_never_replaces_target 2 (request true) _ (session empty_dir honest)
      (empty_setting true) (undisturbed _ true)).
  - exact (upload_never_replaces_target 2 (request true) _ (session empty_dir honest)
      (empty_setting true) (undisturbed _ true)).
Defined.

Lemma completed_upload_is_durable_witness :
  let '(tr, s', o) := upload_run (request true) (replicate 400 no_choice) (session empty_dir honest) in
  o = Some (Ok tt) /\
  exists l i x,
    sent s' = l ++ [FControl (Completed 11 body_sha)] /\ Forall not_completed l /\
    durable_target (names 2 (request true)) (files s') i /\
    inodes (files s') !! i = Some x /\ content (request true) x /\
    (i_clean x = true \/ Forall (kept_target (names 2 (request true))) tr).
Proof.
  destruct (upload_run (request true) (replicate 400 no_choice) (session empty_dir honest))
    as [[tr s'] o] eqn:Hrun.
  assert (o = Some (Ok tt)) as ->.
  { change ((tr, s', o).2 = Some (Ok tt)). rewrite <- Hrun. by vm_compute. }
  split; [done|].
  exact (completed_upload_is_durable 2 (request true) _ (session empty_dir honest) tr s'
    (empty_setting true) (undisturbed _ true) Hrun).
Defined.

(** A client that goes away after the first chunk. *)
Lemma failed_upload_changes_nothing_witness :
  let '(tr, s', o) := upload_run (request true) (replicate 400 no_choice)
    (session empty_dir (chunk 0 (rs "hello wo"))) in
  exists e, o = Some (Err e) /\ error_code e = rs "transfer_failed" /\
    Forall (kept_target (names 2 (request true))) tr.
Proof.
  destruct (upload_run (request true) (replicate 400 no_choice)
    (session empty_dir (chunk 0 (rs "hello wo")))) as [[tr s'] o] eqn:Hrun.
  assert (match o with Some (Err e) => error_code e = rs "transfer_failed" | _ => False end) as He.
  { change (match (tr, s', o).2 with Some (Err e) => error_code e = rs "transfer_failed" | _ => False end).
    rewrite <- Hrun. by vm_compute. }
  destruct o as [[u|e]|]; [destruct He| |destruct He].
  exists e. split; [reflexivity|]. split; [exact He|].
  refine (proj2 (failed_upload_changes_nothing 2 (request true) (replicate 400 no_choice)
    (session empty_dir (chunk 0 (rs "hello wo"))) tr s' e (empty_setting true)
    (undisturbed 400 true) Hrun) _ _); rewrite He; discriminate.
Defined.

Lemma upload_terminates_witness :
  exists n, forall m, (n <= m)%nat -> exists r,
    (upload_run (request false) (map (fun _ => no_choice) (seq 0 m)) (session empty_dir honest)).2 = Some r.
Proof.
  apply (upload_terminates 2 (request false) (session empty_dir honest) (fun _ => no_choice));
    [apply empty_setting|]. intros n w. apply undisturbed_rely.
Defined.

Definition after (n : nat) (w : World) (bs : bytes) : World :=
  files (upload_run (request true) (replicate n no_choice) (session w bs)).1.2.

(** An attempt cut off after 100 calls, with the first chunk durable; a new
    process receives the second chunk. *)
Definition first_try : World := exited (after 100 empty_dir honest).
Definition second_try : World := after 400 first_try (chunk 8 (rs "rld") ++ commit_bytes).

Lemma quiet_all n : Forall (quiet 2 (request true)) (replicate n no_choice).
Proof. apply Forall_replicate. split; [intros w; apply undisturbed_rely|done]. Qed.

Lemma history_first : history 2 (request true) first_try.
Proof.
  apply history_exit. eapply (history_attempt _ _ empty_dir); [|by repeat split|done|apply empty_setting|apply quiet_all].
  apply (history_start 2 (request true) empty_dir); [by apply empty_wf|by vm_compute].
Qed.

Lemma first_setting : setting 2 (request true) first_try.
Proof.
  apply parent_setting.
  - apply (history_all_or_nothing 2 (request true)); [by vm_compute|apply history_first].
  - by vm_compute.
  - unfold is_Some. vm_compute. by eexists.
  - done.
Qed.

(** The second attempt goes on from what the first one left, to the end. *)
Lemma uploads_are_all_or_nothing_witness :
  history 2 (request true) second_try /\
  entry second_try 2 (rs "f") <> None /\
  (entry second_try 2 (rs "f") = None \/
   exists i x, entry second_try 2 (rs "f") = Some i /\ inodes second_try !! i = Some x /\
     zlen (i_data x) = 11 /\ hex_encode (sha256 (i_data x)) = body_sha).
Proof.
  assert (history 2 (request true) second_try) as Hh.
  { unfold second_try, after.
    eapply (history_attempt _ _ first_try); [apply history_first|by repeat split|reflexivity|
      apply first_setting|apply quiet_all]. }
  split; [exact Hh|]. split; [by vm_compute|].
  apply (uploads_are_all_or_nothing 2 (request true) second_try); [by vm_compute|exact Hh].
Defined.
End XferRuns.
