(* ===== verification/XferPull.v ===== *)
(** * Downloads: what [serve_pull] guarantees

    A download makes no assumption about the source: others may write, grow,
    cut or replace it at any moment.  What the client is told is complete has
    the digest it was announced with. *)

From S2P Require Import Prelude.
From S2P Require Import Bytes.
From S2P Require Import Text.
From S2P Require Import Codec.
From S2P Require Import Crates.
From S2P Require Import TransferProtocol.
From S2P Require Import Posix.
From S2P Require Import Program.
From S2P Require Import Xfer.
From S2P Require Import XferServe.
From S2P Require Import XferTheory.
#[local] Open Scope string_scope.
#[local] Open Scope list_scope.
#[local] Open Scope Z_scope.

(** Data frames of a transfer that cover the range from one offset to another
    without gap or overlap. *)
Fixpoint contiguous `{Sha2} (id : bytes) (from : Z) (ds : list DataFrame) (to : Z) : Prop :=
  match ds with
  | [] => from = to
  | d :: ds => transfer_id d = id /\ offset d = from /\ chunk_sha256 d = sha256 (payload d) /\
               payload d <> [] /\ contiguous id (from + zlen (payload d)) ds to
  end.

Definition payloads (ds : list DataFrame) : bytes := List.concat (map payload ds).

Section pull.
Context `{Strerror} `{Sha2} `{Hex} `{Json Control}.
Notation trace := (list (Session * Session)).

(** Others may do anything to the files. *)
Definition pull_rely (s s' : Session) : Prop := sent s' = sent s.
Notation wpp := (wp xexec pull_rely (fun _ _ => True)).

Lemma contiguous_snoc id from ds to d :
  contiguous id from ds to -> transfer_id d = id -> offset d = to ->
  chunk_sha256 d = sha256 (payload d) -> payload d <> [] ->
  contiguous id from (ds ++ [d]) (to + zlen (payload d)).
Proof.
  revert from. induction ds as [|d' ds IH]; intros from; simpl.
  - intros -> ????. by split_and!.
  - intros (? & ? & ? & ? & ?) ????. split_and!; auto.
Qed.

Lemma payloads_snoc ds d : payloads (ds ++ [d]) = payloads ds ++ payload d.
Proof. unfold payloads. rewrite map_app, concat_app. simpl. by rewrite app_nil_r. Qed.

Lemma contiguous_length id from ds to :
  contiguous id from ds to -> to = from + zlen (payloads ds).
Proof.
  revert from. unfold payloads. induction ds as [|d ds IH]; intros from; simpl.
  - intros ->. rewrite zlen_nil. lia.
  - intros (_ & _ & _ & _ & ->%IH). rewrite zlen_app. lia.
Qed.

(** ** Programs that send nothing *)

Fixpoint silent {A} (p : xprog A) : Prop :=
  match p with
  | Ret _ => True
  | Spin | Call (Send _) _ => False
  | Call _ k => forall r, silent (k r)
  end.

Lemma silent_pbind {A B} (p : xprog A) (k : A -> xprog B) :
  silent p -> (forall a, silent (k a)) -> silent (pbind p k).
Proof. intros Hp Hk. induction p as [a| |c k' IH]; simpl in *; [done|done|]. destruct c; auto. Qed.

Lemma wp_silent {A} (p : xprog A) (Q : A -> Session -> trace -> Prop) s tr :
  silent p -> (forall a s' tr', sent s' = sent s -> Q a s' tr') -> wpp p Q s tr.
Proof.
  revert s tr. induction p as [a| |c k IH]; intros s tr Hp HQ; [by apply HQ|done|].
  intros s1 ch Hr. split; [done|].
  assert (sent (xexec c ch s1).2 = sent s1) as Hs.
  { destruct c as [c| |f]; [|simpl|done].
    - simpl. by destruct (exec c ch (files s1)).
    - destruct (fault ch) as [[code n]|]; [done|]. by destruct (read_frame (incoming s1)) as [[f rest]|e]. }
  apply IH; [by destruct c|]. intros a s' tr' Hs'. apply HQ. by rewrite Hs', Hs.
Qed.

Lemma wp_silent_ok {E A B} (p : xprog (result E A)) (k : A -> xprog (result E B))
    (Q : result E B -> Session -> trace -> Prop) s tr :
  silent p -> (forall e s' tr', sent s' = sent s -> Q (Err e) s' tr') ->
  (forall a s' tr', sent s' = sent s -> wpp (k a) Q s' tr') -> wpp (rpbind p k) Q s tr.
Proof. intros Hp He Hk. apply wp_rpbind, wp_silent; [done|]. intros [a|e]; auto. Qed.

Lemma silent_sys c : silent (sys c).
Proof. done. Qed.
Lemma silent_map_err {E E' A} (f : E -> E') (p : xprog (result E A)) : silent p -> silent (pmap_err f p).
Proof. intros Hp. by apply silent_pbind. Qed.
Lemma silent_read_frame : silent read_frame_io.
Proof. done. Qed.
Lemma silent_source source : silent (open_native_source source).
Proof.
  apply silent_pbind; [done|]. intros [f|e]; [|done]. apply silent_pbind; [done|]. intros [m|e]; [|done].
  by destruct (bool_decide _).
Qed.

(** A frame: sent, or not. *)
Lemma wp_send f (Q : result anyhow unit -> Session -> trace -> Prop) s tr :
  (forall e s' tr', sent s' = sent s -> Q (Err e) s' tr') ->
  (forall s' tr', sent s' = sent s ++ [f] -> Q (Ok tt) s' tr') -> wpp (send f) Q s tr.
Proof.
  intros He Hok. unfold send. apply wp_pmap_err. intros s1 ch Hr. split; [done|]. unfold xexec.
  destruct (fault ch) as [[code n]|]; apply wp_ret; [by apply He|]. apply Hok. simpl. by rewrite Hr.
Qed.

Lemma wp_control c (Q : result anyhow unit -> Session -> trace -> Prop) s tr :
  (forall e s' tr', sent s' = sent s -> Q (Err e) s' tr') ->
  (forall s' tr', sent s' = sent s ++ [FControl c] -> Q (Ok tt) s' tr') ->
  wpp (write_control_io c) Q s tr.
Proof.
  intros He Hok. unfold write_control_io, checked. apply wp_pure; [|by intros e _; apply He].
  intros _ _. by apply wp_send.
Qed.

Lemma wp_data d (Q : result anyhow unit -> Session -> trace -> Prop) s tr :
  (forall e s' tr', sent s' = sent s -> Q (Err e) s' tr') ->
  (forall s' tr', sent s' = sent s ++ [FData d] -> Q (Ok tt) s' tr') ->
  wpp (write_data_io d) Q s tr.
Proof.
  intros He Hok. unfold write_data_io, checked. apply wp_pure; [|by intros e _; apply He].
  intros _ _. by apply wp_send.
Qed.

(** ** The pass over the source *)

Lemma take_grows (n : nat) (l r : bytes) k :
  (if (length l <? n)%nat then k = Nat.min (n - length l) (length r) else k = 0%nat) ->
  take n (l ++ r) = take n l ++ take k r.
Proof.
  intros Hk. rewrite take_app. f_equal. destruct (Nat.ltb_spec (length l) n) as [Hlt|Hge]; subst k.
  - destruct (decide (n - length l <= length r)%nat).
    + by rewrite Nat.min_l.
    + rewrite Nat.min_r by lia. rewrite !take_ge by lia. done.
  - replace (n - length l)%nat with 0%nat by lia. done.
Qed.

(** The digest state of the prefix is the prefix of what was read. *)
Definition source_state (offset : Z) (st : bytes * bytes * Z) : Prop :=
  st.1.2 = take (Z.to_nat offset) st.1.1 /\ st.2 = zlen st.1.1 /\ st.2 <= U64_MAX.

Lemma wp_source file chunk offset (Q : result anyhow (bytes * bytes * Z) -> Session -> trace -> Prop) s tr :
  0 <= offset ->
  (forall e s' tr', sent s' = sent s -> Q (Err e) s' tr') ->
  (forall st s' tr', source_state offset st -> sent s' = sent s -> Q (Ok st) s' tr') ->
  wpp (rloop U64_FUEL (source_step file chunk offset) ([], [], 0)) Q s tr.
Proof.
  intros Hoff He Hok.
  apply (wp_rloop _ _ _ _ _ (fun st s' _ => source_state offset st /\ sent s' = sent s)
    (fun st => U64_MAX - st.2)).
  - intros [[h sh] n] s1 tr1 [(Hsh & Hn & Hmax) Hs]. cbn [fst snd] in *. split; [lia|].
    unfold source_step. apply wp_silent_ok; [done| |].
    { intros e s2 tr2 Hs2. apply He. by rewrite Hs2. }
    intros read s2 tr2 Hs2. destruct (is_empty read) eqn:Hemp.
    { apply wp_ret, Hok; [done|by rewrite Hs2]. }
    apply is_empty_false in Hemp. assert (0 < zlen read) as Hpos.
    { destruct read as [|b read]; [done|]. rewrite zlen_cons. pose proof (zlen_nonneg read). lia. }
    apply wp_pure; [|intros e _; apply He; by rewrite Hs2].
    intros n' Hn'. apply ok_or_ok, checked_add_some in Hn' as [-> Hle]. apply wp_ret.
    split; [split; [split_and!; cbn [fst snd]|by rewrite Hs2]|cbn [fst snd]; lia].
    + subst sh. destruct (Z.ltb_spec n offset).
      * rewrite (take_grows _ _ _ (Z.to_nat (Z.min (offset - n) (zlen read)))); [done|].
        unfold zlen in *. destruct (Nat.ltb_spec (length h) (Z.to_nat offset)); lia.
      * rewrite take_app. replace (Z.to_nat offset - length h)%nat with 0%nat by (unfold zlen in *; lia).
        by rewrite take_0, app_nil_r.
    + rewrite zlen_app. lia.
    + lia.
  - split; [|done]. split_and!; [symmetry; apply take_nil|done|done].
  - cbn [snd]. unfold U64_FUEL. lia.
Qed.

(** ** The chunks *)

(** Sent since [s0]: frames none of which says that it is complete. *)
Definition incomplete (s0 s : Session) : Prop :=
  exists l, sent s = sent s0 ++ l /\ Forall not_completed l.

Lemma incomplete_refl s0 s : sent s = sent s0 -> incomplete s0 s.
Proof. intros E. exists []. by rewrite app_nil_r. Qed.
Lemma incomplete_same s0 s s' : incomplete s0 s -> sent s' = sent s -> incomplete s0 s'.
Proof. intros (l & Hl & Hn) E. exists l. by rewrite E. Qed.
Lemma incomplete_snoc s0 s s' f :
  incomplete s0 s -> sent s' = sent s ++ [f] -> not_completed f -> incomplete s0 s'.
Proof.
  intros (l & Hl & Hn) E Hf. exists (l ++ [f]). rewrite E, Hl, app_assoc.
  split; [done|]. apply Forall_app. by split; [|constructor].
Qed.

(** The chunks sent since [s0], and the digest state. *)
Definition pull_state (id prefix : bytes) (offset : Z) (s0 : Session) (st : bytes * Z) (s : Session) : Prop :=
  exists ds, sent s = sent s0 ++ map FData ds /\ contiguous id offset ds st.2 /\
             st.1 = prefix ++ payloads ds.

Lemma pull_state_incomplete id prefix offset s1 st s0 s :
  pull_state id prefix offset s1 st s -> incomplete s0 s1 -> incomplete s0 s.
Proof.
  intros (ds & Hs & _) (l & Hl & Hn). exists (l ++ map FData ds). rewrite Hs, Hl, app_assoc.
  split; [done|]. apply Forall_app. split; [done|]. by apply Forall_map, Forall_true.
Qed.

Lemma wp_pull file id prefix chunk window offset
    (Q : result anyhow (bytes * Z) -> Session -> trace -> Prop) s0 s tr :
  offset <= U64_MAX -> 0 <= offset -> incomplete s0 s ->
  (forall e s' tr', incomplete s0 s' -> Q (Err e) s' tr') ->
  (forall st s' tr', pull_state id prefix offset s st s' -> Q (Ok st) s' tr') ->
  wpp (rloop U64_FUEL (pull_step file id chunk window) (prefix, offset, offset)) Q s tr.
Proof.
  intros Hmax Hoff Hinc He Hok.
  apply (wp_rloop _ _ _ _ _ (fun st s' _ => pull_state id prefix offset s st.1 s' /\ st.1.2 <= U64_MAX)
    (fun st => U64_MAX - st.1.2)).
  - intros [[h c] d] s1 tr1 [Hst Hle]. cbn [fst snd] in *. split; [lia|].
    pose proof (pull_state_incomplete _ _ _ _ _ _ _ Hst Hinc) as Hi1.
    unfold pull_step. apply wp_silent_ok; [done|intros; apply He; by eapply incomplete_same|].
    intros read s2 tr2 Hs2. pose proof (incomplete_same _ _ _ Hi1 Hs2) as Hi2.
    destruct Hst as (ds & Hs & Hds & Hh). cbn [fst snd] in *.
    destruct (is_empty read) eqn:Hemp.
    { apply wp_ret, Hok. exists ds. by rewrite Hs2. }
    apply is_empty_false in Hemp. assert (0 < zlen read) as Hpos.
    { destruct read as [|b read]; [done|]. rewrite zlen_cons. pose proof (zlen_nonneg read). lia. }
    unfold checked. apply wp_pure; [|intros e _; by apply He]. intros data Hdata.
    assert (data = {| transfer_id := id; offset := c; chunk_sha256 := sha256 read; payload := read |}) as ->.
    { revert Hdata. unfold data_new. destruct (negb _); [|done]. simpl. destruct (_ <=? _); [|done].
      by intros [= <-]. }
    apply wp_rpbind, wp_data; [intros; apply He; by eapply incomplete_same|].
    intros s3 tr3 Hs3. assert (incomplete s0 s3) as Hi3 by by eapply incomplete_snoc.
    apply wp_pure; [|intros e _; by apply He]. intros next Hn.
    apply ok_or_ok, checked_add_some in Hn as [-> Hnext].
    apply wp_silent_ok; [done|intros; apply He; by eapply incomplete_same|].
    intros f s4 tr4 Hs4. pose proof (incomplete_same _ _ _ Hi3 Hs4) as Hi4.
    assert (forall t, wpp (bail t) (fun (r : result anyhow ((bytes * Z * Z) + (bytes * Z))) s' tr' => match r with
      | Ok (inl x') => (pull_state id prefix offset s x'.1 s' /\ x'.1.2 <= U64_MAX) /\
                       U64_MAX - x'.1.2 < U64_MAX - c
      | Ok (inr a) => Q (Ok a) s' tr'
      | Err e => Q (Err e) s' tr'
      end) s4 tr4) as Hbail by (intros t; apply wp_ret; by apply He).
    destruct f as [[[]|]|]; try apply Hbail. destruct (_ && _); [|apply Hbail].
    apply wp_ret. cbn [fst snd]. split; [split; [|done]|lia].
    eexists (ds ++ [_]). rewrite Hs4, Hs3, Hs2, Hs, map_app, <- app_assoc. split; [done|]. cbn [fst snd].
    split; [by apply (contiguous_snoc _ _ _ _ {| transfer_id := id; offset := c; chunk_sha256 := sha256 read; payload := read |})|].
    by rewrite payloads_snoc, Hh, <- app_assoc.
  - split; [|done]. exists []. cbn [fst snd map]. unfold payloads. simpl. by rewrite !app_nil_r.
  - cbn [fst snd]. unfold U64_FUEL. lia.
Qed.

(** ** [serve_pull] *)

(** The chunks that complete a download of [size] bytes from [offset], whose
    source had the digest [sha]. *)
Definition downloaded (id : bytes) (offset chunk window : Z) (s s' : Session) : Prop :=
  exists size sha prefix ds,
    sent s' = sent s ++ [FControl (PullReady chunk window size sha offset)] ++ map FData ds ++
              [FControl (Completed size sha)] /\
    contiguous id offset ds size /\ zlen prefix = offset /\
    hex_encode (sha256 (prefix ++ payloads ds)) = sha.

Definition pull_outcome (tid : str) (offset chunk window : Z) (s : Session)
    (r : result anyhow unit) (s' : Session) (tr : trace) : Prop :=
  match r with
  | Ok _ => exists id, parse_transfer_id tid = Ok id /\ downloaded id offset chunk window s s'
  | Err _ => incomplete s s'
  end.

Lemma wp_serve_pull tid source offset chunk window s tr :
  0 <= offset ->
  wpp (serve_pull tid source offset chunk window) (pull_outcome tid offset chunk window s) s tr.
Proof.
  intros Hoff. set (Q := pull_outcome tid offset chunk window s).
  assert (forall e s' tr', sent s' = sent s -> Q (Err e) s' tr') as Hf.
  { intros e s' tr' Hs. by apply incomplete_refl. }
  unfold serve_pull. apply wp_ensure; [intros _|intros _; by apply Hf].
  unfold checked at 1. apply wp_pure; [intros id Hid|intros e _; by apply Hf].
  apply wp_silent_ok; [apply silent_map_err, silent_source|exact Hf|]. intros file s1 tr1 K1.
  apply wp_silent_ok; [done|intros; apply Hf; congruence|]. intros before s2 tr2 K2.
  do 2 (apply wp_ensure; [intros ?|intros _; apply Hf; congruence]).
  apply wp_rpbind, wp_source; [done|intros; apply Hf; congruence|].
  intros [[h sh] n] s3 tr3 (Hsh & Hn & Hmax) K3. cbn [fst snd] in *.
  apply wp_ensure; [intros ->%Z.eqb_eq|intros _; apply Hf; congruence].
  apply wp_silent_ok; [done|intros; apply Hf; congruence|]. intros after s4 tr4 K4.
  do 2 (apply wp_ensure; [intros _|intros _; apply Hf; congruence]).
  apply wp_silent_ok; [done|intros; apply Hf; congruence|]. intros _ s5 tr5 K5.
  apply wp_rpbind, wp_control; [intros; apply Hf; congruence|]. intros s6 tr6 K6.
  set (sha := hex_encode (sha256 h)) in *. set (size := m_len before) in *.
  assert (incomplete s s6) as Hi6.
  { eapply incomplete_snoc; [apply (incomplete_refl s s5); congruence|exact K6|by intros ??]. }
  assert (offset <= size) as Hle by lia.
  apply wp_rpbind, (wp_pull _ id _ _ _ _ _ s); [lia|done|done|intros; done|].
  intros [sh' c] s7 tr7 Hst. pose proof (pull_state_incomplete _ _ _ _ _ _ _ Hst Hi6) as Hi7.
  apply wp_ensure; [intros ->%Z.eqb_eq|done].
  apply wp_ensure; [intros Hsha%bool_decide_eq_true|done].
  apply wp_silent_ok; [done|intros; by eapply incomplete_same|]. intros final s8 tr8 K8.
  do 2 (apply wp_ensure; [intros _|intros _; by eapply incomplete_same]).
  apply wp_control; [intros; eapply incomplete_same; [exact Hi7|congruence]|]. intros s9 tr9 K9.
  destruct Hst as (ds & Hs7 & Hds & Hsh'). cbn [fst snd] in *.
  exists id. split; [destruct (parse_transfer_id tid); [by injection Hid as ->|done]|].
  exists size, sha, sh, ds. split_and!; [|done| |congruence].
  - rewrite K9, K8, Hs7, K6, K5, K4, K3, K2, K1, <- !app_assoc. done.
  - subst sh. unfold zlen in *. rewrite length_take. lia.
Qed.

(** Others have their turn before every call. *)
Definition download_run (tid source : str) (offset chunk window : Z) (chs : list choice) (s : Session)
  : trace * Session * option (result anyhow unit) :=
  run xexec (fun ch s => with_files s (env ch (files s)))
    (serve_pull tid source offset chunk window) chs s [].

Lemma download_outcome tid source offset chunk window chs s tr s' o :
  0 <= offset -> download_run tid source offset chunk window chs s = (tr, s', o) ->
  forall r, o = Some r -> pull_outcome tid offset chunk window s r s' tr.
Proof.
  intros Hoff Hrun.
  pose proof (wp_run xexec (fun ch s => with_files s (env ch (files s))) pull_rely (fun _ _ => True)
    _ _ chs s [] (Forall_true _ _ (fun ch s => eq_refl)) (wp_serve_pull tid source offset chunk window s [] Hoff)
    (Forall_nil_2 _)) as Hr.
  unfold download_run in Hrun. rewrite Hrun in Hr. apply Hr.
Qed.

(** C16: A download that succeeds has announced a size and a digest, sent the
    bytes from the requested offset to that size in order and without gaps,
    and then [Completed]; and some prefix of as many bytes as the offset,
    followed by the bytes sent, has the digest announced, even if others were
    writing to the source all along. *)
Theorem completed_download_is_verified (tid source : str) (offset chunk window : Z)
    (chs : list choice) (s : Session) tr s' :
  0 <= offset ->
  download_run tid source offset chunk window chs s = (tr, s', Some (Ok tt)) ->
  exists id size sha prefix ds,
    parse_transfer_id tid = Ok id /\
    sent s' = sent s ++ [FControl (PullReady chunk window size sha offset)] ++ map FData ds ++
              [FControl (Completed size sha)] /\
    contiguous id offset ds size /\ zlen prefix = offset /\
    hex_encode (sha256 (prefix ++ payloads ds)) = sha.
Proof.
  intros Hoff Hrun. destruct (download_outcome _ _ _ _ _ _ _ _ _ _ Hoff Hrun _ eq_refl) as (id & Hid & Hd).
  destruct Hd as (size & sha & prefix & ds & Hd). by exists id, size, sha, prefix, ds.
Qed.

(** A download ends, whatever the answers and the frames of the client; if
    it fails, it has not said that it is complete. *)
Theorem download_terminates (tid source : str) (offset chunk window : Z) (chs : nat -> choice) (s : Session) :
  0 <= offset ->
  exists n, forall m, (n <= m)%nat ->
    let '(tr, s', o) := download_run tid source offset chunk window (map chs (seq 0 m)) s in
    o = Some (Ok tt) \/ exists e, o = Some (Err e) /\ incomplete s s'.
Proof.
  intros Hoff.
  destruct (wp_ends xexec (fun ch s => with_files s (env ch (files s))) pull_rely (fun _ _ => True)
    _ _ s [] chs (fun _ _ => eq_refl) (wp_serve_pull tid source offset chunk window s [] Hoff)) as [n Hn].
  exists n. intros m Hm. destruct (Hn m Hm) as [r Hr]. unfold download_run in *.
  destruct (download_run tid source offset chunk window (map chs (seq 0 m)) s) as [[tr s'] o] eqn:E.
  unfold download_run in E. rewrite E in Hr |- *. simpl in Hr. subst o.
  destruct r as [[]|e]; [by left|right]. exists e. split; [done|].
  exact (download_outcome _ _ _ _ _ _ _ _ _ _ Hoff E _ eq_refl).
Qed.
End pull.

(** ** A run *)

Module PullRuns.
Import StandIn.

Definition id_bytes : bytes := replicate 16 x01.
Definition id : str := hex_encode id_bytes.
Definition body : bytes := rs "hello world".
Definition body_sha : str := hex_encode (sha256 body).
Definition control_table : list (Control * bytes) :=
  [(PullReady 4 8 11 body_sha 3, rs "{pull ready}"); (Ack 7 7 8, rs "{ack 7}");
   (Ack 11 11 8, rs "{ack 11}"); (Completed 11 body_sha, rs "{completed}")].
#[local] Instance control_json : Json Control := table_json control_table.
#[local] Instance strerror_text : Strerror := fun _ => rs "os error".

Definition control_bytes (c : Control) : bytes :=
  match write_control c with Ok bs => bs | Err _ => [] end.

(** A source "/d/f" that holds "hello world". *)
Definition source_world : World :=
  {| euid := 1000; umask := 18; device := 7; clock := 5; paths := {[ rs "/d/f" := 2 ]};
     inodes := {[ 2 := {| i_kind := KFile; i_uid := 1000; i_mode := 420; i_nlink := 1; i_mtime := 0;
                          i_data := body; i_stable := body; i_clean := true |} ]};
     next_ino := 10; dirs := ∅; handles := ∅; next_fd := 3 |}.
Definition acknowledging : Session :=
  {| files := source_world; incoming := control_bytes (Ack 7 7 8) ++ control_bytes (Ack 11 11 8);
     sent := [] |}.

(** The rest from byte 3 on, in chunks of 4. *)
Lemma completed_download_is_verified_witness :
  let '(tr, s', o) := download_run id (rs "/d/f") 3 4 8 (replicate 60 no_choice) acknowledging in
  o = Some (Ok tt) /\ length (sent s') = 4%nat /\
  exists i size sha prefix ds,
    parse_transfer_id id = Ok i /\
    sent s' = [FControl (PullReady 4 8 size sha 3)] ++ map FData ds ++ [FControl (Completed size sha)] /\
    contiguous i 3 ds size /\ zlen prefix = 3 /\
    hex_encode (sha256 (prefix ++ payloads ds)) = sha.
Proof.
  destruct (download_run id (rs "/d/f") 3 4 8 (replicate 60 no_choice) acknowledging)
    as [[tr s'] o] eqn:Hrun.
  assert (o = Some (Ok tt)) as ->.
  { change ((tr, s', o).2 = Some (Ok tt)). rewrite <- Hrun. by vm_compute. }
  split; [reflexivity|]. split.
  - change (length (sent (tr, s', Some (Ok tt) : option (result anyhow unit)).1.2) = 4%nat).
    rewrite <- Hrun. by vm_compute.
  - refine (completed_download_is_verified id (rs "/d/f") 3 4 8 (replicate 60 no_choice) acknowledging
      tr s' _ Hrun). lia.
Defined.

Lemma download_terminates_witness :
  exists n, forall m, (n <= m)%nat ->
    let '(tr, s', o) :=
      download_run id (rs "/d/f") 3 4 8 (map (fun _ => no_choice) (seq 0 m)) acknowledging in
    o = Some (Ok tt) \/ exists e, o = Some (Err e) /\ incomplete acknowledging s'.
Proof.
  apply (download_terminates id (rs "/d/f") 3 4 8 (fun _ => no_choice) acknowledging). lia.
Defined.
End PullRuns.
