(* ===== verification/Host.v ===== *)
(** * The host of the remote helper

    What crates/serctl_remote and the job store of crates/serctl_jobs ask of
    the system they run on: files ([Posix]), a few more file system calls,
    clocks, the channel from the thread that reads requests, the output relay,
    and one child process.  A [Host] is the state of all that; [exec] is one
    call on it and [others] what happens between two calls: other processes
    change files, and the relay's thread takes and writes frames.  A [choice]
    resolves what the caller does not control.

    Clocks: [Instant] is monotonic, in nanoseconds; the system clock is read
    in milliseconds and may move either way.  The calls that are not in
    [Posix] are answered by the choice: what they do to the file system is not
    described.  What the child prints is decided in advance, when it arrives
    is not. *)

From stdpp Require Import gmap.
From S2P Require Import Prelude.
From S2P Require Import Bytes.
From S2P Require Import Text.
From S2P Require Import RemoteProtocol.
From S2P Require Import RemoteSession.
From S2P Require Posix.
From S2P Require Import Program.
#[local] Open Scope string_scope.
#[local] Open Scope list_scope.
#[local] Open Scope Z_scope.

(** ** Channels and processes *)

(** What the thread that reads requests sends. *)
Inductive InputEvent :=
| InputFrame (e : Envelope)
| InputError (e : ProtocolError)
| InputClosed.

(** [mpsc::Receiver::try_recv]. *)
Inductive TryRecv := Received (e : InputEvent) | Empty | Disconnected.

Inductive StreamKind := OfStdout | OfStderr.
#[export] Instance StreamKind_eq_dec : EqDecision StreamKind.
Proof. solve_decision. Defined.

Inductive ChildEvent :=
| Chunk (kind : StreamKind) (data : bytes)
| Closed (kind : StreamKind)
| ReadFailed (kind : StreamKind).

(** A frame for the relay, and whether its fate is to be acknowledged. *)
Record OutputCommand := { oc_frame : Frame; oc_acknowledged : bool }.

(** [std::process::Command]: the environment starts out cleared, stdin is
    /dev/null, stdout and stderr are pipes. *)
Record Command := {
  cmd_program : str;
  cmd_args : list str;
  cmd_env : list (str * str);
  cmd_current_dir : option str;
}.

(** [std::process::ExitStatus] is the status of wait(2); [code] is the exit
    code of a process that exited. *)
Record ExitStatus := { wait_status : Z }.
Definition code (s : ExitStatus) : option Z :=
  if Z.land (wait_status s) 127 =? 0 then Some (Z.land (Z.shiftr (wait_status s) 8) 255)
  else None.

(** ** Calls *)

Inductive hcall :=
| Fs (c : Posix.call)
| ReadToString (p : str)
| Exists (p : str)
| CreateDir (recursive : bool) (mode : Z) (p : str)
| SetPathPermissions (p : str) (mode : Z)
| Canonicalize (p : str)
| PathIsDir (p : str)              (** [path.metadata()?.is_dir()] *)
| RandomJobId
| SystemTimeMs                     (** [None]: before the epoch *)
| InstantNow
| SpawnThread (name : string)
| RecvInput                        (** [None]: the sender is gone *)
| TryRecvInput
| TrySend (c : OutputCommand)
| RecvAck                          (** [recv_timeout] *)
| Spawn (c : Command)
| Kill
| TryWait
| TryRecvChild
| Sleep (ns : Z).

Definition hres (c : hcall) : Type :=
  match c with
  | Fs c => Posix.res c
  | ReadToString _ | Canonicalize _ => result Posix.errno str
  | Exists _ | TrySend _ => bool
  | CreateDir _ _ _ | SetPathPermissions _ _ | SpawnThread _ | Spawn _ | Kill =>
      result Posix.errno unit
  | PathIsDir _ => result Posix.errno bool
  | RandomJobId => bytes
  | SystemTimeMs => option N
  | InstantNow => Z
  | RecvInput => option InputEvent
  | TryRecvInput => TryRecv
  | RecvAck => option bool
  | TryWait => result Posix.errno (option ExitStatus)
  | TryRecvChild => option ChildEvent
  | Sleep _ => unit
  end.

Notation hprog := (prog hcall hres).
(** A fallible function of the helper. *)
Notation hio A := (hprog (result anyhow A)).

(** ** The output relay

    [OutputSink::with_writer]: a queue of at most eight frames and a thread
    that numbers and writes them.  [r_sent] are the frames [try_send] took. *)

Record Relay := {
  r_queue : list OutputCommand;
  r_writing : option OutputCommand;  (** taken from the queue, not yet written *)
  r_open : bool;                     (** the thread still receives *)
  r_sequence : Z;
  r_wire : bytes;                    (** written to stdout *)
  r_written : list Envelope;
  r_ack : option bool;
  r_sent : list Frame;
}.

Definition fresh_relay : Relay :=
  {| r_queue := []; r_writing := None; r_open := true; r_sequence := 0; r_wire := [];
     r_written := []; r_ack := None; r_sent := [] |}.

Definition QUEUE : Z := 8.

Definition try_send (c : OutputCommand) (r : Relay) : bool * Relay :=
  if r_open r && (zlen (r_queue r) <? QUEUE)
  then (true, {| r_queue := r_queue r ++ [c]; r_writing := r_writing r; r_open := true;
                 r_sequence := r_sequence r; r_wire := r_wire r; r_written := r_written r;
                 r_ack := r_ack r; r_sent := r_sent r ++ [oc_frame c] |})
  else (false, r).

(** The thread takes a frame, or is done writing one; [io] says whether
    stdout took it. *)
Inductive writer_step := Take | Finish (io : bool).

Definition acknowledge (c : OutputCommand) (succeeded : bool) (r : Relay) : option bool :=
  if oc_acknowledged c then Some succeeded else r_ack r.

Definition step_writer (a : writer_step) (r : Relay) : Relay :=
  match a, r_open r, r_writing r, r_queue r with
  | Take, true, None, c :: q =>
      {| r_queue := q; r_writing := Some c; r_open := true; r_sequence := r_sequence r;
         r_wire := r_wire r; r_written := r_written r; r_ack := r_ack r; r_sent := r_sent r |}
  | Finish io, true, Some c, q =>
      let e := {| sequence := r_sequence r; frame := oc_frame c |} in
      match (if io then write_frame_to (r_wire r) e else Err Io) with
      | Ok wire =>
          match checked_add U64_MAX (r_sequence r) 1 with
          | Some next =>
              {| r_queue := q; r_writing := None; r_open := true; r_sequence := next;
                 r_wire := wire; r_written := r_written r ++ [e];
                 r_ack := acknowledge c true r; r_sent := r_sent r |}
          | None =>
              {| r_queue := q; r_writing := None; r_open := false;
                 r_sequence := r_sequence r; r_wire := wire;
                 r_written := r_written r ++ [e]; r_ack := r_ack r; r_sent := r_sent r |}
          end
      | Err _ =>
          {| r_queue := q; r_writing := None; r_open := false; r_sequence := r_sequence r;
             r_wire := r_wire r; r_written := r_written r;
             r_ack := acknowledge c false r; r_sent := r_sent r |}
      end
  | _, _, _, _ => r
  end.

(** ** The host *)

Record Host := {
  h_files : Posix.World;
  h_incoming : list InputEvent;     (** sent by the reader, not yet received *)
  h_relay : Relay;
  h_stdout : list ChildEvent;       (** to come from the child *)
  h_stderr : list ChildEvent;
  h_spawned : option Command;
  h_instant : Z;
}.

Definition on_files (f : Posix.World -> Posix.World) (h : Host) : Host :=
  {| h_files := f (h_files h); h_incoming := h_incoming h; h_relay := h_relay h;
     h_stdout := h_stdout h; h_stderr := h_stderr h; h_spawned := h_spawned h;
     h_instant := h_instant h |}.
Definition on_relay (f : Relay -> Relay) (h : Host) : Host :=
  {| h_files := h_files h; h_incoming := h_incoming h; h_relay := f (h_relay h);
     h_stdout := h_stdout h; h_stderr := h_stderr h; h_spawned := h_spawned h;
     h_instant := h_instant h |}.
Definition with_incoming (l : list InputEvent) (h : Host) : Host :=
  {| h_files := h_files h; h_incoming := l; h_relay := h_relay h;
     h_stdout := h_stdout h; h_stderr := h_stderr h; h_spawned := h_spawned h;
     h_instant := h_instant h |}.
Definition with_child (out err : list ChildEvent) (h : Host) : Host :=
  {| h_files := h_files h; h_incoming := h_incoming h; h_relay := h_relay h;
     h_stdout := out; h_stderr := err; h_spawned := h_spawned h; h_instant := h_instant h |}.
Definition with_spawned (c : Command) (h : Host) : Host :=
  {| h_files := h_files h; h_incoming := h_incoming h; h_relay := h_relay h;
     h_stdout := h_stdout h; h_stderr := h_stderr h; h_spawned := Some c;
     h_instant := h_instant h |}.
Definition with_instant (i : Z) (h : Host) : Host :=
  {| h_files := h_files h; h_incoming := h_incoming h; h_relay := h_relay h;
     h_stdout := h_stdout h; h_stderr := h_stderr h; h_spawned := h_spawned h;
     h_instant := i |}.

(** What the caller does not control about one call. *)
Record choice := {
  ch_fs : Posix.choice;
  ch_writer : list writer_step;     (** what the relay's thread did before *)
  ch_fault : option Posix.errno;    (** the error of a call that fails *)
  ch_text : str -> str;             (** the content of a file, or the canonical path, by path *)
  ch_yes : bool;
  ch_random : bytes;
  ch_system : option N;
  ch_elapsed : N;                   (** nanoseconds since the last look *)
  ch_ready : bool;                  (** a request, or an acknowledgement, is there *)
  ch_event : bool;                  (** an event of the child is there *)
  ch_first : StreamKind;            (** the stream whose event is next *)
  ch_status : option ExitStatus;
}.

Definition quiet_choice : choice :=
  {| ch_fs := Posix.no_choice; ch_writer := [Take; Finish true]; ch_fault := None;
     ch_text := fun _ => []; ch_yes := true; ch_random := []; ch_system := Some 0%N; ch_elapsed := 0;
     ch_ready := true; ch_event := true; ch_first := OfStdout; ch_status := None |}.

Definition others (ch : choice) (h : Host) : Host :=
  on_relay (fun r => fold_left (fun r a => step_writer a r) (ch_writer ch) r)
    (on_files (Posix.env (ch_fs ch)) h).

(** A call that may fail, and answers [a] if it does not. *)
Definition answer {A} (ch : choice) (a : A) : result Posix.errno A :=
  match ch_fault ch with Some e => Err e | None => Ok a end.

(** The next event of the child, of the stream the choice prefers. *)
Definition next_child (first : StreamKind) (h : Host) : option ChildEvent * Host :=
  match first, h_stdout h, h_stderr h with
  | OfStdout, e :: out, err => (Some e, with_child out err h)
  | OfStderr, out, e :: err => (Some e, with_child out err h)
  | _, _, _ => (None, h)
  end.

Definition exec (c : hcall) (ch : choice) (h : Host) : hres c * Host :=
  match c with
  | Fs c => let (r, w) := Posix.exec c (ch_fs ch) (h_files h) in (r, on_files (fun _ => w) h)
  | ReadToString p | Canonicalize p => (answer ch (ch_text ch p), h)
  | Exists _ => (ch_yes ch, h)
  | CreateDir _ _ _ | SetPathPermissions _ _ | SpawnThread _ | Kill => (answer ch tt, h)
  | PathIsDir _ => (answer ch (ch_yes ch), h)
  | RandomJobId => (ch_random ch, h)
  | SystemTimeMs => (ch_system ch, h)
  | InstantNow =>
      let i := h_instant h + Z.of_N (ch_elapsed ch) in (i, with_instant i h)
  | RecvInput =>
      match h_incoming h with
      | e :: l => (Some e, with_incoming l h)
      | [] => (None, h)
      end
  | TryRecvInput =>
      if ch_ready ch then
        match h_incoming h with
        | e :: l => (Received e, with_incoming l h)
        | [] => (Disconnected, h)
        end
      else (Empty, h)
  | TrySend c => let (b, r) := try_send c (h_relay h) in (b, on_relay (fun _ => r) h)
  | RecvAck => (if ch_ready ch then r_ack (h_relay h) else None, h)
  | Spawn cmd =>
      match ch_fault ch with
      | Some e => (Err e, h)
      | None => (Ok tt, with_spawned cmd h)
      end
  | TryWait => (answer ch (ch_status ch), h)
  | TryRecvChild => if ch_event ch then next_child (ch_first ch) h else (None, h)
  | Sleep _ => (tt, h)
  end.

(** ** Shorthands *)

Section calls.
Context `{Posix.Strerror}.

(** An [std::io::Error] as an [anyhow::Error]. *)
Definition io_error (e : Posix.errno) : anyhow :=
  {| e_types := match e with Posix.ENOENT => [NotFound] | _ => [] end;
     e_chain := [Posix.strerror e] |}.

Definition sys (c : hcall) : hprog (hres c) := @Call hcall hres (hres c) c Ret.
(** A call whose error is converted by [?]. *)
Definition os {A} (p : hprog (result Posix.errno A)) : hio A := pmap_err io_error p.
Definition bail {A} (s : string) : hio A := Ret (Err (msg (rs s))).
Definition checked {A} (r : result string A) : hio A := Ret (map_err (fun s => msg (rs s)) r).
(** [.with_context(s)], and [.context(s)] on an option. *)
Definition within {A} (s : str) (p : hio A) : hio A := pmap_err (context s) p.
Definition some_or {A} (o : option A) (s : string) : hio A := Ret (ok_or o (msg (rs s))).
Definition ok {A} (a : A) : hio A := Ret (Ok a).
End calls.

(** Finding out what calls a program makes, from what is known of its parts. *)
Create HintDb calls discriminated.
Ltac calls_tac :=
  repeat (cbv zeta; match goal with
  | |- only _ (rpbind _ _) => apply only_rpbind; [|intros ?]
  | |- only _ (pbind _ _) => apply only_pbind; [|intros ?]
  | |- only _ (pmap_err _ _) => apply only_pmap_err
  | |- only _ (os _) => unfold os
  | |- only _ (within _ _) => unfold within
  | |- only _ (match ?x with _ => _ end) => destruct x
  | |- only _ (Ret _) => exact I
  | |- only _ (ok _) => exact I
  | |- only _ (bail _) => exact I
  | |- only _ (checked _) => exact I
  | |- only _ (some_or _ _) => exact I
  | |- only _ (sys _) => apply only_call; try done
  | |- only _ _ => solve [auto with calls]
  end).

(** What happens between two calls, when the outside is [okay] and the host
    is always [sound]. *)
Definition rely (okay : choice -> Prop) (sound : Host -> Prop) (h h' : Host) : Prop :=
  sound h' /\ exists ch, okay ch /\ h' = others ch h.

(** What holds in any company holds in better company. *)
Lemma wlp_company {A} (okay okay' : choice -> Prop) sound guar (p : hprog A) (Q : A -> Host -> Prop) h :
  (forall ch, okay' ch -> okay ch) ->
  wlp exec (rely okay sound) guar okay p Q h -> wlp exec (rely okay' sound) guar okay' p Q h.
Proof.
  intros Ho. revert h. induction p as [a| |c k IH]; intros h; [done|done|].
  intros Hp h1 ch (Hs & ch1 & Hch1 & E) Hch. destruct (Hp h1 ch) as [Hg Hk]; [|by apply Ho|].
  - split; [done|]. exists ch1. split; [by apply Ho|done].
  - split; [done|]. by apply IH.
Qed.

(** ** Lines and words, as [str::lines] and [split_ascii_whitespace] have them *)

Definition newline : byte := x0a.
Definition without_cr (l : str) : str := default l (strip_suffix [x0d] l).
Definition lines (s : str) : list str :=
  match rev (split_on newline s) with
  | last :: rest => map without_cr (rev rest) ++ (if is_empty last then [] else [last])
  | [] => []
  end.

Definition is_ascii_whitespace (b : byte) : bool :=
  matches_byte b [x20; x09; x0a; x0c; x0d].
Definition words (s : str) : list str :=
  filter (fun w => negb (is_empty w) = true)
    (split_on x20 (map (fun b => if is_ascii_whitespace b then x20 else b) s)).

Example lines_ex : lines (rs "a" ++ [newline] ++ rs "b" ++ [x0d; newline]) = [rs "a"; rs "b"].
Proof. reflexivity. Qed.
Example words_ex : words (rs " 1  2 ") = [rs "1"; rs "2"].
Proof. reflexivity. Qed.
