(* ===== verification/JobStore.v ===== *)
(** * serctl-jobs: the job store

    crates/serctl_jobs/src/lib.rs, JobStore on Linux: a directory with a
    journal and a receipt per job, as programs over the calls of [Host].  A
    path in the store is the root and a name.  [create_new_private] stages a
    file under a random name, syncs it, links it to its name, which must be
    free, and syncs the directory; [write_atomic_private] replaces a file. *)

From S2P Require Import Prelude.
From S2P Require Import Bytes.
From S2P Require Import Text.
From S2P Require Import Crates.
From S2P Require Import RemoteProtocol.
From S2P Require Import Jobs.
From S2P Require Import Posix.
From S2P Require Import Program.
From S2P Require Import Host.
#[local] Open Scope string_scope.
#[local] Open Scope list_scope.
#[local] Open Scope Z_scope.

Record JobStore := { root : str }.

(** Permission bits: 0o077, 0o600 and 0o700. *)
Definition GROUP_OTHER : Z := 63.
Definition OWNER_RW : Z := 384.
Definition OWNER_RWX : Z := 448.

Definition slash : byte := "/"%byte.
(** [path.display()] of the paths in use. *)
Definition display (p : path) : str :=
  match p with
  | Given s => s
  | ProcFd _ => []
  | Entry _ n => n
  | Under dir n => dir ++ slash :: n
  end.
(** [path.parent()] of a path in the store. *)
Definition parent_of (p : path) : option str :=
  match p with Under dir _ => Some dir | _ => None end.

(** [Path::components] has [.] only at the start of a relative path. *)
Definition has_traversal (p : str) : bool :=
  match split_on slash p with
  | first :: _ as pieces =>
      bool_decide (first = rs ".") || existsb (fun c => bool_decide (c = rs "..")) pieces
  | [] => false
  end.

Definition store_new (r : str) : result anyhow JobStore :=
  ensure! starts_with [slash] r or msg (rs "job store path must be absolute") ;;
  ensure! negb (has_traversal r) or msg (rs "job store path contains traversal components") ;;
  ensure! zlen r <=? 4096 or msg (rs "job store path is too long") ;;
  Ok {| root := r |}.

Definition journal_path (s : JobStore) (job : bytes) : path :=
  Under (root s) (hex_lower job ++ rs ".journal").
Definition receipt_path (s : JobStore) (job : bytes) : path :=
  Under (root s) (hex_lower job ++ rs ".receipt").

Definition dir_flags : OpenFlags := {| o_nofollow := false; o_directory := false |}.
Definition file_flags : OpenFlags := {| o_nofollow := true; o_directory := false |}.

Definition owner_matches_current (owner_uid effective_uid : Z) : bool :=
  owner_uid =? effective_uid.

Section store.
Context `{Strerror}.

Definition effective_uid : hio Z :=
  let? status := within (rs "read process identity")
    (os (sys (ReadToString (rs "/proc/self/status")))) in
  let? line := some_or (List.find (starts_with (rs "Uid:")) (lines status))
    "process UID is unavailable" in
  let? second := some_or (words (drop 4 line) !! 1%nat) "effective UID is unavailable" in
  some_or (parse_u32 second) "parse effective UID".

Definition fmt_path (a : string) (p : path) : str := rs a ++ display p.

(** ** Private files *)

Definition ensure_existing_private_regular (p : path) : hio unit :=
  let? metadata := within (fmt_path "inspect protected file " p)
    (os (sys (Fs (SymlinkMetadata p)))) in
  ensure? bool_decide (m_kind metadata = KFile)
    or msg (rs "protected path is not a regular file") ;;
  ensure? negb (bool_decide (m_kind metadata = KSymlink))
    or msg (rs "protected path is a symlink") ;;
  let? uid := effective_uid in
  ensure? owner_matches_current (m_uid metadata) uid
    or msg (rs "protected file owner mismatch") ;;
  ensure? Z.land (m_mode metadata) GROUP_OTHER =? 0
    or msg (rs "protected file grants group or other access") ;;
  ok tt.

(** [File::open(directory).and_then(|directory| directory.sync_all())]. *)
Definition sync_directory (dir : str) : hprog (result errno unit) :=
  let? directory := sys (Fs (Open (Given dir) dir_flags)) in
  sys (Fs (Sync directory)).

(** The staging file: four random names are tried. *)
Fixpoint open_temporary (attempts : nat) (parent : str) : hprog (option (result errno (path * Z))) :=
  match attempts with
  | O => Ret None
  | Datatypes.S attempts =>
      let# random := sys RandomJobId in
      let candidate := Under parent (rs ".serctl-create-" ++ hex_lower random) in
      let# opened := sys (Fs (CreateNew candidate OWNER_RW)) in
      match opened with
      | Ok file => Ret (Some (Ok (candidate, file)))
      | Err EEXIST => open_temporary attempts parent
      | Err error => Ret (Some (Err error))
      end
  end.

Definition create_new_private (p : path) (bytes : bytes) : hio unit :=
  let? parent := some_or (parent_of p) "protected file has no parent" in
  let# opened := open_temporary 4 parent in
  let? opened := within (fmt_path "create protected temporary for " p)
    (os (Ret match opened with
             | Some (Ok t) => Ok (Some t)
             | Some (Err e) => Err e
             | None => Ok None
             end)) in
  let? staging := some_or opened "exhausted protected temporary names" in
  let '(temporary, file) := staging in
  let# staged := (run? sys (Fs (WriteAll file bytes)) ;; sys (Fs (Sync file))) in
  match staged with
  | Err error =>
      let# _ := sys (Fs (RemoveFile temporary)) in
      Ret (Err (context (fmt_path "stage protected file " p) (io_error error)))
  | Ok _ =>
      let# linked := sys (Fs (HardLink temporary p)) in
      match linked with
      | Err error =>
          let# _ := sys (Fs (RemoveFile temporary)) in
          Ret (Err (context (fmt_path "publish protected file " p) (io_error error)))
      | Ok _ =>
          let? staged_metadata := os (sys (Fs (MetadataOf file))) in
          let? published_metadata := os (sys (Fs (SymlinkMetadata p))) in
          ensure? (m_dev staged_metadata =? m_dev published_metadata) &&
                  (m_ino staged_metadata =? m_ino published_metadata)
            or msg (rs "published protected file identity mismatch") ;;
          run? ensure_existing_private_regular p ;;
          run? within (fmt_path "sync protected parent for " p) (os (sync_directory parent)) ;;
          run? within (fmt_path "remove protected temporary for " p)
            (os (sys (Fs (RemoveFile temporary)))) ;;
          within (fmt_path "sync protected cleanup for " p) (os (sync_directory parent))
      end
  end.

Definition write_atomic_private (p : path) (bytes : bytes) : hio unit :=
  let? file := within (fmt_path "open atomic journal for " p) (os (sys (Fs (AtomicOpen p)))) in
  run? os (sys (Fs (SetPermissions file OWNER_RW))) ;;
  run? os (sys (Fs (WriteAll file bytes))) ;;
  run? within (fmt_path "commit atomic journal " p) (os (sys (Fs (AtomicCommit file p)))) ;;
  run? ensure_existing_private_regular p ;;
  let? parent := some_or (parent_of p) "journal has no parent" in
  within (fmt_path "sync journal parent for " p) (os (sync_directory parent)).

Definition read_private_bounded (p : path) (maximum : Z) : hio bytes :=
  let? file := within (fmt_path "open protected file " p)
    (os (sys (Fs (Open p file_flags)))) in
  let? metadata := os (sys (Fs (MetadataOf file))) in
  ensure? bool_decide (m_kind metadata = KFile)
    or msg (rs "protected path is not a regular file") ;;
  let? uid := effective_uid in
  ensure? owner_matches_current (m_uid metadata) uid
    or msg (rs "protected file owner mismatch") ;;
  ensure? Z.land (m_mode metadata) GROUP_OTHER =? 0
    or msg (rs "protected file grants group or other access") ;;
  ensure? m_len metadata <=? maximum or msg (rs "protected file is too large") ;;
  let? bytes := os (sys (Fs (ReadToEnd file (maximum + 1)))) in
  ensure? zlen bytes <=? maximum or msg (rs "protected file is too large") ;;
  ok bytes.

(** ** The store *)

Definition validate_root (s : JobStore) : hio unit :=
  let? metadata := within (rs "inspect job store " ++ root s)
    (os (sys (Fs (SymlinkMetadata (Given (root s)))))) in
  ensure? bool_decide (m_kind metadata = KDir) or msg (rs "job store is not a directory") ;;
  ensure? negb (bool_decide (m_kind metadata = KSymlink)) or msg (rs "job store is a symlink") ;;
  let? uid := effective_uid in
  ensure? owner_matches_current (m_uid metadata) uid or msg (rs "job store owner mismatch") ;;
  ensure? Z.land (m_mode metadata) GROUP_OTHER =? 0
    or msg (rs "job store grants group or other access") ;;
  ok tt.

Definition prepare_root (s : JobStore) : hio unit :=
  let# exists_ := sys (Exists (root s)) in
  run? (if exists_ then ok tt
        else within (rs "create job store " ++ root s)
               (os (sys (CreateDir true OWNER_RWX (root s))))) ;;
  run? validate_root s ;;
  run? within (rs "protect job store " ++ root s)
    (os (sys (SetPathPermissions (root s) OWNER_RWX))) ;;
  ok tt.

Context `{Hex, Json DiskJobRecord}.

Definition create_journal (s : JobStore) (record : JobRecord) : hio path :=
  run? prepare_root s ;;
  let p := journal_path s (job_id (identity record)) in
  let? journal := checked (encode_journal record) in
  run? create_new_private p journal ;;
  ok p.

Definition update_journal (s : JobStore) (record : JobRecord) : hio unit :=
  run? validate_root s ;;
  let p := journal_path s (job_id (identity record)) in
  run? ensure_existing_private_regular p ;;
  let? journal := checked (encode_journal record) in
  write_atomic_private p journal.

Definition load_journal (s : JobStore) (job : bytes) : hio JobRecord :=
  run? validate_root s ;;
  let? bytes := read_private_bounded (journal_path s job) MAX_JOURNAL_BYTES in
  let? record := checked (decode_journal bytes) in
  ensure? bool_decide (job_id (identity record) = job) or msg (rs "journal job mismatch") ;;
  ok record.

(** Receipts are immutable: an existing one is never overwritten. *)
Definition persist_receipt (s : JobStore) (receipt : AuthenticatedReceipt) : hio path :=
  run? prepare_root s ;;
  let p := receipt_path s (job_id (body_identity (body receipt))) in
  run? create_new_private p (receipt_encode receipt) ;;
  ok p.

Definition load_receipt (s : JobStore) (job : bytes) : hio bytes :=
  run? validate_root s ;;
  read_private_bounded (receipt_path s job) RECEIPT_BYTES.
End store.
