(* ===== verification/JobStoreTheory.v ===== *)
(** * The job store: a persisted receipt is durable

    [leaves_alone] is what the theorems assume of everybody else while a helper
    runs: directories stay where they are, inode numbers keep their kind, open
    files and the files under the receipt's name are not written, and that name
    is not taken away.  Other names are anybody's: other helpers create their
    journals, receipts and staging files in the same directory.

    [later] is what stays true from one moment to a later one.  [persist_kept]
    shows that [persist_receipt] leaves the receipt [persisted]: under its
    name, with its bytes, all on disk, in every state a crash can leave;
    [update_kept] that writing a journal does not change that. *)

From stdpp Require Import gmap.
From S2P Require Import Prelude.
From S2P Require Import Bytes.
From S2P Require Import Text.
From S2P Require Import Crates.
From S2P Require Import RemoteProtocol.
From S2P Require Import Jobs.
From S2P Require Import Posix.
From S2P Require Import PosixTheory.
From S2P Require Import Program.
From S2P Require Import Host.
From S2P Require Import JobStore.
#[local] Open Scope string_scope.
#[local] Open Scope list_scope.
#[local] Open Scope Z_scope.

(** ** Inode numbers keep their kind *)

Definition kinds (w w' : World) : Prop :=
  forall i x, inodes w !! i = Some x -> exists x', inodes w' !! i = Some x' /\ i_kind x' = i_kind x.
#[export] Instance kinds_preorder : PreOrder kinds.
Proof.
  split; [intros w i x Hx; eauto|]. intros a b c Hab Hbc i x Hx.
  destruct (Hab i x Hx) as (y & Hy & Ey). destruct (Hbc i y Hy) as (z & Hz & Ez).
  exists z. split; [done|congruence].
Qed.

Lemma kinds_inode i f w : (forall x, i_kind (f x) = i_kind x) -> kinds w (on_inode i f w).
Proof.
  intros Hf j x Hx. simpl. rewrite lookup_alter. case_decide; [subst|by eauto].
  rewrite Hx. eexists. by split; [done|].
Qed.
Lemma kinds_same w w' : inodes w' = inodes w -> kinds w w'.
Proof. intros E i x Hx. rewrite E. eauto. Qed.
Lemma kinds_alloc x w : bounded w -> kinds w (alloc x w).2.
Proof.
  intros Hb i y Hy. simpl. pose proof (bounded_inodes _ Hb i y Hy).
  rewrite lookup_insert_ne by lia. eauto.
Qed.

Ltac kept := by apply kinds_same.

Lemma kinds_file {A} fd w (f : Handle -> Inode -> result errno A * World) :
  (forall h x, kinds w (f h x).2) -> kinds w (with_file fd w f).2.
Proof.
  intros Hf. unfold with_file. destruct (handles w !! fd) as [h|]; [|kept].
  destruct (inodes w !! h_ino h); [done|kept].
Qed.

Lemma kinds_commit fd p w : kinds w (do_atomic_commit fd p w).2.
Proof.
  apply kinds_file. intros h x. destruct (place w p) as [[d n]|]; [|kept].
  destruct (dirs w !! d); [|kept]. simpl.
  destruct (entry w d n); (etransitivity; [|kept]).
  - etransitivity; by apply kinds_inode.
  - by apply kinds_inode.
Qed.

Lemma perform_kinds c a w : bounded w -> kinds w (perform c a w).2.
Proof.
  intros Hb. destruct c; simpl; try kept; try (apply kinds_file; intros; simpl; kept).
  - unfold do_open. destruct (resolve w p); [|kept]. destruct (inodes w !! z); [|kept].
    destruct (open_checks flags (i_kind i)); kept.
  - unfold do_create. destruct (place w p) as [[d n]|]; [|kept]. case_bool_decide; [kept|].
    destruct (dirs w !! d); [|kept]. etransitivity; [by apply (kinds_alloc (new_inode w mode 1))|].
    kept.
  - apply kinds_file. intros. by apply kinds_inode.
  - apply kinds_file. intros. simpl. etransitivity; [|kept]. by apply kinds_inode.
  - apply kinds_file. intros. by apply kinds_inode.
  - apply kinds_file. intros. simpl. destruct (i_kind x); first [kept|by apply kinds_inode].
  - unfold do_link. destruct (ino_of w fd); [|kept]. destruct (place w dst) as [[d n]|]; [|kept].
    destruct (inodes w !! z); [|kept]. destruct (dirs w !! d); [|kept]. case_bool_decide; [kept|].
    destruct (_ <=? _); [kept|]. simpl. etransitivity; [|kept]. by apply kinds_inode.
  - unfold do_link. destruct (resolve w src); [|kept]. destruct (place w dst) as [[d n]|]; [|kept].
    destruct (inodes w !! z); [|kept]. destruct (dirs w !! d); [|kept]. case_bool_decide; [kept|].
    destruct (_ <=? _); [kept|]. simpl. etransitivity; [|kept]. by apply kinds_inode.
  - unfold do_remove. destruct (place w p) as [[d n]|]; [|kept]. destruct (entry w d n); [|kept].
    case_bool_decide; [kept|]. simpl. etransitivity; [|kept]. by apply kinds_inode.
  - unfold do_atomic_open. destruct (place w p); [|kept].
    etransitivity; [by apply (kinds_alloc (new_inode w 438 0))|]. kept.
  - apply kinds_commit.
Qed.

Lemma exec_kinds c ch w : bounded w -> kinds w (Posix.exec c ch w).2.
Proof.
  intros Hb. unfold Posix.exec. destruct (fault ch) as [[code n]|]; [|by apply perform_kinds].
  destruct (failed c code); [|by apply perform_kinds]. destruct c; simpl; try kept.
  - apply (perform_kinds (WriteAll fd _) 0 w Hb).
  - destruct (n <=? 0); [kept|]. apply kinds_commit.
Qed.

(** ** The name of a receipt *)

Section name.
Context (n : str).

(** It is [i]'s in every state a crash can leave. *)
Definition durable (w : World) (d i : Z) : Prop :=
  exists x, dirs w !! d = Some x /\ forall m, m ∈ possible x -> m !! n = Some i.
(** An inode that is open, or has the name. *)
Definition held (w : World) (i : Z) : Prop :=
  (exists fd, ino_of w fd = Some i) \/ exists d, entry w d n = Some i.

(** From one moment to a later one; the inodes in [X] may be written. *)
Record later (X : Z -> Prop) (w w' : World) : Prop := {
  later_bounded : bounded w';
  later_paths : paths w' = paths w;
  later_device : device w' = device w;
  later_next : next_ino w <= next_ino w';
  later_kinds : kinds w w';
  later_ino fd i : ino_of w fd = Some i -> ino_of w' fd = Some i;
  later_keep i x : inodes w !! i = Some x -> held w i -> ~ X i ->
    exists x', inodes w' !! i = Some x' /\ keeps x x';
  later_entry d i : entry w d n = Some i -> entry w' d n = Some i;
  later_durable d i : durable w d i -> durable w' d i;
}.

(** What the others do between two calls. *)
Record leaves_alone (w w' : World) : Prop := {
  la_later : later (fun _ => False) w w';
  la_handles : handles w' = handles w;
}.

Lemma later_refl X w : bounded w -> later X w w.
Proof. intros Hb. split; try done. intros i x Hx _ _. exists x. split; [done|reflexivity]. Qed.

Lemma later_held X w w' i : later X w w' -> held w i -> held w' i.
Proof.
  intros He [[fd Hfd]|[d Hd]]; [left|right]; eexists; [by apply (later_ino _ _ _ He)|by apply (later_entry _ _ _ He)].
Qed.

Lemma later_trans X w1 w2 w3 : later X w1 w2 -> later X w2 w3 -> later X w1 w3.
Proof.
  intros H12 H23. split.
  - apply H23.
  - rewrite (later_paths _ _ _ H23). apply H12.
  - rewrite (later_device _ _ _ H23). apply H12.
  - pose proof (later_next _ _ _ H12). pose proof (later_next _ _ _ H23). lia.
  - etransitivity; [apply H12|apply H23].
  - intros fd i Hi. by apply (later_ino _ _ _ H23), (later_ino _ _ _ H12).
  - intros i x Hx Hh HX. destruct (later_keep _ _ _ H12 i x Hx Hh HX) as (y & Hy & Ky).
    destruct (later_keep _ _ _ H23 i y Hy (later_held _ _ _ _ H12 Hh) HX) as (z & Hz & Kz).
    exists z. split; [done|by transitivity y].
  - intros d i Hd. by apply (later_entry _ _ _ H23), (later_entry _ _ _ H12).
  - intros d i Hd. by apply (later_durable _ _ _ H23), (later_durable _ _ _ H12).
Qed.

Lemma later_mono (X Y : Z -> Prop) w w' : (forall i, X i -> Y i) -> later X w w' -> later Y w w'.
Proof. intros HXY []. split; try done. intros i x Hx Hh Hn. apply later_keep0; auto. Qed.

(** A call that does not touch the name where it is taken. *)
Lemma later_changes X touched written w w' :
  changes touched written w w' -> kinds w w' -> bounded w ->
  (forall d, touched = Some (d, n) -> entry w d n = None) ->
  (forall i, written = Some i -> X i) -> later X w w'.
Proof.
  intros Hch Hk Hb Ht HX. destruct (ch_const _ _ _ _ Hch) as (_ & Hd & _ & Hp).
  pose proof (ch_next _ _ _ _ Hch).
  assert (forall d i, entry w d n = Some i -> touched <> Some (d, n)) as Hne.
  { intros d i Hi E. specialize (Ht d E). congruence. }
  split; try done; try lia.
  - by eapply changes_bounded.
  - intros fd i. by eapply changes_ino_of.
  - intros i x Hx _ Hn. apply (ch_inodes _ _ _ _ Hch); [done|by eapply bounded_inodes|auto].
  - intros d i Hi. rewrite (ch_entry _ _ _ _ Hch); [done|by eapply Hne].
  - intros d i (x & Hx & Hm). assert (entry w d n = Some i) as He.
    { unfold entry. rewrite Hx. simpl. apply Hm. by left. }
    pose proof (ch_dirs _ _ _ _ Hch d) as Hdir. rewrite Hx in Hdir.
    destruct (dirs w' !! d) as [y|] eqn:Hy; [|done]. exists y. split; [done|].
    intros m [->|Hin]%elem_of_cons.
    + assert (entry w' d n = Some i) as He' by (rewrite (ch_entry _ _ _ _ Hch); [done|by eapply Hne]).
      unfold entry in He'. by rewrite Hy in He'.
    + destruct (Hdir m n Hin (Hne d i He)) as (m0 & Hm0 & ->). by apply Hm.
Qed.

(** Linking never replaces the name. *)
Lemma later_link X j dst w : bounded w -> kinds w (do_link j dst w).2 -> later X w (do_link j dst w).2.
Proof.
  intros Hb Hk. destruct (place w dst) as [[d m]|] eqn:Hp.
  - destruct (entry w d m) as [i|] eqn:He.
    + replace (do_link j dst w).2 with w; [by apply later_refl|]. unfold do_link. rewrite Hp.
      destruct j as [j|]; [|done]. destruct (inodes w !! j); [|done]. destruct (dirs w !! d); [|done].
      by rewrite bool_decide_true by (rewrite He; eauto).
    + eapply later_changes; [apply link_changes|done|done| |done]. rewrite Hp. by intros d' [= <- <-].
  - eapply later_changes; [apply link_changes|done|done| |done]. by rewrite Hp.
Qed.

(** The calls of the store but for its writes: those that change names take
    another name. *)
Definition other_name (p : path) : Prop :=
  match p with Under _ m => m <> n | _ => False end.
Definition tame_call (c : hcall) : Prop :=
  match c with
  | Fs (CreateNew p _) | Fs (RemoveFile p) | Fs (AtomicCommit _ p) => other_name p
  | Fs (WriteAll _ _) | Fs (SetLen _ _) | Fs (Link _ _) => False
  | _ => True
  end.

Lemma place_other p w d m : other_name p -> place w p = Some (d, m) -> m <> n.
Proof.
  destruct p as [|fd|fd m'|dir m']; simpl; try done. intros Hn Hp.
  apply fmap_Some in Hp as (x & _ & E). injection E as -> ->. done.
Qed.

(** A file system call. *)
Lemma later_fs X c ch w : bounded w -> tame_call (Fs c) -> later X w (Posix.exec c ch w).2.
Proof.
  intros Hb Ht. pose proof (exec_kinds c ch w Hb) as Hk. pose proof (exec_changes c ch w) as Hch.
  destruct c; try done; try (eapply later_changes; [exact Hch|done|done| |done]; done);
    try (eapply later_changes; [exact Hch|done|done| |done]; simpl; intros d Hd;
         by apply (place_other _ _ _ _ Ht) in Hd).
  revert Hk. unfold Posix.exec. destruct (fault ch) as [[code k]|]; simpl.
  - intros _. by apply later_refl.
  - by apply later_link.
Qed.
Lemma later_exec X c ch h : bounded (h_files h) -> tame_call c ->
  later X (h_files h) (h_files (Host.exec c ch h).2).
Proof.
  intros Hb Ht. destruct c; simpl; try by apply later_refl.
  - pose proof (later_fs X c (ch_fs ch) (h_files h) Hb Ht). by destruct (Posix.exec c _ _).
  - destruct (h_incoming h); by apply later_refl.
  - destruct (ch_ready ch); [|by apply later_refl]. destruct (h_incoming h); by apply later_refl.
  - destruct (try_send c (h_relay h)). by apply later_refl.
  - destruct (ch_fault ch); by apply later_refl.
  - destruct (ch_event ch); [|by apply later_refl]. unfold next_child.
    destruct (ch_first ch), (h_stdout h), (h_stderr h); by apply later_refl.
Qed.

(** ** Programs of the store *)

Definition respectful (ch : choice) : Prop :=
  forall w, bounded w -> leaves_alone w (Posix.env (ch_fs ch) w).
Definition sound (h : Host) : Prop := bounded (h_files h).
Notation swlp := (wlp Host.exec (rely respectful sound) (fun _ _ => True) respectful).
Notation tame := (only tame_call).

Lemma rely_later X h h' : bounded (h_files h) -> rely respectful sound h h' ->
  later X (h_files h) (h_files h') /\ handles (h_files h') = handles (h_files h).
Proof.
  intros Hb (Hs & ch & Hch & ->). destruct (Hch _ Hb) as [He Hh]. split; [|done].
  simpl. eapply later_mono; [|exact He]. done.
Qed.

Lemma wlp_tame {A} (p : hprog A) X w0 h : tame p -> later X w0 (h_files h) ->
  swlp p (fun _ h' => later X w0 (h_files h')) h.
Proof.
  revert h. induction p as [a| |c k IH]; intros h; simpl; [done|done|].
  intros [Hc Hk] He h1 ch Hr _. destruct (rely_later X h h1) as [He1 _]; [apply He|done|].
  split; [done|]. apply IH; [done|]. eapply later_trans; [by eapply later_trans|].
  apply later_exec; [apply He1|done].
Qed.

Lemma sound_others ch h : respectful ch -> sound h -> sound (others ch h).
Proof. intros Hch Hs. apply (Hch _ Hs). Qed.
Lemma sound_exec c ch h : sound h -> sound (Host.exec c ch h).2.
Proof.
  unfold sound. intros Hs. destruct c; simpl; try done.
  - pose proof (changes_bounded _ _ _ _ (exec_changes c (ch_fs ch) (h_files h)) Hs) as Hb.
    by destruct (Posix.exec c _ _).
  - by destruct (h_incoming h).
  - destruct (ch_ready ch); [|done]. by destruct (h_incoming h).
  - by destruct (try_send c (h_relay h)).
  - by destruct (ch_fault ch).
  - destruct (ch_event ch); [|done]. unfold next_child.
    by destruct (ch_first ch), (h_stdout h), (h_stderr h).
Qed.

(** A first part that is tame, then the rest. *)
Lemma wlp_tame_try {A B} (p : hio A) (k : A -> hio B) (Q : result anyhow B -> Host -> Prop) X w0 h :
  tame p -> later X w0 (h_files h) ->
  (forall e h', later X w0 (h_files h') -> Q (Err e) h') ->
  (forall a h', later X w0 (h_files h') -> swlp (k a) Q h') -> swlp (rpbind p k) Q h.
Proof.
  intros Hp He Herr Hk. apply wlp_rpbind. eapply wlp_mono; [by apply (wlp_tame p X w0)|].
  intros [a|e] h' He'; [by apply Hk|by apply Herr].
Qed.

Section programs.
Context `{Strerror} `{Hex, !Json DiskJobRecord}.

Lemma tame_uid : tame effective_uid.
Proof. unfold effective_uid. calls_tac. Qed.
Hint Resolve tame_uid : calls.
Lemma tame_existing p : tame (ensure_existing_private_regular p).
Proof. unfold ensure_existing_private_regular. calls_tac. Qed.
Lemma tame_sync_directory d : tame (sync_directory d).
Proof. unfold sync_directory. calls_tac. Qed.
Lemma tame_validate_root s : tame (validate_root s).
Proof. unfold validate_root. calls_tac. Qed.
Hint Resolve tame_existing tame_sync_directory tame_validate_root : calls.
Lemma tame_prepare_root s : tame (prepare_root s).
Proof. unfold prepare_root. calls_tac. Qed.

(** A receipt (or another file) that is there to stay. *)
Definition persisted (w : World) (dir : str) (bs : bytes) : Prop :=
  exists d i x, paths w !! dir = Some d /\ durable w d i /\ inodes w !! i = Some x /\
    i_data x = bs /\ i_clean x = true.

Lemma persisted_later w w' dir bs : bounded w ->
  later (fun i => next_ino w <= i) w w' -> persisted w dir bs -> persisted w' dir bs.
Proof.
  intros Hb He (d & i & x & Hp & Hd & Hx & Ebs & Hc).
  assert (entry w d n = Some i) as Hentry.
  { destruct Hd as (y & Hy & Hm). unfold entry. rewrite Hy. apply Hm. by left. }
  destruct (later_keep _ _ _ He i x Hx) as (x' & Hx' & [_ Hdata Hclean]).
  { right. eauto. }
  { pose proof (bounded_inodes _ Hb i x Hx). lia. }
  exists d, i, x'. rewrite (later_paths _ _ _ He). split_and!; [done|by apply (later_durable _ _ _ He)|done|..].
  - congruence.
  - auto.
Qed.

(** A file just created is a new inode. *)
Lemma atomic_open_new p ch w fd : (Posix.exec (AtomicOpen p) ch w).1 = Ok fd ->
  ino_of (Posix.exec (AtomicOpen p) ch w).2 fd = Some (next_ino w).
Proof.
  unfold Posix.exec. destruct (fault ch) as [[code k]|]; simpl; [done|].
  unfold do_atomic_open. destruct (place w p); [|done]. simpl. intros [= <-].
  unfold ino_of. simpl. by rewrite lookup_insert_eq.
Qed.

(** Writing to such a file. *)
Lemma write_later X fd bs j ch w : bounded w -> ino_of w fd = Some j -> X j ->
  later X w (Posix.exec (WriteAll fd bs) ch w).2.
Proof.
  intros Hb Hj Hx. eapply later_changes; [apply exec_changes|by apply exec_kinds|done|done|].
  simpl. intros i. rewrite Hj. by intros [= <-].
Qed.

(** Writing another file atomically. *)
Lemma write_atomic_later p bs w0 h : other_name p -> bounded w0 ->
  later (fun i => next_ino w0 <= i) w0 (h_files h) ->
  swlp (write_atomic_private p bs) (fun _ h' => later (fun i => next_ino w0 <= i) w0 (h_files h')) h.
Proof.
  intros Hp Hb He. set (X := fun i => next_ino w0 <= i) in *. unfold write_atomic_private.
  apply wlp_rpbind. do 2 apply wlp_pmap_err.
  intros h1 ch Hr _. split; [done|].
  destruct (rely_later X h h1) as [He1 _]; [apply He|done|].
  assert (later X w0 (h_files h1)) as He01 by by eapply later_trans.
  pose proof (later_exec X (Fs (AtomicOpen p)) ch h1 (later_bounded _ _ _ He01) I) as He2.
  pose proof (later_trans _ _ _ _ He01 He2) as He02. simpl in *.
  pose proof (atomic_open_new p (ch_fs ch) (h_files h1)) as Hnew.
  destruct (Posix.exec (AtomicOpen p) (ch_fs ch) (h_files h1)) as [r w2] eqn:E. simpl in *.
  destruct r as [fd|e]; [|done]. specialize (Hnew fd eq_refl).
  set (h2 := on_files (fun _ => w2) h1). change w2 with (h_files h2) in Hnew, He02.
  assert (X (next_ino (h_files h1))) as HX by apply (later_next _ _ _ He01).
  (* permissions *)
  eapply (wlp_tame_try _ _ _ X (h_files h2)); [calls_tac|apply later_refl, He02| |].
  { intros _ h3 He3. by eapply later_trans. }
  intros _ h3 He3. pose proof (later_trans _ _ _ _ He02 He3) as He03.
  apply (later_ino _ _ _ He3) in Hnew.
  (* the bytes *)
  apply wlp_rpbind, wlp_pmap_err. intros h4 ch4 Hr4 _. split; [done|].
  destruct (rely_later X h3 h4) as [He4 _]; [apply He03|done|].
  pose proof (later_trans _ _ _ _ He03 He4) as He04. apply (later_ino _ _ _ He4) in Hnew.
  pose proof (write_later X fd bs _ (ch_fs ch4) _ (later_bounded _ _ _ He04) Hnew HX) as He5. simpl.
  destruct (Posix.exec (WriteAll fd bs) (ch_fs ch4) (h_files h4)) as [r5 w5]. simpl in *.
  pose proof (later_trans _ _ _ _ He04 He5) as He05.
  destruct r5 as [[]|e]; [|exact He05].
  apply wlp_tame; [|exact He05]. pose proof tame_existing. pose proof tame_sync_directory. calls_tac.
Qed.

(** The journal of a job has another name than any receipt. *)
Lemma update_journal_later s j w0 h : other_name (journal_path s (job_id (identity j))) -> bounded w0 ->
  later (fun i => next_ino w0 <= i) w0 (h_files h) ->
  swlp (update_journal s j) (fun _ h' => later (fun i => next_ino w0 <= i) w0 (h_files h')) h.
Proof.
  intros Hn Hb He. unfold update_journal.
  eapply wlp_tame_try; [apply tame_validate_root|exact He|done|]. intros _ h1 He1.
  eapply wlp_tame_try; [apply tame_existing|exact He1|done|]. intros _ h2 He2.
  apply wlp_pure; [|done]. intros bs _. by apply write_atomic_later.
Qed.

(** ** What a call did that succeeded *)

Lemma create_ok p mode ch w fd : (Posix.exec (CreateNew p mode) ch w).1 = Ok fd ->
  let w' := (Posix.exec (CreateNew p mode) ch w).2 in
  handles w' !! fd = Some {| h_ino := next_ino w; h_pos := 0 |} /\
  inodes w' !! next_ino w = Some (new_inode w mode 1).
Proof.
  unfold Posix.exec. destruct (fault ch) as [[code k]|]; simpl; [done|].
  unfold do_create. destruct (place w p) as [[d m]|]; [|done]. case_bool_decide; [done|].
  destruct (dirs w !! d); [|done]. simpl. intros [= <-]. by rewrite !lookup_insert_eq.
Qed.

Lemma write_ok fd bs ch w j x :
  handles w !! fd = Some {| h_ino := j; h_pos := 0 |} -> inodes w !! j = Some x -> i_data x = [] ->
  (Posix.exec (WriteAll fd bs) ch w).1 = Ok tt ->
  let w' := (Posix.exec (WriteAll fd bs) ch w).2 in
  ino_of w' fd = Some j /\
  exists y, inodes w' !! j = Some y /\ i_data y = bs /\ i_kind y = i_kind x.
Proof.
  intros Hfd Hx He. unfold Posix.exec. destruct (fault ch) as [[code k]|]; simpl; [done|].
  intros _. unfold do_write, with_file. rewrite Hfd. simpl. rewrite Hx. simpl. split.
  - unfold ino_of. simpl. by rewrite lookup_alter_eq, Hfd.
  - rewrite lookup_alter_eq, Hx. eexists. split; [done|]. simpl. rewrite He. split; [|done].
    unfold splice. rewrite take_nil, drop_nil. simpl. by rewrite app_nil_r.
Qed.

Lemma sync_ok fd ch w i x :
  ino_of w fd = Some i -> inodes w !! i = Some x ->
  (Posix.exec (Sync fd) ch w).1 = Ok tt ->
  (Posix.exec (Sync fd) ch w).2 = match i_kind x with
                                  | KDir => sync_dir i w
                                  | _ => on_inode i synced w
                                  end.
Proof.
  intros Hfd Hx. unfold Posix.exec. destruct (fault ch) as [[code k]|]; simpl; [done|].
  unfold ino_of in Hfd. unfold do_sync, with_file.
  destruct (handles w !! fd) as [h|]; [|done]. injection Hfd as ->. by rewrite Hx.
Qed.

Lemma sync_dir_durable w d i : entry w d n = Some i -> durable (sync_dir d w) d i.
Proof.
  unfold entry. intros He. destruct (dirs w !! d) as [y|] eqn:Hy; [|done].
  eexists. simpl. rewrite lookup_alter_eq, Hy. split; [done|].
  intros m Hm. by apply list_elem_of_singleton in Hm as ->.
Qed.

Lemma open_ok p flags ch w fd : (Posix.exec (Open p flags) ch w).1 = Ok fd ->
  ino_of (Posix.exec (Open p flags) ch w).2 fd = resolve w p.
Proof.
  unfold Posix.exec. destruct (fault ch) as [[code k]|]; simpl; [done|].
  unfold do_open. destruct (resolve w p) as [i|]; [|done]. destruct (inodes w !! i); [|done].
  destruct (open_checks _ _); [|done]. simpl. intros [= <-]. unfold ino_of. simpl.
  by rewrite lookup_insert_eq.
Qed.

Lemma metadata_ok fd ch w m : (Posix.exec (MetadataOf fd) ch w).1 = Ok m ->
  ino_of w fd = Some (m_ino m).
Proof.
  unfold Posix.exec. destruct (fault ch) as [[code k]|]; simpl; [done|].
  unfold with_file, ino_of. destruct (handles w !! fd) as [h|]; [|done].
  destruct (inodes w !! h_ino h); [|done]. by intros [= <-].
Qed.

Lemma symlink_metadata_ok p ch w m : (Posix.exec (SymlinkMetadata p) ch w).1 = Ok m ->
  exists x, resolve w p = Some (m_ino m) /\ inodes w !! m_ino m = Some x /\ m_kind m = i_kind x.
Proof.
  unfold Posix.exec. destruct (fault ch) as [[code k]|]; simpl; [done|].
  destruct (resolve w p) as [i|]; [|done]. simpl. destruct (inodes w !! i) as [x|] eqn:E; [|done].
  intros [= <-]. eauto.
Qed.

(** ** Publishing the receipt *)

Definition is_dir (w : World) (dir : str) (d : Z) : Prop :=
  paths w !! dir = Some d /\ exists x, inodes w !! d = Some x /\ i_kind x = KDir.

Lemma is_dir_later X w w' dir d : later X w w' -> is_dir w dir d -> is_dir w' dir d.
Proof.
  intros He (Hp & x & Hx & Hk). split; [by rewrite (later_paths _ _ _ He)|].
  destruct (later_kinds _ _ _ He d x Hx) as (y & Hy & E). exists y. split; [done|congruence].
Qed.

(** One call on the file system, and what others did before. *)
Lemma wlp_fs (c : call) (Q : res c -> Host -> Prop) h : bounded (h_files h) ->
  (forall h1 ch, later (fun _ => False) (h_files h) (h_files h1) ->
     handles (h_files h1) = handles (h_files h) ->
     let r := Posix.exec c ch (h_files h1) in Q r.1 (on_files (fun _ => r.2) h1)) ->
  swlp (sys (Fs c)) Q h.
Proof.
  intros Hb HQ h1 ch Hr _. split; [done|]. destruct (rely_later (fun _ => False) h h1 Hb Hr) as [He Eh].
  specialize (HQ h1 (ch_fs ch) He Eh). simpl in *. by destruct (Posix.exec c _ _).
Qed.

Notation quiet := (fun _ : Z => False).

Lemma later_weaken X w w' : later quiet w w' -> later X w w'.
Proof. by apply later_mono. Qed.

Lemma wlp_validate_root s X w0 h : later X w0 (h_files h) ->
  swlp (validate_root s) (fun r h' => later X w0 (h_files h') /\
    (is_ok r = true -> exists d, is_dir (h_files h') (root s) d)) h.
Proof.
  intros He. unfold validate_root. apply wlp_rpbind. do 2 apply wlp_pmap_err.
  apply wlp_fs; [apply He|]. intros h1 ch He1 _. cbv zeta.
  assert (later X w0 (Posix.exec (SymlinkMetadata (Given (root s))) ch (h_files h1)).2) as He2.
  { eapply later_trans; [eapply later_trans; [exact He|by apply later_weaken]|].
    apply later_fs; [apply He1|done]. }
  pose proof (symlink_metadata_ok (Given (root s)) ch (h_files h1)) as Hm.
  assert ((Posix.exec (SymlinkMetadata (Given (root s))) ch (h_files h1)).2 = h_files h1) as Ew.
  { unfold Posix.exec. by destruct (fault ch) as [[]|]. }
  destruct (Posix.exec (SymlinkMetadata _) ch _) as [r w2]. simpl in *. subst w2.
  destruct r as [m|e]; [|done]. destruct (Hm m eq_refl) as (x & Hr & Hx & Hk). simpl in *.
  case_bool_decide as Hd; [|by split].
  eapply wlp_mono; [apply (wlp_tame _ quiet (h_files h1)); [|by apply later_refl, He2]|].
  { simpl. pose proof tame_uid. calls_tac. }
  intros r h2 Hh2. split; [eapply later_trans; [exact He2|by apply later_weaken]|].
  intros _. exists (m_ino m). eapply is_dir_later; [exact Hh2|]. split; [done|]. exists x.
  split; [done|congruence].
Qed.

Lemma wlp_prepare_root s X w0 h : later X w0 (h_files h) ->
  swlp (prepare_root s) (fun r h' => later X w0 (h_files h') /\
    (is_ok r = true -> exists d, is_dir (h_files h') (root s) d)) h.
Proof.
  intros He. unfold prepare_root. apply wlp_pbind.
  eapply wlp_mono; [apply (wlp_tame _ X w0); [by apply only_call|exact He]|]. intros there h1 He1.
  eapply wlp_tame_try; [calls_tac|exact He1|done|]. intros _ h2 He2.
  apply wlp_rpbind. eapply wlp_mono; [apply (wlp_validate_root s X w0), He2|].
  intros [[]|e] h3 [He3 Hd]; [|done]. destruct (Hd eq_refl) as [d Hd3].
  eapply wlp_mono; [apply (wlp_tame _ quiet (h_files h3)); [calls_tac|by apply later_refl, He3]|].
  intros r h4 He4. split; [eapply later_trans; [exact He3|by apply later_weaken]|].
  intros _. exists d. eapply is_dir_later; [exact He4|done].
Qed.

(** Syncing the directory of a name makes it durable. *)
Lemma wlp_sync_directory dir d i h : bounded (h_files h) ->
  is_dir (h_files h) dir d -> entry (h_files h) d n = Some i ->
  swlp (sync_directory dir) (fun r h' => later quiet (h_files h) (h_files h') /\
    (is_ok r = true -> durable (h_files h') d i)) h.
Proof.
  intros Hb Hd Hi. unfold sync_directory. apply wlp_rpbind.
  apply wlp_fs; [done|]. intros h1 ch He1 _. cbv zeta.
  pose proof (later_fs quiet (Open (Given dir) dir_flags) ch _ (later_bounded _ _ _ He1) I) as He2.
  pose proof (open_ok (Given dir) dir_flags ch (h_files h1)) as Ho.
  destruct (Posix.exec (Open _ _) ch (h_files h1)) as [r w2]. simpl in *.
  pose proof (later_trans _ _ _ _ He1 He2) as He02.
  destruct r as [fd|e]; [|done]. specialize (Ho fd eq_refl).
  rewrite (later_paths _ _ _ He1), (proj1 Hd) in Ho.
  apply wlp_fs; [apply He02|]. intros h3 ch3 He3 Eh3. cbv zeta. simpl in He3.
  pose proof (later_trans _ _ _ _ He02 He3) as He03.
  pose proof (later_fs quiet (Sync fd) ch3 _ (later_bounded _ _ _ He03) I) as He4.
  split; [by eapply later_trans|]. intros Hok.
  destruct (is_dir_later _ _ _ _ _ He03 Hd) as (_ & x & Hx & Hk).
  pose proof (later_ino _ _ _ He3 _ _ Ho) as Ho3.
  pose proof (sync_ok fd ch3 (h_files h3) d x Ho3 Hx) as Hs.
  destruct (Posix.exec (Sync fd) ch3 (h_files h3)) as [[[]|e] w4]; [|done]. simpl in *.
  rewrite (Hs eq_refl), Hk. apply sync_dir_durable. by apply (later_entry _ _ _ He03).
Qed.

(** A new file, empty and open for writing. *)
Record blank (w0 w : World) (fd j : Z) : Prop := {
  blank_handle : handles w !! fd = Some {| h_ino := j; h_pos := 0 |};
  blank_inode : exists x, inodes w !! j = Some x /\ i_data x = [] /\ i_kind x = KFile;
  blank_new : next_ino w0 <= j;
}.

Lemma blank_others w0 w w' fd j : later quiet w w' -> handles w' = handles w ->
  blank w0 w fd j -> blank w0 w' fd j.
Proof.
  intros He Eh [Hh (x & Hx & Hd & Hk) Hn]. split; [by rewrite Eh| |done].
  destruct (later_keep _ _ _ He j x Hx) as (y & Hy & [Ek Ed _]); [|by intros []|].
  { left. exists fd. unfold ino_of. by rewrite Hh. }
  exists y. split_and!; [done|congruence|congruence].
Qed.

Context (n_staging : forall r, n <> rs ".serctl-create-" ++ hex_lower r).

Lemma wlp_open_temporary attempts parent X w0 h : later X w0 (h_files h) ->
  swlp (open_temporary attempts parent) (fun o h' => later X w0 (h_files h') /\
    (forall p fd, o = Some (Ok (p, fd)) -> other_name p /\ exists j, blank w0 (h_files h') fd j)) h.
Proof.
  revert h. induction attempts as [|k IH]; intros h He; cbn [open_temporary]; [done|].
  apply wlp_pbind. eapply wlp_mono; [apply (wlp_tame _ X w0); [by apply only_call|exact He]|].
  intros random h1 He01. cbv zeta.
  set (candidate := Under parent _). apply wlp_pbind.
  apply wlp_fs; [apply He01|]. intros h2 ch2 He2 _. cbv zeta.
  assert (later X w0 (h_files h2)) as He02 by (eapply later_trans; [exact He01|by apply later_weaken]).
  assert (other_name candidate) as Hother by (intros E; by apply (n_staging random)).
  pose proof (later_fs X (CreateNew candidate OWNER_RW) ch2 _ (later_bounded _ _ _ He02) Hother) as He3.
  pose proof (create_ok candidate OWNER_RW ch2 (h_files h2)) as Hc.
  destruct (Posix.exec (CreateNew _ _) ch2 (h_files h2)) as [r w3]. simpl in *.
  pose proof (later_trans _ _ _ _ He02 He3) as He03.
  destruct r as [fd|[]]; simpl; try (split; [exact He03|done]); [|by apply IH].
  split; [exact He03|]. intros p fd' [= <- <-]. split; [done|].
  destruct (Hc fd eq_refl) as [Hh Hi]. exists (next_ino (h_files h2)). split; [done| |].
  - eexists. split; [exact Hi|done].
  - apply (later_next _ _ _ He02).
Qed.

(** All the bytes of the file are on disk. *)
Definition staged (w : World) (fd j : Z) (bs : bytes) : Prop :=
  ino_of w fd = Some j /\ exists x, inodes w !! j = Some x /\ i_data x = bs /\ i_clean x = true.

Lemma staged_later w w' fd j bs : later quiet w w' -> staged w fd j bs -> staged w' fd j bs.
Proof.
  intros He (Hfd & x & Hx & Hd & Hc). split; [by apply (later_ino _ _ _ He)|].
  destruct (later_keep _ _ _ He j x Hx) as (y & Hy & [_ Ed Ec]); [by left; exists fd|by intros []|].
  exists y. split_and!; [done|congruence|auto].
Qed.

Lemma wlp_stage w0 fd j bs h : later (fun i => next_ino w0 <= i) w0 (h_files h) ->
  blank w0 (h_files h) fd j ->
  swlp (run? sys (Fs (WriteAll fd bs)) ;; sys (Fs (Sync fd)))
    (fun r h' => later (fun i => next_ino w0 <= i) w0 (h_files h') /\
       (is_ok r = true -> staged (h_files h') fd j bs)) h.
Proof.
  set (X := fun i => next_ino w0 <= i). intros He Hbl. apply wlp_rpbind.
  apply wlp_fs; [apply He|]. intros h1 ch He1 Eh1. cbv zeta.
  destruct (blank_others _ _ _ _ _ He1 Eh1 Hbl) as [Hh (x & Hx & Hd & Hk) Hn].
  assert (later X w0 (h_files h1)) as He01 by (eapply later_trans; [exact He|by apply later_weaken]).
  assert (ino_of (h_files h1) fd = Some j) as Hino by (unfold ino_of; by rewrite Hh).
  pose proof (write_later X fd bs j ch _ (later_bounded _ _ _ He01) Hino Hn) as He2.
  pose proof (write_ok fd bs ch (h_files h1) j x Hh Hx Hd) as Hw.
  destruct (Posix.exec (WriteAll fd bs) ch (h_files h1)) as [r w2]. simpl in *.
  pose proof (later_trans _ _ _ _ He01 He2) as He02.
  destruct r as [[]|e]; [|done]. destruct (Hw eq_refl) as (Hino2 & y & Hy & Ey & Hky).
  apply wlp_fs; [apply He02|]. intros h3 ch3 He3 _. cbv zeta. simpl in He3.
  destruct (later_keep _ _ _ He3 j y Hy) as (z & Hz & [Ekz Edz _]); [by left; exists fd|by intros []|].
  apply (later_ino _ _ _ He3) in Hino2.
  assert (later X w0 (h_files h3)) as He03 by (eapply later_trans; [exact He02|by apply later_weaken]).
  pose proof (later_fs X (Sync fd) ch3 _ (later_bounded _ _ _ He03) I) as He4.
  pose proof (sync_ok fd ch3 (h_files h3) j z Hino2 Hz) as Hs.
  split; [by eapply later_trans|]. intros Hok.
  destruct (Posix.exec (Sync fd) ch3 (h_files h3)) as [[[]|e] w4]; [|done]. simpl in *.
  rewrite (Hs eq_refl), Ekz, Hky, Hk. split; [done|].
  exists (synced z). simpl. rewrite lookup_alter_eq, Hz. split_and!; [done|simpl; congruence|done].
Qed.

Definition kept_here (w : World) (dir : str) (bs : bytes) : Prop :=
  bounded w /\ persisted w dir bs.

(** The same inode under the name: it is the receipt's, and it is synced. *)
Lemma wlp_publish w0 dir d fd j bs temporary h :
  later (fun i => next_ino w0 <= i) w0 (h_files h) ->
  staged (h_files h) fd j bs -> is_dir (h_files h) dir d -> other_name temporary ->
  swlp (let? staged_metadata := os (sys (Fs (MetadataOf fd))) in
        let? published_metadata := os (sys (Fs (SymlinkMetadata (Under dir n)))) in
        ensure? (m_dev staged_metadata =? m_dev published_metadata) &&
                (m_ino staged_metadata =? m_ino published_metadata)
          or msg (rs "published protected file identity mismatch") ;;
        run? ensure_existing_private_regular (Under dir n) ;;
        run? within (fmt_path "sync protected parent for " (Under dir n)) (os (sync_directory dir)) ;;
        run? within (fmt_path "remove protected temporary for " (Under dir n))
          (os (sys (Fs (RemoveFile temporary)))) ;;
        within (fmt_path "sync protected cleanup for " (Under dir n)) (os (sync_directory dir)))
    (fun r h' => is_ok r = true -> kept_here (h_files h') dir bs) h.
Proof.
  intros He Hst Hdir Htemp. set (w1 := h_files h) in *.
  assert (later quiet w1 (h_files h)) as He1 by apply later_refl, He.
  (* the metadata of the two *)
  apply wlp_rpbind, wlp_pmap_err, wlp_fs; [apply He1|]. intros h2 ch2 He2 _. cbv zeta.
  assert (later quiet w1 (Posix.exec (MetadataOf fd) ch2 (h_files h2)).2) as He02.
  { eapply later_trans; [exact He2|]. apply later_fs; [apply He2|done]. }
  pose proof (metadata_ok fd ch2 (h_files h2)) as Hm.
  rewrite (later_ino _ _ _ He2 _ _ (proj1 Hst)) in Hm.
  destruct (Posix.exec (MetadataOf fd) ch2 (h_files h2)) as [r w2]. simpl in *.
  destruct r as [m|e]; [|done]. specialize (Hm m eq_refl). injection Hm as Hm.
  apply wlp_rpbind, wlp_pmap_err, wlp_fs; [apply He02|]. intros h3 ch3 He3 _. cbv zeta. simpl in He3.
  assert (later quiet w1 (Posix.exec (SymlinkMetadata (Under dir n)) ch3 (h_files h3)).2) as He03.
  { eapply later_trans; [eapply later_trans; [exact He02|exact He3]|]. apply later_fs; [apply He3|done]. }
  assert ((Posix.exec (SymlinkMetadata (Under dir n)) ch3 (h_files h3)).2 = h_files h3) as Ew.
  { unfold Posix.exec. by destruct (fault ch3) as [[]|]. }
  pose proof (symlink_metadata_ok (Under dir n) ch3 (h_files h3)) as Hp.
  destruct (Posix.exec (SymlinkMetadata _) ch3 (h_files h3)) as [r3 w3]. simpl in *. subst w3.
  destruct r3 as [m3|e]; [|done]. destruct (Hp m3 eq_refl) as (x & Hres & _ & _). simpl in Hres.
  cbn [map_err]. cbv beta.
  destruct (andb _ _) eqn:Eid; [|done]. apply andb_true_iff in Eid as [_ Eid]. apply Z.eqb_eq in Eid.
  rewrite (later_paths _ _ _ He03), (proj1 Hdir) in Hres. simpl in Hres. rewrite <- Eid, <- Hm in Hres.
  apply wlp_pure; [intros _ _|done].
  (* it is a private file *)
  eapply (wlp_tame_try _ _ _ quiet (h_files h3)); [apply (tame_existing (Under dir n))|by apply later_refl, He03|done|].
  intros _ h4 He4. pose proof (later_trans _ _ _ _ He03 He4) as He04.
  apply (later_entry _ _ _ He4) in Hres.
  (* the directory is synced *)
  apply wlp_rpbind. do 2 apply wlp_pmap_err.
  eapply wlp_mono; [apply (wlp_sync_directory dir d j);
    [apply He04|by apply (is_dir_later _ _ _ _ _ He04)|exact Hres]|].
  intros [[]|e] h5 [He5 Hd5]; simpl; [|done]. specialize (Hd5 eq_refl).
  pose proof (later_trans _ _ _ _ He04 He5) as He05.
  assert (persisted (h_files h5) dir bs) as Hper.
  { destruct (staged_later _ _ _ _ _ He05 Hst) as (_ & y & Hy & Hbs & Hc).
    exists d, j, y. rewrite (later_paths _ _ _ He05). split_and!; [apply Hdir|done..]. }
  (* and stays *)
  eapply wlp_mono; [apply (wlp_tame _ quiet (h_files h5)); [|by apply later_refl, He5]|].
  { pose proof tame_sync_directory. calls_tac. }
  intros r h6 He6 _. split; [apply He6|]. eapply persisted_later; [apply He5|apply later_weaken; exact He6|done].
Qed.

Lemma wlp_create_new_private dir d bs h : bounded (h_files h) -> is_dir (h_files h) dir d ->
  swlp (create_new_private (Under dir n) bs)
    (fun r h' => is_ok r = true -> kept_here (h_files h') dir bs) h.
Proof.
  intros Hb Hdir. set (w0 := h_files h) in *. set (X := fun i => next_ino w0 <= i).
  unfold create_new_private. cbn [parent_of some_or ok_or]. apply wlp_pure; [|done].
  intros parent [= <-]. apply wlp_pbind.
  eapply wlp_mono; [apply (wlp_open_temporary 4 dir X w0); by apply later_refl|].
  intros opened h1 [He1 Hopened]. apply wlp_rpbind. do 2 apply wlp_pmap_err.
  destruct opened as [[[temporary fd]|e]|]; [|done..]. cbn [map_err].
  destruct (Hopened temporary fd eq_refl) as (Htemp & j & Hbl).
  apply wlp_pure; [|done]. intros [p' fd'] [= <- <-].
  apply wlp_pbind. eapply wlp_mono; [by apply (wlp_stage w0 fd j bs)|].
  intros r h2 [He2 Hst]. destruct r as [[]|e].
  2: { apply wlp_pbind. by eapply wlp_mono; [apply (wlp_tame _ X w0); [apply only_call|exact He2]|]. }
  specialize (Hst eq_refl). apply wlp_pbind.
  eapply wlp_mono; [apply (wlp_tame _ quiet (h_files h2)); [by apply only_call|by apply later_refl, He2]|].
  intros r h3 He3.
  assert (later X w0 (h_files h3)) as He03 by (eapply later_trans; [exact He2|by apply later_weaken]).
  destruct r as [[]|e].
  2: { apply wlp_pbind. by eapply wlp_mono; [apply (wlp_tame _ X w0); [apply only_call|exact He03]|]. }
  apply (wlp_publish w0 dir d fd j); [done|by eapply staged_later|by eapply is_dir_later|done].
Qed.
End programs.
End name.

(** ** The receipt of a job *)

Definition receipt_name (job : bytes) : str := hex_lower job ++ rs ".receipt".

Lemma receipt_name_staging job r : receipt_name job <> rs ".serctl-create-" ++ hex_lower r.
Proof.
  unfold receipt_name. destruct job as [|b job]; simpl; [done|]. intros [= E _]. revert E.
  destruct b; vm_compute; discriminate.
Qed.

Lemma receipt_name_journal job job' : receipt_name job <> hex_lower job' ++ rs ".journal".
Proof.
  unfold receipt_name. intros E. apply (f_equal (@rev byte)) in E. rewrite !rev_app_distr in E.
  simpl in E. discriminate E.
Qed.

Section job.
Context (job : bytes).
Context `{Strerror} `{Hex, !Json DiskJobRecord}.
Notation name := (receipt_name job).
Notation swlp := (wlp Host.exec (rely (respectful name) sound) (fun _ _ => True) (respectful name)).

(** What the directory of the job store is known to be. *)
Context (At : str -> Prop).

(** What is known of a receipt of the job from the time it was persisted. *)
Definition kept (h : Host) (r : AuthenticatedReceipt) : Prop :=
  job_id (body_identity (body r)) = job ->
  bounded (h_files h) /\ exists dir, At dir /\ persisted name (h_files h) dir (receipt_encode r).

Lemma kept_others ch h r : respectful name ch -> kept h r -> kept (others ch h) r.
Proof.
  intros Hch Hk Hj. destruct (Hk Hj) as [Hb (dir & Hat & Hp)]. destruct (Hch _ Hb) as [He _].
  split; [apply He|]. exists dir. split; [done|]. simpl. eapply persisted_later; [exact Hb|by apply later_weaken|done].
Qed.

Lemma kept_relay f h r : kept h r -> kept (on_relay f h) r.
Proof. done. Qed.

(** A program runs on sound hosts only. *)
Lemma rely_refl h : sound h -> rely (respectful name) sound h h.
Proof.
  intros Hs. split; [done|]. exists (Build_choice no_choice [] None (fun _ => []) true [] None 0 true true OfStdout None).
  split; [|by destruct h]. intros w Hb. split; [|done]. by apply later_refl.
Qed.
Lemma wlp_sound {A} (p : hprog A) (Q : A -> Host -> Prop) h :
  match p with Call _ _ => True | _ => False end ->
  (forall h1, sound h1 -> swlp p Q h1) -> swlp p Q h.
Proof.
  destruct p as [| |c k]; try done. intros _ Hp h1 ch Hr Hch.
  apply (Hp h1 (proj1 Hr)); [|done]. apply rely_refl, Hr.
Qed.

Lemma persist_kept s r h : At (root s) ->
  swlp (persist_receipt s r) (fun res h' => is_ok res = true -> kept h' r) h.
Proof.
  intros Hat. apply wlp_sound; [done|]. clear h. intros h Hs. unfold persist_receipt. apply wlp_rpbind.
  destruct (decide (job_id (body_identity (body r)) = job)) as [E|E].
  2: { apply wlp_trivial; [done|]. intros [u|e] h'; [|done]. apply wlp_trivial; [done|].
       intros r' h'' _ E'. done. }
  eapply wlp_mono; [apply (wlp_prepare_root name s (fun _ => False) (h_files h)); by apply later_refl|].
  intros [u|e] h1 [He1 Hd]; [|done]. destruct (Hd eq_refl) as [d Hd1].
  apply wlp_rpbind. unfold receipt_path. rewrite E.
  eapply wlp_mono; [apply (wlp_create_new_private name (receipt_name_staging job) (root s) d);
    [apply He1|done]|].
  intros [u'|e] h2 Hp; [|done]. intros _ _. destruct (Hp eq_refl). eauto.
Qed.

Lemma update_kept s j r h : kept h r -> swlp (update_journal s j) (fun _ h' => kept h' r) h.
Proof.
  intros Hk. destruct (decide (job_id (body_identity (body r)) = job)) as [E|E].
  2: { apply wlp_trivial; [done|]. by intros r' h' E'. }
  destruct (Hk E) as [Hb (dir & Hat & Hp)].
  eapply wlp_mono; [apply (update_journal_later name s j (h_files h)); [|done|by apply later_refl]|].
  { intros E'. by apply (receipt_name_journal job (job_id (identity j))). }
  intros r' h' He _. split; [apply He|]. exists dir. split; [done|]. eapply persisted_later; [exact Hb|exact He|done].
Qed.
End job.

(** After a power loss the file is there, with all its bytes. *)
Lemma persisted_crash n w w' dir bs : persisted n w dir bs -> crash w w' ->
  exists d i x, paths w !! dir = Some d /\ entry w' d n = Some i /\
    inodes w' !! i = Some x /\ i_data x = bs /\ i_clean x = true.
Proof.
  intros (d & i & x & Hp & (y & Hy & Hm) & Hx & Hbs & Hc) (_ & _ & _ & Hi & Hd).
  specialize (Hi i). specialize (Hd d). rewrite Hx in Hi. rewrite Hy in Hd.
  destruct (inodes w' !! i) as [x'|] eqn:Hx'; [|done].
  destruct (dirs w' !! d) as [y'|] eqn:Hy'; [|done].
  destruct Hi as (_ & Hc' & _ & Hdata). rewrite Hc in Hdata. destruct Hdata as (Hdata & _).
  destruct Hd as [_ Hd]. destruct (Hd n) as (m & Hin & Em).
  exists d, i, x'. split_and!; [done| |done|congruence|done].
  unfold entry. rewrite Hy'. simpl. rewrite Em. by apply Hm.
Qed.
