(* ===== verification/RemoteHelper.v ===== *)
(** * serctl-remote: the helper that runs a job

    crates/serctl_remote/src/main.rs on Linux, over the calls of [Host]: the
    thread that reads requests, [prepare] and the checks it makes before a
    program may run, [run_job] with its loop over requests, child and
    heartbeats, the receipt it persists, and the receipt query.  [serve_stdio]
    and [receipt_stdio] are the two modes.

    The unbounded loops have fuel; a run that uses it up is cut off there, and
    the theorems hold for every amount.  A digest under computation is the
    bytes hashed so far.  The locals of the job loop are a record. *)

From S2P Require Import Prelude.
From S2P Require Import Bytes.
From S2P Require Import Text.
From S2P Require Import Crates.
From S2P Require Import Posix.
From S2P Require Import RemoteProtocol.
From S2P Require Import RemoteSession.
From S2P Require Import Jobs.
From S2P Require Policy.
From S2P Require Import Program.
From S2P Require Import Host.
From S2P Require Import JobStore.
#[local] Open Scope string_scope.
#[local] Open Scope list_scope.
#[local] Open Scope Z_scope.

(** Nanoseconds. *)
Definition MILLISECOND : Z := 1000000.
Definition HEARTBEAT_INTERVAL : Z := 250 * MILLISECOND.
Definition CANCEL_WAIT : Z := 2000 * MILLISECOND.
Definition OUTPUT_READ_BYTES : Z := MAX_OUTPUT_CHUNK.

(** Permission bits: 0o022, 0o6000 and 0o111. *)
Definition GROUP_OTHER_WRITE : Z := 18.
Definition SET_ID : Z := 3072.
Definition EXECUTE : Z := 73.

(** ** Requests

    [read_input]: what the thread makes of the bytes of stdin.  [eof] says how
    they end: with the end of the file or with an error. *)

Fixpoint read_input_from (fuel : nat) (eof : bool) (validator : Controller.ControllerSessionValidator)
    (stdin : bytes) : list InputEvent :=
  match fuel with
  | O => []
  | Datatypes.S fuel =>
      match stdin with
      | [] => [if eof then InputClosed else InputError Io]
      | _ =>
          match read_frame_from stdin with
          | Ok (Some envelope, rest) =>
              match Controller.validate validator envelope with
              | (validator, Ok _) =>
                  InputFrame envelope :: read_input_from fuel eof validator rest
              | (_, Err error) => [InputError error]
              end
          | Ok (None, _) => [InputClosed]
          | Err error => [InputError error]
          end
      end
  end.
Definition read_input (eof : bool) (stdin : bytes) : list InputEvent :=
  read_input_from (Datatypes.S (length stdin)) eof Controller.default stdin.

(** [read_child_stream]: what the thread makes of its reads, up to the end of
    the stream or an error. *)
Fixpoint read_child_stream (kind : StreamKind) (reads : list (result Posix.errno bytes))
  : list ChildEvent :=
  match reads with
  | [] => []
  | Ok [] :: _ => [Closed kind]
  | Ok data :: reads => Chunk kind data :: read_child_stream kind reads
  | Err _ :: _ => [ReadFailed kind]
  end.

(** ** The job *)

Record PreparedJob := {
  pj_executable : str;
  pj_cwd : option str;
  pj_store : JobStore;
  pj_identity : JobIdentity;
  pj_deadlines : JobDeadlines;
}.

Inductive Termination := TCancelled | TDeadline | TOutputLimit | TOutputRead | TProtocolViolation.
#[export] Instance Termination_eq_dec : EqDecision Termination.
Proof. solve_decision. Defined.

(** The locals of the loop of [run_job]: a stream's offset, the bytes hashed,
    whether it is closed; and the rest. *)
Record Stream := { offset : Z; hash : bytes; is_closed : bool }.
Record JobState := {
  journal : JobRecord;
  next_heartbeat : Z;
  heartbeat_ordinal : Z;
  out : Stream;
  err : Stream;
  status : option ExitStatus;
  termination : option Termination;
  kill_started : option Z;
  relay_available : bool;
}.

Definition fresh_stream : Stream := {| offset := 0; hash := []; is_closed := false |}.

(** [termination.get_or_insert(t)]. *)
Definition get_or_insert (t : Termination) (o : option Termination) : option Termination :=
  match o with Some t => Some t | None => Some t end.

Definition with_termination (t : Termination) (x : JobState) : JobState :=
  {| journal := journal x; next_heartbeat := next_heartbeat x;
     heartbeat_ordinal := heartbeat_ordinal x; out := out x; err := err x; status := status x;
     termination := get_or_insert t (termination x); kill_started := kill_started x;
     relay_available := relay_available x |}.
Definition with_relay (b : bool) (x : JobState) : JobState :=
  {| journal := journal x; next_heartbeat := next_heartbeat x;
     heartbeat_ordinal := heartbeat_ordinal x; out := out x; err := err x; status := status x;
     termination := termination x; kill_started := kill_started x; relay_available := b |}.
Definition with_status (s : option ExitStatus) (x : JobState) : JobState :=
  {| journal := journal x; next_heartbeat := next_heartbeat x;
     heartbeat_ordinal := heartbeat_ordinal x; out := out x; err := err x; status := s;
     termination := termination x; kill_started := kill_started x;
     relay_available := relay_available x |}.
Definition with_kill (at_ : Z) (x : JobState) : JobState :=
  {| journal := journal x; next_heartbeat := next_heartbeat x;
     heartbeat_ordinal := heartbeat_ordinal x; out := out x; err := err x; status := status x;
     termination := termination x; kill_started := Some at_;
     relay_available := relay_available x |}.
Definition with_stream (k : StreamKind) (s : Stream) (x : JobState) : JobState :=
  {| journal := journal x; next_heartbeat := next_heartbeat x;
     heartbeat_ordinal := heartbeat_ordinal x;
     out := if bool_decide (k = OfStdout) then s else out x;
     err := if bool_decide (k = OfStderr) then s else err x;
     status := status x; termination := termination x; kill_started := kill_started x;
     relay_available := relay_available x |}.
Definition with_journal (j : JobRecord) (x : JobState) : JobState :=
  {| journal := j; next_heartbeat := next_heartbeat x;
     heartbeat_ordinal := heartbeat_ordinal x; out := out x; err := err x; status := status x;
     termination := termination x; kill_started := kill_started x;
     relay_available := relay_available x |}.
Definition with_heartbeat (next ordinal : Z) (x : JobState) : JobState :=
  {| journal := journal x; next_heartbeat := next;
     heartbeat_ordinal := ordinal; out := out x; err := err x; status := status x;
     termination := termination x; kill_started := kill_started x;
     relay_available := relay_available x |}.

Definition stream_of (k : StreamKind) (x : JobState) : Stream :=
  match k with OfStdout => out x | OfStderr => err x end.
Definition closed_stream (s : Stream) : Stream :=
  {| offset := offset s; hash := hash s; is_closed := true |}.
Definition output_frame (k : StreamKind) (f : OutputFrame) : Frame :=
  match k with OfStdout => Stdout f | OfStderr => Stderr f end.

(** The components of an absolute path, by which paths are compared. *)
Definition components (p : str) : list str :=
  filter (fun c => negb (is_empty c || bool_decide (c = rs ".")) = true) (split_on slash p).

(** What is said of the job, by the receipt and on the wire. *)
Definition outcomes (t : option Termination) (s : option ExitStatus) : ReceiptOutcome * ExitOutcome :=
  match t with
  | Some TCancelled => (RCancelled, Cancelled)
  | Some TDeadline => (RDeadlineExceeded, DeadlineExceeded)
  | Some (TOutputLimit | TOutputRead | TProtocolViolation) => (RExited 125, Exited 125)
  | None =>
      let code := default 125 (s ≫= code) in (RExited code, Exited code)
  end.

Definition resolve_executable (program : str) : result anyhow str :=
  if bool_decide (program = rs "id") then Ok (rs "/usr/bin/id")
  else if bool_decide (program = rs "true") then Ok (rs "/usr/bin/true")
  else if bool_decide (program = rs "uname") then Ok (rs "/usr/bin/uname")
  else if bool_decide (program = rs "uptime") then Ok (rs "/usr/bin/uptime")
  else if bool_decide (program = rs "whoami") then Ok (rs "/usr/bin/whoami")
  else Err (msg (rs "program has no fixed Linux executable mapping")).

Definition make_command (executable : str) (start : StartFrame) (cwd : option str) : Command :=
  {| cmd_program := executable;
     cmd_args := argv start;
     cmd_env := map (fun v => (env_name v, env_value v)) (env start);
     cmd_current_dir := cwd |}.

(** [String::truncate] panics inside a character; the texts cut here are
    ASCII but for a path or a system's error text. *)
Definition bounded_message (error : anyhow) : str :=
  let message := to_string error in
  if MAX_ERROR_MESSAGE_BYTES <? zlen message
  then take (Z.to_nat MAX_ERROR_MESSAGE_BYTES) message else message.

Definition typed_intent (start : StartFrame) (uid now : Z) : Policy.TypedIntent :=
  {| Policy.intent_schema_version := Policy.INTENT_SCHEMA_VERSION;
     Policy.capability := Policy.ProcessRun;
     Policy.intent_run_as := Policy.Uid uid;
     Policy.program := Some (program start);
     Policy.argv := argv start;
     Policy.env := map (fun entry => {| Policy.var_name := env_name entry;
                                        Policy.var_value := env_value entry |}) (env start);
     Policy.paths := match cwd start with
                     | Some cwd => [{| Policy.path_flavor := Policy.Posix;
                                       Policy.path_value := cwd |}]
                     | None => []
                     end;
     Policy.budget := {| Policy.budget_bytes := 0;
                         Policy.output_bytes := max_output_bytes start;
                         Policy.parallel := 1; Policy.operations := 1 |};
     Policy.deadline_ms := saturating_sub (remote_deadline_unix_ms start) now |}.

Definition start_identity (start : StartFrame) : JobIdentity :=
  {| job_id := start_job_id start; profile_id := start_profile_id start;
     profile_generation := start_profile_generation start;
     policy_digest := start_policy_digest start; input_digest := start_input_digest start |}.
Definition start_deadlines (start : StartFrame) : JobDeadlines :=
  {| remote_unix_ms := remote_deadline_unix_ms start;
     relay_unix_ms := relay_deadline_unix_ms start;
     retention_unix_ms := result_retention_unix_ms start |}.

(** ** Texts *)

(** [ReasonCode::as_str]. *)
Definition reason_code_str (r : Policy.ReasonCode) : string :=
  match r with
  | Policy.Allowed => "allowed"
  | Policy.SchemaInvalid => "schema.invalid"
  | Policy.SchemaUnsupported => "schema.unsupported"
  | Policy.PolicyTooLarge => "policy.too_large"
  | Policy.PolicyLimitExceeded => "policy.limit_exceeded"
  | Policy.CapabilityExpandsBase => "policy.capability_expands_base"
  | Policy.IdentityExpandsBase => "policy.identity_expands_base"
  | Policy.ProgramExpandsBase => "policy.program_expands_base"
  | Policy.EnvironmentExpandsBase => "policy.environment_expands_base"
  | Policy.InvariantRootRunAs => "invariant.root_run_as"
  | Policy.InvariantCommandInterpreter => "invariant.command_interpreter"
  | Policy.InvariantShellCommandFlag => "invariant.shell_command_flag"
  | Policy.InvariantDangerousProgram => "invariant.dangerous_program"
  | Policy.InvariantEnvironmentInjection => "invariant.environment_injection"
  | Policy.InvariantControlCharacter => "invariant.control_character"
  | Policy.InvariantPathTraversal => "invariant.path_traversal"
  | Policy.InvariantPathNotAbsolute => "invariant.path_not_absolute"
  | Policy.InvariantAmbiguousPath => "invariant.ambiguous_path"
  | Policy.IntentShapeMismatch => "intent.shape_mismatch"
  | Policy.IntentCapabilityDenied => "intent.capability_denied"
  | Policy.IntentIdentityDenied => "intent.identity_denied"
  | Policy.IntentProgramDenied => "intent.program_denied"
  | Policy.IntentEnvironmentDenied => "intent.environment_denied"
  | Policy.IntentPathDenied => "intent.path_denied"
  | Policy.IntentDeadlineInvalid => "intent.deadline_invalid"
  | Policy.IntentDeadlineExceeded => "intent.deadline_exceeded"
  | Policy.IntentBudgetInvalid => "intent.budget_invalid"
  | Policy.IntentBudgetExceeded => "intent.budget_exceeded"
  | Policy.IntentArgumentLimitExceeded => "intent.argument_limit_exceeded"
  | Policy.IntentEnvironmentLimitExceeded => "intent.environment_limit_exceeded"
  | Policy.IntentPathLimitExceeded => "intent.path_limit_exceeded"
  end.

Definition frame_kind_debug (k : FrameKind) : string :=
  match k with
  | KHello => "Hello" | KStart => "Start" | KStdout => "Stdout" | KStderr => "Stderr"
  | KHeartbeat => "Heartbeat" | KCancel => "Cancel" | KExit => "Exit" | KReceipt => "Receipt"
  | KError => "Error" | KQueryReceipt => "QueryReceipt"
  end.

(** [{:#x}] of a byte. *)
Definition hex_u8 (v : Z) : str :=
  rs "0x" ++ (if v <? 16 then [hex_digit v] else [hex_digit (v / 16); hex_digit (v mod 16)]).

(** [Display for ProtocolError]; what it adds for an I/O error is left out. *)
Definition protocol_error_text (e : ProtocolError) : str :=
  match e with
  | Io => rs "I/O error"
  | BadMagic => rs "invalid remote protocol magic"
  | UnsupportedVersion v => rs "unsupported remote protocol version " ++ decimal v
  | UnknownFrameKind v => rs "unknown frame kind " ++ decimal v
  | ReservedFlags v => rs "reserved frame flags set: " ++ hex_u8 v
  | FrameTooLarge size => rs "frame payload exceeds limit: " ++ decimal size
  | KindPayloadTooLarge k size =>
      rs (frame_kind_debug k) ++ rs " payload exceeds its limit: " ++ decimal size
  | Truncated => rs "truncated frame payload"
  | TrailingBytes => rs "frame payload has trailing bytes"
  | InvalidUtf8 => rs "frame contains invalid UTF-8"
  | InvalidValue field => rs "invalid frame field: " ++ rs field
  | Sequence expected actual =>
      rs "frame sequence mismatch: expected " ++ decimal expected ++ rs ", got " ++ decimal actual
  | InvalidState message => rs "invalid frame state: " ++ rs message
  end.
Definition protocol_error (e : ProtocolError) : anyhow := msg (protocol_error_text e).

Definition receipt_error (job : bytes) (code : string) (retry : bool) : Frame :=
  Error {| error_job_id := Some job; error_code := rs code; error_message := rs code;
           retryable := retry |}.
Definition error_is_not_found (e : anyhow) : bool := is_a NotFound e.
Definition missing_receipt_code (_ : JobStage) : string := "job_unknown".

(** ** Calls *)

Section helper.
Context `{Posix.Strerror} `{Sha2, HmacSha2} `{Hex} `{!Json DiskJobRecord}.
Context `{!JsonSer Policy.PolicyIr, !Json Policy.PolicyDocument}.

(** [unix_ms()]. *)
Definition unix_ms : hio Z :=
  let# now := sys SystemTimeMs in
  let? now := some_or now "system clock precedes Unix epoch" in
  ok (Z.min (Z.of_N now) U64_MAX).

Definition effective_uid : hio Z :=
  let? status := within (rs "read process identity")
    (os (sys (ReadToString (rs "/proc/self/status")))) in
  let? line := some_or (List.find (starts_with (rs "Uid:")) (lines status))
    "process UID is unavailable" in
  let values := words (drop 4 line) in
  let? _real := some_or (head values) "real UID is unavailable" in
  let? second := some_or (values !! 1%nat) "effective UID is unavailable" in
  some_or (parse_u32 second) "parse effective UID".

Definition receive_input : hio Envelope :=
  let# event := sys RecvInput in
  match event with
  | None => bail "remote protocol input closed"
  | Some (InputFrame envelope) => ok envelope
  | Some (InputError error) => Ret (Err (protocol_error error))
  | Some InputClosed => bail "remote protocol input closed"
  end.

(** [OutputSink]: [try_frame] never waits. *)
Definition try_frame (f : Frame) : hprog bool :=
  sys (TrySend {| oc_frame := f; oc_acknowledged := false |}).

Definition try_final (receipt exit : Frame) : hprog bool :=
  let# sent := try_frame receipt in
  if negb sent then Ret false
  else
    let# sent := sys (TrySend {| oc_frame := exit; oc_acknowledged := true |}) in
    if negb sent then Ret false
    else
      let# acknowledged := sys RecvAck in
      Ret (default false acknowledged).

Definition spawn_thread (name : string) (c : string) : hio unit :=
  within (rs c) (os (sys (SpawnThread name))).

(** ** Before the job *)

Definition validate_executable (p : str) : hio unit :=
  let? metadata := within (rs "inspect fixed executable " ++ p)
    (os (sys (Fs (Posix.SymlinkMetadata (Posix.Given p))))) in
  ensure? bool_decide (Posix.m_kind metadata = Posix.KFile)
    or msg (rs "fixed executable is not a regular file") ;;
  ensure? negb (bool_decide (Posix.m_kind metadata = Posix.KSymlink))
    or msg (rs "fixed executable is a symlink") ;;
  ensure? Posix.m_uid metadata =? 0 or msg (rs "fixed executable is not owned by root") ;;
  let mode := Posix.m_mode metadata in
  ensure? Z.land mode GROUP_OTHER_WRITE =? 0
    or msg (rs "fixed executable is group/other writable") ;;
  ensure? Z.land mode SET_ID =? 0 or msg (rs "fixed executable carries set-id bits") ;;
  ensure? negb (Z.land mode EXECUTE =? 0) or msg (rs "fixed executable is not executable") ;;
  ok tt.

Definition validate_cwd (value : str) : hio str :=
  ensure? starts_with [slash] value or msg (rs "working directory is not absolute") ;;
  let? canonical := within (rs "canonicalize working directory")
    (os (sys (Canonicalize value))) in
  ensure? bool_decide (components canonical = components value)
    or msg (rs "working directory contains aliases or symlinks") ;;
  let? is_dir := os (sys (PathIsDir canonical)) in
  ensure? is_dir or msg (rs "working directory is not a directory") ;;
  ok canonical.

(** The home directory of a user in /etc/passwd. *)
Definition passwd_home (uid : Z) (line : str) : option str :=
  match split_on ":"%byte line with
  | [_; _; id; _; _; home; _] => if bool_decide (parse_u32 id = Some uid) then Some home else None
  | _ => None
  end.

(** One of the two directories of the store, created if need be. *)
Definition fixed_directory (uid : Z) (p : str) : hio unit :=
  let# exists_ := sys (Exists p) in
  run? (if exists_ then ok tt
        else within (rs "create fixed job directory " ++ p)
               (os (sys (CreateDir false OWNER_RWX p)))) ;;
  let? metadata := within (rs "inspect fixed job directory " ++ p)
    (os (sys (Fs (Posix.SymlinkMetadata (Posix.Given p))))) in
  ensure? bool_decide (Posix.m_kind metadata = Posix.KDir)
       && negb (bool_decide (Posix.m_kind metadata = Posix.KSymlink))
    or msg (rs "fixed job path is not a stable directory") ;;
  ensure? Posix.m_uid metadata =? uid or msg (rs "fixed job directory owner mismatch") ;;
  ensure? Z.land (Posix.m_mode metadata) GROUP_OTHER =? 0
    or msg (rs "fixed job directory is not private") ;;
  ok tt.

(** [base.join(name)] of a relative name. *)
Definition join (base name : str) : str :=
  if ends_with [slash] base then base ++ name else base ++ slash :: name.

Definition fixed_job_store (uid : Z) : hio JobStore :=
  let? passwd := within (rs "read local account database")
    (os (sys (ReadToString (rs "/etc/passwd")))) in
  ensure? zlen passwd <=? 1024 * 1024 or msg (rs "local account database is too large") ;;
  let? home := some_or (head (omap (passwd_home uid) (lines passwd)))
    "effective UID has no local home mapping" in
  ensure? starts_with [slash] home or msg (rs "account home is not absolute") ;;
  let? metadata := within (rs "inspect account home")
    (os (sys (Fs (Posix.SymlinkMetadata (Posix.Given home))))) in
  ensure? bool_decide (Posix.m_kind metadata = Posix.KDir)
       && negb (bool_decide (Posix.m_kind metadata = Posix.KSymlink))
    or msg (rs "account home is not a stable directory") ;;
  ensure? Posix.m_uid metadata =? uid or msg (rs "account home owner mismatch") ;;
  ensure? Z.land (Posix.m_mode metadata) GROUP_OTHER_WRITE =? 0
    or msg (rs "account home is group/other writable") ;;
  let serctl := join home (rs ".serctl") in
  let jobs := join serctl (rs "jobs") in
  run? fixed_directory uid serctl ;;
  run? fixed_directory uid jobs ;;
  Ret (store_new jobs).

(** The policy of a request, compiled, with the digest the request names. *)
Definition compile_policy (start : StartFrame) : result anyhow Policy.CompiledPolicy :=
  let* policy := map_err (fun code => context (rs "compile policy") (msg (rs (reason_code_str code))))
    (Policy.compile_policy_json (policy_json start)) in
  let* digest := ok_or (hex_decode (Policy.digest policy)) (msg (rs "decode policy digest")) in
  ensure! bool_decide (digest = start_policy_digest start) or msg (rs "policy digest mismatch") ;;
  Ok policy.

Definition prepare (start : StartFrame) : hio PreparedJob :=
  ensure? bool_decide (compute_start_input_digest start = start_input_digest start)
    or msg (rs "input digest mismatch") ;;
  let? policy := Ret (compile_policy start) in
  let? now := unix_ms in
  let deadlines := start_deadlines start in
  run? checked (deadlines_validate_at deadlines now) ;;
  let? uid := effective_uid in
  ensure? negb (uid =? 0) or msg (rs "remote helper refuses UID 0") ;;
  ensure? run_as_uid start =? uid or msg (rs "requested run_as does not match helper identity") ;;
  let explanation := Policy.explain policy (typed_intent start uid now) in
  ensure? Policy.allowed explanation
    or msg (rs "policy denied typed intent: " ++
            rs (reason_code_str (Policy.reason_code explanation))) ;;
  let? executable := Ret (resolve_executable (program start)) in
  run? validate_executable executable ;;
  let? cwd := match cwd start with
              | Some value => let? canonical := validate_cwd value in ok (Some canonical)
              | None => ok None
              end in
  let? store := fixed_job_store uid in
  ok {| pj_executable := executable; pj_cwd := cwd; pj_store := store;
        pj_identity := start_identity start; pj_deadlines := deadlines |}.

(** ** The job loop *)

(** [input.try_recv()]: a Cancel of this job ends it, and so does any other
    frame; without requests the job goes on unheard. *)
Definition input_step (start : StartFrame) (x : JobState) : hprog (JobState + JobState) :=
  let# event := sys TryRecvInput in
  Ret match event with
      | Received (InputFrame envelope) =>
          inl match frame envelope with
              | Cancel cancel =>
                  if bool_decide (cancel_job_id cancel = start_job_id start)
                  then with_termination TCancelled x else with_termination TProtocolViolation x
              | _ => with_termination TProtocolViolation x
              end
      | Received (InputError _) => inl (with_relay false x)
      | Received InputClosed | Disconnected => inr (with_relay false x)
      | Empty => inr x
      end.

Definition kill_child (x : JobState) : hio JobState :=
  if bool_decide (is_Some (termination x)) && bool_decide (kill_started x = None)
     && bool_decide (status x = None) then
    let# killed := sys Kill in
    match killed with
    | Ok _ => let# now := sys InstantNow in ok (with_kill now x)
    | Err _ =>
        let? s := within (rs "inspect child after kill failure") (os (sys TryWait)) in
        ok (with_status s x)
    end
  else ok x.

Definition confirm_kill (store : JobStore) (x : JobState) : hio unit :=
  match kill_started x with
  | Some killed_at =>
      let# now := sys InstantNow in
      if (CANCEL_WAIT <? now - killed_at) && negb (bool_decide (is_Some (status x))) then
        let? now := unix_ms in
        let? j := checked (mark_unknown (journal x) now) in
        run? update_journal store j ;;
        bail "child termination could not be confirmed within the bounded wait"
      else ok tt
  | None => ok tt
  end.

(** One chunk of the child: hashed and sent, unless it exceeds the budget. *)
Definition take_chunk (start : StartFrame) (k : StreamKind) (data : bytes) (x : JobState)
  : hprog JobState :=
  let length := zlen data in
  let projected := saturating_add U64_MAX
    (saturating_add U64_MAX (offset (out x)) (offset (err x))) length in
  if max_output_bytes start <? projected then Ret (with_termination TOutputLimit x)
  else
    let s := stream_of k x in
    let# sent :=
      if relay_available x then
        try_frame (output_frame k {| output_job_id := start_job_id start;
                                     output_offset := offset s; output_data := data |})
      else Ret true in
    let x := if relay_available x && negb sent then with_relay false x else x in
    Ret (with_stream k {| offset := saturating_add U64_MAX (offset s) length;
                          hash := hash s ++ data; is_closed := is_closed s |} x).

Definition child_step (start : StartFrame) (x : JobState) : hprog (JobState + JobState) :=
  let# event := sys TryRecvChild in
  match event with
  | Some (Chunk k data) => let# x := take_chunk start k data x in Ret (inl x)
  | Some (Closed k) => Ret (inl (with_stream k (closed_stream (stream_of k x)) x))
  | Some (ReadFailed _) => Ret (inl (with_termination TOutputRead x))
  | None => Ret (inr x)
  end.

Definition poll_status (x : JobState) : hio JobState :=
  match status x with
  | Some _ => ok x
  | None =>
      let? s := within (rs "poll child status") (os (sys TryWait)) in
      ok (with_status s x)
  end.

Definition heartbeat (start : StartFrame) (store : JobStore) (started : Z) (x : JobState)
  : hio JobState :=
  let# now := sys InstantNow in
  if next_heartbeat x <=? now then
    let ordinal := saturating_add U64_MAX (heartbeat_ordinal x) 1 in
    let# now := sys InstantNow in
    let beat := {| heartbeat_job_id := start_job_id start;
                   ordinal := ordinal;
                   elapsed_ms := Z.min ((now - started) / MILLISECOND) U64_MAX;
                   stdout_bytes := offset (out x);
                   stderr_bytes := offset (err x) |} in
    let? now := unix_ms in
    let? j := checked (observe_heartbeat (journal x) beat now) in
    run? update_journal store j ;;
    let# sent := if relay_available x then try_frame (Heartbeat beat) else Ret true in
    let x := with_journal j x in
    let x := if relay_available x && negb sent then with_relay false x else x in
    let# now := sys InstantNow in
    ok (with_heartbeat (now + HEARTBEAT_INTERVAL) ordinal x)
  else ok x.

(** The clock's part in an iteration: the relay's deadline stops delivery, the
    job's own ends the job. *)
Definition observe_deadlines (start : StartFrame) (now : Z) (x : JobState) : JobState :=
  let x := if relay_deadline_unix_ms start <? now then with_relay false x else x in
  if remote_deadline_unix_ms start <=? now then with_termination TDeadline x else x.

Definition job_iteration (fuel : positive) (start : StartFrame) (store : JobStore) (started : Z)
    (x : JobState) : hio (JobState + JobState) :=
  let? now := unix_ms in
  let x := observe_deadlines start now x in
  let# x := ploop fuel (input_step start) x in
  let? x := kill_child x in
  run? confirm_kill store x ;;
  let# x := ploop fuel (child_step start) x in
  let? x := poll_status x in
  let? x := heartbeat start store started x in
  if bool_decide (is_Some (status x)) && is_closed (out x) && is_closed (err x) then ok (inr x)
  else
    let# _ := sys (Sleep (10 * MILLISECOND)) in
    ok (inl x).

(** [JobStage] of a receipt. *)
Definition final_stage (o : ReceiptOutcome) : JobStage :=
  match o with
  | RExited 0 => Completed
  | RCancelled => CancelledStage
  | RExited _ | RDeadlineExceeded => Failed
  end.

(** After the loop: the receipt is persisted before it is sent. *)
Definition conclude (start : StartFrame) (prepared : PreparedJob) (x : JobState) : hio unit :=
  let? completed := unix_ms in
  let '(receipt_outcome, wire_outcome) := outcomes (termination x) (status x) in
  let? receipt := checked (issue
    {| body_identity := pj_identity prepared;
       body_run_as_uid := run_as_uid start;
       body_deadlines := pj_deadlines prepared;
       body_max_output_bytes := max_output_bytes start;
       stdout_digest := sha256 (hash (out x));
       stderr_digest := sha256 (hash (err x));
       body_outcome := receipt_outcome;
       body_completed_unix_ms := completed |} (start_receipt_token start)) in
  let? _ := persist_receipt (pj_store prepared) receipt in
  let j := set_stage (journal x) (final_stage receipt_outcome) completed in
  run? update_journal (pj_store prepared) j ;;
  if relay_available x then
    let# _ := try_final
      (Receipt {| receipt_job_id := start_job_id start; receipt_bytes := receipt_encode receipt |})
      (Exit {| exit_job_id := start_job_id start; outcome := wire_outcome;
               completed_unix_ms := completed |}) in
    ok tt
  else ok tt.

(** The part of [run_job] in which the child runs. *)
Definition supervise (fuel : positive) (start : StartFrame) (prepared : PreparedJob)
    (j : JobRecord) : hio unit :=
  run? os (sys (SpawnThread "serctl-remote-stdout")) ;;
  run? os (sys (SpawnThread "serctl-remote-stderr")) ;;
  let# started := sys InstantNow in
  let? x := rloop fuel (job_iteration fuel start (pj_store prepared) started)
    {| journal := j; next_heartbeat := started; heartbeat_ordinal := 0;
       out := fresh_stream; err := fresh_stream; status := None; termination := None;
       kill_started := None; relay_available := true |} in
  conclude start prepared x.

Definition run_job (fuel : positive) (start : StartFrame) (prepared : PreparedJob) : hio unit :=
  let store := pj_store prepared in
  let? now := unix_ms in
  let? j := checked (submitted (pj_identity prepared) (pj_deadlines prepared)
                       (run_as_uid start) (max_output_bytes start) now) in
  let? _ := create_journal store j in
  let? now := unix_ms in
  let? j := checked (mark_running j now) in
  run? update_journal store j ;;
  let command := make_command (pj_executable prepared) start (pj_cwd prepared) in
  run? within (rs "spawn fixed executable") (os (sys (Spawn command))) ;;
  supervise fuel start prepared j.

(** ** The two modes *)

Definition hello_frame (features uid : Z) : Frame :=
  Hello {| max_frame_payload := MAX_FRAME_PAYLOAD; feature_bits := features;
           RemoteProtocol.effective_uid := uid |}.

(** The greeting both modes begin with. *)
Definition greet (features : Z) : hio Z :=
  let? envelope := receive_input in
  match frame envelope with
  | Hello hello =>
      ensure? RemoteProtocol.effective_uid hello =? 0
        or msg (rs "controller Hello must not claim an EUID") ;;
      let? helper_uid := effective_uid in
      ensure? negb (helper_uid =? 0) or msg (rs "remote helper refuses UID 0") ;;
      let# sent := try_frame (hello_frame features helper_uid) in
      ensure? sent or msg (rs "remote output relay is unavailable") ;;
      ok helper_uid
  | _ => bail "first frame is not Hello"
  end.

Definition serve_stdio (fuel : positive) : hio unit :=
  run? spawn_thread "serctl-remote-input" "spawn bounded protocol reader" ;;
  run? spawn_thread "serctl-remote-output" "spawn bounded output relay" ;;
  let? _ := greet SUPPORTED_FEATURE_BITS in
  let? envelope := receive_input in
  match frame envelope with
  | Start start =>
      let# prepared := prepare start in
      match prepared with
      | Ok prepared => run_job fuel start prepared
      | Err error =>
          let# _ := try_frame (Error {| error_job_id := Some (start_job_id start);
                                        error_code := rs "start_denied";
                                        error_message := bounded_message error;
                                        retryable := false |}) in
          Ret (Err error)
      end
  | _ => bail "second frame is not Start"
  end.

Definition query_identity (query : QueryReceiptFrame) : JobIdentity :=
  {| job_id := query_job_id query; profile_id := query_profile_id query;
     profile_generation := query_profile_generation query;
     policy_digest := query_policy_digest query; input_digest := query_input_digest query |}.

Definition verify_query_receipt (record : JobRecord) (receipt_bytes : bytes)
    (query : QueryReceiptFrame) (now_unix_ms : Z) : result anyhow ReceiptBody :=
  let expected := query_identity query in
  ensure! bool_decide (identity record = expected) or msg (rs "receipt query identity mismatch") ;;
  map_err (fun s => msg (rs s))
    (let* receipt := receipt_decode receipt_bytes in
     verify receipt expected (deadlines record) (record_run_as_uid record)
       (record_max_output_bytes record) (query_receipt_token query) now_unix_ms).

Definition wire_outcome (o : ReceiptOutcome) : ExitOutcome :=
  match o with
  | RExited code => Exited code
  | RCancelled => Cancelled
  | RDeadlineExceeded => DeadlineExceeded
  end.

(** The answer to a query; frames that cannot be sent are no error here but
    for the receipt itself. *)
Definition answer_query (query : QueryReceiptFrame) (helper_uid : Z) : hio unit :=
  let report code retry :=
    let# _ := try_frame (receipt_error (query_job_id query) code retry) in ok tt in
  let? store := fixed_job_store helper_uid in
  let# loaded := load_journal store (query_job_id query) in
  match loaded with
  | Err error => if error_is_not_found error then report "job_unknown" false else Ret (Err error)
  | Ok record =>
      let? now := unix_ms in
      if retention_unix_ms (deadlines record) <? now then report "receipt_expired" false
      else
        let# loaded := load_receipt store (query_job_id query) in
        match loaded with
        | Err error =>
            if error_is_not_found error then report (missing_receipt_code (stage record)) true
            else Ret (Err error)
        | Ok bytes =>
            match verify_query_receipt record bytes query now with
            | Err _ => report "receipt_denied" false
            | Ok body =>
                let# sent := try_final
                  (Receipt {| receipt_job_id := query_job_id query; receipt_bytes := bytes |})
                  (Exit {| exit_job_id := query_job_id query;
                           outcome := wire_outcome (body_outcome body);
                           completed_unix_ms := body_completed_unix_ms body |}) in
                ensure? sent or
                  msg (rs "receipt relay is unavailable; authenticated receipt remains persisted") ;;
                ok tt
            end
        end
  end.

Definition receipt_stdio : hio unit :=
  run? spawn_thread "serctl-remote-receipt-input" "spawn receipt protocol reader" ;;
  run? spawn_thread "serctl-remote-output" "spawn bounded output relay" ;;
  let? helper_uid := greet FEATURE_RECEIPT_QUERY in
  let? envelope := receive_input in
  match frame envelope with
  | QueryReceipt query => answer_query query helper_uid
  | _ => bail "second frame is not QueryReceipt"
  end.
End helper.
