(* ===== verification/RemoteHelperSteps.v ===== *)
(** * serctl-remote: the helper step by step

    Which calls the parts of the helper make, and what they return ([quiet],
    [yields], [gives]); and the job loop's account of the child: [covered] says
    that what was hashed of a stream is what was read of it, unless the job is
    being terminated, and [finished] that after the loop both streams were read
    to their end. *)

From stdpp Require Import gmap.
From S2P Require Import Prelude.
From S2P Require Import Bytes.
From S2P Require Import Text.
From S2P Require Import Crates.
From S2P Require Import Posix.
From S2P Require Import RemoteProtocol.
From S2P Require Import Jobs.
From S2P Require Policy.
From S2P Require Import Program.
From S2P Require Import Host.
From S2P Require Import JobStore.
From S2P Require Import RemoteHelper.
#[local] Open Scope string_scope.
#[local] Open Scope list_scope.
#[local] Open Scope Z_scope.

(** ** Programs that leave the relay alone *)

Definition sent (h : Host) : list Frame := r_sent (h_relay h).

(** What is still to come from the child. *)
Definition events (k : StreamKind) (h : Host) : list ChildEvent :=
  match k with OfStdout => h_stdout h | OfStderr => h_stderr h end.

(** What programs that neither send nor spawn nor read from the child keep. *)
Record same (h h' : Host) : Prop := {
  sm_sent : sent h' = sent h;
  sm_spawned : h_spawned h' = h_spawned h;
  sm_instant : h_instant h <= h_instant h';
  sm_events k : events k h' = events k h;
}.
#[export] Instance same_preorder : PreOrder same.
Proof.
  split; [by split|]. intros x y z [] []. split; [congruence|congruence|lia|].
  intros k. by rewrite sm_events1.
Qed.

Definition quiet (c : hcall) : bool :=
  match c with RecvInput | TryRecvInput | TrySend _ | Spawn _ | TryRecvChild => false | _ => true end.
Notation silent := (only (fun c => quiet c = true)).

Lemma step_writer_sent a r : r_sent (step_writer a r) = r_sent r.
Proof.
  unfold step_writer. destruct a, (r_open r), (r_writing r), (r_queue r); try done;
    (destruct (if io then _ else _); [destruct (checked_add _ _ _)|]; done).
Qed.

Lemma others_same ch h : same h (others ch h) /\ h_incoming (others ch h) = h_incoming h.
Proof.
  split; [split|]; try done. unfold sent, others. simpl. generalize (h_relay h).
  induction (ch_writer ch) as [|a l IH]; intros r; simpl; [done|].
  by rewrite IH, step_writer_sent.
Qed.

Lemma quiet_same c ch h : quiet c = true ->
  same h (exec c ch h).2 /\ h_incoming (exec c ch h).2 = h_incoming h.
Proof.
  destruct c; simpl; try done; intros _; try (by repeat split).
  - by destruct (Posix.exec c (ch_fs ch) (h_files h)).
  - split; [split|]; simpl; try done. lia.
Qed.

Section silent.
Context `{Posix.Strerror} `{Sha2, HmacSha2} `{Hex} `{!Json DiskJobRecord}.
Context `{!JsonSer Policy.PolicyIr, !Json Policy.PolicyDocument}.

Lemma silent_store_uid : silent JobStore.effective_uid.
Proof. unfold JobStore.effective_uid. calls_tac. Qed.
Hint Resolve silent_store_uid : calls.
Lemma silent_existing p : silent (ensure_existing_private_regular p).
Proof. unfold ensure_existing_private_regular. calls_tac. Qed.
Hint Resolve silent_existing : calls.
Lemma silent_sync_directory d : silent (sync_directory d).
Proof. unfold sync_directory. calls_tac. Qed.
Hint Resolve silent_sync_directory : calls.
Lemma silent_open_temporary n parent : silent (open_temporary n parent).
Proof. induction n as [|n IH]; cbn [open_temporary]; [done|]. calls_tac. Qed.
Hint Resolve silent_open_temporary : calls.
Lemma silent_create_new p bs : silent (create_new_private p bs).
Proof. unfold create_new_private. calls_tac. Qed.
Hint Resolve silent_create_new : calls.
Lemma silent_write_atomic p bs : silent (write_atomic_private p bs).
Proof. unfold write_atomic_private. calls_tac. Qed.
Hint Resolve silent_write_atomic : calls.
Lemma silent_read_private p n : silent (read_private_bounded p n).
Proof. unfold read_private_bounded. calls_tac. Qed.
Hint Resolve silent_read_private : calls.
Lemma silent_validate_root s : silent (validate_root s).
Proof. unfold validate_root. calls_tac. Qed.
Hint Resolve silent_validate_root : calls.
Lemma silent_prepare_root s : silent (prepare_root s).
Proof. unfold prepare_root. calls_tac. Qed.
Hint Resolve silent_prepare_root : calls.
Lemma silent_create_journal s j : silent (create_journal s j).
Proof. unfold create_journal. calls_tac. Qed.
Lemma silent_update_journal s j : silent (update_journal s j).
Proof. unfold update_journal. calls_tac. Qed.
Lemma silent_load_journal s j : silent (load_journal s j).
Proof. unfold load_journal. calls_tac. Qed.
Lemma silent_load_receipt s j : silent (load_receipt s j).
Proof. unfold load_receipt. calls_tac. Qed.
Lemma silent_persist_receipt s r : silent (persist_receipt s r).
Proof. unfold persist_receipt. calls_tac. Qed.

Lemma silent_unix_ms : silent unix_ms.
Proof. unfold unix_ms. calls_tac. Qed.
Lemma silent_uid : silent effective_uid.
Proof. unfold effective_uid. calls_tac. Qed.
Lemma silent_spawn_thread n c : silent (spawn_thread n c).
Proof. unfold spawn_thread. calls_tac. Qed.
Lemma silent_validate_executable p : silent (validate_executable p).
Proof. unfold validate_executable. calls_tac. Qed.
Lemma silent_validate_cwd p : silent (validate_cwd p).
Proof. unfold validate_cwd. calls_tac. Qed.
Lemma silent_fixed_directory uid p : silent (fixed_directory uid p).
Proof. unfold fixed_directory. calls_tac. Qed.
Hint Resolve silent_unix_ms silent_uid silent_validate_executable silent_validate_cwd
  silent_fixed_directory silent_update_journal : calls.
Lemma silent_fixed_store uid : silent (fixed_job_store uid).
Proof. unfold fixed_job_store. calls_tac. Qed.
Hint Resolve silent_fixed_store : calls.
Lemma silent_prepare start : silent (prepare start).
Proof. unfold prepare. calls_tac. Qed.
Lemma silent_kill x : silent (kill_child x).
Proof. unfold kill_child. calls_tac. Qed.
Lemma silent_confirm s x : silent (confirm_kill s x).
Proof. unfold confirm_kill. calls_tac. Qed.
Lemma silent_poll x : silent (poll_status x).
Proof. unfold poll_status. calls_tac. Qed.
End silent.

#[export] Hint Resolve silent_create_journal silent_update_journal silent_load_journal
  silent_load_receipt silent_persist_receipt silent_unix_ms silent_uid silent_spawn_thread
  silent_fixed_store silent_prepare silent_kill silent_confirm silent_poll : calls.

(** ** What programs return *)

Fixpoint yields {A} (P : A -> Prop) (p : hprog A) : Prop :=
  match p with
  | Ret a => P a
  | Spin => True
  | Call _ k => forall r, yields P (k r)
  end.
(** What a fallible program returns if it does not fail. *)
Definition gives {E A} (P : A -> Prop) (p : hprog (result E A)) : Prop :=
  yields (fun r => forall a, r = Ok a -> P a) p.

Lemma yields_mono {A} (P Q : A -> Prop) (p : hprog A) :
  (forall a, P a -> Q a) -> yields P p -> yields Q p.
Proof. intros HPQ. induction p; simpl; naive_solver. Qed.
Lemma yields_pbind {A B} (P : B -> Prop) (Q : A -> Prop) (p : hprog A) (k : A -> hprog B) :
  yields Q p -> (forall a, Q a -> yields P (k a)) -> yields P (pbind p k).
Proof. intros Hp Hk. induction p as [a| |c k' IH]; simpl in *; auto. Qed.
Lemma gives_bind {E A B} (P : B -> Prop) (Q : A -> Prop) (p : hprog (result E A))
    (k : A -> hprog (result E B)) :
  gives Q p -> (forall a, Q a -> gives P (k a)) -> gives P (rpbind p k).
Proof.
  intros Hp Hk. eapply yields_pbind; [exact Hp|]. intros [a|e] Ha; [by apply Hk, Ha|done].
Qed.
Lemma gives_any {E A} (p : hprog (result E A)) : gives (fun _ => True) p.
Proof. unfold gives. induction p; simpl; auto. Qed.
Lemma yields_any {A} (p : hprog A) : yields (fun _ => True) p.
Proof. induction p; simpl; auto. Qed.
Lemma gives_ret {E A} (P : A -> Prop) (r : result E A) :
  (forall a, r = Ok a -> P a) -> gives P (Ret r).
Proof. done. Qed.

(** ** The child's output *)

(** The data read, of a list of events. *)
Definition produced (l : list ChildEvent) : bytes :=
  List.concat (map (fun e => match e with Chunk _ data => data | _ => [] end) l).
Lemma produced_app l1 l2 : produced (l1 ++ l2) = produced l1 ++ produced l2.
Proof. unfold produced. by rewrite map_app, concat_app. Qed.

Definition event_kind (e : ChildEvent) : StreamKind :=
  match e with Chunk k _ | Closed k | ReadFailed k => k end.

Lemma read_child_stream_kind k reads e : e ∈ read_child_stream k reads -> event_kind e = k.
Proof.
  induction reads as [|[[|b data]|err] reads IH]; simpl; rewrite ?elem_of_cons, ?elem_of_nil;
    [done|by intros [->|[]]| |by intros [->|[]]].
  intros [->|Hin]; [done|auto].
Qed.
(** [Closed] is the last event of a stream. *)
Lemma read_child_stream_closed k reads pre l :
  read_child_stream k reads = pre ++ l -> Closed k ∈ pre -> l = [].
Proof.
  revert pre. induction reads as [|[[|b data]|err] reads IH]; simpl; intros [|e pre] E;
    rewrite ?elem_of_cons, ?elem_of_nil; try done; injection E as <- E.
  - symmetry in E. by apply app_nil in E as [_ ->].
  - intros [Hc|Hin]; [done|by eapply IH].
  - symmetry in E. by apply app_nil in E as [_ ->].
Qed.

(** Only [TryRecvChild] takes from the child. *)
Definition childless (c : hcall) : Prop := match c with TryRecvChild => False | _ => True end.

Lemma events_others ch h k : events k (others ch h) = events k h.
Proof. by destruct k. Qed.
Lemma events_exec c ch h k : childless c -> events k (exec c ch h).2 = events k h.
Proof.
  destruct c; simpl; try done; intros _.
  - by destruct (Posix.exec c (ch_fs ch) (h_files h)).
  - by destruct (h_incoming h).
  - destruct (ch_ready ch); [|done]. by destruct (h_incoming h).
  - by destruct (try_send c (h_relay h)).
  - by destruct (ch_fault ch).
Qed.

(** An event that was received was the next of its list. *)
Lemma next_child_takes first h e h' : next_child first h = (Some e, h') ->
  exists k, events k h = e :: events k h' /\ forall k', k' <> k -> events k' h' = events k' h.
Proof.
  unfold next_child. destruct first.
  - destruct (h_stdout h) as [|e' l] eqn:E; [by destruct (h_stderr h)|]. intros [= <- <-].
    exists OfStdout. split; [exact E|]. by intros [].
  - destruct (h_stdout h) as [|o lo] eqn:Eo; destruct (h_stderr h) as [|e' l] eqn:E; try done;
      intros [= <- <-]; exists OfStderr; (split; [exact E|]; intros []; simpl; done).
Qed.

(** Streams and termination as they were, or termination begun. *)
Record similar (x x' : JobState) : Prop := {
  si_stream k : stream_of k x' = stream_of k x;
  si_termination : termination x' = None -> termination x = None;
}.
Lemma similar_refl x : similar x x.
Proof. by split. Qed.
Lemma similar_trans x y z : similar x y -> similar y z -> similar x z.
Proof. intros [] []. split; [congruence|auto]. Qed.
Lemma similar_termination t x : similar x (with_termination t x).
Proof. split; [by intros []|]. simpl. by destruct (termination x). Qed.

(** A chunk was hashed, or termination begun. *)
Record took (k : StreamKind) (data : bytes) (x x' : JobState) : Prop := {
  tk_closed k' : is_closed (stream_of k' x') = is_closed (stream_of k' x);
  tk_hash k' : termination x' = None ->
    hash (stream_of k' x') = hash (stream_of k' x) ++ (if decide (k' = k) then data else []);
  tk_termination : termination x' = None -> termination x = None;
}.

Lemma with_stream_of k s x k' :
  stream_of k' (with_stream k s x) = if decide (k' = k) then s else stream_of k' x.
Proof. by destruct k, k'. Qed.

Section child.
Context `{Posix.Strerror} `{Sha2, HmacSha2} `{Hex} `{!Json DiskJobRecord} (start : StartFrame).

Lemma input_similar x :
  yields (fun r => match r with inl x' | inr x' => similar x x' end) (input_step start x).
Proof.
  intros [[e|e|]| |]; simpl; try by split.
  destruct (frame e); try apply similar_termination. case_bool_decide; apply similar_termination.
Qed.
Lemma kill_similar x : gives (similar x) (kill_child x).
Proof.
  unfold kill_child. destruct (_ && _); [|apply gives_ret; by intros ? [= <-]].
  intros [u|e]; simpl.
  - by intros now ? [= <-].
  - unfold rpbind, within, os, pmap_err. simpl. intros [s|e']; simpl; by intros ? [= <-].
Qed.
Lemma poll_similar x : gives (similar x) (poll_status x).
Proof.
  unfold poll_status. destruct (status x); [apply gives_ret; by intros ? [= <-]|].
  unfold rpbind, within, os, pmap_err. simpl. intros [s|e']; simpl; by intros ? [= <-].
Qed.
Lemma deadlines_similar now x : similar x (observe_deadlines start now x).
Proof.
  unfold observe_deadlines. apply similar_trans with (if relay_deadline_unix_ms start <? now
    then with_relay false x else x); [by destruct (_ <? _)|].
  destruct (_ <=? _); [apply similar_termination|apply similar_refl].
Qed.

Lemma chunk_took k data x : yields (took k data x) (take_chunk start k data x).
Proof.
  assert (forall b s, s = stream_of k x -> took k data x (with_stream k
    {| offset := b; hash := hash s ++ data; is_closed := is_closed s |} x)) as Hput.
  { intros b s ->. split; [| |done].
    - intros k'. rewrite with_stream_of. by case_decide as E; [rewrite E|].
    - intros k' _. rewrite with_stream_of. case_decide as E; [by rewrite E|by rewrite app_nil_r]. }
  assert (forall x', (forall k', stream_of k' x' = stream_of k' x) -> termination x' = termination x ->
    forall b, took k data x (with_stream k
    {| offset := b; hash := hash (stream_of k x) ++ data; is_closed := is_closed (stream_of k x) |} x'))
    as Hput'.
  { intros x' Es Et b. split.
    - intros k'. rewrite with_stream_of, Es. by case_decide as E; [rewrite E|].
    - intros k' _. rewrite with_stream_of, Es. case_decide as E; [by rewrite E|by rewrite app_nil_r].
    - simpl. by rewrite Et. }
  unfold take_chunk. destruct (_ <? _).
  - split; simpl; [by intros []| |]; by destruct (termination x).
  - eapply yields_pbind; [apply yields_any|]. intros sent _. simpl.
    destruct (relay_available x && negb sent); by apply Hput'.
Qed.

Lemma heartbeat_similar store started x : gives (similar x) (heartbeat start store started x).
Proof.
  unfold heartbeat. eapply yields_pbind; [apply yields_any|]. intros now _.
  destruct (_ <=? _); [|apply gives_ret; by intros ? [= <-]].
  eapply yields_pbind; [apply yields_any|]. intros now' _. cbv zeta.
  apply (gives_bind _ (fun _ => True)); [apply gives_any|]. intros t _.
  apply (gives_bind _ (fun _ => True)); [apply gives_any|]. intros j _.
  apply (gives_bind _ (fun _ => True)); [apply gives_any|]. intros _ _.
  eapply yields_pbind; [apply yields_any|]. intros sent _.
  eapply yields_pbind; [apply yields_any|]. intros now3 _. intros a [= <-]. by destruct (relay_available x && negb sent).
Qed.

(** All events of the two streams. *)
Context (events0 : StreamKind -> list ChildEvent).
Context (kinds : forall k e, e ∈ events0 k -> event_kind e = k).
Context (last_closed : forall k pre l, events0 k = pre ++ l -> Closed k ∈ pre -> l = []).

(** What the loop knows of a stream is what it read of it. *)
Definition covered (x : JobState) (h : Host) : Prop := forall k, exists pre,
  events0 k = pre ++ events k h /\
  (is_closed (stream_of k x) = true -> Closed k ∈ pre) /\
  (termination x = None -> hash (stream_of k x) = produced pre).

(** Both streams were read to their end, and unless the job was terminated all
    of it was hashed. *)
Definition finished (x : JobState) : Prop := forall k,
  Closed k ∈ events0 k /\ (termination x = None -> hash (stream_of k x) = produced (events0 k)).

Lemma covered_start x h : (forall k, events k h = events0 k) ->
  (forall k, stream_of k x = fresh_stream) -> covered x h.
Proof. intros He Hx k. exists []. rewrite He, Hx. by split_and!. Qed.

Lemma covered_similar x x' h h' : similar x x' -> (forall k, events k h' = events k h) ->
  covered x h -> covered x' h'.
Proof.
  intros [Es Et] Ee Hc k. destruct (Hc k) as (pre & E0 & Hcl & Hh). exists pre.
  rewrite Ee, Es. auto.
Qed.

Lemma covered_finished x h : covered x h -> (forall k, is_closed (stream_of k x) = true) ->
  finished x.
Proof.
  intros Hc Hcl k. destruct (Hc k) as (pre & E0 & Hin & Hh). specialize (Hin (Hcl k)).
  pose proof (last_closed k _ _ E0 Hin) as E. rewrite E, app_nil_r in E0. by rewrite E0.
Qed.

Section runs.
Context (okay : choice -> Prop) (Sound : Host -> Prop).
Notation anywlp := (wlp exec (Host.rely okay Sound) (fun _ _ => True) okay).

Lemma wlp_apart {A} (P : A -> Prop) (p : hprog A) h : only childless p -> yields P p ->
  anywlp p (fun a h' => P a /\ forall k, events k h' = events k h) h.
Proof.
  revert h. induction p as [a| |c k IH]; intros h; simpl; [by repeat split|done|].
  intros [Hc Hp] Hy h1 ch (_ & ch1 & _ & ->) _. split; [done|].
  eapply wlp_mono; [by apply IH|]. intros a h' [HP He]. split; [done|].
  intros k'. by rewrite He, events_exec, events_others.
Qed.

(** A part that does not read from the child. *)
Lemma wlp_part {A B} (P : A -> Prop) (p : hio A) (k : A -> hio B)
    (Q : result anyhow B -> Host -> Prop) h :
  only childless p -> gives P p -> (forall e h', Q (Err e) h') ->
  (forall a h', P a -> (forall k, events k h' = events k h) -> anywlp (k a) Q h') ->
  anywlp (rpbind p k) Q h.
Proof.
  intros Hp Hg Herr Hk. apply wlp_rpbind. eapply wlp_mono; [by apply wlp_apart; [|exact Hg]|].
  intros [a|e] h' [HP He]; [apply Hk; [by apply HP|done]|apply Herr].
Qed.

Lemma wlp_child_covered x h : covered x h ->
  anywlp (child_step start x) (fun r h' => match r with inl x' | inr x' => covered x' h' end) h.
Proof.
  intros Hx. apply wlp_pbind. intros h1 ch (_ & ch1 & _ & ->) _. split; [done|].
  set (h1 := others ch1 h). assert (covered x h1) as Hx1.
  { eapply covered_similar; [apply similar_refl|intros k; apply events_others|done]. }
  simpl. destruct (ch_event ch); [|exact Hx1].
  destruct (next_child (ch_first ch) h1) as [[e|] h2] eqn:En.
  2:{ unfold next_child in En.
      destruct (ch_first ch), (h_stdout h1), (h_stderr h1); try discriminate En;
        injection En as <-; exact Hx1. }
  apply next_child_takes in En as (k & Ek & Eo). simpl.
  assert (forall x', (forall k', is_closed (stream_of k' x') = true ->
      is_closed (stream_of k' x) = true \/ e = Closed k') ->
    (termination x' = None -> termination x = None /\ forall k', hash (stream_of k' x') =
      hash (stream_of k' x) ++ (if decide (k' = k) then produced [e] else [])) -> covered x' h2)
    as Hnext.
  { intros x' Hcl Ht k'. destruct (Hx1 k') as (pre & E0 & Hin & Hh).
    destruct (decide (k' = k)) as [->|Hne].
    - exists (pre ++ [e]). rewrite <-app_assoc. simpl. rewrite <-Ek. split; [done|]. split.
      + intros [Hc| ->]%Hcl; rewrite elem_of_app, list_elem_of_singleton; [left|by right]; auto.
      + intros Hn. destruct (Ht Hn) as [Hn' Eh]. rewrite Eh, produced_app, Hh by done.
        by rewrite decide_True.
    - exists pre. rewrite Eo by done. split; [done|]. split.
      + intros [Hc| ->]%Hcl; [by apply Hin|]. destruct (Hx1 k) as (pre2 & E2 & _).
        specialize (kinds k (Closed k')). simpl in kinds. exfalso. apply Hne, kinds.
        rewrite E2, Ek. apply elem_of_app. right. by left.
      + intros Hn. destruct (Ht Hn) as [Hn' Eh]. rewrite Eh, decide_False, app_nil_r by done. auto. }
  assert (event_kind e = k) as Hke.
  { apply kinds. destruct (Hx1 k) as (pre2 & -> & _). rewrite Ek. apply elem_of_app. right. by left. }
  destruct e as [k' data|k'|k']; simpl in Hke; subst k'.
  - apply wlp_pbind. eapply wlp_mono; [apply (wlp_apart (took k data x)); [|apply chunk_took]|].
    { unfold take_chunk, try_frame. destruct (_ <? _); [done|]. calls_tac. }
    intros x' h3 [[Hcl Hh Ht] Ee]. simpl.
    eapply covered_similar; [apply similar_refl|exact Ee|]. apply Hnext.
    + intros k'. rewrite Hcl. by left.
    + intros Hn. split; [auto|]. intros k'. rewrite Hh by done. unfold produced. simpl.
      by rewrite app_nil_r.
  - simpl. apply Hnext.
    + intros k'. rewrite with_stream_of. case_decide as E; [intros _; right; by rewrite E|by left].
    + intros Hn. split; [done|]. intros k'. rewrite with_stream_of.
      case_decide as E; [rewrite E|]; simpl; by rewrite app_nil_r.
  - simpl. apply Hnext; [intros k'; by left|]. simpl. by destruct (termination x).
Qed.

Lemma wlp_input_covered x h : covered x h ->
  anywlp (input_step start x) (fun r h' => match r with inl x' | inr x' => covered x' h' end) h.
Proof.
  intros Hx. eapply wlp_mono; [apply wlp_apart; [by apply only_pbind; [apply only_call|]|
    apply input_similar]|].
  intros [x'|x'] h' [Hs He]; by eapply covered_similar.
Qed.

Lemma wlp_drain_covered {X} (body : JobState -> hprog (JobState + JobState)) fuel
    (k : JobState -> hprog X) (Q : X -> Host -> Prop) x h :
  (forall x h, covered x h ->
     anywlp (body x) (fun r h' => match r with inl x' | inr x' => covered x' h' end) h) ->
  covered x h -> (forall x' h', covered x' h' -> anywlp (k x') Q h') ->
  anywlp (pbind (ploop fuel body x) k) Q h.
Proof.
  intros Hb Hx Hk. apply wlp_pbind. eapply wlp_mono; [by apply (wlp_ploop _ _ _ _ _ _ covered covered)|].
  intros x' h'. apply Hk.
Qed.

(** A step of the loop that is similar. *)
Lemma wlp_similar {B} (p : hio JobState) (k : JobState -> hio B)
    (Q : result anyhow B -> Host -> Prop) x h :
  only childless p -> gives (similar x) p -> covered x h -> (forall e h', Q (Err e) h') ->
  (forall x' h', covered x' h' -> anywlp (k x') Q h') -> anywlp (rpbind p k) Q h.
Proof.
  intros Hp Hg Hx Herr Hk. eapply wlp_part; [done|exact Hg|done|].
  intros x' h' Hs He. apply Hk. by eapply covered_similar.
Qed.

Lemma quiet_childless {A} (p : hprog A) : only (fun c => quiet c = true) p -> only childless p.
Proof. apply only_mono. by intros []. Qed.

Lemma childless_heartbeat store started x : only childless (heartbeat start store started x).
Proof.
  pose proof (quiet_childless _ silent_unix_ms).
  assert (forall j, only childless (update_journal store j)) by (intros; apply quiet_childless; auto with calls).
  unfold heartbeat, try_frame. calls_tac.
Qed.

(** Every iteration. *)
Lemma wlp_iteration_covered fuel store started x h : covered x h ->
  anywlp (job_iteration fuel start store started x)
    (fun r h' => match r with
                 | Ok (inl x') => covered x' h'
                 | Ok (inr x') => finished x'
                 | Err _ => True
                 end) h.
Proof.
  intros Hx. unfold job_iteration.
  eapply (wlp_part (fun _ => True)); [apply quiet_childless, silent_unix_ms|apply gives_any|done|].
  intros now h1 _ He1. eapply (covered_similar x _ h h1) in Hx; [|apply deadlines_similar|exact He1].
  cbv zeta. eapply wlp_drain_covered; [apply wlp_input_covered|exact Hx|]. clear dependent x h h1.
  intros x h Hx. eapply wlp_similar; [apply quiet_childless, silent_kill|apply kill_similar|exact Hx|done|].
  clear dependent x h. intros x h Hx.
  eapply (wlp_part (fun _ => True)); [apply quiet_childless, silent_confirm|apply gives_any|done|].
  intros _ h1 _ He1. eapply (covered_similar x x h h1) in Hx; [|apply similar_refl|exact He1].
  eapply wlp_drain_covered; [apply wlp_child_covered|exact Hx|]. clear dependent x h h1.
  intros x h Hx. eapply wlp_similar; [apply quiet_childless, silent_poll|apply poll_similar|exact Hx|done|].
  clear dependent x h. intros x h Hx.
  eapply wlp_similar; [apply childless_heartbeat|apply heartbeat_similar|exact Hx|done|].
  clear dependent x h. intros x h Hx.
  destruct (_ && _ && _) eqn:Ed.
  - apply andb_true_iff in Ed as [[_ Eo]%andb_true_iff Ee]. eapply covered_finished; [done|]. by intros [].
  - apply wlp_pbind. eapply wlp_mono; [by apply (wlp_apart (fun _ => True)); [apply only_call|]|].
    intros u h' [_ He]. eapply covered_similar; [apply similar_refl|exact He|done].
Qed.
End runs.
End child.
