(* ===== verification/RemoteHelperTheory.v ===== *)
(** * serctl-remote: what the helper sends and what it runs

    [conversation] is the specification of the frames a job's helper puts on
    its relay: a Hello; then, unless the job is denied, output chunks at
    contiguous offsets within the budget and ordered heartbeats; then the
    receipt, whose digests are those of the output sent; then the Exit that
    says what the receipt says.  [authorised] is what must hold of the command
    that is run.  [wlp_serve] shows that every run of [serve_stdio] stays
    inside them at every moment, whatever files, clocks, child and relay do,
    and that a receipt on the relay is [Kept], which is whatever the caller of
    this file can show of a receipt that was persisted.  [attests] is what the
    loop's account of the child adds. *)

From S2P Require Import Prelude.
From S2P Require Import Bytes.
From S2P Require Import Text.
From S2P Require Import Crates.
From S2P Require Import Posix.
From S2P Require Import RemoteProtocol.
From S2P Require Import RemoteCodec.
From S2P Require Import RemoteSession.
From S2P Require Import Jobs.
From S2P Require Policy.
From S2P Require Import Program.
From S2P Require Import Host.
From S2P Require Import JobStore.
From S2P Require Import RemoteHelper.
From S2P Require Import RemoteHelperSteps.
#[local] Open Scope string_scope.
#[local] Open Scope list_scope.
#[local] Open Scope Z_scope.

(** ** The specification *)

(** What has been seen of a job: its output and its last heartbeat. *)
Record Seen := { s_out : bytes; s_err : bytes; s_ordinal : Z; s_elapsed : Z }.
Definition nothing_seen : Seen := {| s_out := []; s_err := []; s_ordinal := 0; s_elapsed := 0 |}.
Definition seen_of (k : StreamKind) (s : Seen) : bytes :=
  match k with OfStdout => s_out s | OfStderr => s_err s end.
Definition saw (k : StreamKind) (data : bytes) (s : Seen) : Seen :=
  match k with
  | OfStdout => {| s_out := s_out s ++ data; s_err := s_err s; s_ordinal := s_ordinal s;
                   s_elapsed := s_elapsed s |}
  | OfStderr => {| s_out := s_out s; s_err := s_err s ++ data; s_ordinal := s_ordinal s;
                   s_elapsed := s_elapsed s |}
  end.

Section spec.
Context `{Sha2, HmacSha2} (start : StartFrame).

Inductive streamed : list Frame -> Seen -> Prop :=
| streamed_nil : streamed [] nothing_seen
| streamed_output l s k data :
    streamed l s ->
    zlen (s_out s) + zlen (s_err s) + zlen data <= max_output_bytes start ->
    streamed (l ++ [output_frame k {| output_job_id := start_job_id start;
                                      output_offset := zlen (seen_of k s);
                                      output_data := data |}]) (saw k data s)
| streamed_heartbeat l s o t :
    streamed l s -> s_ordinal s < o <= U64_MAX -> s_elapsed s <= t <= U64_MAX ->
    streamed (l ++ [Heartbeat {| heartbeat_job_id := start_job_id start; ordinal := o;
                                 elapsed_ms := t; stdout_bytes := zlen (s_out s);
                                 stderr_bytes := zlen (s_err s) |}])
      {| s_out := s_out s; s_err := s_err s; s_ordinal := o; s_elapsed := t |}.

Definition receipt_body (out err : bytes) (o : ReceiptOutcome) (completed : Z) : ReceiptBody :=
  {| body_identity := start_identity start; body_run_as_uid := run_as_uid start;
     body_deadlines := start_deadlines start; body_max_output_bytes := max_output_bytes start;
     stdout_digest := sha256 out; stderr_digest := sha256 err;
     body_outcome := o; body_completed_unix_ms := completed |}.

(** The receipt of a job of which [s] was seen. *)
Definition receipt_for (s : Seen) (r : AuthenticatedReceipt) : Prop :=
  exists o completed,
    issue (receipt_body (s_out s) (s_err s) o completed) (start_receipt_token start) = Ok r /\
    match o with RExited c => is_i32 c | _ => True end /\ is_u64 completed.

Definition receipt_frame (r : AuthenticatedReceipt) : Frame :=
  Receipt {| receipt_job_id := start_job_id start; receipt_bytes := receipt_encode r |}.
Definition exit_frame (r : AuthenticatedReceipt) : Frame :=
  Exit {| exit_job_id := start_job_id start;
          outcome := wire_outcome (body_outcome (body r));
          completed_unix_ms := body_completed_unix_ms (body r) |}.
Definition denied_frame (e : anyhow) : Frame :=
  Error {| error_job_id := Some (start_job_id start); error_code := rs "start_denied";
           error_message := bounded_message e; retryable := false |}.

Inductive conversation : list Frame -> Prop :=
| conv_nil : conversation []
| conv_denied uid e :
    uid <> 0 -> conversation [hello_frame SUPPORTED_FEATURE_BITS uid; denied_frame e]
| conv_stream uid l s :
    uid <> 0 -> streamed l s -> conversation (hello_frame SUPPORTED_FEATURE_BITS uid :: l)
| conv_receipt uid l s r :
    uid <> 0 -> streamed l s -> receipt_for s r ->
    conversation (hello_frame SUPPORTED_FEATURE_BITS uid :: l ++ [receipt_frame r])
| conv_exit uid l s r :
    uid <> 0 -> streamed l s -> receipt_for s r ->
    conversation (hello_frame SUPPORTED_FEATURE_BITS uid :: l ++ [receipt_frame r; exit_frame r]).

Definition is_receipt (f : Frame) : bool := match f with Receipt _ => true | _ => false end.

Lemma streamed_no_receipt l s : streamed l s -> Forall (fun f => is_receipt f = false) l.
Proof.
  induction 1 as [|l s k data Hl IH _|l s o t Hl IH _ _]; [done|..]; apply Forall_app; (split; [done|]).
  - by destruct k; repeat constructor.
  - by repeat constructor.
Qed.
End spec.

Section authorised.
Context `{Sha2, Hex, !JsonSer Policy.PolicyIr, !Json Policy.PolicyDocument}.

(** The command is the one the request asks for, the request is what its
    digests say, its deadlines are in order, the identity is the helper's and
    not root's, and the policy the request names allows the intent. *)
Definition authorised (start : StartFrame) (cmd : Command) : Prop :=
  compute_start_input_digest start = start_input_digest start /\
  exists policy now executable cwd,
    Policy.compile_policy_json (policy_json start) = Ok policy /\
    hex_decode (Policy.digest policy) = Some (start_policy_digest start) /\
    deadlines_validate_at (start_deadlines start) now = Ok tt /\
    run_as_uid start <> 0 /\
    Policy.allowed (Policy.explain policy (typed_intent start (run_as_uid start) now)) = true /\
    resolve_executable (program start) = Ok executable /\
    cmd = make_command executable start cwd /\
    (RemoteProtocol.cwd start = None -> cwd = None).
End authorised.

Section prepare.
Context `{Posix.Strerror} `{Sha2, Hex} `{!JsonSer Policy.PolicyIr, !Json Policy.PolicyDocument}.

Lemma compile_policy_ok start policy : compile_policy start = Ok policy ->
  Policy.compile_policy_json (policy_json start) = Ok policy /\
  hex_decode (Policy.digest policy) = Some (start_policy_digest start).
Proof.
  unfold compile_policy. intros (p & Hp%map_err_ok & Hd)%rbind_ok.
  apply rbind_ok in Hd as (d & Hd%ok_or_ok & He). apply rbind_ok in He as ([] & Hb%ensure_ok & [= <-]).
  apply bool_decide_eq_true in Hb as ->. done.
Qed.

(** What [prepare] hands to [run_job]. *)
Record prepared_ok (start : StartFrame) (p : PreparedJob) : Prop := {
  po_identity : pj_identity p = start_identity start;
  po_deadlines : pj_deadlines p = start_deadlines start;
  po_authorised : authorised start (make_command (pj_executable p) start (pj_cwd p));
}.

Lemma prepare_gives start : gives (prepared_ok start) (prepare start).
Proof.
  unfold prepare. apply (gives_bind _ (fun _ => compute_start_input_digest start = start_input_digest start)).
  { apply gives_ret. intros a Hb%ensure_ok. by apply bool_decide_eq_true in Hb. }
  intros _ Hin. apply (gives_bind _ (fun p => compile_policy start = Ok p)); [by apply gives_ret|].
  intros policy (Hp & Hd)%compile_policy_ok.
  apply (gives_bind _ (fun _ => True)); [apply gives_any|]. intros now _. cbv zeta.
  apply (gives_bind _ (fun _ => deadlines_validate_at (start_deadlines start) now = Ok tt)).
  { apply gives_ret. intros [] Hv%map_err_ok. done. }
  intros _ Hv. apply (gives_bind _ (fun _ => True)); [apply gives_any|]. intros uid _.
  apply (gives_bind _ (fun _ => uid <> 0)).
  { apply gives_ret. intros _ Hb%ensure_ok. by apply negb_true_iff, Z.eqb_neq in Hb. }
  intros _ Hu. apply (gives_bind _ (fun _ => run_as_uid start = uid)).
  { apply gives_ret. intros _ Hb%ensure_ok. by apply Z.eqb_eq in Hb. }
  intros _ <-. apply (gives_bind _ (fun _ =>
    Policy.allowed (Policy.explain policy (typed_intent start (run_as_uid start) now)) = true)).
  { apply gives_ret. by intros _ Hb%ensure_ok. }
  intros _ Hall. apply (gives_bind _ (fun e => resolve_executable (program start) = Ok e));
    [by apply gives_ret|].
  intros executable He. apply (gives_bind _ (fun _ => True)); [apply gives_any|]. intros _ _.
  apply (gives_bind _ (fun d => RemoteProtocol.cwd start = None -> d = None)).
  { destruct (RemoteProtocol.cwd start); [|by apply gives_ret; intros ? [= <-]].
    eapply yields_mono; [|apply gives_any]. by intros. }
  intros d Hcwd. apply (gives_bind _ (fun _ => True)); [apply gives_any|]. intros store _.
  apply gives_ret. intros p [= <-]. split; [done|done|]. split; [done|].
  exists policy, now, executable, d. done.
Qed.
End prepare.

(** ** The job store *)

(** The directory of the store of a user, by the text of /etc/passwd. *)
Definition store_root (uid : Z) (passwd : str) : option str :=
  home ← head (omap (passwd_home uid) (lines passwd));
  Some (join (join home (rs ".serctl")) (rs "jobs")).

Section store.
Context `{Posix.Strerror} `{Sha2, Hex} `{!JsonSer Policy.PolicyIr, !Json Policy.PolicyDocument}.
Context (okay : choice -> Prop) (Sound : Host -> Prop).
Notation anywlp := (wlp exec (Host.rely okay Sound) (fun _ _ => True) okay).

(** It is the store of [uid] in an account database the host has shown. *)
Definition home_store (uid : Z) (s : JobStore) : Prop :=
  exists ch, okay ch /\ store_root uid (ch_text ch (rs "/etc/passwd")) = Some (root s).

Lemma wlp_yields {A} (P : A -> Prop) (p : hprog A) h : yields P p -> anywlp p (fun a _ => P a) h.
Proof. revert h. induction p as [a| |c k IH]; intros h Hy; simpl; [done|done|]. split; [done|]. by apply IH. Qed.

Lemma wlp_then {A B} (P : A -> Prop) (p : hio A) (k : A -> hio B) (Q : result anyhow B -> Prop) h :
  gives P p -> (forall e, Q (Err e)) -> (forall a h', P a -> anywlp (k a) (fun r _ => Q r) h') ->
  anywlp (rpbind p k) (fun r _ => Q r) h.
Proof.
  intros Hp He Hk. apply wlp_rpbind. eapply wlp_mono; [by apply wlp_yields|].
  intros [a|e] h' Ha; [by apply Hk, Ha|apply He].
Qed.

Lemma wlp_fixed_store uid h :
  anywlp (fixed_job_store uid) (fun r _ => forall s, r = Ok s -> home_store uid s) h.
Proof.
  unfold fixed_job_store. apply wlp_rpbind. do 2 apply wlp_pmap_err. intros h1 ch _ Hch.
  split; [done|]. simpl. unfold answer. destruct (ch_fault ch); [done|]. simpl.
  eapply wlp_mono with (Q := fun r _ => forall s, r = Ok s ->
    store_root uid (ch_text ch (rs "/etc/passwd")) = Some (root s)); [|intros r h' Hr s E; exists ch; auto].
  set (passwd := ch_text ch _). apply wlp_yields. unfold store_root.
  apply (gives_bind _ (fun _ => True)); [apply gives_any|]. intros _ _.
  apply (gives_bind _ (fun home => head (omap (passwd_home uid) (lines passwd)) = Some home)).
  { apply gives_ret. by intros home ?%ok_or_ok. }
  intros home ->. simpl. repeat (apply (gives_bind _ (fun _ => True)); [apply gives_any|]; intros ? _).
  apply gives_ret. intros s Hs. unfold store_new in Hs. by checks.
Qed.

Lemma wlp_prepare_store start h :
  anywlp (prepare start) (fun r _ => forall p, r = Ok p -> home_store (run_as_uid start) (pj_store p)) h.
Proof.
  unfold prepare.
  do 2 (apply (wlp_then (fun _ => True)); [apply gives_any|done|intros ? ? _]).
  apply (wlp_then (fun _ => True)); [apply gives_any|done|intros now ? _]. cbv zeta.
  apply (wlp_then (fun _ => True)); [apply gives_any|done|intros ? ? _].
  apply (wlp_then (fun _ => True)); [apply gives_any|done|intros uid ? _].
  apply (wlp_then (fun _ => True)); [apply gives_any|done|intros ? ? _].
  apply (wlp_then (fun _ => run_as_uid start = uid)); [|done|intros _ ? <-].
  { apply gives_ret. intros _ Hb%ensure_ok. by apply Z.eqb_eq in Hb. }
  do 4 (apply (wlp_then (fun _ => True)); [apply gives_any|done|intros ? ? _]).
  apply wlp_rpbind. eapply wlp_mono; [apply wlp_fixed_store|].
  intros [store|e] ? Hs; [|done]. intros p [= <-]. by apply Hs.
Qed.
End store.

(** ** Every run of a job's helper *)

Section serve.
Context `{Posix.Strerror} `{Sha2, HmacSha2} `{Hex} `{!Json DiskJobRecord}.
Context `{!JsonSer Policy.PolicyIr, !Json Policy.PolicyDocument}.
Context (start : StartFrame).
Context (wf : wf_start start) (oks : start_ok start).

(** What the threads that read the child's output get. *)
Context (reads : StreamKind -> list (result Posix.errno bytes)).
Definition output_events (k : StreamKind) : list ChildEvent := read_child_stream k (reads k).

(** The receipt was issued when both streams had been read to their end, and
    if it says that the job exited by itself, [s] is all they had. *)
Definition attests (s : Seen) (r : AuthenticatedReceipt) : Prop :=
  (forall k, Closed k ∈ output_events k) /\
  forall c, body_outcome (body r) = RExited c -> c <> 125 ->
    forall k, seen_of k s = produced (output_events k).

(** What the outside may do. *)
Context (okay : choice -> Prop).

(** What is known of a receipt once it was persisted. *)
Context (Kept : Host -> AuthenticatedReceipt -> Prop).
Context (kept_others : forall ch h r, okay ch -> Kept h r -> Kept (others ch h) r).
Context (kept_relay : forall f h r, Kept h r -> Kept (on_relay f h) r).

(** What holds of the host at all moments, whatever anybody does. *)
Context (Sound : Host -> Prop).

Notation rely := (Host.rely okay Sound).

(** A frame carries a receipt for a job of which [s] was seen, which is kept. *)
Definition known (h : Host) (f : Frame) : Prop :=
  exists s r, f = receipt_frame start r /\ receipt_for start s r /\ attests s r /\ Kept h r.

Record Inv (h : Host) : Prop := {
  inv_conversation : conversation start (sent h);
  inv_authorised cmd : h_spawned h = Some cmd -> authorised start cmd;
  inv_kept f : f ∈ sent h -> is_receipt f = true -> known h f;
}.
(** No receipt was sent. *)
Definition early (h : Host) : Prop := Forall (fun f => is_receipt f = false) (sent h).

Notation hwlp := (wlp exec rely (fun _ => Inv) okay).
Notation anywlp := (wlp exec rely (fun _ _ => True) okay).

(** What is known of the store of a prepared job. *)
Context (StoreOk : JobStore -> Prop).
Context (keep_store : forall h,
  anywlp (prepare start) (fun r _ => forall p, r = Ok p -> StoreOk (pj_store p)) h).
Context (keep_persist : forall store r h, StoreOk store ->
  anywlp (persist_receipt store r) (fun res h' => is_ok res = true -> Kept h' r) h).
Context (keep_update : forall store j r h, Kept h r ->
  anywlp (update_journal store j) (fun _ h' => Kept h' r) h).

Lemma wlp_conj {A} (p : hprog A) (Q Q' : A -> Host -> Prop) h :
  hwlp p Q h -> anywlp p Q' h -> hwlp p (fun a h => Q a h /\ Q' a h) h.
Proof.
  revert h. induction p as [a| |c k IH]; intros h; simpl; [done|done|].
  intros Hp Hp2 h1 ch Hr Ha. destruct (Hp h1 ch Hr Ha), (Hp2 h1 ch Hr Ha). auto.
Qed.

Lemma early_same h h' : early h -> same h h' -> early h'.
Proof. intros He Hs. unfold early. by rewrite (sm_sent _ _ Hs). Qed.

Lemma inv_same h h' : Inv h -> early h -> same h h' -> Inv h'.
Proof.
  intros [] He Hs. split; rewrite ?(sm_sent _ _ Hs), ?(sm_spawned _ _ Hs); [done|done|].
  intros f Hf Hr. unfold early in He. rewrite Forall_forall in He.
  specialize (He f Hf). congruence.
Qed.

Lemma rely_same h h' : rely h h' -> same h h' /\ h_incoming h' = h_incoming h.
Proof. intros (_ & ch & _ & ->). apply others_same. Qed.

Lemma inv_rely h h' : Inv h -> rely h h' -> Inv h'.
Proof.
  intros [Hc Ha Hk] (_ & ch & Hch & ->). pose proof (others_same ch h) as [[Es Ep _] _].
  split; rewrite ?Es, ?Ep; [done|done|]. intros f Hf Hr. destruct (Hk f Hf Hr) as (s & r & -> & ? & ? & ?).
  exists s, r. eauto 6.
Qed.

(** A program that leaves the relay alone, and what it returns. *)
Lemma wlp_silent {A} (P : A -> Prop) (p : hprog A) h :
  silent p -> yields P p -> Inv h -> early h ->
  hwlp p (fun a h' => P a /\ same h h' /\ h_incoming h' = h_incoming h) h.
Proof.
  revert h. induction p as [a| |c k IH]; intros h; simpl; [by repeat split|done|].
  intros [Hq Hp] Hy Hi He h1 ch Hr _. destruct (rely_same _ _ Hr) as [Hs1 Ei1].
  destruct (quiet_same c ch h1 Hq) as [Hs2 Ei2].
  assert (same h (exec c ch h1).2) as Hs by by transitivity h1.
  split; [by eapply inv_same|].
  eapply wlp_mono; [apply IH; [done|done|by eapply inv_same|by eapply early_same]|].
  intros a h' (HP & Hs' & Ei'). split; [done|]. split; [by transitivity (exec c ch h1).2|congruence].
Qed.

(** Sending a frame: the relay takes it or not. *)
Lemma wlp_send_any f acked (Q : bool -> Host -> Prop) h :
  Inv h -> conversation start (sent h ++ [f]) ->
  (is_receipt f = true -> known h f) ->
  (forall h' (b : bool), Inv h' -> h_incoming h' = h_incoming h -> h_spawned h' = h_spawned h ->
     h_instant h <= h_instant h' -> (forall k, events k h' = events k h) ->
     sent h' = (if b then sent h ++ [f] else sent h) -> Q b h') ->
  hwlp (sys (TrySend {| oc_frame := f; oc_acknowledged := acked |})) Q h.
Proof.
  intros Hi Hc Hf HQ h1 ch Hr _. destruct (rely_same _ _ Hr) as [Hs1 Ei1].
  pose proof (inv_rely _ _ Hi Hr) as Hi1. destruct Hr as (_ & ch1 & Hch1 & ->).
  set (h1 := others ch1 h) in *.
  assert (forall (b : bool) g, sent (on_relay g h1) = (if b then sent h1 ++ [f] else sent h1) ->
    Inv (on_relay g h1) /\ wlp exec rely (fun _ => Inv) okay (Ret b) Q (on_relay g h1)) as Hend.
  { intros b g E. assert (Inv (on_relay g h1)) as Hi'.
    { split.
      - rewrite E, (sm_sent _ _ Hs1). destruct b; [done|apply Hi].
      - apply Hi1.
      - intros f' Hf' Hr. rewrite E in Hf'.
        assert (f' ∈ sent h1 \/ f' = f) as [Hin| ->].
        { destruct b; [|by left]. rewrite elem_of_app, list_elem_of_singleton in Hf'. tauto. }
        + destruct (inv_kept _ Hi1 f' Hin Hr) as (s & r & -> & ? & ? & ?). exists s, r. eauto 6.
        + destruct (Hf Hr) as (s & r & -> & ? & ? & ?). exists s, r. do 3 (split; [done|]).
          by apply kept_relay, kept_others. }
    split; [done|]. apply HQ; try done; [apply Hs1..|]. by rewrite E, (sm_sent _ _ Hs1). }
  simpl. unfold try_send. destruct (_ && _); simpl; by apply Hend.
Qed.

(** A frame that is not a receipt. *)
Lemma wlp_send f acked (Q : bool -> Host -> Prop) h :
  early h -> is_receipt f = false -> Inv h -> conversation start (sent h ++ [f]) ->
  (forall h' (b : bool), Inv h' -> early h' -> h_incoming h' = h_incoming h ->
     h_spawned h' = h_spawned h -> h_instant h <= h_instant h' ->
     (forall k, events k h' = events k h) ->
     sent h' = (if b then sent h ++ [f] else sent h) -> Q b h') ->
  hwlp (sys (TrySend {| oc_frame := f; oc_acknowledged := acked |})) Q h.
Proof.
  intros He Hf Hi Hc HQ. apply wlp_send_any; [done|done|by rewrite Hf|].
  intros h' b Hi' Ei Ep Hin Ee E. apply HQ; try done. unfold early. rewrite E.
  destruct b; [|done]. apply Forall_app. by repeat constructor.
Qed.

(** ** The loop *)

Definition elapsed (started now : Z) : Z := Z.min ((now - started) / MILLISECOND) U64_MAX.

Record tracks (started : Z) (x : JobState) (h : Host) : Prop := {
  tr_inv : Inv h;
  tr_early : early h;
  tr_started : started <= h_instant h;
  tr_ordinal : record_heartbeat_ordinal (journal x) = heartbeat_ordinal x;
  tr_offsets : offset (out x) = zlen (hash (out x)) /\ offset (err x) = zlen (hash (err x)) /\
    offset (out x) + offset (err x) <= max_output_bytes start;
  tr_seen : exists uid l s, uid <> 0 /\
    sent h = hello_frame SUPPORTED_FEATURE_BITS uid :: l /\ streamed start l s /\
    (relay_available x = true -> s_out s = hash (out x) /\ s_err s = hash (err x)) /\
    s_ordinal s <= heartbeat_ordinal x /\ s_elapsed s <= elapsed started (h_instant h);
}.

Lemma elapsed_mono started a b : a <= b -> elapsed started a <= elapsed started b.
Proof.
  intros Hab. unfold elapsed. apply Z.min_le_compat_r, Z.div_le_mono; [done|lia].
Qed.

Lemma tracks_same started x h h' : tracks started x h -> same h h' -> tracks started x h'.
Proof.
  intros [Hi He Hst Ho Hof (uid & l & s & Hu & Es & Hl & Hr & Hso & Hse)] Hs.
  pose proof (sm_instant _ _ Hs). split; [by eapply inv_same|by eapply early_same|lia|done|done|].
  exists uid, l, s. rewrite (sm_sent _ _ Hs). split_and!; try done.
  pose proof (elapsed_mono started (h_instant h) (h_instant h')). lia.
Qed.

(** What the child sends next does not matter to it. *)
Lemma inv_child h h' : Inv h -> early h -> sent h' = sent h -> h_spawned h' = h_spawned h -> Inv h'.
Proof.
  intros [] He Es Ep. split; rewrite ?Es, ?Ep; [done|done|].
  intros f Hf Hr. unfold early in He. rewrite Forall_forall in He. specialize (He f Hf). congruence.
Qed.
Lemma tracks_child started x h h' : tracks started x h ->
  sent h' = sent h /\ h_spawned h' = h_spawned h /\ h_instant h' = h_instant h -> tracks started x h'.
Proof.
  intros [Hi He Hst Ho Hof Hs] (Es & Ep & Ei). split; unfold early; rewrite ?Es, ?Ei; try done.
  by eapply inv_child.
Qed.

(** Changes that matter to nobody outside. *)
Lemma tracks_inside started x x' h :
  tracks started x h -> journal x' = journal x -> heartbeat_ordinal x' = heartbeat_ordinal x ->
  offset (out x') = offset (out x) -> offset (err x') = offset (err x) ->
  hash (out x') = hash (out x) -> hash (err x') = hash (err x) ->
  (relay_available x' = true -> relay_available x = true) -> tracks started x' h.
Proof.
  intros [Hi He Hst Ho Hof (uid & l & s & Hu & Es & Hl & Hr & Hso & Hse)] E1 E2 E3 E4 E5 E6 Hra.
  split; [done|done|done|congruence|by rewrite E3, E4, E5, E6|].
  exists uid, l, s. rewrite E2, E5, E6. auto 10.
Qed.

Ltac inside Ht := apply (tracks_inside _ _ _ _ Ht); simpl; try done.

(** A silent step of the loop. *)
Lemma wlp_step {A} (P : A -> Prop) (p : hprog A) (Q : A -> Host -> Prop) started x h :
  silent p -> yields P p -> tracks started x h ->
  (forall a h', P a -> same h h' -> tracks started x h' -> Q a h') -> hwlp p Q h.
Proof.
  intros Hp Hy Ht HQ. eapply wlp_mono; [apply (wlp_silent P); [done|done|apply Ht|apply Ht]|].
  intros a h' (HP & Hs & _). apply HQ; [done|done|]. by eapply tracks_same.
Qed.

(** Sending a frame of the stream while the relay is available. *)
Lemma wlp_relay f (Q : bool -> Host -> Prop) started x h uid l s' :
  is_receipt f = false -> tracks started x h -> uid <> 0 ->
  sent h = hello_frame SUPPORTED_FEATURE_BITS uid :: l -> streamed start (l ++ [f]) s' ->
  (forall h', tracks started (with_relay false x) h' -> Q false h') ->
  (forall h', Inv h' -> early h' -> h_instant h <= h_instant h' ->
     sent h' = hello_frame SUPPORTED_FEATURE_BITS uid :: l ++ [f] -> Q true h') ->
  hwlp (try_frame f) Q h.
Proof.
  intros Hf Ht Hu Es Hl Hno Hyes. apply wlp_send; [apply Ht|done|apply Ht| |].
  { rewrite Es. by apply conv_stream with s'. }
  intros h' [] Hi He Ei Ep Hin Ee E.
  - apply Hyes; [done|done|done|]. by rewrite E, Es.
  - apply Hno. apply (tracks_same started _ h); [by inside Ht|by split].
Qed.

Lemma wlp_input started x h : tracks started x h ->
  hwlp (input_step start x) (fun r h' => match r with inl x' | inr x' => tracks started x' h' end) h.
Proof.
  intros Ht h1 ch Hr _. destruct (rely_same _ _ Hr) as [Hs1 _].
  assert (tracks started x h1) as Ht1 by by eapply tracks_same.
  assert (forall l, tracks started x (with_incoming l h1)) as Hl.
  { intros l. apply (tracks_same started x h1); [done|by split]. }
  simpl. destruct (ch_ready ch); [destruct (h_incoming h1) as [|ev q]|]; simpl.
  - split; [apply Ht1|]. by inside Ht1.
  - split; [apply (Hl q)|]. specialize (Hl q). destruct ev as [e|e|]; [|by inside Hl..].
    destruct (frame e); try by inside Hl. case_bool_decide; by inside Hl.
  - split; [apply Ht1|done].
Qed.

(** A chunk was counted and hashed, and was sent if the relay was there. *)
Lemma tracks_chunk started k data x h h' uid l s :
  tracks started x h -> offset (out x) + offset (err x) + zlen data <= max_output_bytes start ->
  Inv h' -> early h' -> h_instant h <= h_instant h' ->
  uid <> 0 -> streamed start l s ->
  sent h' = hello_frame SUPPORTED_FEATURE_BITS uid :: l ->
  (relay_available x = true ->
   s_out s = hash (out x) ++ (if decide (k = OfStdout) then data else []) /\
   s_err s = hash (err x) ++ (if decide (k = OfStderr) then data else [])) ->
  s_ordinal s <= heartbeat_ordinal x -> s_elapsed s <= elapsed started (h_instant h') ->
  tracks started (with_stream k
    {| offset := saturating_add U64_MAX (offset (stream_of k x)) (zlen data);
       hash := hash (stream_of k x) ++ data; is_closed := is_closed (stream_of k x) |} x) h'.
Proof.
  intros [_ _ Hst Ho (Ho1 & Ho2 & Ho3) _] Hmax Hi He Hin Hu Hl Es Hseen Hord Hel.
  assert (max_output_bytes start <= U64_MAX) as Hm by apply (wf_start_output _ wf).
  pose proof (zlen_nonneg (hash (out x))). pose proof (zlen_nonneg (hash (err x))).
  pose proof (zlen_nonneg data). unfold saturating_add.
  split; [done|done|lia|done| |].
  - destruct k; simpl; rewrite zlen_app; lia.
  - exists uid, l, s. split_and!; try done. simpl. destruct k; simpl in *; rewrite ?app_nil_r in Hseen; auto.
Qed.

Lemma wlp_chunk started k data x h : tracks started x h ->
  hwlp (take_chunk start k data x) (fun x' h' => tracks started x' h') h.
Proof.
  intros Ht. pose proof (zlen_nonneg data). destruct (tr_offsets _ _ _ Ht) as (Ho1 & Ho2 & Ho3).
  assert (max_output_bytes start <= MAX_OUTPUT_BYTES) as Hm by apply (ok_output _ oks).
  pose proof (zlen_nonneg (hash (out x))). pose proof (zlen_nonneg (hash (err x))).
  unfold take_chunk. destruct (Z.ltb_spec (max_output_bytes start)
    (saturating_add U64_MAX (saturating_add U64_MAX (offset (out x)) (offset (err x))) (zlen data)))
    as [|Hmax]; [by inside Ht|].
  assert (offset (out x) + offset (err x) + zlen data <= max_output_bytes start) as Hfit.
  { unfold saturating_add, MAX_OUTPUT_BYTES, U64_MAX in *. lia. }
  destruct (tr_seen _ _ _ Ht) as (uid & l & s & Hu & Es & Hl & Hr & Hso & Hse).
  apply wlp_pbind. destruct (relay_available x) eqn:Era.
  - destruct (Hr eq_refl) as [Eo Ee].
    assert (offset (stream_of k x) = zlen (seen_of k s)) as Hoff by by destruct k; simpl; congruence.
    apply (wlp_relay _ _ started x h uid l (saw k data s)); [by destruct k|done|done|done| | |].
    + rewrite Hoff. apply streamed_output; [done|]. rewrite Eo, Ee. lia.
    + intros h' Ht'. simpl.
      destruct (tr_seen _ _ _ Ht') as (uid' & l' & s' & Hu' & Es' & Hl' & _ & Hso' & Hse').
      replace (stream_of k x) with (stream_of k (with_relay false x)) by by destruct k.
      by apply (tracks_chunk _ _ _ (with_relay false x) h' h' uid' l' s'); try apply Ht'.
    + intros h' Hi He Hin Es'. simpl.
      apply (tracks_chunk _ _ _ x h h' uid (l ++ [output_frame k
        {| output_job_id := start_job_id start; output_offset := zlen (seen_of k s);
           output_data := data |}]) (saw k data s)); try done.
      * apply streamed_output; [done|]. rewrite Eo, Ee. lia.
      * by rewrite <-Hoff.
      * intros _. destruct k; simpl; by rewrite ?app_nil_r, Eo, Ee.
      * by destruct k.
      * pose proof (elapsed_mono started _ _ Hin). destruct k; simpl; lia.
  - apply (tracks_chunk _ _ _ x h h uid l s); try done; try apply Ht. congruence.
Qed.

Lemma wlp_child started x h : tracks started x h ->
  hwlp (child_step start x) (fun r h' => match r with inl x' | inr x' => tracks started x' h' end) h.
Proof.
  intros Ht. apply wlp_pbind. intros h1 ch Hr _. destruct (rely_same _ _ Hr) as [Hs1 _].
  assert (tracks started x (exec TryRecvChild ch h1).2) as Ht1.
  { eapply tracks_child; [by eapply tracks_same|]. simpl. destruct (ch_event ch); [|by split_and!].
    unfold next_child. destruct (ch_first ch), (h_stdout h1), (h_stderr h1); by split_and!. }
  split; [apply Ht1|]. cbv beta. destruct (exec TryRecvChild ch h1).1 as [[k data|k|k]|].
  - apply wlp_pbind. eapply wlp_mono; [by apply wlp_chunk|]. done.
  - destruct k; by inside Ht1.
  - by inside Ht1.
  - exact Ht1.
Qed.

Lemma wlp_drain {X} (body : JobState -> hprog (JobState + JobState)) fuel
    (k : JobState -> hprog X) (Q : X -> Host -> Prop) started x h :
  (forall x h, tracks started x h ->
     hwlp (body x) (fun r h' => match r with inl x' | inr x' => tracks started x' h' end) h) ->
  tracks started x h -> (forall x' h', tracks started x' h' -> hwlp (k x') Q h') ->
  hwlp (pbind (ploop fuel body x) k) Q h.
Proof.
  intros Hb Ht Hk. apply wlp_pbind. eapply wlp_mono.
  - apply (wlp_ploop _ _ _ _ _ _ (tracks started) (tracks started)); [exact Hb|exact Ht].
  - intros x' h'. apply Hk.
Qed.

(** A silent fallible step: an error ends the loop. *)
Lemma wlp_try {A B} (P : A -> Prop) (p : hio A) (k : A -> hio B)
    (Q : result anyhow B -> Host -> Prop) started x h :
  silent p -> gives P p -> tracks started x h ->
  (forall e h', tracks started x h' -> Q (Err e) h') ->
  (forall a h', P a -> same h h' -> tracks started x h' -> hwlp (k a) Q h') ->
  hwlp (rpbind p k) Q h.
Proof.
  intros Hp Hg Ht Herr Hk. apply wlp_rpbind. eapply wlp_step; [done|exact Hg|done|].
  intros [a|e] h' Ha Hs Ht'; [by apply Hk; [apply Ha|..]|by apply Herr].
Qed.

Lemma observe_heartbeat_ok r b now r' : observe_heartbeat r b now = Ok r' ->
  record_heartbeat_ordinal r < ordinal b /\ record_heartbeat_ordinal r' = ordinal b.
Proof. unfold observe_heartbeat. intros Hv. checks. split; [lia|done]. Qed.

Lemma wlp_instant (Q : Z -> Host -> Prop) started x h : tracks started x h ->
  (forall h', same h h' -> tracks started x h' -> Q (h_instant h') h') ->
  hwlp (sys InstantNow) Q h.
Proof.
  intros Ht HQ h1 ch Hr _. destruct (rely_same _ _ Hr) as [Hs1 _].
  destruct (quiet_same InstantNow ch h1 eq_refl) as [Hs2 _].
  assert (same h (exec InstantNow ch h1).2) as Hs by by transitivity h1.
  pose proof (tracks_same _ _ _ _ Ht Hs) as Ht'. split; [apply Ht'|]. by apply (HQ _ Hs Ht').
Qed.

(** How the loop's state is left by a step that may fail. *)
Definition leaves (started : Z) (r : result anyhow JobState) (h : Host) : Prop :=
  match r with
  | Ok x => tracks started x h
  | Err _ => Inv h /\ early h
  end.

Lemma leaves_err started x (e : anyhow) h : tracks started x h -> leaves started (Err e) h.
Proof. intros Ht. split; apply Ht. Qed.
Lemma leaves_ok started x h : tracks started x h -> leaves started (Ok x) h.
Proof. done. Qed.

(** The journal and the ordinal move on together. *)
Lemma tracks_beat started x h n o j : tracks started x h ->
  heartbeat_ordinal x < o -> record_heartbeat_ordinal j = o ->
  tracks started (with_heartbeat n o (with_journal j x)) h.
Proof.
  intros [Hi He Hst _ Hof (uid & l & s & Hu & Es & Hl & Hr & Hso & Hse)] Ho Hj.
  split; [done|done|done|done|done|]. exists uid, l, s. simpl. split_and!; try done. lia.
Qed.

Lemma wlp_heartbeat store started x h : tracks started x h ->
  hwlp (heartbeat start store started x) (leaves started) h.
Proof.
  intros Ht. unfold heartbeat. apply wlp_pbind. apply (wlp_instant _ started x h Ht). intros h1 _ Ht1.
  destruct (next_heartbeat x <=? h_instant h1); [|by apply leaves_ok].
  apply wlp_pbind. apply (wlp_instant _ started x h1 Ht1). intros h' _ Ht'. clear h Ht h1 Ht1.
  rename h' into h, Ht' into Ht. cbv zeta.
  eapply (wlp_try (fun _ => True)); [apply silent_unix_ms|apply gives_any|exact Ht|
    intros; by eapply leaves_err|]. intros now h2 _ Hs2 Ht2.
  set (beat := {| heartbeat_job_id := _ |}).
  eapply (wlp_try (fun j => observe_heartbeat (journal x) beat now = Ok j)); [done| |exact Ht2|
    intros; by eapply leaves_err|].
  { apply gives_ret. intros j Hj%map_err_ok. done. }
  intros j h3 Hj Hs3 Ht3. apply observe_heartbeat_ok in Hj as [Hlt Hj].
  eapply (wlp_try (fun _ => True)); [apply silent_update_journal|apply gives_any|exact Ht3|
    intros; by eapply leaves_err|].
  intros _ h4 _ Hs4 Ht4. rewrite (tr_ordinal _ _ _ Ht) in Hlt.
  set (o := saturating_add U64_MAX (heartbeat_ordinal x) 1). change (ordinal beat) with o in Hlt, Hj.
  assert (o <= U64_MAX) as Ho by (unfold o, saturating_add; lia).
  assert (forall h' x', tracks started (with_heartbeat 0 o (with_journal j x')) h' ->
    hwlp (let# now := sys InstantNow in
          ok (with_heartbeat (now + HEARTBEAT_INTERVAL) o (with_journal j x'))) (leaves started) h')
    as Hrest.
  { intros h' x' Hx. apply wlp_pbind. apply (wlp_instant _ started _ h' Hx). intros h5 _ Ht5.
    apply leaves_ok. by inside Ht5. }
  apply wlp_pbind. destruct (relay_available x) eqn:Era.
  2:{ simpl. rewrite Era. simpl. by apply Hrest, tracks_beat. }
  assert (same h h4) as Hs by (by transitivity h3; [transitivity h2|]).
  destruct (tr_seen _ _ _ Ht) as (uid & l & s & Hu & Es & Hl & Hr & Hso & Hse).
  destruct (Hr Era) as [Eo Ee]. destruct (tr_offsets _ _ _ Ht) as (Ho1 & Ho2 & _).
  assert (streamed start (l ++ [Heartbeat beat]) {| s_out := s_out s; s_err := s_err s;
    s_ordinal := o; s_elapsed := elapsed started (h_instant h) |}) as Hl'.
  { unfold beat. rewrite Ho1, Ho2, <-Eo, <-Ee. apply streamed_heartbeat; [done|lia|].
    unfold elapsed in *. simpl. lia. }
  eapply (wlp_relay _ _ started x h4 uid l); [done|done|done|by rewrite (sm_sent _ _ Hs)|exact Hl'|..].
  - intros h' Hx. simpl. rewrite Era. simpl. apply (Hrest h' (with_relay false x)).
    by apply (tracks_beat _ (with_relay false x)).
  - intros h' Hi He Hin Es'. simpl. rewrite Era. simpl. apply Hrest.
    pose proof (sm_instant _ _ Hs). split; [done|done|pose proof (tr_started _ _ _ Ht); lia|done|
      apply (tr_offsets _ _ _ Ht)|].
    exists uid, (l ++ [Heartbeat beat]). eexists. split_and!; [done|done|exact Hl'|done|simpl; lia|].
    simpl. apply elapsed_mono. lia.
Qed.

(** Steps that change only what concerns the child. *)
Record inner (x x' : JobState) : Prop := {
  in_journal : journal x' = journal x;
  in_ordinal : heartbeat_ordinal x' = heartbeat_ordinal x;
  in_out : out x' = out x;
  in_err : err x' = err x;
  in_relay : relay_available x' = relay_available x;
}.
Lemma tracks_inner started x x' h : inner x x' -> tracks started x h -> tracks started x' h.
Proof. intros [E1 E2 E3 E4 E5] Ht. apply (tracks_inside _ _ _ _ Ht); congruence. Qed.

Lemma kill_gives x : gives (inner x) (kill_child x).
Proof.
  unfold kill_child. destruct (_ && _); [|by apply gives_ret; intros ? [= <-]].
  intros [u|e]; simpl.
  - by intros now ? [= <-].
  - unfold rpbind, within, os, pmap_err. simpl. intros [s|e']; simpl; by intros ? [= <-].
Qed.
Lemma poll_gives x : gives (inner x) (poll_status x).
Proof.
  unfold poll_status. destruct (status x); [by apply gives_ret; intros ? [= <-]|].
  unfold rpbind, within, os, pmap_err. simpl. intros [s|e']; simpl; by intros ? [= <-].
Qed.
Lemma unix_ms_gives : gives is_u64 unix_ms.
Proof.
  unfold unix_ms, rpbind, some_or. simpl. intros [n|]; simpl; [|done]. intros a [= <-].
  unfold is_u64. change U64_MAX with 18446744073709551615. lia.
Qed.

Lemma wlp_iteration fuel store started x h : tracks started x h ->
  hwlp (job_iteration fuel start store started x)
    (fun r h' => match r with
                 | Ok (inl x') | Ok (inr x') => tracks started x' h'
                 | Err _ => Inv h' /\ early h'
                 end) h.
Proof.
  intros Ht. unfold job_iteration.
  eapply (wlp_try (fun _ => True)); [apply silent_unix_ms|apply gives_any|exact Ht|
    intros ? ? Hx; split; apply Hx|].
  intros now h0 _ _ Ht0. cbv zeta.
  assert (tracks started (observe_deadlines start now x) h0) as Ht'.
  { unfold observe_deadlines. destruct (_ <? _), (_ <=? _); by inside Ht0. }
  eapply (wlp_drain _ _ _ _ started); [apply wlp_input|exact Ht'|]. clear Ht Ht0 Ht'.
  clear dependent x h h0. intros x h Ht.
  eapply (wlp_try (inner x)); [apply silent_kill|apply kill_gives|exact Ht|
    intros ? ? Hx; split; apply Hx|].
  intros x1 h1 Hin _ Ht1. apply (tracks_inner _ _ _ _ Hin) in Ht1.
  eapply (wlp_try (fun _ => True)); [apply silent_confirm|apply gives_any|exact Ht1|
    intros ? ? Hx; split; apply Hx|]. intros _ h2 _ _ Ht2. clear x h Ht Hin h1 Ht1.
  eapply (wlp_drain _ _ _ _ started); [apply wlp_child|exact Ht2|]. clear Ht2.
  clear dependent x1 h2. intros x h Ht.
  eapply (wlp_try (inner x)); [apply silent_poll|apply poll_gives|exact Ht|
    intros ? ? Hx; split; apply Hx|].
  intros x1 h1 Hin _ Ht1. apply (tracks_inner _ _ _ _ Hin) in Ht1.
  apply wlp_rpbind. eapply wlp_mono; [by apply wlp_heartbeat|]. clear x h Ht Hin.
  intros [x|e] h Ht; [|done]. simpl in Ht. destruct (_ && _ && _); [done|].
  apply wlp_pbind. eapply (wlp_step (fun _ => True)); [by apply only_call|done|exact Ht|].
  by intros _ h' _ _ Ht'.
Qed.

(** ** The end of a job *)

Lemma code_i32 s c : code s = Some c -> is_i32 c.
Proof.
  unfold code. destruct (_ =? _); intros [= <-]. unfold is_i32.
  change 255 with (Z.ones 8). rewrite Z.land_ones by done.
  pose proof (Z.mod_pos_bound (Z.shiftr (wait_status s) 8) (2 ^ 8) eq_refl). lia.
Qed.

Lemma outcomes_agree t s o w : outcomes t s = (o, w) ->
  w = wire_outcome o /\ match o with RExited c => is_i32 c | _ => True end.
Proof.
  unfold outcomes. destruct t as [[]|]; intros [= <- <-]; split; try done.
  destruct s as [s|]; [|done]. simpl. destruct (code s) as [c|] eqn:Ec; [|done].
  by apply (code_i32 s).
Qed.

(** The receipt and the Exit. *)
Lemma wlp_final r h uid l s : Inv h -> early h -> uid <> 0 ->
  sent h = hello_frame SUPPORTED_FEATURE_BITS uid :: l -> streamed start l s ->
  receipt_for start s r -> attests s r -> Kept h r ->
  hwlp (try_final (receipt_frame start r) (exit_frame start r)) (fun _ => Inv) h.
Proof.
  intros Hi He Hu Es Hl Hr Hat Hk. unfold try_final. apply wlp_pbind.
  apply wlp_send_any; [done|by rewrite Es; apply (conv_receipt _ uid l s r)|by exists s, r|].
  intros h1 [] Hi1 _ _ _ _ E1; cbn [negb]; [|done]. apply wlp_pbind.
  apply wlp_send_any; [done| |done|].
  { rewrite E1, Es, <-(app_assoc (_ :: l)). by apply (conv_exit _ uid l s r). }
  intros h2 [] Hi2 _ _ _ _ E2; cbn [negb]; [|done]. apply wlp_pbind.
  intros h3 ch Hrel _. simpl. pose proof (inv_rely _ _ Hi2 Hrel). done.
Qed.

Lemma conclude_inv prepared started x h :
  prepared_ok start prepared -> StoreOk (pj_store prepared) -> tracks started x h ->
  finished output_events x ->
  hwlp (conclude start prepared x) (fun _ => Inv) h.
Proof.
  intros Hp Hstore Ht Hfin. unfold conclude.
  eapply (wlp_try is_u64); [apply silent_unix_ms|apply unix_ms_gives|exact Ht|
    intros ? ? Hx; apply Hx|]. intros completed h1 Hc _ Ht1.
  destruct (outcomes (termination x) (status x)) as [o w] eqn:Eo.
  assert (forall c, o = RExited c -> c <> 125 -> termination x = None) as Hnone.
  { intros c -> Hc2. unfold outcomes in Eo. destruct (termination x) as [[]|]; congruence. }
  apply outcomes_agree in Eo as [-> Ho]. rewrite (po_identity _ _ Hp), (po_deadlines _ _ Hp).
  eapply (wlp_try (fun r => issue (receipt_body start (hash (out x)) (hash (err x)) o completed)
    (start_receipt_token start) = Ok r)); [done| |exact Ht1|intros ? ? Hx; apply Hx|].
  { apply gives_ret. intros r Hr%map_err_ok. done. }
  intros r h2 Hr _ Ht2.
  (* the receipt is persisted *)
  apply wlp_rpbind. eapply wlp_mono; [apply wlp_conj; [|by apply (keep_persist _ r)]|].
  { apply (wlp_step (fun _ => True) _ (fun _ h' => tracks started x h') started x);
      [apply silent_persist_receipt|apply yields_any|done|done]. }
  intros [path|e] h3 [Ht3 Hk]; [|apply Ht3]. specialize (Hk eq_refl).
  (* and the journal closed *)
  apply wlp_rpbind. eapply wlp_mono; [apply wlp_conj; [|apply (keep_update _ _ r); exact Hk]|].
  { apply (wlp_step (fun _ => True) _ (fun _ h' => tracks started x h') started x);
      [apply silent_update_journal|apply yields_any|done|done]. }
  intros [u|e] h4 [Ht4 Hk4]; [|apply Ht4].
  destruct (relay_available x) eqn:Era; [|apply Ht4].
  destruct (tr_seen _ _ _ Ht4) as (uid & l & s & Hu & Es & Hl & Hr' & _).
  destruct (Hr' Era) as [Eso Ese]. apply issue_ok in Hr as Hr2. destruct Hr2 as (_ & _ & Er).
  assert (receipt_frame start r = Receipt {| receipt_job_id := start_job_id start;
    receipt_bytes := receipt_encode r |}) as <- by done.
  assert (exit_frame start r = Exit {| exit_job_id := start_job_id start;
    outcome := wire_outcome o; completed_unix_ms := completed |}) as <- by by rewrite Er.
  apply wlp_pbind. eapply wlp_mono.
  - apply (wlp_final r h4 uid l s); [apply Ht4|apply Ht4|done|done|done| | |done].
    + exists o, completed. rewrite Eso, Ese. done.
    + split; [intros k; apply Hfin|]. rewrite Er. simpl. intros c Ec Hc2 k.
      rewrite <-(proj2 (Hfin k)) by by eapply Hnone. by destruct k.
  - by intros.
Qed.

Lemma submitted_journal i d uid m now j : submitted i d uid m now = Ok j ->
  record_heartbeat_ordinal j = 0.
Proof. unfold submitted. intros Hj. by checks. Qed.
Lemma running_journal j now j' : mark_running j now = Ok j' ->
  record_heartbeat_ordinal j' = record_heartbeat_ordinal j.
Proof. unfold mark_running. intros Hj. by checks. Qed.

(** A greeted host: the helper's Hello and nothing else was sent. *)
Definition greeted (h : Host) : Prop :=
  Inv h /\ (forall k, events k h = output_events k) /\
  exists uid, uid <> 0 /\ sent h = [hello_frame SUPPORTED_FEATURE_BITS uid].

Lemma greeted_early h : greeted h -> early h.
Proof. intros (_ & _ & uid & _ & E). unfold early. rewrite E. by repeat constructor. Qed.
Lemma greeted_same h h' : greeted h -> same h h' -> greeted h'.
Proof.
  intros Hg Hs. pose proof (greeted_early _ Hg). destruct Hg as (Hi & Ev & uid & Hu & E).
  split; [by eapply inv_same|]. split; [intros k; by rewrite (sm_events _ _ Hs)|]. exists uid. by rewrite (sm_sent _ _ Hs).
Qed.

Lemma wlp_greeted {A B} (P : A -> Prop) (p : hio A) (k : A -> hio B)
    (Q : result anyhow B -> Host -> Prop) h :
  silent p -> gives P p -> greeted h ->
  (forall e h', greeted h' -> Q (Err e) h') ->
  (forall a h', P a -> greeted h' -> hwlp (k a) Q h') ->
  hwlp (rpbind p k) Q h.
Proof.
  intros Hp Hg Hh Herr Hk. apply wlp_rpbind. eapply wlp_mono.
  { eapply wlp_silent; [done|exact Hg|apply Hh|by apply greeted_early]. }
  intros [a|e] h' (Ha & Hs & _); [apply Hk; [by apply Ha|]|apply Herr]; by eapply greeted_same.
Qed.

Lemma supervise_inv fuel prepared j h :
  prepared_ok start prepared -> StoreOk (pj_store prepared) -> greeted h ->
  record_heartbeat_ordinal j = 0 -> hwlp (supervise fuel start prepared j) (fun _ => Inv) h.
Proof.
  intros Hp Hstore Hg Hj. unfold supervise.
  do 2 (eapply (wlp_greeted (fun _ => True)); [by apply only_pmap_err, only_call|apply gives_any|
    exact Hg|intros ? ? Hx; apply Hx|]; clear dependent h; intros _ h _ Hg).
  apply wlp_pbind. intros h1 ch Hr _. destruct (rely_same _ _ Hr) as [Hs1 _].
  destruct (quiet_same InstantNow ch h1 eq_refl) as [Hs2 _].
  pose proof (greeted_same _ _ (greeted_same _ _ Hg Hs1) Hs2) as Hg2. split; [apply Hg2|].
  simpl in *. set (i := h_instant h1 + Z.of_N (ch_elapsed ch)) in *. set (h2 := with_instant i h1) in *.
  apply wlp_rpbind.
  apply (wlp_rloop _ _ _ _ _ _ (fun x h => tracks i x h /\ covered output_events x h)).
  - intros x h' [Ht Hc]. eapply wlp_mono.
    { apply wlp_conj; [by apply wlp_iteration|]. apply (wlp_iteration_covered start output_events).
      - intros k e. apply read_child_stream_kind.
      - intros k pre l. apply read_child_stream_closed.
      - exact Hc. }
    intros [[x'|x']|e] h''; [done|intros []; by apply (conclude_inv _ i)|by intros [[] _]].
  - pose proof (greeted_early _ Hg2) as He. destruct Hg2 as (Hi & Ev & uid & Hu & Es).
    destruct (ok_output _ oks). pose proof (wf_start_output _ wf) as [? _].
    split; [|apply covered_start; [exact Ev|by intros []]].
    split; [done|done|done|done|by split_and!|].
    exists uid, [], nothing_seen. split_and!; try done; [constructor|].
    unfold elapsed. simpl. by rewrite Z.sub_diag.
Qed.
Lemma run_job_inv fuel prepared h :
  prepared_ok start prepared -> StoreOk (pj_store prepared) -> greeted h ->
  hwlp (run_job fuel start prepared) (fun _ => Inv) h.
Proof.
  intros Hp Hstore Hg. unfold run_job. cbv zeta.
  eapply (wlp_greeted (fun _ => True)); [apply silent_unix_ms|apply gives_any|exact Hg|
    intros ? ? Hx; apply Hx|]. intros now h1 _ Hg1.
  eapply (wlp_greeted (fun j => record_heartbeat_ordinal j = 0)); [done| |exact Hg1|
    intros ? ? Hx; apply Hx|].
  { apply gives_ret. intros j Hj%map_err_ok. by eapply submitted_journal. }
  intros j h2 Hj Hg2.
  eapply (wlp_greeted (fun _ => True)); [apply silent_create_journal|apply gives_any|exact Hg2|
    intros ? ? Hx; apply Hx|]. intros _ h3 _ Hg3.
  eapply (wlp_greeted (fun _ => True)); [apply silent_unix_ms|apply gives_any|exact Hg3|
    intros ? ? Hx; apply Hx|]. intros now2 h4 _ Hg4.
  eapply (wlp_greeted (fun j => record_heartbeat_ordinal j = 0)); [done| |exact Hg4|
    intros ? ? Hx; apply Hx|].
  { apply gives_ret. intros j' Hj'%map_err_ok. by rewrite (running_journal _ _ _ Hj'). }
  intros j' h5 Hj' Hg5.
  eapply (wlp_greeted (fun _ => True)); [apply silent_update_journal|apply gives_any|exact Hg5|
    intros ? ? Hx; apply Hx|]. intros _ h6 _ Hg6. clear Hg Hg1 Hg2 Hg3 Hg4 Hg5.
  (* the child *)
  apply wlp_rpbind. do 2 apply wlp_pmap_err. intros h7 ch Hr _.
  destruct (rely_same _ _ Hr) as [Hs7 _]. pose proof (greeted_same _ _ Hg6 Hs7) as Hg7.
  assert (greeted (exec (Spawn (make_command (pj_executable prepared) start (pj_cwd prepared))) ch h7).2)
    as Hg8.
  { simpl. destruct (ch_fault ch); [exact Hg7|]. destruct Hg7 as ([Hc Ha Hk] & Hev & Hsent).
    split; [|split; [intros k; by rewrite <-(Hev k); destruct k|done]]. split; [exact Hc| |]; simpl.
    - intros cmd [= <-]. apply Hp.
    - intros f Hf Hrf. pose proof (greeted_early _ Hg6) as He. unfold early in He.
      rewrite <-(sm_sent _ _ Hs7), Forall_forall in He. specialize (He f Hf). congruence. }
  split; [apply Hg8|]. simpl in *. destruct (ch_fault ch); [apply Hg8|]. by apply supervise_inv.
Qed.

(** ** The whole mode *)

Context (e0 e1 : Envelope) (rest : list InputEvent) (is_start : frame e1 = Start start).

(** The requests, read and checked by the other thread. *)
Definition requested (h : Host) : Prop :=
  h_incoming h = InputFrame e0 :: InputFrame e1 :: rest /\ Inv h /\ sent h = [] /\
  forall k, events k h = output_events k.

Lemma wlp_requested {A B} (p : hio A) (k : A -> hio B) (Q : result anyhow B -> Host -> Prop) h :
  silent p -> requested h -> (forall e h', Inv h' -> Q (Err e) h') ->
  (forall a h', requested h' -> hwlp (k a) Q h') -> hwlp (rpbind p k) Q h.
Proof.
  intros Hp (Ei & Hi & Es & Ev) Herr Hk. assert (early h) as He by (unfold early; by rewrite Es).
  apply wlp_rpbind. eapply wlp_mono; [by apply (wlp_silent (fun _ => True)); [|apply yields_any|..]|].
  intros [a|e] h' (_ & Hs & Ei'); [apply Hk|apply Herr; by eapply inv_same].
  split_and!; [by rewrite Ei', Ei|by eapply inv_same|by rewrite (sm_sent _ _ Hs)|].
  intros k'. by rewrite (sm_events _ _ Hs).
Qed.

(** The next request. *)
Lemma wlp_receive (Q : result anyhow Envelope -> Host -> Prop) e l h :
  h_incoming h = InputFrame e :: l -> Inv h -> early h ->
  (forall h', Inv h' -> same h h' -> h_incoming h' = l -> Q (Ok e) h') ->
  hwlp receive_input Q h.
Proof.
  intros Ei Hi He HQ. apply wlp_pbind. intros h1 ch Hr _. destruct (rely_same _ _ Hr) as [Hs1 Ei1].
  simpl. rewrite Ei1, Ei. simpl. assert (same h (with_incoming l h1)) as Hs by by (split; apply Hs1).
  assert (Inv (with_incoming l h1)) as Hi1 by by eapply inv_same. split; [done|]. by apply HQ.
Qed.

Lemma wlp_greet h : requested h ->
  hwlp (greet SUPPORTED_FEATURE_BITS) (fun r h' => match r with
    | Ok _ => greeted h' /\ h_incoming h' = InputFrame e1 :: rest
    | Err _ => Inv h'
    end) h.
Proof.
  intros (Ei & Hi & Es & Ev). assert (early h) as He by (unfold early; by rewrite Es).
  apply wlp_rpbind. apply (wlp_receive _ e0 (InputFrame e1 :: rest)); [done..|].
  intros h1 Hi1 Hs1 Ei1. pose proof (early_same _ _ He Hs1) as He1.
  destruct (frame e0) as [hello| | | | | | | | |]; try exact Hi1.
  apply wlp_pure; [intros [] _|by intros]. apply wlp_rpbind. eapply wlp_mono.
  { apply (wlp_silent (fun _ => True)); [apply silent_uid|apply yields_any|done|done]. }
  intros [uid|e] h2 (_ & Hs2 & Ei2); [|by eapply inv_same].
  pose proof (inv_same _ _ Hi1 He1 Hs2) as Hi2. pose proof (early_same _ _ He1 Hs2) as He2.
  apply wlp_pure; [intros [] Hu%ensure_ok|by intros].
  apply negb_true_iff, Z.eqb_neq in Hu. apply wlp_pbind.
  assert (sent h2 = []) as Es2 by by rewrite (sm_sent _ _ Hs2), (sm_sent _ _ Hs1).
  apply wlp_send; [done|done|done| |].
  { rewrite Es2. by apply (conv_stream _ uid [] nothing_seen); [|constructor]. }
  intros h3 b Hi3 He3 Ei3 _ _ Ev3 E3. apply wlp_pure; [|by intros].
  intros [] ->%ensure_ok. split; [|congruence]. split; [done|].
  split; [|exists uid; by rewrite E3, Es2].
  intros k. by rewrite Ev3, (sm_events _ _ Hs2), (sm_events _ _ Hs1).
Qed.

(** Whatever happens, the helper keeps to the conversation, runs only what is
    authorised, and sends only receipts that are kept. *)
Lemma wlp_serve fuel h : requested h -> hwlp (serve_stdio fuel) (fun _ => Inv) h.
Proof.
  intros Hq. unfold serve_stdio.
  do 2 (eapply wlp_requested; [apply silent_spawn_thread|exact Hq|done|];
    clear dependent h; intros _ h Hq).
  apply wlp_rpbind. eapply wlp_mono; [by apply wlp_greet|]. intros [uid|e] h1; [|done].
  intros [Hg1 Ei1]. apply wlp_rpbind.
  apply (wlp_receive _ e1 rest); [done|apply Hg1|by apply greeted_early|].
  intros h2 Hi2 Hs2 _. pose proof (greeted_same _ _ Hg1 Hs2) as Hg2. rewrite is_start.
  apply wlp_pbind. eapply wlp_mono.
  { apply wlp_conj; [|apply keep_store].
    eapply wlp_silent; [apply silent_prepare|apply prepare_gives|done|by apply greeted_early]. }
  intros [prepared|e] h3 [(Hp & Hs3 & _) Hstore]; pose proof (greeted_same _ _ Hg2 Hs3) as Hg3.
  { apply run_job_inv; [by apply Hp|by apply Hstore|done]. }
  apply wlp_pbind. destruct Hg3 as (Hi3 & Ev3 & u & Hu & Es3) eqn:E.
  apply wlp_send; [by apply greeted_early|done|done| |by intros].
  rewrite Es3. by apply conv_denied.
Qed.
End serve.
