(* ===== verification/RemoteHelperProperties.v ===== *)
(** * serctl-remote: the theorems about a job's helper

    The relay delivers what was sent, in order ([relay_ok]); a controller that
    validates the session with [RemoteSession.Helper] and verifies the receipt
    with [Jobs.verify] accepts every [conversation]; and both hold of every run
    of [serve_stdio] by [RemoteHelperTheory.wlp_serve]. *)

From stdpp Require Import gmap.
From S2P Require Import Prelude.
From S2P Require Import Bytes.
From S2P Require Import Text.
From S2P Require Import Codec.
From S2P Require Import Crates.
From S2P Require Import Posix.
From S2P Require Import PosixTheory.
From S2P Require Import RemoteProtocol.
From S2P Require Import RemoteCodec.
From S2P Require Import RemoteSession.
From S2P Require Import Jobs.
From S2P Require Policy.
From S2P Require Import Program.
From S2P Require Import Host.
From S2P Require Import JobStore.
From S2P Require Import JobStoreTheory.
From S2P Require Import RemoteHelper.
From S2P Require Import RemoteHelperSteps.
From S2P Require Import RemoteHelperTheory.
#[local] Open Scope string_scope.
#[local] Open Scope list_scope.
#[local] Open Scope Z_scope.

(** ** The relay *)

(** Frames numbered from [n]. *)
Fixpoint number (n : Z) (l : list Frame) : list Envelope :=
  match l with
  | [] => []
  | f :: l => {| sequence := n; frame := f |} :: number (n + 1) l
  end.

Lemma number_app n l1 l2 : number n (l1 ++ l2) = number n l1 ++ number (n + zlen l1) l2.
Proof.
  revert n; induction l1 as [|f l1 IH]; intros n; simpl; [by rewrite Z.add_0_r|].
  rewrite IH, zlen_cons. do 3 f_equal. lia.
Qed.
Lemma number_frames n l : map frame (number n l) = l.
Proof. revert n; induction l as [|f l IH]; intros n; simpl; [done|]. by rewrite IH. Qed.
Lemma length_number n l : length (number n l) = length l.
Proof. by rewrite <-(number_frames n l) at 2; rewrite length_map. Qed.
Lemma zlen_number n l : zlen (number n l) = zlen l.
Proof. revert n; induction l as [|f l IH]; intros n; simpl; [done|]. by rewrite !zlen_cons, IH. Qed.

(** What is on its way when the relay still runs. *)
Definition pending (r : Relay) : list Frame :=
  match r_writing r with Some c => [oc_frame c] | None => [] end ++ map oc_frame (r_queue r).

(** What was written is what was sent first, in order, numbered from 0; on the
    wire is its encoding; and what is not written is on its way unless the
    relay stopped. *)
Record relay_ok (r : Relay) : Prop := {
  rk_numbered : r_written r = number 0 (map frame (r_written r));
  rk_wire : for_each write_frame_to [] (r_written r) = Ok (r_wire r);
  rk_sent : exists rest, r_sent r = map frame (r_written r) ++ rest /\
    (r_open r = true -> rest = pending r);
  rk_sequence : r_open r = true -> r_sequence r = zlen (r_written r);
}.

Lemma relay_ok_send c r : relay_ok r -> relay_ok (try_send c r).2.
Proof.
  intros [Hn Hw (rest & Hs & Hp) Hq]. unfold try_send. destruct (r_open r) eqn:E; [|by split; eauto].
  destruct (_ <? _); simpl; [|by split; eauto]. split; simpl; [done|done| |auto].
  exists (rest ++ [oc_frame c]). split; [by rewrite Hs, app_assoc|]. intros _.
  rewrite (Hp eq_refl). unfold pending. simpl. by rewrite map_app, app_assoc.
Qed.

Lemma relay_ok_step a r : relay_ok r -> relay_ok (step_writer a r).
Proof.
  intros Hr. pose proof Hr as [Hn Hw (rest & Hs & Hp) Hq]. unfold step_writer.
  destruct a as [|io]; destruct (r_open r) eqn:Eo; try done; destruct (r_writing r) as [c|] eqn:Ec; try done.
  - destruct (r_queue r) as [|c q] eqn:Eq; [done|]. split; simpl; [done|done| |done].
    exists rest. split; [done|]. intros _. rewrite (Hp eq_refl). unfold pending. by rewrite Ec, Eq.
  - specialize (Hp eq_refl). specialize (Hq eq_refl). unfold pending in Hp. rewrite Ec in Hp.
    assert (forall wire, write_frame_to (r_wire r)
        {| sequence := r_sequence r; frame := oc_frame c |} = Ok wire -> forall q' a' b,
      (b = true -> q' = r_sequence r + 1) ->
      relay_ok {| r_queue := r_queue r; r_writing := None; r_open := b; r_sequence := q';
        r_wire := wire; r_written := r_written r ++ [{| sequence := r_sequence r; frame := oc_frame c |}];
        r_ack := a'; r_sent := r_sent r |}) as Hend.
    { intros wire Hwire q' a' b Hb. split; simpl.
      - rewrite map_app, number_app, <-Hn. unfold zlen. rewrite length_map, Hq. done.
      - rewrite for_each_app, Hw. simpl. by rewrite Hwire.
      - exists (map oc_frame (r_queue r)). rewrite map_app, <-app_assoc. split; [|done].
        by rewrite Hs, Hp.
      - intros Hb'. rewrite (Hb Hb'), Hq, zlen_app. done. }
    destruct (if io then _ else _) as [wire|e] eqn:Ew; [|split; simpl; [done|done|by exists rest|done]].
    destruct io; [|done]. destruct (checked_add _ _ _) as [next|] eqn:En.
    + apply checked_add_some in En as [-> _]. by apply (Hend wire Ew).
    + by apply (Hend wire Ew).
Qed.

(** An invariant of the calls and of the others is one of every program. *)
Lemma run_always {A} (I : Host -> Prop) (p : hprog A) chs h tr :
  (forall ch h, I h -> I (others ch h)) -> (forall c ch h, I h -> I (exec c ch h).2) ->
  I h -> I (run exec others p chs h tr).1.2.
Proof.
  intros Ho He. revert p h tr; induction chs as [|ch chs IH]; intros p h tr Hh.
  - by destruct p.
  - destruct p as [a| |c k]; simpl; [done|done|]. specialize (He c ch _ (Ho ch _ Hh)).
    destruct (exec c ch (others ch h)) as [r h']. by apply IH.
Qed.

Lemma run_relay_ok {A} (p : hprog A) chs h tr :
  relay_ok (h_relay h) -> relay_ok (h_relay (run exec others p chs h tr).1.2).
Proof.
  apply (run_always (fun h => relay_ok (h_relay h))).
  - intros ch h' Hr. unfold others. simpl. revert Hr. generalize (h_relay h').
    induction (ch_writer ch) as [|a l IH]; intros r Hr; simpl; [done|]. by apply IH, relay_ok_step.
  - intros c ch h' Hr. destruct c; simpl; try done.
    + by destruct (Posix.exec _ _ _).
    + by destruct (h_incoming h').
    + destruct (ch_ready ch); [|done]. by destruct (h_incoming h').
    + pose proof (relay_ok_send c (h_relay h') Hr). by destruct (try_send c (h_relay h')).
    + by destruct (ch_fault ch).
    + destruct (ch_event ch); [|done]. unfold next_child.
      by destruct (ch_first ch), (h_stdout h'), (h_stderr h').
Qed.

(** ** A controller *)

Section control.
Context `{Sha2} (accept : bytes -> option Helper.AuthenticatedTerminal).
Notation validator := Helper.HelperSessionValidator.

(** It validates each frame and authenticates the session's receipt with
    [accept]; [None] when anything is rejected. *)
Definition control (v : validator) (e : Envelope) : option validator :=
  match Helper.validate v e with
  | (v', Ok _) =>
      match frame e with
      | Receipt r =>
          terminal ← accept (receipt_bytes r);
          match Helper.authenticate_receipt v' (receipt_bytes r) terminal with
          | (v'', Ok _) => Some v''
          | (_, Err _) => None
          end
      | _ => Some v'
      end
  | (_, Err _) => None
  end.
Fixpoint controls (v : validator) (es : list Envelope) : option validator :=
  match es with
  | [] => Some v
  | e :: es => v' ← control v e; controls v' es
  end.

Lemma controls_app v es1 es2 : controls v (es1 ++ es2) = (v' ← controls v es1; controls v' es2).
Proof.
  revert v; induction es1 as [|e es1 IH]; intros v; simpl; [done|]. destruct (control v e); simpl; auto.
Qed.

Lemma validate_step v f v' : Helper.transition v f = (v', Ok tt) -> 0 <= Helper.next_seq v < U64_MAX ->
  Helper.validate v {| sequence := Helper.next_seq v; frame := f |} =
  (Helper.set_next (Helper.next_seq v + 1) v', Ok tt).
Proof.
  intros Ht Hn. unfold Helper.validate, validate_sequence, next_sequence. cbn [sequence frame].
  rewrite Z.eqb_refl. unfold checked_add. destruct (Z.leb_spec (Helper.next_seq v + 1) U64_MAX); [|lia].
  cbn [ok_or]. by rewrite Ht.
Qed.

Lemma control_plain v f v' n : n = Helper.next_seq v -> is_receipt f = false ->
  Helper.transition v f = (v', Ok tt) -> 0 <= n < U64_MAX ->
  control v {| sequence := n; frame := f |} = Some (Helper.set_next (n + 1) v').
Proof.
  intros -> Hf Ht Hn. unfold control. rewrite (validate_step v f v') by done. by destruct f.
Qed.
End control.

Section controller.
Context `{Sha2, HmacSha2} (start : StartFrame) (now : Z).

(** What a controller that issued [start] makes of receipt bytes: the outcome
    and completion time of the receipt if it verifies. *)
Definition accept_receipt (b : bytes) : option Helper.AuthenticatedTerminal :=
  match (let* r := receipt_decode b in
         verify r (start_identity start) (start_deadlines start) (run_as_uid start)
           (max_output_bytes start) (start_receipt_token start) now) with
  | Ok body => Some {| Helper.term_outcome := wire_outcome (body_outcome body);
                       Helper.term_completed_unix_ms := body_completed_unix_ms body |}
  | Err _ => None
  end.

(** A receipt that was completed by [now], before the relay deadline, and is
    not out of retention. *)
Definition timely (r : AuthenticatedReceipt) : Prop :=
  body_completed_unix_ms (body r) <= relay_deadline_unix_ms start /\
  body_completed_unix_ms (body r) <= now <= result_retention_unix_ms start.
End controller.

Section accepted.
Context `{Sha2Laws, HmacSha2Laws} (start : StartFrame) (now : Z).
Context (wf : wf_start start) (oks : start_ok start).
Notation max := (max_output_bytes start).
Notation job := (start_job_id start).

(** The validator after [n] frames of the stream. *)
Definition at_stream (n : Z) (s : Seen) : Helper.HelperSessionValidator :=
  {| Helper.next_seq := n; Helper.phase := Helper.PStreaming; Helper.mode := Helper.Job max;
     Helper.job_id := job; Helper.stdout_offset := zlen (s_out s);
     Helper.stderr_offset := zlen (s_err s); Helper.heartbeat_ordinal := s_ordinal s;
     Helper.heartbeat_elapsed_ms := s_elapsed s; Helper.pending_receipt_digest := None;
     Helper.authenticated_terminal := None |}.

Lemma control_hello uid : uid <> 0 ->
  control (accept_receipt start now) (Helper.new job (Helper.Job max))
    {| sequence := 0; frame := hello_frame SUPPORTED_FEATURE_BITS uid |} = Some (at_stream 1 nothing_seen).
Proof.
  intros Hu. unfold control.
  rewrite (validate_step (Helper.new job (Helper.Job max)) _
    (Helper.set_phase Helper.PStreaming (Helper.new job (Helper.Job max)))); [done| |done].
  unfold Helper.transition. cbn -[Z.eqb]. by rewrite (proj2 (Z.eqb_neq _ _) Hu).
Qed.

Lemma control_output n s k data : 1 <= n < U64_MAX ->
  zlen (s_out s) + zlen (s_err s) + zlen data <= max ->
  control (accept_receipt start now) (at_stream n s) {| sequence := n; frame := output_frame k
    {| output_job_id := job; output_offset := zlen (seen_of k s); output_data := data |} |} =
  Some (at_stream (n + 1) (saw k data s)).
Proof.
  intros Hn Hfit. pose proof (zlen_nonneg (s_out s)). pose proof (zlen_nonneg (s_err s)).
  pose proof (zlen_nonneg data). assert (max <= U64_MAX) as Hm by apply (wf_start_output _ wf).
  rewrite (control_plain _ _ _ (at_stream n (saw k data s)) n); [done|done|by destruct k| |lia].
  assert (forall off, off + zlen data <= max -> checked_add U64_MAX off (zlen data) = Some (off + zlen data))
    as Hadd by (intros off Hoff; unfold checked_add; destruct (Z.leb_spec (off + zlen data) U64_MAX); [done|lia]).
  assert (forall a b, a + b <= max -> (max <? saturating_add U64_MAX a b) = false) as Hbudget
    by (intros a b Hab; apply Z.ltb_ge; unfold saturating_add; lia).
  destruct k; unfold Helper.transition; simpl; unfold Helper.validate_job, Helper.advance_output_offset; simpl;
    rewrite bool_decide_true, Z.eqb_refl by done; cbn [negb]; rewrite Hadd by lia; simpl;
    unfold Helper.validate_output_budget, Helper.set_offsets, at_stream; simpl;
    rewrite Hbudget by lia; by rewrite zlen_app.
Qed.

Lemma control_heartbeat n s o t : 1 <= n < U64_MAX -> s_ordinal s < o -> s_elapsed s <= t ->
  control (accept_receipt start now) (at_stream n s) {| sequence := n; frame := Heartbeat
    {| heartbeat_job_id := job; ordinal := o; elapsed_ms := t; stdout_bytes := zlen (s_out s);
       stderr_bytes := zlen (s_err s) |} |} =
  Some (at_stream (n + 1) {| s_out := s_out s; s_err := s_err s; s_ordinal := o; s_elapsed := t |}).
Proof.
  intros Hn Ho Ht. rewrite (control_plain _ _ _ (at_stream n
    {| s_out := s_out s; s_err := s_err s; s_ordinal := o; s_elapsed := t |}) n);
    [done|done|done| |lia].
  unfold Helper.transition. simpl. unfold Helper.validate_job. simpl. rewrite bool_decide_true by done.
  rewrite (proj2 (Z.leb_gt _ _) Ho), (proj2 (Z.ltb_ge _ _) Ht), !Z.eqb_refl. done.
Qed.

Lemma controls_stream l s : streamed start l s -> 1 + zlen l <= U64_MAX ->
  controls (accept_receipt start now) (at_stream 1 nothing_seen) (number 1 l) = Some (at_stream (1 + zlen l) s).
Proof.
  induction 1 as [|l s k data Hl IH Hfit|l s o t Hl IH Ho Ht]; [done|..];
    rewrite zlen_app, zlen_cons, zlen_nil; intros Hn; pose proof (zlen_nonneg l);
    rewrite number_app, controls_app, IH by lia; simpl.
  - rewrite control_output by lia. simpl. do 2 f_equal. lia.
  - rewrite control_heartbeat by lia. simpl. do 2 f_equal. lia.
Qed.

(** A receipt of the job decodes, and verifies if it is timely. *)
Lemma receipt_for_decodes s r : receipt_for start s r ->
  receipt_decode (receipt_encode r) = Ok r /\ r = receipt_of (body r) (start_receipt_token start).
Proof.
  intros (o & c & Hi & Ho & Hc). apply issue_ok in Hi as (Hok & _ & ->).
  split; [|done]. apply receipt_decode_complete; [|done]. apply wf_receipt_of.
  destruct wf. split; simpl; try done; unfold zlen; by rewrite sha256_length.
Qed.

Lemma receipt_for_accepted s r : receipt_for start s r -> timely start now r ->
  accept_receipt start now (receipt_encode r) =
    Some {| Helper.term_outcome := wire_outcome (body_outcome (body r));
            Helper.term_completed_unix_ms := body_completed_unix_ms (body r) |}.
Proof.
  intros Hr (Ht1 & Ht2 & Ht3). destruct (receipt_for_decodes s r Hr) as [Hd Er].
  unfold accept_receipt. rewrite Hd. cbn [rbind].
  destruct Hr as (o & c & Hi & _). apply issue_ok in Hi as (Hok & _ & Eb).
  assert (body r = receipt_body start (s_out s) (s_err s) o c) as Eb' by by rewrite Eb.
  rewrite (proj2 (verify_ok r _ _ _ _ _ _ (body r))); [done|]. split; [done|].
  rewrite Eb' in *. pose proof (ok_uid _ oks). destruct (ok_output _ oks). by split.
Qed.

(** The validator once the receipt is authenticated. *)
Definition at_receipt (n : Z) (s : Seen) (r : AuthenticatedReceipt) : Helper.HelperSessionValidator :=
  Helper.set_phase Helper.PReceiptAuthenticated (Helper.set_receipt None
    (Some {| Helper.term_outcome := wire_outcome (body_outcome (body r));
             Helper.term_completed_unix_ms := body_completed_unix_ms (body r) |}) (at_stream n s)).

Lemma control_receipt n s r : 1 <= n < U64_MAX -> receipt_for start s r -> timely start now r ->
  control (accept_receipt start now) (at_stream n s) {| sequence := n; frame := receipt_frame start r |} =
  Some (at_receipt (n + 1) s r).
Proof.
  intros Hn Hr Ht. unfold control.
  rewrite (validate_step (at_stream n s) _ (Helper.set_phase Helper.PReceiptAuthenticationPending
    (Helper.set_receipt (Some (sha256 (receipt_encode r))) None (at_stream n s)))); [| |simpl; lia].
  2:{ unfold Helper.transition. simpl. unfold Helper.validate_job. simpl.
      by rewrite bool_decide_true by done. }
  cbn [frame receipt_frame receipt_bytes]. rewrite (receipt_for_accepted s r) by done. simpl.
  unfold Helper.authenticate_receipt. simpl. by rewrite !bool_decide_true by done.
Qed.

Lemma control_exit n s r : 1 <= n < U64_MAX ->
  control (accept_receipt start now) (at_receipt n s r) {| sequence := n; frame := exit_frame start r |} =
  Some (Helper.set_next (n + 1) (Helper.set_phase Helper.PTerminal (at_receipt n s r))).
Proof.
  intros Hn. apply control_plain; [done|done| |lia]. unfold Helper.transition. simpl.
  unfold Helper.validate_job. simpl. rewrite bool_decide_true by done. simpl.
  by rewrite bool_decide_true by done.
Qed.

Lemma control_denied n s e : 1 <= n < U64_MAX ->
  control (accept_receipt start now) (at_stream n s) {| sequence := n; frame := denied_frame start e |} =
  Some (Helper.set_next (n + 1) (Helper.set_phase Helper.PTerminal (at_stream n s))).
Proof.
  intros Hn. apply control_plain; [done|done| |lia]. unfold Helper.transition. simpl.
  unfold Helper.validate_job. simpl. by rewrite bool_decide_true by done.
Qed.

(** A receipt that is accepted is timely. *)
Lemma accepted_timely b : is_Some (accept_receipt start now b) ->
  exists r, receipt_decode b = Ok r /\ timely start now r.
Proof.
  unfold accept_receipt. destruct (receipt_decode b) as [r|e] eqn:Hd; cbn [rbind]; [|by intros []].
  destruct (verify r _ _ _ _ _ now) as [bd|e] eqn:Hv; [|by intros []]. intros _. exists r. split; [done|].
  apply verify_ok in Hv as (Er & [? ? ? ? Hrel Hnow Hret]).
  assert (body r = bd) as Eb by by rewrite Er. unfold timely. rewrite Eb. by split_and!.
Qed.

Lemma controls_timely v w v' f : controls (accept_receipt start now) v w = Some v' ->
  Receipt f ∈ map frame w -> exists r, receipt_decode (receipt_bytes f) = Ok r /\ timely start now r.
Proof.
  revert v. induction w as [|e w IH]; intros v; simpl; [by intros _ ?%elem_of_nil|].
  destruct (control _ v e) as [v1|] eqn:Hc; simpl; [|done]. intros Hw [Ef|Hin]%elem_of_cons; [|by eapply IH].
  apply accepted_timely. unfold control in Hc. destruct (Helper.validate v e) as [v2 [u|err]]; [|done].
  rewrite <-Ef in Hc. destruct (accept_receipt _ _ _); [done|discriminate Hc].
Qed.

(** Every conversation is accepted. *)
Lemma conversation_accepted l : conversation start l -> zlen l <= U64_MAX ->
  (forall f r, Receipt f ∈ l -> receipt_decode (receipt_bytes f) = Ok r -> timely start now r) ->
  exists v, controls (accept_receipt start now) (Helper.new job (Helper.Job max)) (number 0 l) = Some v.
Proof.
  assert (forall uid l s, uid <> 0 -> streamed start l s -> 1 + zlen l <= U64_MAX -> forall l',
    controls (accept_receipt start now) (Helper.new job (Helper.Job max))
      (number 0 (hello_frame SUPPORTED_FEATURE_BITS uid :: l ++ l')) =
    controls (accept_receipt start now) (at_stream (1 + zlen l) s) (number (1 + zlen l) l')) as Hpre.
  { intros uid l0 s Hu Hs Hn l'. cbn [number controls]. rewrite control_hello by done.
    change (0 + 1) with 1. cbn [mbind option_bind].
    by rewrite number_app, controls_app, (controls_stream l0 s). }
  intros Hc Hn Hdec. pose proof (@zlen_nonneg Frame) as Hz.
  assert (forall r s, receipt_frame start r ∈ l -> receipt_for start s r -> timely start now r) as Ht.
  { intros r s Hin Hr. apply (Hdec _ r Hin). by apply (receipt_for_decodes s). }
  destruct Hc as [|uid e Hu|uid l s Hu Hs|uid l s r Hu Hs Hr|uid l s r Hu Hs Hr];
    rewrite ?zlen_cons, ?zlen_app, ?zlen_cons, ?zlen_nil in Hn.
  - by eexists.
  - cbn [number controls]. rewrite control_hello by done. simpl. eexists.
    by rewrite (control_denied 1).
  - rewrite <-(app_nil_r l), (Hpre uid l s) by (done || lia). by eexists.
  - specialize (Hz l). rewrite (Hpre uid l s) by (done || lia). simpl. eexists.
    rewrite control_receipt; [done|lia|done|apply (Ht r s); [|done]].
    rewrite elem_of_cons, elem_of_app, elem_of_cons. tauto.
  - specialize (Hz l). rewrite (Hpre uid l s) by (done || lia). cbn [number controls]. eexists.
    rewrite control_receipt; [|lia|done|apply (Ht r s); [|done];
      rewrite elem_of_cons, elem_of_app, elem_of_cons; tauto].
    simpl. by rewrite control_exit by lia.
Qed.
End accepted.

(** ** Prefixes, and what a conversation says of the output *)

Definition output_of (k : StreamKind) (l : list Frame) : bytes :=
  List.concat (map (fun f => match f, k with
                             | Stdout o, OfStdout | Stderr o, OfStderr => output_data o
                             | _, _ => []
                             end) l).

Lemma output_of_app k l1 l2 : output_of k (l1 ++ l2) = output_of k l1 ++ output_of k l2.
Proof. unfold output_of. by rewrite map_app, concat_app. Qed.

Section conversations.
Context `{Sha2, HmacSha2} (start : StartFrame) (nonneg : 0 <= max_output_bytes start).

Lemma streamed_output_of l s : streamed start l s ->
  output_of OfStdout l = s_out s /\ output_of OfStderr l = s_err s.
Proof.
  induction 1 as [|l s k data Hl [IHo IHe] _|l s o t Hl [IHo IHe] _ _]; [done|..];
    rewrite !output_of_app, IHo, IHe; unfold output_of; [destruct k|]; cbn; by rewrite ?app_nil_r.
Qed.

Lemma streamed_prefix l s l1 l2 : streamed start l s -> l = l1 ++ l2 -> exists s', streamed start l1 s'.
Proof.
  intros Hs. revert l1 l2. induction Hs as [|l s k data Hl IH Hfit|l s o t Hl IH Ho Ht]; intros l1 l2 E.
  - symmetry in E. apply app_nil in E as [-> ->]. eexists. constructor.
  - destruct l2 as [|f l2 _] using rev_ind.
    + rewrite app_nil_r in E. subst l1. eexists. by constructor.
    + rewrite app_assoc in E. apply app_inj_tail in E as [E _]. by apply (IH l1 l2).
  - destruct l2 as [|f l2 _] using rev_ind.
    + rewrite app_nil_r in E. subst l1. eexists. by constructor.
    + rewrite app_assoc in E. apply app_inj_tail in E as [E _]. by apply (IH l1 l2).
Qed.

Lemma streamed_budget l s : streamed start l s ->
  zlen (s_out s) + zlen (s_err s) <= max_output_bytes start.
Proof.
  induction 1 as [|l s k data Hl IH Hfit|l s o t Hl IH Ho Ht]; [done| |done].
  destruct k; simpl; rewrite zlen_app; lia.
Qed.

(** A list is cut inside its first part, or after it. *)
Lemma app_cut {A} (a b l1 l2 : list A) : a ++ b = l1 ++ l2 ->
  (exists m, a = l1 ++ m) \/ exists m, l1 = a ++ m /\ b = m ++ l2.
Proof.
  intros E. apply app_eq_app in E as (m & [[-> ->]|[-> ->]]); [left|right]; eauto.
Qed.

Lemma conversation_prefix l l1 l2 : conversation start l -> l = l1 ++ l2 -> conversation start l1.
Proof.
  assert (forall uid l s l1 m, uid <> 0 -> streamed start l s ->
    hello_frame SUPPORTED_FEATURE_BITS uid :: l = l1 ++ m -> conversation start l1) as Hstream.
  { intros uid l0 s l1' m Hu Hs E. destruct l1' as [|f l1']; [constructor|]. injection E as <- E.
    destruct (streamed_prefix l0 s l1' m Hs E) as [s' Hs']. by apply (conv_stream _ uid l1' s'). }
  assert (forall (a b : Frame) l1 l2, [a; b] = l1 ++ l2 -> l1 = [] \/ l1 = [a] \/ l1 = [a; b]) as Htwo.
  { intros a b [|x [|y [|z l1']]] l2' E; simplify_eq/=; auto. }
  assert (forall (a : Frame) l1 l2, [a] = l1 ++ l2 -> l1 = [] \/ l1 = [a]) as Hone.
  { intros a [|x [|y l1']] l2' E; simplify_eq/=; auto. }
  intros Hc E. destruct Hc as [|uid e Hu|uid l s Hu Hs|uid l s r Hu Hs Hr|uid l s r Hu Hs Hr].
  - symmetry in E. apply app_nil in E as [-> _]. constructor.
  - apply Htwo in E as [->|[->| ->]]; [constructor| |by constructor].
    apply (conv_stream _ uid [] nothing_seen); [done|constructor].
  - by eapply Hstream.
  - rewrite app_comm_cons in E. apply app_cut in E as [[m E]|(m & -> & E)]; [by eapply Hstream|].
    apply Hone in E as [->| ->]; [rewrite app_nil_r; by apply (conv_stream _ uid l s)|].
    by apply (conv_receipt _ uid l s r).
  - rewrite app_comm_cons in E. apply app_cut in E as [[m E]|(m & -> & E)]; [by eapply Hstream|].
    apply Htwo in E as [->|[->| ->]]; [rewrite app_nil_r; by apply (conv_stream _ uid l s)|..].
    + by apply (conv_receipt _ uid l s r).
    + by apply (conv_exit _ uid l s r).
Qed.

Lemma receipt_frame_bytes f r : Receipt f = receipt_frame start r ->
  receipt_bytes f = receipt_encode r.
Proof.
  intros E. change (receipt_bytes f)
    with (match Receipt f with Receipt g => receipt_bytes g | _ => [] end). by rewrite E.
Qed.

(** The receipt in a conversation is for the output in it. *)
Lemma conversation_receipt l f : conversation start l -> f ∈ l -> is_receipt f = true ->
  exists r s, f = receipt_frame start r /\ receipt_for start s r /\
    s_out s = output_of OfStdout l /\ s_err s = output_of OfStderr l /\
    zlen (s_out s) + zlen (s_err s) <= max_output_bytes start.
Proof.
  assert (forall uid l0 s r tail, uid <> 0 -> streamed start l0 s -> receipt_for start s r ->
    Forall (fun g => is_receipt g = true -> g = receipt_frame start r) tail ->
    output_of OfStdout tail = [] -> output_of OfStderr tail = [] ->
    f ∈ hello_frame SUPPORTED_FEATURE_BITS uid :: l0 ++ tail -> is_receipt f = true ->
    exists r s, f = receipt_frame start r /\ receipt_for start s r /\
      s_out s = output_of OfStdout (hello_frame SUPPORTED_FEATURE_BITS uid :: l0 ++ tail) /\
      s_err s = output_of OfStderr (hello_frame SUPPORTED_FEATURE_BITS uid :: l0 ++ tail) /\
      zlen (s_out s) + zlen (s_err s) <= max_output_bytes start) as Hmain.
  { intros uid l0 s r tail Hu Hs Hr Htail Eo Ee Hf Hif. destruct (streamed_output_of l0 s Hs) as [So Se].
    assert (forall k, output_of k (hello_frame SUPPORTED_FEATURE_BITS uid :: l0 ++ tail) =
      output_of k l0 ++ output_of k tail) as Eout by (intros k; apply output_of_app).
    exists r, s. rewrite !Eout, Eo, Ee, So, Se, !app_nil_r. split_and!; try done; [|by apply streamed_budget with l0].
    apply elem_of_cons in Hf as [->|[Hin|Hin]%elem_of_app]; [done| |].
    - pose proof (streamed_no_receipt _ _ _ Hs) as Hno. rewrite Forall_forall in Hno.
      specialize (Hno f Hin). congruence.
    - rewrite Forall_forall in Htail. by apply Htail. }
  intros Hc Hf Hif. destruct Hc as [|uid e Hu|uid l s Hu Hs|uid l s r Hu Hs Hr|uid l s r Hu Hs Hr].
  - by apply elem_of_nil in Hf.
  - rewrite !elem_of_cons, elem_of_nil in Hf. by destruct Hf as [->|[->|[]]].
  - apply elem_of_cons in Hf as [->|Hin]; [done|].
    pose proof (streamed_no_receipt _ _ _ Hs) as Hno. rewrite Forall_forall in Hno.
    specialize (Hno f Hin). congruence.
  - apply (Hmain uid l s r); try done. by repeat constructor.
  - apply (Hmain uid l s r); try done. by repeat constructor.
Qed.
End conversations.

(** ** Requests *)

Lemma read_input_wf eof stdin e : InputFrame e ∈ read_input eof stdin ->
  wf_envelope e /\ frame_ok (frame e).
Proof.
  unfold read_input. generalize Controller.default as v. generalize (S (length stdin)) as n.
  intros n. revert stdin. induction n as [|n IH]; intros stdin v; simpl; [by intros ?%elem_of_nil|].
  destruct stdin as [|b stdin].
  - intros Hin. apply list_elem_of_singleton in Hin. by destruct eof.
  - destruct (read_frame_from (b :: stdin)) as [[[e'|] rest]|err] eqn:E;
      [|intros Hin; by apply list_elem_of_singleton in Hin..].
    assert (wf_envelope e' /\ frame_ok (frame e')) as Hwf.
    { unfold read_frame_from, read_frame_body in E.
      repeat (apply bind_ok in E as (? & ? & ? & E)). unfold ret in E. injection E as <- <-.
      match goal with Hd : lift (decode_exact _) _ = _ |- _ => apply lift_ok in Hd as [Hd _];
        by apply decode_exact_sound in Hd as (? & ? & _) end. }
    destruct (Controller.validate v e') as [v' [u|err]]; [|intros Hin; by apply list_elem_of_singleton in Hin].
    intros [[= ->]|Hin]%elem_of_cons; [done|by apply (IH rest v')].
Qed.

(** ** Every run *)

Section runs.
Context `{Posix.Strerror} `{Sha2Laws, HmacSha2Laws} `{Hex} `{!Json DiskJobRecord}.
Context `{!JsonSer Policy.PolicyIr, !Json Policy.PolicyDocument}.

(** A host whose helper just started, and is sent the bytes [stdin] that ask
    for the job [start]; the child's output comes as its readers read it. *)
Record asks (stdin : bytes) (start : StartFrame) (h : Host) : Prop := {
  as_relay : h_relay h = fresh_relay;
  as_idle : h_spawned h = None;
  as_input : exists eof e0 e1 rest,
    h_incoming h = read_input eof stdin /\
    read_input eof stdin = InputFrame e0 :: InputFrame e1 :: rest /\ frame e1 = Start start;
  as_child : exists reads, forall k, events k h = read_child_stream k (reads k);
}.

(** Where a run is when its choices are used up, or at its end; and what it
    has written by then. *)
Definition after {A} (p : hprog A) (chs : list choice) (h : Host) : Host :=
  (run exec others p chs h []).1.2.
Definition written (h : Host) : list Envelope := r_written (h_relay h).

Lemma asks_start stdin start h : asks stdin start h -> wf_start start /\ start_ok start.
Proof.
  intros [_ _ (eof & e0 & e1 & rest & _ & Er & Es) _].
  destruct (read_input_wf eof stdin e1) as [[_ Hwf] Hok]; [rewrite Er; right; by left|].
  by rewrite Es in Hwf, Hok.
Qed.

(** Every run of the helper, from what is known of persisted receipts when the
    others are [okay] and the host is [Sound]. *)
Lemma serve_runs okay Kept Sound fuel chs stdin start h :
  (forall ch h r, okay ch -> Kept h r -> Kept (others ch h) r) ->
  (forall f h r, Kept h r -> Kept (on_relay f h) r) ->
  (forall ch h, okay ch -> Sound h -> Sound (others ch h)) ->
  (forall c ch h, Sound h -> Sound (exec c ch h).2) ->
  (forall store r h, home_store okay (run_as_uid start) store ->
     wlp exec (rely okay Sound) (fun _ _ => True) okay (persist_receipt store r)
     (fun res h' => is_ok res = true -> Kept h' r) h) ->
  (forall store j r h, Kept h r -> wlp exec (rely okay Sound) (fun _ _ => True) okay
     (update_journal store j) (fun _ h' => Kept h' r) h) ->
  asks stdin start h -> Sound h -> Forall okay chs ->
  exists reads, (forall k, events k h = output_events reads k) /\
    Inv start reads Kept (after (serve_stdio fuel) chs h).
Proof.
  intros Ho Hre Hso Hse Hp Hu Ha Hs Hchs. destruct (asks_start _ _ _ Ha) as [Hwf Hok].
  destruct Ha as [Er Ei (eof & e0 & e1 & rest & Ein & Eq & Es) [reads Hev]].
  exists reads. split; [exact Hev|].
  assert (Inv start reads Kept h) as Hi.
  { split; unfold sent; rewrite ?Er, ?Ei; [constructor|done|by intros ? ?%elem_of_nil]. }
  refine (proj1 (wlp_run exec others (rely okay Sound) (fun _ => Inv start reads Kept) okay
    (Inv start reads Kept) Sound _ (fun _ => Inv start reads Kept) chs h [] _ Hse _ _ Hi Hs)); [|done|].
  - eapply Forall_impl; [exact Hchs|]. intros ch Hch. split; [done|]. intros h' Hs'.
    assert (rely okay Sound h' (others ch h')) as Hr by (split; [auto|by exists ch]).
    split_and!; [done|auto|]. intros Hh. by eapply inv_rely.
  - apply (wlp_serve start Hwf Hok reads okay Kept Ho Hre Sound
      (home_store okay (run_as_uid start)) (wlp_prepare_store okay Sound start) Hp Hu) with (e0 := e0) (e1 := e1)
      (rest := rest); try done.
    split_and!; [by rewrite Ein, Eq|done|unfold sent; by rewrite Er|exact Hev].
Qed.

Lemma serve_inv fuel chs stdin start h : asks stdin start h ->
  exists reads, (forall k, events k h = output_events reads k) /\
    Inv start reads (fun _ _ => True) (after (serve_stdio fuel) chs h).
Proof.
  intros Ha. apply (serve_runs (fun _ => True) _ (fun _ => True)) with (stdin := stdin); try done.
  - intros store r h' _. by apply wlp_trivial.
  - intros store j r h' _. by apply wlp_trivial.
  - by apply Forall_true.
Qed.

(** What was written is a conversation, and the start of what was sent. *)
Lemma written_conversation fuel chs stdin start h : asks stdin start h ->
  let w := written (after (serve_stdio fuel) chs h) in
  w = number 0 (map frame w) /\ conversation start (map frame w) /\
  exists rest, sent (after (serve_stdio fuel) chs h) = map frame w ++ rest.
Proof.
  intros Ha. cbv zeta. destruct (serve_inv fuel chs stdin start h Ha) as (_ & _ & [Hc _ _]).
  assert (relay_ok (h_relay (after (serve_stdio fuel) chs h))) as [Hn _ (rest & Hs & _) _].
  { apply run_relay_ok. rewrite (as_relay _ _ _ Ha). by split; simpl; eauto. }
  split; [done|]. split; [|by exists rest]. by eapply conversation_prefix.
Qed.

(** C7: whatever the files, the clocks, the child and the controller's further
    requests do, and wherever a run is looked at, a controller that validates
    the session with the validator of the protocol accepts every frame the
    helper wrote up to its receipt.  It accepts the receipt, and all that was
    written, exactly if the receipt is timely: completed by the relay deadline,
    and looked at after that and while it is retained.  Nothing else can be
    wrong with it. *)
Theorem helper_session_is_accepted fuel chs stdin start h now :
  asks stdin start h ->
  let w := written (after (serve_stdio fuel) chs h) in
  zlen w <= U64_MAX ->
  exists v, Helper.for_job (start_job_id start) (max_output_bytes start) = Ok v /\
    (forall w1 w2, w = w1 ++ w2 -> Forall (fun f => is_receipt f = false) (map frame w1) ->
       is_Some (controls (accept_receipt start now) v w1)) /\
    (is_Some (controls (accept_receipt start now) v w) <->
     forall f, Receipt f ∈ map frame w ->
       exists r, receipt_decode (receipt_bytes f) = Ok r /\ timely start now r).
Proof.
  intros Ha w Hlen. destruct (asks_start _ _ _ Ha) as [Hwf Hok].
  destruct (written_conversation fuel chs stdin start h Ha) as (Hn & Hc & _). fold w in Hn, Hc.
  exists (Helper.new (start_job_id start) (Helper.Job (max_output_bytes start))).
  split; [|split; [|split]].
  - unfold Helper.for_job. destruct (ok_output _ Hok) as [Hne Hle].
    by rewrite (proj2 (Z.eqb_neq _ _) Hne), (proj2 (Z.ltb_ge _ _) Hle).
  - intros w1 w2 E Hno. rewrite E, map_app, number_app in Hn.
    apply app_inv_length in Hn as [Hn _]; [|by rewrite length_number, length_map].
    destruct (conversation_accepted start now Hwf Hok (map frame w1)) as [v Hv];
      [..|exists v; by rewrite Hn].
    + eapply conversation_prefix; [exact Hc|]. by rewrite E, map_app.
    + rewrite E, zlen_app in Hlen. pose proof (zlen_nonneg w2). unfold zlen in *. rewrite length_map. lia.
    + intros f r Hf _. rewrite Forall_forall in Hno. by specialize (Hno _ Hf).
  - intros [v Hv] f Hf. by eapply controls_timely.
  - intros Ht. destruct (conversation_accepted start now Hwf Hok (map frame w)) as [v Hv];
      [done|by unfold zlen in *; rewrite length_map| |exists v; by rewrite Hn].
    intros f r Hf Hd. destruct (Ht f Hf) as (r' & Hd' & Hr). congruence.
Qed.

(** C9: the receipt a helper sends is for exactly the output it sent: it is
    the receipt of the job, under the token of the request, with the digests of
    the stdout and stderr the frames before it carry; and that output is within
    the budget. *)
Theorem receipt_matches_output fuel chs stdin start h f :
  asks stdin start h ->
  let l := map frame (written (after (serve_stdio fuel) chs h)) in
  Receipt f ∈ l ->
  exists r, receipt_decode (receipt_bytes f) = Ok r /\
    r = receipt_of (body r) (start_receipt_token start) /\
    body_identity (body r) = start_identity start /\
    stdout_digest (body r) = sha256 (output_of OfStdout l) /\
    stderr_digest (body r) = sha256 (output_of OfStderr l) /\
    zlen (output_of OfStdout l) + zlen (output_of OfStderr l) <= max_output_bytes start.
Proof.
  intros Ha l Hin. destruct (asks_start _ _ _ Ha) as [Hwf Hok].
  destruct (written_conversation fuel chs stdin start h Ha) as (_ & Hc & _). fold l in Hc.
  destruct (conversation_receipt start (proj1 (wf_start_output _ Hwf)) _ _ Hc Hin eq_refl)
    as (r & s & Ef%receipt_frame_bytes & Hr & Eo & Ee & Hb).
  destruct (receipt_for_decodes start Hwf s r Hr) as [Hd Er]. exists r.
  destruct Hr as (o & c & Hi & _). apply issue_ok in Hi as (_ & _ & Eb).
  rewrite <-Eo, <-Ee, Ef. split; [done|]. split; [done|]. by rewrite Eb.
Qed.

(** C8: the only program a helper ever runs is the one its request asks for,
    and only if the request is what its digest says, its deadlines are in
    order, it names the policy it carries, and that policy allows the intent;
    then the program is one of the five fixed executables, its arguments and
    environment are those of the request and were found harmless, the
    environment is nothing else, and no working directory is set. *)
Theorem only_authorised_programs_run fuel chs stdin start h cmd :
  asks stdin start h -> h_spawned (after (serve_stdio fuel) chs h) = Some cmd ->
  compute_start_input_digest start = start_input_digest start /\
  (exists doc policy now,
    from_slice (policy_json start) = Some doc /\ Policy.compile_policy doc = Ok policy /\
    hex_decode (Policy.digest policy) = Some (start_policy_digest start) /\
    deadlines_validate_at (start_deadlines start) now = Ok tt /\
    Policy.evaluate_intent (Policy.ir policy) (typed_intent start (run_as_uid start) now) = Ok tt /\
    Policy.intent_safe (Policy.doc_base doc) (typed_intent start (run_as_uid start) now)) /\
  run_as_uid start <> 0 /\
  resolve_executable (program start) = Ok (cmd_program cmd) /\
  cmd_args cmd = argv start /\
  cmd_env cmd = map (fun v => (env_name v, env_value v)) (env start) /\
  cmd_current_dir cmd = None.
Proof.
  intros Ha Hcmd. destruct (serve_inv fuel chs stdin start h Ha) as (reads & _ & Hi).
  destruct (inv_authorised _ _ _ _ Hi cmd Hcmd)
    as (Hin & policy & now & exe & d & Hp & Hd & Hv & Hu & Hall & Hexe & -> & Hcwd).
  unfold Policy.compile_policy_json in Hp. destruct (_ <? _); [done|].
  apply rbind_ok in Hp as (doc & Hdoc%ok_or_ok & Hp).
  assert (Policy.evaluate_intent (Policy.ir policy) (typed_intent start (run_as_uid start) now) = Ok tt)
    as He.
  { unfold Policy.explain in Hall. by destruct (Policy.evaluate_intent _ _) as [[]|]. }
  assert (Policy.compile_ir doc = Ok (Policy.ir policy)) as Hir.
  { unfold Policy.compile_policy in Hp. by inv_ok. }
  pose proof (Policy.evaluate_safe _ _ _ Hir He) as Hsafe.
  split; [done|]. split; [by exists doc, policy, now|]. simpl. split_and!; try done.
  apply Hcwd. pose proof (Policy.safe_paths _ _ Hsafe) as Hpaths. simpl in Hpaths.
  by destruct (cwd start).
Qed.
(** C10: a receipt is sent only when the whole output was read: both streams of
    the child came to their end, which they do not if reading one of them
    fails; and if the receipt says that the job exited by itself, its digests
    are those of everything the child wrote. *)
Theorem receipt_covers_all_output fuel chs stdin start h f :
  asks stdin start h ->
  Receipt f ∈ map frame (written (after (serve_stdio fuel) chs h)) ->
  (forall k, Closed k ∈ events k h) /\
  exists r, receipt_decode (receipt_bytes f) = Ok r /\
    forall c, body_outcome (body r) = RExited c -> c <> 125 ->
      stdout_digest (body r) = sha256 (produced (events OfStdout h)) /\
      stderr_digest (body r) = sha256 (produced (events OfStderr h)).
Proof.
  intros Ha Hin. destruct (asks_start _ _ _ Ha) as [Hwf Hok].
  destruct (serve_inv fuel chs stdin start h Ha) as (reads & Hev & Hi).
  destruct (written_conversation fuel chs stdin start h Ha) as (_ & _ & rest & Es).
  destruct (inv_kept _ _ _ _ Hi (Receipt f)) as (s & r & Ef%receipt_frame_bytes & Hr & [Hcl Hall] & _);
    [rewrite Es; apply elem_of_app; by left|done|].
  split; [intros k; rewrite Hev; apply Hcl|]. exists r.
  destruct (receipt_for_decodes start Hwf s r Hr) as [Hd _]. rewrite Ef. split; [done|].
  intros c Ho Hc. rewrite !Hev, <-!(Hall c Ho Hc).
  destruct Hr as (o & completed & Hiss & _). apply issue_ok in Hiss as (_ & _ & ->). done.
Qed.

(** C11: a receipt that was written is there to stay: when the helper has
    written the receipt of a job, the file of that receipt is in the directory
    of the job store, [.serctl/jobs] in the home that the account database gives
    the user the job runs as, with exactly the bytes that were sent; and it
    still is, under its name and whole, after a power loss at any later moment
    of the run, as long as the other processes keep off the receipt's name and
    the files that have it.  (That the directory itself survives a power loss
    is the environment's business: [paths] are not subject to crashes.) *)
Theorem sent_receipt_is_durable fuel chs stdin start h f lost :
  asks stdin start h -> bounded (h_files h) ->
  Forall (respectful (receipt_name (start_job_id start))) chs ->
  let last := after (serve_stdio fuel) chs h in
  Receipt f ∈ map frame (written last) -> crash (h_files last) lost ->
  exists ch dir d i x, ch ∈ chs /\
    store_root (run_as_uid start) (ch_text ch (rs "/etc/passwd")) = Some dir /\
    paths (h_files last) !! dir = Some d /\
    entry lost d (receipt_name (start_job_id start)) = Some i /\
    inodes lost !! i = Some x /\ i_data x = receipt_bytes f /\ i_clean x = true.
Proof.
  intros Ha Hb Hchs last Hin Hlost.
  set (okay ch := respectful (receipt_name (start_job_id start)) ch /\ ch ∈ chs).
  set (At dir := exists ch, okay ch /\
    store_root (run_as_uid start) (ch_text ch (rs "/etc/passwd")) = Some dir).
  assert (exists reads, (forall k, events k h = output_events reads k) /\
    Inv start reads (kept (start_job_id start) At) last) as (reads & _ & Hi).
  { apply (serve_runs okay _ sound) with (stdin := stdin); try done.
    - intros ch h' r [Hch _]. by apply kept_others.
    - intros ch h' [Hch _]. by apply (sound_others (receipt_name (start_job_id start))).
    - apply sound_exec.
    - intros store r h' Hs. eapply wlp_company; [|by apply persist_kept]. by intros ch [].
    - intros store j r h' Hk. eapply wlp_company; [|by apply update_kept]. by intros ch [].
    - apply Forall_forall. intros ch Hch. rewrite Forall_forall in Hchs. split; [by apply Hchs|done]. }
  destruct (written_conversation fuel chs stdin start h Ha) as (_ & _ & rest & Es).
  destruct (inv_kept _ _ _ _ Hi (Receipt f)) as (s & r & Ef%receipt_frame_bytes & Hr & _ & Hk);
    [fold last in Es; rewrite Es; apply elem_of_app; by left|done|].
  destruct Hr as (o & c & Hiss & _). apply issue_ok in Hiss as (_ & _ & Eb).
  destruct Hk as [_ (dir & (ch & [_ Hch] & Hroot) & Hp)]; [by rewrite Eb|].
  destruct (persisted_crash _ _ _ _ _ Hp Hlost) as (d & i & x & Hd & Hi' & Hx & Hbs & Hc).
  exists ch, dir, d, i, x. by rewrite Ef.
Qed.
End runs.

(** ** A concrete job *)
Module RemoteHelperRuns.
Import StandIn.

#[export] Instance policy_ir_json : JsonSer Policy.PolicyIr := Policy.PolicyRuns.ir_json.
#[export] Instance policy_json : Json Policy.PolicyDocument :=
  {| to_vec := fun _ => None;
     from_slice := fun b => if decide (b = rs "{policy}") then Some Policy.PolicyRuns.doc else None |}.
#[export] Instance journal_json : Json DiskJobRecord :=
  {| to_vec := fun _ => Some (rs "{journal}"); from_slice := fun _ => None |}.
#[export] Instance strerror : Posix.Strerror := fun _ => rs "error".

(** The digest of the concrete policy, as its 32 bytes. *)
Definition policy_digest_bytes : bytes :=
  default [] (hex_decode (Policy.digest (Policy.PolicyRuns.policy Policy.PolicyRuns.doc))).

Definition draft (digest : bytes) : StartFrame := {|
  start_job_id := replicate 16 x01; start_profile_id := replicate 16 x02;
  start_profile_generation := 3; start_policy_digest := policy_digest_bytes;
  start_input_digest := digest; remote_deadline_unix_ms := 5000;
  relay_deadline_unix_ms := 6000; result_retention_unix_ms := 9000; run_as_uid := 1000;
  max_output_bytes := 4096; program := rs "id"; argv := [rs "-u"];
  env := [{| env_name := rs "LANG"; env_value := rs "C" |}]; cwd := None;
  RemoteProtocol.policy_json := rs "{policy}"; start_receipt_token := replicate 32 x06 |}.
Definition start : StartFrame := draft (compute_start_input_digest (draft [])).

Definition encoded (n : Z) (f : Frame) : bytes :=
  match encode {| sequence := n; frame := f |} with Ok b => b | Err _ => [] end.
Definition stdin : bytes :=
  encoded 0 (hello_frame SUPPORTED_FEATURE_BITS 0) ++ encoded 1 (Start start).

(** The files: the program, and the directories of the user's store. *)
Definition inode (k : Posix.kind) (uid mode : Z) : Posix.Inode :=
  {| i_kind := k; i_uid := uid; i_mode := mode; i_nlink := 1; i_mtime := 0; i_data := [];
     i_stable := []; i_clean := true |}.
Definition jobs_dir : str := rs "/home/u/.serctl/jobs".
Definition files : Posix.World :=
  {| euid := 1000; umask := 0; device := 1; clock := 0;
     paths := list_to_map [(rs "/usr/bin/id", 1); (rs "/home/u", 2); (rs "/home/u/.serctl", 3);
                           (jobs_dir, 4)];
     inodes := list_to_map [(1, inode KFile 0 493); (2, inode KDir 1000 448);
                            (3, inode KDir 1000 448); (4, inode KDir 1000 448)];
     next_ino := 5; dirs := list_to_map [(4, {| d_entries := ∅; d_older := [] |})];
     handles := ∅; next_fd := 3 |}.

Definition host : Host :=
  {| h_files := files; h_incoming := read_input true stdin; h_relay := fresh_relay;
     h_stdout := [Chunk OfStdout (rs "1000"); Closed OfStdout]; h_stderr := [Closed OfStderr];
     h_spawned := None; h_instant := 0 |}.

(** Everything works, and a second passes whenever the clock is read. *)
Definition text (p : str) : str :=
  if bool_decide (p = rs "/etc/passwd") then rs "u:x:1000:1000:u:/home/u:/bin/sh"
  else rs "Uid:" ++ [x09] ++ rs "1000 1000".
Definition good (first : StreamKind) (writer : list writer_step) : choice :=
  {| ch_fs := Posix.no_choice; ch_writer := writer; ch_fault := None; ch_text := text;
     ch_yes := true; ch_random := replicate 16 x07; ch_system := Some 1000%N;
     ch_elapsed := 1000000000; ch_ready := false; ch_event := true; ch_first := first;
     ch_status := Some {| wait_status := 0 |} |}.
Definition chs : list choice :=
  List.concat (replicate 200 [good OfStdout [Take; Finish true]; good OfStderr [Take; Finish true]]).

Notation final := (after (serve_stdio 20) chs host).

Lemma host_asks : asks stdin start host.
Proof.
  split; [done|done| |].
  - exists true. do 3 eexists. split; [reflexivity|].
    split; [vm_compute; reflexivity|]. vm_compute. reflexivity.
  - exists (fun k => match k with OfStdout => [Ok (rs "1000"); Ok []] | OfStderr => [Ok []] end).
    by intros [].
Qed.

(** Whether the receipts among frames are timely. *)
Definition all_timely (now : Z) (l : list Frame) : bool :=
  forallb (fun f => match f with
                    | Receipt f =>
                        match receipt_decode (receipt_bytes f) with
                        | Ok r => bool_decide (timely start now r)
                        | Err _ => false
                        end
                    | _ => true
                    end) l.
#[local] Instance timely_dec now r : Decision (timely start now r).
Proof. unfold timely. apply _. Defined.
Lemma all_timely_spec now l : all_timely now l = true -> forall f, Receipt f ∈ l ->
  exists r, receipt_decode (receipt_bytes f) = Ok r /\ timely start now r.
Proof.
  unfold all_timely. rewrite forallb_forall. intros Hl f Hin.
  specialize (Hl (Receipt f) (proj1 (list_elem_of_In _ _) Hin)). simpl in Hl.
  destruct (receipt_decode _) as [r|e]; [|done]. exists r. by apply bool_decide_eq_true in Hl.
Qed.

Lemma no_receipts_spec l :
  forallb (fun f => negb (is_receipt f)) l = true -> Forall (fun f => is_receipt f = false) l.
Proof.
  rewrite forallb_Forall'. intros Hl. eapply Forall_impl; [exact Hl|]. intros f. apply negb_true_iff.
Qed.

Lemma helper_session_is_accepted_witness :
  map kind (map frame (written final)) = [KHello; KStdout; KHeartbeat; KReceipt; KExit] /\
  exists v, Helper.for_job (start_job_id start) (max_output_bytes start) = Ok v /\
    is_Some (controls (accept_receipt start 2000) v (written final)) /\
    is_Some (controls (accept_receipt start 900) v (take 3 (written final))).
Proof.
  split; [vm_compute; reflexivity|].
  destruct (helper_session_is_accepted 20 chs stdin start host 2000 host_asks)
    as (v & Hv & _ & _ & Hall); [vm_compute; congruence|].
  destruct (helper_session_is_accepted 20 chs stdin start host 900 host_asks)
    as (v' & Hv' & Hbefore & _); [vm_compute; congruence|].
  rewrite Hv in Hv'. injection Hv' as <-. exists v. split; [exact Hv|]. split.
  - apply Hall, all_timely_spec. vm_compute. reflexivity.
  - apply (Hbefore _ (drop 3 (written final))); [symmetry; apply take_drop|].
    apply no_receipts_spec. vm_compute. reflexivity.
Defined.

Definition sent_receipt : ReceiptFrame :=
  default {| receipt_job_id := []; receipt_bytes := [] |}
    (head (omap (fun f => match f with Receipt r => Some r | _ => None end)
             (map frame (written final)))).

Lemma receipt_matches_output_witness :
  exists r, receipt_decode (receipt_bytes sent_receipt) = Ok r /\
    stdout_digest (body r) = sha256 (rs "1000").
Proof.
  destruct (receipt_matches_output 20 chs stdin start host sent_receipt host_asks)
    as (r & Hd & _ & _ & Ho & _).
  - apply list_elem_of_In. vm_compute. tauto.
  - exists r. split; [exact Hd|]. etransitivity; [exact Ho|]. vm_compute. reflexivity.
Defined.

Lemma only_authorised_programs_run_witness :
  resolve_executable (rs "id") = Ok (rs "/usr/bin/id") /\ run_as_uid start <> 0.
Proof.
  destruct (only_authorised_programs_run 20 chs stdin start host
    (make_command (rs "/usr/bin/id") start None) host_asks) as (_ & _ & Hu & Hr & _).
  - vm_compute. reflexivity.
  - exact (conj Hr Hu).
Defined.
Lemma receipt_covers_all_output_witness :
  Closed OfStdout ∈ h_stdout host /\
  exists r, receipt_decode (receipt_bytes sent_receipt) = Ok r /\
    (body_outcome (body r) = RExited 0 -> stdout_digest (body r) = sha256 (rs "1000")).
Proof.
  destruct (receipt_covers_all_output 20 chs stdin start host sent_receipt host_asks)
    as (Hc & r & Hd & Hall).
  - apply list_elem_of_In. vm_compute. tauto.
  - split; [exact (Hc OfStdout)|]. exists r. split; [exact Hd|]. intros Ho.
    refine (proj1 (Hall 0 Ho _)). discriminate.
Defined.

Lemma files_bounded : bounded files.
Proof.
  split.
  - apply (bool_decide_unpack (map_Forall (fun i _ => i < next_ino files) (inodes files))).
    vm_compute. exact I.
  - intros fd x Hx. by apply (lookup_empty_Some fd x) in Hx.
Qed.
Lemma chs_respectful n : Forall (respectful n) chs.
Proof.
  assert (forall first writer, respectful n (good first writer)) as Hgood.
  { intros first writer w Hb. split; [by apply later_refl|done]. }
  unfold chs. apply Forall_concat, Forall_replicate.
  constructor; [apply Hgood|]. constructor; [apply Hgood|constructor].
Qed.

Lemma chs_text ch : ch ∈ chs -> ch_text ch = text.
Proof.
  revert ch. apply Forall_forall. unfold chs. apply Forall_concat, Forall_replicate. by repeat constructor.
Qed.

Lemma sent_receipt_is_durable_witness :
  exists d i x, paths (h_files final) !! jobs_dir = Some d /\
    entry (power_loss (h_files final)) d (hex_lower (replicate 16 x01) ++ rs ".receipt") = Some i /\
    inodes (power_loss (h_files final)) !! i = Some x /\ i_data x = receipt_bytes sent_receipt.
Proof.
  destruct (sent_receipt_is_durable 20 chs stdin start host sent_receipt
    (power_loss (h_files final)) host_asks files_bounded (chs_respectful _))
    as (ch & dir & d & i & x & Hch & Hroot & Hp & He & Hi & Hd & _).
  - apply list_elem_of_In. vm_compute. tauto.
  - apply power_loss_crash.
  - assert (dir = jobs_dir) as ->.
    { apply chs_text in Hch. rewrite Hch in Hroot. vm_compute in Hroot. by injection Hroot as <-. }
    exists d, i, x. split; [exact Hp|]. split; [exact He|]. exact (conj Hi Hd).
Defined.
End RemoteHelperRuns.
