(* ===== verification/RemoteHelperQuery.v ===== *)
(** * serctl-remote: the theorems about a receipt query

    [receipt_stdio] answers with at most an error, or a receipt and its Exit
    ([answer]); a receipt it hands out is the one of the job asked for and is
    authenticated under the token in the query; nothing is ever run; and a
    controller that validates the session with [RemoteSession.Helper] accepts
    what is written. *)

From stdpp Require Import gmap.
From S2P Require Import Prelude.
From S2P Require Import Bytes.
From S2P Require Import Text.
From S2P Require Import Codec.
From S2P Require Import Crates.
From S2P Require Import RemoteProtocol.
From S2P Require Import RemoteSession.
From S2P Require Import Jobs.
From S2P Require Policy.
From S2P Require Import Program.
From S2P Require Import Host.
From S2P Require Import JobStore.
From S2P Require Import RemoteHelper.
From S2P Require Import RemoteHelperSteps.
From S2P Require Import RemoteHelperTheory.
From S2P Require Import RemoteHelperProperties.
#[local] Open Scope string_scope.
#[local] Open Scope list_scope.
#[local] Open Scope Z_scope.

Section query.
Context `{Posix.Strerror} `{Sha2Laws, HmacSha2Laws} `{Hex} `{!Json DiskJobRecord}.
Context `{!JsonSer Policy.PolicyIr, !Json Policy.PolicyDocument}.
Context (q : QueryReceiptFrame).

(** The bytes are a receipt that verified for the query. *)
Definition genuine (bs : bytes) (b : ReceiptBody) : Prop :=
  exists record now, verify_query_receipt record bs q now = Ok b.

Definition query_receipt_frame (bs : bytes) : Frame :=
  Receipt {| receipt_job_id := query_job_id q; receipt_bytes := bs |}.
Definition query_exit_frame (b : ReceiptBody) : Frame :=
  Exit {| exit_job_id := query_job_id q; outcome := wire_outcome (body_outcome b);
          completed_unix_ms := body_completed_unix_ms b |}.

(** What the helper may have sent. *)
Inductive answer : list Frame -> Prop :=
| answer_nothing : answer []
| answer_hello uid : uid <> 0 -> answer [hello_frame FEATURE_RECEIPT_QUERY uid]
| answer_error uid code retry : uid <> 0 ->
    answer [hello_frame FEATURE_RECEIPT_QUERY uid; receipt_error (query_job_id q) code retry]
| answer_receipt uid bs b : uid <> 0 -> genuine bs b ->
    answer [hello_frame FEATURE_RECEIPT_QUERY uid; query_receipt_frame bs]
| answer_exit uid bs b : uid <> 0 -> genuine bs b ->
    answer [hello_frame FEATURE_RECEIPT_QUERY uid; query_receipt_frame bs; query_exit_frame b].

Lemma answer_prefix l l1 l2 : answer l -> l = l1 ++ l2 -> answer l1.
Proof.
  intros Ha ->. destruct l1 as [|f1 [|f2 [|f3 l1]]]; inversion Ha; subst;
    try (by econstructor); try (by eapply answer_receipt; eauto).
  match goal with E : [] = _ ++ _ |- _ => symmetry in E; apply app_nil in E as [-> ->] end.
  by econstructor.
Qed.

(** A receipt that verified for the query is authentic under its token. *)
Lemma genuine_ok bs b : genuine bs b -> exists r, receipt_decode bs = Ok r /\ body r = b /\
  r = receipt_of b (query_receipt_token q) /\ body_identity b = query_identity q.
Proof.
  intros (record & now & Hv). unfold verify_query_receipt in Hv.
  apply rbind_ok in Hv as ([] & Hi%ensure_ok & Hv%map_err_ok). apply bool_decide_eq_true in Hi.
  apply rbind_ok in Hv as (r & Hd & Hv). apply verify_ok in Hv as (-> & Hb).
  eexists. split; [exact Hd|]. do 2 (split; [done|]). by destruct Hb.
Qed.

(** ** Runs *)

Definition answering (h : Host) : Prop := answer (sent h) /\ h_spawned h = None.

Notation rely := (Host.rely (fun _ => True) (fun _ => True)).
Notation qwlp := (wlp exec rely (fun _ => answering) (fun _ => True)).
Notation silent := (only (fun c => quiet c = true)).

Lemma answering_same h h' : answering h -> same h h' -> answering h'.
Proof. intros [Ha Hs] [Es Ep _]. split; [by rewrite Es|by rewrite Ep]. Qed.

Lemma rely_same_host h h' : rely h h' -> same h h' /\ h_incoming h' = h_incoming h.
Proof. intros (_ & ch & _ & ->). apply others_same. Qed.

(** A part that sends nothing, and what follows. *)
Lemma wlp_quiet {A} (P : A -> Prop) (p : hprog A) h : silent p -> yields P p -> answering h ->
  qwlp p (fun a h' => P a /\ same h h' /\ h_incoming h' = h_incoming h) h.
Proof.
  revert h. induction p as [a| |c k IH]; intros h; simpl; [by repeat split|done|].
  intros [Hq Hp] Hy Hh h1 ch Hr _. destruct (rely_same_host _ _ Hr) as [Hs1 Ei1].
  destruct (quiet_same c ch h1 Hq) as [Hs2 Ei2].
  assert (same h (exec c ch h1).2) as Hs by by transitivity h1.
  split; [by eapply answering_same|].
  eapply wlp_mono; [apply IH; [done|done|by eapply answering_same]|].
  intros a h' (HP & Hs' & Ei'). split; [done|]. split; [by transitivity (exec c ch h1).2|congruence].
Qed.

Lemma wlp_quiet_try {A B} (P : A -> Prop) (p : hio A) (k : A -> hio B)
    (Q : result anyhow B -> Host -> Prop) h :
  silent p -> gives P p -> answering h -> (forall e h', answering h' -> Q (Err e) h') ->
  (forall a h', P a -> answering h' -> sent h' = sent h -> h_incoming h' = h_incoming h ->
     qwlp (k a) Q h') ->
  qwlp (rpbind p k) Q h.
Proof.
  intros Hp Hg Hh Herr Hk. apply wlp_rpbind.
  eapply wlp_mono; [by apply (wlp_quiet (fun r => forall a, r = Ok a -> P a))|].
  intros [a|e] h' (HP & Hs & Ei); [|by eapply Herr, answering_same].
  apply Hk; [by apply HP|by eapply answering_same|apply Hs|done].
Qed.

(** Sending a frame. *)
Lemma wlp_answer f acked (Q : bool -> Host -> Prop) h : answering h -> answer (sent h ++ [f]) ->
  (forall h' (b : bool), answering h' -> h_incoming h' = h_incoming h ->
     sent h' = (if b then sent h ++ [f] else sent h) -> Q b h') ->
  qwlp (sys (TrySend {| oc_frame := f; oc_acknowledged := acked |})) Q h.
Proof.
  intros Hh Ha HQ h1 ch Hr _. destruct (rely_same_host _ _ Hr) as [Hs1 Ei1].
  pose proof (answering_same _ _ Hh Hs1) as Hh1.
  assert (forall (b : bool) g, sent (on_relay g h1) = (if b then sent h1 ++ [f] else sent h1) ->
    answering (on_relay g h1) /\ qwlp (Ret b) Q (on_relay g h1)) as Hend.
  { intros b g E. rewrite (sm_sent _ _ Hs1) in E.
    assert (answering (on_relay g h1)) as Hg.
    { split; [rewrite E; destruct b; [done|apply Hh]|apply Hh1]. }
    split; [done|]. by apply HQ. }
  simpl. unfold try_send. destruct (_ && _); simpl; by apply Hend.
Qed.

Lemma wlp_next {B} (k : Envelope -> hio B) (Q : result anyhow B -> Host -> Prop) e l h :
  h_incoming h = InputFrame e :: l -> answering h ->
  (forall h', answering h' -> sent h' = sent h -> h_incoming h' = l -> qwlp (k e) Q h') ->
  qwlp (rpbind receive_input k) Q h.
Proof.
  intros Ei Hh Hk. apply wlp_rpbind, wlp_pbind. intros h1 ch Hr _.
  destruct (rely_same_host _ _ Hr) as [Hs1 Ei1]. simpl. rewrite Ei1, Ei. simpl.
  assert (answering (with_incoming l h1)) as Hg by (by apply (answering_same h1); [eapply answering_same|split]).
  split; [done|]. apply Hk; [done|apply Hs1|done].
Qed.

(** The answer itself: at most one error, or the receipt and its Exit. *)
Lemma wlp_report uid code retry h : uid <> 0 -> answering h ->
  sent h = [hello_frame FEATURE_RECEIPT_QUERY uid] ->
  qwlp (let# _ := try_frame (receipt_error (query_job_id q) code retry) in ok tt)
    (fun _ => answering) h.
Proof.
  intros Hu Hh Es. apply wlp_pbind, wlp_answer; [done|by rewrite Es; constructor|]. by intros.
Qed.

Lemma wlp_hand_out uid bs b h : uid <> 0 -> genuine bs b -> answering h ->
  sent h = [hello_frame FEATURE_RECEIPT_QUERY uid] ->
  qwlp (try_final (query_receipt_frame bs) (query_exit_frame b)) (fun _ => answering) h.
Proof.
  intros Hu Hg Hh Es. unfold try_final. apply wlp_pbind.
  apply wlp_answer; [done|rewrite Es; by eapply answer_receipt|].
  intros h1 [] Hh1 _ E1; [|done]. cbn [negb]. rewrite Es in E1. apply wlp_pbind.
  apply wlp_answer; [done|rewrite E1; by eapply answer_exit|].
  intros h2 [] Hh2 _ E2; [|done]. cbn [negb]. apply wlp_pbind.
  eapply wlp_mono; [by apply (wlp_quiet (fun _ => True)); [by apply only_call|apply yields_any|]|].
  intros a h3 (_ & Hs & _). by eapply answering_same.
Qed.

Lemma wlp_answer_query uid h : uid <> 0 -> answering h ->
  sent h = [hello_frame FEATURE_RECEIPT_QUERY uid] ->
  qwlp (answer_query q uid) (fun _ => answering) h.
Proof.
  intros Hu Hh Es. unfold answer_query.
  eapply wlp_quiet_try; [apply silent_fixed_store|apply gives_any|done|done|].
  intros store h1 _ Hh1 Es1 _. apply wlp_pbind.
  eapply wlp_mono; [apply (wlp_quiet (fun _ => True)); [apply silent_load_journal|apply yields_any|done]|].
  intros loaded h2 (_ & Hs2 & _). pose proof (answering_same _ _ Hh1 Hs2) as Hh2.
  assert (sent h2 = [hello_frame FEATURE_RECEIPT_QUERY uid]) as Es2
    by by rewrite (sm_sent _ _ Hs2), Es1.
  destruct loaded as [record|e]; [|by destruct (error_is_not_found e); [apply (wlp_report uid)|]].
  eapply wlp_quiet_try; [apply silent_unix_ms|apply gives_any|done|done|].
  intros now h3 _ Hh3 Es3 _. rewrite Es2 in Es3.
  destruct (_ <? now); [by apply (wlp_report uid)|]. apply wlp_pbind.
  eapply wlp_mono; [apply (wlp_quiet (fun _ => True)); [apply silent_load_receipt|apply yields_any|done]|].
  intros receipt h4 (_ & Hs4 & _). pose proof (answering_same _ _ Hh3 Hs4) as Hh4.
  assert (sent h4 = [hello_frame FEATURE_RECEIPT_QUERY uid]) as Es4
    by by rewrite (sm_sent _ _ Hs4), Es3.
  destruct receipt as [bs|e]; [|by destruct (error_is_not_found e); [apply (wlp_report uid)|]].
  destruct (verify_query_receipt record bs q now) as [b|e] eqn:Hv; [|by apply (wlp_report uid)].
  apply wlp_pbind. eapply wlp_mono; [apply (wlp_hand_out uid bs b); try done; by exists record, now|].
  intros [] h5 Hh5; exact Hh5.
Qed.

(** The greeting: a Hello from a user that is not root. *)
Lemma wlp_greet_query e0 e1 rest h :
  h_incoming h = InputFrame e0 :: InputFrame e1 :: rest -> answering h -> sent h = [] ->
  qwlp (greet FEATURE_RECEIPT_QUERY) (fun r h' => match r with
    | Ok uid => answering h' /\ uid <> 0 /\ h_incoming h' = InputFrame e1 :: rest /\
                sent h' = [hello_frame FEATURE_RECEIPT_QUERY uid]
    | Err _ => answering h'
    end) h.
Proof.
  intros Ei Hh Es. unfold greet. eapply wlp_next; [done..|]. intros h1 Hh1 Es1 Ei1. rewrite Es in Es1.
  destruct (frame e0) as [hello| | | | | | | | |]; try exact Hh1.
  apply wlp_pure; [intros [] _|by intros].
  eapply wlp_quiet_try; [apply silent_uid|apply gives_any|done|done|].
  intros uid h2 _ Hh2 Es2 Ei2. rewrite Es1 in Es2. rewrite Ei1 in Ei2.
  apply wlp_pure; [intros [] Hu%ensure_ok|by intros]. apply negb_true_iff, Z.eqb_neq in Hu.
  apply wlp_pbind, wlp_answer; [done|rewrite Es2; by constructor|].
  intros h3 b Hh3 Ei3 E3. apply wlp_pure; [|by intros]. intros [] ->%ensure_ok.
  rewrite Es2 in E3. split; [done|]. split; [done|]. split; [congruence|done].
Qed.

Lemma wlp_receipt_stdio e0 e1 rest h : h_incoming h = InputFrame e0 :: InputFrame e1 :: rest ->
  frame e1 = QueryReceipt q -> answering h -> sent h = [] ->
  qwlp receipt_stdio (fun _ => answering) h.
Proof.
  intros Ei Eq Hh Es. unfold receipt_stdio.
  do 2 (eapply wlp_quiet_try; [apply silent_spawn_thread|apply gives_any|done|done|];
    intros _ h1 _ Hh1 Es1 Ei1; rewrite Es in Es1; rewrite Ei in Ei1;
    clear dependent h; rename h1 into h, Hh1 into Hh, Es1 into Es, Ei1 into Ei).
  apply wlp_rpbind. eapply wlp_mono; [by apply (wlp_greet_query e0 e1 rest)|].
  intros [uid|e] h1; [|done]. intros (Hh1 & Hu & Ei1 & Es1).
  eapply wlp_next; [done..|]. intros h2 Hh2 Es2 _. rewrite Eq.
  apply wlp_answer_query; [done|done|by rewrite Es2].
Qed.

(** A host whose receipt helper just started, and is sent the bytes [stdin]
    that ask for the receipt. *)
Record queries (stdin : bytes) (h : Host) : Prop := {
  qs_relay : h_relay h = fresh_relay;
  qs_idle : h_spawned h = None;
  qs_input : exists eof e0 e1 rest,
    h_incoming h = read_input eof stdin /\
    read_input eof stdin = InputFrame e0 :: InputFrame e1 :: rest /\ frame e1 = QueryReceipt q;
}.

(** Every run of the helper, wherever it is looked at. *)
Lemma query_runs chs stdin h : queries stdin h ->
  let last := after receipt_stdio chs h in
  answering last /\ answer (map frame (written last)) /\
  written last = number 0 (map frame (written last)).
Proof.
  intros [Er Ep (eof & e0 & e1 & rest & Ein & Eq & Es)] last.
  assert (answering h) as Hh.
  { split; [|done]. unfold sent. rewrite Er. constructor. }
  assert (answering last) as Hl.
  { refine (proj1 (wlp_run exec others rely (fun _ => answering) (fun _ => True) answering
      (fun _ => True) _ (fun _ => answering) chs h [] _ _ _ _ Hh I)); [|done|done|].
    - apply Forall_true. intros ch. split; [done|]. intros h' _.
      split_and!; [split; [done|by exists ch]|done|].
      intros Hh'. eapply answering_same; [exact Hh'|apply others_same].
    - apply (wlp_receipt_stdio e0 e1 rest); [by rewrite Ein|done|done|]. unfold sent. by rewrite Er. }
  assert (relay_ok (h_relay last)) as [Hn _ (l & Hs & _) _].
  { apply run_relay_ok. rewrite Er. by split; simpl; eauto. }
  split; [done|]. split; [|done]. eapply answer_prefix; [apply Hl|exact Hs].
Qed.

Lemma answer_genuine l f : answer l -> Receipt f ∈ l ->
  receipt_job_id f = query_job_id q /\ exists b, genuine (receipt_bytes f) b.
Proof.
  intros Ha Hin. destruct Ha; rewrite ?elem_of_cons, ?elem_of_nil in Hin;
    repeat match goal with
    | Hx : _ \/ _ |- _ => destruct Hx
    | Hx : False |- _ => destruct Hx
    | Hx : Receipt _ = _ |- _ => try discriminate Hx
    end; (match goal with Hx : Receipt f = _ |- _ => injection Hx as -> end); eauto.
Qed.

(** C20: a query runs nothing, on whatever path, and wherever its run is looked
    at; and it hands out only the receipt of the job asked for, authenticated
    under the token in the query. *)
Theorem queried_receipt_is_genuine chs stdin h : queries stdin h ->
  let last := after receipt_stdio chs h in
  h_spawned last = None /\
  forall f, Receipt f ∈ map frame (written last) ->
    receipt_job_id f = query_job_id q /\
    exists r, receipt_decode (receipt_bytes f) = Ok r /\
      r = receipt_of (body r) (query_receipt_token q) /\ body_identity (body r) = query_identity q.
Proof.
  intros Hq last. destruct (query_runs chs stdin h Hq) as ([_ Hs] & Ha & _).
  split; [exact Hs|]. intros f Hin.
  destruct (answer_genuine _ f Ha Hin) as (Hj & b & Hb).
  destruct (genuine_ok _ _ Hb) as (r & Hd & <- & Er & Hi).
  split; [done|]. by exists r.
Qed.

(** ** A controller of the query *)

Notation waiting := (Helper.set_next 1 (Helper.set_phase Helper.PStreaming
  (Helper.for_receipt_query (query_job_id q)))).

Lemma query_hello accept uid : uid <> 0 ->
  control accept (Helper.for_receipt_query (query_job_id q))
    {| sequence := 0; frame := hello_frame FEATURE_RECEIPT_QUERY uid |} = Some waiting.
Proof.
  intros Hu. apply control_plain; [done|done| |done]. unfold Helper.transition. simpl.
  by rewrite (proj2 (Z.eqb_neq _ _) Hu).
Qed.

(** The validator once it has authenticated the receipt. *)
Notation received b := (Helper.set_next 2 (Helper.set_phase Helper.PReceiptAuthenticated
  (Helper.set_receipt None (Some {| Helper.term_outcome := wire_outcome (body_outcome b);
     Helper.term_completed_unix_ms := body_completed_unix_ms b |}) waiting))).

Lemma query_receipt (accept : bytes -> option Helper.AuthenticatedTerminal) bs b :
  accept bs = Some {| Helper.term_outcome := wire_outcome (body_outcome b);
                      Helper.term_completed_unix_ms := body_completed_unix_ms b |} ->
  control accept waiting {| sequence := 1; frame := query_receipt_frame bs |} = Some (received b).
Proof.
  intros Ha. unfold control.
  rewrite (validate_step waiting _ (Helper.set_phase Helper.PReceiptAuthenticationPending
    (Helper.set_receipt (Some (sha256 bs)) None waiting))); [| |done].
  2:{ unfold Helper.transition. simpl. unfold Helper.validate_job. simpl.
      by rewrite bool_decide_true by done. }
  cbn [frame query_receipt_frame receipt_bytes]. rewrite Ha. simpl.
  unfold Helper.authenticate_receipt. simpl. by rewrite !bool_decide_true by done.
Qed.

Lemma answer_accepted (accept : bytes -> option Helper.AuthenticatedTerminal) l : answer l ->
  (forall f r, Receipt f ∈ l -> receipt_decode (receipt_bytes f) = Ok r ->
     accept (receipt_bytes f) =
       Some {| Helper.term_outcome := wire_outcome (body_outcome (body r));
               Helper.term_completed_unix_ms := body_completed_unix_ms (body r) |}) ->
  exists v, controls accept (Helper.for_receipt_query (query_job_id q)) (number 0 l) = Some v.
Proof.
  intros Ha Hacc.
  assert (forall bs b, genuine bs b -> query_receipt_frame bs ∈ l ->
    accept bs = Some {| Helper.term_outcome := wire_outcome (body_outcome b);
                        Helper.term_completed_unix_ms := body_completed_unix_ms b |}) as Hb.
  { intros bs b Hg Hin. destruct (genuine_ok bs b Hg) as (r & Hd & <- & _). by apply (Hacc _ r Hin). }
  destruct Ha as [|uid Hu|uid code retry Hu|uid bs b Hu Hg|uid bs b Hu Hg]; cbn [number controls];
    rewrite ?query_hello by done; cbn [mbind option_bind];
    try change (0 + 1) with 1; try change (1 + 1) with 2.
  - by eexists.
  - by eexists.
  - eexists. rewrite (control_plain accept waiting _ (Helper.set_phase Helper.PTerminal waiting));
      [done|done|done| |done].
    unfold Helper.transition. simpl. unfold Helper.validate_job. simpl. by rewrite bool_decide_true.
  - eexists. rewrite (query_receipt accept bs b); [done|]. apply Hb; [done|set_solver].
  - rewrite (query_receipt accept bs b) by (apply Hb; [done|set_solver]). cbn [mbind option_bind].
    eexists. rewrite (control_plain accept (received b) _ (Helper.set_phase Helper.PTerminal (received b)));
      [done|done|done| |done].
    unfold Helper.transition. simpl. unfold Helper.validate_job. simpl.
    rewrite bool_decide_true by done. simpl. by rewrite bool_decide_true.
Qed.

(** C21: a controller that asks for a receipt, validates the session with the
    validator of the protocol for a receipt query, and accepts the receipt it
    is sent with its own outcome and time, accepts every frame the helper
    writes, wherever the helper's run is looked at. *)
Theorem query_session_is_accepted chs stdin h accept : queries stdin h ->
  let w := written (after receipt_stdio chs h) in
  (forall f r, Receipt f ∈ map frame w -> receipt_decode (receipt_bytes f) = Ok r ->
     accept (receipt_bytes f) =
       Some {| Helper.term_outcome := wire_outcome (body_outcome (body r));
               Helper.term_completed_unix_ms := body_completed_unix_ms (body r) |}) ->
  exists v, controls accept (Helper.for_receipt_query (query_job_id q)) w = Some v.
Proof.
  intros Hq w Hacc. destruct (query_runs chs stdin h Hq) as (_ & Ha & Hn). fold w in Ha, Hn.
  rewrite Hn. by apply answer_accepted.
Qed.
End query.

(** ** The receipt of [RemoteHelperRuns]' job, asked for later *)
Module RemoteHelperQueryRuns.
Import StandIn RemoteHelperRuns.

(** The journal as it was when the job was over. *)
Definition finished : JobRecord :=
  {| identity := start_identity start; deadlines := start_deadlines start;
     record_run_as_uid := 1000; stage := Completed; record_heartbeat_ordinal := 1;
     record_elapsed_ms := 1000; record_stdout_bytes := 4; record_stderr_bytes := 0;
     record_max_output_bytes := 4096; updated_unix_ms := 1000 |}.
#[export] Instance journal_json : Json DiskJobRecord :=
  {| to_vec := fun _ => Some (rs "{journal}"); from_slice := fun _ => Some (to_disk finished) |}.

Definition q : QueryReceiptFrame :=
  {| query_job_id := start_job_id start; query_profile_id := start_profile_id start;
     query_profile_generation := start_profile_generation start;
     query_policy_digest := start_policy_digest start;
     query_input_digest := start_input_digest start;
     query_receipt_token := start_receipt_token start |}.
Definition stdin : bytes :=
  encoded 0 (hello_frame SUPPORTED_FEATURE_BITS 0) ++ encoded 1 (QueryReceipt q).
Definition host : Host :=
  {| h_files := h_files (after (serve_stdio 20) chs RemoteHelperRuns.host);
     h_incoming := read_input true stdin; h_relay := fresh_relay; h_stdout := []; h_stderr := [];
     h_spawned := None; h_instant := 0 |}.

Notation final := (after receipt_stdio chs host).

Lemma host_queries : queries q stdin host.
Proof.
  split; [done|done|]. exists true. do 3 eexists. split; [reflexivity|].
  split; [vm_compute; reflexivity|]. vm_compute. reflexivity.
Qed.

Lemma queried_receipt_is_genuine_witness :
  h_spawned final = None /\
  exists r, receipt_decode (receipt_bytes sent_receipt) = Ok r /\
    body_identity (body r) = start_identity start.
Proof.
  destruct (queried_receipt_is_genuine q chs stdin host host_queries) as (Hs & Hall).
  destruct (Hall sent_receipt) as (_ & r & Hd & _ & Hi).
  - apply list_elem_of_In. vm_compute. tauto.
  - split; [exact Hs|]. exists r. split; [exact Hd|exact Hi].
Defined.

(** What the controller makes of the receipt, which it can only verify. *)
Definition accept (b : bytes) : option Helper.AuthenticatedTerminal :=
  match receipt_decode b with
  | Ok r => Some {| Helper.term_outcome := wire_outcome (body_outcome (body r));
                    Helper.term_completed_unix_ms := body_completed_unix_ms (body r) |}
  | Err _ => None
  end.

Lemma query_session_is_accepted_witness :
  map kind (map frame (written final)) = [KHello; KReceipt; KExit] /\
  exists v, controls accept (Helper.for_receipt_query (start_job_id start)) (written final) = Some v.
Proof.
  split; [vm_compute; reflexivity|].
  refine (query_session_is_accepted q chs stdin host accept host_queries _).
  intros f r _ Hd. unfold accept. rewrite Hd. reflexivity.
Defined.
End RemoteHelperQueryRuns.
