(* ===== verification/Recovery.v ===== *)
(** * serctl-core: profile recovery

    crates/serctl_core/src/recovery.rs.  Recovery is 2-of-2: the vault keeps
    one share, removable media the other; their XOR is an X25519 private input
    that opens the envelopes in which profile key packages are sealed.
    Random bytes are arguments; [generate_recovery] takes the values its loop
    draws.  The JSON encodings, base64, the AEAD, HKDF and the curve are
    parameters. *)

From stdpp Require Import pretty.
From S2P Require Import Prelude.
From S2P Require Import Bytes.
From S2P Require Import Text.
From S2P Require Import Crates.
From S2P Require Import IpcCrates.
#[local] Open Scope string_scope.
#[local] Open Scope list_scope.
#[local] Open Scope Z_scope.

(** ** curve25519-dalek: [MontgomeryPoint]

    [mul_base_clamped] and [mul_clamped] clamp the scalar they are given. *)
Class X25519 := {
  mul_base_clamped : bytes -> bytes;            (** scalar *)
  mul_clamped : bytes -> bytes -> bytes;        (** point, scalar *)
}.
Class X25519Laws `{X25519} : Prop := {
  mul_base_length s : length (mul_base_clamped s) = 32%nat;
  mul_length p s : length (mul_clamped p s) = 32%nat;
  diffie_hellman a b : length a = 32%nat -> length b = 32%nat ->
    mul_clamped (mul_base_clamped a) b = mul_clamped (mul_base_clamped b) a;
}.

(** ** Constants *)

Definition RECOVERY_MEDIA_VERSION : Z := 1.
Definition RECOVERY_ID_BYTES : Z := 32.
Definition X25519_KEY_BYTES : Z := 32.
Definition AEAD_NONCE_BYTES : Z := 12.
Definition AEAD_TAG_BYTES : Z := 16.
Definition MAX_PROFILE_ID_BYTES : Z := 128.
Definition MAX_KEY_PACKAGE_BYTES : Z := 1024.
Definition MAX_RECOVERY_MEDIA_BYTES : Z := 1024.
Definition MAX_ENVELOPE_CIPHERTEXT_BYTES : Z := MAX_KEY_PACKAGE_BYTES + AEAD_TAG_BYTES.
Definition AAD_DOMAIN : bytes := rs "serctl/recovery/profile-key-package/v2" ++ [x00].
Definition HKDF_SALT : bytes := rs "serctl/recovery/x25519-hkdf-sha256/v1" ++ [x00].
Definition HKDF_INFO_DOMAIN : bytes := rs "serctl/recovery/aead-key/v2" ++ [x00].
Definition MEDIA_CHECKSUM_DOMAIN : bytes := rs "serctl/recovery/media-checksum/v1" ++ [x00].

(** ** Data *)

Record KeyPackage := {
  kp_profile_id : bytes;
  kp_generation : Z;
  dek : bytes;
  auth_seed : bytes;
  audit_seed : bytes;
  audit_initialized : bool;
}.
#[export] Instance KeyPackage_eq_dec : EqDecision KeyPackage.
Proof. solve_decision. Defined.

Record RecoveryConfig := { config_recovery_id : str; public_key : str }.
#[export] Instance RecoveryConfig_eq_dec : EqDecision RecoveryConfig.
Proof. solve_decision. Defined.

Record RecoveryEnvelope := { ephemeral_public : str; nonce : str; ct : str }.

Record RecoveryMedia := {
  version : Z;
  media_recovery_id : str;
  share : str;
  checksum : str;
}.
#[export] Instance RecoveryMedia_eq_dec : EqDecision RecoveryMedia.
Proof. solve_decision. Defined.

Definition zeros : bytes := replicate 32 x00.
Definition is_all_zero (v : bytes) : bool := bool_decide (v = zeros).

(** [validate_security_state]. *)
Definition validate_security_state (p : KeyPackage) : result string unit :=
  ensure! negb (audit_initialized p && is_all_zero (audit_seed p))
    or "initialized profile key package is missing its audit seed" ;;
  Ok tt.

(** ** Bytes of keys *)

Definition xor_bytes (a b : bytes) : bytes :=
  zip_with (fun x y => byte_of_Z (Z.lxor (b8 x) (b8 y))) a b.

(** RFC 7748 clamping: 248 on the first byte, 127 and 64 on the last. *)
Definition clamp_first (b : byte) : byte := byte_of_Z (Z.land (b8 b) 248).
Definition clamp_last (b : byte) : byte := byte_of_Z (Z.lor (Z.land (b8 b) 127) 64).
Definition canonicalize_x25519_private_input (v : bytes) : bytes :=
  alter clamp_last 31%nat (alter clamp_first 0%nat v).

Definition validate_canonical_x25519_private_input (v : bytes) : result string unit :=
  ensure! bool_decide (v = canonicalize_x25519_private_input v)
    or "recovery shares do not reconstruct a canonical X25519 private key" ;;
  Ok tt.

Definition reject_all_zero_shared (shared : bytes) : result string unit :=
  ensure! negb (is_all_zero shared) or "X25519 produced an invalid all-zero shared secret" ;;
  Ok tt.

Definition combine_xor_shares (local_share media_share : bytes) : result string bytes :=
  ensure! negb (is_all_zero local_share || is_all_zero media_share)
    or "recovery shares must not be all zero" ;;
  Ok (xor_bytes local_share media_share).

Definition append_length_prefixed (output value : bytes) : result string bytes :=
  let* length := ok_or (try_from_max U32_MAX (zlen value)) "recovery context is too large" in
  Ok (output ++ be32 length ++ value).

Definition validate_profile_name (name : str) : result string unit :=
  ensure! negb (is_empty name || (MAX_PROFILE_ID_BYTES <? zlen name))
    or "recovery profile id must contain 1 to 128 bytes" ;;
  ensure! negb (has_control name)
    or "recovery profile id must not contain control characters" ;;
  Ok tt.

Section recovery.
Context `{Base64, Sha2, Aead, Hkdf, X25519}.

(** ** Canonical base64 *)

Definition decode_base64_fixed (n : Z) (label : string) (encoded : str) : result string bytes :=
  let must := (label ++ " must canonically encode exactly " ++ pretty n ++ " bytes")%string in
  ensure! zlen encoded =? (n + 2) / 3 * 4 or must ;;
  let* decoded := ok_or (b64_decode encoded) ("decode " ++ label ++ " as padded Base64")%string in
  ensure! zlen decoded =? n or must ;;
  ensure! bool_decide (b64_encode decoded = encoded)
    or (label ++ " must use canonical padded Base64")%string ;;
  Ok decoded.

Definition decode_base64_bounded (label : string) (encoded : str) (min_decoded max_decoded : Z)
  : result string bytes :=
  let max_encoded := (max_decoded + 2) / 3 * 4 in
  ensure! negb (is_empty encoded || (max_encoded <? zlen encoded)
                || negb (zlen encoded mod 4 =? 0))
    or (label ++ " is empty, oversized, or not padded Base64")%string ;;
  let* decoded := ok_or (b64_decode encoded) ("decode " ++ label ++ " as padded Base64")%string in
  ensure! in_range min_decoded max_decoded (zlen decoded)
    or (label ++ " decoded length is outside its allowed range")%string ;;
  ensure! bool_decide (b64_encode decoded = encoded)
    or (label ++ " must use canonical padded Base64")%string ;;
  Ok decoded.

Definition decode_id : str -> result string bytes :=
  decode_base64_fixed RECOVERY_ID_BYTES "recovery id".
Definition decode_recipient : str -> result string bytes :=
  decode_base64_fixed X25519_KEY_BYTES "recovery recipient public key".
Definition decode_ephemeral : str -> result string bytes :=
  decode_base64_fixed X25519_KEY_BYTES "recovery ephemeral public key".
Definition decode_nonce : str -> result string bytes :=
  decode_base64_fixed AEAD_NONCE_BYTES "recovery envelope nonce".
Definition decode_share : str -> result string bytes :=
  decode_base64_fixed X25519_KEY_BYTES "recovery-media share".
Definition decode_ct (encoded : str) : result string bytes :=
  decode_base64_bounded "recovery envelope ciphertext" encoded AEAD_TAG_BYTES
    MAX_ENVELOPE_CIPHERTEXT_BYTES.

(** ** Validation *)

Definition validate_recovery_config (config : RecoveryConfig) : result string unit :=
  let* _ := decode_id (config_recovery_id config) in
  let* _ := decode_recipient (public_key config) in
  Ok tt.

Definition validate_recovery_envelope (envelope : RecoveryEnvelope) : result string unit :=
  let* _ := decode_ephemeral (ephemeral_public envelope) in
  let* _ := decode_nonce (nonce envelope) in
  let* _ := decode_ct (ct envelope) in
  Ok tt.

Definition check_version (media : RecoveryMedia) : result string unit :=
  ensure! version media =? RECOVERY_MEDIA_VERSION
    or ("unsupported recovery-media version " ++ pretty (version media))%string ;;
  Ok tt.

Definition media_checksum (media : RecoveryMedia) : result string str :=
  try! check_version media ;;
  let* recovery_id := decode_id (media_recovery_id media) in
  let* share := decode_share (share media) in
  let input := MEDIA_CHECKSUM_DOMAIN ++ be32 (version media) in
  let* input := append_length_prefixed input recovery_id in
  let* input := append_length_prefixed input share in
  Ok (b64_encode (sha256 input)).

Definition validate_recovery_media (media : RecoveryMedia) : result string unit :=
  try! check_version media ;;
  let* _ := decode_id (media_recovery_id media) in
  let* share := decode_share (share media) in
  ensure! negb (is_all_zero share) or "recovery-media share must not be all zero" ;;
  let* provided := decode_base64_fixed 32 "recovery-media checksum" (checksum media) in
  let* expected_encoded := media_checksum media in
  let* expected := decode_base64_fixed 32 "expected recovery-media checksum" expected_encoded in
  ensure! bool_decide (provided = expected) or "recovery-media checksum mismatch" ;;
  Ok tt.

Section media.
Context `{Json RecoveryMedia}.

Definition serialize_recovery_media (media : RecoveryMedia) : result string bytes :=
  try! validate_recovery_media media ;;
  let* encoded := ok_or (to_vec media) "serialize canonical recovery-media JSON" in
  ensure! negb (is_empty encoded || (MAX_RECOVERY_MEDIA_BYTES <? zlen encoded))
    or "recovery-media JSON is empty or exceeds its size limit" ;;
  Ok encoded.

Definition parse_recovery_media (bs : bytes) : result string RecoveryMedia :=
  ensure! negb (is_empty bs || (MAX_RECOVERY_MEDIA_BYTES <? zlen bs))
    or "recovery-media JSON is empty or exceeds its size limit" ;;
  let* media := ok_or (from_slice bs) "parse recovery-media JSON" in
  try! validate_recovery_media media ;;
  let* canonical := ok_or (to_vec media) "serialize canonical recovery-media JSON" in
  ensure! bool_decide (canonical = bs) or "recovery-media JSON is not in canonical form" ;;
  Ok media.
End media.

Section package.
Context `{Json KeyPackage}.

Definition serialize_key_package (package : KeyPackage) : result string bytes :=
  try! validate_security_state package ;;
  let* encoded := ok_or (to_vec package) "serialize recovery key package" in
  ensure! negb (is_empty encoded || (MAX_KEY_PACKAGE_BYTES <? zlen encoded))
    or "recovery key package is empty or exceeds its size limit" ;;
  Ok encoded.

Definition parse_key_package (bs : bytes) : result string KeyPackage :=
  ensure! negb (is_empty bs || (MAX_KEY_PACKAGE_BYTES <? zlen bs))
    or "recovery key package is empty or exceeds its size limit" ;;
  let* package := ok_or (from_slice bs) "parse recovered key package" in
  try! validate_security_state package ;;
  let* canonical := serialize_key_package package in
  ensure! bool_decide (canonical = bs) or "recovered key package is not canonically encoded" ;;
  Ok package.
End package.

(** ** Keys *)

Definition recovery_aad (config : RecoveryConfig) (profile_name : str) (profile_id : bytes)
    (generation : Z) (ephemeral recipient : bytes) : result string bytes :=
  let* recovery_id := decode_id (config_recovery_id config) in
  let aad := AAD_DOMAIN ++ be32 RECOVERY_MEDIA_VERSION in
  let* aad := append_length_prefixed aad recovery_id in
  let* aad := append_length_prefixed aad profile_name in
  Ok (aad ++ profile_id ++ be64 generation ++ ephemeral ++ recipient).

Definition derive_aead_key (shared aad : bytes) : result string bytes :=
  try! reject_all_zero_shared shared ;;
  ok_or (hkdf_expand HKDF_SALT shared (HKDF_INFO_DOMAIN ++ aad) 32)
    "derive recovery envelope key".

(** ** Generation *)

(** The loop of [generate_recovery] on the private inputs and local shares it
    draws: the first pair for which both shares are not zero; [None] while it
    has not come yet. *)
Fixpoint draw_shares (draws : list (bytes * bytes)) : option (bytes * bytes * bytes) :=
  match draws with
  | [] => None
  | (private_input, local_share) :: draws =>
      let private_input := canonicalize_x25519_private_input private_input in
      let media_share := xor_bytes private_input local_share in
      if negb (is_all_zero local_share) && negb (is_all_zero media_share)
      then Some (private_input, local_share, media_share)
      else draw_shares draws
  end.

Section generate.
Context `{Json RecoveryMedia}.

Definition generate_recovery (draws : list (bytes * bytes)) (recovery_id : bytes)
  : option (result string (RecoveryConfig * bytes * bytes)) :=
  '(private_input, local_share, media_share) ← draw_shares draws;
  let recipient_public := mul_base_clamped private_input in
  let config := {| config_recovery_id := b64_encode recovery_id;
                   public_key := b64_encode recipient_public |} in
  let media := {| version := RECOVERY_MEDIA_VERSION;
                  media_recovery_id := config_recovery_id config;
                  share := b64_encode media_share; checksum := [] |} in
  Some (let* checksum := media_checksum media in
        let media := {| version := version media; media_recovery_id := media_recovery_id media;
                        share := share media; checksum := checksum |} in
        let* media_json := serialize_recovery_media media in
        try! validate_recovery_config config ;;
        Ok (config, local_share, media_json)).
End generate.

(** ** Envelopes *)

Section envelope.
Context `{!Json KeyPackage}.

Definition seal_package (config : RecoveryConfig) (profile_name : str) (profile_id : bytes)
    (generation : Z) (package : KeyPackage) (ephemeral_private nonce_bytes : bytes)
  : result string RecoveryEnvelope :=
  try! validate_recovery_config config ;;
  try! validate_profile_name profile_name ;;
  ensure! bool_decide (kp_profile_id package = profile_id) && (kp_generation package =? generation)
    or "key-package identity does not match its recovery context" ;;
  let* recipient := decode_recipient (public_key config) in
  let ephemeral := mul_base_clamped ephemeral_private in
  let shared := mul_clamped recipient ephemeral_private in
  try! reject_all_zero_shared shared ;;
  let* aad := recovery_aad config profile_name profile_id generation ephemeral recipient in
  let* aead_key := derive_aead_key shared aad in
  let* plaintext := serialize_key_package package in
  let* ciphertext := ok_or (aead_encrypt aead_key nonce_bytes aad plaintext)
    "seal profile recovery key package" in
  ensure! zlen ciphertext <=? MAX_ENVELOPE_CIPHERTEXT_BYTES
    or "sealed profile recovery key package exceeds its size limit" ;;
  let envelope := {| ephemeral_public := b64_encode ephemeral; nonce := b64_encode nonce_bytes;
                     ct := b64_encode ciphertext |} in
  try! validate_recovery_envelope envelope ;;
  Ok envelope.

Context `{!Json RecoveryMedia}.

Definition open_package (config : RecoveryConfig) (profile_name : str) (profile_id : bytes)
    (generation : Z) (envelope : RecoveryEnvelope) (local_share media_bytes : bytes)
  : result string KeyPackage :=
  try! validate_recovery_config config ;;
  try! validate_recovery_envelope envelope ;;
  try! validate_profile_name profile_name ;;
  ensure! negb (is_all_zero local_share) or "vault-local recovery share must not be all zero" ;;
  let* media := parse_recovery_media media_bytes in
  ensure! bool_decide (media_recovery_id media = config_recovery_id config)
    or "recovery media does not belong to this recovery configuration" ;;
  let* media_share := decode_share (share media) in
  let* private_input := combine_xor_shares local_share media_share in
  try! validate_canonical_x25519_private_input private_input ;;
  let* recipient := decode_recipient (public_key config) in
  ensure! bool_decide (mul_base_clamped private_input = recipient)
    or "recovery shares do not reconstruct this recovery configuration" ;;
  let* ephemeral := decode_ephemeral (ephemeral_public envelope) in
  let shared := mul_clamped ephemeral private_input in
  try! reject_all_zero_shared shared ;;
  let* aad := recovery_aad config profile_name profile_id generation ephemeral recipient in
  let* aead_key := derive_aead_key shared aad in
  let* nonce := decode_nonce (nonce envelope) in
  let* ciphertext := decode_ct (ct envelope) in
  let* plaintext := ok_or (aead_decrypt aead_key nonce aad ciphertext)
    "recovery envelope authentication failed" in
  let* package := parse_key_package plaintext in
  ensure! bool_decide (kp_profile_id package = profile_id) && (kp_generation package =? generation)
    or "recovered key-package identity does not match its recovery context" ;;
  Ok package.
End envelope.
End recovery.
