(* ===== verification/RecoveryTheory.v ===== *)
(** * Profile recovery: shares, canonical encodings and envelopes

    Lemmas on the definitions of Recovery.v: XOR shares and clamping, the two
    canonical base64 decoders, the canonical JSON of the media and of the key
    package, and what a successful [open_package] has checked. *)

From S2P Require Import Prelude.
From S2P Require Import Bytes.
From S2P Require Import Text.
From S2P Require Import Crates.
From S2P Require Import IpcCrates.
From S2P Require Import Recovery.
#[local] Open Scope list_scope.
#[local] Open Scope Z_scope.

(** What the checksum covers. *)
Definition checksum_input (id share : bytes) : bytes :=
  MEDIA_CHECKSUM_DOMAIN ++ be32 1 ++ be32 32 ++ id ++ be32 32 ++ share.

(** The associated data of an envelope, as one string. *)
Definition aad_bytes (id name : bytes) (profile_id : bytes) (generation : Z)
    (ephemeral recipient : bytes) : bytes :=
  AAD_DOMAIN ++ be32 1 ++ be32 32 ++ id ++ be32 (zlen name) ++ name ++
  profile_id ++ be64 generation ++ ephemeral ++ recipient.

(** Media with a given recovery id and share. *)
Definition media_of (id share checksum : bytes) : RecoveryMedia :=
  {| version := 1; media_recovery_id := id; share := share; checksum := checksum |}.

(** ** XOR shares *)

Lemma b8_lxor a b : b8 (byte_of_Z (Z.lxor (b8 a) (b8 b))) = Z.lxor (b8 a) (b8 b).
Proof.
  rewrite b8_of_Z. change 256 with (2 ^ 8). rewrite <-Z.land_ones by lia.
  assert (forall x, b8 x = Z.land (b8 x) (Z.ones 8)) as Hx.
  { intros x. rewrite Z.land_ones by lia. symmetry. apply Z.mod_small, b8_range. }
  rewrite (Hx a), (Hx b). apply Z.bits_inj'. intros i _.
  rewrite !Z.land_spec, !Z.lxor_spec, !Z.land_spec. by destruct (Z.testbit _ _), (Z.testbit _ _), (Z.testbit _ _).
Qed.

Lemma length_xor_bytes a b : length (xor_bytes a b) = (length a `min` length b)%nat.
Proof. apply length_zip_with. Qed.

Lemma xor_bytes_comm a b : xor_bytes a b = xor_bytes b a.
Proof.
  revert b; induction a as [|x a IH]; intros [|y b]; [done..|]. cbn.
  rewrite Z.lxor_comm. f_equal. apply IH.
Qed.

Lemma xor_bytes_cancel a b : length a = length b -> xor_bytes a (xor_bytes a b) = b.
Proof.
  revert b; induction a as [|x a IH]; intros [|y b] Hl; try done. cbn in *. f_equal.
  - apply b8_inj. rewrite !b8_lxor, <-Z.lxor_assoc, Z.lxor_nilpotent. apply Z.lxor_0_l.
  - apply IH. lia.
Qed.

Lemma xor_bytes_cancel_r a b : length a = length b -> xor_bytes (xor_bytes a b) b = a.
Proof.
  intros Hl. rewrite (xor_bytes_comm a b), xor_bytes_comm. by apply xor_bytes_cancel.
Qed.

Lemma xor_bytes_inj_r a b s :
  length a = length s -> length b = length s -> xor_bytes a s = xor_bytes b s -> a = b.
Proof.
  intros Ha Hb E. rewrite <-(xor_bytes_cancel_r a s), <-(xor_bytes_cancel_r b s) by done.
  by rewrite E.
Qed.

Lemma xor_zeros_r a : length a = 32%nat -> xor_bytes a zeros = a.
Proof.
  unfold zeros. intros <-. induction a as [|x a IH]; [done|]. cbn. f_equal; [|done].
  rewrite Z.lxor_0_r. apply of_Z_b8.
Qed.

(** ** Clamping *)

Lemma clamp_first_idem b : clamp_first (clamp_first b) = clamp_first b.
Proof. by destruct b. Qed.
Lemma clamp_last_idem b : clamp_last (clamp_last b) = clamp_last b.
Proof. by destruct b. Qed.

Lemma canonicalize_idem v :
  canonicalize_x25519_private_input (canonicalize_x25519_private_input v) =
  canonicalize_x25519_private_input v.
Proof.
  unfold canonicalize_x25519_private_input.
  rewrite (list_alter_alter_ne clamp_first clamp_last _ 0 31) by done.
  rewrite !list_alter_alter_eq.
  apply list_alter_ext; [intros; apply clamp_last_idem|].
  apply list_alter_ext; [intros; apply clamp_first_idem|done].
Qed.

Lemma length_canonicalize v : length (canonicalize_x25519_private_input v) = length v.
Proof. unfold canonicalize_x25519_private_input. by rewrite !length_alter. Qed.

Lemma validate_canonical_ok v :
  validate_canonical_x25519_private_input v = Ok tt <-> canonicalize_x25519_private_input v = v.
Proof.
  unfold validate_canonical_x25519_private_input. case_bool_decide as E; cbn; naive_solver.
Qed.

(** ** Errors a check can only pass *)

Lemma append_length_prefixed_ok output value r :
  append_length_prefixed output value = Ok r <->
  zlen value <= U32_MAX /\ r = output ++ be32 (zlen value) ++ value.
Proof.
  unfold append_length_prefixed. rewrite rbind_ok. split.
  - intros (l & Hl & Hr). checks. by apply try_from_max_some in Hl as [-> ?].
  - intros [Hl ->]. exists (zlen value). split; [|done].
    apply ok_or_ok, try_from_max_some. by split.
Qed.

Lemma combine_xor_shares_ok l s p :
  combine_xor_shares l s = Ok p <-> l <> zeros /\ s <> zeros /\ p = xor_bytes l s.
Proof.
  unfold combine_xor_shares, is_all_zero.
  repeat case_bool_decide; cbn; naive_solver.
Qed.

Lemma is_all_zero_false v : is_all_zero v = false <-> v <> zeros.
Proof. apply bool_decide_eq_false. Qed.

(** The size check of the JSON texts. *)
Lemma bounded_nonempty (bs : bytes) n :
  negb (is_empty bs || (n <? zlen bs)) = true <-> bs <> [] /\ zlen bs <= n.
Proof.
  rewrite negb_true_iff, orb_false_iff, is_empty_false, Z.ltb_ge. done.
Qed.

Lemma append_ok output value :
  zlen value <= 2 ^ 20 ->
  append_length_prefixed output value = Ok (output ++ be32 (zlen value) ++ value).
Proof. intros. apply append_length_prefixed_ok. split; [unfold U32_MAX; lia|done]. Qed.

Section theory.
Context `{Base64Laws, Sha2Laws, AeadLaws, HkdfLaws, X25519Laws}.

(** ** Canonical base64 *)

Lemma div_ceil_mono a b : a <= b -> (a + 2) / 3 * 4 <= (b + 2) / 3 * 4.
Proof. intros. Z.to_euclidean_division_equations; lia. Qed.

Lemma decode_base64_fixed_ok n label e d :
  decode_base64_fixed n label e = Ok d <-> zlen d = n /\ b64_encode d = e.
Proof.
  unfold decode_base64_fixed. cbv zeta. split.
  - intros Hd. checks. done.
  - intros [Hl <-]. pose proof (b64_encode_length d) as Hlen.
    rewrite ensure_pass by (apply Z.eqb_eq; rewrite Hlen, Hl; lia).
    rewrite b64_decode_encode. cbn [ok_or rbind].
    rewrite ensure_pass by by apply Z.eqb_eq.
    by rewrite ensure_pass by by apply bool_decide_eq_true.
Qed.

Lemma decode_encoded n label d :
  zlen d = n -> decode_base64_fixed n label (b64_encode d) = Ok d.
Proof. intros. by apply decode_base64_fixed_ok. Qed.

Lemma decode_base64_bounded_ok label e lo hi d : 1 <= lo ->
  decode_base64_bounded label e lo hi = Ok d <-> lo <= zlen d <= hi /\ b64_encode d = e.
Proof.
  intros Hlo. unfold decode_base64_bounded. cbv zeta. split.
  - intros Hd. checks. done.
  - intros [Hl <-]. pose proof (b64_encode_length d) as Hlen.
    rewrite ensure_pass.
    2: { pose proof (div_ceil_mono (zlen d) hi ltac:(lia)).
         rewrite negb_true_iff, !orb_false_iff, negb_false_iff. repeat split.
         - apply is_empty_false. intros E. rewrite E, zlen_nil in Hlen.
           Z.to_euclidean_division_equations; lia.
         - apply Z.ltb_ge. lia.
         - apply Z.eqb_eq. rewrite Hlen, Z.mul_comm. by apply Z.mod_mul. }
    rewrite b64_decode_encode. cbn [ok_or rbind].
    rewrite ensure_pass by by apply in_range_true.
    by rewrite ensure_pass by by apply bool_decide_eq_true.
Qed.

Lemma decode_ct_ok e d :
  decode_ct e = Ok d <-> 16 <= zlen d <= 1040 /\ b64_encode d = e.
Proof. by apply decode_base64_bounded_ok. Qed.

(** ** Configuration, envelope and media *)

Lemma validate_recovery_config_ok c :
  validate_recovery_config c = Ok tt <->
  exists id pk, zlen id = 32 /\ zlen pk = 32 /\
    config_recovery_id c = b64_encode id /\ public_key c = b64_encode pk.
Proof.
  unfold validate_recovery_config, decode_id, decode_recipient. split.
  - intros Hv. checks. apply decode_base64_fixed_ok in Hr as [? <-], Hr0 as [? <-]. eauto 10.
  - intros (id & pk & Hi & Hp & -> & ->).
    rewrite (rbind_pass _ _ id) by by apply decode_base64_fixed_ok.
    by rewrite (rbind_pass _ _ pk) by by apply decode_base64_fixed_ok.
Qed.

Lemma validate_recovery_envelope_ok e :
  validate_recovery_envelope e = Ok tt <->
  exists eph n c, zlen eph = 32 /\ zlen n = 12 /\ 16 <= zlen c <= 1040 /\
    e = {| ephemeral_public := b64_encode eph; nonce := b64_encode n; ct := b64_encode c |}.
Proof.
  unfold validate_recovery_envelope, decode_ephemeral, decode_nonce. split.
  - intros Hv. checks. apply decode_base64_fixed_ok in Hr as [? ?], Hr0 as [? ?].
    apply decode_ct_ok in Hr1 as [? ?]. exists v, v0, v1. repeat split; try (done || lia).
    destruct e; cbn in *; congruence.
  - intros (eph & n & c & He & Hn & Hc & ->). cbn [ephemeral_public nonce ct].
    rewrite (rbind_pass _ _ eph) by by apply decode_base64_fixed_ok.
    rewrite (rbind_pass _ _ n) by by apply decode_base64_fixed_ok.
    by rewrite (rbind_pass _ _ c) by by apply decode_ct_ok.
Qed.

Lemma media_checksum_ok m c id s :
  version m = 1 -> zlen id = 32 -> zlen s = 32 ->
  media_recovery_id m = b64_encode id -> share m = b64_encode s ->
  media_checksum m = Ok c <-> c = b64_encode (sha256 (checksum_input id s)).
Proof.
  intros Hv Hi Hs Ei Es. unfold media_checksum, check_version, decode_id, decode_share.
  rewrite Hv. cbn [Z.eqb RECOVERY_MEDIA_VERSION ensure rbind Pos.eqb].
  rewrite (rbind_pass _ _ id) by by apply decode_base64_fixed_ok.
  rewrite (rbind_pass _ _ s) by by apply decode_base64_fixed_ok. cbv zeta.
  rewrite append_ok, Hi by lia. cbn [rbind]. rewrite append_ok, Hs by lia. cbn [rbind].
  unfold checksum_input. rewrite <-!app_assoc. naive_solver.
Qed.

Lemma validate_recovery_media_ok m :
  validate_recovery_media m = Ok tt <->
  exists id s, zlen id = 32 /\ zlen s = 32 /\ s <> zeros /\
    m = media_of (b64_encode id) (b64_encode s) (b64_encode (sha256 (checksum_input id s))).
Proof.
  unfold validate_recovery_media. split.
  - intros Hv. checks. unfold check_version in Hr. checks.
    apply decode_base64_fixed_ok in Hr0 as [? Hi], Hr1 as [? Hs], Hr3 as [? Hc], Hr5 as [? Hx].
    symmetry in Hi, Hs. apply is_all_zero_false in Hr2.
    apply (media_checksum_ok m _ v0 v1) in Hr4; [|done..].
    exists v0, v1. repeat split; try done. unfold RECOVERY_MEDIA_VERSION, media_of in *. destruct m; cbn in *; congruence.
  - intros (id & s & Hi & Hs & Hz & ->). cbn [version media_recovery_id share checksum].
    assert (zlen (sha256 (checksum_input id s)) = 32) as Hl.
    { unfold zlen. by rewrite sha256_length. }
    unfold check_version, decode_id, decode_share. cbn [version media_recovery_id share checksum].
    rewrite ensure_pass by done.
    cbn [rbind]. rewrite (rbind_pass _ _ id) by by apply decode_base64_fixed_ok.
    rewrite (rbind_pass _ _ s) by by apply decode_base64_fixed_ok.
    rewrite ensure_pass by by apply negb_true_iff, is_all_zero_false.
    rewrite (rbind_pass _ _ (sha256 (checksum_input id s))) by by apply decode_base64_fixed_ok.
    erewrite rbind_pass by by eapply (media_checksum_ok _ _ id s).
    rewrite (rbind_pass _ _ (sha256 (checksum_input id s))) by by apply decode_base64_fixed_ok.
    by rewrite ensure_pass by by apply bool_decide_eq_true.
Qed.

(** ** Canonical JSON *)

Lemma serialize_recovery_media_ok `{!Json RecoveryMedia} m bs :
  serialize_recovery_media m = Ok bs <->
  validate_recovery_media m = Ok tt /\ to_vec m = Some bs /\ bs <> [] /\ zlen bs <= 1024.
Proof.
  unfold serialize_recovery_media. split.
  - intros Hs. inv_ok. apply bounded_nonempty in Hr1. tauto.
  - intros (-> & -> & Hb). cbn [ok_or rbind].
    by rewrite ensure_pass by by apply bounded_nonempty.
Qed.

Lemma parse_recovery_media_ok `{!Json RecoveryMedia} `{!JsonLaws RecoveryMedia} bs m :
  parse_recovery_media bs = Ok m <-> serialize_recovery_media m = Ok bs.
Proof.
  rewrite serialize_recovery_media_ok. unfold parse_recovery_media. split.
  - intros Hp. inv_ok. apply bounded_nonempty in Hr. apply bool_decide_eq_true in Hr3. by subst.
  - intros (Hv & Hj & Hb). rewrite ensure_pass by by apply bounded_nonempty.
    rewrite (from_slice_to_vec _ _ Hj). cbn [ok_or rbind]. rewrite Hv, Hj. cbn [ok_or rbind].
    by rewrite ensure_pass by by apply bool_decide_eq_true.
Qed.

Lemma serialize_key_package_ok `{!Json KeyPackage} p bs :
  serialize_key_package p = Ok bs <->
  validate_security_state p = Ok tt /\ to_vec p = Some bs /\ bs <> [] /\ zlen bs <= 1024.
Proof.
  unfold serialize_key_package. split.
  - intros Hs. inv_ok. apply bounded_nonempty in Hr1. tauto.
  - intros (-> & -> & Hb). cbn [ok_or rbind].
    by rewrite ensure_pass by by apply bounded_nonempty.
Qed.

Lemma parse_key_package_ok `{!Json KeyPackage} `{!JsonLaws KeyPackage} bs p :
  parse_key_package bs = Ok p <-> serialize_key_package p = Ok bs.
Proof.
  unfold parse_key_package. split.
  - intros Hp. inv_ok. apply bool_decide_eq_true in Hr3. by subst.
  - intros Hs. pose proof Hs as (Hv & Hj & Hb)%serialize_key_package_ok.
    rewrite ensure_pass by by apply bounded_nonempty.
    rewrite (from_slice_to_vec _ _ Hj). cbn [ok_or rbind]. rewrite Hv, Hs. cbn [ok_or rbind].
    by rewrite ensure_pass by by apply bool_decide_eq_true.
Qed.

(** ** Associated data and keys *)

Lemma recovery_aad_ok c id name pid g eph pk aad :
  zlen id = 32 -> config_recovery_id c = b64_encode id -> zlen name <= 128 ->
  recovery_aad c name pid g eph pk = Ok aad <-> aad = aad_bytes id name pid g eph pk.
Proof.
  intros Hi Hc Hn. unfold recovery_aad, decode_id. rewrite Hc.
  rewrite (rbind_pass _ _ id) by by apply decode_base64_fixed_ok. cbv zeta.
  rewrite append_ok, Hi by lia. cbn [rbind]. rewrite append_ok by lia. cbn [rbind].
  unfold aad_bytes. rewrite <-!app_assoc. naive_solver.
Qed.

(** The associated data determines the context. *)
Lemma aad_bytes_inj id name pid g eph pk id' name' pid' g' eph' pk' :
  zlen id = 32 -> zlen id' = 32 -> zlen name <= 128 -> zlen name' <= 128 ->
  length pid = 16%nat -> length pid' = 16%nat -> is_u64 g -> is_u64 g' ->
  length eph = 32%nat -> length eph' = 32%nat ->
  aad_bytes id name pid g eph pk = aad_bytes id' name' pid' g' eph' pk' ->
  id = id' /\ name = name' /\ pid = pid' /\ g = g' /\ eph = eph' /\ pk = pk'.
Proof.
  intros Hi Hi' Hn Hn' Hp Hp' Hg%is_u64_range Hg'%is_u64_range He He'. unfold aad_bytes.
  do 3 (intros [_ Eq]%app_inv_length; [revert Eq|done]).
  intros [-> Eq]%app_inv_length; [revert Eq|by unfold zlen in *; lia].
  intros [El Eq]%app_inv_length; [revert Eq|by unfold be32; rewrite !length_be_bytes].
  apply (f_equal of_be) in El. pose proof (zlen_nonneg name). pose proof (zlen_nonneg name').
  unfold be32 in El. rewrite !of_be_be_bytes_small in El
    by (change (2 ^ (8 * Z.of_nat 4)) with (2 ^ 32); lia).
  intros [-> Eq]%app_inv_length; [revert Eq|by unfold zlen in *; lia].
  intros [-> Eq]%app_inv_length; [revert Eq|congruence].
  intros [Eg Eq]%app_inv_length; [revert Eq|by unfold be64; rewrite !length_be_bytes].
  apply (f_equal of_be) in Eg. unfold be64 in Eg.
  rewrite !of_be_be_bytes_small in Eg by done.
  intros [-> ->]%app_inv_length; [done|congruence].
Qed.

Lemma derive_aead_key_ok shared aad :
  shared <> zeros -> exists key, derive_aead_key shared aad = Ok key.
Proof.
  intros Hs. unfold derive_aead_key, reject_all_zero_shared.
  rewrite (proj2 (is_all_zero_false _)) by done. cbn [negb ensure rbind].
  destruct (hkdf_expand_total HKDF_SALT shared (HKDF_INFO_DOMAIN ++ aad) 32) as [key ->]; [lia|].
  by exists key.
Qed.

Lemma reject_all_zero_ok v : reject_all_zero_shared v = Ok tt <-> v <> zeros.
Proof.
  unfold reject_all_zero_shared. rewrite rbind_ok, <-is_all_zero_false. split.
  - intros (? & Hz & _). checks. done.
  - intros Hz. exists tt. by rewrite Hz.
Qed.

(** ** Envelopes *)

Lemma validate_profile_name_ok name :
  validate_profile_name name = Ok tt -> name <> [] /\ zlen name <= 128.
Proof.
  unfold validate_profile_name. intros Hn. inv_ok. by apply bounded_nonempty in Hr.
Qed.

Context `{!Json KeyPackage}.

(** What a sealed envelope is made of. *)
Record sealed (id pk name pid : bytes) (g : Z) (p : KeyPackage) (eph nn : bytes)
    (env : RecoveryEnvelope) : Prop := {
  sealed_name : validate_profile_name name = Ok tt;
  sealed_identity : kp_profile_id p = pid /\ kp_generation p = g;
  sealed_shared : mul_clamped pk eph <> zeros;
  sealed_ct : exists key pt c,
    derive_aead_key (mul_clamped pk eph) (aad_bytes id name pid g (mul_base_clamped eph) pk) = Ok key /\
    serialize_key_package p = Ok pt /\
    aead_encrypt key nn (aad_bytes id name pid g (mul_base_clamped eph) pk) pt = Some c /\
    16 <= zlen c <= 1040 /\
    env = {| ephemeral_public := b64_encode (mul_base_clamped eph); nonce := b64_encode nn;
             ct := b64_encode c |};
}.

Lemma seal_package_ok id pk c name pid g p eph nn env :
  zlen id = 32 -> zlen pk = 32 -> length nn = 12%nat ->
  c = {| config_recovery_id := b64_encode id; public_key := b64_encode pk |} ->
  seal_package c name pid g p eph nn = Ok env <-> sealed id pk name pid g p eph nn env.
Proof.
  intros Hi Hp Hn ->. unfold seal_package. set (cfg := {| config_recovery_id := _ |}).
  assert (validate_recovery_config cfg = Ok tt) as Hcfg
    by (apply validate_recovery_config_ok; eauto 10).
  assert (decode_recipient (b64_encode pk) = Ok pk) as Hpk by by apply decode_base64_fixed_ok.
  rewrite Hcfg. cbn [rbind]. split.
  - intros Hs. checks. apply validate_profile_name_ok in Hr as Hname. cbn in Hr1.
    rewrite Hpk in Hr1. injection Hr1 as <-. apply reject_all_zero_ok in Hr2.
    apply (recovery_aad_ok _ id) in Hr3; [subst v3|done|done|lia].
    apply validate_recovery_envelope_ok in Hr8 as (e' & n' & c' & He & Hn' & Hc & [= _ _ E]).
    apply b64_encode_inj in E as ->.
    split; [done..|]. eauto 10.
  - intros [Hname [E1 E2] Hs (key & pt & ct & Hk & Hpt & Hct & Hl & ->)].
    apply validate_profile_name_ok in Hname as Hlen. rewrite Hname. cbn [rbind].
    rewrite ensure_pass by (rewrite E1, E2, bool_decide_true, Z.eqb_refl; done).
    cbn [public_key cfg]. rewrite Hpk. cbn [rbind]. cbv zeta.
    rewrite (proj2 (reject_all_zero_ok _)) by done. cbn [rbind].
    rewrite (proj2 (recovery_aad_ok cfg id name pid g _ pk _ Hi eq_refl ltac:(lia)) eq_refl).
    cbn [rbind]. rewrite Hk. cbn [rbind]. rewrite Hpt. cbn [rbind]. rewrite Hct. cbn [ok_or rbind].
    rewrite ensure_pass by (apply Z.leb_le; change MAX_ENVELOPE_CIPHERTEXT_BYTES with 1040; lia).
    rewrite rbind_pass with (a := tt); [done|]. apply validate_recovery_envelope_ok.
    exists (mul_base_clamped eph), nn, ct. unfold zlen. rewrite mul_base_length, Hn. done.
Qed.

Context `{!JsonLaws KeyPackage} `{!Json RecoveryMedia} `{!JsonLaws RecoveryMedia}.

(** What a successful opening has checked. *)
Record opened (id pk name pid : bytes) (g : Z) (e n c local s : bytes) (media : bytes)
    (p : KeyPackage) : Prop := {
  opened_name : validate_profile_name name = Ok tt;
  opened_local : local <> zeros;
  opened_media : serialize_recovery_media (media_of (b64_encode id) (b64_encode s)
                   (b64_encode (sha256 (checksum_input id s)))) = Ok media;
  opened_share : zlen s = 32 /\ s <> zeros;
  opened_canonical :
    canonicalize_x25519_private_input (xor_bytes local s) = xor_bytes local s;
  opened_recipient : mul_base_clamped (xor_bytes local s) = pk;
  opened_shared : mul_clamped e (xor_bytes local s) <> zeros;
  opened_package : exists key pt,
    derive_aead_key (mul_clamped e (xor_bytes local s)) (aad_bytes id name pid g e pk) = Ok key /\
    aead_decrypt key n (aad_bytes id name pid g e pk) c = Some pt /\
    serialize_key_package p = Ok pt;
  opened_identity : kp_profile_id p = pid /\ kp_generation p = g;
}.

Lemma open_package_ok cfg name pid g env local media p :
  open_package cfg name pid g env local media = Ok p <->
  exists id pk e n c s, zlen id = 32 /\ zlen pk = 32 /\ zlen e = 32 /\ zlen n = 12 /\
    16 <= zlen c <= 1040 /\
    cfg = {| config_recovery_id := b64_encode id; public_key := b64_encode pk |} /\
    env = {| ephemeral_public := b64_encode e; nonce := b64_encode n; ct := b64_encode c |} /\
    opened id pk name pid g e n c local s media p.
Proof.
  unfold open_package. split.
  - intros Ho. inv_ok.
    apply validate_recovery_config_ok in Hr as (id & pk & Hid & Hpk & Ei & Ek).
    apply validate_recovery_envelope_ok in Hr0 as (e & n & c & He & Hn & Hc & ->).
    apply validate_profile_name_ok in Hr1 as Hname.
    destruct cfg as [ci ck]. cbn [config_recovery_id public_key ephemeral_public nonce ct] in *.
    subst ci ck.
    apply negb_true_iff, is_all_zero_false in Hr2. apply bool_decide_eq_true in Hr4, Hr9.
    apply parse_recovery_media_ok in Hr3. pose proof Hr3 as (Hv & _)%serialize_recovery_media_ok.
    apply validate_recovery_media_ok in Hv as (id' & s & Hid' & Hs & Hz & ->).
    cbn [media_of media_recovery_id share] in *. apply b64_encode_inj in Hr4 as ->.
    unfold decode_share, decode_recipient, decode_ephemeral, decode_nonce in *.
    rewrite decode_encoded in Hr5, Hr8, Hr10, Hr14 by done. rewrite (proj2 (decode_ct_ok _ c)) in Hr15 by done.
    injection Hr5 as <-. injection Hr8 as <-. injection Hr10 as <-. injection Hr14 as <-.
    injection Hr15 as <-. apply combine_xor_shares_ok in Hr6 as (_ & _ & ->).
    apply validate_canonical_ok in Hr7. apply reject_all_zero_ok in Hr11.
    apply (recovery_aad_ok _ id) in Hr12; [subst v12|done..|lia].
    apply parse_key_package_ok in Hr17.
    apply andb_true_iff in Hr18 as [Hk1%bool_decide_eq_true Hk2%Z.eqb_eq].
    exists id, pk, e, n, c, s.
    do 7 (split; [done|]). split; eauto.
  - intros (id & pk & e & n & c & s & Hi & Hp & He & Hn & Hc & -> & -> & Ho).
    destruct Ho as [Hname Hl Hm [Hs Hz] Hcan Hpk Hsh (key & pt & Hk & Hd & Hkp) [E1 E2]].
    apply validate_profile_name_ok in Hname as Hlen.
    rewrite (proj2 (validate_recovery_config_ok _)) by eauto 10. cbn [rbind].
    rewrite (proj2 (validate_recovery_envelope_ok _)) by eauto 10. cbn [rbind].
    rewrite Hname. cbn [rbind]. rewrite (proj2 (is_all_zero_false _) Hl). cbn [negb ensure rbind].
    rewrite (proj2 (parse_recovery_media_ok _ _) Hm).
    cbn [rbind media_of media_recovery_id share config_recovery_id public_key].
    rewrite ensure_pass by by apply bool_decide_eq_true.
    unfold decode_share, decode_recipient, decode_ephemeral, decode_nonce.
    rewrite (decode_encoded _ _ s) by done. cbn [rbind].
    rewrite (proj2 (combine_xor_shares_ok local s (xor_bytes local s))) by done. cbn [rbind].
    rewrite (proj2 (validate_canonical_ok _)) by done. cbn [rbind].
    rewrite decode_encoded by done. cbn [rbind].
    rewrite ensure_pass by by apply bool_decide_eq_true. cbn [ephemeral_public nonce ct].
    rewrite decode_encoded by done. cbn [rbind]. cbv zeta.
    rewrite (proj2 (reject_all_zero_ok _)) by done. cbn [rbind].
    rewrite rbind_pass with (a := aad_bytes id name pid g e pk)
      by (apply (recovery_aad_ok _ id); done || lia). rewrite Hk. cbn [rbind]. rewrite decode_encoded by done. cbn [rbind].
    rewrite (proj2 (decode_ct_ok _ c)) by done. cbn [rbind]. rewrite Hd. cbn [ok_or rbind].
    rewrite (proj2 (parse_key_package_ok _ _)) by done. cbn [rbind].
    by rewrite ensure_pass by (rewrite E1, E2, bool_decide_true, Z.eqb_refl; done).
Qed.
End theory.
