(* ===== verification/RecoveryProperties.v ===== *)
(** * Profile recovery: its properties

    Generation, sealing and opening compose to the identity; the two shares
    determine each other and neither media nor local share tells the key; a
    sealed package opens in its own context only. *)

From S2P Require Import Prelude.
From S2P Require Import Bytes.
From S2P Require Import Text.
From S2P Require Import Crates.
From S2P Require Import IpcCrates.
From S2P Require Import Recovery.
From S2P Require Import RecoveryTheory.
#[local] Open Scope list_scope.
#[local] Open Scope Z_scope.

(** Arrays of 32 bytes, as [generate_recovery] draws them. *)
Definition drawn (d : bytes * bytes) : Prop := length d.1 = 32%nat /\ length d.2 = 32%nat.

(** Private inputs as recovery stores them. *)
Definition canonical_key (p : bytes) : Prop :=
  length p = 32%nat /\ canonicalize_x25519_private_input p = p.

Lemma draw_shares_ok draws p l s :
  Forall drawn draws -> draw_shares draws = Some (p, l, s) ->
  canonical_key p /\ length l = 32%nat /\ l <> zeros /\ s <> zeros /\ s = xor_bytes p l.
Proof.
  induction 1 as [|[a b] draws [Ha Hb] _ IH]; [done|]. cbn [draw_shares].
  destruct (_ && _) eqn:E; [|done]. intros [= <- <- <-].
  apply andb_true_iff in E as [E1%negb_true_iff%is_all_zero_false E2%negb_true_iff%is_all_zero_false].
  cbn in Ha, Hb. split; [|done]. split; [by rewrite length_canonicalize|apply canonicalize_idem].
Qed.

Lemma draw_shares_one p l :
  canonical_key p -> l <> zeros -> xor_bytes p l <> zeros ->
  draw_shares [(p, l)] = Some (p, l, xor_bytes p l).
Proof.
  intros [_ Hp] Hl Hs. cbn [draw_shares]. rewrite Hp.
  rewrite (proj2 (is_all_zero_false l)), (proj2 (is_all_zero_false _)) by done. done.
Qed.

Lemma draw_shares_one_inv p l q l' s :
  draw_shares [(p, l)] = Some (q, l', s) -> q = canonicalize_x25519_private_input p.
Proof. cbn [draw_shares]. destruct (_ && _); congruence. Qed.

Lemma length_zlen (b : bytes) n : length b = n -> zlen b = Z.of_nat n.
Proof. by intros <-. Qed.

Section properties.
Context `{Base64Laws, Sha2Laws, AeadLaws, HkdfLaws, X25519Laws}.
Context `{!Json RecoveryMedia} `{!JsonLaws RecoveryMedia}.

(** The media that carry one share. *)
Definition media_with (id s : bytes) : RecoveryMedia :=
  media_of (b64_encode id) (b64_encode s) (b64_encode (sha256 (checksum_input id s))).

Definition config_with (id pk : bytes) : RecoveryConfig :=
  {| config_recovery_id := b64_encode id; public_key := b64_encode pk |}.

Lemma media_with_inj id s id' s' : media_with id s = media_with id' s' -> id = id' /\ s = s'.
Proof. intros [= ?%b64_encode_inj ?%b64_encode_inj _]. done. Qed.

Lemma serialize_media_inj m m' bs :
  serialize_recovery_media m = Ok bs -> serialize_recovery_media m' = Ok bs -> m = m'.
Proof. rewrite <-!parse_recovery_media_ok. congruence. Qed.

(** What generation returns. *)
Lemma generate_recovery_ok draws id p l s cfg local media :
  length id = 32%nat -> draw_shares draws = Some (p, l, s) -> zlen s = 32 ->
  generate_recovery draws id = Some (Ok (cfg, local, media)) <->
  cfg = config_with id (mul_base_clamped p) /\ local = l /\
  serialize_recovery_media (media_with id s) = Ok media.
Proof.
  intros Hid Hd Hs. apply length_zlen in Hid. unfold generate_recovery. rewrite Hd. cbn [mbind option_bind].
  cbv zeta. cbn [config_recovery_id public_key].
  erewrite rbind_pass by by eapply (media_checksum_ok _ _ id s). cbn [version media_recovery_id share].
  change {| version := RECOVERY_MEDIA_VERSION; media_recovery_id := b64_encode id; share := b64_encode s;
            checksum := b64_encode (sha256 (checksum_input id s)) |} with (media_with id s).
  fold (config_with id (mul_base_clamped p)).
  assert (validate_recovery_config (config_with id (mul_base_clamped p)) = Ok tt) as Hc.
  { apply validate_recovery_config_ok. exists id, (mul_base_clamped p).
    by rewrite (length_zlen _ _ (mul_base_length p)). }
  destruct (serialize_recovery_media _) as [m|e]; cbn [rbind]; [|naive_solver].
  rewrite Hc. cbn [rbind]. naive_solver.
Qed.

Lemma generated_shares draws id cfg local media :
  Forall drawn draws -> length id = 32%nat ->
  generate_recovery draws id = Some (Ok (cfg, local, media)) ->
  exists p s, draw_shares draws = Some (p, local, s) /\
    canonical_key p /\ length local = 32%nat /\ length s = 32%nat /\
    local <> zeros /\ s <> zeros /\ s = xor_bytes p local /\
    cfg = config_with id (mul_base_clamped p) /\
    serialize_recovery_media (media_with id s) = Ok media.
Proof.
  intros Hd Hid Hg. destruct (draw_shares draws) as [[[p l] s]|] eqn:E.
  2: { unfold generate_recovery in Hg. by rewrite E in Hg. }
  pose proof (draw_shares_ok _ _ _ _ Hd E) as (Hp & Hl & Hz & Hz' & Es).
  assert (length s = 32%nat) as Hs by (rewrite Es, length_xor_bytes, Hl, (proj1 Hp); done).
  eapply generate_recovery_ok in Hg as (-> & -> & Hm); [|done|done|by rewrite (length_zlen _ _ Hs)].
  exists p, s. by split_and!.
Qed.

(** C33: the media tell nothing about the private input: whatever media were
    generated, for every canonical private input but the one that equals the
    share on the media there is exactly one local share with which generation
    writes the same media. *)
Theorem media_hides_the_key draws id cfg local media :
  Forall drawn draws -> length id = 32%nat ->
  generate_recovery draws id = Some (Ok (cfg, local, media)) ->
  exists s, forall p', canonical_key p' -> p' <> s ->
    exists l', length l' = 32%nat /\
      generate_recovery [(p', l')] id = Some (Ok (config_with id (mul_base_clamped p'), l', media)) /\
      forall l'' cfg'', length l'' = 32%nat ->
        generate_recovery [(p', l'')] id = Some (Ok (cfg'', l'', media)) -> l'' = l'.
Proof.
  intros Hd Hid (p & s & _ & _ & _ & Hs & _ & Hz & _ & _ & Hm)%generated_shares; [|done..].
  exists s. intros p' [Hp' Hc] Hne. exists (xor_bytes p' s).
  assert (length (xor_bytes p' s) = 32%nat) as Hl by by rewrite length_xor_bytes, Hp', Hs.
  assert (xor_bytes p' (xor_bytes p' s) = s) as Hx by (apply xor_bytes_cancel; congruence).
  assert (xor_bytes p' s <> zeros) as Hlz.
  { intros E. apply Hne. rewrite <-Hx, E. by rewrite xor_zeros_r. }
  split_and!; [done|..].
  - eapply generate_recovery_ok; [done|apply draw_shares_one; [done|done|by rewrite Hx]|..].
    + by rewrite Hx, (length_zlen _ _ Hs).
    + by rewrite Hx.
  - intros l'' cfg'' Hl'' (q & s'' & Hq & _ & _ & _ & _ & _ & Es & _ & Hm'')%generated_shares;
      [|by repeat constructor|done].
    apply draw_shares_one_inv in Hq as ->. rewrite Hc in Es.
    pose proof (serialize_media_inj _ _ _ Hm Hm'') as [_ ->]%media_with_inj.
    rewrite Es. symmetry. apply xor_bytes_cancel. congruence.
Qed.

(** C32: two openings under one configuration, of whatever envelopes, both
    reconstruct a canonical private input of the configured public key; where
    it is the same one, the local shares are equal exactly when the media are.
    So half of the secret opens nothing with a substitute for the other half,
    also not with one that differs only in the bits X25519 ignores. *)
Theorem recovery_needs_the_shares `{!Json KeyPackage} `{!JsonLaws KeyPackage}
    cfg name name' pid pid' g g' env env' local local' media media' p p' :
  length local = 32%nat -> length local' = 32%nat ->
  open_package cfg name pid g env local media = Ok p ->
  open_package cfg name' pid' g' env' local' media' = Ok p' ->
  exists id s s', parse_recovery_media media = Ok (media_with id s) /\
    parse_recovery_media media' = Ok (media_with id s') /\
    let key := xor_bytes local s in let key' := xor_bytes local' s' in
    canonical_key key /\ canonical_key key' /\
    public_key cfg = b64_encode (mul_base_clamped key) /\
    public_key cfg = b64_encode (mul_base_clamped key') /\
    (canonicalize_x25519_private_input key = canonicalize_x25519_private_input key' ->
     local = local' <-> media = media').
Proof.
  intros Hl Hl' (id & pk & e & n & c & s & Hi & Hp & _ & _ & _ & -> & _ & O)%open_package_ok.
  intros (id2 & pk2 & e2 & n2 & c2 & s2 & Hi2 & Hp2 & _ & _ & _ & E & _ & O2)%open_package_ok.
  injection E as <-%b64_encode_inj <-%b64_encode_inj.
  destruct O as [_ _ Hm [Hs _] Hcan Hpk _ _ _], O2 as [_ _ Hm2 [Hs2 _] Hcan2 Hpk2 _ _ _].
  apply (zlen_length _ 32) in Hs, Hs2. exists id, s, s2.
  cbv zeta. split_and!; [by apply parse_recovery_media_ok..| | | | |].
  - split; [by rewrite length_xor_bytes, Hl, Hs|done].
  - split; [by rewrite length_xor_bytes, Hl', Hs2|done].
  - by rewrite Hpk.
  - by rewrite Hpk2.
  - rewrite Hcan, Hcan2. intros Ex. split.
    + intros <-. rewrite (xor_bytes_comm _ s), (xor_bytes_comm _ s2) in Ex.
      apply xor_bytes_inj_r in Ex as ->; congruence.
    + intros <-. pose proof (serialize_media_inj _ _ _ Hm Hm2) as [_ <-]%media_with_inj.
      apply xor_bytes_inj_r in Ex; congruence.
Qed.

Context `{!Json KeyPackage} `{!JsonLaws KeyPackage}.

(** C30: what generation, sealing and opening return fits together: a package
    sealed to a generated configuration is sealed, and opens with the local
    share and the media to the very package, whatever random values were
    drawn. *)
Theorem recovery_roundtrip draws id cfg local media name p pt eph nn :
  Forall drawn draws -> length id = 32%nat -> length eph = 32%nat -> length nn = 12%nat ->
  generate_recovery draws id = Some (Ok (cfg, local, media)) ->
  validate_profile_name name = Ok tt -> serialize_key_package p = Ok pt ->
  (forall pk, public_key cfg = b64_encode pk -> mul_clamped pk eph <> zeros) ->
  exists env,
    seal_package cfg name (kp_profile_id p) (kp_generation p) p eph nn = Ok env /\
    open_package cfg name (kp_profile_id p) (kp_generation p) env local media = Ok p.
Proof.
  intros Hd Hid He Hn (x & s & _ & [Hx Hc] & Hl & Hs & Hlz & Hsz & Es & -> & Hm)%generated_shares
    Hname Hpt Hz; [|done..].
  specialize (Hz _ eq_refl). set (pk := mul_base_clamped x) in *.
  apply (zlen_length _ 32) in Hid, Hs.
  assert (zlen pk = 32) as Hpk by exact (length_zlen _ _ (mul_base_length x)).
  set (aad := aad_bytes id name (kp_profile_id p) (kp_generation p) (mul_base_clamped eph) pk).
  destruct (derive_aead_key_ok (mul_clamped pk eph) aad Hz) as [key Hk].
  apply serialize_key_package_ok in Hpt as Hp. destruct Hp as (_ & _ & _ & Hlen).
  destruct (aead_encrypt_total key nn aad pt) as [c Hct]; [lia|].
  pose proof (aead_encrypt_length _ _ _ _ _ Hct) as Hcl. pose proof (zlen_nonneg pt).
  assert (xor_bytes local s = x) as Exor
    by (rewrite Es, (xor_bytes_comm x); apply xor_bytes_cancel; congruence).
  exists {| ephemeral_public := b64_encode (mul_base_clamped eph); nonce := b64_encode nn;
            ct := b64_encode c |}. split.
  - apply (seal_package_ok id pk); [done..|]. split; [done..|].
    exists key, pt, c. split_and!; done || lia.
  - apply open_package_ok. exists id, pk, (mul_base_clamped eph), nn, c, s.
    split_and!; try (done || lia); [apply (zlen_length _ 32), mul_base_length|by apply (zlen_length _ 12)|].
    split; rewrite ?Exor; try done.
    + unfold pk in Hz. by rewrite diffie_hellman in Hz.
    + exists key, pt. split_and!; [|by apply aead_decrypt_encrypt|done].
      rewrite diffie_hellman by done. done.
Qed.

Lemma sealed_config cfg name pid g p eph nn env :
  seal_package cfg name pid g p eph nn = Ok env ->
  exists id pk, zlen id = 32 /\ zlen pk = 32 /\ cfg = config_with id pk.
Proof.
  intros (? & Hv & _)%rbind_ok. destruct x.
  apply validate_recovery_config_ok in Hv as (id & pk & Hi & Hp & Ei & Ek).
  exists id, pk. split_and!; [done..|]. destruct cfg; cbn in Ei, Ek. by subst.
Qed.

(** The ciphertext of [env], sealed with the ephemeral key [eph], is accepted by
    the AEAD for another context: under its associated data, which are not
    [aad0], and the key that context derives. *)
Definition forged_for (cfg : RecoveryConfig) (name pid : bytes) (g : Z) (env : RecoveryEnvelope)
    (eph aad0 : bytes) : Prop :=
  exists n c pk aad key pt,
    decode_nonce (nonce env) = Ok n /\ decode_ct (ct env) = Ok c /\
    decode_recipient (public_key cfg) = Ok pk /\
    recovery_aad cfg name pid g (mul_base_clamped eph) pk = Ok aad /\ aad <> aad0 /\
    derive_aead_key (mul_clamped pk eph) aad = Ok key /\ aead_decrypt key n aad c = Some pt.

(** C31: whatever an envelope made by [seal_package] opens to, in whatever
    context and with whatever shares, it is the sealed package in the context
    it was sealed in: same recovery configuration, profile name, profile id and
    generation; unless the AEAD accepts its ciphertext under the associated
    data of the other context. *)
Theorem sealed_package_binds_context cfg name pid g p eph nn env cfg' name' pid' g' local media p' :
  length eph = 32%nat -> length nn = 12%nat -> length local = 32%nat ->
  length pid = 16%nat -> length pid' = 16%nat -> is_u64 g -> is_u64 g' ->
  seal_package cfg name pid g p eph nn = Ok env ->
  open_package cfg' name' pid' g' env local media = Ok p' ->
  (cfg' = cfg /\ name' = name /\ pid' = pid /\ g' = g /\ p' = p) \/
  exists pk aad0, decode_recipient (public_key cfg) = Ok pk /\
    recovery_aad cfg name pid g (mul_base_clamped eph) pk = Ok aad0 /\
    forged_for cfg' name' pid' g' env eph aad0.
Proof.
  intros He Hn Hl Hp Hp' Hg Hg' Hs.
  intros (id' & pk' & e & n & c & s & Hi' & Hpk' & Hel & Hnl & Hcl & -> & Henv & O)%open_package_ok.
  pose proof Hs as (id & pk & Hi & Hpk & Hc)%sealed_config.
  apply (seal_package_ok id pk) in Hs; [|done..].
  destruct Hs as [Hname _ _ (key & pt & c' & Hk & Hpt & Hct & _ & ->)].
  injection Henv as <-%b64_encode_inj <-%b64_encode_inj <-%b64_encode_inj. subst cfg.
  destruct O as [Hname' _ _ [Hsl _] _ Hx _ (key' & pt' & Hk' & Hd & Hpt') _].
  apply validate_profile_name_ok in Hname as [_ Hnl1], Hname' as [_ Hnl2].
  set (eph' := mul_base_clamped eph) in *.
  destruct (decide (aad_bytes id' name' pid' g' eph' pk' = aad_bytes id name pid g eph' pk)) as [E|E].
  - apply aad_bytes_inj in E as (-> & -> & -> & -> & _ & ->); [|done || by apply mul_base_length..].
    left. apply (zlen_length _ 32) in Hsl. unfold eph' in *.
    rewrite diffie_hellman, Hx, Hk in Hk' by (rewrite ?length_xor_bytes, ?Hl, ?Hsl; done).
    injection Hk' as <-. apply aead_decrypt_encrypt in Hct. rewrite Hct in Hd. injection Hd as <-.
    apply parse_key_package_ok in Hpt, Hpt'. split_and!; [done..|congruence].
  - right. exists pk, (aad_bytes id name pid g eph' pk).
    split; [by apply decode_encoded|]. split; [by apply (recovery_aad_ok _ id)|].
    apply (zlen_length _ 32) in Hsl. unfold eph' in *.
    rewrite diffie_hellman, Hx in Hk' by (rewrite ?length_xor_bytes, ?Hl, ?Hsl; done).
    exists nn, c', pk', (aad_bytes id' name' pid' g' (mul_base_clamped eph) pk'), key', pt'.
    split_and!; [by apply decode_encoded|by apply decode_ct_ok|by apply decode_encoded| |done..].
    by apply (recovery_aad_ok _ id').
Qed.
End properties.

(** ** The properties at concrete inputs *)
Module RecoveryRuns.
Import StandIn IpcStandIn.

Lemma be_bytes_mod n v : be_bytes n (v mod 2 ^ (8 * Z.of_nat n)) = be_bytes n v.
Proof.
  rewrite <-(be_bytes_add n (v / 2 ^ (8 * Z.of_nat n))), (Z.mul_comm (_ / _)).
  rewrite <-Z.div_mod; [done|]. apply Z.pow_nonzero; lia.
Qed.

(** Multiplication of 256-bit integers in place of the curve. *)
Definition scalar (s : bytes) : Z := of_be (canonicalize_x25519_private_input s).
#[export] Instance product_x25519 : X25519 := {|
  mul_base_clamped s := be_bytes 32 (9 * scalar s);
  mul_clamped p s := be_bytes 32 (of_be p * scalar s);
|}.
#[export] Instance product_x25519_laws : X25519Laws.
Proof.
  split; cbn -[be_bytes of_be]; intros; [apply length_be_bytes..|].
  rewrite !of_be_be_bytes, <-(be_bytes_mod 32 (_ * scalar b)), <-(be_bytes_mod 32 (_ * scalar a)).
  rewrite !Z.mul_mod_idemp_l by (apply Z.pow_nonzero; lia).
  by rewrite <-!Z.mul_assoc, (Z.mul_comm (scalar a)).
Qed.

Definition package_fields (p : KeyPackage) : list bytes :=
  [kp_profile_id p; be64 (kp_generation p); dek p; auth_seed p; audit_seed p;
   [if audit_initialized p then x01 else x00]].
Definition of_package_fields (fs : list bytes) : option KeyPackage :=
  match fs with
  | [a; b; c; d; e; [f]] =>
      Some {| kp_profile_id := a; kp_generation := of_be b; dek := c; auth_seed := d;
              audit_seed := e; audit_initialized := bool_decide (f = x01) |}
  | _ => None
  end.
Definition package_serializable (p : KeyPackage) : bool := in_range 0 U64_MAX (kp_generation p).
#[export] Instance package_json : Json KeyPackage :=
  fields_json package_fields of_package_fields package_serializable.
#[export] Instance package_json_laws : JsonLaws KeyPackage.
Proof.
  apply fields_json_laws; [|intros; cbn; lia]. intros p Hp%in_range_true.
  unfold of_package_fields, package_fields, be64.
  rewrite of_be_be_bytes_small by by apply is_u64_range. by destruct p as [????? []].
Qed.

Definition media_fields (m : RecoveryMedia) : list bytes :=
  [be32 (version m); media_recovery_id m; share m; checksum m].
Definition of_media_fields (fs : list bytes) : option RecoveryMedia :=
  match fs with
  | [a; b; c; d] =>
      Some {| version := of_be a; media_recovery_id := b; share := c; checksum := d |}
  | _ => None
  end.
Definition media_serializable (m : RecoveryMedia) : bool := in_range 0 U32_MAX (version m).
#[export] Instance media_json : Json RecoveryMedia :=
  fields_json media_fields of_media_fields media_serializable.
#[export] Instance media_json_laws : JsonLaws RecoveryMedia.
Proof.
  apply fields_json_laws; [|intros; cbn; lia]. intros m Hm%in_range_true.
  unfold of_media_fields, media_fields, be32.
  rewrite of_be_be_bytes_small by by apply is_u32_range. by destruct m.
Qed.

(** The first draw has a zero share and is repeated. *)
Definition draws : list (bytes * bytes) :=
  [(replicate 32 x41, zeros); (replicate 32 xc7, replicate 32 x5a)].
Definition id : bytes := replicate 32 x11.
Definition eph : bytes := replicate 32 x29.
Definition nn : bytes := replicate 12 x07.
Definition name : bytes := rs "ops".
Definition package : KeyPackage :=
  {| kp_profile_id := replicate 16 x42; kp_generation := 3; dek := replicate 32 x31;
     auth_seed := replicate 32 x32; audit_seed := replicate 32 x33; audit_initialized := true |}.
Definition generated : RecoveryConfig * bytes * bytes :=
  match generate_recovery draws id with
  | Some (Ok g) => g
  | _ => ({| config_recovery_id := []; public_key := [] |}, [], [])
  end.
Definition cfg : RecoveryConfig := generated.1.1.
Definition local : bytes := generated.1.2.
Definition media : bytes := generated.2.
Definition envelope : RecoveryEnvelope :=
  match seal_package cfg name (replicate 16 x42) 3 package eph nn with
  | Ok e => e
  | Err _ => {| ephemeral_public := []; nonce := []; ct := [] |}
  end.

Lemma drawn_draws : Forall drawn draws.
Proof. by repeat constructor. Qed.
Lemma generated_ok : generate_recovery draws id = Some (Ok (cfg, local, media)).
Proof. by vm_compute. Qed.
Lemma sealed_ok : seal_package cfg name (replicate 16 x42) 3 package eph nn = Ok envelope.
Proof. by vm_compute. Qed.
Lemma opened_ok :
  open_package cfg name (replicate 16 x42) 3 envelope local media = Ok package.
Proof. by vm_compute. Qed.

(** Both shares are needed, and the context. *)
Example wrong_share_is_refused :
  is_ok (open_package cfg name (replicate 16 x42) 3 envelope (replicate 32 x5b) media) = false.
Proof. by vm_compute. Qed.
Example wrong_name_is_refused :
  is_ok (open_package cfg (rs "dev") (replicate 16 x42) 3 envelope local media) = false.
Proof. by vm_compute. Qed.

Definition pk : bytes := mul_base_clamped (canonicalize_x25519_private_input (replicate 32 xc7)).
Lemma shared_nonzero pk' : public_key cfg = b64_encode pk' -> mul_clamped pk' eph <> zeros.
Proof.
  assert (public_key cfg = b64_encode pk) as -> by by vm_compute.
  intros <-%b64_encode_inj. by vm_compute.
Qed.

Lemma recovery_roundtrip_witness :
  exists env,
    seal_package cfg name (replicate 16 x42) 3 package eph nn = Ok env /\
    open_package cfg name (replicate 16 x42) 3 env local media = Ok package.
Proof.
  destruct (serialize_key_package package) as [pt|] eqn:Hpt; [|by vm_compute in Hpt].
  exact (recovery_roundtrip draws id cfg local media name package pt eph nn drawn_draws eq_refl
    eq_refl eq_refl generated_ok eq_refl Hpt shared_nonzero).
Defined.

Lemma media_hides_the_key_witness :
  exists s, forall p', canonical_key p' -> p' <> s ->
    exists l', length l' = 32%nat /\
      generate_recovery [(p', l')] id = Some (Ok (config_with id (mul_base_clamped p'), l', media)) /\
      forall l'' cfg'', length l'' = 32%nat ->
        generate_recovery [(p', l'')] id = Some (Ok (cfg'', l'', media)) -> l'' = l'.
Proof. exact (media_hides_the_key draws id cfg local media drawn_draws eq_refl generated_ok). Defined.

Lemma recovery_needs_the_shares_witness :
  exists id s s', parse_recovery_media media = Ok (media_with id s) /\
    parse_recovery_media media = Ok (media_with id s') /\
    let key := xor_bytes local s in let key' := xor_bytes local s' in
    canonical_key key /\ canonical_key key' /\
    public_key cfg = b64_encode (mul_base_clamped key) /\
    public_key cfg = b64_encode (mul_base_clamped key') /\
    (canonicalize_x25519_private_input key = canonicalize_x25519_private_input key' ->
     local = local <-> media = media).
Proof.
  exact (recovery_needs_the_shares cfg name name (replicate 16 x42) (replicate 16 x42) 3 3 envelope
    envelope local local media media package package eq_refl eq_refl opened_ok opened_ok).
Defined.

Lemma sealed_package_binds_context_witness :
  (cfg = cfg /\ name = name /\ replicate 16 x42 = replicate 16 x42 /\ 3 = 3 /\ package = package) \/
  exists pk aad0, decode_recipient (public_key cfg) = Ok pk /\
    recovery_aad cfg name (replicate 16 x42) 3 (mul_base_clamped eph) pk = Ok aad0 /\
    forged_for cfg name (replicate 16 x42) 3 envelope eph aad0.
Proof.
  apply (sealed_package_binds_context cfg name (replicate 16 x42) 3 package eph nn envelope
    cfg name (replicate 16 x42) 3 local media package eq_refl eq_refl eq_refl eq_refl eq_refl);
    [by split|by split|exact sealed_ok|exact opened_ok].
Defined.
End RecoveryRuns.
